(* ===== verification/_CoqProject ===== *)
-Q . S2P
Prelude.v
Conditions.v
ProjectTypes.v
Lifecycle.v
SpecUpdate.v
NodeTypes.v
Float64.v
Duration.v
Strconv.v
Quantity.v
Digest.v
AccessTypes.v
Database.v
Evolution.v
StatusStore.v
Legality.v
EvidenceStore.v
ProjectStore.v
Takeover.v
NodeStore.v
AccessStore.v
Authz.v
Authentication.v
SpecValidation.v
Adapter.v
Manager.v
Recovery.v
Scheduler.v
ProjectHandler.v
TokenRoutes.v
NodeRoutes.v
SecretRoutes.v
OverlayRoutes.v
AgentRoutes.v
Calendar.v
Failures.v
Paths.v
Tracker.v
Engine.v
SpecHash.v
Stores.v
Actions.v
Coordinator.v
Retention.v
DockerOwnership.v
DockerRuntime.v
DockerPlacing.v
DockerRepair.v
DockerRemoval.v
VolumeData.v
Health.v
Reports.v
BackupRunner.v
VolumeRestore.v
Cleanup.v
AgentSecrets.v
PgPlacement.v
DiskSwap.v
Archives.v
ArchiveRestore.v
Placement.v
LocalRecovery.v
PgRestore.v
Attempts.v
AgentLoop.v
DockerAgent.v
BackupAgent.v
Wire.v
Client.v
ClientServer.v
Continuity.v
System.v
