(* ===== verification/Prelude.v ===== *)
(** * Caravanserai: verification of the control plane

    Caravanserai runs small container Projects on volunteer Nodes. An API server
    keeps one record per Project and per Node in Postgres; a manager of
    controllers in the same process assigns Projects to Nodes, takes them away
    from Nodes that are lost, and deletes them; an Agent on each Node runs what
    it is assigned and reports back over the API. Several servers may run at
    once, any statement may fail or commit without its answer being seen, and a
    Node that is gone may come back still running what it was running. The
    program's answer is its record: every assignment carries a generation, an
    assignment that is given up leaves a cleanup obligation behind, and a record
    is kept until every Node that ever held the Project has said it removed what
    it held. This development models that record, everything that writes it,
    and proves what the record promises.

    ** Files and what they model

    Data and the rules over it (package api/v1):
    - [Prelude] (this file): Go's integers, strings, time and errors, the
      search and list lemmas all files share, the hint database [cara] and the
      tactics.
    - [Conditions]: condition.go, the condition list.
    - [ProjectTypes]: project_types.go, spec, status, recovery evidence,
      cleanup obligations, backup records and each function over them.
    - [Lifecycle]: phase_transition.go and finalization.go, who may move which
      phase and when a record may go.
    - [SpecUpdate]: spec_update.go, which spec changes an assigned Project takes.
    - [NodeTypes]: node_types.go, node_tier.go, validation.go.
    - [AccessTypes]: token_types.go, secret_types.go and the store's pre-auth
      keys, the tables they live in, and how a row of them may change.

    What the code takes from its libraries:
    - [Duration] (time.ParseDuration), [Float64] (IEEE doubles as integers),
      [Strconv] (strconv and strings), [Digest] (SHA-256, hex, base64url, and
      auth.go and keyref.go, which hash tokens and keys with them), [Calendar]
      (the RFC 3339 form of a time).
    - [Quantity]: internal/quantity, CPU and memory amounts.

    The database and the store (internal/store/postgres/store.go):
    - [Database]: the tables as maps, statements, schedules, weakest
      preconditions.
    - [Evolution]: the abstract specification. [row_inv] is the invariant of a
      row, [status_evolves] and [row_evolves] the contract of every change of a
      row within a lifetime, [others] and [others_unforced] of a change of the
      database, [safe] of an operation.
    - [Legality]: which kinds of status change keep [status_evolves].
    - [StatusStore], [EvidenceStore], [ProjectStore], [Takeover], [NodeStore],
      [AccessStore] and the first half of [SecretRoutes]: the operations of the
      store, each with the proof that it is [safe] and what it does exactly.

    The controllers' side:
    - [Adapter]: internal/server/adapter/project.go, the writes of the
      controllers: grants, releases, moves of Failed Projects, deadlines,
      finalization. The Node half of the adapters is in [NodeStore].
    - [Scheduler]: project_scheduler.go with its ledger, filter and score.
    - [Recovery]: node_health.go, project_rescheduler.go,
      failed_project_rescheduler.go, project_termination.go.
    - [Manager]: manager.go and workqueue.go, which run them, and event/bus.go.

    The HTTP side:
    - [Authz]: internal/server/authz, handler/errors.go.
    - [Authentication]: internal/server/auth, and the chain of apiserver/server.go.
    - [SpecValidation]: validateProjectSpecFor of handler/project/handler.go.
    - [ProjectHandler]: the Project routes of operators, [AgentRoutes] those of
      Agents.
    - [TokenRoutes], [NodeRoutes], [SecretRoutes], [OverlayRoutes]: the handlers
      of the package of the same name.

    [System]: all operations above, in flight together.

    The Agent on a Node (internal/agent):
    - [Failures]: its errors. [Paths]: volume/path.go and backup/keys.go over
      a model of path/filepath. [Tracker]: recovery.go, the failure records of
      spec_update.go, and the state machine of orphan.go.
    - [Actions]: the requests an Agent makes and the programs over them.
    - [VolumeData]: restore/marker.go, restore/decision.go, restoresupport.go.
      [PgRestore]: when pgrestore.go tries a restore.
    - [Health]: health.go and the judgements of loop.go. [Reports]: its reports.
    - [Cleanup]: cleanup.go, terminateOne and resolveOwnObligations.
    - [AgentSecrets]: resolveSecretsFor. [PgPlacement]: pgdiff.go.
      [Placement]: reconcileOne. [LocalRecovery]: healthCheckOne,
      recoverLocally and applySpecUpdate. [Attempts]: how often they restart.
    - [AgentLoop]: sweepOrphans, reconcileProjects, bootstrapRunningProjects.
    - The container runtime (internal/agent/docker): [Engine], the requests of
      the Docker engine's client; [SpecHash], ServiceSpecHash; [DockerOwnership],
      labels, filters and the helpers that check before they act;
      [DockerRuntime], ReconcileProject and what reads, stops and starts, and
      [DockerPlacing], what it may do; [DockerRepair], RecoverServices and
      UpdateServices; [DockerRemoval], RemoveAssignment, AssignmentRemaining and
      the orphans. [DockerAgent]: the loop on this runtime.

    ** State and operations

    A Project row is a [Database.ProjectRow]: the columns of the projects table.
    The status column is JSON; it is modelled by the status it decodes to,
    together with whether the JSON has a conditions key, which is what the
    statements that edit single conditions with jsonb_set depend on. A method
    that talks to the database is a [Database.prog]: a tree of the statements it
    sends, the clock readings it makes and the events it publishes, with the Go
    control flow between them. A statement is a function of the database it
    finds. A transaction that locks its row (SELECT ... FOR UPDATE) before it
    writes is one statement, since the lock is held until it commits and an
    error rolls all of it back. RevokeNodeTokens updates two tables without such
    a lock: it is two queries for the rows it matches and one write at its
    commit. The tables of credentials ([AccessTypes.Access]) are part of the
    same database; their timestamps are cut to microseconds as Postgres stores
    them, those of the older tables are kept as Go computed them, which no
    theorem depends on.

    [Evolution.db_inv] is the invariant all executions start from: every row
    satisfies [row_inv] with a UID drawn before, no Node has the empty name, and
    the tables of credentials satisfy [access_inv] (hashes are unique, a row
    has the id it is stored under, at most one token was issued for a join token,
    a Node token for its Node, and then that join token is used). The empty
    database satisfies it.

    [Database.run] executes a program against a schedule, which says before each
    step what the others did to the database, whether the statement ran, was
    lost, or committed with its answer lost, and what the clock showed. So the
    program sees arbitrary interleavings, statement by statement. [Database.wp]
    is the weakest precondition over the schedules whose interference satisfies
    a relation (rely) and demands of each own write another (guarantee);
    [wp_adequate] relates it to [run]. [Evolution.safe] says an operation keeps
    the contract whatever the others do as long as they keep it. [System] puts
    the operations together: a configuration is a database and the programs in
    flight, a step starts an operation, runs one statement, lets it fail, loses
    its answer, or kills the program. [System.execution] is the reflexive and
    transitive closure of the steps that give no name to a second lifetime;
    [System.operation] lists what may be started, all of it except a
    deletion with force. The six theorems about executions rest on these two
    assumptions and on nothing else; that they cannot be dropped is what
    [StatusStore.version_swap_crosses_lifetimes] shows of the first, and the
    meaning of force of the second.

    A method of the Agent is an [Actions.act]: a tree of its requests, to the
    server (client.go), to the container runtime (docker/runtime.go), to the
    proxy, to the repo host, to the disk, to the coordinator and to the clock,
    with the Go control flow over the answers, and changes of the memory of the
    process (the two trackers) in between. [Actions.answer] gives each request
    its type of answer, and nothing else is assumed of what answers: a
    [Actions.world] is any function of the history. [Actions.awp] is the weakest
    precondition over all answers, for programs that obey a protocol, a
    predicate on the history and the next request; [Actions.awp_adequate]
    relates it to [Actions.act_run]. The protocols ([Placement.reconcile_allowed],
    [LocalRecovery.health_allowed], [Cleanup.teardown_allowed],
    [AgentLoop.poll_allowed] and others) are the specification: for each request
    that changes something, what must have been seen, and in what order, before
    it may be made. The methods of the Docker runtime are such programs too, over
    the requests of the engine and the directories of volumes ([Engine]);
    [DockerAgent.on_docker] puts them in the place of the loop's requests to the
    runtime, and [DockerAgent.served] relates the two histories, so what is proved
    of the loop on any runtime holds of the loop on Docker. What an Agent may send to the server, with any content, is
    also [AgentRoutes.agent_call], and the server's promises hold for all of it.

    ** What the theorems show

    - The whole server ([System]): every record stays well-formed; a record
      outlives every assignment it ever made; a generation names one Node; an
      obligation is never lost and its evidence never taken back; deletion is
      final; credentials are final.
    - The swaps ([StatusStore]): the read-change-swap loops are atomic updates
      of the lifetime and the assignment they name, under any interference; a
      stale fence never writes.
    - Each writer ([Adapter], [ProjectStore], [EvidenceStore], [Takeover],
      [NodeStore]): exactly which row a grant, a release, a finalization, a
      piece of evidence, a backup, a takeover or a heartbeat may replace, and
      by what.
    - The controllers ([Scheduler], [Recovery], [Manager]): a Project is bound
      to the best Node that is eligible and has room; nothing is taken from a
      Node before its outage has lasted; Failed Projects move a bounded number of
      times, and NotReady follows the heartbeat; a name that waits in a queue is
      always brought to Reconcile while a worker lives.
    - The API ([Authentication], [Authz], [AgentRoutes], [ProjectHandler],
      [NodeRoutes], [SecretRoutes], [OverlayRoutes]): who a request is; what a
      Node's token can reach and change; what creation, deletion, a phase report, a
      heartbeat, a Secret and a revocation do, from request to response.
    - Credentials ([AccessStore], [TokenRoutes]): enrolment works and works once;
      revocation kills what there was when it began.
    - The rules ([Lifecycle], [ProjectTypes], [SpecUpdate], [SpecValidation],
      [Conditions]): each predicate of the code is equivalent to a declarative
      reading of it.
    - Quantities ([Quantity]) survive being written and read.
    - The Agent ([AgentLoop], [Placement], [LocalRecovery], [Cleanup],
      [VolumeData]): what it does to containers, data and reports, whatever it is
      answered. Running is reported only for a Project that was found or made
      complete, Terminated and cleanup evidence only for what was removed and
      listed as gone, data is used only when it is proven to be this
      assignment's, containers are touched only under the claim and for the
      assignment just confirmed, restarts are counted ([Attempts]), orphans are
      removed only after a grace period in which every poll confirmed the loss,
      waits end ([PgPlacement]), Secrets are resolved narrowly ([AgentSecrets]).
    - Docker ([DockerPlacing], [DockerRepair], [DockerRemoval], [DockerAgent]):
      nothing is changed before every container in the way was seen to be this
      assignment's, only what was shown to be the assignment's is started,
      stopped or removed, a repair makes no volume, an update pulls before it
      removes, shared networks and volumes wait for the last generation; what the
      Agent reports as gone Docker was asked for and did not list. The hash of a
      service says all a container is built from ([SpecHash]).
    - Some theorems and examples are about what goes wrong: the swap by version
      alone crosses lifetimes, SetNodeState overwrites a heartbeat, a join races
      with a revocation ([AccessStore.RevokeNodeTokens_races_with_join]), deleteNode
      strands a Project granted meanwhile ([NodeRoutes.deleteNode_strands_project]),
      a deadline inside Reconcile stops a controller
      ([Manager.deadline_stops_controller]), a CPU amount overflows
      ([Quantity.ParseCPU_overflows]), a Project that comes back is started on
      unproven data ([AgentLoop.returned_project_unproven]), an old grace period
      removes an orphan at once ([Tracker.orphan_removed_at_once]), one
      Project's restore erases the backoff of another's
      ([PgRestore.begin_forgets_others]), a failed start passes for an absent
      container ([DockerAgent.StartProject_hides_failed_start]), and a broken pull
      for a finished one ([DockerAgent.broken_pull_removes]).

    ** Parameters, bounds and fuel

    [Database.UUIDSource] stands for the uuid package: the n-th draw, no value
    twice; [Database.counter_uuids] instantiates it in the witnesses.
    The Postgres image the server is configured with is an argument of the
    handlers that compare with it, as are the random bytes of a new token, the
    answers of Headscale ([OverlayRoutes.HeadscaleClient]) and of a probed Agent,
    and when the caller of a revocation hangs up. Digests are computed, so
    nothing is assumed of SHA-256; where two digests must differ the theorem
    says so. The three retry loops of the store run three attempts, as the code
    does (maxRetries), by recursion on the number left. [Duration] reads one
    item of the text per unit of fuel and is given the text's length; every item
    is at least one byte, and [Duration.parse_items_fuel] shows more fuel changes
    nothing. The wait for PostgreSQL runs one round per unit of fuel; a round
    sleeps a second and the deadline is 90 seconds, so on a clock that goes on
    while the Agent sleeps 92 rounds are enough ([PgPlacement.waitPostgres_ends]).
    int64 fields (versions, generations, durations) are [Z]; what Go computes
    (generations, revisions, durations) is wrapped at 64 bits, what Postgres
    computes (version + 1, a bigint it refuses to overflow) is not.

    ** What is not modelled

    Of the Agent: what is behind its requests other than those to the container
    runtime, that is, the HTTP client, moving files for a restore, running a
    backup, the repo host, and the proxy; of the runtime, commands run in a
    container, one-shot containers, the Node's own containers and logs; the timers
    and channels of Run. The Docker engine itself answers anything. The HTTP client of
    Headscale and the tsnet library are other services' protocols. The command
    line, the configuration files, listening sockets, logging and tracing are
    input and output. JSON decoding is outside: a handler starts at the decoded
    value; response headers other than the status are left out. The goroutines
    that enqueue on a ticker are any enqueue at any time ([Manager]). *)
From Stdlib Require Import ZArith Lia.
From stdpp Require Import prelude gmap strings pretty.

Set Default Proof Using "Type".

Create HintDb cara discriminated.
Declare Scope go_scope.
Delimit Scope go_scope with go.

(** ** Go integers

    A Go [int64] (and [int], on the 64-bit platforms the program is built for)
    is a [Z] kept in range by [int64_wrap]. *)
Module GoInt.
Local Open Scope Z_scope.

Definition min_int64 : Z := - 2 ^ 63.
Definition max_int64 : Z := 2 ^ 63 - 1.

Definition int64_wrap (z : Z) : Z := (z + 2 ^ 63) mod 2 ^ 64 - 2 ^ 63.

Definition in_int64 (z : Z) : Prop := min_int64 ≤ z ≤ max_int64.

(** [a + b], [a * b] and [a - b] of two int64 values. *)
Definition add64 (a b : Z) : Z := int64_wrap (a + b).
Definition sub64 (a b : Z) : Z := int64_wrap (a - b).
Definition mul64 (a b : Z) : Z := int64_wrap (a * b).

Lemma int64_wrap_range z : in_int64 (int64_wrap z).
Proof.
  unfold in_int64, int64_wrap, min_int64, max_int64.
  pose proof (Z.mod_pos_bound (z + 2 ^ 63) (2 ^ 64) ltac:(lia)). lia.
Qed.

Lemma int64_wrap_id z : in_int64 z → int64_wrap z = z.
Proof.
  unfold in_int64, int64_wrap, min_int64, max_int64. intros H.
  rewrite Z.mod_small; lia.
Qed.

Lemma add64_id a b : in_int64 (a + b) → add64 a b = a + b.
Proof. apply int64_wrap_id. Qed.
Lemma sub64_id a b : in_int64 (a - b) → sub64 a b = a - b.
Proof. apply int64_wrap_id. Qed.
Lemma mul64_id a b : in_int64 (a * b) → mul64 a b = a * b.
Proof. apply int64_wrap_id. Qed.
End GoInt.

(** ** Package time

    A [time.Time] is the number of nanoseconds since Go's zero time
    (year 1), so the zero value is [0]; a [time.Duration] is an int64 number of
    nanoseconds. *)
Module GoTime.
Import GoInt.
Local Open Scope Z_scope.

Definition Time := Z.
Definition Duration := Z.

Definition zero : Time := 0.
Definition IsZero (t : Time) : bool := bool_decide (t = zero).
Definition Before (t u : Time) : bool := bool_decide (t < u).
Definition After (t u : Time) : bool := bool_decide (u < t).

(** [t.Sub(u)] saturates at the bounds of a Duration instead of wrapping. *)
Definition Sub (t u : Time) : Duration := Z.max min_int64 (Z.min max_int64 (t - u)).

Definition Second : Duration := 1000000000.
Definition Minute : Duration := 60 * Second.
Definition Hour : Duration := 60 * Minute.

Lemma Sub_range t u : in_int64 (Sub t u).
Proof. unfold Sub, in_int64, min_int64, max_int64. lia. Qed.

(** Comparing a saturated difference with a bound that is itself a Duration
    is the same as comparing the exact difference. *)
Lemma Sub_lt t u d : min_int64 < d ≤ max_int64 → Sub t u < d ↔ t - u < d.
Proof. unfold Sub, min_int64, max_int64. lia. Qed.
Lemma Sub_gt t u d : min_int64 ≤ d < max_int64 → d < Sub t u ↔ d < t - u.
Proof. unfold Sub, min_int64, max_int64. lia. Qed.
End GoTime.

(** ** Strings: the verbs of package fmt and helpers of package strings *)
Module GoString.
(** The double quote, which a literal cannot hold here. *)
Definition dquote : Ascii.ascii := Ascii.ascii_of_nat 34.
Definition backslash : Ascii.ascii := Ascii.ascii_of_nat 92.

Definition hex_digit (n : nat) : Ascii.ascii :=
  if Nat.ltb n 10 then Ascii.ascii_of_nat (48 + n) else Ascii.ascii_of_nat (87 + n).

(** One byte of [%q]: the escapes of strconv.Quote. Bytes from 0x80 up are
    taken to be parts of printable runes and stay as they are: the text of a
    quoted string with invalid UTF-8 or unprintable runes is not exact. *)
Definition quote_byte (c : Ascii.ascii) : string :=
  let n := Ascii.nat_of_ascii c in
  let esc (x : nat) := String backslash (String (Ascii.ascii_of_nat x) EmptyString) in
  if Nat.eqb n 34 then esc 34
  else if Nat.eqb n 92 then esc 92
  else if Nat.eqb n 7 then esc 97
  else if Nat.eqb n 8 then esc 98
  else if Nat.eqb n 12 then esc 102
  else if Nat.eqb n 10 then esc 110
  else if Nat.eqb n 13 then esc 114
  else if Nat.eqb n 9 then esc 116
  else if Nat.eqb n 11 then esc 118
  else if orb (Nat.ltb n 32) (Nat.eqb n 127) then
    String backslash (String (Ascii.ascii_of_nat 120)
      (String (hex_digit (Nat.div n 16)) (String (hex_digit (Nat.modulo n 16)) EmptyString)))
  else String c EmptyString.

Fixpoint quote_body (s : string) : string :=
  match s with
  | EmptyString => EmptyString
  | String c s' => String.append (quote_byte c) (quote_body s')
  end.

(** [fmt]'s [%q] of a string. *)
Definition Quote (s : string) : string :=
  String dquote (String.append (quote_body s) (String dquote EmptyString)).

(** [%d] of an integer. *)
Definition FormatInt (z : Z) : string := pretty z.

(** Every byte satisfies [f]. *)
Fixpoint all_bytes (f : Ascii.ascii → bool) (s : string) : bool :=
  match s with EmptyString => true | String c s' => f c && all_bytes f s' end.

(** [strings.Join]. *)
Fixpoint Join (xs : list string) (sep : string) : string :=
  match xs with
  | [] => EmptyString
  | [x] => x
  | x :: rest => String.append x (String.append sep (Join rest sep))
  end.
End GoString.

(** ** Errors

    Go errors are compared with [errors.Is] along their chain of wrapped
    errors. [Wrap pre e post] is [fmt.Errorf(pre + "%w" + post, e)]. *)
Module GoError.
Import GoString.

(** The sentinels of internal/store and internal/server that callers test
    for, and the faults a database call can end with. *)
Inductive sentinel :=
| ErrNotFound
| ErrAlreadyExists
| ErrWrongNode
| ErrConflictState
| ErrVersionConflict
| ErrStaleAssignment
| ErrServiceNotConfigured
| ErrOperatorUnauthorized
| ErrForbidden
| ErrInvalidJoinToken
| ErrUnauthenticated
| ContextCanceled
| DeadlineExceeded.
#[export] Instance sentinel_eq_dec : EqDecision sentinel.
Proof. solve_decision. Defined.

Inductive error :=
| Sentinel (s : sentinel)
| FinalizationBlockedError (Name Reason : string)
| SqlError (text : string)
| Wrap (pre : string) (e : error) (post : string).
#[export] Instance error_eq_dec : EqDecision error.
Proof. solve_decision. Defined.

Definition sentinel_text (s : sentinel) : string :=
  match s with
  | ErrNotFound => "resource not found"
  | ErrAlreadyExists => "resource already exists"
  | ErrWrongNode => "the token was issued for another Node"
  | ErrConflictState => "operation conflicts with current resource state"
  | ErrVersionConflict => "resource version conflict"
  | ErrStaleAssignment => "stale assignment fence"
  | ErrServiceNotConfigured => "service not configured"
  | ErrOperatorUnauthorized => "operator credential required"
  | ErrForbidden => "forbidden"
  | ErrInvalidJoinToken => "a valid, unused join token is required"
  | ErrUnauthenticated => "a valid bearer token is required"
  | ContextCanceled => "context canceled"
  | DeadlineExceeded => "context deadline exceeded"
  end.

(** [err.Error()]. *)
Fixpoint Error (e : error) : string :=
  match e with
  | Sentinel s => sentinel_text s
  | FinalizationBlockedError name reason =>
      (("project " ++ Quote name) ++ " cannot be finalized: ") ++ reason
  | SqlError text => text
  | Wrap pre e' post => (pre ++ Error e') ++ post
  end%string.

(** [errors.Is(err, target)]; FinalizationBlockedError has an [Is] method
    that answers for ErrConflictState. *)
Fixpoint Is (e : error) (target : sentinel) : bool :=
  match e with
  | Sentinel s => bool_decide (s = target)
  | FinalizationBlockedError _ _ => bool_decide (target = ErrConflictState)
  | SqlError _ => false
  | Wrap _ e' _ => Is e' target
  end.

(** [errors.As(err, &blocked)] for a *store.FinalizationBlockedError. *)
Fixpoint AsFinalizationBlocked (e : error) : option (string * string) :=
  match e with
  | FinalizationBlockedError name reason => Some (name, reason)
  | Wrap _ e' _ => AsFinalizationBlocked e'
  | _ => None
  end.

(** A fault of the database or of the request's context, as opposed to an
    answer the store gives about its data. *)
Fixpoint is_fault (e : error) : bool :=
  match e with
  | Sentinel ContextCanceled | Sentinel DeadlineExceeded | SqlError _ => true
  | Wrap _ e' _ => is_fault e'
  | _ => false
  end.

(** The value-or-error results of Go functions. *)
Inductive result (A : Type) :=
| Ok (a : A)
| Err (e : error).
#[global] Arguments Ok {A} a.
#[global] Arguments Err {A} e.

#[export] Instance result_eq_dec `{EqDecision A} : EqDecision (result A).
Proof. solve_decision. Defined.

Lemma Is_unique e s1 s2 :
  Is e s1 = true → Is e s2 = true → s1 = s2.
Proof.
  induction e; simpl; rewrite ?bool_decide_eq_true; intros; simplify_eq; auto.
Qed.

Lemma fault_is_not e s :
  is_fault e = true → s ≠ ContextCanceled → s ≠ DeadlineExceeded → Is e s = false.
Proof.
  induction e as [s'|name reason|t|pre e' IH post]; simpl; auto; [|done].
  intros Hf ??. apply bool_decide_eq_false_2. by destruct s'; intros <-.
Qed.
End GoError.

(** ** Lists *)
Section lists.
Context {A B : Type}.

(** [slices.Contains]. *)
Definition slices_Contains `{EqDecision A} (xs : list A) (x : A) : bool :=
  bool_decide (x ∈ xs).
Lemma slices_Contains_true `{EqDecision A} (xs : list A) x : slices_Contains xs x = true ↔ x ∈ xs.
Proof. unfold slices_Contains. by rewrite bool_decide_eq_true. Qed.
Lemma elem_of_rev (xs : list A) x : x ∈ rev xs ↔ x ∈ xs.
Proof. by rewrite !list_elem_of_In, <- in_rev. Qed.

(** The first element satisfying [f], as the [for ... return] loops find it. *)
Fixpoint find_first (f : A → bool) (xs : list A) : option A :=
  match xs with
  | [] => None
  | x :: rest => if f x then Some x else find_first f rest
  end.

(** Replaces the first element satisfying [f] through [g]; [None] when there
    is none. The shape of every loop that edits [list[i]] and returns. *)
Fixpoint update_first (f : A → bool) (g : A → A) (xs : list A) : option (list A) :=
  match xs with
  | [] => None
  | x :: rest => if f x then Some (g x :: rest) else cons x <$> update_first f g rest
  end.

Lemma find_first_Some f xs x :
  find_first f xs = Some x → x ∈ xs ∧ f x = true.
Proof.
  induction xs as [|y ys IH]; simpl; [done|].
  destruct (f y) eqn:E; intros H; simplify_eq.
  - split; [constructor|done].
  - destruct (IH H); split; [by constructor|done].
Qed.

Lemma find_first_None f xs :
  find_first f xs = None ↔ ∀ x, x ∈ xs → f x = false.
Proof.
  induction xs as [|y ys IH]; simpl.
  - split; [intros _ x Hx; by apply elem_of_nil in Hx | done].
  - destruct (f y) eqn:E.
    + split; [done|]. intros H. specialize (H y ltac:(constructor)). congruence.
    + rewrite IH. split.
      * intros H x [->|Hx]%elem_of_cons; auto.
      * intros H x Hx. apply H. by constructor.
Qed.

Lemma find_first_is_Some f xs :
  is_Some (find_first f xs) ↔ ∃ x, x ∈ xs ∧ f x = true.
Proof.
  split.
  - intros [x Hx]. exists x. by apply find_first_Some.
  - intros (x & Hx & Hf). destruct (find_first f xs) eqn:E; [eauto|].
    rewrite find_first_None in E. rewrite (E x Hx) in Hf. done.
Qed.

Lemma update_first_None f g xs :
  update_first f g xs = None ↔ ∀ x, x ∈ xs → f x = false.
Proof.
  rewrite <- find_first_None. induction xs as [|y ys IH]; simpl; [done|].
  destruct (f y); [done|]. rewrite fmap_None. apply IH.
Qed.

Lemma update_first_spec f g xs ys :
  update_first f g xs = Some ys →
  ∃ l x r, xs = l ++ x :: r ∧ ys = l ++ g x :: r ∧ f x = true ∧ find_first f xs = Some x
           ∧ Forall (λ y, f y = false) l.
Proof.
  revert ys. induction xs as [|y xs IH]; intros ys; simpl; [done|].
  destruct (f y) eqn:E; intros H; simplify_eq.
  - exists [], y, xs. auto.
  - apply fmap_Some in H as (zs & Hz & ->).
    destruct (IH _ Hz) as (l & x & r & -> & -> & ? & ? & ?).
    exists (y :: l), x, r. repeat split; auto.
Qed.

(** An edit that keeps [f] on the element it changes is seen by [f]'s lookup. *)
Lemma find_first_update f g xs ys :
  (∀ x, f x = true → f (g x) = true) →
  update_first f g xs = Some ys → find_first f ys = g <$> find_first f xs.
Proof.
  intros Hg. revert ys. induction xs as [|x xs IH]; intros ys; simpl; [done|].
  destruct (f x) eqn:E; intros H; simplify_eq/=.
  - by rewrite Hg.
  - apply fmap_Some in H as (zs & Hz & ->). simpl. rewrite E. auto.
Qed.

(** A lookup that never matches the edited element does not see the edit. *)
Lemma find_first_update_ne f f' g xs ys :
  (∀ x, f x = true → f' x = false ∧ f' (g x) = false) →
  update_first f g xs = Some ys → find_first f' ys = find_first f' xs.
Proof.
  intros Hg. revert ys. induction xs as [|x xs IH]; intros ys; simpl; [done|].
  destruct (f x) eqn:E; intros H; simplify_eq/=.
  - destruct (Hg x E) as [-> ->]. done.
  - apply fmap_Some in H as (zs & Hz & ->). simpl. by rewrite (IH zs).
Qed.

Lemma update_first_fmap {K} (key : A → K) f g xs ys :
  (∀ x, key (g x) = key x) → update_first f g xs = Some ys → key <$> ys = key <$> xs.
Proof.
  intros Hg (l & x & r & -> & -> & _)%update_first_spec.
  by rewrite !fmap_app, !fmap_cons, Hg.
Qed.

Lemma find_first_app f xs ys :
  find_first f (xs ++ ys) =
  match find_first f xs with Some x => Some x | None => find_first f ys end.
Proof. induction xs as [|x xs IH]; simpl; [done|]. by destruct (f x). Qed.
End lists.

(** Booleans produced by [bool_decide] and by comparisons, turned into the
    propositions they decide, everywhere in the context. *)
Ltac bools :=
  repeat match goal with
  | H : context [bool_decide _ = true] |- _ => rewrite bool_decide_eq_true in H
  | H : context [bool_decide _ = false] |- _ => rewrite bool_decide_eq_false in H
  | H : context [andb _ _ = true] |- _ => rewrite andb_true_iff in H
  | H : context [andb _ _ = false] |- _ => rewrite andb_false_iff in H
  | H : context [orb _ _ = true] |- _ => rewrite orb_true_iff in H
  | H : context [orb _ _ = false] |- _ => rewrite orb_false_iff in H
  | H : context [negb _ = true] |- _ => rewrite negb_true_iff in H
  | H : context [negb _ = false] |- _ => rewrite negb_false_iff in H
  | H : context [Is_true _] |- _ => rewrite Is_true_true in H
  | |- context [bool_decide _ = true] => rewrite bool_decide_eq_true
  | |- context [bool_decide _ = false] => rewrite bool_decide_eq_false
  | |- context [andb _ _ = true] => rewrite andb_true_iff
  | |- context [orb _ _ = true] => rewrite orb_true_iff
  | |- context [negb _ = true] => rewrite negb_true_iff
  | |- context [negb _ = false] => rewrite negb_false_iff
  end.

(** Splits every [if], [match] and [bool_decide] of the goal or of [H]. *)
Ltac cases_in H :=
  repeat (first
    [ progress simplify_eq/=
    | match type of H with
      | context [match ?x with _ => _ end] =>
          lazymatch x with context [match _ with _ => _ end] => fail | _ => destruct x eqn:? end
      end ]).
Ltac cases_goal :=
  repeat (first
    [ progress simplify_eq/=
    | match goal with
      | |- context [match ?x with _ => _ end] =>
          lazymatch x with context [match _ with _ => _ end] => fail | _ => destruct x eqn:? end
      end ]).

#[export] Hint Resolve GoInt.int64_wrap_range GoTime.Sub_range : cara.
