(* ===== verification/Conditions.v ===== *)
(** Conditions (api/v1/condition.go): the condition types, their staleness
    rule, and the two list operations every writer of status.conditions uses.
    The theorems say when [UpsertCondition] keeps the stored timestamps, that
    it touches one condition only, and that [RemoveConditions] drops exactly
    the types it is given. *)
From Stdlib Require Import ZArith Lia.
From stdpp Require Import prelude strings.
From S2P Require Import Prelude.
Import GoTime.

Set Default Proof Using "Type".

(** Named string types of the source stay strings: a stored or received value
    can be any string, and the constants are the recognised ones. *)
Definition ConditionStatus := string.
Definition ConditionTrue : ConditionStatus := "True".
Definition ConditionFalse : ConditionStatus := "False".
Definition ConditionUnknown : ConditionStatus := "Unknown".

Definition ConditionType := string.
Definition ConditionTypeReady : ConditionType := "Ready".
Definition ConditionTypePhase : ConditionType := "Phase".
Definition ConditionTypeTerminatingAt : ConditionType := "TerminatingAt".
Definition ConditionTypeTerminationBlocked : ConditionType := "TerminationBlocked".
Definition ConditionTypeFinalizationBlocked : ConditionType := "FinalizationBlocked".
Definition ConditionTypeNotReadyAt : ConditionType := "NotReadyAt".
Definition ConditionTypeMaintenance : ConditionType := "Maintenance".
Definition ConditionTypeRecoveryBlocked : ConditionType := "RecoveryBlocked".
Definition ConditionTypeSchedulingBlocked : ConditionType := "SchedulingBlocked".
Definition ConditionTypeTeardownBlocked : ConditionType := "TeardownBlocked".
Definition ConditionTypeTakeoverRequired : ConditionType := "TakeoverRequired".
Definition ConditionTypeRescheduleExhausted : ConditionType := "RescheduleExhausted".
Definition ConditionTypeBackupActive : ConditionType := "BackupActive".
Definition ConditionTypeBackupFailing : ConditionType := "BackupFailing".
Definition ConditionTypeDataRestored : ConditionType := "DataRestored".
Definition ConditionTypeSpecApplied : ConditionType := "SpecApplied".
Definition ConditionTypeDiskPressure : ConditionType := "DiskPressure".
Definition ConditionTypeMemoryPressure : ConditionType := "MemoryPressure".

Definition ReasonNoAcceptedBackup : string := "NoAcceptedBackup".
Definition ReasonBackupAccepted : string := "BackupAccepted".
Definition ReasonSpecUpdatePending : string := "UpdatePending".
Definition ReasonSpecApplied : string := "Applied".

Definition MaintenanceStaleAfter : Duration := (30 * Minute)%Z.

Record Condition := {
  cond_Type : ConditionType;
  cond_Status : ConditionStatus;
  cond_LastHeartbeatTime : Time;
  cond_LastTransitionTime : Time;
  cond_Reason : string;
  cond_Message : string
}.

#[export] Instance Condition_eq_dec : EqDecision Condition.
Proof. solve_decision. Defined.

(** A condition literal that names no LastHeartbeatTime. *)
Definition mkCondition (t : ConditionType) (s : ConditionStatus) (reason message : string)
    (at_ : Time) : Condition :=
  {| cond_Type := t; cond_Status := s; cond_LastHeartbeatTime := zero;
     cond_LastTransitionTime := at_; cond_Reason := reason; cond_Message := message |}.

Definition has_type (t : ConditionType) (c : Condition) : bool :=
  bool_decide (cond_Type c = t).

(** The loop returns at the first Maintenance condition it meets. *)
Fixpoint IsMaintenanceActive (conditions : list Condition) (now : Time) : bool :=
  match conditions with
  | [] => false
  | c :: rest =>
      if negb (has_type ConditionTypeMaintenance c) then IsMaintenanceActive rest now
      else if negb (bool_decide (cond_Status c = ConditionTrue)) then false
      else bool_decide (Sub now (cond_LastTransitionTime c) < MaintenanceStaleAfter)%Z
  end.

Definition same_content (old cond : Condition) : bool :=
  bool_decide (cond_Status old = cond_Status cond) &&
  bool_decide (cond_Reason old = cond_Reason cond) &&
  bool_decide (cond_Message old = cond_Message cond).

(** What [conditions[i]] becomes when it carries [cond]'s type. *)
Definition merge_condition (cond : Condition) (transitioned : bool) (old : Condition) : Condition :=
  if negb transitioned && same_content old cond then
    {| cond_Type := cond_Type cond; cond_Status := cond_Status cond;
       cond_LastHeartbeatTime := cond_LastHeartbeatTime old;
       cond_LastTransitionTime := cond_LastTransitionTime old;
       cond_Reason := cond_Reason cond; cond_Message := cond_Message cond |}
  else cond.

Definition UpsertCondition (conditions : list Condition) (cond : Condition)
    (transitioned : bool) : list Condition :=
  match update_first (has_type (cond_Type cond)) (merge_condition cond transitioned) conditions with
  | Some conditions' => conditions'
  | None => conditions ++ [cond]
  end.

Definition RemoveConditions (conditions : list Condition) (types : list ConditionType)
    : list Condition :=
  match conditions with
  | [] => []
  | _ => filter (λ c, cond_Type c ∉ types) conditions
  end.

(** The first condition of type [t], as the readers look it up. *)
Definition condition_of (t : ConditionType) (conditions : list Condition) : option Condition :=
  find_first (has_type t) conditions.

(** ** Lookup after the two operations *)

Lemma has_type_spec t c : has_type t c = true ↔ cond_Type c = t.
Proof. unfold has_type. by bools. Qed.

Lemma has_type_false t c : has_type t c = false ↔ cond_Type c ≠ t.
Proof. unfold has_type. by bools. Qed.

Lemma merge_condition_type c b old : cond_Type (merge_condition c b old) = cond_Type c.
Proof. unfold merge_condition. by destruct (negb b && _). Qed.

Lemma merge_condition_status c b old : cond_Status (merge_condition c b old) = cond_Status c.
Proof. unfold merge_condition. by destruct (negb b && _). Qed.

Lemma condition_of_app_r t l r :
  Forall (λ c, has_type t c = false) l → condition_of t (l ++ r) = condition_of t r.
Proof.
  unfold condition_of. induction 1 as [|c l Hc _ IH]; simpl; [done|]. by rewrite Hc.
Qed.

Lemma condition_of_type t cs c : condition_of t cs = Some c → cond_Type c = t.
Proof. intros [_ H%has_type_spec]%find_first_Some. done. Qed.

Lemma condition_of_None_Forall t cs :
  condition_of t cs = None → Forall (λ c, has_type t c = false) cs.
Proof. unfold condition_of. rewrite find_first_None. by rewrite list.Forall_forall. Qed.

(** The condition the list holds for [cond]'s type after an upsert. *)
Lemma condition_of_upsert cs cond b :
  condition_of (cond_Type cond) (UpsertCondition cs cond b) =
  Some (from_option (merge_condition cond b) cond (condition_of (cond_Type cond) cs)).
Proof.
  unfold UpsertCondition. destruct (update_first _ _ _) as [ys|] eqn:E.
  - apply update_first_spec in E as (l & x & r & -> & -> & Hx & Hfind & Hl).
    unfold condition_of in Hfind |- *. rewrite Hfind; simpl.
    change (condition_of (cond_Type cond) (l ++ merge_condition cond b x :: r)
            = Some (merge_condition cond b x)).
    rewrite condition_of_app_r by done. unfold condition_of; simpl.
    rewrite (proj2 (has_type_spec _ _)); [done|]. apply merge_condition_type.
  - rewrite update_first_None in E.
    assert (condition_of (cond_Type cond) cs = None) as Hn by (by apply (proj2 (find_first_None _ _))).
    rewrite Hn; simpl. rewrite condition_of_app_r by (by apply condition_of_None_Forall).
    unfold condition_of; simpl. by rewrite (proj2 (has_type_spec _ _)).
Qed.

Lemma condition_of_skip t l c r :
  cond_Type c ≠ t → condition_of t (l ++ c :: r) = condition_of t (l ++ r).
Proof.
  intros Hc%has_type_false. unfold condition_of.
  induction l as [|d l IH]; simpl; [by rewrite Hc|]. by destruct (has_type t d).
Qed.

Lemma condition_of_upsert_ne t cs cond b :
  cond_Type cond ≠ t → condition_of t (UpsertCondition cs cond b) = condition_of t cs.
Proof.
  intros Hne. unfold UpsertCondition. destruct (update_first _ _ _) as [ys|] eqn:E.
  - apply update_first_spec in E as (l & x & r & -> & -> & Hx%has_type_spec & _ & _).
    rewrite !condition_of_skip; [done|congruence|by rewrite merge_condition_type].
  - rewrite condition_of_skip by done. by rewrite app_nil_r.
Qed.

Lemma RemoveConditions_filter cs ts : RemoveConditions cs ts = filter (λ c, cond_Type c ∉ ts) cs.
Proof. by destruct cs. Qed.

Lemma condition_of_remove t cs ts :
  condition_of t (RemoveConditions cs ts) =
  if bool_decide (t ∈ ts) then None else condition_of t cs.
Proof.
  rewrite RemoveConditions_filter. unfold condition_of.
  induction cs as [|c cs IH]; simpl; [by case_bool_decide|].
  rewrite filter_cons. destruct (has_type t c) eqn:Ht.
  - apply has_type_spec in Ht as Ht'. destruct (decide (cond_Type c ∈ ts)) as [Hc|Hc].
    + rewrite decide_False, IH by tauto. rewrite Ht' in Hc. by rewrite bool_decide_eq_true_2.
    + rewrite decide_True by done. simpl. rewrite Ht. rewrite Ht' in Hc.
      by rewrite bool_decide_eq_false_2.
  - destruct (decide (cond_Type c ∉ ts)); simpl; rewrite ?Ht; apply IH.
Qed.

Lemma elem_of_upsert c cs cond b :
  c ∈ UpsertCondition cs cond b →
  c ∈ cs ∨ (∃ old, c = merge_condition cond b old) ∨ c = cond.
Proof.
  unfold UpsertCondition. destruct (update_first _ _ _) as [ys|] eqn:E.
  - apply update_first_spec in E as (l & x & r & -> & -> & _).
    rewrite !elem_of_app, !elem_of_cons. naive_solver.
  - rewrite elem_of_app, list_elem_of_singleton. naive_solver.
Qed.

Lemma UpsertCondition_nonempty cs cond b : UpsertCondition cs cond b ≠ [].
Proof.
  unfold UpsertCondition. destruct (update_first _ _ _) as [ys|] eqn:E.
  - apply update_first_spec in E as (l & x & r & -> & -> & _). by destruct l.
  - by destruct cs.
Qed.

#[export] Hint Resolve UpsertCondition_nonempty merge_condition_type : cara.


(** ** Properties *)

(** (condition.go, UpsertCondition): one condition of the written type
    changes and no other is touched. The stored timestamps survive exactly
    when the incoming condition repeats status, reason and message and the
    caller does not declare a transition; otherwise the incoming condition is
    stored as given. *)
Theorem UpsertCondition_timestamps (cs : list Condition) (cond : Condition) (transitioned : bool) :
  (∀ t, t ≠ cond_Type cond →
     condition_of t (UpsertCondition cs cond transitioned) = condition_of t cs) ∧
  match condition_of (cond_Type cond) cs with
  | Some old =>
      condition_of (cond_Type cond) (UpsertCondition cs cond transitioned) =
        Some (if negb transitioned && same_content old cond
              then {| cond_Type := cond_Type cond; cond_Status := cond_Status cond;
                      cond_LastHeartbeatTime := cond_LastHeartbeatTime old;
                      cond_LastTransitionTime := cond_LastTransitionTime old;
                      cond_Reason := cond_Reason cond; cond_Message := cond_Message cond |}
              else cond)
      ∧ length (UpsertCondition cs cond transitioned) = length cs
  | None => UpsertCondition cs cond transitioned = cs ++ [cond]
  end.
Proof.
  split; [intros t Ht; by apply condition_of_upsert_ne|].
  pose proof (condition_of_upsert cs cond transitioned) as Hup.
  destruct (condition_of (cond_Type cond) cs) as [old|] eqn:E; simpl in Hup.
  - split; [exact Hup|]. unfold UpsertCondition.
    destruct (update_first _ _ _) as [ys|] eqn:Ey.
    + apply update_first_spec in Ey as (l & x & r & -> & -> & _).
      by rewrite !length_app.
    + rewrite update_first_None in Ey. rewrite <- find_first_None in Ey.
      unfold condition_of in E. congruence.
  - unfold UpsertCondition. destruct (update_first _ _ _) as [ys|] eqn:Ey; [|done].
    apply update_first_spec in Ey as (l & x & r & -> & _ & _ & Hf & _).
    unfold condition_of in E. congruence.
Qed.

(** A report that repeats what is stored is a no-op on the list: the status
    bytes do not move, so nothing downstream has to be written. *)
Lemma UpsertCondition_repeat cs cond :
  condition_of (cond_Type cond) cs = Some cond →
  UpsertCondition cs cond false = cs.
Proof.
  intros H. unfold UpsertCondition. destruct (update_first _ _ _) as [ys|] eqn:Ey.
  - apply update_first_spec in Ey as (l & x & r & -> & -> & _ & Hf & _).
    unfold condition_of in H. rewrite Hf in H. simplify_eq.
    f_equal. f_equal. unfold merge_condition, same_content.
    rewrite !bool_decide_eq_true_2 by done. simpl. by destruct cond.
  - rewrite update_first_None in Ey. rewrite <- find_first_None in Ey.
    unfold condition_of in H. congruence.
Qed.
