(* ===== verification/ProjectTypes.v ===== *)
(** The Project resource (api/v1/project_types.go): its spec, its status with
    the recovery evidence and the backup state, and every method of them.
    A nil slice and an empty one are the same empty list; a nil pointer is
    [None]. The theorems of this file are about cleanup obligations, the
    record of the Nodes that may still hold a Project's resources. *)
From Stdlib Require Import ZArith Lia.
From stdpp Require Import prelude gmap strings.
From S2P Require Import Prelude.
From S2P Require Import Conditions.
Import GoTime GoInt.

Set Default Proof Using "Type".

(** ** Enumerations: named string types *)

Definition ProjectPhase := string.
Definition ProjectPhasePending : ProjectPhase := "Pending".
Definition ProjectPhaseScheduled : ProjectPhase := "Scheduled".
Definition ProjectPhaseRunning : ProjectPhase := "Running".
Definition ProjectPhaseFailed : ProjectPhase := "Failed".
Definition ProjectPhaseTerminating : ProjectPhase := "Terminating".
Definition ProjectPhaseTerminated : ProjectPhase := "Terminated".

Definition ProjectPhase_IsValid (p : ProjectPhase) : bool :=
  if decide (p = ProjectPhasePending) then true
  else if decide (p = ProjectPhaseScheduled) then true
  else if decide (p = ProjectPhaseRunning) then true
  else if decide (p = ProjectPhaseFailed) then true
  else if decide (p = ProjectPhaseTerminating) then true
  else if decide (p = ProjectPhaseTerminated) then true
  else false.

(** The "enum" of the published JSON Schema of each type. *)
Definition ProjectPhase_JSONSchema : list string :=
  [ProjectPhasePending; ProjectPhaseScheduled; ProjectPhaseRunning;
   ProjectPhaseFailed; ProjectPhaseTerminating; ProjectPhaseTerminated].

Definition AssignmentHistory := string.
Definition AssignmentHistoryNeverAssigned : AssignmentHistory := "NeverAssigned".
Definition AssignmentHistoryKnown : AssignmentHistory := "Known".
Definition AssignmentHistoryUnknown : AssignmentHistory := "Unknown".

Definition AssignmentHistory_IsValid (h : AssignmentHistory) : bool :=
  if decide (h = AssignmentHistoryNeverAssigned) then true
  else if decide (h = AssignmentHistoryKnown) then true
  else if decide (h = AssignmentHistoryUnknown) then true
  else false.

Definition AssignmentHistory_JSONSchema : list string :=
  [AssignmentHistoryNeverAssigned; AssignmentHistoryKnown; AssignmentHistoryUnknown].

Definition VolumeType := string.
Definition VolumeTypeManaged : VolumeType := "Managed".
Definition VolumeTypeEphemeral : VolumeType := "Ephemeral".

Definition VolumeOnMissing := string.
Definition VolumeOnMissingInitializeEmpty : VolumeOnMissing := "InitializeEmpty".

Definition IngressScope := string.
Definition IngressScopeInternal : IngressScope := "Internal".

Definition TakeoverOutcome := string.
Definition TakeoverReleased : TakeoverOutcome := "AssignmentReleased".
Definition TakeoverObligationOverridden : TakeoverOutcome := "ObligationOverridden".

Definition BackupStrategy := string.
Definition BackupStrategyOffline : BackupStrategy := "Offline".
Definition BackupStrategyPostgresDifferential : BackupStrategy := "PostgresDifferential".

Definition PostgresDifferentialImage : string := "ghcr.io/nycu-sdc/cara-postgres:16".
Definition PostgresDifferentialDataPath : string := "/var/lib/postgresql/data".

Definition MinRetainFull : Z := 1.
Definition MaxRetainFull : Z := 12.
Definition DefaultRetainFull : Z := 4.

Definition ProjectSize := string.
Definition ProjectSizeSmall : ProjectSize := "Small".
Definition ProjectSizeMedium : ProjectSize := "Medium".
Definition ProjectSizeLarge : ProjectSize := "Large".
Definition DefaultProjectSize : ProjectSize := ProjectSizeMedium.

Definition ReleaseAuthorizationKind := string.
Definition ReleaseByWorkloadStopped : ReleaseAuthorizationKind := "WorkloadStopped".
Definition ReleaseByDeletion : ReleaseAuthorizationKind := "Deletion".
Definition ReleaseByProviderFencing : ReleaseAuthorizationKind := "ProviderFencing".
Definition ReleaseByOperatorOverride : ReleaseAuthorizationKind := "OperatorOverride".
Definition ReleaseByGraceExpired : ReleaseAuthorizationKind := "GraceExpired".
Definition ReleaseByLeaseExpired : ReleaseAuthorizationKind := "LeaseExpired".

(** ** The spec *)

Record SecretKeySelector := { sks_Name : string; sks_Key : string }.
Record EnvVarSource := { evs_SecretKeyRef : option SecretKeySelector }.
Record EnvVar := { ev_Name : string; ev_Value : string; ev_ValueFrom : option EnvVarSource }.
Record VolumeMount := { vm_Name : string; vm_MountPath : string }.
Record ServiceDef := {
  svc_Name : string;
  svc_Image : string;
  svc_Command : list string;
  svc_Env : list EnvVar;
  svc_VolumeMounts : list VolumeMount
}.
Record VolumeDef := { vol_Name : string; vol_Type : VolumeType }.
Record IngressTarget := { it_Service : string; it_Port : Z }.
Record IngressAccess := { ia_Scope : IngressScope }.
Record IngressDef := {
  ing_Name : string;
  ing_Host : string;
  ing_Target : IngressTarget;
  ing_Access : IngressAccess
}.
Record BackupItem := {
  bi_Volume : string;
  bi_Strategy : BackupStrategy;
  bi_RetainFull : option Z
}.
Record ProjectBackupConfig := {
  bc_Interval : string;
  bc_OnMissing : VolumeOnMissing;
  bc_Items : list BackupItem
}.
Record ProjectSpec := {
  sp_Size : ProjectSize;
  sp_Services : list ServiceDef;
  sp_Volumes : list VolumeDef;
  sp_Backup : option ProjectBackupConfig;
  sp_Ingress : list IngressDef;
  sp_ExpireAt : option Time;
  sp_RestartedAt : option Time
}.

#[export] Instance SecretKeySelector_eq_dec : EqDecision SecretKeySelector.
Proof. solve_decision. Defined.
#[export] Instance EnvVarSource_eq_dec : EqDecision EnvVarSource.
Proof. solve_decision. Defined.
#[export] Instance EnvVar_eq_dec : EqDecision EnvVar.
Proof. solve_decision. Defined.
#[export] Instance VolumeMount_eq_dec : EqDecision VolumeMount.
Proof. solve_decision. Defined.
#[export] Instance ServiceDef_eq_dec : EqDecision ServiceDef.
Proof. solve_decision. Defined.
#[export] Instance VolumeDef_eq_dec : EqDecision VolumeDef.
Proof. solve_decision. Defined.
#[export] Instance IngressTarget_eq_dec : EqDecision IngressTarget.
Proof. solve_decision. Defined.
#[export] Instance IngressAccess_eq_dec : EqDecision IngressAccess.
Proof. solve_decision. Defined.
#[export] Instance IngressDef_eq_dec : EqDecision IngressDef.
Proof. solve_decision. Defined.
#[export] Instance BackupItem_eq_dec : EqDecision BackupItem.
Proof. solve_decision. Defined.
#[export] Instance ProjectBackupConfig_eq_dec : EqDecision ProjectBackupConfig.
Proof. solve_decision. Defined.
#[export] Instance ProjectSpec_eq_dec : EqDecision ProjectSpec.
Proof. solve_decision. Defined.

(** The zero value of the spec, and one with a new restart time. *)
Definition empty_spec : ProjectSpec :=
  {| sp_Size := EmptyString; sp_Services := []; sp_Volumes := []; sp_Backup := None;
     sp_Ingress := []; sp_ExpireAt := None; sp_RestartedAt := None |}.

Definition sp_with_RestartedAt (t : option Time) (s : ProjectSpec) : ProjectSpec :=
  {| sp_Size := sp_Size s; sp_Services := sp_Services s; sp_Volumes := sp_Volumes s;
     sp_Backup := sp_Backup s; sp_Ingress := sp_Ingress s; sp_ExpireAt := sp_ExpireAt s;
     sp_RestartedAt := t |}.

Definition EffectiveRetainFull (i : BackupItem) : Z :=
  match bi_RetainFull i with None => DefaultRetainFull | Some n => n end.

Definition backup_items (s : ProjectSpec) : list BackupItem :=
  match sp_Backup s with None => [] | Some b => bc_Items b end.

Definition BackupStrategyFor (s : ProjectSpec) (volume : string) : BackupStrategy :=
  match find_first (λ item, bool_decide (bi_Volume item = volume)) (backup_items s) with
  | Some item => bi_Strategy item
  | None => BackupStrategyOffline
  end.

(** The element-wise comparison of SameBackupItems' loop; the lengths have
    been compared before it. *)
Fixpoint same_items (ai bi : list BackupItem) : bool :=
  match ai, bi with
  | a :: ai', b :: bi' =>
      if negb (bool_decide (bi_Volume a = bi_Volume b))
         || negb (bool_decide (bi_Strategy a = bi_Strategy b)) then false
      else match bi_RetainFull a, bi_RetainFull b with
           | None, Some _ | Some _, None => false
           | Some x, Some y => if bool_decide (x = y) then same_items ai' bi' else false
           | None, None => same_items ai' bi'
           end
  | _, _ => true
  end.

Definition SameBackupItems (a b : ProjectSpec) : bool :=
  let ai := backup_items a in
  let bi := backup_items b in
  if negb (Nat.eqb (length ai) (length bi)) then false else same_items ai bi.

Definition HasPostgresDifferential (s : ProjectSpec) : bool :=
  existsb (λ v, bool_decide (vol_Type v = VolumeTypeManaged) &&
                bool_decide (BackupStrategyFor s (vol_Name v) = BackupStrategyPostgresDifferential))
          (sp_Volumes s).

Definition HasManagedVolume (s : ProjectSpec) : bool :=
  existsb (λ v, bool_decide (vol_Type v = VolumeTypeManaged)) (sp_Volumes s).

Record ResourceRequests := { CPUMilli : Z; MemoryBytes : Z }.
#[export] Instance ResourceRequests_eq_dec : EqDecision ResourceRequests.
Proof. solve_decision. Defined.

Definition projectSizeRequests (s : ProjectSize) : option ResourceRequests :=
  if decide (s = ProjectSizeSmall) then
    Some {| CPUMilli := 500; MemoryBytes := Z.shiftl 512 20 |}
  else if decide (s = ProjectSizeMedium) then
    Some {| CPUMilli := 1000; MemoryBytes := Z.shiftl 2 30 |}
  else if decide (s = ProjectSizeLarge) then
    Some {| CPUMilli := 2000; MemoryBytes := Z.shiftl 4 30 |}
  else None.

Definition ProjectSize_IsValid (s : ProjectSize) : bool :=
  match projectSizeRequests s with Some _ => true | None => false end.

Definition no_requests : ResourceRequests := {| CPUMilli := 0; MemoryBytes := 0 |}.

Definition Requests (s : ProjectSize) : ResourceRequests :=
  match projectSizeRequests s with
  | Some r => r
  | None => default no_requests (projectSizeRequests DefaultProjectSize)
  end.

Definition ProjectSize_JSONSchema : list string :=
  [ProjectSizeSmall; ProjectSizeMedium; ProjectSizeLarge].

Definition EffectiveSize (s : ProjectSpec) : ProjectSize :=
  if decide (sp_Size s = EmptyString) then DefaultProjectSize else sp_Size s.

(** ** The status *)

Record AssignmentIdentity := {
  ProjectUID : string;
  NodeName : string;
  ai_Generation : Z
}.
#[export] Instance AssignmentIdentity_eq_dec : EqDecision AssignmentIdentity.
Proof. solve_decision. Defined.

Record WorkloadStoppedEvidence := { ws_Assignment : AssignmentIdentity; ws_ObservedAt : Time }.
Record ManagedDataQuarantinedEvidence := { mq_ObservedAt : Time }.
Record ResourcesRemovedEvidence := { rr_ObservedAt : Time }.
#[export] Instance WorkloadStoppedEvidence_eq_dec : EqDecision WorkloadStoppedEvidence.
Proof. solve_decision. Defined.
#[export] Instance ManagedDataQuarantinedEvidence_eq_dec : EqDecision ManagedDataQuarantinedEvidence.
Proof. solve_decision. Defined.
#[export] Instance ResourcesRemovedEvidence_eq_dec : EqDecision ResourcesRemovedEvidence.
Proof. solve_decision. Defined.

Record CleanupObligation := {
  ob_Assignment : AssignmentIdentity;
  ob_ReleasedAt : Time;
  ob_ReleaseAuthorization : ReleaseAuthorizationKind;
  ob_ResourcesRemoved : option ResourcesRemovedEvidence;
  ob_ManagedDataOwed : bool;
  ob_ManagedDataQuarantined : option ManagedDataQuarantinedEvidence
}.
#[export] Instance CleanupObligation_eq_dec : EqDecision CleanupObligation.
Proof. solve_decision. Defined.

Record CommittedBackup := {
  cb_BackupID : string;
  cb_Assignment : AssignmentIdentity;
  cb_CommittedAt : Time
}.
#[export] Instance CommittedBackup_eq_dec : EqDecision CommittedBackup.
Proof. solve_decision. Defined.

Record ProjectRecoveryStatus := {
  rec_RescheduleAttempts : Z;
  rec_LastAttemptAt : option Time;
  rec_HealthySince : option Time;
  rec_HealthySinceGeneration : Z;
  rec_PreferredNode : string;
  rec_WorkloadStopped : option WorkloadStoppedEvidence;
  rec_CleanupObligations : list CleanupObligation;
  rec_CommittedBackup : option CommittedBackup
}.
#[export] Instance ProjectRecoveryStatus_eq_dec : EqDecision ProjectRecoveryStatus.
Proof. solve_decision. Defined.

Record BackupCompletionItem := {
  bci_Volume : string;
  bci_Stanza : string;
  bci_Label : string;
  bci_Type : string
}.
Record BackupCompletion := {
  bcp_BackupID : string;
  bcp_NodeRef : string;
  bcp_AssignmentGeneration : Z;
  bcp_AcceptedAt : Time;
  bcp_ManifestKey : string;
  bcp_Items : list BackupCompletionItem
}.
Record StanzaRecord := { stz_Name : string; stz_Volume : string; stz_RecordedAt : Time }.
Record ProjectBackupStatus := {
  bk_Stanzas : list StanzaRecord;
  bk_Completions : list BackupCompletion
}.
#[export] Instance BackupCompletionItem_eq_dec : EqDecision BackupCompletionItem.
Proof. solve_decision. Defined.
#[export] Instance BackupCompletion_eq_dec : EqDecision BackupCompletion.
Proof. solve_decision. Defined.
#[export] Instance StanzaRecord_eq_dec : EqDecision StanzaRecord.
Proof. solve_decision. Defined.
#[export] Instance ProjectBackupStatus_eq_dec : EqDecision ProjectBackupStatus.
Proof. solve_decision. Defined.

Definition MaxBackupCompletions : nat := 20.

Record ProjectStatus := {
  st_Phase : ProjectPhase;
  st_NodeRef : string;
  st_AssignmentGeneration : Z;
  st_AssignmentHistory : AssignmentHistory;
  st_FailedNodes : list string;
  st_Conditions : list Condition;
  st_ObservedSpecRevision : Z;
  st_Recovery : option ProjectRecoveryStatus;
  st_Backup : option ProjectBackupStatus
}.
#[export] Instance ProjectStatus_eq_dec : EqDecision ProjectStatus.
Proof. solve_decision. Defined.

Definition InitialProjectStatus : ProjectStatus :=
  {| st_Phase := ProjectPhasePending; st_NodeRef := EmptyString; st_AssignmentGeneration := 0;
     st_AssignmentHistory := AssignmentHistoryNeverAssigned; st_FailedNodes := [];
     st_Conditions := []; st_ObservedSpecRevision := 0; st_Recovery := None; st_Backup := None |}.

(** Assignments to one field. *)
Definition st_with_Phase (x : ProjectPhase) (s : ProjectStatus) : ProjectStatus :=
  {| st_Phase := x; st_NodeRef := st_NodeRef s; st_AssignmentGeneration := st_AssignmentGeneration s;
     st_AssignmentHistory := st_AssignmentHistory s; st_FailedNodes := st_FailedNodes s;
     st_Conditions := st_Conditions s; st_ObservedSpecRevision := st_ObservedSpecRevision s;
     st_Recovery := st_Recovery s; st_Backup := st_Backup s |}.
Definition st_with_NodeRef (x : string) (s : ProjectStatus) : ProjectStatus :=
  {| st_Phase := st_Phase s; st_NodeRef := x; st_AssignmentGeneration := st_AssignmentGeneration s;
     st_AssignmentHistory := st_AssignmentHistory s; st_FailedNodes := st_FailedNodes s;
     st_Conditions := st_Conditions s; st_ObservedSpecRevision := st_ObservedSpecRevision s;
     st_Recovery := st_Recovery s; st_Backup := st_Backup s |}.
Definition st_with_Generation (x : Z) (s : ProjectStatus) : ProjectStatus :=
  {| st_Phase := st_Phase s; st_NodeRef := st_NodeRef s; st_AssignmentGeneration := x;
     st_AssignmentHistory := st_AssignmentHistory s; st_FailedNodes := st_FailedNodes s;
     st_Conditions := st_Conditions s; st_ObservedSpecRevision := st_ObservedSpecRevision s;
     st_Recovery := st_Recovery s; st_Backup := st_Backup s |}.
Definition st_with_History (x : AssignmentHistory) (s : ProjectStatus) : ProjectStatus :=
  {| st_Phase := st_Phase s; st_NodeRef := st_NodeRef s;
     st_AssignmentGeneration := st_AssignmentGeneration s; st_AssignmentHistory := x;
     st_FailedNodes := st_FailedNodes s; st_Conditions := st_Conditions s;
     st_ObservedSpecRevision := st_ObservedSpecRevision s; st_Recovery := st_Recovery s;
     st_Backup := st_Backup s |}.
Definition st_with_FailedNodes (x : list string) (s : ProjectStatus) : ProjectStatus :=
  {| st_Phase := st_Phase s; st_NodeRef := st_NodeRef s;
     st_AssignmentGeneration := st_AssignmentGeneration s;
     st_AssignmentHistory := st_AssignmentHistory s; st_FailedNodes := x;
     st_Conditions := st_Conditions s; st_ObservedSpecRevision := st_ObservedSpecRevision s;
     st_Recovery := st_Recovery s; st_Backup := st_Backup s |}.
Definition st_with_Conditions (x : list Condition) (s : ProjectStatus) : ProjectStatus :=
  {| st_Phase := st_Phase s; st_NodeRef := st_NodeRef s;
     st_AssignmentGeneration := st_AssignmentGeneration s;
     st_AssignmentHistory := st_AssignmentHistory s; st_FailedNodes := st_FailedNodes s;
     st_Conditions := x; st_ObservedSpecRevision := st_ObservedSpecRevision s;
     st_Recovery := st_Recovery s; st_Backup := st_Backup s |}.
Definition st_with_ObservedSpecRevision (x : Z) (s : ProjectStatus) : ProjectStatus :=
  {| st_Phase := st_Phase s; st_NodeRef := st_NodeRef s;
     st_AssignmentGeneration := st_AssignmentGeneration s;
     st_AssignmentHistory := st_AssignmentHistory s; st_FailedNodes := st_FailedNodes s;
     st_Conditions := st_Conditions s; st_ObservedSpecRevision := x;
     st_Recovery := st_Recovery s; st_Backup := st_Backup s |}.
Definition st_with_Recovery (x : option ProjectRecoveryStatus) (s : ProjectStatus) : ProjectStatus :=
  {| st_Phase := st_Phase s; st_NodeRef := st_NodeRef s;
     st_AssignmentGeneration := st_AssignmentGeneration s;
     st_AssignmentHistory := st_AssignmentHistory s; st_FailedNodes := st_FailedNodes s;
     st_Conditions := st_Conditions s; st_ObservedSpecRevision := st_ObservedSpecRevision s;
     st_Recovery := x; st_Backup := st_Backup s |}.
Definition st_with_Backup (x : option ProjectBackupStatus) (s : ProjectStatus) : ProjectStatus :=
  {| st_Phase := st_Phase s; st_NodeRef := st_NodeRef s;
     st_AssignmentGeneration := st_AssignmentGeneration s;
     st_AssignmentHistory := st_AssignmentHistory s; st_FailedNodes := st_FailedNodes s;
     st_Conditions := st_Conditions s; st_ObservedSpecRevision := st_ObservedSpecRevision s;
     st_Recovery := st_Recovery s; st_Backup := x |}.

Definition empty_recovery : ProjectRecoveryStatus :=
  {| rec_RescheduleAttempts := 0; rec_LastAttemptAt := None; rec_HealthySince := None;
     rec_HealthySinceGeneration := 0; rec_PreferredNode := EmptyString;
     rec_WorkloadStopped := None; rec_CleanupObligations := []; rec_CommittedBackup := None |}.

Definition rec_with_WorkloadStopped (x : option WorkloadStoppedEvidence)
    (r : ProjectRecoveryStatus) : ProjectRecoveryStatus :=
  {| rec_RescheduleAttempts := rec_RescheduleAttempts r; rec_LastAttemptAt := rec_LastAttemptAt r;
     rec_HealthySince := rec_HealthySince r;
     rec_HealthySinceGeneration := rec_HealthySinceGeneration r;
     rec_PreferredNode := rec_PreferredNode r; rec_WorkloadStopped := x;
     rec_CleanupObligations := rec_CleanupObligations r;
     rec_CommittedBackup := rec_CommittedBackup r |}.
Definition rec_with_Obligations (x : list CleanupObligation)
    (r : ProjectRecoveryStatus) : ProjectRecoveryStatus :=
  {| rec_RescheduleAttempts := rec_RescheduleAttempts r; rec_LastAttemptAt := rec_LastAttemptAt r;
     rec_HealthySince := rec_HealthySince r;
     rec_HealthySinceGeneration := rec_HealthySinceGeneration r;
     rec_PreferredNode := rec_PreferredNode r; rec_WorkloadStopped := rec_WorkloadStopped r;
     rec_CleanupObligations := x; rec_CommittedBackup := rec_CommittedBackup r |}.
Definition rec_with_CommittedBackup (x : option CommittedBackup)
    (r : ProjectRecoveryStatus) : ProjectRecoveryStatus :=
  {| rec_RescheduleAttempts := rec_RescheduleAttempts r; rec_LastAttemptAt := rec_LastAttemptAt r;
     rec_HealthySince := rec_HealthySince r;
     rec_HealthySinceGeneration := rec_HealthySinceGeneration r;
     rec_PreferredNode := rec_PreferredNode r; rec_WorkloadStopped := rec_WorkloadStopped r;
     rec_CleanupObligations := rec_CleanupObligations r; rec_CommittedBackup := x |}.

(** ** Methods of ProjectBackupStatus *)

Definition BackupManifestKey (projectUID backupID : string) : string :=
  ("cara/v2/projects/" ++ projectUID ++ "/generations/" ++ backupID ++ "/manifest.json")%string.

Definition Completion (b : option ProjectBackupStatus) (backupID : string)
    : option BackupCompletion :=
  match b with
  | None => None
  | Some b => find_first (λ c, bool_decide (bcp_BackupID c = backupID)) (bk_Completions b)
  end.

Definition LastCompletion (b : option ProjectBackupStatus) : option BackupCompletion :=
  match b with None => None | Some b => last (bk_Completions b) end.

Definition StanzaName (projectUID volume : string) : string :=
  (projectUID ++ "-" ++ volume)%string.

Definition HasStanza (b : option ProjectBackupStatus) (name : string) : bool :=
  match b with
  | None => false
  | Some b => existsb (λ s, bool_decide (stz_Name s = name)) (bk_Stanzas b)
  end.

(** ** Methods of ProjectRecoveryStatus and CleanupObligation *)

Definition CommittedBackupID (r : option ProjectRecoveryStatus) : string :=
  match r with
  | None => EmptyString
  | Some r => match rec_CommittedBackup r with
              | None => EmptyString
              | Some cb => cb_BackupID cb
              end
  end.

Definition Resolved (o : CleanupObligation) : bool :=
  match ob_ResourcesRemoved o with Some _ => true | None => false end.

Definition DataOutstanding (o : CleanupObligation) : bool :=
  ob_ManagedDataOwed o && match ob_ManagedDataQuarantined o with None => true | Some _ => false end.

Definition is_for (assignment : AssignmentIdentity) (o : CleanupObligation) : bool :=
  bool_decide (ob_Assignment o = assignment).

(** nil is [None]; the pointer into the list is the entry it points at. *)
Definition FindObligation (r : option ProjectRecoveryStatus) (assignment : AssignmentIdentity)
    : option CleanupObligation :=
  match r with
  | None => None
  | Some r => find_first (is_for assignment) (rec_CleanupObligations r)
  end.

(** A write through the pointer FindObligation returned; nothing when it is nil. *)
Definition edit_obligation (assignment : AssignmentIdentity)
    (g : CleanupObligation → CleanupObligation) (r : ProjectRecoveryStatus)
    : option ProjectRecoveryStatus :=
  match update_first (is_for assignment) g (rec_CleanupObligations r) with
  | Some obs => Some (rec_with_Obligations obs r)
  | None => None
  end.

Definition AddObligation (assignment : AssignmentIdentity) (releasedAt : Time)
    (authorization : ReleaseAuthorizationKind) (r : ProjectRecoveryStatus)
    : ProjectRecoveryStatus :=
  match FindObligation (Some r) assignment with
  | Some _ => r
  | None =>
      rec_with_Obligations
        (rec_CleanupObligations r ++
          [{| ob_Assignment := assignment; ob_ReleasedAt := releasedAt;
              ob_ReleaseAuthorization := authorization; ob_ResourcesRemoved := None;
              ob_ManagedDataOwed := false; ob_ManagedDataQuarantined := None |}]) r
  end.

Definition ob_with_Authorization (k : ReleaseAuthorizationKind) (o : CleanupObligation)
    : CleanupObligation :=
  {| ob_Assignment := ob_Assignment o; ob_ReleasedAt := ob_ReleasedAt o;
     ob_ReleaseAuthorization := k; ob_ResourcesRemoved := ob_ResourcesRemoved o;
     ob_ManagedDataOwed := ob_ManagedDataOwed o;
     ob_ManagedDataQuarantined := ob_ManagedDataQuarantined o |}.
Definition ob_with_DataOwed (b : bool) (o : CleanupObligation) : CleanupObligation :=
  {| ob_Assignment := ob_Assignment o; ob_ReleasedAt := ob_ReleasedAt o;
     ob_ReleaseAuthorization := ob_ReleaseAuthorization o;
     ob_ResourcesRemoved := ob_ResourcesRemoved o; ob_ManagedDataOwed := b;
     ob_ManagedDataQuarantined := ob_ManagedDataQuarantined o |}.
Definition ob_with_ResourcesRemoved (e : option ResourcesRemovedEvidence) (o : CleanupObligation)
    : CleanupObligation :=
  {| ob_Assignment := ob_Assignment o; ob_ReleasedAt := ob_ReleasedAt o;
     ob_ReleaseAuthorization := ob_ReleaseAuthorization o; ob_ResourcesRemoved := e;
     ob_ManagedDataOwed := ob_ManagedDataOwed o;
     ob_ManagedDataQuarantined := ob_ManagedDataQuarantined o |}.
Definition ob_with_Quarantined (e : option ManagedDataQuarantinedEvidence) (o : CleanupObligation)
    : CleanupObligation :=
  {| ob_Assignment := ob_Assignment o; ob_ReleasedAt := ob_ReleasedAt o;
     ob_ReleaseAuthorization := ob_ReleaseAuthorization o;
     ob_ResourcesRemoved := ob_ResourcesRemoved o; ob_ManagedDataOwed := ob_ManagedDataOwed o;
     ob_ManagedDataQuarantined := e |}.

Definition OverrideRelease (assignment : AssignmentIdentity) (releasedAt : Time)
    (r : ProjectRecoveryStatus) : ProjectRecoveryStatus :=
  match edit_obligation assignment (ob_with_Authorization ReleaseByOperatorOverride) r with
  | Some r' => r'
  | None => AddObligation assignment releasedAt ReleaseByOperatorOverride r
  end.

Definition OweManagedData (assignment : AssignmentIdentity) (r : ProjectRecoveryStatus)
    : ProjectRecoveryStatus :=
  default r (edit_obligation assignment (ob_with_DataOwed true) r).

Definition NodesOwingCleanup (r : option ProjectRecoveryStatus) : list string :=
  match r with
  | None => []
  | Some r => NodeName ∘ ob_Assignment <$>
      filter (λ o, negb (Resolved o) || DataOutstanding o = true) (rec_CleanupObligations r)
  end.

Definition PermitsAssignment (o : CleanupObligation) : bool :=
  if Resolved o then true
  else if decide (ob_ReleaseAuthorization o = ReleaseByProviderFencing) then true
  else if decide (ob_ReleaseAuthorization o = ReleaseByOperatorOverride) then true
  else if decide (ob_ReleaseAuthorization o = ReleaseByGraceExpired) then true
  else false.

Definition BlockingObligation (r : option ProjectRecoveryStatus) : option CleanupObligation :=
  match r with
  | None => None
  | Some r => find_first (λ o, negb (PermitsAssignment o)) (rec_CleanupObligations r)
  end.

Definition ResourcesRemovedFor (r : option ProjectRecoveryStatus) (node : string) (generation : Z)
    : bool :=
  match r with
  | None => false
  | Some r =>
      match find_first (λ o, bool_decide (NodeName (ob_Assignment o) = node) &&
                             bool_decide (ai_Generation (ob_Assignment o) = generation))
                       (rec_CleanupObligations r) with
      | Some o => Resolved o
      | None => false
      end
  end.

Definition WorkloadStoppedFor (r : option ProjectRecoveryStatus) (assignment : AssignmentIdentity)
    : bool :=
  match r with
  | None => false
  | Some r => match rec_WorkloadStopped r with
              | None => false
              | Some ws => bool_decide (ws_Assignment ws = assignment)
              end
  end.

(** [s.EnsureRecovery()] returns the record a caller then writes through;
    [update_recovery f s] is [f] applied through that pointer. *)
Definition EnsureRecovery (s : ProjectStatus) : ProjectRecoveryStatus :=
  default empty_recovery (st_Recovery s).
Definition update_recovery (f : ProjectRecoveryStatus → ProjectRecoveryStatus) (s : ProjectStatus)
    : ProjectStatus :=
  st_with_Recovery (Some (f (EnsureRecovery s))) s.

Definition ClearHealthyWindow (r : ProjectRecoveryStatus) : ProjectRecoveryStatus :=
  {| rec_RescheduleAttempts := rec_RescheduleAttempts r; rec_LastAttemptAt := rec_LastAttemptAt r;
     rec_HealthySince := None; rec_HealthySinceGeneration := 0;
     rec_PreferredNode := rec_PreferredNode r; rec_WorkloadStopped := rec_WorkloadStopped r;
     rec_CleanupObligations := rec_CleanupObligations r;
     rec_CommittedBackup := rec_CommittedBackup r |}.

Definition ClearForNewAssignment (r : option ProjectRecoveryStatus)
    : option ProjectRecoveryStatus :=
  match r with
  | None => None
  | Some r => Some (ClearHealthyWindow (rec_with_WorkloadStopped None r))
  end.

(** ** The resource and its cleanup tasks *)

Definition DefaultNamespace : string := "default".

Record ObjectMeta := {
  om_Name : string;
  om_UID : string;
  om_Namespace : string;
  om_ResourceVersion : Z;
  om_SpecRevision : Z;
  om_Labels : gmap string string;
  om_Annotations : gmap string string;
  om_CreatedAt : Time;
  om_UpdatedAt : Time
}.

Record Project := {
  p_Meta : ObjectMeta;
  p_Spec : ProjectSpec;
  p_Status : ProjectStatus
}.
#[export] Instance ObjectMeta_eq_dec : EqDecision ObjectMeta.
Proof. solve_decision. Defined.
#[export] Instance Project_eq_dec : EqDecision Project.
Proof. solve_decision. Defined.

Record CleanupTask := {
  ct_Namespace : string;
  ct_ProjectName : string;
  ct_Assignment : AssignmentIdentity;
  ct_ReleaseAuthorization : ReleaseAuthorizationKind
}.
#[export] Instance CleanupTask_eq_dec : EqDecision CleanupTask.
Proof. solve_decision. Defined.

Definition owes_task (p : Project) (node : string) (o : CleanupObligation) : bool :=
  negb ((Resolved o && negb (DataOutstanding o))
        || negb (bool_decide (NodeName (ob_Assignment o) = node))
        || negb (bool_decide (ProjectUID (ob_Assignment o) = om_UID (p_Meta p)))).

Definition CleanupTasksFor (p : Project) (node : string) : list CleanupTask :=
  match st_Recovery (p_Status p) with
  | None => []
  | Some r =>
      if decide (st_NodeRef (p_Status p) = node) then []
      else
        let namespace := if decide (om_Namespace (p_Meta p) = EmptyString)
                         then DefaultNamespace else om_Namespace (p_Meta p) in
        (λ o, {| ct_Namespace := namespace; ct_ProjectName := om_Name (p_Meta p);
                 ct_Assignment := ob_Assignment o;
                 ct_ReleaseAuthorization := ob_ReleaseAuthorization o |})
          <$> filter (λ o, owes_task p node o = true) (rec_CleanupObligations r)
  end.

Record TakeoverAuditRecord := {
  tar_RequestID : string;
  tar_Namespace : string;
  tar_ProjectName : string;
  tar_Assignment : AssignmentIdentity;
  tar_Evidence : string;
  tar_Outcome : TakeoverOutcome;
  tar_Caller : string;
  tar_Note : string;
  tar_CreatedAt : Time
}.
#[export] Instance TakeoverAuditRecord_eq_dec : EqDecision TakeoverAuditRecord.
Proof. solve_decision. Defined.

(** ** Lemmas about obligations *)

#[global] Arguments FindObligation : simpl never.

Definition obligations (s : ProjectStatus) : list CleanupObligation :=
  rec_CleanupObligations (EnsureRecovery s).

Definition new_obligation (assignment : AssignmentIdentity) (releasedAt : Time)
    (authorization : ReleaseAuthorizationKind) : CleanupObligation :=
  {| ob_Assignment := assignment; ob_ReleasedAt := releasedAt;
     ob_ReleaseAuthorization := authorization; ob_ResourcesRemoved := None;
     ob_ManagedDataOwed := false; ob_ManagedDataQuarantined := None |}.

Lemma is_for_spec a o : is_for a o = true ↔ ob_Assignment o = a.
Proof. unfold is_for. by bools. Qed.
Lemma is_for_false a o : is_for a o = false ↔ ob_Assignment o ≠ a.
Proof. unfold is_for. by bools. Qed.

Lemma FindObligation_Some r a o :
  FindObligation r a = Some o →
  ∃ r', r = Some r' ∧ o ∈ rec_CleanupObligations r' ∧ ob_Assignment o = a.
Proof.
  destruct r as [r'|]; unfold FindObligation; [|done].
  intros [Hin Hf%is_for_spec]%find_first_Some. eauto.
Qed.

Lemma FindObligation_None_iff r a :
  FindObligation (Some r) a = None ↔ a ∉ (ob_Assignment <$> rec_CleanupObligations r).
Proof.
  unfold FindObligation. rewrite find_first_None, list_elem_of_fmap.
  split.
  - intros H (o & -> & Ho). specialize (H o Ho). by apply is_for_false in H.
  - intros H o Ho. apply is_for_false. intros <-. eauto.
Qed.

Lemma FindObligation_is_Some r a :
  is_Some (FindObligation (Some r) a) ↔ a ∈ (ob_Assignment <$> rec_CleanupObligations r).
Proof.
  rewrite <- not_eq_None_Some, FindObligation_None_iff.
  destruct (decide (a ∈ (ob_Assignment <$> rec_CleanupObligations r))); tauto.
Qed.

(** A write through an obligation's pointer that leaves its assignment alone
    is seen by that obligation's lookup and by no other. *)
Lemma edit_obligation_find a g r r' b :
  (∀ o, ob_Assignment (g o) = ob_Assignment o) →
  edit_obligation a g r = Some r' →
  FindObligation (Some r') b =
    if decide (b = a) then g <$> FindObligation (Some r) a else FindObligation (Some r) b.
Proof.
  intros Hg. unfold edit_obligation.
  destruct (update_first _ _ _) as [obs|] eqn:E; intros H; simplify_eq/=.
  unfold FindObligation; simpl. case_decide as Hb; subst.
  - apply (find_first_update _ g); [|done]. intros o. rewrite !is_for_spec, Hg. done.
  - apply (find_first_update_ne (is_for a) (is_for b) g); [|done].
    intros o Ho%is_for_spec. rewrite !is_for_false, Hg. split; congruence.
Qed.

Lemma edit_obligation_assignments a g r r' :
  (∀ o, ob_Assignment (g o) = ob_Assignment o) →
  edit_obligation a g r = Some r' →
  ob_Assignment <$> rec_CleanupObligations r' = ob_Assignment <$> rec_CleanupObligations r.
Proof.
  intros Hg. unfold edit_obligation.
  destruct (update_first _ _ _) as [obs|] eqn:E; intros H; simplify_eq/=.
  by apply (update_first_fmap ob_Assignment) in E.
Qed.

Lemma edit_obligation_None a g r :
  edit_obligation a g r = None ↔ FindObligation (Some r) a = None.
Proof.
  unfold edit_obligation, FindObligation. rewrite find_first_None, <- (update_first_None _ g).
  by destruct (update_first _ _ _).
Qed.

Lemma AddObligation_obligations a t k r :
  rec_CleanupObligations (AddObligation a t k r) =
  rec_CleanupObligations r ++
    match FindObligation (Some r) a with Some _ => [] | None => [new_obligation a t k] end.
Proof. unfold AddObligation. destruct (FindObligation _ _); by rewrite ?app_nil_r. Qed.

Lemma AddObligation_find a t k r b :
  FindObligation (Some (AddObligation a t k r)) b =
    if decide (b = a)
    then Some (default (new_obligation a t k) (FindObligation (Some r) a))
    else FindObligation (Some r) b.
Proof.
  unfold FindObligation at 1. rewrite AddObligation_obligations, find_first_app.
  change (find_first (is_for b) (rec_CleanupObligations r)) with (FindObligation (Some r) b).
  case_decide as Hb; subst.
  - destruct (FindObligation (Some r) a) as [o|] eqn:E; [done|]. simpl.
    by rewrite (proj2 (is_for_spec _ _)).
  - destruct (FindObligation (Some r) a) as [o|] eqn:E; destruct (FindObligation (Some r) b);
      try done. simpl. by rewrite (proj2 (is_for_false _ _)) by (simpl; congruence).
Qed.

Lemma AddObligation_NoDup a t k r :
  NoDup (ob_Assignment <$> rec_CleanupObligations (AddObligation a t k r)) ↔
  NoDup (ob_Assignment <$> rec_CleanupObligations r).
Proof.
  rewrite AddObligation_obligations, fmap_app, NoDup_app.
  destruct (FindObligation (Some r) a) as [o|] eqn:E; simpl.
  - split; [tauto|]. intros H. repeat split; [done| |constructor]. intros ?? []%elem_of_nil.
  - apply FindObligation_None_iff in E. split; [tauto|]. intros H.
    repeat split; [done| |apply NoDup_singleton].
    intros x Hx ->%list_elem_of_singleton. done.
Qed.

Lemma OverrideRelease_find a t r b :
  FindObligation (Some (OverrideRelease a t r)) b =
    if decide (b = a)
    then Some (from_option (ob_with_Authorization ReleaseByOperatorOverride)
                (new_obligation a t ReleaseByOperatorOverride) (FindObligation (Some r) a))
    else FindObligation (Some r) b.
Proof.
  unfold OverrideRelease. destruct (edit_obligation _ _ _) as [r'|] eqn:E.
  - rewrite (edit_obligation_find a (ob_with_Authorization ReleaseByOperatorOverride) r r') by done.
    case_decide; [|done]. destruct (FindObligation (Some r) a) eqn:F; [done|].
    apply (edit_obligation_None a (ob_with_Authorization ReleaseByOperatorOverride)) in F. congruence.
  - rewrite AddObligation_find. apply edit_obligation_None in E. by rewrite E.
Qed.

Lemma OverrideRelease_assignments a t r :
  ob_Assignment <$> rec_CleanupObligations (OverrideRelease a t r) =
  (ob_Assignment <$> rec_CleanupObligations r) ++
    match FindObligation (Some r) a with Some _ => [] | None => [a] end.
Proof.
  unfold OverrideRelease. destruct (edit_obligation _ _ _) as [r'|] eqn:E.
  - rewrite (edit_obligation_assignments a (ob_with_Authorization ReleaseByOperatorOverride) r r') by done.
    destruct (FindObligation (Some r) a) eqn:F; [by rewrite app_nil_r|].
    apply (edit_obligation_None a (ob_with_Authorization ReleaseByOperatorOverride)) in F. congruence.
  - rewrite AddObligation_obligations, fmap_app. apply edit_obligation_None in E. by rewrite E.
Qed.

Lemma OverrideRelease_NoDup a t r :
  NoDup (ob_Assignment <$> rec_CleanupObligations (OverrideRelease a t r)) ↔
  NoDup (ob_Assignment <$> rec_CleanupObligations r).
Proof.
  rewrite OverrideRelease_assignments, NoDup_app.
  destruct (FindObligation (Some r) a) as [o|] eqn:E.
  - split; [tauto|]. intros H. repeat split; [done| |constructor]. intros ?? []%elem_of_nil.
  - apply FindObligation_None_iff in E. split; [tauto|]. intros H.
    repeat split; [done| |apply NoDup_singleton]. intros x Hx ->%list_elem_of_singleton. done.
Qed.

Lemma OweManagedData_find a r b :
  FindObligation (Some (OweManagedData a r)) b =
    if decide (b = a) then ob_with_DataOwed true <$> FindObligation (Some r) a
    else FindObligation (Some r) b.
Proof.
  unfold OweManagedData. destruct (edit_obligation _ _ _) as [r'|] eqn:E; simpl.
  - by rewrite (edit_obligation_find a (ob_with_DataOwed true) r r').
  - apply edit_obligation_None in E. case_decide; subst; by rewrite ?E.
Qed.

Lemma OweManagedData_assignments a r :
  ob_Assignment <$> rec_CleanupObligations (OweManagedData a r) =
  ob_Assignment <$> rec_CleanupObligations r.
Proof.
  unfold OweManagedData. destruct (edit_obligation _ _ _) as [r'|] eqn:E; simpl; [|done].
  by apply edit_obligation_assignments in E.
Qed.

(** In a list with one entry per assignment, the entry found is the entry. *)
Lemma FindObligation_NoDup r o :
  NoDup (ob_Assignment <$> rec_CleanupObligations r) → o ∈ rec_CleanupObligations r →
  FindObligation (Some r) (ob_Assignment o) = Some o.
Proof.
  unfold FindObligation. induction (rec_CleanupObligations r) as [|x xs IH]; simpl.
  - intros _ []%elem_of_nil.
  - intros [Hx Hnd]%NoDup_cons [->|Ho]%elem_of_cons.
    + by rewrite (proj2 (is_for_spec _ _)).
    + rewrite (proj2 (is_for_false _ _)); [auto|]. intros Heq. apply Hx. rewrite Heq.
      apply list_elem_of_fmap. eauto.
Qed.

Lemma BlockingObligation_None r :
  BlockingObligation (Some r) = None ↔
  ∀ o, o ∈ rec_CleanupObligations r → PermitsAssignment o = true.
Proof.
  simpl. rewrite find_first_None. split; intros H o Ho; specialize (H o Ho);
    by destruct (PermitsAssignment o).
Qed.

Lemma PermitsAssignment_spec o :
  PermitsAssignment o = true ↔
  Resolved o = true ∨
  ob_ReleaseAuthorization o ∈ [ReleaseByProviderFencing; ReleaseByOperatorOverride; ReleaseByGraceExpired].
Proof.
  unfold PermitsAssignment. rewrite !elem_of_cons, elem_of_nil.
  destruct (Resolved o); [naive_solver|].
  repeat case_decide; naive_solver.
Qed.

#[export] Hint Rewrite AddObligation_find OverrideRelease_find OweManagedData_find : obligations.

(** ** Properties *)

(** (project_types.go, AddObligation and OverrideRelease): an obligation is
    recorded once per assignment. Adding one keeps the entry that stands, with
    its evidence; an override changes the authorization of a standing entry
    and nothing else of it, so it never makes it resolved. Neither touches an
    entry of another assignment, and the list only grows. *)
Theorem obligations_recorded_once (r : ProjectRecoveryStatus) (a : AssignmentIdentity)
    (at_ : Time) (k : ReleaseAuthorizationKind) :
  (∀ b, FindObligation (Some (AddObligation a at_ k r)) b =
     if decide (b = a)
     then Some (match FindObligation (Some r) a with
                | Some o => o
                | None => {| ob_Assignment := a; ob_ReleasedAt := at_; ob_ReleaseAuthorization := k;
                             ob_ResourcesRemoved := None; ob_ManagedDataOwed := false;
                             ob_ManagedDataQuarantined := None |}
                end)
     else FindObligation (Some r) b) ∧
  (∀ b, FindObligation (Some (OverrideRelease a at_ r)) b =
     if decide (b = a)
     then Some (match FindObligation (Some r) a with
                | Some o => ob_with_Authorization ReleaseByOperatorOverride o
                | None => {| ob_Assignment := a; ob_ReleasedAt := at_;
                             ob_ReleaseAuthorization := ReleaseByOperatorOverride;
                             ob_ResourcesRemoved := None; ob_ManagedDataOwed := false;
                             ob_ManagedDataQuarantined := None |}
                end)
     else FindObligation (Some r) b) ∧
  (NoDup (ob_Assignment <$> rec_CleanupObligations (AddObligation a at_ k r)) ↔
     NoDup (ob_Assignment <$> rec_CleanupObligations r)) ∧
  (NoDup (ob_Assignment <$> rec_CleanupObligations (OverrideRelease a at_ r)) ↔
     NoDup (ob_Assignment <$> rec_CleanupObligations r)) ∧
  rec_CleanupObligations r `prefix_of` rec_CleanupObligations (AddObligation a at_ k r).
Proof.
  split; [|split; [|split; [|split]]].
  - intros b. rewrite AddObligation_find. by destruct (FindObligation (Some r) a).
  - intros b. rewrite OverrideRelease_find. by destruct (FindObligation (Some r) a).
  - apply AddObligation_NoDup.
  - apply OverrideRelease_NoDup.
  - rewrite AddObligation_obligations. eexists; done.
Qed.

(** (project_types.go, BlockingObligation and PermitsAssignment): a Project
    may be assigned again exactly when every cleanup obligation is resolved or
    was released by provider fencing, an operator override or an expired
    grace period; a WorkloadStopped, Deletion or LeaseExpired release alone
    never permits it, and an operator override lifts the block of the
    obligation it is about and of no other. *)
Theorem blocking_obligation_exact (r : ProjectRecoveryStatus) (a : AssignmentIdentity) (at_ : Time) :
  (BlockingObligation (Some r) = None ↔
     ∀ o, o ∈ rec_CleanupObligations r →
       ob_ResourcesRemoved o ≠ None ∨
       ob_ReleaseAuthorization o ∈
         [ReleaseByProviderFencing; ReleaseByOperatorOverride; ReleaseByGraceExpired]) ∧
  (NoDup (ob_Assignment <$> rec_CleanupObligations r) →
     BlockingObligation (Some (OverrideRelease a at_ r)) = None ↔
     ∀ o, o ∈ rec_CleanupObligations r → ob_Assignment o ≠ a → PermitsAssignment o = true).
Proof.
  split.
  - rewrite BlockingObligation_None. apply forall_proper; intros o.
    rewrite PermitsAssignment_spec. unfold Resolved.
    destruct (ob_ResourcesRemoved o); naive_solver.
  - intros Hnd. rewrite BlockingObligation_None.
    pose proof (proj2 (OverrideRelease_NoDup a at_ r) Hnd) as Hnd'.
    split.
    + intros H o Ho Hne. apply H.
      pose proof (FindObligation_NoDup r o Hnd Ho) as Hf.
      rewrite <- (decide_False (P:=ob_Assignment o = a) (Some o) (Some o) Hne) in Hf.
      pose proof (OverrideRelease_find a at_ r (ob_Assignment o)) as Hov.
      rewrite decide_False in Hov, Hf by done. rewrite Hf in Hov.
      apply FindObligation_Some in Hov as (? & [= <-] & ? & _). done.
    + intros H o Ho. pose proof (FindObligation_NoDup _ o Hnd' Ho) as Hf.
      rewrite OverrideRelease_find in Hf. case_decide as Ha.
      * injection Hf as <-. apply PermitsAssignment_spec. right.
        destruct (FindObligation (Some r) a); simpl; set_solver.
      * apply FindObligation_Some in Hf as (? & [= <-] & ? & _). auto.
Qed.

Definition obligation_example (node : string) (gen : Z) (k : ReleaseAuthorizationKind)
    : CleanupObligation := new_obligation {| ProjectUID := "uid-1"; NodeName := node; ai_Generation := gen |} 0%Z k.

Lemma blocking_obligation_exact_witness :
  let r := rec_with_Obligations [obligation_example "a" 1 ReleaseByWorkloadStopped] empty_recovery in
  NoDup (ob_Assignment <$> rec_CleanupObligations r) ∧
  BlockingObligation (Some r) ≠ None ∧
  BlockingObligation
    (Some (OverrideRelease {| ProjectUID := "uid-1"; NodeName := "a"; ai_Generation := 1 |} 5%Z r)) = None.
Proof.
  assert (NoDup (ob_Assignment <$> rec_CleanupObligations
    (rec_with_Obligations [obligation_example "a" 1 ReleaseByWorkloadStopped] empty_recovery))) as Hnd
    by apply NoDup_singleton.
  split; [exact Hnd|]. split; [vm_compute; discriminate|].
  apply (proj2 (blocking_obligation_exact _ _ _) Hnd).
  intros o ->%list_elem_of_singleton Hne. exfalso. apply Hne. reflexivity.
Defined.

(** (project_types.go, CleanupTasksFor and NodesOwingCleanup): the tasks an
    Agent is given are exactly the obligations its Node still owes, in order:
    runtime resources not removed or Managed data not quarantined, of this
    Project's lifetime. There is none while the Node holds the current
    assignment, and a Node with a task is one the scheduler must avoid. *)
Theorem cleanup_tasks_exact (p : Project) (node : string) (a : AssignmentIdentity) :
  ((∃ t, t ∈ CleanupTasksFor p node ∧ ct_Assignment t = a) ↔
     st_NodeRef (p_Status p) ≠ node ∧ NodeName a = node ∧ ProjectUID a = om_UID (p_Meta p) ∧
     ∃ o, o ∈ obligations (p_Status p) ∧ ob_Assignment o = a ∧
          (ob_ResourcesRemoved o = None ∨
           ob_ManagedDataOwed o = true ∧ ob_ManagedDataQuarantined o = None)) ∧
  (CleanupTasksFor p node ≠ [] → node ∈ NodesOwingCleanup (st_Recovery (p_Status p))).
Proof.
  assert (∀ o, owes_task p node o = true ↔
    NodeName (ob_Assignment o) = node ∧ ProjectUID (ob_Assignment o) = om_UID (p_Meta p) ∧
    (ob_ResourcesRemoved o = None ∨ ob_ManagedDataOwed o = true ∧ ob_ManagedDataQuarantined o = None))
    as Howes.
  { intros o. unfold owes_task, Resolved, DataOutstanding.
    rewrite negb_true_iff, !orb_false_iff, !negb_false_iff, !bool_decide_eq_true.
    destruct (ob_ResourcesRemoved o), (ob_ManagedDataOwed o), (ob_ManagedDataQuarantined o);
      simpl; naive_solver. }
  unfold CleanupTasksFor, obligations, EnsureRecovery.
  destruct (st_Recovery (p_Status p)) as [r|] eqn:Er; simpl.
  2:{ split; [|done]. split; [intros (? & []%elem_of_nil & _)|].
      intros (_ & _ & _ & ? & []%elem_of_nil & _). }
  case_decide as Hn.
  { split; [|done]. split; [intros (? & []%elem_of_nil & _)|]. intros [H _]. done. }
  split.
  - split.
    + intros (t & Ht & <-). apply list_elem_of_fmap in Ht as (o & -> & Ho).
      apply list_elem_of_filter in Ho as [H%Howes Ho]. simpl. naive_solver.
    + intros (_ & H1 & H2 & o & Ho & <- & Hout). eexists. split.
      * apply list_elem_of_fmap. exists o. split; [reflexivity|].
        apply list_elem_of_filter. split; [|done]. apply Howes. auto.
      * done.
  - intros Hne. destruct (filter _ _) as [|o os] eqn:E; [done|].
    assert (o ∈ filter (λ o, owes_task p node o = true) (rec_CleanupObligations r)) as Ho
      by (rewrite E; constructor).
    apply list_elem_of_filter in Ho as [H%Howes Ho].
    apply list_elem_of_fmap. exists o. split; [simpl; naive_solver|].
    apply list_elem_of_filter. split; [|done]. unfold Resolved, DataOutstanding.
    destruct H as (_ & _ & [->|[-> ->]]); [done|]. by destruct (ob_ResourcesRemoved o).
Qed.

Definition cleanup_example : Project :=
  {| p_Meta := {| om_Name := "shop"; om_UID := "uid-1"; om_Namespace := EmptyString;
                  om_ResourceVersion := 1; om_SpecRevision := 1; om_Labels := ∅;
                  om_Annotations := ∅; om_CreatedAt := 0; om_UpdatedAt := 0 |}%Z;
     p_Spec := empty_spec;
     p_Status := st_with_NodeRef "b" (st_with_Recovery (Some (rec_with_Obligations
        [obligation_example "a" 1 ReleaseByGraceExpired] empty_recovery)) InitialProjectStatus) |}.

Lemma cleanup_tasks_exact_witness :
  CleanupTasksFor cleanup_example "a" ≠ [] ∧
  "a" ∈ NodesOwingCleanup (st_Recovery (p_Status cleanup_example)).
Proof.
  assert (CleanupTasksFor cleanup_example "a" ≠ []) as H by (vm_compute; discriminate).
  split; [exact H|].
  exact (proj2 (cleanup_tasks_exact cleanup_example "a"
    {| ProjectUID := "uid-1"; NodeName := "a"; ai_Generation := 1 |}) H).
Defined.
