(* ===== verification/Lifecycle.v ===== *)
(** The lifecycle rules of a Project (api/v1/phase_transition.go and
    api/v1/finalization.go): which writer may move which phase, and when a
    record may be deleted. Both are predicates on one snapshot of the Project;
    the operations that apply them are in the files of the store, the handlers
    and the controllers. *)
From Stdlib Require Import ZArith Lia.
From stdpp Require Import prelude gmap strings sorting.
From S2P Require Import Prelude.
From S2P Require Import Conditions.
From S2P Require Import ProjectTypes.
Import GoTime GoInt GoString.

Set Default Proof Using "Type".

(** ** Phase transitions *)

Definition PhaseWriter := string.
Definition WriterAdmission : PhaseWriter := "Admission".
Definition WriterDeleteAPI : PhaseWriter := "DeleteAPI".
Definition WriterScheduler : PhaseWriter := "Scheduler".
Definition WriterRescheduler : PhaseWriter := "Rescheduler".
Definition WriterFailedRescheduler : PhaseWriter := "FailedRescheduler".
Definition WriterOperatorTakeover : PhaseWriter := "OperatorTakeover".
Definition WriterAgent : PhaseWriter := "Agent".

(** The table, as the list of its true entries; a lookup of a missing writer
    or edge is false, as it is in the nested maps. *)
Definition phaseTransitions : list (PhaseWriter * list (ProjectPhase * ProjectPhase)) :=
  [ (WriterAdmission, [(EmptyString, ProjectPhasePending)]);
    (WriterDeleteAPI,
      [(ProjectPhasePending, ProjectPhaseTerminating);
       (ProjectPhaseScheduled, ProjectPhaseTerminating);
       (ProjectPhaseRunning, ProjectPhaseTerminating);
       (ProjectPhaseFailed, ProjectPhaseTerminating)]);
    (WriterScheduler, [(ProjectPhasePending, ProjectPhaseScheduled)]);
    (WriterRescheduler,
      [(ProjectPhaseScheduled, ProjectPhasePending);
       (ProjectPhaseRunning, ProjectPhasePending)]);
    (WriterFailedRescheduler, [(ProjectPhaseFailed, ProjectPhasePending)]);
    (WriterOperatorTakeover,
      [(ProjectPhaseScheduled, ProjectPhasePending);
       (ProjectPhaseRunning, ProjectPhasePending)]);
    (WriterAgent,
      [(ProjectPhaseScheduled, ProjectPhaseRunning);
       (ProjectPhaseScheduled, ProjectPhaseFailed);
       (ProjectPhaseRunning, ProjectPhaseFailed);
       (ProjectPhaseTerminating, ProjectPhaseTerminated)]) ].

Definition agentReassertable (p : ProjectPhase) : bool :=
  bool_decide (p ∈ [ProjectPhaseRunning; ProjectPhaseFailed; ProjectPhaseTerminated]).

Definition transitions_of (writer : PhaseWriter) : list (ProjectPhase * ProjectPhase) :=
  match find_first (λ row, bool_decide (row.1 = writer)) phaseTransitions with
  | Some row => row.2
  | None => []
  end.

Definition PhaseTransitionAllowed (writer : PhaseWriter) (from to : ProjectPhase) : bool :=
  if decide (from = to) then
    bool_decide (writer = WriterAgent) && agentReassertable to
  else bool_decide ((from, to) ∈ transitions_of writer).

(** ** Finalization *)

Definition AwaitsFinalization (s : ProjectStatus) : bool :=
  bool_decide (st_Phase s = ProjectPhaseTerminated) ||
  (bool_decide (st_Phase s = ProjectPhaseTerminating) && bool_decide (st_NodeRef s = EmptyString)).

(** [sort.Strings]: Go compares strings byte by byte. *)
Definition byte_le (c d : Ascii.ascii) : bool :=
  Nat.leb (Ascii.nat_of_ascii c) (Ascii.nat_of_ascii d).
Fixpoint string_le (s t : string) : bool :=
  match s, t with
  | EmptyString, _ => true
  | String _ _, EmptyString => false
  | String c s', String d t' =>
      if Ascii.ascii_dec c d then string_le s' t' else byte_le c d
  end.
Fixpoint insert_string (x : string) (xs : list string) : list string :=
  match xs with
  | [] => [x]
  | y :: rest => if string_le x y then x :: xs else y :: insert_string x rest
  end.
Definition sort_Strings (xs : list string) : list string := foldr insert_string [] xs.

Definition pending_name (o : CleanupObligation) : string :=
  ("node " ++ NodeName (ob_Assignment o) ++ " generation " ++ FormatInt (ai_Generation (ob_Assignment o)))%string.

Definition unresolvedObligations (r : option ProjectRecoveryStatus) : list string :=
  match r with
  | None => []
  | Some r => sort_Strings (pending_name <$> filter (λ o, Resolved o = false) (rec_CleanupObligations r))
  end.

(** The blocker of the last paragraph, which every branch that does not return
    falls through to. *)
Definition obligations_blocker (s : ProjectStatus) : string :=
  match unresolvedObligations (st_Recovery s) with
  | [] => EmptyString
  | pending => ("waiting for ResourcesRemoved from " ++ Join pending ", ")%string
  end.

Definition FinalizationBlocker (p : Project) : string :=
  let s := p_Status p in
  (if negb (AwaitsFinalization s) then
     if decide (st_Phase s = ProjectPhaseTerminating) then
       "project is Terminating on node " ++ st_NodeRef s ++ ", which has not reported it Terminated"
     else "project is " ++ st_Phase s ++ ", not Terminated"
   else if decide (st_Phase s = ProjectPhaseTerminated) then
     if negb (ResourcesRemovedFor (st_Recovery s) (st_NodeRef s) (st_AssignmentGeneration s)) then
       "node " ++ st_NodeRef s ++ " has not recorded ResourcesRemoved for generation "
         ++ FormatInt (st_AssignmentGeneration s)
     else obligations_blocker s
   else
     if decide (st_AssignmentHistory s = AssignmentHistoryNeverAssigned) then
       if negb (bool_decide (st_AssignmentGeneration s = 0%Z)) then
         "assignment history is NeverAssigned but the generation is "
           ++ FormatInt (st_AssignmentGeneration s)
       else obligations_blocker s
     else if decide (st_AssignmentHistory s = AssignmentHistoryKnown) then
       match st_Recovery s with
       | None => "project was assigned before, but no cleanup obligation records where"
       | Some r =>
           match rec_CleanupObligations r with
           | [] => "project was assigned before, but no cleanup obligation records where"
           | _ => obligations_blocker s
           end
       end
     else
       "assignment history is " ++ st_AssignmentHistory s
         ++ ", so nothing proves which Nodes may hold resources")%string.

Definition ImmediateDeletionBlocker (p : Project) : string :=
  let s := p_Status p in
  (if negb (bool_decide (st_Phase s = ProjectPhasePending))
      && negb (bool_decide (st_Phase s = ProjectPhaseFailed)) then "project is " ++ st_Phase s
   else if negb (bool_decide (st_AssignmentHistory s = AssignmentHistoryNeverAssigned)) then
     "assignment history is " ++ st_AssignmentHistory s
   else if negb (bool_decide (st_NodeRef s = EmptyString)) then
     "project is assigned to node " ++ st_NodeRef s
   else if negb (bool_decide (st_AssignmentGeneration s = 0%Z)) then
     "project is at assignment generation " ++ FormatInt (st_AssignmentGeneration s)
   else match st_Recovery s with
        | Some r => match rec_CleanupObligations r with
                    | [] => EmptyString
                    | _ => "project has cleanup obligations"
                    end
        | None => EmptyString
        end)%string.

(** ** Lemmas *)

Lemma insert_string_perm x xs : insert_string x xs ≡ₚ x :: xs.
Proof.
  induction xs as [|y ys IH]; simpl; [done|]. destruct (string_le x y); [done|].
  rewrite IH. apply Permutation_swap.
Qed.

Lemma sort_Strings_perm xs : sort_Strings xs ≡ₚ xs.
Proof.
  unfold sort_Strings. induction xs as [|x xs IH]; simpl; [done|].
  by rewrite insert_string_perm, IH.
Qed.

Lemma unresolved_nil r :
  unresolvedObligations r = [] ↔
  ∀ o, o ∈ default [] (rec_CleanupObligations <$> r) → Resolved o = true.
Proof.
  destruct r as [r|]; simpl; [|split; [intros _ ? []%elem_of_nil|done]].
  split.
  - intros H o Ho. destruct (Resolved o) eqn:E; [done|].
    pose proof (sort_Strings_perm (pending_name <$>
      filter (λ o, Resolved o = false) (rec_CleanupObligations r))) as Hp.
    rewrite H in Hp. apply Permutation_nil_l in Hp. symmetry in Hp. apply fmap_nil_inv in Hp.
    assert (o ∈ filter (λ o, Resolved o = false) (rec_CleanupObligations r)) as Hin
      by by apply list_elem_of_filter.
    rewrite Hp in Hin. by apply elem_of_nil in Hin.
  - intros H. unfold unresolvedObligations.
    replace (filter (λ o, Resolved o = false) (rec_CleanupObligations r)) with (@nil CleanupObligation);
      [done|].
    symmetry. apply elem_of_nil_inv. intros o [Hf Ho]%list_elem_of_filter.
    rewrite (H o Ho) in Hf. done.
Qed.

Lemma prefix_not_empty (c : Ascii.ascii) (s t : string) : (String c s ++ t)%string ≠ EmptyString.
Proof. done. Qed.

Lemma obligations_blocker_empty s :
  obligations_blocker s = EmptyString ↔
  ∀ o, o ∈ obligations s → Resolved o = true.
Proof.
  unfold obligations_blocker, obligations, EnsureRecovery.
  assert (rec_CleanupObligations (default empty_recovery (st_Recovery s))
          = default [] (rec_CleanupObligations <$> st_Recovery s)) as -> by by destruct (st_Recovery s).
  rewrite <- unresolved_nil. by destruct (unresolvedObligations _).
Qed.

Lemma ResourcesRemovedFor_true r node gen :
  (∀ o, o ∈ rec_CleanupObligations r → Resolved o = true) →
  ResourcesRemovedFor (Some r) node gen = true ↔
  ∃ o, o ∈ rec_CleanupObligations r ∧ NodeName (ob_Assignment o) = node
       ∧ ai_Generation (ob_Assignment o) = gen.
Proof.
  intros Hall. simpl. destruct (find_first _ _) as [o|] eqn:E.
  - apply find_first_Some in E as [Ho Hm]. bools. split; [|by auto]. intros _. exists o. tauto.
  - rewrite find_first_None in E. split; [done|]. intros (o & Ho & Hn & Hg).
    specialize (E o Ho). bools. naive_solver.
Qed.

(** Every edge of the table with its owner. *)
Definition owned_edges : list (PhaseWriter * (ProjectPhase * ProjectPhase)) :=
  phaseTransitions ≫= λ row, (λ e, (row.1, e)) <$> row.2.

Lemma transitions_of_owned w e : e ∈ transitions_of w → (w, e) ∈ owned_edges.
Proof.
  unfold transitions_of. destruct (find_first _ _) as [row|] eqn:E; [|intros []%elem_of_nil].
  apply find_first_Some in E as [Hrow Hw]. bools. intros He.
  apply list_elem_of_bind. exists row. split; [|done].
  apply list_elem_of_fmap. exists e. by subst.
Qed.

Lemma allowed_cases w from to :
  PhaseTransitionAllowed w from to = true →
  (w, (from, to)) ∈ owned_edges ∨
  (from = to ∧ w = WriterAgent ∧
   (to = ProjectPhaseRunning ∨ to = ProjectPhaseFailed ∨ to = ProjectPhaseTerminated)).
Proof.
  unfold PhaseTransitionAllowed. case_decide as Heq.
  - rewrite andb_true_iff. unfold agentReassertable. rewrite !bool_decide_eq_true.
    rewrite !elem_of_cons, elem_of_nil. intros. right. tauto.
  - rewrite bool_decide_eq_true. left. by apply transitions_of_owned.
Qed.

(** Splits a hypothesis that places a value in a concrete list. *)
Ltac split_elem H :=
  repeat (apply elem_of_cons in H as [H|H]; [try discriminate H; try simplify_eq|]);
  try (by apply elem_of_nil in H).

(** ** Properties *)

(** (phase_transition.go, PhaseTransitionAllowed): what the table gives
    each writer. Every phase a writer may write is a recognised one; only the
    scheduler writes Scheduled, and only from Pending; deletion is final: a
    Terminating Project can only be reported Terminated by its cleanup owner,
    and a Terminated one can only be reported so again. A phase change has one
    owner, except that a release to Pending belongs to the rescheduler and to
    the operator takeover. *)
Theorem phase_transition_ownership (w : PhaseWriter) (from to : ProjectPhase)
    (H : PhaseTransitionAllowed w from to = true) :
  ProjectPhase_IsValid to = true ∧
  (to = ProjectPhaseScheduled → w = WriterScheduler ∧ from = ProjectPhasePending) ∧
  (to = ProjectPhaseTerminated →
     w = WriterAgent ∧ (from = ProjectPhaseTerminating ∨ from = ProjectPhaseTerminated)) ∧
  (from = ProjectPhaseTerminating → w = WriterAgent ∧ to = ProjectPhaseTerminated) ∧
  (from = ProjectPhaseTerminated → w = WriterAgent ∧ to = ProjectPhaseTerminated) ∧
  (∀ w', PhaseTransitionAllowed w' from to = true →
     w' = w ∨
     (to = ProjectPhasePending ∧ from ∈ [ProjectPhaseScheduled; ProjectPhaseRunning] ∧
      {[w; w']} = ({[WriterRescheduler; WriterOperatorTakeover]} : gset string))).
Proof.
  apply allowed_cases in H as [H|(-> & -> & [->|[->| ->]])].
  2-4: repeat (split; [try done; intros; naive_solver|]); intros w' [Hp|(_ & -> & _)]%allowed_cases; [|by left];
       exfalso; vm_compute in Hp; split_elem Hp.
  assert (∀ w', PhaseTransitionAllowed w' from to = true → (w', (from, to)) ∈ owned_edges) as Hw'.
  { intros w' [?|(<- & _)]%allowed_cases; [done|]. exfalso. vm_compute in H. split_elem H.  }
  assert (ProjectPhase_IsValid to = true ∧
    (to = ProjectPhaseScheduled → w = WriterScheduler ∧ from = ProjectPhasePending) ∧
    (to = ProjectPhaseTerminated → w = WriterAgent ∧ from = ProjectPhaseTerminating) ∧
    (from = ProjectPhaseTerminating → w = WriterAgent ∧ to = ProjectPhaseTerminated) ∧
    from ≠ ProjectPhaseTerminated) as (?&?&?&?&?).
  { clear Hw'. vm_compute in H. split_elem H; done. }
  repeat (split; [naive_solver|]). intros w' Hp%Hw'.
  vm_compute in H, Hp. split_elem H; split_elem Hp; try (by left); right; split_and!; try done;
    try set_solver.
Qed.

Lemma phase_transition_ownership_witness :
  PhaseTransitionAllowed WriterRescheduler ProjectPhaseRunning ProjectPhasePending = true ∧
  ProjectPhase_IsValid ProjectPhasePending = true.
Proof.
  assert (PhaseTransitionAllowed WriterRescheduler ProjectPhaseRunning ProjectPhasePending = true) as H
    by (vm_compute; reflexivity).
  split; [exact H|]. exact (proj1 (phase_transition_ownership _ _ _ H)).
Defined.

(** The two release edges have two owners: the comment that each transition
    belongs to exactly one writer does not hold of them. *)
Lemma release_edges_have_two_owners :
  PhaseTransitionAllowed WriterRescheduler ProjectPhaseRunning ProjectPhasePending = true ∧
  PhaseTransitionAllowed WriterOperatorTakeover ProjectPhaseRunning ProjectPhasePending = true.
Proof. by vm_compute. Qed.

(** What FinalizationBlocker decides. *)
Definition finalizable (s : ProjectStatus) : Prop :=
  (∀ o, o ∈ obligations s → ob_ResourcesRemoved o ≠ None) ∧
  ((st_Phase s = ProjectPhaseTerminated ∧
    ∃ o, o ∈ obligations s ∧ NodeName (ob_Assignment o) = st_NodeRef s ∧
         ai_Generation (ob_Assignment o) = st_AssignmentGeneration s) ∨
   (st_Phase s = ProjectPhaseTerminating ∧ st_NodeRef s = EmptyString ∧
    ((st_AssignmentHistory s = AssignmentHistoryNeverAssigned ∧ st_AssignmentGeneration s = 0%Z) ∨
     (st_AssignmentHistory s = AssignmentHistoryKnown ∧ obligations s ≠ [])))).

Lemma FinalizationBlocker_empty (p : Project) :
  FinalizationBlocker p = EmptyString ↔ finalizable (p_Status p).
Proof.
  unfold finalizable. set (s := p_Status p).
  assert ((∀ o, o ∈ obligations s → ob_ResourcesRemoved o ≠ None) ↔
          obligations_blocker s = EmptyString) as Hall.
  { rewrite obligations_blocker_empty. unfold Resolved. apply forall_proper; intros o.
    destruct (ob_ResourcesRemoved o); naive_solver. }
  rewrite Hall. unfold FinalizationBlocker, AwaitsFinalization. fold s.
  destruct (decide (st_Phase s = ProjectPhaseTerminated)) as [HT|HT].
  - rewrite (bool_decide_eq_true_2 _ HT); simpl.
    destruct (decide (st_Phase s = ProjectPhaseTerminated)) as [_|]; [|done].
    assert (obligations_blocker s = EmptyString →
      ResourcesRemovedFor (st_Recovery s) (st_NodeRef s) (st_AssignmentGeneration s) = true ↔
      ∃ o, o ∈ obligations s ∧ NodeName (ob_Assignment o) = st_NodeRef s ∧
           ai_Generation (ob_Assignment o) = st_AssignmentGeneration s) as Hrr.
    { rewrite obligations_blocker_empty. unfold obligations, EnsureRecovery.
      destruct (st_Recovery s) as [r|]; simpl default.
      - apply ResourcesRemovedFor_true.
      - intros _. split; [done|]. intros (o & []%elem_of_nil & _). }
    assert (st_Phase s ≠ ProjectPhaseTerminating) by (rewrite HT; done).
    destruct (ResourcesRemovedFor _ _ _); simpl negb; cbv iota.
    + assert (true = true) by done. tauto.
    + assert (false ≠ true) by done. split; [by intros []%prefix_not_empty|tauto].
  - rewrite (bool_decide_eq_false_2 _ HT); simpl.
    destruct (decide (st_Phase s = ProjectPhaseTerminating)) as [HG|HG].
    + rewrite (bool_decide_eq_true_2 _ HG); simpl.
      case_bool_decide as HN; simpl negb; cbv iota;
        [|split; [by intros []%prefix_not_empty|tauto]].
      destruct (decide (st_AssignmentHistory s = AssignmentHistoryNeverAssigned)) as [HH|HH].
      { assert (st_AssignmentHistory s ≠ AssignmentHistoryKnown) by (rewrite HH; done).
        case_bool_decide; simpl negb; cbv iota; [tauto|].
        split; [by intros []%prefix_not_empty|tauto]. }
      destruct (decide (st_AssignmentHistory s = AssignmentHistoryKnown)) as [HK|HK];
        [|split; [by intros []%prefix_not_empty|tauto]].
      unfold obligations, EnsureRecovery.
      destruct (st_Recovery s) as [r|]; simpl default; [|split; [done|simpl; tauto]].
      destruct (rec_CleanupObligations r) eqn:Eo.
      * split; [done|tauto].
      * assert (c :: l ≠ []) by done. tauto.
    + rewrite (bool_decide_eq_false_2 _ HG); simpl negb; cbv iota.
      split; [by intros []%prefix_not_empty|tauto].
Qed.

(** (finalization.go, FinalizationBlocker): a record may be deleted exactly
    when every cleanup obligation is resolved and the list is known to be
    complete: the Project is Terminated and the assignment that reported it is
    on the list, or it is Terminating with no assignment and was either never
    assigned (generation zero) or is Known to have been and has an entry. *)
Theorem FinalizationBlocker_exact (p : Project) :
  let s := p_Status p in
  FinalizationBlocker p = EmptyString ↔
  (∀ o, o ∈ obligations s → ob_ResourcesRemoved o ≠ None) ∧
  ((st_Phase s = ProjectPhaseTerminated ∧
    ∃ o, o ∈ obligations s ∧ NodeName (ob_Assignment o) = st_NodeRef s ∧
         ai_Generation (ob_Assignment o) = st_AssignmentGeneration s) ∨
   (st_Phase s = ProjectPhaseTerminating ∧ st_NodeRef s = EmptyString ∧
    ((st_AssignmentHistory s = AssignmentHistoryNeverAssigned ∧ st_AssignmentGeneration s = 0%Z) ∨
     (st_AssignmentHistory s = AssignmentHistoryKnown ∧ obligations s ≠ [])))).
Proof. apply FinalizationBlocker_empty. Qed.

(** What ImmediateDeletionBlocker decides. *)
Definition never_held (s : ProjectStatus) : Prop :=
  (st_Phase s = ProjectPhasePending ∨ st_Phase s = ProjectPhaseFailed) ∧
  st_AssignmentHistory s = AssignmentHistoryNeverAssigned ∧ st_NodeRef s = EmptyString ∧
  st_AssignmentGeneration s = 0%Z ∧ obligations s = [].

Lemma ImmediateDeletionBlocker_empty (p : Project) :
  ImmediateDeletionBlocker p = EmptyString ↔ never_held (p_Status p).
Proof.
  unfold never_held. unfold ImmediateDeletionBlocker, obligations, EnsureRecovery.
  set (s := p_Status p).
  destruct (bool_decide (st_Phase s = ProjectPhasePending)) eqn:HP, (bool_decide (st_Phase s = ProjectPhaseFailed)) eqn:HF;
    bools; simpl; try naive_solver;
  (case_bool_decide; simpl; [|naive_solver]); (case_bool_decide; simpl; [|naive_solver]);
  (case_bool_decide; simpl; [|naive_solver]);
  (destruct (st_Recovery s) as [r|]; simpl; [destruct (rec_CleanupObligations r)|]); naive_solver.
Qed.

(** (finalization.go, ImmediateDeletionBlocker): a Project may be deleted
    without a teardown exactly when it is Pending or Failed and nothing on the
    record says an Agent ever held it. *)
Theorem ImmediateDeletionBlocker_exact (p : Project) :
  let s := p_Status p in
  ImmediateDeletionBlocker p = EmptyString ↔
  (st_Phase s = ProjectPhasePending ∨ st_Phase s = ProjectPhaseFailed) ∧
  st_AssignmentHistory s = AssignmentHistoryNeverAssigned ∧ st_NodeRef s = EmptyString ∧
  st_AssignmentGeneration s = 0%Z ∧ obligations s = [].
Proof. apply ImmediateDeletionBlocker_empty. Qed.
