(* ===== verification/SpecUpdate.v ===== *)
(** What an update may change of an assigned Project's spec
    (api/v1/spec_update.go, with SameBackupItems and EffectiveSize of
    api/v1/project_types.go). The theorem characterises the accepted updates
    and says what they preserve for the capacity ledger and for the Managed
    data on the Node. *)
From Stdlib Require Import ZArith Lia.
From stdpp Require Import prelude gmap strings.
From S2P Require Import Prelude.
From S2P Require Import ProjectTypes.
Import GoString.

Set Default Proof Using "Type".

Record SpecChangeRefusal := { scr_Field : string; scr_Message : string }.
#[export] Instance SpecChangeRefusal_eq_dec : EqDecision SpecChangeRefusal.
Proof. solve_decision. Defined.

Definition SpecChangeRefusal_Error (r : SpecChangeRefusal) : string :=
  (scr_Field r ++ ": " ++ scr_Message r)%string.

(** The map the loop over next.Volumes fills; a later volume of the same name
    overwrites an earlier one. *)
Definition nextTypes (vs : list VolumeDef) : gmap string VolumeType :=
  foldl (λ m v, <[vol_Name v := vol_Type v]> m) ∅ vs.

Fixpoint check_volumes (types : gmap string VolumeType) (old : list VolumeDef)
    : option SpecChangeRefusal :=
  match old with
  | [] => None
  | v :: rest =>
      match types !! vol_Name v with
      | None =>
          Some {| scr_Field := "spec.volumes";
                  scr_Message := "volume " ++ Quote (vol_Name v) ++
                    " cannot be removed while the Project is assigned to a Node" |}%string
      | Some t =>
          if negb (bool_decide (t = vol_Type v)) then
            Some {| scr_Field := "spec.volumes";
                    scr_Message := "volume " ++ Quote (vol_Name v) ++ " cannot change type from "
                      ++ vol_Type v ++ " to " ++ t |}%string
          else check_volumes types rest
      end
  end.

Definition CheckAssignedSpecChange (old next : ProjectSpec) : option SpecChangeRefusal :=
  if negb (bool_decide (EffectiveSize old = EffectiveSize next)) then
    Some {| scr_Field := "spec.size";
            scr_Message := "cannot change from " ++ EffectiveSize old ++ " to " ++ EffectiveSize next
              ++ " while the Project is assigned to a Node; delete and recreate it to resize" |}%string
  else match check_volumes (nextTypes (sp_Volumes next)) (sp_Volumes old) with
       | Some refusal => Some refusal
       | None =>
           if negb (SameBackupItems old next) then
             Some {| scr_Field := "spec.backup.items";
                     scr_Message := "cannot change after the Project is created" |}
           else None
       end.

(** ** Lemmas *)

Lemma same_items_eq ai bi :
  length ai = length bi → same_items ai bi = true ↔ ai = bi.
Proof.
  revert bi. induction ai as [|a ai IH]; intros [|b bi]; simpl; try done.
  intros [= Hlen]. specialize (IH bi Hlen).
  destruct a as [va sa ra], b as [vb sb rb]; simpl.
  destruct (bool_decide (va = vb)) eqn:Hv, (bool_decide (sa = sb)) eqn:Hs; bools; simpl;
    try (split; [done|intros; simplify_eq]).
  subst. destruct ra as [x|], rb as [y|]; try (split; [done|intros; simplify_eq]; done).
  - destruct (bool_decide (x = y)) eqn:Hx; bools; [|split; [done|intros; simplify_eq]].
    subst. rewrite IH. naive_solver.
  - rewrite IH. naive_solver.
Qed.

Lemma SameBackupItems_eq a b : SameBackupItems a b = true ↔ backup_items a = backup_items b.
Proof.
  unfold SameBackupItems. destruct (Nat.eqb _ _) eqn:E; simpl.
  - apply same_items_eq. by apply Nat.eqb_eq.
  - apply Nat.eqb_neq in E. split; [done|]. intros H. by rewrite H in E.
Qed.

Lemma nextTypes_app vs v : nextTypes (vs ++ [v]) = <[vol_Name v := vol_Type v]> (nextTypes vs).
Proof. unfold nextTypes. by rewrite foldl_app. Qed.

Lemma nextTypes_lookup_elem vs n t :
  nextTypes vs !! n = Some t → ∃ v, v ∈ vs ∧ vol_Name v = n ∧ vol_Type v = t.
Proof.
  induction vs as [|v vs IH] using rev_ind; [done|].
  rewrite nextTypes_app. destruct (decide (vol_Name v = n)) as [<-|Hne].
  - rewrite lookup_insert_eq. intros [= <-]. exists v. set_solver.
  - rewrite lookup_insert_ne by done. intros (w & Hw & ?)%IH. exists w. set_solver.
Qed.

Lemma check_volumes_None types old :
  check_volumes types old = None ↔
  ∀ v, v ∈ old → types !! vol_Name v = Some (vol_Type v).
Proof.
  induction old as [|v old IH]; simpl; [split; [intros _ ? []%elem_of_nil|done]|].
  destruct (types !! vol_Name v) as [t|] eqn:E; simpl.
  - destruct (bool_decide (t = vol_Type v)) eqn:Ht; bools; simpl.
    + rewrite IH. subst. setoid_rewrite elem_of_cons. naive_solver.
    + split; [done|]. intros H. specialize (H v ltac:(constructor)). congruence.
  - split; [done|]. intros H. specialize (H v ltac:(constructor)). congruence.
Qed.

Lemma HasManagedVolume_spec s :
  HasManagedVolume s = true ↔ ∃ v, v ∈ sp_Volumes s ∧ vol_Type v = VolumeTypeManaged.
Proof.
  unfold HasManagedVolume. rewrite existsb_exists. setoid_rewrite bool_decide_eq_true.
  by setoid_rewrite <- list_elem_of_In.
Qed.

Lemma CheckAssignedSpecChange_None old next :
  CheckAssignedSpecChange old next = None ↔
  EffectiveSize old = EffectiveSize next ∧
  (∀ v, v ∈ sp_Volumes old → nextTypes (sp_Volumes next) !! vol_Name v = Some (vol_Type v)) ∧
  backup_items old = backup_items next.
Proof.
  rewrite <- check_volumes_None, <- SameBackupItems_eq. unfold CheckAssignedSpecChange.
  destruct (bool_decide (EffectiveSize old = EffectiveSize next)) eqn:Hs; bools; simpl; [|naive_solver].
  destruct (check_volumes _ _); [naive_solver|].
  destruct (SameBackupItems old next); naive_solver.
Qed.

(** ** Properties *)

(** (spec_update.go, CheckAssignedSpecChange): an update of an assigned
    Project is accepted exactly when it books the same size, declares every
    volume it had with the same type (the last declaration of a name counts)
    and keeps the backup items; so an accepted update leaves what the capacity
    ledger books unchanged, keeps every Managed volume, and keeps the strategy
    of each volume's backup history. *)
Theorem CheckAssignedSpecChange_exact (old next : ProjectSpec) :
  (CheckAssignedSpecChange old next = None ↔
     EffectiveSize old = EffectiveSize next ∧
     (∀ v, v ∈ sp_Volumes old → nextTypes (sp_Volumes next) !! vol_Name v = Some (vol_Type v)) ∧
     backup_items old = backup_items next) ∧
  (CheckAssignedSpecChange old next = None →
     Requests (EffectiveSize next) = Requests (EffectiveSize old) ∧
     (∀ v, v ∈ sp_Volumes old → ∃ v', v' ∈ sp_Volumes next ∧ vol_Name v' = vol_Name v ∧ vol_Type v' = vol_Type v) ∧
     (HasManagedVolume old = true → HasManagedVolume next = true) ∧
     (∀ volume, BackupStrategyFor next volume = BackupStrategyFor old volume) ∧
     (HasPostgresDifferential old = true → HasPostgresDifferential next = true)).
Proof.
  split; [apply CheckAssignedSpecChange_None|].
  intros (Hs & Hv & Hb)%CheckAssignedSpecChange_None.
  assert (∀ v, v ∈ sp_Volumes old →
    ∃ v', v' ∈ sp_Volumes next ∧ vol_Name v' = vol_Name v ∧ vol_Type v' = vol_Type v) as Hkeep.
  { intros v Hin. apply nextTypes_lookup_elem. auto. }
  assert (∀ volume, BackupStrategyFor next volume = BackupStrategyFor old volume) as Hst.
  { intros volume. unfold BackupStrategyFor. by rewrite Hb. }
  split; [by rewrite Hs|]. split; [exact Hkeep|]. split; [|split; [exact Hst|]].
  - rewrite !HasManagedVolume_spec. intros (v & Hin & Ht).
    destruct (Hkeep v Hin) as (v' & ? & ? & ?). exists v'. split; congruence.
  - unfold HasPostgresDifferential. rewrite !existsb_exists. intros (v & Hin & Hc).
    apply list_elem_of_In in Hin. destruct (Hkeep v Hin) as (v' & Hin' & Hn & Ht).
    exists v'. split; [by apply list_elem_of_In|]. by rewrite Ht, Hn, Hst.
Qed.

Definition spec_example (size : ProjectSize) (vs : list VolumeDef) : ProjectSpec :=
  {| sp_Size := size; sp_Services := []; sp_Volumes := vs; sp_Backup := None; sp_Ingress := [];
     sp_ExpireAt := None; sp_RestartedAt := None |}.

Lemma CheckAssignedSpecChange_exact_witness :
  let old := spec_example EmptyString [{| vol_Name := "data"; vol_Type := VolumeTypeManaged |}] in
  let next := spec_example ProjectSizeMedium
    [{| vol_Name := "data"; vol_Type := VolumeTypeManaged |};
     {| vol_Name := "cache"; vol_Type := VolumeTypeEphemeral |}] in
  CheckAssignedSpecChange old next = None ∧
  Requests (EffectiveSize next) = Requests (EffectiveSize old).
Proof.
  set (old := spec_example EmptyString _). set (next := spec_example ProjectSizeMedium _).
  assert (CheckAssignedSpecChange old next = None) as H by (vm_compute; reflexivity).
  split; [exact H|]. exact (proj1 (proj2 (CheckAssignedSpecChange_exact old next) H)).
Defined.

(** A spec that declares one volume name twice with different types is refused
    even when nothing changed. *)
Example duplicate_volume_refuses_itself :
  let s := spec_example EmptyString
    [{| vol_Name := "data"; vol_Type := VolumeTypeManaged |};
     {| vol_Name := "data"; vol_Type := VolumeTypeEphemeral |}] in
  CheckAssignedSpecChange s s ≠ None.
Proof. vm_compute. discriminate. Qed.
