(* ===== verification/NodeTypes.v ===== *)
(** Nodes (api/v1/node_types.go, api/v1/node_tier.go) and the metadata checks
    every resource goes through (api/v1/validation.go). The regular
    expression of resource names is the equivalent recogniser over bytes. *)
From Stdlib Require Import ZArith Lia.
From stdpp Require Import prelude gmap strings.
From S2P Require Import Prelude.
From S2P Require Import Conditions.
From S2P Require Import ProjectTypes.
Import GoTime GoString GoError.

Set Default Proof Using "Type".

(** ** Nodes *)

Definition NetworkMode := string.
Definition NetworkModeDirect : NetworkMode := "Direct".
Definition NetworkModeDERP : NetworkMode := "DERP".

Definition OverlayStatus := string.
Definition OverlayStatusOnline : OverlayStatus := "Online".
Definition OverlayStatusOffline : OverlayStatus := "Offline".
Definition OverlayStatusUnknown : OverlayStatus := "Unknown".

Record NodeThroughput := { nt_Download : string; nt_Upload : string; nt_LastTestTime : Time }.
Record NodeNetworkStatus := {
  nn_OverlayIP : string;
  nn_OverlayStatus : OverlayStatus;
  nn_DNSName : string;
  nn_Mode : NetworkMode;
  nn_AgentPort : Z;
  nn_Throughput : NodeThroughput
}.

Definition NodeState := string.
Definition NodeStateReady : NodeState := "Ready".
Definition NodeStateNotReady : NodeState := "NotReady".
Definition NodeStateDraining : NodeState := "Draining".

Definition NodeState_IsValid (s : NodeState) : bool :=
  if decide (s = NodeStateReady) then true
  else if decide (s = NodeStateNotReady) then true
  else if decide (s = NodeStateDraining) then true
  else false.

Definition NodeState_JSONSchema : list string :=
  [NodeStateReady; NodeStateNotReady; NodeStateDraining].

Definition ResourceList := gmap string string.

Record NodeInfo := { ni_KernelVersion : string; ni_OSImage : string; ni_AgentVersion : string }.
Record NodeSpec := { ns_Hostname : string; ns_Unschedulable : bool }.
Record NodeStatus := {
  nst_State : NodeState;
  nst_Network : NodeNetworkStatus;
  nst_Capacity : ResourceList;
  nst_Allocatable : ResourceList;
  nst_Info : NodeInfo;
  nst_LastHeartbeat : Time;
  nst_Conditions : list Condition
}.
Record Node := { n_Meta : ObjectMeta; n_Spec : NodeSpec; n_Status : NodeStatus }.

#[export] Instance NodeThroughput_eq_dec : EqDecision NodeThroughput.
Proof. solve_decision. Defined.
#[export] Instance NodeNetworkStatus_eq_dec : EqDecision NodeNetworkStatus.
Proof. solve_decision. Defined.
#[export] Instance NodeInfo_eq_dec : EqDecision NodeInfo.
Proof. solve_decision. Defined.
#[export] Instance NodeSpec_eq_dec : EqDecision NodeSpec.
Proof. solve_decision. Defined.
#[export] Instance NodeStatus_eq_dec : EqDecision NodeStatus.
Proof. solve_decision. Defined.
#[export] Instance Node_eq_dec : EqDecision Node.
Proof. solve_decision. Defined.

Definition empty_network : NodeNetworkStatus :=
  {| nn_OverlayIP := EmptyString; nn_OverlayStatus := EmptyString; nn_DNSName := EmptyString;
     nn_Mode := EmptyString; nn_AgentPort := 0;
     nn_Throughput := {| nt_Download := EmptyString; nt_Upload := EmptyString; nt_LastTestTime := zero |} |}.
Definition empty_node_status : NodeStatus :=
  {| nst_State := EmptyString; nst_Network := empty_network; nst_Capacity := ∅; nst_Allocatable := ∅;
     nst_Info := {| ni_KernelVersion := EmptyString; ni_OSImage := EmptyString; ni_AgentVersion := EmptyString |};
     nst_LastHeartbeat := zero; nst_Conditions := [] |}.

Definition nst_with_State (x : NodeState) (s : NodeStatus) : NodeStatus :=
  {| nst_State := x; nst_Network := nst_Network s; nst_Capacity := nst_Capacity s;
     nst_Allocatable := nst_Allocatable s; nst_Info := nst_Info s;
     nst_LastHeartbeat := nst_LastHeartbeat s; nst_Conditions := nst_Conditions s |}.
Definition nst_with_Conditions (x : list Condition) (s : NodeStatus) : NodeStatus :=
  {| nst_State := nst_State s; nst_Network := nst_Network s; nst_Capacity := nst_Capacity s;
     nst_Allocatable := nst_Allocatable s; nst_Info := nst_Info s;
     nst_LastHeartbeat := nst_LastHeartbeat s; nst_Conditions := x |}.

(** ** Tiers *)

Definition LabelNodeTier : string := "cara.io/tier".
Definition NodeTier := string.
Definition NodeTierPrimary : NodeTier := "primary".
Definition NodeTierBackup : NodeTier := "backup".
Definition DefaultNodeTier : NodeTier := NodeTierBackup.

Definition NodeTier_IsValid (t : NodeTier) : bool :=
  bool_decide (t = NodeTierPrimary) || bool_decide (t = NodeTierBackup).

(** A refusal is the text of its error. *)
Definition ValidateNodeLabels (labels : gmap string string) : option string :=
  match labels !! LabelNodeTier with
  | None => None
  | Some tier =>
      if negb (NodeTier_IsValid tier) then
        Some ("label " ++ LabelNodeTier ++ " must be " ++ Quote NodeTierPrimary ++ " or "
              ++ Quote NodeTierBackup ++ ", got " ++ Quote tier)%string
      else None
  end.

(** A missing key reads as the empty string. *)
Definition NodeTierFromLabels (labels : gmap string string) : NodeTier :=
  let tier := default EmptyString (labels !! LabelNodeTier) in
  if NodeTier_IsValid tier then tier else DefaultNodeTier.

Definition EffectiveTier (n : Node) : NodeTier := NodeTierFromLabels (om_Labels (n_Meta n)).

(** ** Names and namespaces *)

Definition is_lower_alnum (c : Ascii.ascii) : bool :=
  let n := Ascii.nat_of_ascii c in
  (Nat.leb 97 n && Nat.leb n 122) || (Nat.leb 48 n && Nat.leb n 57).
Definition is_name_byte (c : Ascii.ascii) : bool :=
  let n := Ascii.nat_of_ascii c in
  is_lower_alnum c || Nat.eqb n 46 || Nat.eqb n 45.

Fixpoint string_all (f : Ascii.ascii → bool) (s : string) : bool :=
  match s with EmptyString => true | String c s' => f c && string_all f s' end.
Fixpoint string_last (c : Ascii.ascii) (s : string) : Ascii.ascii :=
  match s with EmptyString => c | String d s' => string_last d s' end.

(** [nameRegexp.MatchString(name)]: one alphanumeric, or one, up to 251 name
    bytes and one. *)
Definition nameRegexp (name : string) : bool :=
  match name with
  | EmptyString => false
  | String c rest =>
      is_lower_alnum c && string_all is_name_byte rest && is_lower_alnum (string_last c rest)
      && Nat.leb (String.length name) 253
  end.

Definition truncate (s : string) (maxLen : nat) : string :=
  if Nat.leb (String.length s) maxLen then s else (String.substring 0 maxLen s ++ "...")%string.

Definition ValidateName (name : string) : option string :=
  if decide (name = EmptyString) then Some "name must not be empty"%string
  else if Nat.ltb 253 (String.length name) then
    Some ("name " ++ Quote (truncate name 20) ++ " is " ++ FormatInt (Z.of_nat (String.length name))
          ++ " characters long: must be no more than 253 characters")%string
  else if negb (nameRegexp name) then
    Some ("name " ++ Quote (truncate name 40)
          ++ " is invalid: must consist of lowercase alphanumeric characters, hyphens (-) or dots (.), and must start and end with an alphanumeric character")%string
  else None.

Definition ValidateNamespace (namespace : string) : option string :=
  if negb (bool_decide (namespace = EmptyString)) && negb (bool_decide (namespace = DefaultNamespace))
  then Some ("namespace support lands post-1.0; omit the field or use " ++ Quote DefaultNamespace)%string
  else None.

(** ** Lemmas *)

Lemma NodeTierFromLabels_valid labels : NodeTier_IsValid (NodeTierFromLabels labels) = true.
Proof.
  unfold NodeTierFromLabels.
  by destruct (NodeTier_IsValid (default EmptyString (labels !! LabelNodeTier))) eqn:E.
Qed.

Lemma ValidateName_None name :
  ValidateName name = None ↔ nameRegexp name = true.
Proof.
  unfold ValidateName. case_decide as He; [by subst|].
  destruct (Nat.ltb 253 (String.length name)) eqn:El.
  - apply Nat.ltb_lt in El. split; [done|]. unfold nameRegexp. destruct name; [done|].
    rewrite !andb_true_iff, Nat.leb_le. lia.
  - destruct (nameRegexp name); simpl; naive_solver.
Qed.

(** A valid name is a safe path segment: it holds no slash, is not empty and
    is none of the dot segments. *)
Lemma valid_name_segment name :
  ValidateName name = None →
  (String.length name ≤ 253)%nat ∧ name ≠ EmptyString ∧ name ≠ "."%string ∧ name ≠ ".."%string ∧
  string_all (λ c, negb (Nat.eqb (Ascii.nat_of_ascii c) 47)) name = true.
Proof.
  rewrite ValidateName_None. unfold nameRegexp. destruct name as [|c rest]; [done|].
  rewrite !andb_true_iff, Nat.leb_le. intros (((Hc & Hall) & Hlast) & Hlen).
  assert (∀ d, is_name_byte d = true → negb (Nat.eqb (Ascii.nat_of_ascii d) 47) = true) as Hns.
  { intros d. unfold is_name_byte, is_lower_alnum.
    destruct (Nat.eqb_spec (Ascii.nat_of_ascii d) 47) as [->|]; [done|done]. }
  split; [done|]. split; [done|].
  split; [intros [= -> ->]; by vm_compute in Hc|]. split; [intros [= -> ->]; by vm_compute in Hc|].
  change (negb (Nat.eqb (Ascii.nat_of_ascii c) 47) &&
    string_all (λ c, negb (Nat.eqb (Ascii.nat_of_ascii c) 47)) rest = true).
  rewrite (Hns c) by by (unfold is_name_byte; rewrite Hc). simpl.
  clear Hlast Hlen. induction rest as [|d rest IH]; simpl in *; [done|].
  apply andb_true_iff in Hall as [Hd Hrest]. rewrite (Hns d Hd). simpl. auto.
Qed.
