(* ===== verification/Float64.v ===== *)
(** Go's float64, on Rocq's IEEE-754 specification floats: conversions from and
    to int64, the arithmetic the program uses, [math.Round] and the comparisons.

    The lemmas bound results by powers of two: rounding to nearest never crosses
    a power of two, so a value between two of them stays between them through
    every operation. That is enough for every comparison of scores the program
    relies on, and needs no error analysis. *)
From Stdlib Require Import ZArith Lia.
From Stdlib Require Import SpecFloat.
From stdpp Require Import prelude.
From S2P Require Import Prelude.
Import GoInt.

Open Scope Z_scope.
Set Default Proof Using "Type".

(** ** Operations *)

Definition float64 := spec_float.

Definition float64_of (z : Z) : float64 := binary_normalize 53 1024 z 0 false.
Definition float64_add : float64 → float64 → float64 := SFadd 53 1024.
Definition float64_mul : float64 → float64 → float64 := SFmul 53 1024.
Definition float64_div : float64 → float64 → float64 := SFdiv 53 1024.

(** [a < b], [a > b] and [a == b]; with a NaN all of them are false. *)
Definition float64_lt : float64 → float64 → bool := SFltb.
Definition float64_gt (a b : float64) : bool := SFltb b a.
Definition float64_eq : float64 → float64 → bool := SFeqb.

(** [uint64(f)] of a non-negative finite value. *)
Definition uint64_of (f : float64) : Z :=
  match f with
  | S754_finite _ m e => Z.shiftl (Z.pos m) e
  | _ => 0
  end.

(** [math.Round] of a finite value as an exact integer: half away from zero. *)
Definition round_half_away (f : float64) : Z :=
  match f with
  | S754_finite s m e =>
      (if s then - 1 else 1) *
      (if 0 <=? e then Z.shiftl (Z.pos m) e
       else (2 * Z.pos m + 2 ^ (- e)) / 2 ^ (1 - e))
  | _ => 0
  end.

(** [int64(f)] of a float with the integer value [z]: out of range the result is
    implementation-specific, and the minimum on amd64, which the program is built
    for. *)
Definition int64_of (z : Z) : Z := if bool_decide (in_int64 z) then z else min_int64.
#[global] Instance in_int64_dec z : Decision (in_int64 z).
Proof. unfold in_int64. apply _. Defined.

#[global] Arguments float64_of : simpl never.
#[global] Arguments float64_add : simpl never.
#[global] Arguments float64_mul : simpl never.
#[global] Arguments float64_div : simpl never.

(** ** Digits and shifts *)

Lemma digits2_pos_spec m :
  2 ^ (Z.pos (digits2_pos m) - 1) ≤ Z.pos m < 2 ^ Z.pos (digits2_pos m).
Proof.
  induction m as [m IH|m IH|]; cbn [digits2_pos]; [| |simpl; lia];
    rewrite Pos2Z.inj_succ; replace (Z.succ (Z.pos (digits2_pos m)) - 1) with (Z.pos (digits2_pos m)) by lia;
    rewrite Z.pow_succ_r by lia;
    assert (2 ^ Z.pos (digits2_pos m) = 2 * 2 ^ (Z.pos (digits2_pos m) - 1)) as Heq
      by (rewrite <- Z.pow_succ_r by lia; f_equal; lia); lia.
Qed.

Lemma pow2_pos n : 0 ≤ n → 0 < 2 ^ n.
Proof. intros. by apply Z.pow_pos_nonneg. Qed.

Lemma pow2_le a b : a ≤ b → 2 ^ a ≤ 2 ^ b.
Proof. apply Z.pow_le_mono_r. lia. Qed.

Lemma pow2_lt_inv a b : 0 ≤ b → 2 ^ a < 2 ^ b → a < b.
Proof. intros Hb H. destruct (Z.lt_ge_cases a b) as [|Hge]; [done|]. apply pow2_le in Hge. lia. Qed.

Lemma digits2_pos_unique m d :
  0 ≤ d → 2 ^ (d - 1) ≤ Z.pos m < 2 ^ d → Z.pos (digits2_pos m) = d.
Proof.
  intros Hd H. pose proof (digits2_pos_spec m) as Hm.
  assert (d - 1 < Z.pos (digits2_pos m)) by (apply pow2_lt_inv; lia).
  assert (Z.pos (digits2_pos m) - 1 < d) by (apply pow2_lt_inv; lia). lia.
Qed.

Definition inexact (l : location) : Prop := l ≠ loc_Exact.

Lemma shr_1_spec mrs :
  0 ≤ shr_m mrs →
  shr_m (shr_1 mrs) = shr_m mrs / 2 ∧
  (loc_of_shr_record (shr_1 mrs) = loc_Exact ↔
   loc_of_shr_record mrs = loc_Exact ∧ shr_m mrs mod 2 = 0).
Proof.
  destruct mrs as [m r s]. intros Hm. simpl in Hm.
  assert (∀ p, Z.pos p~1 / 2 = Z.pos p ∧ Z.pos p~1 mod 2 = 1) as H1.
  { intros p. pose proof (Z.div_mod (Z.pos p~1) 2 ltac:(lia)).
    pose proof (Z.mod_pos_bound (Z.pos p~1) 2 ltac:(lia)). lia. }
  assert (∀ p, Z.pos p~0 / 2 = Z.pos p ∧ Z.pos p~0 mod 2 = 0) as H0.
  { intros p. pose proof (Z.div_mod (Z.pos p~0) 2 ltac:(lia)).
    pose proof (Z.mod_pos_bound (Z.pos p~0) 2 ltac:(lia)). lia. }
  destruct m as [|[p|p|]|p]; [| | | |lia]; cbn [shr_1 shr_m];
    try (destruct (H1 p) as [-> ->]); try (destruct (H0 p) as [-> ->]);
    (split; [done|]); destruct r, s; simpl; naive_solver.
Qed.

Lemma iter_pos_shr p mrs :
  0 ≤ shr_m mrs →
  shr_m (SpecFloat.iter_pos shr_1 p mrs) = shr_m mrs / 2 ^ Z.pos p ∧
  (loc_of_shr_record (SpecFloat.iter_pos shr_1 p mrs) = loc_Exact ↔
   loc_of_shr_record mrs = loc_Exact ∧ shr_m mrs mod 2 ^ Z.pos p = 0).
Proof.
  assert (∀ m a b, 0 ≤ m → 0 ≤ a → 0 ≤ b →
    m / 2 ^ a / 2 ^ b = m / 2 ^ (a + b) ∧
    (m mod 2 ^ a = 0 ∧ (m / 2 ^ a) mod 2 ^ b = 0 ↔ m mod 2 ^ (a + b) = 0)) as Hcomp.
  { intros m a b Hm Ha Hb. pose proof (pow2_pos a Ha). pose proof (pow2_pos b Hb).
    rewrite Z.pow_add_r by done. split; [by rewrite Z.div_div by lia|].
    rewrite Z.rem_mul_r by lia. pose proof (Z.mod_pos_bound m (2 ^ a) ltac:(lia)).
    pose proof (Z.mod_pos_bound (m / 2 ^ a) (2 ^ b) ltac:(lia)). nia. }
  revert mrs. induction p as [p IH|p IH|]; intros mrs Hm; cbn [SpecFloat.iter_pos].
  - destruct (shr_1_spec mrs Hm) as [E1 L1].
    assert (0 ≤ shr_m (shr_1 mrs)) as Hm1 by (rewrite E1; apply Z.div_pos; lia).
    destruct (IH _ Hm1) as [E2 L2].
    assert (0 ≤ shr_m (SpecFloat.iter_pos shr_1 p (shr_1 mrs))) as Hm2 by (rewrite E2; apply Z.div_pos; lia).
    destruct (IH _ Hm2) as [E3 L3].
    rewrite E3, L3, L2, L1, E2, E1.
    replace (Z.pos p~1) with (1 + (Z.pos p + Z.pos p)) by lia.
    destruct (Hcomp (shr_m mrs) 1 (Z.pos p + Z.pos p)) as [<- <-]; [lia..|].
    destruct (Hcomp (shr_m mrs / 2 ^ 1) (Z.pos p) (Z.pos p)) as [<- <-]; [|lia..|];
      [apply Z.div_pos; lia|]. change (2 ^ 1) with 2. split; [done|]. tauto.
  - destruct (IH _ Hm) as [E2 L2].
    assert (0 ≤ shr_m (SpecFloat.iter_pos shr_1 p mrs)) as Hm2 by (rewrite E2; apply Z.div_pos; lia).
    destruct (IH _ Hm2) as [E3 L3]. rewrite E3, L3, L2, E2.
    replace (Z.pos p~0) with (Z.pos p + Z.pos p) by lia.
    destruct (Hcomp (shr_m mrs) (Z.pos p) (Z.pos p)) as [<- <-]; [lia..|]. split; [done|]. tauto.
  - by apply shr_1_spec.
Qed.

Lemma shr_record_of_loc_spec m l :
  shr_m (shr_record_of_loc m l) = m ∧ loc_of_shr_record (shr_record_of_loc m l) = l.
Proof. by destruct l as [|[]]. Qed.

(** A shift to the right by [n] places. *)
Lemma shr_spec m l e n :
  0 ≤ m → 0 ≤ n →
  let '(mrs, e') := shr (shr_record_of_loc m l) e n in
  e' = e + n ∧ shr_m mrs = m / 2 ^ n ∧
  (loc_of_shr_record mrs = loc_Exact ↔ l = loc_Exact ∧ m mod 2 ^ n = 0).
Proof.
  intros Hm Hn. destruct (shr_record_of_loc_spec m l) as [Em El]. destruct n as [|p|p]; [| |lia]; simpl.
  - rewrite Em, El, Z.div_1_r, Z.mod_1_r. split; [lia|]. naive_solver.
  - destruct (iter_pos_shr p (shr_record_of_loc m l)) as [E L]; [by rewrite Em|].
    rewrite E, L, Em, El. done.
Qed.

(** ** Rounding between powers of two *)

(** A normal positive float between [2 ^ lo] and [2 ^ hi]. A negative exponent
    of a power makes it 0 here, so each bound only bites when it can. *)
Definition between (f : float64) (lo hi : Z) : Prop :=
  ∃ m e, f = S754_finite false m e ∧ 2 ^ 52 ≤ Z.pos m < 2 ^ 53 ∧ 2 ^ (lo - e) ≤ Z.pos m ≤ 2 ^ (hi - e).

Lemma fexp_normal d : - 1021 ≤ d → fexp 53 1024 d = d - 53.
Proof. unfold fexp, emin. lia. Qed.

Lemma digits_above m e lo : 2 ^ (lo - e) ≤ Z.pos m → lo < Z.pos (digits2_pos m) + e.
Proof.
  intros H. pose proof (digits2_pos_spec m).
  assert (lo - e < Z.pos (digits2_pos m)); [|lia]. apply pow2_lt_inv; lia.
Qed.

Lemma round_nearest_even_cases m l :
  round_nearest_even m l = m ∨ (round_nearest_even m l = m + 1 ∧ inexact l).
Proof.
  unfold inexact. destruct l as [|[]]; simpl; [by left| |by left|by right].
  destruct (Z.even m); [by left|by right].
Qed.

(** The rounded mantissa, before the carry is normalised. *)
Lemma round_mantissa m e l lo hi :
  let d := Z.pos (digits2_pos m) in
  53 ≤ d → 2 ^ (lo - e) ≤ Z.pos m → Z.pos m ≤ 2 ^ (hi - e) → (inexact l → Z.pos m + 1 ≤ 2 ^ (hi - e)) →
  let '(mrs, e') := shr (shr_record_of_loc (Z.pos m) l) e (d - 53) in
  let m' := round_nearest_even (shr_m mrs) (loc_of_shr_record mrs) in
  e' = e + d - 53 ∧ 2 ^ 52 ≤ m' ≤ 2 ^ 53 ∧ 2 ^ (lo - e') ≤ m' ≤ 2 ^ (hi - e').
Proof.
  intros d Hd Hlo Hhi Hin. pose proof (digits2_pos_spec m) as Hm. fold d in Hm.
  pose proof (shr_spec (Z.pos m) l e (d - 53) ltac:(lia) ltac:(lia)) as Hs.
  destruct (shr _ _ _) as [mrs e']. destruct Hs as (He & Es & Ls).
  set (n := d - 53) in *. assert (0 ≤ n) as Hn by lia. pose proof (pow2_pos n Hn) as Hpn.
  assert (2 ^ (d - 1) = 2 ^ 52 * 2 ^ n) as Hd1 by (rewrite <- Z.pow_add_r by lia; f_equal; lia).
  assert (2 ^ d = 2 ^ 53 * 2 ^ n) as Hd2 by (rewrite <- Z.pow_add_r by lia; f_equal; lia).
  assert (d - 1 < hi - e + 1) as Hdh.
  { destruct (Z.lt_ge_cases (hi - e) 0) as [Hneg|Hpos]; [rewrite Z.pow_neg_r in Hhi; lia|].
    apply pow2_lt_inv; [lia|]. rewrite (Z.pow_add_r 2 (hi - e) 1) by lia. lia. }
  assert (2 ^ (hi - e) = 2 ^ (hi - e') * 2 ^ n) as Hhe by (rewrite <- Z.pow_add_r by lia; f_equal; lia).
  assert (2 ^ 52 ≤ shr_m mrs < 2 ^ 53) as H1.
  { rewrite Es. split; [apply Z.div_le_lower_bound; lia|apply Z.div_lt_upper_bound; lia]. }
  assert (2 ^ (lo - e') ≤ shr_m mrs) as H2.
  { destruct (Z.lt_ge_cases (lo - e') 0) as [Hneg|Hpos]; [rewrite Z.pow_neg_r; lia|].
    rewrite Es. apply Z.div_le_lower_bound; [done|].
    assert (2 ^ (lo - e) = 2 ^ (lo - e') * 2 ^ n) by (rewrite <- Z.pow_add_r by lia; f_equal; lia). lia. }
  assert (shr_m mrs ≤ 2 ^ (hi - e')) as H3.
  { rewrite Es. apply Z.div_le_upper_bound; lia. }
  split; [lia|]. destruct (round_nearest_even_cases (shr_m mrs) (loc_of_shr_record mrs)) as [->|[-> Hx]]; [lia|].
  assert (shr_m mrs < 2 ^ (hi - e')); [|lia].
  rewrite Es. apply Z.div_lt_upper_bound; [done|]. unfold inexact in *.
  destruct l as [|c]; [|specialize (Hin ltac:(done)); lia].
  assert (Z.pos m mod 2 ^ n ≠ 0) as Hmod by tauto.
  assert (Z.pos m ≠ 2 ^ (hi - e)); [|lia]. intros Heq. apply Hmod. rewrite Heq, Hhe. apply Z.mod_mul. lia.
Qed.

Lemma Zdigits2_carry : Zdigits2 (2 ^ 53) = 54.
Proof. reflexivity. Qed.

Lemma round_between m e l lo hi :
  53 ≤ Z.pos (digits2_pos m) → - 1021 ≤ lo → hi ≤ 1000 →
  2 ^ (lo - e) ≤ Z.pos m → Z.pos m ≤ 2 ^ (hi - e) → (inexact l → Z.pos m + 1 ≤ 2 ^ (hi - e)) →
  between (binary_round_aux 53 1024 false (Z.pos m) e l) lo hi.
Proof.
  intros Hd Hl Hh Hlo Hhi Hin. pose proof (digits_above m e lo Hlo) as Hab.
  pose proof (round_mantissa m e l lo hi Hd Hlo Hhi Hin) as Hr.
  unfold binary_round_aux, shr_fexp at 1. cbn [Zdigits2]. rewrite fexp_normal by lia.
  replace (Z.pos (digits2_pos m) + e - 53 - e) with (Z.pos (digits2_pos m) - 53) by lia.
  destruct (shr _ _ _) as [mrs e']. destruct Hr as (He & Hm & Hb).
  set (m1 := round_nearest_even _ _) in *.
  assert (∀ x y, 2 ^ 52 ≤ x < 2 ^ 53 → 2 ^ (lo - y) ≤ x ≤ 2 ^ (hi - y) →
    between (match x with
             | Z0 => S754_zero false
             | Z.pos m0 => if y <=? 1024 - 53 then S754_finite false m0 y else S754_infinity false
             | Z.neg _ => S754_nan
             end) lo hi) as Hfin.
  { intros x y Hx Hy. destruct x as [|x|x]; [lia| |lia].
    assert (52 < hi - y + 1).
    { destruct (Z.lt_ge_cases (hi - y) 0) as [Hneg|Hpos]; [rewrite (Z.pow_neg_r 2 (hi - y)) in Hy; lia|].
      apply pow2_lt_inv; [lia|]. rewrite (Z.pow_add_r 2 (hi - y) 1) by lia. lia. }
    rewrite (proj2 (Z.leb_le y (1024 - 53))) by lia. by exists x, y. }
  unfold shr_fexp. destruct (decide (m1 = 2 ^ 53)) as [Hc|Hc].
  - rewrite Hc, Zdigits2_carry, fexp_normal by lia.
    replace (54 + e' - 53 - e') with 1 by lia.
    pose proof (shr_spec (2 ^ 53) loc_Exact e' 1 ltac:(lia) ltac:(lia)) as Hs.
    destruct (shr _ e' 1) as [mrs2 e2]. destruct Hs as (-> & -> & _).
    change (2 ^ 53 / 2 ^ 1) with (2 ^ 52). rewrite Hc in Hb.
    apply Hfin; [lia|].
    assert (0 ≤ hi - e' - 1).
    { destruct (Z.lt_ge_cases (hi - e' - 1) 0) as [Hneg|]; [|done]. exfalso.
      destruct Hb as [_ Hb]. pose proof (pow2_le (hi - e') 0 ltac:(lia)) as Hx. change (2 ^ 0) with 1 in Hx. lia. }
    assert (2 ^ (hi - e') = 2 * 2 ^ (hi - (e' + 1)))
      by (rewrite <- Z.pow_succ_r by lia; f_equal; lia).
    destruct (Z.lt_ge_cases (lo - (e' + 1)) 0) as [Hneg|Hpos]; [rewrite (Z.pow_neg_r 2 (lo - (e' + 1))); lia|].
    assert (2 ^ (lo - e') = 2 * 2 ^ (lo - (e' + 1)))
      by (rewrite <- Z.pow_succ_r by lia; f_equal; lia). lia.
  - destruct m1 as [|m2|m2] eqn:Em; [lia| |lia].
    assert (Z.pos (digits2_pos m2) = 53) as Hd2 by (apply digits2_pos_unique; lia).
    cbn [Zdigits2]. rewrite Hd2, fexp_normal by lia. replace (53 + e' - 53 - e') with 0 by lia.
    exact (Hfin (Z.pos m2) e' ltac:(lia) Hb).
Qed.

(** ** The operations between powers of two *)

Lemma shl_align_spec m e e' :
  let '(m', e'') := shl_align m e e' in
  e'' = Z.min e e' ∧ Z.pos m' = Z.pos m * 2 ^ (e - e'').
Proof.
  unfold shl_align. destruct (e' - e) as [|p|p] eqn:E.
  - split; [lia|]. rewrite Z.sub_diag, Z.mul_1_r. done.
  - split; [lia|]. rewrite Z.sub_diag, Z.mul_1_r. done.
  - split; [lia|]. replace (e - e') with (Z.pos p) by lia. clear.
    rewrite <- Z.shiftl_mul_pow2 by lia. by apply (Pos.iter_swap_gen _ _ Z.pos xO (Z.mul 2)).
Qed.

Lemma normalize_between m e lo hi :
  - 1021 ≤ lo → hi ≤ 1000 → 2 ^ (lo - e) ≤ m → 0 < m → m ≤ 2 ^ (hi - e) → e ≤ hi →
  between (binary_normalize 53 1024 m e false) lo hi.
Proof.
  intros Hl Hh Hlo Hpos Hhi He. destruct m as [|m|m]; [lia| |lia]. cbn [binary_normalize].
  unfold binary_round. pose proof (digits_above m e lo Hlo) as Hab. rewrite fexp_normal by lia.
  pose proof (shl_align_spec m e (Z.pos (digits2_pos m) + e - 53)) as Hs.
  destruct (shl_align _ _ _) as [m' e'']. destruct Hs as [He2 Hm'].
  set (k := e - e''). assert (0 ≤ k) as Hk by lia. fold k in Hm'. pose proof (pow2_pos k Hk).
  pose proof (digits2_pos_spec m) as Hd. set (d := Z.pos (digits2_pos m)) in *.
  assert (Z.pos (digits2_pos m') = d + k) as Hd'.
  { apply digits2_pos_unique; [lia|]. rewrite Hm'. replace (d + k - 1) with (d - 1 + k) by lia.
    rewrite !Z.pow_add_r by lia. nia. }
  apply round_between; [lia..| | |by intros ?].
  - rewrite Hm'. destruct (Z.lt_ge_cases (lo - e) 0) as [Hneg|Hp].
    + destruct (Z.lt_ge_cases (lo - e'') 0) as [Hneg2|Hp2]; [rewrite Z.pow_neg_r by lia; lia|].
      pose proof (pow2_le (lo - e'') k ltac:(lia)). nia.
    + replace (lo - e'') with (lo - e + k) by lia. rewrite Z.pow_add_r by lia. nia.
  - rewrite Hm'. replace (hi - e'') with (hi - e + k) by lia. rewrite Z.pow_add_r by lia. nia.
Qed.

Lemma float64_of_between z lo hi :
  0 ≤ lo → hi ≤ 1000 → 2 ^ lo ≤ z ≤ 2 ^ hi → between (float64_of z) lo hi.
Proof.
  intros Hl Hh [H1 H2]. pose proof (pow2_pos lo Hl).
  assert (0 ≤ hi) by (destruct (Z.lt_ge_cases hi 0); [rewrite Z.pow_neg_r in H2; lia|done]).
  apply normalize_between; rewrite ?Z.sub_0_r; lia.
Qed.

Lemma mul_between f g a b c d :
  between f a b → between g c d → - 1021 ≤ a + c → b + d ≤ 1000 →
  between (float64_mul f g) (a + c) (b + d).
Proof.
  intros (m1 & e1 & -> & Hm1 & Hb1) (m2 & e2 & -> & Hm2 & Hb2) Hl Hh.
  unfold float64_mul. cbn [SFmul xorb].
  assert (Z.pos (m1 * m2) = Z.pos m1 * Z.pos m2) as Hp by lia.
  assert (0 ≤ b - e1) by (destruct (Z.lt_ge_cases (b - e1) 0); [rewrite (Z.pow_neg_r 2 (b - e1)) in Hb1; lia|done]).
  assert (0 ≤ d - e2) by (destruct (Z.lt_ge_cases (d - e2) 0); [rewrite (Z.pow_neg_r 2 (d - e2)) in Hb2; lia|done]).
  apply round_between; [|done..| | |by intros ?].
  - pose proof (digits2_pos_spec (m1 * m2)).
    assert (52 < Z.pos (digits2_pos (m1 * m2))); [|lia]. apply pow2_lt_inv; [lia|]. nia.
  - rewrite Hp. destruct (Z.lt_ge_cases (a + c - (e1 + e2)) 0); [rewrite Z.pow_neg_r; lia|].
    destruct (Z.lt_ge_cases (a - e1) 0).
    { pose proof (pow2_le (a + c - (e1 + e2)) (c - e2) ltac:(lia)). nia. }
    destruct (Z.lt_ge_cases (c - e2) 0).
    { pose proof (pow2_le (a + c - (e1 + e2)) (a - e1) ltac:(lia)). nia. }
    replace (a + c - (e1 + e2)) with (a - e1 + (c - e2)) by lia. rewrite Z.pow_add_r by lia.
    apply Z.mul_le_mono_nonneg; try lia; apply Z.pow_nonneg; lia.
  - rewrite Hp. replace (b + d - (e1 + e2)) with (b - e1 + (d - e2)) by lia. rewrite Z.pow_add_r by lia.
    apply Z.mul_le_mono_nonneg; lia.
Qed.

Lemma new_location_exact n r : inexact (new_location n r) → r ≠ 0.
Proof.
  unfold inexact, new_location, new_location_even, new_location_odd. intros H ->.
  by destruct (Z.even n).
Qed.

(** The exponent of a float in its range. *)
Lemma between_exponent m e lo hi :
  2 ^ 52 ≤ Z.pos m < 2 ^ 53 → 2 ^ (lo - e) ≤ Z.pos m ≤ 2 ^ (hi - e) → lo - 52 ≤ e ≤ hi - 52.
Proof.
  intros Hm [H1 H2]. split.
  - assert (lo - e < 53); [|lia]. apply pow2_lt_inv; lia.
  - assert (0 ≤ hi - e) by (destruct (Z.lt_ge_cases (hi - e) 0); [rewrite (Z.pow_neg_r 2 (hi - e)) in H2; lia|done]).
    assert (52 < hi - e + 1); [|lia]. apply pow2_lt_inv; [lia|]. rewrite (Z.pow_add_r 2 (hi - e) 1) by lia. lia.
Qed.

Lemma div_between f g a b c d :
  between f a b → between g c d → - 1021 ≤ a - d → b - c ≤ 1000 →
  between (float64_div f g) (a - d) (b - c).
Proof.
  intros (m1 & e1 & -> & Hm1 & Hb1) (m2 & e2 & -> & Hm2 & Hb2) Hl Hh.
  pose proof (between_exponent _ _ _ _ Hm1 Hb1). pose proof (between_exponent _ _ _ _ Hm2 Hb2).
  unfold float64_div. cbn [SFdiv xorb]. unfold SFdiv_core_binary. cbn [Zdigits2].
  rewrite (digits2_pos_unique m1 53) by lia. rewrite (digits2_pos_unique m2 53) by lia.
  rewrite fexp_normal by lia.
  replace (Z.min (53 + e1 - (53 + e2) - 53) (e1 - e2)) with (e1 - e2 - 53) by lia.
  replace (e1 - e2 - (e1 - e2 - 53)) with 53 by lia. cbv iota zeta beta.
  rewrite Z.shiftl_mul_pow2 by lia.
  pose proof (Z_div_mod (Z.pos m1 * 2 ^ 53) (Z.pos m2) ltac:(lia)) as Hdiv.
  destruct (Z.div_eucl _ _) as [q r]. destruct Hdiv as [Heq Hr].
  assert (2 ^ 52 ≤ q) as Hq by nia.
  destruct q as [|q|q]; [lia| |lia].
  assert (0 ≤ b - e1) by lia. assert (c - e2 ≤ 52) by lia.
  set (y := b - c - (e1 - e2 - 53)). pose proof (pow2_pos y ltac:(lia)).
  assert (Z.pos m1 * 2 ^ 53 ≤ 2 ^ y * Z.pos m2) as Hup.
  { trans (2 ^ (b - e1) * 2 ^ 53); [apply Z.mul_le_mono_nonneg_r; lia|]. rewrite <- Z.pow_add_r by lia.
    destruct (Z.lt_ge_cases (c - e2) 0).
    - pose proof (pow2_le (b - e1 + 53) y ltac:(lia)). nia.
    - replace (b - e1 + 53) with (y + (c - e2)) by lia. rewrite Z.pow_add_r by lia.
      apply Z.mul_le_mono_nonneg_l; lia. }
  apply round_between; [|done..| | |].
  - pose proof (digits2_pos_spec q). assert (52 < Z.pos (digits2_pos q)); [|lia].
    apply pow2_lt_inv; [lia|]. lia.
  - destruct (Z.lt_ge_cases (a - d - (e1 - e2 - 53)) 0); [rewrite Z.pow_neg_r; lia|].
    set (x := a - d - (e1 - e2 - 53)) in *. pose proof (pow2_pos x ltac:(lia)).
    assert (2 ^ x * Z.pos m2 ≤ Z.pos m1 * 2 ^ 53) as Hx.
    { trans (2 ^ x * 2 ^ (d - e2)); [apply Z.mul_le_mono_nonneg_l; lia|].
      rewrite <- Z.pow_add_r by lia. replace (x + (d - e2)) with (a - e1 + 53) by lia.
      destruct (Z.lt_ge_cases (a - e1) 0).
      - pose proof (pow2_le (a - e1 + 53) 53 ltac:(lia)). nia.
      - rewrite Z.pow_add_r by lia. apply Z.mul_le_mono_nonneg_r; lia. }
    nia.
  - fold y. nia.
  - intros Hx%new_location_exact. fold y. nia.
Qed.

Lemma add_between f g a b c d k :
  between f a b → between g c d → b ≤ k → d ≤ k → k ≤ 999 → - 1021 ≤ a →
  between (float64_add f g) a (k + 1).
Proof.
  intros (m1 & e1 & -> & Hm1 & Hb1) (m2 & e2 & -> & Hm2 & Hb2) Hb Hd Hk Ha.
  pose proof (between_exponent _ _ _ _ Hm1 Hb1). pose proof (between_exponent _ _ _ _ Hm2 Hb2).
  unfold float64_add. cbn [SFadd cond_Zopp]. set (ez := Z.min e1 e2).
  pose proof (shl_align_spec m1 e1 ez) as H1. destruct (shl_align m1 e1 ez) as [m1' e1'].
  pose proof (shl_align_spec m2 e2 ez) as H2. destruct (shl_align m2 e2 ez) as [m2' e2']. cbn [fst].
  destruct H1 as [-> H1]. destruct H2 as [-> H2].
  replace (Z.min e1 ez) with ez in H1 by lia. replace (Z.min e2 ez) with ez in H2 by lia.
  assert (∀ m e m' j, ez ≤ e → Z.pos m ≤ 2 ^ (j - e) → 0 ≤ j - e → j ≤ k →
    Z.pos m' = Z.pos m * 2 ^ (e - ez) → Z.pos m' ≤ 2 ^ (k - ez)) as Hup.
  { intros m e m' j He Hm Hj Hjk ->. trans (2 ^ (j - e) * 2 ^ (e - ez)).
    - apply Z.mul_le_mono_nonneg_r; [apply Z.pow_nonneg; lia|done].
    - rewrite <- Z.pow_add_r by lia. apply pow2_le. lia. }
  pose proof (Hup m1 e1 m1' b ltac:(lia) (proj2 Hb1) ltac:(lia) Hb H1).
  pose proof (Hup m2 e2 m2' d ltac:(lia) (proj2 Hb2) ltac:(lia) Hd H2).
  assert (2 ^ (k + 1 - ez) = 2 * 2 ^ (k - ez)) as Hkk
    by (rewrite <- Z.pow_succ_r by lia; f_equal; lia).
  apply normalize_between; [lia|lia| |lia|lia|lia].
  assert (2 ^ (a - ez) ≤ Z.pos m1'); [|lia]. rewrite H1.
  pose proof (pow2_pos (e1 - ez) ltac:(lia)).
  destruct (Z.lt_ge_cases (a - e1) 0).
  - destruct (Z.lt_ge_cases (a - ez) 0); [rewrite Z.pow_neg_r by lia; lia|].
    pose proof (pow2_le (a - ez) (e1 - ez) ltac:(lia)). nia.
  - replace (a - ez) with (a - e1 + (e1 - ez)) by lia. rewrite Z.pow_add_r by lia.
    apply Z.mul_le_mono_nonneg_r; lia.
Qed.

(** ** Comparisons *)

(** Positive zero, or a positive float below [2 ^ hi]. *)
Definition at_most (f : float64) (hi : Z) : Prop :=
  f = S754_zero false ∨ ∃ lo, - 1021 ≤ lo ∧ between f lo hi.

Lemma between_lt f g lo hi lo' hi' : between f lo hi → between g lo' hi' → hi < lo' → float64_lt f g = true.
Proof.
  intros (m1 & e1 & -> & Hm1 & Hb1) (m2 & e2 & -> & Hm2 & Hb2) Hlt.
  pose proof (between_exponent _ _ _ _ Hm1 Hb1). pose proof (between_exponent _ _ _ _ Hm2 Hb2).
  unfold float64_lt, SFltb. cbn [SFcompare]. by rewrite (proj2 (Z.compare_lt_iff e1 e2)) by lia.
Qed.

Lemma at_most_lt f g hi lo' hi' : at_most f hi → between g lo' hi' → hi < lo' → float64_lt f g = true.
Proof.
  intros [->|(lo & _ & Hf)] Hg Hlt; [|by eapply between_lt].
  destruct Hg as (m & e & -> & _). done.
Qed.

(** Positive zero or a positive finite float: the values among which [<] is a
    strict total order. *)
Definition proper (f : float64) : Prop := f = S754_zero false ∨ ∃ m e, f = S754_finite false m e.

Lemma between_proper f lo hi : between f lo hi → proper f.
Proof. intros (m & e & -> & _). right. eauto. Qed.
Lemma at_most_proper f hi : at_most f hi → proper f.
Proof. intros [->|(lo & _ & H)]; [by left|by eapply between_proper]. Qed.

Lemma proper_lt_finite m1 e1 m2 e2 :
  float64_lt (S754_finite false m1 e1) (S754_finite false m2 e2) = true ↔
  e1 < e2 ∨ (e1 = e2 ∧ (m1 < m2)%positive).
Proof.
  unfold float64_lt, SFltb. cbn [SFcompare].
  change (Pos.compare_cont Eq m1 m2) with (m1 ?= m2)%positive.
  destruct (Z.compare_spec e1 e2), (Pos.compare_spec m1 m2); naive_solver lia.
Qed.

Lemma proper_total f g :
  proper f → proper g → float64_lt f g = true ∨ f = g ∨ float64_lt g f = true.
Proof.
  intros [->|(m1 & e1 & ->)] [->|(m2 & e2 & ->)]; [by auto..|]. rewrite !proper_lt_finite.
  destruct (Z.lt_trichotomy e1 e2) as [|[->|]]; [by auto| |by auto].
  destruct (Pos.lt_total m1 m2) as [|[->|]]; auto.
Qed.

Lemma proper_lt_trans f g h :
  proper f → proper g → proper h → float64_lt f g = true → float64_lt g h = true → float64_lt f h = true.
Proof.
  intros [->|(m1 & e1 & ->)] [->|(m2 & e2 & ->)] [->|(m3 & e3 & ->)]; try done.
  rewrite !proper_lt_finite. lia.
Qed.

Lemma proper_lt_irrefl f : proper f → float64_lt f f = false.
Proof.
  intros [->|(m & e & ->)]; [done|]. apply not_true_is_false. rewrite proper_lt_finite. lia.
Qed.

Lemma proper_eq f g : proper f → proper g → float64_eq f g = true ↔ f = g.
Proof.
  intros [->|(m1 & e1 & ->)] [->|(m2 & e2 & ->)]; [done|done|done|].
  unfold float64_eq, SFeqb. cbn [SFcompare].
  change (Pos.compare_cont Eq m1 m2) with (m1 ?= m2)%positive.
  destruct (Z.compare_spec e1 e2), (Pos.compare_spec m1 m2); naive_solver lia.
Qed.
