(* ===== verification/Duration.v ===== *)
(** [time.ParseDuration] of the Go standard library, which reads the backup
    interval of a spec and the durations of the configuration. Fractions are
    computed in float64 as the library does, on Rocq's IEEE-754 specification
    floats. *)
From Stdlib Require Import ZArith Lia Ascii.
From Stdlib Require Import SpecFloat.
From stdpp Require Import prelude strings.
From S2P Require Import Prelude.
From S2P Require Import Float64.
Import GoInt GoTime.

Open Scope Z_scope.

(** ** Parts of a duration *)

Definition digit_of (c : ascii) : option Z :=
  let n := Z.of_nat (nat_of_ascii c) in
  if bool_decide (48 ≤ n ≤ 57) then Some (n - 48) else None.
Definition is_point (c : ascii) : bool := Nat.eqb (nat_of_ascii c) 46.

(** leadingInt: the digits at the front, or an overflow. *)
Fixpoint leadingInt (x : Z) (s : string) : option (Z * string) :=
  match s with
  | String c s' =>
      match digit_of c with
      | None => Some (x, s)
      | Some n =>
          if bool_decide (2 ^ 63 / 10 < x) then None
          else if bool_decide (2 ^ 63 < x * 10 + n) then None
          else leadingInt (x * 10 + n) s'
      end
  | EmptyString => Some (x, s)
  end.

(** leadingFraction: digits past the precision are consumed and ignored. *)
Fixpoint leadingFraction (x : Z) (scale : spec_float) (overflow : bool) (s : string)
    : Z * spec_float * string :=
  match s with
  | String c s' =>
      match digit_of c with
      | None => (x, scale, s)
      | Some n =>
          if overflow then leadingFraction x scale true s'
          else if bool_decide ((2 ^ 63 - 1) / 10 < x) then leadingFraction x scale true s'
          else if bool_decide (2 ^ 63 < x * 10 + n) then leadingFraction x scale true s'
          else leadingFraction (x * 10 + n) (float64_mul scale (float64_of 10)) false s'
      end
  | EmptyString => (x, scale, s)
  end.

(** The unit: everything up to the next digit or period. *)
Fixpoint leadingUnit (s : string) : string * string :=
  match s with
  | String c s' =>
      if is_point c || bool_decide (is_Some (digit_of c)) then (EmptyString, s)
      else let '(u, rest) := leadingUnit s' in (String c u, rest)
  | EmptyString => (EmptyString, s)
  end.

Definition bytes (ns : list nat) : string :=
  fold_right (λ n s, String (ascii_of_nat n) s) EmptyString ns.

Definition unitMap (u : string) : option Z :=
  if decide (u = "ns"%string) then Some 1
  else if decide (u = "us"%string) then Some 1000
  else if decide (u = bytes [194; 181; 115]%nat) then Some 1000 (* U+00B5 s *)
  else if decide (u = bytes [206; 188; 115]%nat) then Some 1000 (* U+03BC s *)
  else if decide (u = "ms"%string) then Some 1000000
  else if decide (u = "s"%string) then Some Second
  else if decide (u = "m"%string) then Some Minute
  else if decide (u = "h"%string) then Some Hour
  else None.

(** ** The loop *)

Definition starts_number (s : string) : bool :=
  match s with
  | String c _ => is_point c || bool_decide (is_Some (digit_of c))
  | EmptyString => false
  end.

(** After a period: the fraction, its scale, whether it had digits, the rest. *)
Definition fraction (s : string) : Z * spec_float * bool * string :=
  match s with
  | String c s' =>
      if is_point c then
        let '(f, scale, rest) := leadingFraction 0 (float64_of 1) false s' in
        (f, scale, negb (Nat.eqb (String.length rest) (String.length s')), rest)
      else (0, float64_of 1, false, s)
  | EmptyString => (0, float64_of 1, false, s)
  end.

(** The nanoseconds of [v] units and the fraction [f / scale] of one. *)
Definition with_unit (v f : Z) (scale : spec_float) (unit : Z) : option Z :=
  if bool_decide (2 ^ 63 / unit < v) then None
  else
    let v := v * unit in
    if bool_decide (0 < f) then
      let v := v + uint64_of (float64_mul (float64_of f) (float64_div (float64_of unit) scale)) in
      if bool_decide (2 ^ 63 < v) then None else Some v
    else Some v.

(** One number with its unit. *)
Definition parse_item (s : string) : option (Z * string) :=
  if negb (starts_number s) then None
  else
    '(v, s1) ← leadingInt 0 s;
    let pre := negb (Nat.eqb (String.length s1) (String.length s)) in
    let '(f, scale, post, s2) := fraction s1 in
    if negb pre && negb post then None
    else
      let '(u, rest) := leadingUnit s2 in
      if decide (u = EmptyString) then None
      else
        unit ← unitMap u;
        v ← with_unit v f scale unit;
        Some (v, rest).

Fixpoint parse_items (fuel : nat) (d : Z) (s : string) : option Z :=
  match s, fuel with
  | EmptyString, _ => Some d
  | _, O => None
  | _, S fuel =>
      '(v, rest) ← parse_item s;
      if bool_decide (2 ^ 63 < d + v) then None else parse_items fuel (d + v) rest
  end.

(** [time.ParseDuration]; [None] is an error. *)
Definition ParseDuration (s : string) : option Duration :=
  let '(neg, s) :=
    match s with
    | String c s' =>
        if Nat.eqb (nat_of_ascii c) 45 then (true, s')
        else if Nat.eqb (nat_of_ascii c) 43 then (false, s') else (false, s)
    | EmptyString => (false, s)
    end in
  if decide (s = "0"%string) then Some 0
  else if decide (s = EmptyString) then None
  else
    d ← parse_items (String.length s) 0 s;
    if neg : bool then Some (- d)
    else if bool_decide (2 ^ 63 - 1 < d) then None else Some d.

(** ** Lemmas *)

Lemma leadingInt_length x s v rest :
  leadingInt x s = Some (v, rest) → (String.length rest ≤ String.length s)%nat.
Proof.
  revert x. induction s as [|c s IH]; simpl; intros x; [by intros [= _ <-]|].
  destruct (digit_of c); [|by intros [= _ <-]; simpl; lia].
  do 2 (case_bool_decide; [done|]). intros ?%IH. lia.
Qed.

Lemma leadingFraction_length x scale o s :
  (String.length (leadingFraction x scale o s).2 ≤ String.length s)%nat.
Proof.
  revert x scale o. induction s as [|c s IH]; simpl; intros x scale o; [lia|].
  assert (∀ x scale o, (String.length (leadingFraction x scale o s).2 ≤ S (String.length s))%nat) as IH'
    by (intros; etrans; [apply IH|apply Nat.le_succ_diag_r]).
  destruct (digit_of c) as [n|]; simpl; [|done]. destruct o; [done|]. by repeat case_bool_decide.
Qed.

Lemma fraction_length s : (String.length (fraction s).2 ≤ String.length s)%nat.
Proof.
  destruct s as [|c s]; simpl; [lia|]. destruct (is_point c); simpl; [|lia].
  pose proof (leadingFraction_length 0 (float64_of 1) false s) as Hl.
  destruct (leadingFraction 0 (float64_of 1) false s) as [[f sc] rest]. simpl in *. lia.
Qed.

Lemma leadingUnit_length s :
  String.length s = (String.length (leadingUnit s).1 + String.length (leadingUnit s).2)%nat.
Proof.
  induction s as [|c s IH]; simpl; [done|]. destruct (_ || _); simpl; [done|].
  destruct (leadingUnit s); simpl in *. lia.
Qed.

Lemma parse_item_length s v rest :
  parse_item s = Some (v, rest) → (String.length rest < String.length s)%nat.
Proof.
  unfold parse_item. destruct (negb _); [done|].
  destruct (leadingInt 0 s) as [[v1 s1]|] eqn:E1; simpl; [|done]. apply leadingInt_length in E1.
  pose proof (fraction_length s1) as Hf. destruct (fraction s1) as [[[f sc] post] s2]; simpl in Hf.
  destruct (_ && _); [done|].
  pose proof (leadingUnit_length s2) as Hu. destruct (leadingUnit s2) as [u r]; simpl in *.
  case_decide as Hne; [done|]. destruct (unitMap u); simpl; [|done].
  destruct (with_unit _ _ _ _); simpl; [|done]. intros [= _ <-].
  assert (0 < String.length u)%nat by (destruct u; simpl; [done|lia]). lia.
Qed.

(** The length of the text is fuel enough: more makes no difference. *)
Lemma parse_items_fuel n1 n2 d s :
  (String.length s ≤ n1)%nat → (String.length s ≤ n2)%nat → parse_items n1 d s = parse_items n2 d s.
Proof.
  revert n2 d s. induction n1 as [|n1 IH]; intros n2 d s H1 H2.
  - destruct s; simpl in H1; [|lia]. by destruct n2.
  - destruct s as [|c s]; [by destruct n2|]. destruct n2 as [|n2]; [simpl in H2; lia|].
    cbn [parse_items]. destruct (parse_item (String c s)) as [[v rest]|] eqn:E; simpl; [|done].
    apply parse_item_length in E. simpl in E, H1, H2. case_bool_decide; [done|]. apply IH; lia.
Qed.

Lemma uint64_of_nonneg f : 0 ≤ uint64_of f.
Proof. destruct f; simpl; try lia. apply Z.shiftl_nonneg. lia. Qed.

Lemma unitMap_pos u unit : unitMap u = Some unit → 0 < unit.
Proof. unfold unitMap. repeat case_decide; intros [= <-]; vm_compute; done. Qed.

Lemma leadingInt_nonneg x s v rest : 0 ≤ x → leadingInt x s = Some (v, rest) → 0 ≤ v.
Proof.
  revert x. induction s as [|c s IH]; simpl; intros x Hx; [intros [= <- _]; lia|].
  destruct (digit_of c) as [n|] eqn:Ed; [|intros [= <- _]; lia].
  do 2 (case_bool_decide; [done|]). apply IH. unfold digit_of in Ed. case_bool_decide; [|done].
  injection Ed as <-. lia.
Qed.

Lemma parse_item_nonneg s v rest : parse_item s = Some (v, rest) → 0 ≤ v.
Proof.
  unfold parse_item. destruct (negb _); [done|].
  destruct (leadingInt 0 s) as [[v1 s1]|] eqn:E1; simpl; [|done].
  apply leadingInt_nonneg in E1; [|lia].
  destruct (fraction s1) as [[[f sc] post] s2]. destruct (_ && _); [done|].
  destruct (leadingUnit s2) as [u r]. case_decide; [done|].
  destruct (unitMap u) as [unit|] eqn:Eu; simpl; [|done]. apply unitMap_pos in Eu.
  unfold with_unit. case_bool_decide; [done|].
  pose proof (uint64_of_nonneg (float64_mul (float64_of f) (float64_div (float64_of unit) sc))).
  case_bool_decide; [case_bool_decide; [done|]|]; intros [= <- _]; nia.
Qed.

Lemma parse_items_range n d s r : 0 ≤ d ≤ 2 ^ 63 → parse_items n d s = Some r → 0 ≤ r ≤ 2 ^ 63.
Proof.
  revert d s. induction n as [|n IH]; intros d s Hd; destruct s as [|c s]; cbn [parse_items];
    try (by intros [= <-]).
  destruct (parse_item (String c s)) as [[v rest]|] eqn:E; simpl; [|done].
  apply parse_item_nonneg in E. case_bool_decide; [done|]. apply IH. lia.
Qed.

(** What is parsed is a Duration: an int64. *)
Lemma ParseDuration_range s d : ParseDuration s = Some d → in_int64 d.
Proof.
  unfold ParseDuration, in_int64, min_int64, max_int64.
  destruct (match s with EmptyString => _ | _ => _ end) as [neg s'].
  case_decide; [intros [= <-]; lia|]. case_decide; [done|].
  destruct (parse_items _ _ _) as [r|] eqn:E; simpl; [|done].
  apply parse_items_range in E; [|lia]. destruct neg; [intros [= <-]; lia|].
  case_bool_decide; [done|]. intros [= <-]. lia.
Qed.

Example parse_168h : ParseDuration "168h" = Some (168 * Hour).
Proof. vm_compute. reflexivity. Qed.
Example parse_mixed : ParseDuration "1h15m30.918s" = Some (4530918000000).
Proof. vm_compute. reflexivity. Qed.
Example parse_fraction : ParseDuration "-1.5h" = Some (- 5400 * Second).
Proof. vm_compute. reflexivity. Qed.
Example parse_half : ParseDuration ".5ns" = Some 0.
Proof. vm_compute. reflexivity. Qed.
Example parse_refused :
  Forall (λ s, ParseDuration s = None) ["1"; "h"; "."; "1 h"; "1d"; "9223372036854775808ns"]%string.
Proof. repeat constructor. Qed.
