(* ===== verification/Strconv.v ===== *)
(** The text conversions of the Go standard library that quantities are read
    and written with: [strings.TrimSpace], [strings.CutSuffix],
    [strconv.ParseInt] and [strconv.ParseFloat].

    [ParseFloat] gives the float nearest to the number that was written, ties to
    even, however many digits there are: the decimal is divided exactly and
    rounded once. *)
From Stdlib Require Import ZArith Lia Ascii.
From Stdlib Require Import SpecFloat.
From stdpp Require Import prelude strings pretty.
From S2P Require Import Prelude.
From S2P Require Import Float64.
From S2P Require Import Duration.
Import GoInt GoString.

Open Scope Z_scope.
Set Default Proof Using "Type".

(** ** Package strings *)

(** What is left of [s] after the prefix [p]. *)
Fixpoint CutPrefix (p s : string) : option string :=
  match p, s with
  | EmptyString, _ => Some s
  | String a p', String b s' => if Ascii.eqb a b then CutPrefix p' s' else None
  | String _ _, EmptyString => None
  end.

Fixpoint rev_onto (s acc : string) : string :=
  match s with EmptyString => acc | String c s' => rev_onto s' (String c acc) end.
Definition reverse (s : string) : string := rev_onto s EmptyString.

Definition CutSuffix (s suffix : string) : option string :=
  reverse <$> CutPrefix (reverse suffix) (reverse s).

Definition TrimPrefix (s p : string) : string := default s (CutPrefix p s).

(** [strings.Contains(s, p)]. *)
Fixpoint Contains (s p : string) : bool :=
  bool_decide (is_Some (CutPrefix p s)) ||
  match s with EmptyString => false | String _ s' => Contains s' p end.

(** The UTF-8 encodings of the runes [unicode.IsSpace] accepts. *)
Definition white_space : list string :=
  (λ n, String (ascii_of_nat n) EmptyString) <$> [9; 10; 11; 12; 13; 32]%nat.
Definition wide_space : list string :=
  bytes <$> [[194; 133]; [194; 160]; [225; 154; 128]; [226; 128; 128]; [226; 128; 129]; [226; 128; 130];
             [226; 128; 131]; [226; 128; 132]; [226; 128; 133]; [226; 128; 134]; [226; 128; 135];
             [226; 128; 136]; [226; 128; 137]; [226; 128; 138]; [226; 128; 168]; [226; 128; 169];
             [226; 128; 175]; [226; 129; 159]; [227; 128; 128]]%nat.
Definition spaces : list string := white_space ++ wide_space.

Fixpoint cut_any (ps : list string) (s : string) : option string :=
  match ps with
  | [] => None
  | p :: ps' => match CutPrefix p s with Some rest => Some rest | None => cut_any ps' s end
  end.

(** Each round takes at least a byte, so the length is fuel enough. *)
Fixpoint trim_prefixes (fuel : nat) (ps : list string) (s : string) : string :=
  match fuel with
  | O => s
  | S fuel => match cut_any ps s with Some rest => trim_prefixes fuel ps rest | None => s end
  end.

Definition TrimSpace (s : string) : string :=
  let s := trim_prefixes (String.length s) spaces s in
  reverse (trim_prefixes (String.length s) (reverse <$> spaces) (reverse s)).

(** [slices.Sort] of strings. *)
Definition string_order (x y : string) : Prop := String.leb x y = true.
#[export] Instance string_order_dec : RelDecision string_order.
Proof. intros x y. unfold string_order. apply _. Defined.
#[export] Instance string_order_total : Total string_order.
Proof. intros x y. apply String.leb_total. Qed.

Lemma ltb_spec a b : String.ltb a b = true ↔ String.leb a b = true ∧ a ≠ b.
Proof.
  unfold String.ltb, String.leb. destruct (String.compare a b) eqn:E.
  - apply String.compare_eq_iff in E. naive_solver.
  - split; [|done]. intros _. split; [done|]. intros ->.
    pose proof (String.compare_antisym b b) as Ha. by rewrite E in Ha.
  - naive_solver.
Qed.

Lemma leb_trans a b c : String.leb a b = true → String.leb b c = true → String.leb a c = true.
Proof.
  intros H1%Is_true_true H2%Is_true_true. apply Is_true_true. exact (transitivity (R := String.le) H1 H2).
Qed.

Lemma ltb_trans a b c : String.ltb a b = true → String.ltb b c = true → String.ltb a c = true.
Proof.
  rewrite !ltb_spec. intros [H1 Hn1] [H2 Hn2]. split; [by eapply leb_trans|]. intros ->.
  apply Hn1. by apply String.leb_antisym.
Qed.

Lemma ltb_total a b : a ≠ b → String.ltb a b = true ∨ String.ltb b a = true.
Proof. intros Hne. rewrite !ltb_spec. destruct (String.leb_total a b); naive_solver. Qed.

Lemma string_order_refl x : string_order x x.
Proof. by destruct (String.leb_total x x). Qed.
#[export] Instance string_order_trans : Transitive string_order.
Proof. intros x y z. apply leb_trans. Qed.

(** ** strconv.ParseInt(s, 10, 64) *)

Fixpoint parse_digits (x : Z) (s : string) : option Z :=
  match s with
  | EmptyString => Some x
  | String c s' => match digit_of c with Some d => parse_digits (x * 10 + d) s' | None => None end
  end.

(** A sign in front, and the rest. *)
Definition cut_sign (s : string) : bool * string :=
  match s with
  | String c s' =>
      if Nat.eqb (nat_of_ascii c) 45 then (true, s')
      else if Nat.eqb (nat_of_ascii c) 43 then (false, s') else (false, s)
  | EmptyString => (false, s)
  end.

Definition ParseInt (s : string) : option Z :=
  let '(neg, digits) := cut_sign s in
  if decide (digits = EmptyString) then None
  else
    x ← parse_digits 0 digits;
    let z := if neg : bool then - x else x in
    if bool_decide (in_int64 z) then Some z else None.

(** ** strconv.ParseFloat(s, 64) *)

Definition lower (c : ascii) : ascii :=
  let n := nat_of_ascii c in if Nat.leb 65 n && Nat.leb n 90 then ascii_of_nat (n + 32) else c.
Definition is_char (n : nat) (c : ascii) : bool := Nat.eqb (nat_of_ascii c) n.
Definition hex_digit_of (c : ascii) : option Z :=
  match digit_of c with
  | Some d => Some d
  | None => let n := Z.of_nat (nat_of_ascii (lower c)) in
            if bool_decide (97 ≤ n ≤ 102) then Some (n - 87) else None
  end.

(** The mantissa: its digits as an integer, how many of them stand behind the
    point, whether there was a digit and an underscore, and the rest. *)
Fixpoint read_mantissa (hex sawdot sawdigits underscores : bool) (m behind : Z) (s : string)
    : Z * Z * bool * bool * string :=
  match s with
  | String c s' =>
      if is_char 95 c then read_mantissa hex sawdot sawdigits true m behind s'
      else if is_char 46 c then
        if sawdot then (m, behind, sawdigits, underscores, s)
        else read_mantissa hex true sawdigits underscores m behind s'
      else
        match (if hex then hex_digit_of c else digit_of c) with
        | Some d => read_mantissa hex sawdot true underscores (m * (if hex then 16 else 10) + d)
                      (if sawdot then behind + 1 else behind) s'
        | None => (m, behind, sawdigits, underscores, s)
        end
  | EmptyString => (m, behind, sawdigits, underscores, s)
  end.

(** The digits of the exponent, which stop counting from 10000 on. *)
Fixpoint read_exponent (underscores : bool) (e : Z) (s : string) : Z * bool * string :=
  match s with
  | String c s' =>
      if is_char 95 c then read_exponent true e s'
      else match digit_of c with
           | Some d => read_exponent underscores (if bool_decide (e < 10000) then e * 10 + d else e) s'
           | None => (e, underscores, s)
           end
  | EmptyString => (e, underscores, s)
  end.

(** What [saw] remembers: the beginning, a digit or base prefix, an underscore,
    or none of these. *)
Inductive saw := SawBegin | SawDigit | SawUnderscore | SawOther.
Fixpoint underscores_between (hex : bool) (last : saw) (s : string) : bool :=
  match s with
  | EmptyString => match last with SawUnderscore => false | _ => true end
  | String c s' =>
      if bool_decide (is_Some (if hex then hex_digit_of c else digit_of c))
      then underscores_between hex SawDigit s'
      else if is_char 95 c then
        match last with SawDigit => underscores_between hex SawUnderscore s' | _ => false end
      else match last with SawUnderscore => false | _ => underscores_between hex SawOther s' end
  end.
Definition base_prefix (s : string) : option (ascii * string) :=
  match s with
  | String z (String b s') =>
      if is_char 48 z && bool_decide (nat_of_ascii (lower b) ∈ [98; 111; 120]%nat)
      then Some (lower b, s') else None
  | _ => None
  end.
Definition underscoreOK (s : string) : bool :=
  let s := (cut_sign s).2 in
  match base_prefix s with
  | Some (b, s') => underscores_between (is_char 120 b) SawDigit s'
  | None => underscores_between false SawBegin s
  end.

(** readFloat: the sign, whether the number is hexadecimal, the mantissa and the
    exponent of its base (of 2 for a hexadecimal one). *)
Definition readFloat (s : string) : option (bool * bool * Z * Z) :=
  let '(neg, s1) := cut_sign s in
  let '(hex, s2) := match base_prefix s1 with
                    | Some (b, String c rest) => if is_char 120 b then (true, String c rest) else (false, s1)
                    | _ => (false, s1)
                    end in
  let '(m, behind, sawdigits, und, s3) := read_mantissa hex false false false 0 0 s2 in
  if negb sawdigits then None
  else
    let e0 := if hex : bool then - 4 * behind else - behind in
    '(e, und, s4) ←
      match s3 with
      | String c s4 =>
          if is_char (if hex then 112 else 101)%nat (lower c) then
            let '(eneg, s5) := cut_sign s4 in
            match s5 with
            | String d _ =>
                if bool_decide (is_Some (digit_of d)) then
                  let '(e, und, s6) := read_exponent und 0 s5 in
                  Some ((if eneg : bool then e0 - e else e0 + e), und, s6)
                else None
            | EmptyString => None
            end
          else if hex then None else Some (e0, und, s3)
      | EmptyString => if hex then None else Some (e0, und, s3)
      end;
    if decide (s4 = EmptyString) then
      if und && negb (underscoreOK s) then None else Some (neg, hex, m, e)
    else None.

(** The nearest float; the texts of infinities and NaN, and numbers that round to
    an infinity, are [None] like an error, which is how the program treats them. *)
Definition ParseFloat (s : string) : option float64 :=
  '(neg, hex, m, e) ← readFloat s;
  let f :=
    if hex : bool then binary_normalize 53 1024 m e false
    else if bool_decide (0 ≤ e) then float64_of (m * 10 ^ e)
    else float64_div (match m with Z.pos p => S754_finite false p 0 | _ => S754_zero false end)
                     (S754_finite false (Z.to_pos (10 ^ (- e))) 0) in
  match f with
  | S754_infinity _ | S754_nan => None
  | _ => Some (if neg : bool then SFopp f else f)
  end.

Example ParseFloat_half : ParseFloat "0.5" = Some (S754_finite false 4503599627370496 (-53)).
Proof. vm_compute. reflexivity. Qed.
Example ParseFloat_tenth : ParseFloat "1e-1" = Some (S754_finite false 7205759403792794 (-56)).
Proof. vm_compute. reflexivity. Qed.
Example ParseFloat_forms :
  ParseFloat "0x1p-1" = ParseFloat "0.5" ∧ ParseFloat "1_0.5e+1" = ParseFloat "105" ∧
  ParseFloat "-0" = Some (S754_zero true) ∧
  Forall (λ s, ParseFloat s = None) ["."; "1e"; "1__0"; "_1"; "0x1"; "inf"; "1e400"; "1 "]%string.
Proof. split_and!; [vm_compute; reflexivity..|]. repeat constructor. Qed.

(** ** Suffixes and white space *)

Lemma length_append (s t : string) : String.length (s ++ t) = (String.length s + String.length t)%nat.
Proof. induction s as [|c s IH]; [done|]. change (String.length (String c s ++ t)) with (S (String.length (s ++ t))). by rewrite IH. Qed.
Lemma append_inj_l (s s' t : string) : (s ++ t)%string = (s' ++ t)%string → s = s'.
Proof.
  revert s'. induction s as [|c s IH]; intros [|c' s'] He; [done| | |].
  - apply (f_equal String.length) in He. rewrite !length_append in He. simpl in He. lia.
  - apply (f_equal String.length) in He. rewrite !length_append in He. simpl in He. lia.
  - injection He as -> He. f_equal. by apply IH.
Qed.
Lemma append_assoc (s t u : string) :
  String.append (String.append s t) u = String.append s (String.append t u).
Proof. induction s as [|c s IH]; [done|]. exact (f_equal (String c) IH). Qed.

Lemma append_empty (s : string) : (s ++ EmptyString)%string = s.
Proof. by induction s as [|c s IH]; [|change (String c (s ++ EmptyString) = String c s); rewrite IH]. Qed.
Lemma rev_onto_app s t acc : rev_onto (s ++ t)%string acc = rev_onto t (rev_onto s acc).
Proof. revert acc. induction s as [|c s IH]; intros acc; [done|]. exact (IH (String c acc)). Qed.

Lemma rev_onto_acc s acc : rev_onto s acc = (reverse s ++ acc)%string.
Proof.
  unfold reverse. revert acc. induction s as [|c s IH]; intros acc; [done|]. cbn [rev_onto].
  rewrite (IH (String c acc)), (IH (String c EmptyString)), append_assoc. done.
Qed.

Lemma reverse_app s t : reverse (s ++ t)%string = (reverse t ++ reverse s)%string.
Proof. unfold reverse at 1. by rewrite rev_onto_app, rev_onto_acc. Qed.

Lemma reverse_reverse s : reverse (reverse s) = s.
Proof.
  induction s as [|c s IH]; [done|].
  unfold reverse at 2. cbn [rev_onto]. rewrite rev_onto_acc, reverse_app, IH. done.
Qed.

Lemma CutPrefix_app p s : CutPrefix p (p ++ s)%string = Some s.
Proof. induction p as [|c p IH]; simpl; [done|]. by rewrite Ascii.eqb_refl. Qed.

Lemma CutSuffix_app s suffix : CutSuffix (s ++ suffix)%string suffix = Some s.
Proof. unfold CutSuffix. rewrite reverse_app, CutPrefix_app. simpl. by rewrite reverse_reverse. Qed.

Lemma all_bytes_app f s t : all_bytes f (s ++ t)%string = all_bytes f s && all_bytes f t.
Proof. induction s as [|c s IH]; simpl; [done|]. by rewrite IH, andb_assoc. Qed.

Lemma all_bytes_reverse f s : all_bytes f (reverse s) = all_bytes f s.
Proof.
  induction s as [|c s IH]; [done|]. unfold reverse. cbn [rev_onto].
  rewrite rev_onto_acc, all_bytes_app, IH. simpl. rewrite andb_true_r. apply andb_comm.
Qed.

Lemma all_bytes_impl f g s : (∀ c, f c = true → g c = true) → all_bytes f s = true → all_bytes g s = true.
Proof. intros Hfg. induction s as [|c s IH]; simpl; [done|]. rewrite !andb_true_iff. naive_solver. Qed.

Definition visible (c : ascii) : bool := Nat.leb 33 (nat_of_ascii c) && Nat.leb (nat_of_ascii c) 126.

Definition starts_invisible (p : string) : bool :=
  match p with String c _ => negb (visible c) | EmptyString => false end.

Lemma trim_visible n ps s :
  Forall (λ p, starts_invisible p = true) ps → all_bytes visible s = true → trim_prefixes n ps s = s.
Proof.
  intros Hps Hs. destruct n as [|n]; [done|]. simpl.
  assert (cut_any ps s = None) as ->; [|done].
  induction Hps as [|p ps Hp Hps IH]; simpl; [done|].
  assert (CutPrefix p s = None) as ->; [|done].
  destruct p as [|a p]; [done|]. destruct s as [|b s]; [done|]. simpl in *.
  destruct (Ascii.eqb_spec a b) as [<-|]; [|done].
  apply andb_true_iff in Hs as [Hs _]. by rewrite Hs in Hp.
Qed.

Lemma TrimSpace_visible s : all_bytes visible s = true → TrimSpace s = s.
Proof.
  intros Hs. unfold TrimSpace.
  assert (∀ ps, forallb starts_invisible ps = true → Forall (λ p, starts_invisible p = true) ps) as Hps
    by (induction ps as [|p ps IH]; simpl; [constructor|intros [??]%andb_true_iff; constructor; auto]).
  rewrite (trim_visible _ spaces); [|by apply Hps|done].
  rewrite trim_visible; [apply reverse_reverse|by apply Hps|by rewrite all_bytes_reverse].
Qed.
