(* ===== verification/Quantity.v ===== *)
(** Resource quantities (internal/quantity/quantity.go), and the capacity an
    Agent reports in them (internal/agent/capacity.go, and the reservation of
    internal/config/config.go): the Agent formats, the server parses, and the
    ledger books Projects against the result. *)
From Stdlib Require Import ZArith Lia Ascii.
From Stdlib Require Import SpecFloat.
From stdpp Require Import prelude gmap strings pretty.
From S2P Require Import Prelude.
From S2P Require Import Float64.
From S2P Require Import Duration.
From S2P Require Import Strconv.
From S2P Require Import ProjectTypes.
From S2P Require Import NodeTypes.
Import GoInt GoString.

Open Scope Z_scope.
Set Default Proof Using "Type".

(** ** quantity.go; [None] stands for ErrInvalid *)

Definition memorySuffixes : list (string * Z) :=
  [("Ki", 2 ^ 10); ("Mi", 2 ^ 20); ("Gi", 2 ^ 30); ("Ti", 2 ^ 40);
   ("k", 1000); ("K", 1000); ("M", 1000000); ("G", 1000000000); ("T", 1000000000000)]%string.

Definition binaryUnits : list (string * Z) :=
  [("Ti", 2 ^ 40); ("Gi", 2 ^ 30); ("Mi", 2 ^ 20); ("Ki", 2 ^ 10)]%string.

Definition ParseCPU (s : string) : option Z :=
  let s := TrimSpace s in
  match CutSuffix s "m" with
  | Some milli =>
      n ← ParseInt milli;
      if bool_decide (n < 0) then None else Some n
  | None =>
      cores ← ParseFloat s;
      if float64_lt cores (float64_of 0) || float64_gt cores (float64_of (max_int64 / 1000)) then None
      else Some (int64_of (round_half_away (float64_mul cores (float64_of 1000))))
  end.

(** The loop over the suffixes: the number and the multiplier. *)
Fixpoint cut_unit (units : list (string * Z)) (s : string) : string * Z :=
  match units with
  | [] => (s, 1)
  | (suffix, multiplier) :: rest =>
      match CutSuffix s suffix with Some n => (n, multiplier) | None => cut_unit rest s end
  end.

Definition ParseMemory (s : string) : option Z :=
  let '(number, multiplier) := cut_unit memorySuffixes (TrimSpace s) in
  n ← ParseInt number;
  if bool_decide (n < 0 ∨ max_int64 / multiplier < n) then None else Some (n * multiplier).

Definition FormatCPU (milli : Z) : string := (FormatInt milli ++ "m")%string.

(** [bytes % u.size] and [bytes / u.size] of an int64: Go's division truncates. *)
Fixpoint format_units (units : list (string * Z)) (b : Z) : string :=
  match units with
  | [] => FormatInt b
  | (suffix, size) :: rest =>
      if bool_decide (Z.rem b size = 0) then (FormatInt (Z.quot b size) ++ suffix)%string
      else format_units rest b
  end.
Definition FormatMemory (b : Z) : string :=
  if bool_decide (b ≠ 0) then format_units binaryUnits b else FormatInt b.

(** ** What an Agent reports *)

(** agent.SystemReserved is [ResourceRequests] by another name. *)
Definition nodeCapacity (cpuCores memoryBytes : Z) (reserved : ResourceRequests)
    : ResourceList * ResourceList :=
  let cpuMilli := mul64 cpuCores 1000 in
  ({[ "cpu" := FormatCPU cpuMilli; "memory" := FormatMemory memoryBytes ]}%string,
   {[ "cpu" := FormatCPU (Z.max (sub64 cpuMilli (CPUMilli reserved)) 0);
      "memory" := FormatMemory (Z.max (sub64 memoryBytes (MemoryBytes reserved)) 0) ]}%string).

(** [NodeResources] is a call of Docker: [None] without a prober or with an
    error. *)
Definition probeNodeCapacity (measured : option (Z * Z)) (reserved : ResourceRequests)
    : option (ResourceList * ResourceList) :=
  '(cpuCores, memoryBytes) ← measured; Some (nodeCapacity cpuCores memoryBytes reserved).

(** AgentConfig.SystemReserved. *)
Definition SystemReserved (ReservedCPU ReservedMemory : string) : option ResourceRequests :=
  cpuMilli ← (if decide (ReservedCPU = EmptyString) then Some 0 else ParseCPU ReservedCPU);
  memoryBytes ← (if decide (ReservedMemory = EmptyString) then Some 0 else ParseMemory ReservedMemory);
  Some {| CPUMilli := cpuMilli; MemoryBytes := memoryBytes |}.

(** ** Decimal numbers *)

Lemma digit_of_pretty (x : N) : (x < 10)%N → digit_of (pretty_N_char x) = Some (Z.of_N x).
Proof.
  intros Hx.
  assert (x = 0 ∨ x = 1 ∨ x = 2 ∨ x = 3 ∨ x = 4 ∨ x = 5 ∨ x = 6 ∨ x = 7 ∨ x = 8 ∨ x = 9)%N
    as H by lia.
  repeat (destruct H as [->|H]; [by vm_compute|]). by rewrite H.
Qed.

Lemma parse_digits_pretty_go x s a :
  a = 0 → parse_digits a (pretty_N_go x s) = parse_digits (Z.of_N x) s.
Proof.
  intros ->. revert s. induction (N.lt_wf_0 x) as [x _ IH]; intros s.
  destruct (decide (x = 0)%N) as [->|Hx]; [done|].
  rewrite pretty_N_go_step by lia. rewrite IH by (apply N.div_lt; lia). cbn [parse_digits].
  rewrite digit_of_pretty by (apply N.mod_lt; lia). f_equal.
  pose proof (N.div_mod x 10 ltac:(lia)). lia.
Qed.

Lemma parse_digits_pretty (n : N) : parse_digits 0 (pretty n) = Some (Z.of_N n).
Proof.
  unfold pretty, pretty_N. case_decide as Hn; [by subst; vm_compute|]. by apply parse_digits_pretty_go.
Qed.

Definition is_digit (c : ascii) : bool := bool_decide (is_Some (digit_of c)).

Lemma parse_digits_all x s : is_Some (parse_digits x s) ↔ all_bytes is_digit s = true.
Proof.
  revert x. induction s as [|c s IH]; intros x; simpl; [naive_solver|]. unfold is_digit.
  destruct (digit_of c) as [d|]; simpl.
  - apply IH.
  - split; [by intros []|done].
Qed.

Lemma pretty_N_not_empty (n : N) : pretty n ≠ EmptyString.
Proof.
  unfold pretty, pretty_N. case_decide as Hn; [done|]. intros H.
  pose proof (parse_digits_pretty_go n EmptyString 0 eq_refl) as Hp. rewrite H in Hp. injection Hp as Hp. lia.
Qed.

Lemma FormatInt_pos z : 0 ≤ z → FormatInt z = pretty (Z.to_N z).
Proof. intros. unfold FormatInt, pretty at 1, pretty_Z. by destruct z; [| |lia]. Qed.

Lemma FormatInt_digits z : 0 ≤ z → all_bytes is_digit (FormatInt z) = true ∧ FormatInt z ≠ EmptyString.
Proof.
  intros Hz. rewrite FormatInt_pos by done. split; [|apply pretty_N_not_empty].
  apply (parse_digits_all 0). rewrite parse_digits_pretty. eauto.
Qed.

Lemma digit_code c : is_Some (digit_of c) → (48 ≤ nat_of_ascii c ≤ 57)%nat.
Proof. unfold digit_of. case_bool_decide; [lia|by intros []]. Qed.

Lemma cut_sign_digits s : all_bytes is_digit s = true → cut_sign s = (false, s).
Proof.
  destruct s as [|c s]; simpl; [done|]. intros [Hc _]%andb_true_iff. unfold is_digit in Hc. bools.
  apply digit_code in Hc. rewrite !(proj2 (Nat.eqb_neq _ _)) by lia. done.
Qed.

(** [ParseInt] reads back what [FormatInt] wrote. *)
Lemma ParseInt_FormatInt z : 0 ≤ z ≤ max_int64 → ParseInt (FormatInt z) = Some z.
Proof.
  intros Hz. destruct (FormatInt_digits z) as [Hd Hne]; [lia|]. unfold ParseInt.
  rewrite cut_sign_digits by done. rewrite decide_False by done.
  rewrite FormatInt_pos, parse_digits_pretty by lia. simpl. rewrite Z2N.id by lia.
  rewrite bool_decide_eq_true_2; [done|]. unfold in_int64, min_int64. lia.
Qed.

(** ** Suffixes and white space *)

Lemma digit_visible c : is_digit c = true → visible c = true.
Proof.
  unfold is_digit, visible. intros H. bools. apply digit_code in H. split; apply Nat.leb_le; lia.
Qed.

Lemma FormatInt_visible z : 0 ≤ z → all_bytes visible (FormatInt z) = true.
Proof. intros Hz. eapply all_bytes_impl; [apply digit_visible|]. by apply FormatInt_digits. Qed.

(** A text that ends in a digit has no unit. *)
Definition ends_nondigit (s : string) : bool :=
  match reverse s with String c _ => negb (is_digit c) | EmptyString => false end.

Lemma CutSuffix_digits z suffix :
  0 ≤ z → ends_nondigit suffix = true → CutSuffix (FormatInt z) suffix = None.
Proof.
  intros Hz. unfold CutSuffix, ends_nondigit.
  destruct (FormatInt_digits z Hz) as [Hd _]. rewrite <- all_bytes_reverse in Hd.
  destruct (reverse suffix) as [|c p]; [done|]. intros Hc.
  destruct (reverse (FormatInt z)) as [|b s]; [done|]. simpl in *.
  apply andb_true_iff in Hd as [Hb _]. destruct (Ascii.eqb_spec c b) as [->|]; [|done].
  by rewrite Hb in Hc.
Qed.

Lemma cut_unit_digits units z :
  0 ≤ z → forallb (λ u, ends_nondigit u.1) units = true → cut_unit units (FormatInt z) = (FormatInt z, 1).
Proof.
  intros Hz. induction units as [|[suffix mult] units IH]; [done|].
  cbn [forallb fst cut_unit]. intros [Hs Hu]%andb_true_iff. by rewrite CutSuffix_digits, IH.
Qed.

Lemma CutSuffix_self z suffix : CutSuffix (FormatInt z ++ suffix)%string suffix = Some (FormatInt z).
Proof. apply CutSuffix_app. Qed.

(** A number and a unit of two letters: the unit is found, and not one that ends
    in other letters. *)
Lemma CutSuffix_unit s a b a' :
  a ≠ a' →
  CutSuffix (s ++ String a (String b EmptyString))%string (String a' (String b EmptyString)) = None.
Proof.
  intros Hne. unfold CutSuffix. rewrite reverse_app.
  assert (CutPrefix (reverse (String a' (String b EmptyString)))
            (String.append (reverse (String a (String b EmptyString))) (reverse s)) =
          (if Ascii.eqb b b then if Ascii.eqb a' a then Some (reverse s) else None else None)) as ->
    by reflexivity.
  rewrite Ascii.eqb_refl. by destruct (Ascii.eqb_spec a' a) as [->|].
Qed.

Lemma ParseMemory_unit n suffix mult :
  0 ≤ n → n * mult ≤ max_int64 → 0 < mult → all_bytes visible suffix = true →
  cut_unit memorySuffixes (FormatInt n ++ suffix)%string = (FormatInt n, mult) →
  ParseMemory (FormatInt n ++ suffix)%string = Some (n * mult).
Proof.
  intros Hn Hmax Hm Hv Hc. unfold ParseMemory.
  rewrite TrimSpace_visible by (rewrite all_bytes_app, FormatInt_visible, Hv by done; done).
  rewrite Hc, ParseInt_FormatInt by nia. simpl. rewrite bool_decide_eq_false_2; [done|].
  intros [?|Hlt]; [lia|]. apply Z.lt_nge in Hlt. apply Hlt. apply Z.div_le_lower_bound; lia.
Qed.

Lemma format_units_cases units b :
  (∃ suffix size, (suffix, size) ∈ units ∧ Z.rem b size = 0 ∧
     format_units units b = (FormatInt (Z.quot b size) ++ suffix)%string) ∨
  format_units units b = FormatInt b.
Proof.
  induction units as [|[suffix size] units IH]; simpl; [by right|]. case_bool_decide as Hr.
  - left. exists suffix, size. split; [left|done].
  - destruct IH as [(s & z & Hin & ?)|?]; [left; exists s, z; split; [by right|done]|by right].
Qed.

Lemma ParseMemory_plain b : 0 ≤ b ≤ max_int64 → ParseMemory (FormatInt b) = Some b.
Proof.
  intros Hb. unfold ParseMemory. rewrite TrimSpace_visible by (apply FormatInt_visible; lia).
  rewrite cut_unit_digits by (lia || vm_compute; reflexivity).
  rewrite ParseInt_FormatInt by done. simpl. rewrite bool_decide_eq_false_2, Z.mul_1_r; [done|].
  rewrite Z.div_1_r. lia.
Qed.

Lemma cut_binary_unit s suffix mult :
  (suffix, mult) ∈ binaryUnits → cut_unit memorySuffixes (s ++ suffix)%string = (s, mult).
Proof.
  intros Hin. unfold memorySuffixes. cbn [cut_unit].
  repeat (apply elem_of_cons in Hin as [[= -> ->]|Hin];
    [rewrite ?CutSuffix_unit by done; by rewrite CutSuffix_app|]). by apply elem_of_nil in Hin.
Qed.

Lemma binaryUnits_spec suffix mult :
  (suffix, mult) ∈ binaryUnits → 0 < mult ∧ all_bytes visible suffix = true.
Proof.
  intros Hin. repeat (apply elem_of_cons in Hin as [[= -> ->]|Hin]; [done|]). by apply elem_of_nil in Hin.
Qed.

Lemma ParseMemory_FormatMemory b : 0 ≤ b ≤ max_int64 → ParseMemory (FormatMemory b) = Some b.
Proof.
  intros Hb. unfold FormatMemory. case_bool_decide as H0; [|by apply ParseMemory_plain].
  destruct (format_units_cases binaryUnits b) as [(suffix & mult & Hin & Hr & ->)| ->]; [|by apply ParseMemory_plain].
  destruct (binaryUnits_spec _ _ Hin) as [Hm Hv].
  assert (Z.quot b mult * mult = b) as Hq by (pose proof (Z.quot_rem b mult ltac:(lia)); lia).
  rewrite (ParseMemory_unit _ _ mult); [by f_equal|apply Z.quot_pos; lia|lia|done|done|].
  by apply cut_binary_unit.
Qed.

Lemma ParseCPU_FormatCPU m : 0 ≤ m ≤ max_int64 → ParseCPU (FormatCPU m) = Some m.
Proof.
  intros Hm. unfold ParseCPU, FormatCPU.
  rewrite TrimSpace_visible by (rewrite all_bytes_app, FormatInt_visible by lia; done).
  rewrite CutSuffix_app, ParseInt_FormatInt by done. simpl. rewrite bool_decide_eq_false_2 by lia. done.
Qed.

Lemma lookup_pair (c m : string) :
  ({[ "cpu" := c; "memory" := m ]}%string : ResourceList) !! "cpu"%string = Some c ∧
  ({[ "cpu" := c; "memory" := m ]}%string : ResourceList) !! "memory"%string = Some m.
Proof. split; reflexivity. Qed.

(** C40 (quantity.go): what one side writes the other reads. Every amount of memory
    and of CPU an int64 can hold, from zero up, is read back exactly from the text
    it is formatted as, whichever unit the formatter picked; and an Agent's
    measured capacity, less the reservation and floored at zero, is what the server
    books against. *)
Theorem quantities_round_trip :
  (∀ b, 0 ≤ b ≤ max_int64 → ParseMemory (FormatMemory b) = Some b) ∧
  (∀ m, 0 ≤ m ≤ max_int64 → ParseCPU (FormatCPU m) = Some m) ∧
  (∀ cores mem reserved, 0 ≤ cores ≤ 1000000 → 0 ≤ mem ≤ max_int64 →
     0 ≤ CPUMilli reserved ≤ max_int64 → 0 ≤ MemoryBytes reserved ≤ max_int64 →
     let allocatable := (nodeCapacity cores mem reserved).2 in
     (allocatable !! "cpu"%string ≫= ParseCPU) = Some (Z.max (cores * 1000 - CPUMilli reserved) 0) ∧
     (allocatable !! "memory"%string ≫= ParseMemory) = Some (Z.max (mem - MemoryBytes reserved) 0)).
Proof.
  split; [apply ParseMemory_FormatMemory|]. split; [apply ParseCPU_FormatCPU|].
  intros cores mem reserved Hc Hm Hrc Hrm. cbv zeta. unfold nodeCapacity. cbn [snd].
  match goal with
  | |- context [FormatCPU ?c] => match goal with
    | |- context [FormatMemory ?m] => destruct (lookup_pair (FormatCPU c) (FormatMemory m)) as [-> ->]
    end
  end.
  cbn [mbind option_bind]. unfold mul64, sub64. unfold max_int64 in *.
  rewrite (int64_wrap_id (cores * 1000)) by (unfold in_int64, min_int64, max_int64; lia).
  rewrite !int64_wrap_id by (unfold in_int64, min_int64, max_int64; lia).
  rewrite ParseCPU_FormatCPU by (unfold max_int64; lia).
  by rewrite ParseMemory_FormatMemory by (unfold max_int64; lia).
Qed.

(** The range check of [ParseCPU] compares with a bound that is not representable
    and rounds up to the next float, 9223372036854776 cores; that many millicores
    round to 2 ^ 63, and the conversion to int64 overflows: the parser answers a
    negative capacity where it means to refuse the text. *)
Lemma ParseCPU_overflows : ParseCPU "9223372036854776" = Some min_int64.
Proof. vm_compute. reflexivity. Qed.

Example ParseCPU_forms :
  ParseCPU "500m" = Some 500 ∧ ParseCPU " 2 " = Some 2000 ∧ ParseCPU "0.5" = Some 500 ∧
  ParseCPU "0.0005" = Some 1 ∧ ParseCPU "1e3" = Some 1000000 ∧ ParseCPU "-1" = None ∧
  ParseCPU "1.5m" = None ∧ ParseCPU "9223372036854778" = None ∧ ParseCPU EmptyString = None.
Proof. vm_compute. done. Qed.
Example ParseMemory_forms :
  ParseMemory "512Mi" = Some 536870912 ∧ ParseMemory "1K" = Some 1000 ∧ ParseMemory "1.5Gi" = None ∧
  ParseMemory "8388608Ti" = None ∧ ParseMemory "8388607Ti" = Some (8388607 * 2 ^ 40) ∧
  ParseMemory "Mi" = None ∧ ParseMemory "-1" = None.
Proof. vm_compute. done. Qed.
