(* ===== verification/Digest.v ===== *)
(** Tokens and the digests they are kept as (internal/server/auth/auth.go,
    internal/overlay/keyref/keyref.go), over the SHA-256, the hexadecimal and the
    base64 encodings of Go's standard library. The store never sees a token, only
    its digest; nothing proved later needs the digest to be free of collisions,
    because every statement is about digests. *)
From Stdlib Require Import ZArith Lia Ascii.
From stdpp Require Import prelude strings.
From S2P Require Import Prelude.
From S2P Require Import Strconv.
Import GoString.

Set Default Proof Using "Type".

(** ** crypto/sha256 *)

Section sha256.
Local Open Scope Z_scope.

Definition word (x : Z) : Z := Z.land x (2 ^ 32 - 1).
Definition rotr (n x : Z) : Z := Z.lor (Z.shiftr x n) (word (Z.shiftl x (32 - n))).

(** The constants are the leading fractional bits of the roots of the first
    primes: cube roots for the rounds, square roots for the initial state. *)
Definition sha_primes : list Z :=
  filter (λ n, Forall (λ d, n `mod` d ≠ 0) (seqZ 2 (n - 2))) (seqZ 2 310).

(** The integer cube root of [n] above [r], by its low [bits] bits. *)
Fixpoint cube_root (bits : nat) (n r : Z) : Z :=
  match bits with
  | O => r
  | S bits => let r' := r + 2 ^ Z.of_nat bits in
              cube_root bits n (if bool_decide (r' * r' * r' <= n) then r' else r)
  end.

Definition sha_k : list Z :=
  Eval vm_compute in (λ p, word (cube_root 36 (p * 2 ^ 96) 0)) <$> sha_primes.
Definition sha_init : list Z :=
  Eval vm_compute in (λ p, word (Z.sqrt (p * 2 ^ 64))) <$> take 8 sha_primes.

(** The message schedule, latest word first. *)
Definition sigma0 (x : Z) : Z := Z.lxor (Z.lxor (rotr 7 x) (rotr 18 x)) (Z.shiftr x 3).
Definition sigma1 (x : Z) : Z := Z.lxor (Z.lxor (rotr 17 x) (rotr 19 x)) (Z.shiftr x 10).
Definition schedule_word (ws : list Z) : Z :=
  word (sigma1 (nth 1 ws 0) + nth 6 ws 0 + sigma0 (nth 14 ws 0) + nth 15 ws 0).
Fixpoint schedule (n : nat) (ws : list Z) : list Z :=
  match n with O => rev ws | S n => schedule n (schedule_word ws :: ws) end.

Definition sha_round (s : list Z) (kw : Z * Z) : list Z :=
  match s with
  | [a; b; c; d; e; f; g; h] =>
      let s1 := Z.lxor (Z.lxor (rotr 6 e) (rotr 11 e)) (rotr 25 e) in
      let ch := Z.lxor (Z.land e f) (Z.land (Z.lxor e (2 ^ 32 - 1)) g) in
      let t1 := h + s1 + ch + kw.1 + kw.2 in
      let s0 := Z.lxor (Z.lxor (rotr 2 a) (rotr 13 a)) (rotr 22 a) in
      let maj := Z.lxor (Z.lxor (Z.land a b) (Z.land a c)) (Z.land b c) in
      [word (t1 + s0 + maj); a; b; c; word (d + t1); e; f; g]
  | _ => s
  end.

Definition big_endian (bs : list Z) : Z := foldl (λ x b, x * 256 + b) 0 bs.
Definition sha_block (h : list Z) (block : list Z) : list Z :=
  let ws := big_endian <$> [take 4 block; take 4 (drop 4 block); take 4 (drop 8 block); take 4 (drop 12 block);
    take 4 (drop 16 block); take 4 (drop 20 block); take 4 (drop 24 block); take 4 (drop 28 block);
    take 4 (drop 32 block); take 4 (drop 36 block); take 4 (drop 40 block); take 4 (drop 44 block);
    take 4 (drop 48 block); take 4 (drop 52 block); take 4 (drop 56 block); take 4 (drop 60 block)] in
  zip_with (λ x y, word (x + y)) h (foldl sha_round h (zip sha_k (schedule 48 (rev ws)))).

(** [n] bytes of [x], most significant first. *)
Fixpoint to_bytes (n : nat) (x : Z) : list Z :=
  match n with O => [] | S n => Z.land (Z.shiftr x (8 * Z.of_nat n)) 255 :: to_bytes n x end.

Definition sha_pad (msg : list Z) : list Z :=
  let len := Z.of_nat (length msg) in
  msg ++ [128] ++ repeat 0 (Z.to_nat ((55 - len) mod 64)) ++ to_bytes 8 (8 * len).

Fixpoint sha_blocks (n : nat) (h msg : list Z) : list Z :=
  match n with O => h | S n => sha_blocks n (sha_block h (take 64 msg)) (drop 64 msg) end.

(** A padded message is a whole number of blocks. *)
Definition Sum256 (msg : list Z) : list Z :=
  let padded := sha_pad msg in
  sha_blocks (Nat.div (length padded) 64) sha_init padded ≫= to_bytes 4.
End sha256.

Fixpoint string_bytes (s : string) : list Z :=
  match s with EmptyString => [] | String c s' => Z.of_nat (nat_of_ascii c) :: string_bytes s' end.
Definition bytes_string (bs : list Z) : string :=
  foldr (λ b s, String (ascii_of_nat (Z.to_nat b)) s) EmptyString bs.

(** ** encoding/hex and encoding/base64 *)

Section encodings.
Local Open Scope Z_scope.

Definition hex_char (x : Z) : Z := if bool_decide (x < 10) then 48 + x else 87 + x.
Definition hex_EncodeToString (bs : list Z) : string :=
  bytes_string (bs ≫= λ b, [hex_char (Z.shiftr b 4); hex_char (Z.land b 15)]).

Definition base64url_digit (x : Z) : Z :=
  if bool_decide (x < 26) then 65 + x else if bool_decide (x < 52) then 71 + x
  else if bool_decide (x < 62) then x - 4 else if bool_decide (x = 62) then 45 else 95.

(** Three bytes are four digits; without padding one byte is two and two are
    three. *)
Fixpoint base64_raw (bs : list Z) : list Z :=
  match bs with
  | [] => []
  | [a] => [Z.shiftr a 2; Z.shiftl (Z.land a 3) 4]
  | [a; b] => [Z.shiftr a 2; Z.lor (Z.shiftl (Z.land a 3) 4) (Z.shiftr b 4); Z.shiftl (Z.land b 15) 2]
  | a :: b :: c :: rest =>
      Z.shiftr a 2 :: Z.lor (Z.shiftl (Z.land a 3) 4) (Z.shiftr b 4)
      :: Z.lor (Z.shiftl (Z.land b 15) 2) (Z.shiftr c 6) :: Z.land c 63 :: base64_raw rest
  end.
Definition RawURLEncoding (bs : list Z) : string := bytes_string (base64url_digit <$> base64_raw bs).
End encodings.

(** ** Tokens *)

Definition tokenPrefix : string := "cara_".

(** [b] is what the system's random source gave for 32 bytes; its error is the
    caller's. *)
Definition NewToken (b : list Z) : string := (tokenPrefix ++ RawURLEncoding b)%string.
Definition HashToken (token : string) : string := hex_EncodeToString (Sum256 (string_bytes token)).

Definition PrefixLen : nat := 8.
Definition keyref_Hash (key : string) : string * string :=
  (hex_EncodeToString (Sum256 (string_bytes key)),
   if Nat.ltb PrefixLen (String.length key) then String.substring 0 PrefixLen key else key).

(** The vectors of FIPS 180-4, of RFC 4648 without padding, and the boundary at
    which the length no longer fits the block. *)
Example HashToken_abc :
  HashToken "abc" = "ba7816bf8f01cfea414140de5dae2223b00361a396177a9cb410ff61f20015ad"%string.
Proof. vm_compute. reflexivity. Qed.
Example HashToken_empty :
  HashToken EmptyString = "e3b0c44298fc1c149afbf4c8996fb92427ae41e4649b934ca495991b7852b855"%string.
Proof. vm_compute. reflexivity. Qed.
Example HashToken_two_blocks :
  HashToken "abcdbcdecdefdefgefghfghighijhijkijkljklmklmnlmnomnopnopq" =
  "248d6a61d20638b8e5c026930c3e6039a33ce45964ff2167f6ecedd419db06c1"%string.
Proof. vm_compute. reflexivity. Qed.
Example RawURLEncoding_forms :
  RawURLEncoding (string_bytes "foob") = "Zm9vYg"%string ∧
  RawURLEncoding (string_bytes "fooba") = "Zm9vYmE"%string ∧
  RawURLEncoding (string_bytes "foobar") = "Zm9vYmFy"%string ∧
  RawURLEncoding [251; 255; 191]%Z = "-_-_"%string.
Proof. vm_compute. done. Qed.

(** *** Shapes

    A digest is 64 hexadecimal digits, whatever was digested, and a new token is
    the prefix and 43 characters: no token is mistaken for another's digest. *)

Lemma length_bytes_string bs : String.length (bytes_string bs) = length bs.
Proof. induction bs as [|b bs IH]; [done|]. exact (f_equal S IH). Qed.

Lemma length_to_bytes n x : length (to_bytes n x) = n.
Proof. induction n as [|n IH]; [done|]. exact (f_equal S IH). Qed.

Lemma length_sha_round s kw : length (sha_round s kw) = length s.
Proof. by do 9 (destruct s as [|? s]; [done|]). Qed.

Lemma length_sha_rounds kws s : length (foldl sha_round s kws) = length s.
Proof. revert s. induction kws as [|kw kws IH]; intros s; simpl; [done|]. by rewrite IH, length_sha_round. Qed.

Lemma length_sha_block h block : length (sha_block h block) = length h.
Proof. unfold sha_block. by rewrite length_zip_with, length_sha_rounds, Nat.min_id. Qed.

Lemma length_sha_blocks n h msg : length (sha_blocks n h msg) = length h.
Proof. revert h msg. induction n as [|n IH]; intros h msg; simpl; [done|]. by rewrite IH, length_sha_block. Qed.

Lemma length_bind_const {A B} (f : A → list B) k xs :
  (∀ x, length (f x) = k) → (length (xs ≫= f) = length xs * k)%nat.
Proof. intros Hf. induction xs as [|x xs IH]; csimpl; [done|]. by rewrite length_app, Hf, IH. Qed.

Lemma length_Sum256 msg : length (Sum256 msg) = 32%nat.
Proof.
  unfold Sum256. rewrite (length_bind_const _ 4) by (intros; apply length_to_bytes).
  by rewrite length_sha_blocks.
Qed.

Lemma length_HashToken token : String.length (HashToken token) = 64%nat.
Proof.
  unfold HashToken, hex_EncodeToString. rewrite length_bytes_string, (length_bind_const _ 2) by done.
  by rewrite length_Sum256.
Qed.

(** *** Tokens and white space

    A token is made of visible characters, so it is the same after
    [strings.TrimSpace]. *)

Definition is_byte (x : Z) : Prop := (0 ≤ x < 256)%Z.

Definition all_z (f : Z → bool) : bool := forallb f (seqZ 0 256).
Lemma all_z_spec f x : all_z f = true → is_byte x → f x = true.
Proof.
  unfold all_z. rewrite forallb_forall. intros Hf Hx. apply Hf, list_elem_of_In, elem_of_seqZ.
  unfold is_byte in Hx. lia.
Qed.

(** Every digit comes from one byte or from two neighbours. *)
Definition digit_shows (x : Z) : bool := visible (ascii_of_nat (Z.to_nat (base64url_digit x))).

Lemma base64_digits_visible bs : Forall is_byte bs → Forall (λ x, digit_shows x = true) (base64_raw bs).
Proof.
  assert (∀ a, is_byte a → digit_shows (Z.shiftr a 2) = true) as H1
    by (intros a; apply (all_z_spec (λ a, digit_shows (Z.shiftr a 2))); vm_compute; reflexivity).
  assert (∀ a, is_byte a → digit_shows (Z.shiftl (Z.land a 3) 4) = true) as H2
    by (intros a; apply (all_z_spec (λ a, digit_shows (Z.shiftl (Z.land a 3) 4))); vm_compute; reflexivity).
  assert (∀ b, is_byte b → digit_shows (Z.shiftl (Z.land b 15) 2) = true) as H3
    by (intros a; apply (all_z_spec (λ b, digit_shows (Z.shiftl (Z.land b 15) 2))); vm_compute; reflexivity).
  assert (∀ c, is_byte c → digit_shows (Z.land c 63) = true) as H4
    by (intros a; apply (all_z_spec (λ c, digit_shows (Z.land c 63))); vm_compute; reflexivity).
  assert (∀ a b, is_byte a → is_byte b →
    digit_shows (Z.lor (Z.shiftl (Z.land a 3) 4) (Z.shiftr b 4)) = true ∧
    digit_shows (Z.lor (Z.shiftl (Z.land a 15) 2) (Z.shiftr b 6)) = true) as H5.
  { intros a b Ha Hb. apply andb_true_iff.
    apply (all_z_spec (λ b, digit_shows (Z.lor (Z.shiftl (Z.land a 3) 4) (Z.shiftr b 4)) &&
      digit_shows (Z.lor (Z.shiftl (Z.land a 15) 2) (Z.shiftr b 6)))); [|done].
    apply (all_z_spec (λ a, all_z (λ b, digit_shows (Z.lor (Z.shiftl (Z.land a 3) 4) (Z.shiftr b 4)) &&
      digit_shows (Z.lor (Z.shiftl (Z.land a 15) 2) (Z.shiftr b 6))))); [vm_compute; reflexivity|done]. }
  revert bs. fix IH 1. intros [|a [|b [|c rest]]] Hbs; simpl; [done|..];
    repeat (apply Forall_cons in Hbs as [? Hbs]); repeat constructor; auto; by apply H5.
Qed.

Lemma NewToken_visible b : Forall is_byte b → all_bytes visible (NewToken b) = true.
Proof.
  intros Hb%base64_digits_visible. unfold NewToken, RawURLEncoding. rewrite all_bytes_app. simpl.
  induction Hb as [|x xs Hx Hxs IH]; simpl; [done|]. apply andb_true_iff. by split.
Qed.

Lemma NewToken_nonempty b : NewToken b ≠ EmptyString.
Proof. done. Qed.
