(* ===== verification/AccessTypes.v ===== *)
(** The credentials and the small resources next to Projects and Nodes: API and
    join tokens (api/v1/token_types.go), pre-auth keys (store.PreAuthKey in
    internal/store/interface.go), Secrets (api/v1/secret_types.go) and the overlay
    types (api/v1/overlay_types.go), and the tables they are kept in. *)
From Stdlib Require Import ZArith Lia.
From stdpp Require Import prelude gmap strings.
From S2P Require Import Prelude.
From S2P Require Import ProjectTypes.
Import GoTime GoInt GoString GoError.

Set Default Proof Using "Type".

(** ** Tokens *)

Definition APITokenKind := string.
Definition APITokenKindUser : APITokenKind := "user".
Definition APITokenKindNode : APITokenKind := "node".

Definition APITokenKind_Valid (k : APITokenKind) : bool :=
  bool_decide (k = APITokenKindNode) || bool_decide (k = APITokenKindUser).

Record APIToken := {
  at_ID : Z;
  at_Kind : APITokenKind;
  at_Name : string;
  at_CreatedBy : string;
  at_CreatedAt : Time;
  at_RevokedAt : option Time
}.
Record APITokenRequest := { atr_Kind : APITokenKind; atr_Name : string }.
Record APITokenCreated := { atc_APIToken : APIToken; atc_Token : string }.

Record NodeJoinToken := {
  jt_ID : Z;
  jt_NodeName : string;
  jt_CreatedBy : string;
  jt_CreatedAt : Time;
  jt_ExpiresAt : Time;
  jt_UsedAt : option Time;
  jt_RevokedAt : option Time
}.
Record NodeJoinTokenRequest := { jtr_TTL : string }.
Record NodeJoinTokenCreated := { jtc_NodeJoinToken : NodeJoinToken; jtc_Token : string }.
Record NodeJoined := { nj_APIToken : APIToken; nj_Token : string }.
Record NodeTokensRevoked := { ntr_NodeTokens : nat; ntr_JoinTokens : nat }.

(** ** Pre-auth keys *)

Definition PreAuthKeyStateActive : string := "active".
Definition PreAuthKeyStateUsed : string := "used".

Record PreAuthKey := {
  pk_KeyHash : string;
  pk_KeyPrefix : string;
  pk_CaraNodeName : string;
  pk_Expiration : Time;
  pk_State : string;
  pk_UsedByIP : string;
  pk_UsedAt : Time;
  pk_IssuedBy : string
}.

(** ** Secrets *)

Record SecretDataItem := { sdi_Key : string; sdi_Value : string }.
Definition SecretSpec := list SecretDataItem.
Record Secret := { sec_Meta : ObjectMeta; sec_Spec : SecretSpec }.

(** ** Tables

    The token tables are keyed by their ids, which a sequence gives out; the keys
    by the hash, the Secrets by namespace and name. A timestamp column keeps
    microseconds. *)
Definition timestamptz (t : Time) : Time := (t - t mod 1000)%Z.

Record TokenRow := { tr_Token : APIToken; tr_Hash : string }.
Record JoinRow := { jr_Token : NodeJoinToken; jr_Hash : string }.

Record SecretRow := {
  sr_UID : string;
  sr_Spec : SecretSpec;
  sr_Labels : gmap string string;
  sr_Annotations : gmap string string;
  sr_CreatedAt : Time;
  sr_UpdatedAt : Time;
  sr_Version : Z
}.

Record Access := {
  ac_Tokens : gmap Z TokenRow;
  ac_NextToken : Z;
  ac_Joins : gmap Z JoinRow;
  ac_NextJoin : Z;
  ac_Keys : gmap string PreAuthKey;
  ac_Secrets : gmap (string * string) SecretRow
}.
Definition no_access : Access :=
  {| ac_Tokens := ∅; ac_NextToken := 1; ac_Joins := ∅; ac_NextJoin := 1; ac_Keys := ∅; ac_Secrets := ∅ |}%Z.

Definition ac_with_Tokens (next : Z) (x : gmap Z TokenRow) (a : Access) : Access :=
  {| ac_Tokens := x; ac_NextToken := next; ac_Joins := ac_Joins a; ac_NextJoin := ac_NextJoin a;
     ac_Keys := ac_Keys a; ac_Secrets := ac_Secrets a |}.
Definition ac_with_Joins (next : Z) (x : gmap Z JoinRow) (a : Access) : Access :=
  {| ac_Tokens := ac_Tokens a; ac_NextToken := ac_NextToken a; ac_Joins := x; ac_NextJoin := next;
     ac_Keys := ac_Keys a; ac_Secrets := ac_Secrets a |}.
Definition ac_with_Keys (x : gmap string PreAuthKey) (a : Access) : Access :=
  {| ac_Tokens := ac_Tokens a; ac_NextToken := ac_NextToken a; ac_Joins := ac_Joins a;
     ac_NextJoin := ac_NextJoin a; ac_Keys := x; ac_Secrets := ac_Secrets a |}.
Definition ac_with_Secrets (x : gmap (string * string) SecretRow) (a : Access) : Access :=
  {| ac_Tokens := ac_Tokens a; ac_NextToken := ac_NextToken a; ac_Joins := ac_Joins a;
     ac_NextJoin := ac_NextJoin a; ac_Keys := ac_Keys a; ac_Secrets := x |}.

(** [SET revoked_at = COALESCE(revoked_at, now)]. *)
Definition revoke_token (now : Time) (r : TokenRow) : TokenRow :=
  let t := tr_Token r in
  {| tr_Token := {| at_ID := at_ID t; at_Kind := at_Kind t; at_Name := at_Name t;
       at_CreatedBy := at_CreatedBy t; at_CreatedAt := at_CreatedAt t;
       at_RevokedAt := Some (default now (at_RevokedAt t)) |};
     tr_Hash := tr_Hash r |}.
Definition with_join_dates (used revoked : option Time) (r : JoinRow) : JoinRow :=
  let t := jr_Token r in
  {| jr_Token := {| jt_ID := jt_ID t; jt_NodeName := jt_NodeName t; jt_CreatedBy := jt_CreatedBy t;
       jt_CreatedAt := jt_CreatedAt t; jt_ExpiresAt := jt_ExpiresAt t;
       jt_UsedAt := used; jt_RevokedAt := revoked |};
     jr_Hash := jr_Hash r |}.

(** ** What never changes

    No row of these tables is deleted, and each evolves by [R]. *)
Section rows_evolve.
Context `{Countable K} {A : Type} (R : A → A → Prop).

Definition rows_evolve (m m' : gmap K A) : Prop :=
  ∀ i r, m !! i = Some r → ∃ r', m' !! i = Some r' ∧ R r r'.

#[export] Instance rows_evolve_preorder : PreOrder R → PreOrder rows_evolve.
Proof.
  intros HR. split.
  - intros m i r Hr. exists r. by split.
  - intros m1 m2 m3 H12 H23 i r Hr. destruct (H12 i r Hr) as (r2 & Hr2 & ?).
    destruct (H23 i r2 Hr2) as (r3 & Hr3 & ?). exists r3. split; [done|]. by trans r2.
Qed.

Lemma rows_evolve_insert i r m :
  PreOrder R → (∀ r0, m !! i = Some r0 → R r0 r) → rows_evolve m (<[i := r]> m).
Proof.
  intros HR Hr i' r' Hr'. destruct (decide (i = i')) as [<-|Hne].
  - exists r. rewrite lookup_insert_eq. auto.
  - exists r'. by rewrite lookup_insert_ne.
Qed.

Lemma rows_evolve_fmap f m : (∀ r, R r (f r)) → rows_evolve m (f <$> m).
Proof. intros Hf i r Hr. exists (f r). rewrite lookup_fmap, Hr. by split. Qed.
End rows_evolve.

(** A date, once set, stays. *)
Definition set_once (x y : option Time) : Prop := x ≠ None → y = x.
#[export] Instance set_once_preorder : PreOrder set_once.
Proof. split; [by intros ? ?|]. intros x y z H1 H2 Hx. rewrite <- (H1 Hx). apply H2. by rewrite H1. Qed.

Lemma set_once_None y : set_once None y.
Proof. by intros []. Qed.

Record token_evolves (r r' : TokenRow) : Prop := {
  te_id : at_ID (tr_Token r') = at_ID (tr_Token r);
  te_kind : at_Kind (tr_Token r') = at_Kind (tr_Token r);
  te_name : at_Name (tr_Token r') = at_Name (tr_Token r);
  te_creator : at_CreatedBy (tr_Token r') = at_CreatedBy (tr_Token r);
  te_hash : tr_Hash r' = tr_Hash r;
  te_revoked : set_once (at_RevokedAt (tr_Token r)) (at_RevokedAt (tr_Token r'))
}.
#[export] Instance token_evolves_preorder : PreOrder token_evolves.
Proof.
  split.
  - intros r. by split.
  - intros r1 r2 r3 [] []. split; try congruence. by trans (at_RevokedAt (tr_Token r2)).
Qed.

Record join_evolves (r r' : JoinRow) : Prop := {
  je_id : jt_ID (jr_Token r') = jt_ID (jr_Token r);
  je_node : jt_NodeName (jr_Token r') = jt_NodeName (jr_Token r);
  je_expires : jt_ExpiresAt (jr_Token r') = jt_ExpiresAt (jr_Token r);
  je_hash : jr_Hash r' = jr_Hash r;
  je_used : set_once (jt_UsedAt (jr_Token r)) (jt_UsedAt (jr_Token r'));
  je_revoked : set_once (jt_RevokedAt (jr_Token r)) (jt_RevokedAt (jr_Token r'))
}.
#[export] Instance join_evolves_preorder : PreOrder join_evolves.
Proof.
  split.
  - intros r. by split.
  - intros r1 r2 r3 [] []. split; try congruence.
    + by trans (jt_UsedAt (jr_Token r2)).
    + by trans (jt_RevokedAt (jr_Token r2)).
Qed.

(** A key stays bound to the Node it was issued for, and is never active again. *)
Record key_evolves (k k' : PreAuthKey) : Prop := {
  ke_node : pk_CaraNodeName k' = pk_CaraNodeName k;
  ke_expiration : pk_Expiration k' = pk_Expiration k;
  ke_state : pk_State k ≠ PreAuthKeyStateActive → pk_State k' ≠ PreAuthKeyStateActive
}.
#[export] Instance key_evolves_preorder : PreOrder key_evolves.
Proof.
  split.
  - intros k. by split.
  - intros k1 k2 k3 [] []. split; try congruence. auto.
Qed.

Record access_evolves (a a' : Access) : Prop := {
  ae_tokens : rows_evolve token_evolves (ac_Tokens a) (ac_Tokens a');
  ae_joins : rows_evolve join_evolves (ac_Joins a) (ac_Joins a');
  ae_keys : rows_evolve key_evolves (ac_Keys a) (ac_Keys a')
}.
#[export] Instance access_evolves_preorder : PreOrder access_evolves.
Proof.
  split.
  - intros a. by split.
  - intros a1 a2 a3 [] []. split; by etrans.
Qed.

(** ** The invariant of the tables *)

(** Who a token redeemed from join token [id] is recorded as created by. *)
Definition join_creator (id : Z) : string := ("join-token:" ++ FormatInt id)%string.
#[export] Instance join_creator_inj : Inj (=) (=) join_creator.
Proof. intros x y Hxy. apply (inj (String.append "join-token:")) in Hxy. exact (inj pretty.pretty _ _ Hxy). Qed.

(** The unique columns; and a token issued for a join token is the only one, a
    Node token for the Node of that join token, which is used. *)
Record access_inv (a : Access) : Prop := {
  ai_token_hash : ∀ i j r s, ac_Tokens a !! i = Some r → ac_Tokens a !! j = Some s →
    tr_Hash r = tr_Hash s → i = j;
  ai_join_hash : ∀ i j r s, ac_Joins a !! i = Some r → ac_Joins a !! j = Some s →
    jr_Hash r = jr_Hash s → i = j;
  ai_token_id : ∀ i r, ac_Tokens a !! i = Some r → at_ID (tr_Token r) = i;
  ai_join_id : ∀ i r, ac_Joins a !! i = Some r → jt_ID (jr_Token r) = i;
  ai_redeemed : ∀ i r k, ac_Tokens a !! i = Some r → at_CreatedBy (tr_Token r) = join_creator k →
    at_Kind (tr_Token r) = APITokenKindNode ∧
    ∃ j, ac_Joins a !! k = Some j ∧ jt_UsedAt (jr_Token j) ≠ None ∧
         at_Name (tr_Token r) = jt_NodeName (jr_Token j);
  ai_redeemed_once : ∀ i j r s k, ac_Tokens a !! i = Some r → ac_Tokens a !! j = Some s →
    at_CreatedBy (tr_Token r) = join_creator k → at_CreatedBy (tr_Token s) = join_creator k → i = j
}.

Lemma no_access_inv : access_inv no_access.
Proof. split; intros *; simpl; rewrite lookup_empty; done. Qed.

(** Writes that keep the rows of both token tables. *)
Lemma access_inv_tables a a' :
  ac_Tokens a' = ac_Tokens a → ac_Joins a' = ac_Joins a → access_inv a → access_inv a'.
Proof. intros Ht Hj []. split; rewrite ?Ht, ?Hj; done. Qed.
