(* ===== verification/Database.v ===== *)
(** The database the server keeps its state in (the tables of
    internal/store/postgres/migrations), and the effects of the code that
    works on it.

    A method of the store is a [prog]: a tree of atomic database statements,
    clock readings and events. [run] executes it against a schedule, which
    says before every statement what the other goroutines and servers did to
    the database, and whether the statement ran, was lost, or committed with
    its acknowledgement lost. [wp] is the weakest precondition over every
    schedule whose interference satisfies a rely relation; [wp_adequate]
    relates the two. *)
From Stdlib Require Import ZArith Lia.
From stdpp Require Import prelude gmap strings.
From S2P Require Import Prelude.
From S2P Require Import Conditions.
From S2P Require Import ProjectTypes.
From S2P Require Import NodeTypes.
From S2P Require Import AccessTypes.
Import GoTime GoInt GoError.

Set Default Proof Using "Type".

(** ** Rows *)

(** The status column as stored: a status and whether its JSON has a
    "conditions" key. A marshalled status has one exactly when there is a
    condition (omitempty); jsonb_set writes one always. *)
Record StatusJSON := { js_Status : ProjectStatus; js_HasConditions : bool }.
#[export] Instance StatusJSON_eq_dec : EqDecision StatusJSON.
Proof. solve_decision. Defined.

Definition marshal_status (s : ProjectStatus) : StatusJSON :=
  {| js_Status := s; js_HasConditions := bool_decide (st_Conditions s ≠ []) |}.

Record ProjectRow := {
  row_UID : string;
  row_Phase : string;
  row_Spec : ProjectSpec;
  row_Status : StatusJSON;
  row_Labels : gmap string string;
  row_Annotations : gmap string string;
  row_CreatedAt : Time;
  row_UpdatedAt : Time;
  row_Version : Z;
  row_SpecRevision : Z
}.

Record NodeRow := {
  nr_UID : string;
  nr_Phase : string;
  nr_Spec : NodeSpec;
  nr_Status : NodeStatus;
  nr_Labels : gmap string string;
  nr_Annotations : gmap string string;
  nr_CreatedAt : Time;
  nr_UpdatedAt : Time;
  nr_Version : Z
}.

Definition row_status (r : ProjectRow) : ProjectStatus := js_Status (row_Status r).

(** The database: Project rows by namespace and name, Node rows by name (they
    are all in the default namespace), the takeover audit in insertion order, the
    tables of AccessTypes.v, and how many UIDs have been drawn so far. *)
Record DB := {
  db_Projects : gmap (string * string) ProjectRow;
  db_Nodes : gmap string NodeRow;
  db_Audit : list TakeoverAuditRecord;
  db_Access : Access;
  db_Issued : nat
}.

Definition empty_db : DB := {| db_Projects := ∅; db_Nodes := ∅; db_Audit := []; db_Access := no_access; db_Issued := 0 |}.

Definition db_with_Projects (x : gmap (string * string) ProjectRow) (d : DB) : DB :=
  {| db_Projects := x; db_Nodes := db_Nodes d; db_Audit := db_Audit d;
     db_Access := db_Access d; db_Issued := db_Issued d |}.
Definition db_with_Nodes (x : gmap string NodeRow) (d : DB) : DB :=
  {| db_Projects := db_Projects d; db_Nodes := x; db_Audit := db_Audit d;
     db_Access := db_Access d; db_Issued := db_Issued d |}.
Definition db_with_Audit (x : list TakeoverAuditRecord) (d : DB) : DB :=
  {| db_Projects := db_Projects d; db_Nodes := db_Nodes d; db_Audit := x;
     db_Access := db_Access d; db_Issued := db_Issued d |}.
Definition db_with_Access (x : Access) (d : DB) : DB :=
  {| db_Projects := db_Projects d; db_Nodes := db_Nodes d; db_Audit := db_Audit d;
     db_Access := x; db_Issued := db_Issued d |}.
Definition db_issue (d : DB) : DB :=
  {| db_Projects := db_Projects d; db_Nodes := db_Nodes d; db_Audit := db_Audit d;
     db_Access := db_Access d; db_Issued := S (db_Issued d) |}.

Definition defaultNamespace : string := "default".
Definition project_key (name : string) : string * string := (defaultNamespace, name).
Definition project_at (d : DB) (name : string) : option ProjectRow :=
  db_Projects d !! project_key name.

(** ** Events *)

Definition Topic := string.
Definition TopicProjectCreated : Topic := "project.created".
Definition TopicProjectUpdated : Topic := "project.updated".
Definition TopicNodeCreated : Topic := "node.created".
Definition TopicNodeUpdated : Topic := "node.updated".

(** What a run leaves behind: the writes it committed, and the events it
    published, in order. *)
Inductive Event :=
| Wrote (before after : DB)
| Published (topic : Topic) (name : string).

(** ** UIDs

    [uuid.NewString] is not in the repository; what the code relies on is that
    it never returns the same value twice. The code draws a UID just before the
    INSERT that is its only use, so the model draws it in that statement. *)
Class UUIDSource := {
  uuid_NewString : nat → string;
  uuid_NewString_inj : Inj (=) (=) uuid_NewString
}.
#[export] Existing Instance uuid_NewString_inj.

(** ** Programs *)

Section programs.

Inductive prog (A : Type) : Type :=
| Ret (a : A)
| Query (R : Set) (q : DB → result R) (k : result R → prog A)
| Exec (R : Set) (q : DB → result (R * option DB)) (k : result R → prog A)
| Now (k : Time → prog A)
| Publish (topic : Topic) (name : string) (k : prog A).
#[global] Arguments Ret {A} a.
#[global] Arguments Query {A} R q k.
#[global] Arguments Exec {A} R q k.
#[global] Arguments Now {A} k.
#[global] Arguments Publish {A} topic name k.

#[global] Instance prog_bind : MBind prog :=
  fix bind {A B} (f : A → prog B) (p : prog A) : prog B :=
    match p with
    | Ret a => f a
    | Query R q k => Query R q (λ r, bind f (k r))
    | Exec R q k => Exec R q (λ r, bind f (k r))
    | Now k => Now (λ t, bind f (k t))
    | Publish topic name k => Publish topic name (bind f k)
    end.

#[global] Instance prog_fmap : FMap prog := λ A B f p, p ≫= λ a, Ret (f a).

(** One statement of the code, and a clock reading, as programs. *)
Definition query {R : Set} (q : DB → result R) : prog (result R) := Query R q Ret.
Definition exec {R : Set} (q : DB → result (R * option DB)) : prog (result R) := Exec R q Ret.
Definition now_ : prog Time := Now Ret.
Definition publish (topic : Topic) (name : string) : prog () := Publish topic name (Ret ()).

(** How one statement ends: it runs; it never reaches the database; or its
    effect commits and the answer is lost. *)
Inductive outcome :=
| Done
| Lost (e : error)
| Unacked (e : error).

(** What the schedule says of one step. *)
Record move := { mv_others : DB → DB; mv_outcome : outcome; mv_now : Time }.
Definition at_time (t : Time) : move := {| mv_others := id; mv_outcome := Done; mv_now := t |}.
Definition quiet : move := at_time zero.

Definition next_move (ms : list move) : move := default quiet (head ms).

Fixpoint run {A} (p : prog A) (ms : list move) (d : DB) (h : list Event)
    : A * DB * list Event :=
  match p with
  | Ret a => (a, d, h)
  | Query R q k =>
      let m := next_move ms in
      let d1 := mv_others m d in
      match mv_outcome m with
      | Done => run (k (q d1)) (tail ms) d1 h
      | Lost e | Unacked e => run (k (Err e)) (tail ms) d1 h
      end
  | Exec R q k =>
      let m := next_move ms in
      let d1 := mv_others m d in
      match mv_outcome m, q d1 with
      | Lost e, _ => run (k (Err e)) (tail ms) d1 h
      | Done, Err e => run (k (Err e)) (tail ms) d1 h
      | Unacked e, Err _ => run (k (Err e)) (tail ms) d1 h
      | Done, Ok (r, Some d2) => run (k (Ok r)) (tail ms) d2 (h ++ [Wrote d1 d2])
      | Unacked e, Ok (r, Some d2) => run (k (Err e)) (tail ms) d2 (h ++ [Wrote d1 d2])
      | Done, Ok (r, None) => run (k (Ok r)) (tail ms) d1 h
      | Unacked e, Ok (r, None) => run (k (Err e)) (tail ms) d1 h
      end
  | Now k => run (k (mv_now (next_move ms))) (tail ms) (mv_others (next_move ms) d) h
  | Publish topic name k => run k ms d (h ++ [Published topic name])
  end.

Definition result_of {A} (x : A * DB * list Event) : A := x.1.1.
Definition db_of {A} (x : A * DB * list Event) : DB := x.1.2.
Definition history_of {A} (x : A * DB * list Event) : list Event := x.2.

(** ** Weakest preconditions

    [Rel] is what the others may do to the database between two steps, [G]
    what this program promises of each of its own writes. *)
Section wp.
Context (Rel : DB → DB → Prop) (G : DB → DB → Prop).

Fixpoint wp {A} (p : prog A) (Q : A → DB → list Event → Prop) (d : DB) (h : list Event)
    : Prop :=
  match p with
  | Ret a => Q a d h
  | Query R q k => ∀ d1, Rel d d1 →
      wp (k (q d1)) Q d1 h ∧ ∀ e, is_fault e = true → wp (k (Err e)) Q d1 h
  | Exec R q k => ∀ d1, Rel d d1 →
      (∀ e, is_fault e = true → wp (k (Err e)) Q d1 h) ∧
      match q d1 with
      | Err e => wp (k (Err e)) Q d1 h
      | Ok (r, None) => wp (k (Ok r)) Q d1 h
      | Ok (r, Some d2) =>
          G d1 d2 ∧ wp (k (Ok r)) Q d2 (h ++ [Wrote d1 d2]) ∧
          ∀ e, is_fault e = true → wp (k (Err e)) Q d2 (h ++ [Wrote d1 d2])
      end
  | Now k => ∀ t d1, Rel d d1 → wp (k t) Q d1 h
  | Publish topic name k => wp k Q d (h ++ [Published topic name])
  end.

Lemma wp_ret {A} (a : A) (Q : A → DB → list Event → Prop) d h :
  Q a d h → wp (Ret a) Q d h.
Proof. done. Qed.

Lemma wp_query {R : Set} (q : DB → result R) (Q : result R → DB → list Event → Prop) d h :
  (∀ d1, Rel d d1 → Q (q d1) d1 h) →
  (∀ d1 e, Rel d d1 → is_fault e = true → Q (Err e) d1 h) →
  wp (query q) Q d h.
Proof. simpl. eauto. Qed.

Lemma wp_exec {R : Set} (q : DB → result (R * option DB))
    (Q : result R → DB → list Event → Prop) d h :
  (∀ d1 e, Rel d d1 → is_fault e = true → Q (Err e) d1 h) →
  (∀ d1, Rel d d1 →
     match q d1 with
     | Err e => Q (Err e) d1 h
     | Ok (r, None) => Q (Ok r) d1 h
     | Ok (r, Some d2) =>
         G d1 d2 ∧ Q (Ok r) d2 (h ++ [Wrote d1 d2]) ∧
         ∀ e, is_fault e = true → Q (Err e) d2 (h ++ [Wrote d1 d2])
     end) →
  wp (exec q) Q d h.
Proof.
  intros H1 H2 d1 Hd. split; [intros e He; by apply H1|]. exact (H2 d1 Hd).
Qed.

Lemma wp_now (Q : Time → DB → list Event → Prop) d h :
  (∀ t d1, Rel d d1 → Q t d1 h) → wp now_ Q d h.
Proof. done. Qed.

Lemma wp_publish topic name (Q : () → DB → list Event → Prop) d h :
  Q () d (h ++ [Published topic name]) → wp (publish topic name) Q d h.
Proof. done. Qed.

Lemma wp_mono {A} (p : prog A) (Q1 Q2 : A → DB → list Event → Prop) d h :
  (∀ a d' h', Q1 a d' h' → Q2 a d' h') → wp p Q1 d h → wp p Q2 d h.
Proof.
  intros HQ. revert d h. induction p as [a|R q k IH|R q k IH|k IH|t n k IH]; simpl; intros d h.
  - apply HQ.
  - intros Hw d1 Hd. destruct (Hw d1 Hd) as [H1 H2]. split; eauto.
  - intros Hw d1 Hd. destruct (Hw d1 Hd) as [H1 H2]. split; [eauto|].
    destruct (q d1) as [[r [d2|]]|e]; [|eauto..].
    destruct H2 as (? & ? & ?). split_and!; eauto.
  - eauto.
  - eauto.
Qed.

Lemma wp_bind {A B} (p : prog A) (f : A → prog B) Q d h :
  wp p (λ a d' h', wp (f a) Q d' h') d h → wp (p ≫= f) Q d h.
Proof.
  revert d h. induction p as [a|R q k IH|R q k IH|k IH|t n k IH]; simpl; intros d h; try done.
  - intros Hw d1 Hd. destruct (Hw d1 Hd) as [H1 H2]. split; [by apply IH|].
    intros e He. apply IH. auto.
  - intros Hw d1 Hd. destruct (Hw d1 Hd) as [H1 H2].
    split; [intros e He; apply IH; auto|].
    destruct (q d1) as [[r [d2|]]|e]; [|by apply IH..].
    destruct H2 as (? & ? & ?). split; [done|]. split; [by apply IH|].
    intros e He. apply IH. auto.
  - intros Hw t d1 Hd. apply IH. auto.
  - apply IH.
Qed.

(** A schedule keeps to the rely, on the databases that satisfy [I], when the
    others do and every failure it injects is a fault. *)
Definition move_ok_on (I : DB → Prop) (m : move) : Prop :=
  (∀ d, I d → Rel d (mv_others m d)) ∧
  match mv_outcome m with Done => True | Lost e | Unacked e => is_fault e = true end.

Definition move_ok : move → Prop := move_ok_on (λ _, True).

Lemma next_move_ok I ms :
  (∀ d, I d → Rel d d) → Forall (move_ok_on I) ms →
  move_ok_on I (next_move ms) ∧ Forall (move_ok_on I) (tail ms).
Proof.
  intros Hrefl. destruct 1 as [|m ms Hm Hms]; simpl; [|done].
  split; [|constructor]. by split.
Qed.

Lemma wp_adequate_on {A} (I : DB → Prop) (p : prog A) Q ms d h :
  (∀ d', I d' → Rel d' d') → (∀ d1 d2, I d1 → Rel d1 d2 → I d2) → (∀ d1 d2, I d1 → G d1 d2 → I d2) →
  Forall (move_ok_on I) ms → I d → wp p Q d h →
  Q (result_of (run p ms d h)) (db_of (run p ms d h)) (history_of (run p ms d h)).
Proof.
  intros Hrefl HRI HGI. revert ms d h.
  induction p as [a|R q k IH|R q k IH|k IH|t n k IH]; simpl; intros ms d h Hms Hd Hw.
  - done.
  - destruct (next_move_ok I ms Hrefl Hms) as [[Hr Ho] Htl].
    destruct (Hw _ (Hr d Hd)) as [H1 H2].
    destruct (mv_outcome (next_move ms)); apply IH; eauto.
  - destruct (next_move_ok I ms Hrefl Hms) as [[Hr Ho] Htl].
    destruct (Hw _ (Hr d Hd)) as [H1 H2].
    assert (I (mv_others (next_move ms) d)) as Hd1 by eauto.
    destruct (q (mv_others (next_move ms) d)) as [[r [d2|]]|e], (mv_outcome (next_move ms));
      try destruct H2 as (H2 & H3 & H4); apply IH; eauto.
  - destruct (next_move_ok I ms Hrefl Hms) as [[Hr Ho] Htl]. apply IH; eauto.
  - apply IH; auto.
Qed.

Lemma wp_adequate {A} (p : prog A) Q ms d h :
  (∀ d', Rel d' d') → Forall move_ok ms → wp p Q d h →
  Q (result_of (run p ms d h)) (db_of (run p ms d h)) (history_of (run p ms d h)).
Proof. intros Hrefl Hms. by apply (wp_adequate_on (λ _, True)). Qed.
End wp.

(** Every write of the history is one the guarantee admits. *)
Definition written (G : DB → DB → Prop) (e : Event) : Prop :=
  match e with Wrote d1 d2 => G d1 d2 | Published _ _ => True end.

Lemma wp_written {A} (Rel G : DB → DB → Prop) (p : prog A) Q d h :
  Forall (written G) h → wp Rel G p Q d h →
  wp Rel G p (λ a d' h', Q a d' h' ∧ Forall (written G) h') d h.
Proof.
  revert d h. induction p as [a|R q k IH|R q k IH|k IH|t n k IH]; intros d h Hh Hw.
  - exact (conj Hw Hh).
  - intros d1 Hd. destruct (Hw d1 Hd) as [H1 H2]. split; [by apply IH|].
    intros e He. apply IH; [done|by apply H2].
  - intros d1 Hd. destruct (Hw d1 Hd) as [H1 H2].
    split; [intros e He; apply IH; [done|by apply H1]|].
    destruct (q d1) as [[r [d2|]]|e]; [|by apply IH..]. destruct H2 as (HG & H2 & H3).
    assert (Forall (written G) (h ++ [Wrote d1 d2])) as Hh' by (apply Forall_app; auto).
    split; [done|]. split; [by apply IH|]. intros e He. apply IH; [done|by apply H3].
  - intros t d1 Hd. apply IH; [done|by apply Hw].
  - apply IH; [apply Forall_app; split; [done|by constructor]|exact Hw].
Qed.

(** Two proofs about one program, in one. *)
Lemma wp_and {A} (Rel G1 G2 : DB → DB → Prop) (p : prog A) Q1 Q2 d h :
  wp Rel G1 p Q1 d h → wp Rel G2 p Q2 d h →
  wp Rel (λ d1 d2, G1 d1 d2 ∧ G2 d1 d2) p (λ a d' h', Q1 a d' h' ∧ Q2 a d' h') d h.
Proof.
  revert d h. induction p as [a|R q k IH|R q k IH|k IH|t n k IH]; intros d h Hw1 Hw2.
  - exact (conj Hw1 Hw2).
  - intros d1 Hd. destruct (Hw1 d1 Hd) as [H1 H1e], (Hw2 d1 Hd) as [H2 H2e].
    split; [by apply IH|]. intros e He. apply IH; [by apply H1e|by apply H2e].
  - intros d1 Hd. destruct (Hw1 d1 Hd) as [H1e H1], (Hw2 d1 Hd) as [H2e H2].
    split; [intros e He; apply IH; [by apply H1e|by apply H2e]|].
    destruct (q d1) as [[r [d2|]]|e]; [|by apply IH..].
    destruct H1 as (HG1 & H1 & H1'), H2 as (HG2 & H2 & H2'). split; [done|].
    split; [by apply IH|]. intros e He. apply IH; [by apply H1'|by apply H2'].
  - intros t d1 Hd. apply IH; [by apply Hw1|by apply Hw2].
  - apply IH; [exact Hw1|exact Hw2].
Qed.

(** A weaker rely or a stronger guarantee is enough. *)
Lemma wp_rely_mono {A} (Rel1 G1 Rel2 G2 : DB → DB → Prop) (p : prog A) Q d h :
  (∀ d1 d2, Rel2 d1 d2 → Rel1 d1 d2) → (∀ d1 d2, G1 d1 d2 → G2 d1 d2) →
  wp Rel1 G1 p Q d h → wp Rel2 G2 p Q d h.
Proof.
  intros HR HG. revert d h.
  induction p as [a|R q k IH|R q k IH|k IH|t n k IH]; simpl; intros d h Hw.
  - done.
  - intros d1 Hd. destruct (Hw d1 (HR _ _ Hd)) as [H1 H2]. split; eauto.
  - intros d1 Hd. destruct (Hw d1 (HR _ _ Hd)) as [H1 H2]. split; [eauto|].
    destruct (q d1) as [[r [d2|]]|e]; [|eauto..]. destruct H2 as (? & ? & ?). split_and!; eauto.
  - eauto.
  - eauto.
Qed.
End programs.

#[global] Arguments wp : simpl never.
#[global] Arguments prog : clear implicits.
#[global] Arguments move : clear implicits.

(** [x ←? p; k]: the [if err != nil { return err }] of Go. *)
Definition try_bind {A B} (p : prog (result A)) (f : A → prog (result B)) : prog (result B) :=
  p ≫= λ r, match r with Ok a => f a | Err e => Ret (Err e) end.
Notation "x ←? p ; k" := (try_bind p (λ x : _, k))
  (at level 20, p at level 100, k at level 200, only parsing) : go_scope.

(** A UID source for the examples: the decimal number of the draw. *)
Definition counter_uuid (n : nat) : string := pretty.pretty (N.of_nat n).
Lemma counter_uuid_inj : Inj (=) (=) counter_uuid.
Proof. intros x y Hxy. apply Nat2N.inj. exact (inj pretty.pretty _ _ Hxy). Qed.
Definition counter_uuids : UUIDSource :=
  {| uuid_NewString := counter_uuid; uuid_NewString_inj := counter_uuid_inj |}.
