(* ===== verification/Evolution.v ===== *)
(** The abstract specification of every writer of the database: the invariant
    of a Project row, how a row may change during one lifetime, and how the
    database may change between two points in time.

    [status_evolves] is the contract all writers keep, whoever they are and
    however they interleave: the assignment generation never goes back and
    names one Node, an assignment that is given up leaves a cleanup obligation
    behind, an obligation is never dropped and its evidence never taken back,
    and a Project that is Terminating never leaves the deletion. The files of
    the operations prove that each of them keeps it; System.v composes them. *)
From Stdlib Require Import ZArith Lia.
From stdpp Require Import prelude gmap strings.
From S2P Require Import Prelude.
From S2P Require Import Conditions.
From S2P Require Import ProjectTypes.
From S2P Require Import Lifecycle.
From S2P Require Import NodeTypes.
From S2P Require Import AccessTypes.
From S2P Require Import Database.
Import GoTime GoInt GoError.

Set Default Proof Using "Type".

Definition assignment_of (uid : string) (s : ProjectStatus) : AssignmentIdentity :=
  {| ProjectUID := uid; NodeName := st_NodeRef s; ai_Generation := st_AssignmentGeneration s |}.

(** ** Obligations over time *)

Record obligation_evolves (o o' : CleanupObligation) : Prop := {
  oe_assignment : ob_Assignment o' = ob_Assignment o;
  oe_released : ob_ReleasedAt o' = ob_ReleasedAt o;
  oe_removed : ∀ e, ob_ResourcesRemoved o = Some e → ob_ResourcesRemoved o' = Some e;
  oe_quarantined : ∀ e, ob_ManagedDataQuarantined o = Some e → ob_ManagedDataQuarantined o' = Some e;
  oe_owed : ob_ManagedDataOwed o = true → ob_ManagedDataOwed o' = true
}.

#[export] Instance obligation_evolves_preorder : PreOrder obligation_evolves.
Proof.
  split.
  - intros o. by split.
  - intros o1 o2 o3 [] []. split; try congruence; auto.
Qed.

Definition obligations_evolve (r r' : option ProjectRecoveryStatus) : Prop :=
  ∀ a o, FindObligation r a = Some o →
    ∃ o', FindObligation r' a = Some o' ∧ obligation_evolves o o'.

#[export] Instance obligations_evolve_preorder : PreOrder obligations_evolve.
Proof.
  split.
  - intros r a o Ho. exists o. by split.
  - intros r1 r2 r3 H12 H23 a o Ho.
    destruct (H12 a o Ho) as (o2 & H2 & He2). destruct (H23 a o2 H2) as (o3 & H3 & He3).
    exists o3. split; [done|]. by trans o2.
Qed.

(** ** A status over time, within the lifetime [uid] *)

Definition stanzas (s : ProjectStatus) : list StanzaRecord :=
  match st_Backup s with None => [] | Some b => bk_Stanzas b end.

Definition deleting (s : ProjectStatus) : Prop :=
  st_Phase s = ProjectPhaseTerminating ∨ st_Phase s = ProjectPhaseTerminated.

Record status_evolves (uid : string) (s s' : ProjectStatus) : Prop := {
  se_generation : (st_AssignmentGeneration s ≤ st_AssignmentGeneration s')%Z;
  se_holder : st_AssignmentGeneration s' = st_AssignmentGeneration s →
    st_NodeRef s' = st_NodeRef s ∨ st_NodeRef s' = EmptyString;
  se_obligations : obligations_evolve (st_Recovery s) (st_Recovery s');
  se_released : st_NodeRef s ≠ EmptyString →
    assignment_of uid s' = assignment_of uid s ∨
    is_Some (FindObligation (st_Recovery s') (assignment_of uid s));
  se_deleting : deleting s →
    deleting s' ∧ st_AssignmentGeneration s' = st_AssignmentGeneration s;
  se_terminated : st_Phase s = ProjectPhaseTerminated → st_Phase s' = ProjectPhaseTerminated;
  se_observed : (st_ObservedSpecRevision s ≤ st_ObservedSpecRevision s')%Z;
  se_stanzas : stanzas s `prefix_of` stanzas s';
  se_history : st_AssignmentHistory s = AssignmentHistoryKnown →
    st_AssignmentHistory s' = AssignmentHistoryKnown
}.

#[export] Instance status_evolves_preorder uid : PreOrder (status_evolves uid).
Proof.
  split.
  - intros s. split; auto; try reflexivity; try lia.
  - intros s1 s2 s3 H12 H23.
    pose proof (se_generation _ _ _ H12). pose proof (se_generation _ _ _ H23).
    split; try lia.
    + intros Hg. destruct (se_holder _ _ _ H12 ltac:(lia)) as [H1|H1],
        (se_holder _ _ _ H23 ltac:(lia)) as [H2|H2]; rewrite ?H2, ?H1; auto.
    + trans (st_Recovery s2); by eapply se_obligations.
    + intros Hn. destruct (se_released _ _ _ H12 Hn) as [Heq|[o Ho]].
      * assert (st_NodeRef s2 ≠ EmptyString) as Hn2 by (injection Heq; congruence).
        destruct (se_released _ _ _ H23 Hn2) as [Heq2|Ho2].
        -- left. congruence.
        -- right. by rewrite <- Heq.
      * right. destruct (se_obligations _ _ _ H23 _ _ Ho) as (o' & -> & _). eauto.
    + intros Hd. destruct (se_deleting _ _ _ H12 Hd) as [Hd2 E2].
      destruct (se_deleting _ _ _ H23 Hd2) as [Hd3 E3]. split; [done|congruence].
    + intros Ht. eapply se_terminated; [done|]. by eapply se_terminated.
    + pose proof (se_observed _ _ _ H12). pose proof (se_observed _ _ _ H23). lia.
    + trans (stanzas s2); by eapply se_stanzas.
    + intros Hh. eapply se_history; [done|]. by eapply se_history.
Qed.

(** ** The invariant of a status and of a row *)

Definition generations (s : ProjectStatus) : list Z :=
  ai_Generation ∘ ob_Assignment <$> obligations s.

Record status_inv (uid : string) (s : ProjectStatus) : Prop := {
  si_generation : (0 ≤ st_AssignmentGeneration s)%Z;
  si_assigned : st_NodeRef s ≠ EmptyString → (1 ≤ st_AssignmentGeneration s)%Z;
  si_pending : st_Phase s = ProjectPhasePending → st_NodeRef s = EmptyString;
  si_never : st_AssignmentHistory s = AssignmentHistoryNeverAssigned →
    st_AssignmentGeneration s = 0%Z;
  si_unique : NoDup (ob_Assignment <$> obligations s);
  si_lifetime : ∀ o, o ∈ obligations s →
    ProjectUID (ob_Assignment o) = uid ∧
    (1 ≤ ai_Generation (ob_Assignment o) ≤ st_AssignmentGeneration s)%Z;
  si_complete : ∀ g, (1 ≤ g ≤ st_AssignmentGeneration s)%Z →
    g ∈ generations s ∨ (g = st_AssignmentGeneration s ∧ st_NodeRef s ≠ EmptyString);
  si_observed : (0 ≤ st_ObservedSpecRevision s)%Z
}.

Record row_inv (r : ProjectRow) : Prop := {
  ri_status : status_inv (row_UID r) (row_status r);
  ri_phase : row_Phase r = st_Phase (row_status r);
  ri_generation : (st_AssignmentGeneration (row_status r) ≤ row_Version r)%Z;
  ri_observed : (st_ObservedSpecRevision (row_status r) ≤ row_SpecRevision r)%Z;
  ri_revision : (row_SpecRevision r ≤ row_Version r)%Z;
  ri_version : (1 ≤ row_Version r ≤ max_int64)%Z
}.

(** ** A row and the database over time *)

Record row_evolves (r r' : ProjectRow) : Prop := {
  re_uid : row_UID r' = row_UID r;
  re_version : r' = r ∨ (row_Version r < row_Version r')%Z;
  re_status : status_evolves (row_UID r) (row_status r) (row_status r');
  re_revision : (row_SpecRevision r ≤ row_SpecRevision r')%Z
}.

#[export] Instance row_evolves_preorder : PreOrder row_evolves.
Proof.
  split.
  - intros r. split; auto; try lia. reflexivity.
  - intros r1 r2 r3 [] []. split; try congruence; try lia.
    + naive_solver lia.
    + trans (row_status r2); [done|]. congruence.
Qed.

(** A row whose record may stop existing: everything it represents is gone. *)
Definition removable (r : ProjectRow) : Prop :=
  (∀ o, o ∈ obligations (row_status r) → ob_ResourcesRemoved o ≠ None) ∧
  (st_NodeRef (row_status r) = EmptyString ∨
   ∃ o, o ∈ obligations (row_status r) ∧
        NodeName (ob_Assignment o) = st_NodeRef (row_status r) ∧
        ai_Generation (ob_Assignment o) = st_AssignmentGeneration (row_status r)).

Section db.
Context `{UUIDSource}.

Definition issued_between (lo hi : nat) (uid : string) : Prop :=
  ∃ k, lo ≤ k < hi ∧ uid = uuid_NewString k.

Record db_evolves (d d' : DB) : Prop := {
  de_issued : db_Issued d ≤ db_Issued d';
  de_rows : ∀ key r', db_Projects d' !! key = Some r' →
    (∃ r, db_Projects d !! key = Some r ∧ row_evolves r r') ∨
    issued_between (db_Issued d) (db_Issued d') (row_UID r');
  de_audit : db_Audit d `prefix_of` db_Audit d';
  de_access : access_evolves (db_Access d) (db_Access d')
}.

#[export] Instance db_evolves_preorder : PreOrder db_evolves.
Proof.
  split.
  - intros d. split; [lia| |done|done]. intros key r' Hr. left. exists r'. by split.
  - intros d1 d2 d3 [Hi1 Hr1 Ha1 Hc1] [Hi2 Hr2 Ha2 Hc2].
    split; [lia| |by trans (db_Audit d2)|by trans (db_Access d2)].
    intros key r3 H3. destruct (Hr2 key r3 H3) as [(r2 & H2 & He2)|(k & Hk & Hu)].
    + destruct (Hr1 key r2 H2) as [(r1 & H1 & He1)|(k & Hk & Hu)].
      * left. exists r1. split; [done|]. by trans r2.
      * right. exists k. split; [lia|]. by rewrite (re_uid _ _ He2).
    + right. exists k. split; [lia|done].
Qed.

(** One write that is not a forced deletion takes a row away only if it is
    removable at that moment. *)
Definition db_finalized (d d' : DB) : Prop :=
  ∀ key r, db_Projects d !! key = Some r →
    (∃ r', db_Projects d' !! key = Some r' ∧ row_evolves r r') ∨ removable r.

(** Every row is well-formed and carries a UID that has been drawn, every Node has
    a name, so the empty NodeRef of a Project names none, and the tables of tokens
    are well-formed. *)
Record db_inv (d : DB) : Prop := {
  di_rows : ∀ key r, db_Projects d !! key = Some r →
    row_inv r ∧ issued_between 0 (db_Issued d) (row_UID r);
  di_nodes : db_Nodes d !! EmptyString = None;
  di_access : access_inv (db_Access d)
}.
Coercion di_rows : db_inv >-> Funclass.

(** The relation every writer keeps, and with it what a program may expect of
    all others while it runs. *)
Definition others (d d' : DB) : Prop := db_evolves d d' ∧ (db_inv d → db_inv d').

#[export] Instance others_preorder : PreOrder others.
Proof.
  split.
  - intros d. by split.
  - intros d1 d2 d3 [] []. split; [by trans d2|auto].
Qed.

Definition others_unforced (d d' : DB) : Prop := others d d' ∧ db_finalized d d'.

Lemma others_unforced_refl d : others_unforced d d.
Proof. split; [done|]. intros key r Hr. left. exists r. by split. Qed.

Lemma empty_db_inv : db_inv empty_db.
Proof. split; [done|done|exact no_access_inv]. Qed.

(** A UID drawn by [d] names, later, only the row it named at [d]. *)
Lemma same_lifetime d d' key r' :
  db_evolves d d' → issued_between 0 (db_Issued d) (row_UID r') →
  db_Projects d' !! key = Some r' →
  ∃ r, db_Projects d !! key = Some r ∧ row_evolves r r'.
Proof.
  intros Hev (k & Hk & Hu) Hr. destruct (de_rows _ _ Hev _ _ Hr) as [?|(k' & Hk' & Hu')]; [done|].
  rewrite Hu in Hu'. apply (inj uuid_NewString) in Hu'. lia.
Qed.

(** The lemma behind every UID- and version-pinned swap: a row found later
    under the same UID and version is the row read, byte for byte. *)
Lemma pinned_row_unchanged d d' key r r' :
  db_inv d → db_evolves d d' →
  db_Projects d !! key = Some r → db_Projects d' !! key = Some r' →
  row_UID r' = row_UID r → row_Version r' = row_Version r → r' = r.
Proof.
  intros Hinv Hev Hr Hr' Hu Hv.
  destruct (same_lifetime d d' key r' Hev) as (r0 & Hr0 & He); [|done|].
  - rewrite Hu. apply (Hinv key r Hr).
  - rewrite Hr in Hr0. injection Hr0 as <-. destruct (re_version _ _ He) as [?|?]; [done|lia].
Qed.

(** A row found unchanged later was that row all the while. *)
Lemma row_between d d1 d2 key r r1 :
  db_inv d → db_evolves d d1 → db_evolves d1 d2 →
  db_Projects d !! key = Some r → db_Projects d1 !! key = Some r1 →
  db_Projects d2 !! key = Some r → r1 = r.
Proof.
  intros Hinv H01 H12 Hr Hr1 Hr2.
  destruct (Hinv _ _ Hr) as [_ (k & Hk & Hu)]. pose proof (de_issued _ _ H01).
  destruct (same_lifetime d1 d2 key r H12) as (r0 & Hr0 & He2); [exists k; split; [lia|done]|done|].
  rewrite Hr1 in Hr0. injection Hr0 as <-.
  destruct (same_lifetime d d1 key r1 H01) as (r0 & Hr0 & He1); [|done|].
  { exists k. rewrite <- (re_uid _ _ He2). split; [lia|done]. }
  rewrite Hr in Hr0. injection Hr0 as <-.
  destruct (re_version _ _ He1) as [?|?]; [done|]. destruct (re_version _ _ He2) as [?|?]; [done|]. lia.
Qed.

(** ** Writes that touch one row *)

Definition put_row (key : string * string) (r : ProjectRow) (d : DB) : DB :=
  db_with_Projects (<[key := r]> (db_Projects d)) d.
Definition drop_row (key : string * string) (d : DB) : DB :=
  db_with_Projects (delete key (db_Projects d)) d.

Lemma put_row_evolves key r r' d :
  db_Projects d !! key = Some r → row_evolves r r' → db_evolves d (put_row key r' d).
Proof.
  intros Hr He. split; [done| |done|done]. intros key' r0. simpl.
  destruct (decide (key = key')) as [<-|Hne].
  - rewrite lookup_insert_eq. intros [= <-]. left. eauto.
  - rewrite lookup_insert_ne by done. intros H0. left. exists r0. by split.
Qed.

Lemma put_row_inv key r r' d :
  db_Projects d !! key = Some r → row_inv r' → row_UID r' = row_UID r →
  db_inv d → db_inv (put_row key r' d).
Proof.
  intros Hr Hi Hu Hinv. split; [|apply Hinv..]. intros key' r0. simpl.
  destruct (decide (key = key')) as [<-|Hne].
  - rewrite lookup_insert_eq. intros [= <-]. split; [done|]. rewrite Hu. apply (Hinv key r Hr).
  - rewrite lookup_insert_ne by done. apply Hinv.
Qed.

Lemma put_row_finalized key r r' d :
  db_Projects d !! key = Some r → row_evolves r r' → db_finalized d (put_row key r' d).
Proof.
  intros Hr He key' r0 H0. left. simpl. destruct (decide (key = key')) as [<-|Hne].
  - rewrite Hr in H0. injection H0 as <-. exists r'. by rewrite lookup_insert_eq.
  - exists r0. rewrite lookup_insert_ne by done. by split.
Qed.

(** INSERT of a row under a UID drawn for it. *)
Definition insert_row (key : string * string) (r : ProjectRow) (d : DB) : DB :=
  db_issue (put_row key r d).

Lemma insert_row_others key r d :
  db_Projects d !! key = None → row_inv r → row_UID r = uuid_NewString (db_Issued d) →
  others_unforced d (insert_row key r d).
Proof.
  intros Hn Hri Hu.
  assert (∀ key' r', db_Projects (insert_row key r d) !! key' = Some r' →
    (key' = key ∧ r' = r) ∨ db_Projects d !! key' = Some r') as Hcase.
  { intros key' r'. simpl. rewrite lookup_insert_Some. naive_solver. }
  split; [split; [split|]|].
  - simpl. lia.
  - intros key' r' [[-> ->]|Hr]%Hcase.
    + right. exists (db_Issued d). simpl. split; [lia|done].
    + left. exists r'. by split.
  - done.
  - done.
  - intros Hinv. split; [|apply Hinv..]. intros key' r' [[-> ->]|Hr]%Hcase.
    + split; [done|]. exists (db_Issued d). simpl. split; [lia|done].
    + destruct (Hinv _ _ Hr) as [? (k & ? & ?)]. split; [done|]. exists k. simpl. split; [lia|done].
  - intros key' r' Hr. left. exists r'. split; [|done]. simpl.
    rewrite lookup_insert_ne; [done|]. intros ->. congruence.
Qed.

Lemma drop_row_others key d : others d (drop_row key d).
Proof.
  assert (∀ key' r, db_Projects (drop_row key d) !! key' = Some r → db_Projects d !! key' = Some r)
    as Hsub by (intros ?? Hr; simpl in Hr; by apply lookup_delete_Some in Hr as [_ ?]).
  split; [split|].
  - done.
  - intros key' r Hr%Hsub. left. exists r. by split.
  - done.
  - done.
  - intros Hinv. split; [|apply Hinv..]. intros key' r Hr%Hsub. exact (Hinv _ _ Hr).
Qed.

Lemma drop_row_finalized key r d :
  db_Projects d !! key = Some r → removable r → db_finalized d (drop_row key d).
Proof.
  intros Hr Hrm key' r0 H0. destruct (decide (key = key')) as [<-|Hne].
  - right. rewrite Hr in H0. by injection H0 as <-.
  - left. exists r0. simpl. rewrite lookup_delete_ne by done. by split.
Qed.
End db.
