(* ===== verification/StatusStore.v ===== *)
(** The Project rows of internal/store/postgres/store.go: reading them, the
    compare-and-swap statements, and the three retry loops every status write
    goes through. The UID-pinned loop is proved to implement one atomic update
    of the lifetime it names, whatever the others do meanwhile; the fenced
    loop likewise, for the assignment it names. *)
From Stdlib Require Import ZArith Lia.
From stdpp Require Import prelude gmap strings.
From S2P Require Import Prelude.
From S2P Require Import Conditions.
From S2P Require Import ProjectTypes.
From S2P Require Import Lifecycle.
From S2P Require Import NodeTypes.
From S2P Require Import AccessTypes.
From S2P Require Import Database.
From S2P Require Import Evolution.
Import GoTime GoInt GoString GoError.
Open Scope go_scope.

(** ** Errors of the store *)

(** [fmt.Errorf("%w: project %q", sentinel, name)]. *)
Definition project_err (s : sentinel) (name : string) : error :=
  Wrap EmptyString (Sentinel s) (": project " ++ Quote name)%string.
Definition lifetime_err (name uid : string) : error :=
  Wrap EmptyString (Sentinel ErrStaleAssignment)
    (": project " ++ Quote name ++ " is no longer lifetime " ++ uid)%string.
Definition sql_err (what name : string) (e : error) : error :=
  Wrap ("postgres: " ++ what ++ " " ++ Quote name ++ ": ")%string e EmptyString.
Definition sql_err_at (what name : string) (version : Z) (e : error) : error :=
  Wrap ("postgres: " ++ what ++ " " ++ Quote name ++ " at version " ++ FormatInt version ++ ": ")%string
    e EmptyString.
Definition bigint_overflow : error := SqlError "bigint out of range".

(** ** Reading *)

Definition project_of_row (key : string * string) (r : ProjectRow) : Project :=
  {| p_Meta := {| om_Name := key.2; om_UID := row_UID r; om_Namespace := key.1;
                  om_ResourceVersion := row_Version r; om_SpecRevision := row_SpecRevision r;
                  om_Labels := row_Labels r; om_Annotations := row_Annotations r;
                  om_CreatedAt := row_CreatedAt r; om_UpdatedAt := row_UpdatedAt r |};
     p_Spec := row_Spec r; p_Status := row_status r |}.

Definition select_project (name : string) (d : DB) : option Project :=
  project_of_row (project_key name) <$> project_at d name.

Definition getProject (name : string) : prog (result Project) :=
  query (λ d, Ok (select_project name d)) ≫= λ res,
  Ret match res with
      | Err e => Err (sql_err "get project" name e)
      | Ok None => Err (Sentinel ErrNotFound)
      | Ok (Some p) => Ok p
      end.

(** [scanProjects] over the rows of the default namespace that satisfy the
    WHERE clause; PostgreSQL gives them in no promised order. *)
Definition select_projects (f : ProjectRow → bool) (d : DB) : list Project :=
  (λ kr, project_of_row kr.1 kr.2) <$>
    filter (λ kr, kr.1.1 = defaultNamespace ∧ f kr.2 = true) (map_to_list (db_Projects d)).

Definition list_projects (what : string) (f : ProjectRow → bool) : prog (result (list Project)) :=
  query (λ d, Ok (select_projects f d)) ≫= λ res,
  Ret match res with
      | Err e => Err (Wrap ("postgres: list projects" ++ what ++ ": ")%string e EmptyString)
      | Ok ps => Ok ps
      end.

Definition ListProjects : prog (result (list Project)) :=
  list_projects EmptyString (λ _, true).

Definition ListProjectsByPhase (phase : ProjectPhase) : prog (result (list Project)) :=
  list_projects (" by phase " ++ Quote phase)%string (λ r, bool_decide (row_Phase r = phase)).

Definition ListProjectsByPhases (phases : list ProjectPhase) : prog (result (list Project)) :=
  match phases with
  | [] => Ret (Ok [])
  | _ => list_projects (" by phases [" ++ Join phases " " ++ "]")%string
           (λ r, bool_decide (row_Phase r ∈ phases))
  end.

(** [status->>'nodeRef' = $4]: the key is absent, so the comparison is not
    true, for a Project without a nodeRef. *)
Definition ListProjectsByNodeRef (nodeRef : string) (phases : list ProjectPhase)
    : prog (result (list Project)) :=
  match phases with
  | [] => Ret (Ok [])
  | _ => list_projects (" by node_ref " ++ Quote nodeRef ++ " phases [" ++ Join phases " " ++ "]")%string
           (λ r, bool_decide (row_Phase r ∈ phases) &&
                 bool_decide (st_NodeRef (row_status r) ≠ EmptyString) &&
                 bool_decide (st_NodeRef (row_status r) = nodeRef))
  end.

Definition ListProjectsOwingCleanup (nodeName : string) : prog (result (list Project)) :=
  list_projects (" owing cleanup on " ++ Quote nodeName)%string
    (λ r, existsb (λ o, bool_decide (NodeName (ob_Assignment o) = nodeName))
            (obligations (row_status r))).

(** ** Statements *)

(** One UPDATE of the row [name] that satisfies the WHERE clause [pred]. The
    answer is whether a row was affected; a resource_version that would leave
    BIGINT is refused by the server. *)
Definition update_row (name : string) (pred : ProjectRow → bool) (f : ProjectRow → ProjectRow)
    (d : DB) : result (bool * option DB) :=
  match project_at d name with
  | None => Ok (false, None)
  | Some r =>
      if pred r then
        if bool_decide (row_Version r < max_int64)%Z
        then Ok (true, Some (put_row (project_key name) (f r) d))
        else Err bigint_overflow
      else Ok (false, None)
  end.

(** SET phase = $1, status = $2, updated_at = $3, resource_version + 1. *)
Definition commit_status (s : ProjectStatus) (now : Time) (r : ProjectRow) : ProjectRow :=
  {| row_UID := row_UID r; row_Phase := st_Phase s; row_Spec := row_Spec r;
     row_Status := marshal_status s; row_Labels := row_Labels r;
     row_Annotations := row_Annotations r; row_CreatedAt := row_CreatedAt r;
     row_UpdatedAt := now; row_Version := row_Version r + 1;
     row_SpecRevision := row_SpecRevision r |}%Z.

(** ** The assignment fence *)

Record AssignmentRef := { ref_UID : string; ref_NodeRef : string; ref_Generation : Z }.
#[export] Instance AssignmentRef_eq_dec : EqDecision AssignmentRef.
Proof. solve_decision. Defined.

Definition fence_of (uid : string) (s : ProjectStatus) : AssignmentRef :=
  {| ref_UID := uid; ref_NodeRef := st_NodeRef s; ref_Generation := st_AssignmentGeneration s |}.

(** assignmentFenceWHERE: COALESCE turns the absent keys into the empty string
    and zero, which is what the fields hold. *)
Definition assignmentFenceWHERE (ref : AssignmentRef) (r : ProjectRow) : bool :=
  bool_decide (row_UID r = ref_UID ref) &&
  bool_decide (st_NodeRef (row_status r) = ref_NodeRef ref) &&
  bool_decide (st_AssignmentGeneration (row_status r) = ref_Generation ref).

Definition fenceMatches (ref : AssignmentRef) (p : Project) : bool :=
  bool_decide (om_UID (p_Meta p) = ref_UID ref) &&
  bool_decide (st_NodeRef (p_Status p) = ref_NodeRef ref) &&
  bool_decide (st_AssignmentGeneration (p_Status p) = ref_Generation ref).

Definition assignmentIdentity (ref : AssignmentRef) : AssignmentIdentity :=
  {| ProjectUID := ref_UID ref; NodeName := ref_NodeRef ref; ai_Generation := ref_Generation ref |}.

(** ** Why a statement matched no row *)

Definition classify (what name : string) (on_found : Project → result ()) : prog (result ()) :=
  getProject name ≫= λ res,
  Ret match res with
      | Ok p => on_found p
      | Err e => if Is e ErrNotFound then Err (project_err ErrNotFound name)
                 else Err (sql_err what name e)
      end.

Definition classifyProjectNoOp (name : string) : prog (result ()) :=
  classify "classify project update" name (λ _, Ok ()).

Definition classifyStatusUpdateMiss (name : string) : prog (result ()) :=
  classify "classify project status update" name (λ _, Err (project_err ErrVersionConflict name)).

Definition classifyUIDSwapMiss (name uid : string) : prog (result ()) :=
  classify "classify project status update" name (λ p,
    if decide (om_UID (p_Meta p) = uid) then Err (project_err ErrVersionConflict name)
    else Err (project_err ErrStaleAssignment name)).

Definition classifyFencedSwapMiss (name : string) (ref : AssignmentRef) : prog (result ()) :=
  classify "classify fenced project status update" name (λ p,
    if fenceMatches ref p then Err (project_err ErrVersionConflict name)
    else Err (project_err ErrStaleAssignment name)).

Definition classifyFencedConditionMiss (name : string) (ref : AssignmentRef) : prog (result ()) :=
  classify "classify fenced project condition" name (λ p,
    if fenceMatches ref p then Ok () else Err (project_err ErrStaleAssignment name)).

(** ** One compare-and-swap attempt *)

Definition swap (what name : string) (expectedVersion : Z) (pred : ProjectRow → bool)
    (status : ProjectStatus) (miss : prog (result ())) : prog (result ()) :=
  now_ ≫= λ now,
  exec (update_row name (λ r, bool_decide (row_Version r = expectedVersion) && pred r)
          (commit_status status now)) ≫= λ res,
  match res with
  | Err e => Ret (Err (sql_err_at what name expectedVersion e))
  | Ok false => miss
  | Ok true => Ret (Ok ())
  end.

Definition swapProjectStatus (name : string) (expectedVersion : Z) (status : ProjectStatus)
    : prog (result ()) :=
  swap "update project status" name expectedVersion (λ _, true) status
    (classifyStatusUpdateMiss name).

Definition swapProjectStatusForUID (name : string) (expectedVersion : Z) (uid : string)
    (status : ProjectStatus) : prog (result ()) :=
  swap "update project status" name expectedVersion (λ r, bool_decide (row_UID r = uid)) status
    (classifyUIDSwapMiss name uid).

Definition swapProjectStatusFenced (name : string) (expectedVersion : Z) (ref : AssignmentRef)
    (status : ProjectStatus) : prog (result ()) :=
  swap "fenced update project status" name expectedVersion (assignmentFenceWHERE ref) status
    (classifyFencedSwapMiss name ref).

(** ** The retry loops *)

Definition maxStatusUpdateAttempts : nat := 3.

(** [statusEqual] compares the marshalled statuses. The fields the JSON omits
    when empty are those this model does not tell apart. *)
Definition statusEqual (a b : ProjectStatus) : bool := bool_decide (a = b).

(** What an attempt did: the function returns, or the version moved and the
    next attempt starts. *)
Inductive attempt (A : Type) :=
| Return (a : A)
| Again (conflict : error).
#[global] Arguments Return {A} a.
#[global] Arguments Again {A} conflict.

(** [for attempt := 0; attempt < n; attempt++ { ... }; return lastConflict].
    [X] is what the closure keeps in captured variables between attempts. *)
Fixpoint retry {X A} (n : nat) (body : X → prog (X * attempt (result A)))
    (lastConflict : result A) (x : X) : prog (X * result A) :=
  match n with
  | O => Ret (x, lastConflict)
  | S n' =>
      body x ≫= λ '(x', a),
      match a with
      | Return res => Ret (x', res)
      | Again e => retry n' body (Err e) x'
      end
  end.

(** After a swap: nil is success, a version conflict is retried, any other
    error returned. *)
Definition after_swap {X} (name : string) (x : X) (res : result ())
    : prog (X * attempt (result ())) :=
  match res with
  | Ok _ => publish TopicProjectUpdated name ≫= λ _, Ret (x, Return (Ok ()))
  | Err e => if Is e ErrVersionConflict then Ret (x, Again e) else Ret (x, Return (Err e))
  end.

(** A mutation of the status inside a loop: it may read the database, and sets
    captured variables. *)
Definition mutation (X : Type) := X → ProjectStatus → prog (X * result ProjectStatus).

Definition pure_mutation (m : ProjectStatus → result ProjectStatus) : mutation () :=
  λ x s, Ret (x, m s).

Definition uid_attempt {X} (name uid : string) (mutate : mutation X) (x : X)
    : prog (X * attempt (result ())) :=
  getProject name ≫= λ res,
  match res with
  | Err e =>
      Ret (x, Return (Err (if Is e ErrNotFound then project_err ErrNotFound name else e)))
  | Ok project =>
      if decide (om_UID (p_Meta project) ≠ uid) then Ret (x, Return (Err (lifetime_err name uid)))
      else
        mutate x (p_Status project) ≫= λ '(x', res),
        match res with
        | Err e => Ret (x', Return (Err e))
        | Ok next =>
            if statusEqual (p_Status project) next then Ret (x', Return (Ok ()))
            else swapProjectStatusForUID name (om_ResourceVersion (p_Meta project)) uid next
                   ≫= after_swap name x'
        end
  end.

Definition updateProjectStatusForUID {X} (name uid : string) (mutate : mutation X) (x : X)
    : prog (X * result ()) :=
  retry maxStatusUpdateAttempts (uid_attempt name uid mutate) (Ok ()) x.

Definition UpdateProjectStatusForUID (name uid : string)
    (mutate : ProjectStatus → result ProjectStatus) : prog (result ()) :=
  snd <$> updateProjectStatusForUID name uid (pure_mutation mutate) ().

Definition fenced_attempt (name : string) (ref : AssignmentRef)
    (mutate : ObjectMeta → ProjectStatus → result ProjectStatus) (x : ())
    : prog (() * attempt (result ())) :=
  getProject name ≫= λ res,
  match res with
  | Err e =>
      Ret (x, Return (Err (if Is e ErrNotFound then project_err ErrNotFound name else e)))
  | Ok project =>
      if negb (fenceMatches ref project) then
        Ret (x, Return (Err (project_err ErrStaleAssignment name)))
      else
        match mutate (p_Meta project) (p_Status project) with
        | Err e => Ret (x, Return (Err e))
        | Ok next =>
            if statusEqual (p_Status project) next then Ret (x, Return (Ok ()))
            else swapProjectStatusFenced name (om_ResourceVersion (p_Meta project)) ref next
                   ≫= after_swap name x
        end
  end.

Definition reportProjectStatusFenced (name : string) (ref : AssignmentRef)
    (mutate : ObjectMeta → ProjectStatus → result ProjectStatus) : prog (result ()) :=
  snd <$> retry maxStatusUpdateAttempts (fenced_attempt name ref mutate) (Ok ()) ().

Definition ReportProjectStatusFenced (name : string) (ref : AssignmentRef)
    (mutate : ProjectStatus → result ProjectStatus) : prog (result ()) :=
  reportProjectStatusFenced name ref (λ _, mutate).

Definition loadProjectStatus (name : string) : prog (result (ProjectStatus * Z)) :=
  getProject name ≫= λ res,
  Ret match res with
      | Err e => Err (if Is e ErrNotFound then project_err ErrNotFound name else e)
      | Ok p => Ok (p_Status p, om_ResourceVersion (p_Meta p))
      end.

Definition version_attempt (name : string) (mutate : ProjectStatus → result ProjectStatus) (x : ())
    : prog (() * attempt (result bool)) :=
  loadProjectStatus name ≫= λ res,
  match res with
  | Err e => Ret (x, Return (Err e))
  | Ok (current, version) =>
      match mutate current with
      | Err e => Ret (x, Return (Err e))
      | Ok next =>
          if statusEqual current next then Ret (x, Return (Ok false))
          else swapProjectStatus name version next ≫= λ res,
               match res with
               | Ok _ => Ret (x, Return (Ok true))
               | Err e => if Is e ErrVersionConflict then Ret (x, Again e)
                          else Ret (x, Return (Err e))
               end
      end
  end.

Definition retryProjectStatusUpdate (name : string)
    (mutate : ProjectStatus → result ProjectStatus) : prog (result bool) :=
  snd <$> retry maxStatusUpdateAttempts (version_attempt name mutate) (Ok false) ().

Definition UpdateProjectStatusWithRetry (name : string)
    (mutate : ProjectStatus → result ProjectStatus) : prog (result ()) :=
  committed ←? retryProjectStatusUpdate name mutate;
  if (committed : bool) then publish TopicProjectUpdated name ≫= λ _, Ret (Ok ())
  else Ret (Ok ()).

#[global] Arguments getProject : simpl never.
#[global] Arguments classify : simpl never.
#[global] Arguments swap : simpl never.
#[global] Arguments swapProjectStatus : simpl never.
#[global] Arguments swapProjectStatusForUID : simpl never.
#[global] Arguments swapProjectStatusFenced : simpl never.
#[global] Arguments retry : simpl nomatch.
#[global] Arguments update_row : simpl never.

(** ** What a status write must keep *)

(** A change of the status of lifetime [uid] at spec revision [rev] that keeps
    the invariant and the contract of status_evolves, and grants at most one
    assignment. *)
Record legal (uid : string) (rev : Z) (s s' : ProjectStatus) : Prop := {
  lg_inv : status_inv uid s';
  lg_evolves : status_evolves uid s s';
  lg_grant : (st_AssignmentGeneration s' ≤ st_AssignmentGeneration s + 1)%Z;
  lg_observed : (st_ObservedSpecRevision s' ≤ Z.max (st_ObservedSpecRevision s) rev)%Z
}.

Lemma commit_row r s' now rev :
  row_inv r → (row_Version r < max_int64)%Z → (rev ≤ row_SpecRevision r)%Z →
  legal (row_UID r) rev (row_status r) s' →
  row_inv (commit_status s' now r) ∧ row_evolves r (commit_status s' now r).
Proof.
  intros Hri Hv Hrev Hl. pose proof (ri_generation _ Hri). pose proof (ri_observed _ Hri).
  pose proof (ri_revision _ Hri). pose proof (ri_version _ Hri).
  pose proof (lg_grant _ _ _ _ Hl). pose proof (lg_observed _ _ _ _ Hl).
  split; split; unfold row_status; simpl; fold (row_status r); try lia.
  all: first [done | by apply Hl | by right; lia | by eapply lg_evolves].
Qed.

Section store_wp.
Context `{UUIDSource}.

Lemma commit_others name r s' now rev d :
  db_inv d → project_at d name = Some r → (row_Version r < max_int64)%Z →
  (rev ≤ row_SpecRevision r)%Z → legal (row_UID r) rev (row_status r) s' →
  others_unforced d (put_row (project_key name) (commit_status s' now r) d).
Proof.
  intros Hinv Hr Hv Hrev Hl. destruct (Hinv _ _ Hr) as [Hri Hu].
  destruct (commit_row r s' now rev Hri Hv Hrev Hl) as [Hri' He].
  split; [split|].
  - by eapply put_row_evolves.
  - intros _. by eapply put_row_inv.
  - by eapply put_row_finalized.
Qed.

(** [Rel] is any transitive interference that keeps the contract. *)
Context (Rel G : DB → DB → Prop).
Context (Rel_trans : ∀ d1 d2 d3, Rel d1 d2 → Rel d2 d3 → Rel d1 d3).
Context (Rel_others : ∀ d d', Rel d d' → others d d').
Lemma Rel_inv d d' : Rel d d' → db_inv d → db_inv d'.
Proof. intros Hr. apply Rel_others in Hr as [_ ?]. done. Qed.

(** A well-formed database the others reached from [d0]. *)
Definition reached (d0 d : DB) : Prop := db_inv d ∧ (d = d0 ∨ Rel d0 d).

Lemma reached_refl d : db_inv d → reached d d.
Proof. split; auto. Qed.
Lemma reached_step d0 d d' : reached d0 d → Rel d d' → reached d0 d' ∧ Rel d0 d'.
Proof.
  intros [Hinv [->|Hr]] Hd; (split; [split|]); eauto using Rel_inv.
Qed.

Lemma wp_getProject name (Q : result Project → DB → list Event → Prop) d h :
  (∀ d1, Rel d d1 → project_at d1 name = None → Q (Err (Sentinel ErrNotFound)) d1 h) →
  (∀ d1 r, Rel d d1 → project_at d1 name = Some r →
     Q (Ok (project_of_row (project_key name) r)) d1 h) →
  (∀ d1 e, Rel d d1 → is_fault e = true → Q (Err e) d1 h) →
  wp Rel G (getProject name) Q d h.
Proof.
  intros Hno Hok Herr. unfold getProject. apply wp_bind. apply wp_query.
  - intros d1 Hd. apply wp_ret. unfold select_project.
    destruct (project_at d1 name) as [r|] eqn:E; simpl; [by apply Hok|by apply Hno].
  - intros d1 e Hd He. apply wp_ret. by apply Herr.
Qed.

Lemma wp_classify what name f (Q : result () → DB → list Event → Prop) d h :
  (∀ d1 r, Rel d d1 → project_at d1 name = Some r →
     Q (f (project_of_row (project_key name) r)) d1 h) →
  (∀ d1, Rel d d1 → Q (Err (project_err ErrNotFound name)) d1 h) →
  (∀ d1 e, Rel d d1 → is_fault e = true → Q (Err e) d1 h) →
  wp Rel G (classify what name f) Q d h.
Proof.
  intros Hf Hn He. unfold classify. apply wp_bind. apply wp_getProject.
  - intros d1 Hd _. apply wp_ret. by apply Hn.
  - intros d1 r Hd Hr. apply wp_ret. by apply Hf.
  - intros d1 e Hd Hfault. apply wp_ret. rewrite fault_is_not by done. by apply He.
Qed.

Definition row_gone (name : string) (d : DB) (ver : Z) (pred : ProjectRow → bool) : Prop :=
  match project_at d name with
  | None => True
  | Some r => row_Version r ≠ ver ∨ pred r = false
  end.

Lemma wp_swap what name ver pred status miss (Q : result () → DB → list Event → Prop) d h :
  (∀ d1 e, Rel d d1 → is_fault e = true → Q (Err e) d1 h) →
  (∀ d1 r now, Rel d d1 → project_at d1 name = Some r → row_Version r = ver →
     pred r = true → (row_Version r < max_int64)%Z →
     let d2 := put_row (project_key name) (commit_status status now r) d1 in
     G d1 d2 ∧ Q (Ok ()) d2 (h ++ [Wrote d1 d2]) ∧
     ∀ e, is_fault e = true → Q (Err e) d2 (h ++ [Wrote d1 d2])) →
  (∀ d1, Rel d d1 → row_gone name d1 ver pred → wp Rel G miss Q d1 h) →
  wp Rel G (swap what name ver pred status miss) Q d h.
Proof.
  intros Herr Hok Hmiss. unfold swap. apply wp_bind, wp_now. intros now d0 Hd0.
  apply wp_bind, wp_exec.
  { intros d1 e Hd1 He. apply wp_ret. apply Herr; eauto. }
  intros d1 Hd1. assert (Rel d d1) as Hd by eauto. unfold update_row. unfold row_gone in Hmiss. specialize (Hmiss d1 Hd).
  specialize (Hok d1). destruct (project_at d1 name) as [r|] eqn:Er; [|by apply Hmiss].
  destruct (bool_decide (row_Version r = ver)) eqn:Ev; bools; simpl; [|by apply Hmiss; left].
  destruct (pred r) eqn:Ep; [|by apply Hmiss; right].
  destruct (bool_decide (row_Version r < max_int64)%Z) eqn:Em; bools.
  - destruct (Hok r now Hd eq_refl Ev Ep Em) as (? & ? & ?). split_and!; try done.
    intros e He. apply wp_ret. auto.
  - apply wp_ret. by apply Herr.
Qed.

(** A swap whose WHERE clause pins the row that was read: when it commits,
    the row it replaces is that row, byte for byte. *)
Definition swapped name r next d1 (h : list Event) (res : result ()) (d' : DB) (h' : list Event)
    : Prop :=
  (h' = h ∧ Rel d1 d' ∧ ∃ e, res = Err e) ∨
  (∃ d3 now, Rel d1 d3 ∧ project_at d3 name = Some r ∧ (row_Version r < max_int64)%Z ∧
     d' = put_row (project_key name) (commit_status next now r) d3 ∧
     h' = h ++ [Wrote d3 d'] ∧ (res = Ok () ∨ ∃ e, res = Err e ∧ is_fault e = true)).

(** What the guarantee has to admit: replacing the status of [r] by [next]. *)
Definition G_admits name r next : Prop :=
  ∀ d now, db_inv d → project_at d name = Some r → (row_Version r < max_int64)%Z →
    G d (put_row (project_key name) (commit_status next now r) d).

Lemma wp_swap_pinned what name pred next miss r d1 d2 h :
  db_inv d1 → project_at d1 name = Some r →
  (∀ d'', Rel d2 d'' → Rel d1 d'') →
  (∀ d3 r3, Rel d1 d3 → project_at d3 name = Some r3 → pred r3 = true →
     row_UID r3 = row_UID r) →
  (∀ d3, Rel d2 d3 → project_at d3 name = Some r → G_admits name r next) →
  (∀ d3, Rel d2 d3 → wp Rel G miss (λ res d' h', h' = h ∧ Rel d3 d' ∧ ∃ e, res = Err e) d3 h) →
  wp Rel G (swap what name (row_Version r) pred next miss) (swapped name r next d2 h) d2 h.
Proof.
  intros Hinv Hr Hd12 Hpin HG Hmiss.
  assert (∀ d3, Rel d2 d3 → db_inv d3) as Hinv3 by eauto using Rel_inv.
  apply wp_swap.
  - intros d3 e Hd3 He. left. eauto.
  - intros d3 r3 now Hd3 Hr3 Hv Hp Hmax d4.
    assert (r3 = r) as ->.
    { destruct (Rel_others _ _ (Hd12 _ Hd3)) as [Hev _].
      eapply (pinned_row_unchanged d1 d3); eauto. }
    split; [by apply (HG d3); auto|]. split; [|intros e He]; right; exists d3, now; eauto 10.
  - intros d3 Hd3 _. eapply wp_mono; [|by apply Hmiss]. intros res d' h' (-> & Hd' & He).
    left. eauto.
Qed.

(** ** The retry loop *)

Lemma wp_retry {X A} (body : X → prog (X * attempt (result A)))
    (Qret : X → result A → DB → list Event → Prop) (Idb : DB → Prop) h :
  (∀ x d, Idb d →
     wp Rel G (body x) (λ '(x', a) d' h',
       match a with
       | Return res => Qret x' res d' h'
       | Again e => Is e ErrVersionConflict = true ∧ h' = h ∧ Idb d'
       end) d h) →
  (∀ x d e, Idb d → Is e ErrVersionConflict = true → Qret x (Err e) d h) →
  ∀ n x0 last d, Idb d → (n ≠ 0 ∨ ∃ e, last = Err e ∧ Is e ErrVersionConflict = true) →
  wp Rel G (retry n body last x0) (λ '(x', res), Qret x' res) d h.
Proof.
  intros Hbody Hlast n. induction n as [|n IH]; intros x0 last d Hd Hn; simpl.
  - destruct Hn as [?|(e & -> & He)]; [done|]. apply wp_ret. by apply Hlast.
  - apply wp_bind. eapply wp_mono; [|by apply Hbody].
    intros [x' [res|e]] d' h'; [by intros; apply wp_ret|].
    intros (He & -> & Hd'). apply IH; [done|]. right. eauto.
Qed.

(** What a loop leaves behind: nothing (and if it reports success, [N] holds
    of the status it found), or exactly one write [C], followed by its event
    unless the acknowledgement was lost. *)
Definition outcome (N : Prop) (C : DB → DB → Prop) name (h : list Event)
    (res : result ()) (h' : list Event) : Prop :=
  (h' = h ∧ (res = Ok () → N)) ∨
  (∃ d1 d2, C d1 d2 ∧
    ((res = Ok () ∧ h' = h ++ [Wrote d1 d2; Published TopicProjectUpdated name]) ∨
     (∃ e, res = Err e ∧ is_fault e = true ∧ h' = h ++ [Wrote d1 d2]))).

Lemma outcome_err N C name h e : outcome N C name h (Err e) h.
Proof. left. by split. Qed.

(** A pinned swap followed by the loop's switch on its result. *)
Lemma wp_swap_then {X} (x : X) what name pred next miss r d1 d2 h
    (N : X → Prop) (C : X → DB → DB → Prop) :
  db_inv d1 → project_at d1 name = Some r →
  (∀ d'', Rel d2 d'' → Rel d1 d'') →
  (∀ d3 r3, Rel d1 d3 → project_at d3 name = Some r3 → pred r3 = true →
     row_UID r3 = row_UID r) →
  (∀ d3, Rel d2 d3 → project_at d3 name = Some r → G_admits name r next) →
  (∀ d3, Rel d2 d3 → wp Rel G miss (λ res d' h', h' = h ∧ Rel d3 d' ∧ ∃ e, res = Err e) d3 h) →
  (∀ d3 now, Rel d2 d3 → project_at d3 name = Some r →
     C x d3 (put_row (project_key name) (commit_status next now r) d3)) →
  wp Rel G (swap what name (row_Version r) pred next miss ≫= after_swap name x)
    (λ '(x', a) d' h',
      match a with
      | Return res => outcome (N x') (C x') name h res h'
      | Again e => Is e ErrVersionConflict = true ∧ h' = h ∧ Rel d1 d'
      end) d2 h.
Proof.
  intros Hinv Hr Hd12 Hpin HG Hmiss HC. apply wp_bind.
  eapply wp_mono; [|by eapply wp_swap_pinned].
  intros res d' h' [(-> & Hinv' & e & ->)|(d3 & now & Hd3 & Hr3 & Hmax & -> & -> & [->|(e & -> & He)])];
    cbv beta iota delta [after_swap].
  - destruct (Is e ErrVersionConflict) eqn:Ee; apply wp_ret; [by auto|apply outcome_err].
  - apply wp_bind, wp_publish, wp_ret. rewrite <- app_assoc. right.
    eexists _, _. split; [by apply HC|]. by left.
  - rewrite fault_is_not by done. apply wp_ret. right.
    eexists _, _. split; [by apply HC|]. right. by exists e.
Qed.

Lemma wp_classify_err what name f d h :
  (∀ p, ∃ e, f p = Err e) →
  wp Rel G (classify what name f) (λ res d' h', h' = h ∧ Rel d d' ∧ ∃ e, res = Err e) d h.
Proof. intros Hf. apply wp_classify; eauto. Qed.

Lemma wp_again_reached {X} (p : prog (X * attempt (result ())))
    (P : X → result () → list Event → Prop) d1 d0 d h h0 :
  (∀ d', Rel d1 d' → reached d0 d') →
  wp Rel G p (λ '(x', a) d' h',
    match a with
    | Return res => P x' res h'
    | Again e => Is e ErrVersionConflict = true ∧ h' = h0 ∧ Rel d1 d'
    end) d h →
  wp Rel G p (λ '(x', a) d' h',
    match a with
    | Return res => P x' res h'
    | Again e => Is e ErrVersionConflict = true ∧ h' = h0 ∧ reached d0 d'
    end) d h.
Proof.
  intros Hr. apply wp_mono. intros [x' [res|e]] d' h'; [done|]. intros (? & ? & ?). auto.
Qed.

(** *** Pinned to one lifetime *)

Section uid.
Context {X : Type} (name uid : string) (mutate : mutation X).

(** What one run of the closure on the snapshot [r] computes. [N] is what holds
    of it at once; [M] holds if the row is still [r] at a later time, which is
    what the swap establishes: a closure may read the database again. *)
Context (N M : X → ProjectRow → result ProjectStatus → Prop).
Context (M_spec : ∀ x r d h, db_inv d → row_inv r → row_UID r = uid → project_at d name = Some r →
  wp Rel G (mutate x (row_status r)) (λ '(x', res) d' h',
    h' = h ∧ (∀ d'', Rel d' d'' → Rel d d'') ∧ N x' r res ∧
    ∀ d'', Rel d' d'' → project_at d'' name = Some r → M x' r res) d h).
Context (M_G : ∀ x r s', row_inv r → row_UID r = uid → M x r (Ok s') → G_admits name r s').

Context (d0 : DB).

(** The one atomic step the loop implements, when called in [d0]: the row
    of this lifetime, as it is when the write commits, takes the status the
    closure computes from that very row. *)
Definition uid_commit (x : X) (d1 d2 : DB) : Prop :=
  Rel d0 d1 ∧ ∃ r s' now, project_at d1 name = Some r ∧ row_UID r = uid ∧
    M x r (Ok s') ∧ s' ≠ row_status r ∧
    d2 = put_row (project_key name) (commit_status s' now r) d1.

Definition uid_noop (x : X) : Prop :=
  ∃ d r, Rel d0 d ∧ project_at d name = Some r ∧ row_UID r = uid ∧
    N x r (Ok (row_status r)).

Lemma wp_uid_attempt x d h :
  reached d0 d →
  wp Rel G (uid_attempt name uid mutate x) (λ '(x', a) d' h',
    match a with
    | Return res => outcome (uid_noop x') (uid_commit x') name h res h'
    | Again e => Is e ErrVersionConflict = true ∧ h' = h ∧ reached d0 d'
    end) d h.
Proof.
  intros Hreach. unfold uid_attempt. apply wp_bind. apply wp_getProject.
  { intros d1 _ _. apply wp_ret, outcome_err. }
  2:{ intros d1 e Hd He. apply wp_ret. rewrite fault_is_not by done. apply outcome_err. }
  intros d1 r Hd Er. cbn [p_Meta p_Status om_UID om_ResourceVersion project_of_row].
  destruct (reached_step _ _ _ Hreach Hd) as [[Hinv1 _] Hd01].
  case_decide as Hu; [apply wp_ret, outcome_err|].
  destruct (Hinv1 _ _ Er) as [Hri _].
  apply wp_bind. eapply wp_mono; [|by apply M_spec].
  intros [x' [next|e]] d2 h2 (-> & Hd12 & HN & HM); [|apply wp_ret, outcome_err].
  unfold statusEqual. case_bool_decide as Heq.
  { apply wp_ret. left. split; [done|]. intros _. exists d1, r. by subst next. }
  apply (wp_again_reached _ (λ x' res h', outcome (uid_noop x') (uid_commit x') name h res h') d1).
  { intros d' Hd'. split; eauto using Rel_inv. }
  unfold swapProjectStatusForUID. eapply (wp_swap_then x' _ _ _ _ _ _ _ _ _ uid_noop uid_commit);
    [done..| | | |].
  - intros d3 r3 _ _ Hp. cbv beta in Hp. bools. congruence.
  - intros d3 Hd3 Hr3. apply (M_G x'); eauto.
  - intros d3 Hd3. apply wp_classify_err. intros p. case_decide; eauto.
  - intros d3 now Hd3 Hr3. split; [eauto|]. exists r, next, now. eauto 10.
Qed.

Lemma wp_updateProjectStatusForUID x h :
  db_inv d0 →
  wp Rel G (updateProjectStatusForUID name uid mutate x)
    (λ '(x', res) _ h', outcome (uid_noop x') (uid_commit x') name h res h') d0 h.
Proof.
  intros Hinv. eapply wp_mono; [|eapply (wp_retry _
    (λ x' res _ h', outcome (uid_noop x') (uid_commit x') name h res h') (reached d0));
    [by intros; apply wp_uid_attempt|intros; apply outcome_err|by apply reached_refl|by left]].
  by intros [].
Qed.
End uid.

(** *** Fenced to one assignment *)

Section fenced.
Context (name : string) (ref : AssignmentRef).
Context (mutate : ObjectMeta → ProjectStatus → result ProjectStatus).

Context (m_G : ∀ r s', row_inv r → fence_of (row_UID r) (row_status r) = ref →
  mutate (p_Meta (project_of_row (project_key name) r)) (row_status r) = Ok s' →
  G_admits name r s').

Context (d0 : DB).

Definition fenced_commit (d1 d2 : DB) : Prop :=
  Rel d0 d1 ∧ ∃ r s' now, project_at d1 name = Some r ∧ fence_of (row_UID r) (row_status r) = ref ∧
    mutate (p_Meta (project_of_row (project_key name) r)) (row_status r) = Ok s' ∧
    s' ≠ row_status r ∧
    d2 = put_row (project_key name) (commit_status s' now r) d1.

Definition fenced_noop : Prop :=
  ∃ d r, Rel d0 d ∧ project_at d name = Some r ∧ fence_of (row_UID r) (row_status r) = ref ∧
    mutate (p_Meta (project_of_row (project_key name) r)) (row_status r) = Ok (row_status r).

Lemma wp_fenced_attempt x d h :
  reached d0 d →
  wp Rel G (fenced_attempt name ref mutate x) (λ '(x', a) d' h',
    match a with
    | Return res => outcome fenced_noop fenced_commit name h res h'
    | Again e => Is e ErrVersionConflict = true ∧ h' = h ∧ reached d0 d'
    end) d h.
Proof.
  intros Hreach. unfold fenced_attempt. apply wp_bind. apply wp_getProject.
  { intros d1 _ _. apply wp_ret, outcome_err. }
  2:{ intros d1 e Hd He. apply wp_ret. rewrite fault_is_not by done. apply outcome_err. }
  intros d1 r Hd Er. destruct (reached_step _ _ _ Hreach Hd) as [[Hinv1 _] Hd01].
  destruct (Hinv1 _ _ Er) as [Hri _].
  destruct (fenceMatches ref _) eqn:Ef; simpl negb; cbv iota; [|apply wp_ret, outcome_err].
  unfold fenceMatches in Ef.
  cbn [p_Meta p_Status om_UID om_ResourceVersion project_of_row] in Ef |- *. bools.
  destruct Ef as [[Hu Hn] Hg].
  assert (fence_of (row_UID r) (row_status r) = ref) as Hf
    by (unfold fence_of; rewrite Hu, Hn, Hg; by destruct ref).
  destruct (mutate _ _) as [next|e] eqn:Em; [|apply wp_ret, outcome_err].
  unfold statusEqual. case_bool_decide as Heq.
  { apply wp_ret. left. split; [done|]. intros _. exists d1, r. by subst next. }
  apply (wp_again_reached _ (λ _ res h', outcome fenced_noop fenced_commit name h res h') d1).
  { intros d' Hd'. split; eauto using Rel_inv. }
  unfold swapProjectStatusFenced.
  eapply (wp_swap_then x _ _ _ _ _ _ _ _ _ (λ _, fenced_noop) (λ _, fenced_commit));
    [done..| | | |].
  - intros d3 r3 _ _ Hp. unfold assignmentFenceWHERE in Hp. bools. destruct Hp as [[? _] _]. congruence.
  - intros d3 _ _. by apply m_G.
  - intros d3 Hd3. apply wp_classify_err. intros p. destruct (fenceMatches ref p); eauto.
  - intros d3 now Hd3 Hr3. split; [eauto|]. exists r, next, now. auto.
Qed.

Lemma wp_reportProjectStatusFenced h :
  db_inv d0 →
  wp Rel G (reportProjectStatusFenced name ref mutate)
    (λ res _ h', outcome fenced_noop fenced_commit name h res h') d0 h.
Proof.
  intros Hinv. unfold reportProjectStatusFenced. apply wp_bind.
  eapply wp_mono; [|eapply (wp_retry _
    (λ _ res _ h', outcome fenced_noop fenced_commit name h res h') (reached d0));
    [by intros; apply wp_fenced_attempt|intros; apply outcome_err|by apply reached_refl|by left]].
  intros [[] res] d' h' ?. by apply wp_ret.
Qed.
End fenced.

(** *** Guarded by the version alone *)

Section version.
Context (name : string) (mutate : ProjectStatus → result ProjectStatus).

(** The version says nothing about the lifetime: what the loop needs is
    that the name is not given to another Project while it runs. *)
Context (Rel_name : ∀ d d' r r', Rel d d' → project_at d name = Some r →
  project_at d' name = Some r' → row_UID r' = row_UID r).
Context (m_G : ∀ r s', row_inv r → mutate (row_status r) = Ok s' → G_admits name r s').
Context (d0 : DB).

Definition version_commit (d1 d2 : DB) : Prop :=
  Rel d0 d1 ∧ ∃ r s' now, project_at d1 name = Some r ∧ (row_Version r < max_int64)%Z ∧
    mutate (row_status r) = Ok s' ∧ s' ≠ row_status r ∧
    d2 = put_row (project_key name) (commit_status s' now r) d1.

Definition version_noop : Prop :=
  ∃ d r, Rel d0 d ∧ project_at d name = Some r ∧ mutate (row_status r) = Ok (row_status r).

(** The outcome before the event, which the caller of the loop publishes. *)
Definition unpublished (h : list Event) (res : result bool) (h' : list Event) : Prop :=
  (h' = h ∧ match res with Ok true => False | Ok false => version_noop | Err _ => True end) ∨
  (∃ d1 d2, version_commit d1 d2 ∧ h' = h ++ [Wrote d1 d2] ∧
     (res = Ok true ∨ ∃ e, res = Err e ∧ is_fault e = true)).

Lemma wp_version_attempt x d h :
  reached d0 d →
  wp Rel G (version_attempt name mutate x) (λ '(_, a) d' h',
    match a with
    | Return res => unpublished h res h'
    | Again e => Is e ErrVersionConflict = true ∧ h' = h ∧ reached d0 d'
    end) d h.
Proof.
  intros Hreach. unfold version_attempt, loadProjectStatus. apply wp_bind, wp_bind, wp_getProject.
  { intros d1 _ _. apply wp_ret, wp_ret. left. by split. }
  2:{ intros d1 e Hd He. apply wp_ret, wp_ret. left. by split. }
  intros d1 r Hd Er. destruct (reached_step _ _ _ Hreach Hd) as [[Hinv1 _] Hd01].
  apply wp_ret. cbn [p_Meta p_Status om_ResourceVersion project_of_row].
  destruct (mutate _) as [next|e] eqn:Em; [|apply wp_ret; left; by split].
  unfold statusEqual. case_bool_decide as Heq.
  { apply wp_ret. left. split; [done|]. exists d1, r. by subst next. }
  apply wp_bind. unfold swapProjectStatus.
  eapply wp_mono; [|eapply (wp_swap_pinned _ _ _ _ _ r d1); [done..| | |]].
  - intros res d' h' [(-> & Hd' & e & ->)|(d3 & now & Hd3 & Hr3 & Hmax & -> & -> & Hres)].
    + destruct (Is e ErrVersionConflict) eqn:Ee; apply wp_ret; [|left; by split].
      split_and!; [done|done|]. split; eauto using Rel_inv.
    + assert (version_commit d3 (put_row (project_key name) (commit_status next now r) d3)) as Hc.
      { split; [eauto|]. exists r, next, now. auto. }
      destruct Hres as [->|(e & -> & He)].
      * apply wp_ret. right. eexists _, _. split; [exact Hc|]. auto.
      * rewrite fault_is_not by done. apply wp_ret. right. eexists _, _.
        split; [exact Hc|]. eauto.
  - intros d3 r3 Hd3 Hr3 _. by eapply Rel_name.
  - intros d3 _ _. apply m_G; [|done]. by destruct (Hinv1 _ _ Er).
  - intros d3 Hd3. apply wp_classify_err. eauto.
Qed.

Lemma wp_UpdateProjectStatusWithRetry h :
  db_inv d0 →
  wp Rel G (UpdateProjectStatusWithRetry name mutate)
    (λ res _ h', outcome version_noop version_commit name h res h') d0 h.
Proof.
  intros Hinv. unfold UpdateProjectStatusWithRetry, try_bind, retryProjectStatusUpdate.
  apply wp_bind, wp_bind.
  eapply wp_mono; [|eapply (wp_retry _ (λ _ res _ h', unpublished h res h') (reached d0));
    [by intros; apply wp_version_attempt|intros; left; by split|by apply reached_refl|by left]].
  intros [[] res] d' h' [(-> & Hres)|(d1 & d2 & Hc & -> & [->|(e & -> & He)])]; apply wp_ret.
  - destruct res as [[]|e]; [done| |]; apply wp_ret; [|apply outcome_err]. by left.
  - apply wp_bind, wp_publish, wp_ret. rewrite <- app_assoc. right. eexists _, _.
    split; [exact Hc|]. by left.
  - apply wp_ret. right. eexists _, _. split; [exact Hc|]. right. by exists e.
Qed.
End version.
End store_wp.

(** ** Properties *)

(** The interference a claim allows: any schedule of others that keep the
    contract, and any faults. *)
Definition schedule_ok `{UUIDSource} (ms : list move) : Prop := Forall (move_ok others) ms.

(** From a claim about a run to the weakest precondition of the program. *)
Ltac run_wp p ms d0 :=
  pattern (result_of (run p ms d0 [])), (db_of (run p ms d0 [])), (history_of (run p ms d0 []));
  apply (wp_adequate others (λ _ _, True) p _ ms d0 []); [done|done|].

Lemma wp_UpdateProjectStatusForUID `{UUIDSource} (name uid : string)
    (mutate : ProjectStatus → result ProjectStatus) (d0 : DB) (h : list Event) :
  db_inv d0 →
  let M := λ (_ : ()) r res, mutate (row_status r) = res in
  wp others (λ _ _, True) (UpdateProjectStatusForUID name uid mutate)
    (λ res _ h', outcome (uid_noop others name uid M d0 ()) (uid_commit others name uid M d0 ())
       name h res h') d0 h.
Proof.
  intros Hinv M. unfold UpdateProjectStatusForUID. apply wp_bind.
  eapply wp_mono; [|eapply (wp_updateProjectStatusForUID others (λ _ _, True)
    ltac:(by intros; etrans) ltac:(done) name uid (pure_mutation mutate) M M); [|done|done]].
  - intros [[] res] d' h' Hout. apply wp_ret. done.
  - intros x r d h' _ _ _ _. apply wp_ret. by split_and!.
Qed.

Lemma uid_outcome `{UUIDSource} (name uid : string)
    (mutate : ProjectStatus → result ProjectStatus) (ms : list move) (d0 : DB) :
  db_inv d0 → schedule_ok ms →
  let M := λ (_ : ()) r res, mutate (row_status r) = res in
  let x := run (UpdateProjectStatusForUID name uid mutate) ms d0 [] in
  outcome (uid_noop others name uid M d0 ()) (uid_commit others name uid M d0 ())
    name [] (result_of x) (history_of x).
Proof.
  intros Hinv Hms M x. subst x.
  apply (wp_adequate others (λ _ _, True) _ _ ms d0 [] ltac:(done) Hms
    (wp_UpdateProjectStatusForUID name uid mutate d0 [] Hinv)).
Qed.

(** C7 (store.go, updateProjectStatusForUID): the read-mutate-swap loop is one
    atomic update of the lifetime it names. Whatever the others do between its
    statements and whichever statement fails, it either leaves the database
    alone, or replaces the status of the row of that lifetime by what mutate
    returns for that very row, in one write at a moment of its run, and
    publishes once. It reports success only after such a write or for a status
    it found needing none; an error after a write is the write's lost
    acknowledgement. A same-name successor is never written. *)
Theorem UpdateProjectStatusForUID_atomic `{UUIDSource} (name uid : string)
    (mutate : ProjectStatus → result ProjectStatus) (ms : list move) (d0 : DB)
    (Hinv : db_inv d0) (Hms : schedule_ok ms) :
  let x := run (UpdateProjectStatusForUID name uid mutate) ms d0 [] in
  (history_of x = [] ∧
   (result_of x = Ok () →
      ∃ d r, others d0 d ∧ project_at d name = Some r ∧ row_UID r = uid ∧
             mutate (row_status r) = Ok (row_status r))) ∨
  (∃ d1 r s' now, let d2 := put_row (project_key name) (commit_status s' now r) d1 in
     others d0 d1 ∧ project_at d1 name = Some r ∧ row_UID r = uid ∧
     mutate (row_status r) = Ok s' ∧ s' ≠ row_status r ∧
     ((result_of x = Ok () ∧ history_of x = [Wrote d1 d2; Published TopicProjectUpdated name]) ∨
      (∃ e, result_of x = Err e ∧ is_fault e = true ∧ history_of x = [Wrote d1 d2]))).
Proof.
  destruct (uid_outcome name uid mutate ms d0 Hinv Hms)
    as [[Hh Hn]|(d1 & d2 & (Hd1 & r & s' & now & Hr & Hf & Hm & Hne & ->) & Hres)].
  - left. split; [done|]. intros Hok. destruct (Hn Hok) as (d & r & ? & ? & ? & ?). eauto 10.
  - right. exists d1, r, s', now. split_and!; auto.
Qed.

Lemma wp_fenced_report `{UUIDSource} (name : string) (ref : AssignmentRef)
    (mutate : ObjectMeta → ProjectStatus → result ProjectStatus) (d0 : DB) (h : list Event) :
  db_inv d0 →
  wp others (λ _ _, True) (reportProjectStatusFenced name ref mutate)
    (λ res _ h', outcome (fenced_noop others name ref mutate d0)
       (fenced_commit others name ref mutate d0) name h res h') d0 h.
Proof.
  intros Hinv. apply (wp_reportProjectStatusFenced others (λ _ _, True)); [by intros; etrans|done..].
Qed.

Lemma fenced_outcome `{UUIDSource} (name : string) (ref : AssignmentRef)
    (mutate : ObjectMeta → ProjectStatus → result ProjectStatus) (ms : list move) (d0 : DB) :
  db_inv d0 → schedule_ok ms →
  let x := run (reportProjectStatusFenced name ref mutate) ms d0 [] in
  outcome (fenced_noop others name ref mutate d0) (fenced_commit others name ref mutate d0)
    name [] (result_of x) (history_of x).
Proof.
  intros Hinv Hms x. subst x.
  apply (wp_adequate others (λ _ _, True) _ _ ms d0 [] ltac:(done) Hms
    (wp_fenced_report name ref mutate d0 [] Hinv)).
Qed.

(** C8 (store.go, reportProjectStatusFenced and ReportProjectStatusFenced): a
    fenced report commits only onto the assignment its fence names. Under any
    interference it makes at most one write, and the row it replaces carries,
    at the moment of the write, the UID, the Node and the generation of the
    fence; mutate has run on that very row and its metadata. *)
Theorem reportProjectStatusFenced_atomic `{UUIDSource} (name : string) (ref : AssignmentRef)
    (mutate : ObjectMeta → ProjectStatus → result ProjectStatus) (ms : list move) (d0 : DB)
    (Hinv : db_inv d0) (Hms : schedule_ok ms) :
  let x := run (reportProjectStatusFenced name ref mutate) ms d0 [] in
  (history_of x = [] ∧
   (result_of x = Ok () →
      ∃ d r, others d0 d ∧ project_at d name = Some r ∧
        fence_of (row_UID r) (row_status r) = ref ∧
        mutate (p_Meta (project_of_row (project_key name) r)) (row_status r) = Ok (row_status r))) ∨
  (∃ d1 r s' now, let d2 := put_row (project_key name) (commit_status s' now r) d1 in
     others d0 d1 ∧ project_at d1 name = Some r ∧ fence_of (row_UID r) (row_status r) = ref ∧
     mutate (p_Meta (project_of_row (project_key name) r)) (row_status r) = Ok s' ∧
     s' ≠ row_status r ∧
     ((result_of x = Ok () ∧ history_of x = [Wrote d1 d2; Published TopicProjectUpdated name]) ∨
      (∃ e, result_of x = Err e ∧ is_fault e = true ∧ history_of x = [Wrote d1 d2]))).
Proof.
  destruct (fenced_outcome name ref mutate ms d0 Hinv Hms)
    as [[Hh Hn]|(d1 & d2 & (Hd1 & r & s' & now & Hr & Hf & Hm & Hne & ->) & Hres)].
  - left. split; [done|]. intros Hok. destruct (Hn Hok) as (d & r & ? & ? & ? & ?). eauto 10.
  - right. exists d1, r, s', now. split_and!; auto.
Qed.

(** A fence the row has left behind: a later generation, or the same one on
    another Node or on none. *)
Definition fence_lost (ref : AssignmentRef) (s : ProjectStatus) : Prop :=
  (ref_Generation ref < st_AssignmentGeneration s)%Z ∨
  (st_AssignmentGeneration s = ref_Generation ref ∧ st_NodeRef s ≠ ref_NodeRef ref ∧
   ref_NodeRef ref ≠ EmptyString).

(** A fence that was lost is never regained, whatever happens meanwhile. *)
Lemma fence_lost_forever `{UUIDSource} name ref d d' r' :
  others d d' → issued_between 0 (db_Issued d) (ref_UID ref) →
  (∀ r, project_at d name = Some r → row_UID r = ref_UID ref → fence_lost ref (row_status r)) →
  project_at d' name = Some r' → fence_of (row_UID r') (row_status r') ≠ ref.
Proof.
  intros [Hev _] Hiss Hlost Hr' Heq. rewrite <- Heq in Hiss; simpl in Hiss.
  destruct (same_lifetime d d' _ r' Hev Hiss Hr') as (r & Hr & He).
  pose proof (re_status _ _ He) as Hs.
  specialize (Hlost r Hr). rewrite <- Heq in Hlost; simpl in Hlost.
  destruct Hlost as [Hlt|(Hg & Hn & Hne)]; [by rewrite (re_uid _ _ He)| |]; simpl in *.
  - pose proof (se_generation _ _ _ Hs). lia.
  - destruct (se_holder _ _ _ Hs) as [?|?]; congruence.
Qed.

(** (store.go, reportProjectStatusFenced): an Agent that has lost its
    assignment can write nothing, ever: if the row of the lifetime its fence
    names has moved to a later generation or off its Node, or is gone, when
    the report starts, the report fails and the database is untouched, even if
    the Project is meanwhile assigned back to the same Node or recreated under
    the same name. *)
Theorem stale_fence_never_writes `{UUIDSource} (name : string) (ref : AssignmentRef)
    (mutate : ObjectMeta → ProjectStatus → result ProjectStatus) (ms : list move) (d0 : DB)
    (Hinv : db_inv d0) (Hms : schedule_ok ms)
    (Hissued : issued_between 0 (db_Issued d0) (ref_UID ref))
    (Hlost : ∀ r, project_at d0 name = Some r → row_UID r = ref_UID ref →
       fence_lost ref (row_status r)) :
  let x := run (reportProjectStatusFenced name ref mutate) ms d0 [] in
  history_of x = [] ∧ ∃ e, result_of x = Err e.
Proof.
  destruct (fenced_outcome name ref mutate ms d0 Hinv Hms)
    as [[Hh Hn]|(d1 & d2 & (Hd1 & r & s' & now & Hr & Hf & _) & _)].
  - split; [done|].
    destruct (result_of (run (reportProjectStatusFenced name ref mutate) ms d0 [])) as [[]|e];
      [|by eauto].
    destruct (Hn eq_refl) as (d & r & Hd & Hr & Hf & _). exfalso.
    by apply (fence_lost_forever name ref d0 d r).
  - exfalso. by apply (fence_lost_forever name ref d0 d1 r).
Qed.

(** ** A concrete database *)

(** A Project that has been assigned to Node "a" as generation 1. *)
Definition running_status (node : string) : ProjectStatus :=
  st_with_Phase ProjectPhaseRunning (st_with_NodeRef node (st_with_Generation 1
    (st_with_History AssignmentHistoryKnown InitialProjectStatus))).

Definition example_row (uid : string) (s : ProjectStatus) (version : Z) : ProjectRow :=
  {| row_UID := uid; row_Phase := st_Phase s; row_Spec := empty_spec;
     row_Status := marshal_status s; row_Labels := ∅; row_Annotations := ∅; row_CreatedAt := 0;
     row_UpdatedAt := 0; row_Version := version; row_SpecRevision := 1 |}%Z.

Definition example_db (s : ProjectStatus) (version : Z) : DB :=
  {| db_Projects := {[ project_key "shop" := example_row (counter_uuid 0) s version ]};
     db_Nodes := ∅; db_Audit := []; db_Access := no_access; db_Issued := 1 |}.

Lemma running_status_inv uid node : node ≠ EmptyString → status_inv uid (running_status node).
Proof.
  intros Hn. split; simpl; try done; try lia; [constructor|by intros o []%elem_of_nil|].
  intros g Hg. right. split; [lia|done].
Qed.

Lemma initial_status_inv uid : status_inv uid InitialProjectStatus.
Proof.
  split; simpl; try done; try lia; [constructor|by intros o []%elem_of_nil].
Qed.

Lemma example_db_inv s version :
  (1 ≤ version ≤ max_int64)%Z → (st_AssignmentGeneration s ≤ version)%Z →
  (st_ObservedSpecRevision s ≤ 1)%Z → status_inv (counter_uuid 0) s →
  @db_inv counter_uuids (example_db s version).
Proof.
  intros Hv Hg Ho Hs. split; [|done|exact no_access_inv]. intros key r. simpl. intros [<- <-]%lookup_singleton_Some. split.
  - by split; unfold row_status; simpl; try done; try lia.
  - exists 0. simpl. split; [lia|done].
Qed.

#[export] Hint Resolve running_status_inv initial_status_inv example_db_inv : cara.

Definition note_condition (s : ProjectStatus) : ProjectStatus :=
  st_with_Conditions (UpsertCondition (st_Conditions s)
    (mkCondition "Note" ConditionTrue "Seen" "seen" 7%Z) false) s.

Definition example_ref : AssignmentRef :=
  {| ref_UID := counter_uuid 0; ref_NodeRef := "a"; ref_Generation := 1 |}.

Lemma example_running_inv : @db_inv counter_uuids (example_db (running_status "a") 3).
Proof.
  apply example_db_inv; [unfold max_int64; lia|simpl; lia|simpl; lia|by apply running_status_inv].
Qed.

Lemma UpdateProjectStatusForUID_atomic_witness :
  let x := run (UpdateProjectStatusForUID "shop" (counter_uuid 0)
    (λ s, Ok (note_condition s))) [] (example_db (running_status "a") 3) [] in
  result_of x = Ok () ∧ length (history_of x) = 2.
Proof.
  pose proof (@UpdateProjectStatusForUID_atomic counter_uuids "shop" (counter_uuid 0)
    (λ s, Ok (note_condition s)) [] (example_db (running_status "a") 3)
    example_running_inv ltac:(by constructor)) as Hx.
  cbv zeta in Hx |- *.
  assert (result_of (run (UpdateProjectStatusForUID "shop" (counter_uuid 0)
    (λ s, Ok (note_condition s))) [] (example_db (running_status "a") 3) []) = Ok ()) as Hok
    by (vm_compute; reflexivity).
  split; [exact Hok|].
  destruct Hx as [[Hh _]|(d1 & r & s' & now & _ & _ & _ & _ & _ & [[_ ->]|(e & He & _)])];
    [|done|congruence].
  exfalso. vm_compute in Hh. discriminate.
Defined.

Lemma reportProjectStatusFenced_atomic_witness :
  let x := run (reportProjectStatusFenced "shop" example_ref
    (λ _ s, Ok (note_condition s))) [] (example_db (running_status "a") 3) [] in
  result_of x = Ok () ∧ length (history_of x) = 2.
Proof.
  pose proof (@reportProjectStatusFenced_atomic counter_uuids "shop" example_ref
    (λ _ s, Ok (note_condition s)) [] (example_db (running_status "a") 3)
    example_running_inv ltac:(by constructor)) as Hx.
  cbv zeta in Hx |- *.
  assert (result_of (run (reportProjectStatusFenced "shop" example_ref
    (λ _ s, Ok (note_condition s))) [] (example_db (running_status "a") 3) []) = Ok ()) as Hok
    by (vm_compute; reflexivity).
  split; [exact Hok|].
  destruct Hx as [[Hh _]|(d1 & r & s' & now & _ & _ & _ & _ & _ & [[_ ->]|(e & He & _)])];
    [|done|congruence].
  exfalso. vm_compute in Hh. discriminate.
Defined.

Lemma stale_fence_never_writes_witness :
  let x := run (reportProjectStatusFenced "shop" example_ref
    (λ _ s, Ok (note_condition s))) [] (example_db (running_status "b") 3) [] in
  history_of x = [] ∧ ∃ e, result_of x = Err e.
Proof.
  apply (@stale_fence_never_writes counter_uuids "shop" example_ref (λ _ s, Ok (note_condition s))
    [] (example_db (running_status "b") 3)).
  - apply example_db_inv; [unfold max_int64; lia|simpl; lia|simpl; lia|by apply running_status_inv].
  - constructor.
  - exists 0. simpl. split; [lia|done].
  - intros r Hr _. vm_compute in Hr. injection Hr as <-. right. split; [reflexivity|]. by split.
Defined.

(** ** The version alone does not name a lifetime

    What the comment of updateProjectStatusForUID says of a version-only swap
    holds of UpdateProjectStatusWithRetry, which production code calls: a
    Project deleted and recreated under the same name between the read and the
    swap, and brought to the same version, is overwritten with the old
    lifetime's status. *)

(** Another request deletes the Project and creates its successor, which an
    Agent then brings to version 3 as Running on Node "b". *)
Definition recreate `{UUIDSource} (d : DB) : DB :=
  db_issue (put_row (project_key "shop")
    (example_row (uuid_NewString (db_Issued d)) (running_status "b") 3) d).

Lemma recreate_others `{UUIDSource} d : others d (recreate d).
Proof.
  split; [split|].
  - simpl. lia.
  - intros key r. simpl. destruct (decide (project_key "shop" = key)) as [<-|Hne].
    + rewrite lookup_insert_eq. intros [= <-]. right. exists (db_Issued d). simpl. split; [lia|done].
    + rewrite lookup_insert_ne by done. intros Hr. left. exists r. by split.
  - done.
  - done.
  - intros Hinv. split; [|apply Hinv..]. intros key r. simpl. destruct (decide (project_key "shop" = key)) as [<-|Hne].
    + rewrite lookup_insert_eq. intros [= <-]. split.
      * split; unfold row_status, max_int64; simpl; try done; try lia.
        by apply running_status_inv.
      * exists (db_Issued d). simpl. split; [lia|done].
    + rewrite lookup_insert_ne by done. intros Hr. destruct (Hinv _ _ Hr) as [? (k & ? & ?)].
      split; [done|]. exists k. simpl. split; [lia|done].
Qed.

Definition recreation : list move :=
  [quiet; {| mv_others := @recreate counter_uuids; mv_outcome := Done; mv_now := zero |}].

(** (store.go, UpdateProjectStatusWithRetry): guarded by the version alone,
    the loop can write one lifetime's status over another's. With an
    interference that keeps the contract of every writer, a loop called for a
    Project running on Node "a" reports success after overwriting its
    same-name successor, which runs on Node "b" and has never been on "a": the
    successor's row now names Node "a", with no obligation for Node "b", so
    the contract is broken. *)
Theorem version_swap_crosses_lifetimes :
  let m := (λ s, Ok (note_condition s)) in
  let d0 := example_db (running_status "a") 3 in
  let x := run (UpdateProjectStatusWithRetry "shop" m) recreation d0 [] in
  @db_inv counter_uuids d0 ∧ @schedule_ok counter_uuids recreation ∧
  result_of x = Ok () ∧
  ∃ d1 r1 r2, history_of x = [Wrote d1 (db_of x); Published TopicProjectUpdated "shop"] ∧
    project_at d1 "shop" = Some r1 ∧ project_at (db_of x) "shop" = Some r2 ∧
    row_UID r1 = counter_uuid 1 ∧ row_UID r2 = counter_uuid 1 ∧
    st_NodeRef (row_status r1) = "b"%string ∧ st_NodeRef (row_status r2) = "a"%string ∧
    obligations (row_status r2) = [] ∧
    ¬ @others counter_uuids d1 (db_of x).
Proof.
  cbv zeta. split; [apply example_running_inv|]. split.
  { constructor; [|constructor; [|constructor]]; (split; [|done]); simpl.
    - intros d _. by split.
    - intros d _; apply recreate_others. }
  split; [vm_compute; reflexivity|].
  set (x := run _ _ _ _).
  assert (∃ d1 r1 r2, history_of x = [Wrote d1 (db_of x); Published TopicProjectUpdated "shop"] ∧
    project_at d1 "shop" = Some r1 ∧ project_at (db_of x) "shop" = Some r2 ∧
    row_UID r1 = counter_uuid 1 ∧ row_UID r2 = counter_uuid 1 ∧
    row_status r1 = running_status "b" ∧ row_status r2 = note_condition (running_status "a") ∧
    db_Issued d1 = 2 ∧ db_Issued (db_of x) = 2)
    as (d1 & r1 & r2 & Hh & H1 & H2 & Hu1 & Hu2 & Hs1 & Hs2 & Hi1 & Hi2).
  { vm_compute. eexists _, _, _. split_and!; reflexivity. }
  exists d1, r1, r2. rewrite Hs1, Hs2. split_and!; try done.
  intros [Hev _]. destruct (de_rows _ _ Hev _ _ H2) as [(r & Hr & He)|(k & Hk & _)].
  - unfold project_at in H1. rewrite H1 in Hr. injection Hr as <-.
    pose proof (se_holder _ _ _ (re_status _ _ He)) as Hh2. rewrite Hs1, Hs2 in Hh2.
    destruct (Hh2 eq_refl) as [?|?]; discriminate.
  - lia.
Qed.
