(* ===== verification/Legality.v ===== *)
(** When a change of status keeps the contract of Evolution.v: one lemma per
    kind of change the program makes. A change that leaves the lifecycle
    fields and the obligations alone always does; the others are a phase report
    of the Agent, a new assignment, a release, a deletion and a piece of
    evidence on one obligation. *)
From Stdlib Require Import ZArith Lia.
From stdpp Require Import prelude gmap strings.
From S2P Require Import Prelude.
From S2P Require Import Conditions.
From S2P Require Import ProjectTypes.
From S2P Require Import Lifecycle.
From S2P Require Import Database.
From S2P Require Import Evolution.
From S2P Require Import StatusStore.
Import GoTime GoInt GoError.

(** ** Lookup through the status *)

Lemma FindObligation_status s a :
  FindObligation (st_Recovery s) a = find_first (is_for a) (obligations s).
Proof. unfold FindObligation, obligations, EnsureRecovery. by destruct (st_Recovery s). Qed.

Lemma FindObligation_ensure s a :
  FindObligation (Some (EnsureRecovery s)) a = FindObligation (st_Recovery s) a.
Proof. rewrite FindObligation_status. done. Qed.

Lemma FindObligation_status_elem s a :
  is_Some (FindObligation (st_Recovery s) a) ↔ a ∈ (ob_Assignment <$> obligations s).
Proof. rewrite <- FindObligation_ensure. apply FindObligation_is_Some. Qed.

Lemma obligations_evolve_status s s' :
  obligations s' = obligations s → obligations_evolve (st_Recovery s) (st_Recovery s').
Proof.
  intros Heq a o Ho. exists o. split; [|done]. rewrite FindObligation_status in *. congruence.
Qed.

(** ** Changes that leave the core alone *)

Record same_core (s s' : ProjectStatus) : Prop := {
  sc_phase : st_Phase s' = st_Phase s;
  sc_node : st_NodeRef s' = st_NodeRef s;
  sc_generation : st_AssignmentGeneration s' = st_AssignmentGeneration s;
  sc_history : st_AssignmentHistory s' = st_AssignmentHistory s;
  sc_observed : st_ObservedSpecRevision s' = st_ObservedSpecRevision s;
  sc_obligations : obligations s' = obligations s;
  sc_stanzas : stanzas s' = stanzas s
}.

#[export] Instance same_core_equivalence : Equivalence same_core.
Proof.
  split.
  - intros s. by split.
  - intros s s' []. by split.
  - intros s1 s2 s3 [] []. split; congruence.
Qed.

Lemma assignment_of_core uid s s' :
  st_NodeRef s' = st_NodeRef s → st_AssignmentGeneration s' = st_AssignmentGeneration s →
  assignment_of uid s' = assignment_of uid s.
Proof. unfold assignment_of. congruence. Qed.

(** The invariant reads nothing but the core. *)
Lemma status_inv_core uid s s' : same_core s s' → status_inv uid s → status_inv uid s'.
Proof.
  intros Hc Hi. destruct Hc as [E1 E2 E3 E4 E5 E6 E7], Hi. unfold generations in *.
  split; unfold generations; rewrite ?E1, ?E2, ?E3, ?E4, ?E5, ?E6; auto.
Qed.

(** The contract, for a change that keeps the core except what a phase report,
    an appended stanza or an observed revision changes. *)
Lemma legal_kept uid rev s s' :
  status_inv uid s →
  st_NodeRef s' = st_NodeRef s → st_AssignmentGeneration s' = st_AssignmentGeneration s →
  st_AssignmentHistory s' = st_AssignmentHistory s → obligations s' = obligations s →
  (st_Phase s' = ProjectPhasePending → st_Phase s = ProjectPhasePending) →
  (deleting s → deleting s') →
  (st_Phase s = ProjectPhaseTerminated → st_Phase s' = ProjectPhaseTerminated) →
  (st_ObservedSpecRevision s ≤ st_ObservedSpecRevision s' ≤ Z.max (st_ObservedSpecRevision s) rev)%Z →
  stanzas s `prefix_of` stanzas s' →
  legal uid rev s s'.
Proof.
  intros Hi En Eg Eh Eo Hp Hd Ht Hobs Hst. split; [|split|lia|lia].
  - destruct Hi. unfold generations in *.
    split; unfold generations; rewrite ?En, ?Eg, ?Eh, ?Eo; auto. lia.
  - lia.
  - auto.
  - by apply obligations_evolve_status.
  - intros _. left. by apply assignment_of_core.
  - auto.
  - done.
  - lia.
  - done.
  - congruence.
Qed.

Lemma legal_core uid rev s s' : status_inv uid s → same_core s s' → legal uid rev s s'.
Proof.
  intros Hi []. apply legal_kept; try done; unfold deleting; try congruence; try lia.
  rewrite sc_stanzas0. done.
Qed.

Lemma same_core_Conditions cs s : same_core s (st_with_Conditions cs s).
Proof. by split. Qed.
Lemma same_core_FailedNodes ns s : same_core s (st_with_FailedNodes ns s).
Proof. by split. Qed.
Lemma same_core_Recovery f s :
  (∀ r, rec_CleanupObligations (f r) = rec_CleanupObligations r) →
  same_core s (update_recovery f s).
Proof. intros Hf. split; try done. apply Hf. Qed.
Lemma same_core_set_Recovery r r' s :
  st_Recovery s = Some r → rec_CleanupObligations r' = rec_CleanupObligations r →
  same_core s (st_with_Recovery (Some r') s).
Proof.
  intros Hr Hf. split; try done. unfold obligations, EnsureRecovery. rewrite Hr. done.
Qed.

#[export] Hint Resolve same_core_Conditions same_core_FailedNodes : cara.

(** ** Phase reports of the Agent *)

Lemma agent_phase_facts from to :
  PhaseTransitionAllowed WriterAgent from to = true →
  to ≠ ProjectPhasePending ∧ (from = ProjectPhaseTerminating → to = ProjectPhaseTerminated) ∧
  (from = ProjectPhaseTerminated → to = ProjectPhaseTerminated).
Proof.
  intros [He|(-> & _ & Hto)]%allowed_cases.
  - vm_compute in He. split_elem He; done.
  - naive_solver.
Qed.

Lemma legal_agent_phase uid rev s phase :
  status_inv uid s → PhaseTransitionAllowed WriterAgent (st_Phase s) phase = true →
  legal uid rev s (st_with_Phase phase s).
Proof.
  intros Hi (Hp & Hg & Ht)%agent_phase_facts.
  apply legal_kept; try done; simpl; try lia; unfold deleting; simpl; naive_solver.
Qed.

(** ** Obligations *)

(** The list has grown by at most the entry of the assignment held in [s]. *)
Record extended (uid : string) (s s' : ProjectStatus) : Prop := {
  ex_evolve : obligations_evolve (st_Recovery s) (st_Recovery s');
  ex_list : ∃ extra,
    ob_Assignment <$> obligations s' = (ob_Assignment <$> obligations s) ++ extra ∧
    (extra = [] ∨
     (extra = [assignment_of uid s] ∧ st_NodeRef s ≠ EmptyString ∧
      assignment_of uid s ∉ (ob_Assignment <$> obligations s)))
}.

Lemma generations_spec g s :
  g ∈ generations s ↔ ∃ a, a ∈ (ob_Assignment <$> obligations s) ∧ ai_Generation a = g.
Proof.
  unfold generations. rewrite list_elem_of_fmap. setoid_rewrite list_elem_of_fmap.
  naive_solver.
Qed.

Lemma lifetime_spec uid gen s :
  (∀ o, o ∈ obligations s → ProjectUID (ob_Assignment o) = uid ∧
     (1 ≤ ai_Generation (ob_Assignment o) ≤ gen)%Z) ↔
  (∀ a, a ∈ (ob_Assignment <$> obligations s) → ProjectUID a = uid ∧ (1 ≤ ai_Generation a ≤ gen)%Z).
Proof.
  split.
  - intros Hx a (o & -> & Ho)%list_elem_of_fmap. auto.
  - intros Hx o Ho. apply Hx, list_elem_of_fmap. eauto.
Qed.

Lemma extended_inv uid s s' :
  status_inv uid s → extended uid s s' →
  NoDup (ob_Assignment <$> obligations s') ∧
  (∀ o, o ∈ obligations s' → ProjectUID (ob_Assignment o) = uid ∧
     (1 ≤ ai_Generation (ob_Assignment o) ≤ st_AssignmentGeneration s)%Z) ∧
  (∀ g, g ∈ generations s → g ∈ generations s').
Proof.
  intros Hi [_ (extra & Heq & Hex)]. split; [|split].
  - rewrite Heq, NoDup_app. split; [apply Hi|].
    destruct Hex as [->|(-> & _ & Hni)].
    + split; [intros ?? []%elem_of_nil|constructor].
    + split; [|apply NoDup_singleton]. intros x Hx ->%list_elem_of_singleton. done.
  - apply lifetime_spec. intros a. rewrite Heq, elem_of_app.
    intros [Ha|Ha].
    + revert a Ha. apply lifetime_spec. apply Hi.
    + destruct Hex as [->|(-> & Hn & _)]; [by apply elem_of_nil in Ha|].
      apply list_elem_of_singleton in Ha as ->. simpl. split; [done|].
      pose proof (si_assigned _ _ Hi Hn). lia.
  - intros g. rewrite !generations_spec, Heq. setoid_rewrite elem_of_app. naive_solver.
Qed.

Lemma extended_obligation uid s f :
  st_NodeRef s ≠ EmptyString →
  (∀ r, ∃ t k,
     (∀ b, FindObligation (Some (f r)) b =
        if decide (b = assignment_of uid s)
        then Some (from_option (λ o, o) (new_obligation (assignment_of uid s) t k)
                     (FindObligation (Some r) (assignment_of uid s)))
        else FindObligation (Some r) b) ∨
     (∀ b, FindObligation (Some (f r)) b =
        if decide (b = assignment_of uid s)
        then Some (from_option (ob_with_Authorization k) (new_obligation (assignment_of uid s) t k)
                     (FindObligation (Some r) (assignment_of uid s)))
        else FindObligation (Some r) b)) →
  (∀ r, ob_Assignment <$> rec_CleanupObligations (f r) =
     (ob_Assignment <$> rec_CleanupObligations r) ++
     match FindObligation (Some r) (assignment_of uid s) with
     | Some _ => [] | None => [assignment_of uid s] end) →
  extended uid s (update_recovery f s).
Proof.
  intros Hn Hfind Hlist. split.
  - intros a o Ho. simpl. rewrite <- FindObligation_ensure in Ho.
    destruct (Hfind (EnsureRecovery s)) as (t & k & [Hf|Hf]); rewrite Hf; case_decide as Ha; subst;
      rewrite ?Ho; simpl; eexists; (split; [reflexivity|]); try done.
  - eexists. split; [apply Hlist|].
    destruct (FindObligation (Some (EnsureRecovery s)) _) eqn:E; [by left|]. right.
    split_and!; [done|done|]. by apply FindObligation_None_iff in E.
Qed.

Lemma extended_AddObligation uid s t k :
  st_NodeRef s ≠ EmptyString →
  extended uid s (update_recovery (AddObligation (assignment_of uid s) t k) s).
Proof.
  intros Hn. apply extended_obligation; [done| |].
  - intros r. exists t, k. left. intros b. rewrite AddObligation_find.
    by destruct (FindObligation (Some r) (assignment_of uid s)).
  - intros r. rewrite AddObligation_obligations, fmap_app.
    by destruct (FindObligation (Some r) (assignment_of uid s)).
Qed.

Lemma extended_OverrideRelease uid s t :
  st_NodeRef s ≠ EmptyString →
  extended uid s (update_recovery (OverrideRelease (assignment_of uid s) t) s).
Proof.
  intros Hn. apply extended_obligation; [done| |].
  - intros r. exists t, ReleaseByOperatorOverride. right. intros b. by rewrite OverrideRelease_find.
  - intros r. apply OverrideRelease_assignments.
Qed.

(** A write through one obligation's pointer extends nothing. *)
Lemma extended_edit uid s a g r r' :
  st_Recovery s = Some r →
  (∀ o, obligation_evolves o (g o)) →
  edit_obligation a g r = Some r' →
  extended uid s (st_with_Recovery (Some r') s).
Proof.
  intros Hr Hg He. pose proof (λ o, oe_assignment _ _ (Hg o)) as Hga. split.
  - intros b o Ho. simpl. rewrite Hr in Ho.
    rewrite (edit_obligation_find a g r r') by done. case_decide as Hb; subst.
    + rewrite Ho. simpl. eauto.
    + exists o. by split.
  - exists []. rewrite app_nil_r. split; [|by left]. unfold obligations, EnsureRecovery; simpl.
    rewrite Hr. simpl. by apply edit_obligation_assignments in He.
Qed.

Lemma extended_OweManagedData uid s s' a :
  st_Recovery s' ≠ None → extended uid s s' →
  extended uid s (update_recovery (OweManagedData a) s').
Proof.
  intros Hr [Hev (extra & Heq & Hex)]. split.
  - intros b o Ho. destruct (Hev b o Ho) as (o' & Ho' & He). simpl.
    rewrite OweManagedData_find, !FindObligation_ensure. case_decide as Hb; subst; [|eauto].
    rewrite Ho'. simpl. eexists. split; [done|]. trans o'; [done|]. by split.
  - exists extra. split; [|done]. rewrite <- Heq. apply OweManagedData_assignments.
Qed.

(** [extended] reads nothing of the new status but its recovery record. *)
Lemma extended_recovery uid s s1 s2 :
  st_Recovery s2 = st_Recovery s1 → extended uid s s1 → extended uid s s2.
Proof.
  intros Hr [Hev Hl]. assert (obligations s2 = obligations s1) as Ho
    by (unfold obligations, EnsureRecovery; by rewrite Hr).
  split; [by rewrite Hr|by rewrite Ho].
Qed.

(** An override of an entry the list already has. *)
Lemma extended_override_known uid s a t :
  is_Some (FindObligation (st_Recovery s) a) →
  extended uid s (update_recovery (OverrideRelease a t) s).
Proof.
  intros [o Ho]. rewrite <- FindObligation_ensure in Ho. split.
  - intros b o' Ho'. simpl. rewrite <- FindObligation_ensure in Ho'.
    rewrite OverrideRelease_find. case_decide as Hb; subst; [|by eexists].
    rewrite Ho'. simpl. eexists. split; [done|]. by split.
  - exists []. rewrite app_nil_r. split; [|by left].
    change (obligations (update_recovery (OverrideRelease a t) s))
      with (rec_CleanupObligations (OverrideRelease a t (EnsureRecovery s))).
    rewrite OverrideRelease_assignments, Ho. by rewrite app_nil_r.
Qed.

(** ** Evidence on an obligation *)

Lemma legal_extended_kept uid rev s s' :
  status_inv uid s → extended uid s s' →
  st_Phase s' = st_Phase s → st_NodeRef s' = st_NodeRef s →
  st_AssignmentGeneration s' = st_AssignmentGeneration s →
  st_AssignmentHistory s' = st_AssignmentHistory s →
  st_ObservedSpecRevision s' = st_ObservedSpecRevision s → stanzas s' = stanzas s →
  legal uid rev s s'.
Proof.
  intros Hi Hex E1 E2 E3 E4 E5 E6. destruct (extended_inv uid s s' Hi Hex) as (Hnd & Hl & Hg).
  pose proof Hi as [].
  split; [|split|lia|lia]; unfold deleting; rewrite ?E1, ?E3, ?E4, ?E5, ?E6; try done; try lia.
  - split; rewrite ?E1, ?E2, ?E3, ?E4, ?E5; auto.
    intros g Hrange. destruct (si_complete g Hrange); auto.
  - auto.
  - apply Hex.
  - intros _. left. by apply assignment_of_core.
Qed.

(** ** Entering deletion *)

Lemma legal_delete uid rev s s' :
  status_inv uid s → ¬ deleting s → extended uid s s' →
  st_Phase s' = ProjectPhaseTerminating → st_NodeRef s' = st_NodeRef s →
  st_AssignmentGeneration s' = st_AssignmentGeneration s →
  st_AssignmentHistory s' = st_AssignmentHistory s →
  st_ObservedSpecRevision s' = st_ObservedSpecRevision s → stanzas s' = stanzas s →
  legal uid rev s s'.
Proof.
  intros Hi Hnd0 Hex E1 E2 E3 E4 E5 E6. destruct (extended_inv uid s s' Hi Hex) as (Hnd & Hl & Hg).
  pose proof Hi as [].
  split; [|split|lia|lia]; rewrite ?E3, ?E4, ?E5, ?E6; try done; try lia.
  - split; rewrite ?E1, ?E2, ?E3, ?E4, ?E5; auto; try done.
    intros g Hrange. destruct (si_complete g Hrange); auto.
  - auto.
  - apply Hex.
  - intros _. left. by apply assignment_of_core.
  - intros HT. exfalso. apply Hnd0. by right.
Qed.

(** ** Releasing an assignment *)

Lemma legal_release uid rev s s' :
  status_inv uid s → ¬ deleting s → st_NodeRef s ≠ EmptyString → extended uid s s' →
  is_Some (FindObligation (st_Recovery s') (assignment_of uid s)) →
  st_NodeRef s' = EmptyString → ¬ deleting s' →
  st_AssignmentGeneration s' = st_AssignmentGeneration s →
  st_AssignmentHistory s' = st_AssignmentHistory s →
  st_ObservedSpecRevision s' = st_ObservedSpecRevision s → stanzas s' = stanzas s →
  legal uid rev s s'.
Proof.
  intros Hi Hnd0 Hn Hex Hfind E2 Hnd1 E3 E4 E5 E6.
  destruct (extended_inv uid s s' Hi Hex) as (Hnd & Hl & Hg).
  pose proof Hi as [].
  split; [|split|lia|lia]; rewrite ?E3, ?E4, ?E5, ?E6; try done; try lia.
  - split; rewrite ?E2, ?E3, ?E4, ?E5; auto; try done.
    intros g Hrange. left. destruct (si_complete g Hrange) as [Hin|[-> _]]; [auto|].
    apply generations_spec. exists (assignment_of uid s). split; [|done].
    by apply FindObligation_status_elem.
  - auto.
  - apply Hex.
  - auto.
  - intros HT. exfalso. apply Hnd0. by right.
Qed.

(** ** Granting an assignment *)

Lemma legal_grant uid rev s s' :
  status_inv uid s → st_Phase s = ProjectPhasePending →
  (st_AssignmentGeneration s < max_int64)%Z →
  obligations s' = obligations s → st_Phase s' = ProjectPhaseScheduled →
  st_NodeRef s' ≠ EmptyString → st_AssignmentGeneration s' = add64 (st_AssignmentGeneration s) 1 →
  st_AssignmentHistory s' = AssignmentHistoryKnown →
  st_ObservedSpecRevision s' = st_ObservedSpecRevision s → stanzas s' = stanzas s →
  legal uid rev s s'.
Proof.
  intros Hi HP Hmax Eo E1 E2 E3 E4 E5 E6. pose proof Hi as [].
  rewrite add64_id in E3 by (unfold in_int64, min_int64; lia).
  assert (st_NodeRef s = EmptyString) as Hno by auto.
  split; [|split|lia|lia]; rewrite ?E3, ?E4, ?E5, ?E6; try done; try lia.
  - split; rewrite ?E1, ?E3, ?E4, ?E5, ?Eo; try done; try lia.
    + intros o Ho. destruct (si_lifetime o Ho). split; [done|lia].
    + intros g Hrange. unfold generations. rewrite Eo.
      destruct (decide (g = st_AssignmentGeneration s + 1)%Z) as [->|Hne]; [by right|].
      left. destruct (si_complete g ltac:(lia)) as [?|[_ ?]]; done.
  - by apply obligations_evolve_status.
  - intros [HD|HD]; rewrite HP in HD; done.
  - intros HD. rewrite HP in HD. done.
Qed.

(** ** Programs that keep the contract *)

Lemma wp_keeps_inv `{UUIDSource} {A} (Rel G : DB → DB → Prop) (p : prog A) Q d h :
  (∀ d1 d2, Rel d1 d2 → others d1 d2) → (∀ d1 d2, G d1 d2 → others d1 d2) →
  db_inv d → wp Rel G p Q d h → wp Rel G p (λ a d' h', Q a d' h' ∧ db_inv d') d h.
Proof.
  intros HR HG. revert d h.
  assert (∀ d1 d2, Rel d1 d2 → db_inv d1 → db_inv d2) as HRi by (intros ?? [_ ?]%HR; done).
  assert (∀ d1 d2, G d1 d2 → db_inv d1 → db_inv d2) as HGi by (intros ?? [_ ?]%HG; done).
  induction p as [a|R q k IH|R q k IH|k IH|t n k IH]; intros d h Hinv Hw.
  - exact (conj Hw Hinv).
  - intros d1 Hd. destruct (Hw d1 Hd) as [H1 H2].
    split; [|intros e He]; (apply IH; [by eauto|]); [exact H1|exact (H2 e He)].
  - intros d1 Hd. destruct (Hw d1 Hd) as [H1 H2].
    assert (db_inv d1) as Hinv1 by eauto.
    split; [intros e He; apply IH; [done|exact (H1 e He)]|].
    destruct (q d1) as [[r [d2|]]|e]; [|by apply IH..].
    destruct H2 as (HGd & H2 & H3). split; [done|].
    assert (db_inv d2) as Hinv2 by eauto.
    split; [by apply IH|]. intros e He. apply IH; [done|exact (H3 e He)].
  - intros t d1 Hd. apply IH; [by eauto|]. exact (Hw t d1 Hd).
  - apply IH; [done|exact Hw].
Qed.

Section safe.
Context `{UUIDSource} (Rel : DB → DB → Prop).
Context (Rel_trans : ∀ d1 d2 d3, Rel d1 d2 → Rel d2 d3 → Rel d1 d3).
Context (Rel_others : ∀ d d', Rel d d' → others d d').

(** Every write of [p] keeps the contract, whatever the others do between its
    steps. *)
Definition safe {A} (p : prog A) : Prop :=
  ∀ d h, db_inv d → wp Rel others_unforced p (λ _ d' _, db_inv d') d h.

Lemma safe_of_wp {A} (p : prog A) (Q : DB → list Event → A → DB → list Event → Prop) :
  (∀ d h, db_inv d → wp Rel others_unforced p (Q d h) d h) → safe p.
Proof.
  intros Hw d h Hinv. eapply wp_mono; [|eapply wp_keeps_inv; eauto].
  - by intros a d' h' [_ ?].
  - by intros d1 d2 [? _].
Qed.

Lemma safe_ret {A} (a : A) : safe (Ret a).
Proof. intros d h Hinv. by apply wp_ret. Qed.

Lemma safe_bind {A B} (p : prog A) (k : A → prog B) :
  safe p → (∀ a, safe (k a)) → safe (p ≫= k).
Proof.
  intros Hp Hk d h Hinv. apply wp_bind. eapply wp_mono; [|by apply Hp].
  intros a d' h' Hinv'. by apply Hk.
Qed.

Lemma safe_fmap {A B} (f : A → B) (p : prog A) : safe p → safe (f <$> p).
Proof. intros Hp. apply safe_bind; [done|]. intros a. apply safe_ret. Qed.

Lemma safe_try_bind {A B} (p : prog (result A)) (k : A → prog (result B)) :
  safe p → (∀ a, safe (k a)) → safe (try_bind p k).
Proof. intros Hp Hk. apply safe_bind; [done|]. intros [a|e]; [done|apply safe_ret]. Qed.

Lemma safe_query {R : Set} (q : DB → result R) : safe (query q).
Proof. intros d h Hinv. apply wp_query; intros; by eapply Rel_others. Qed.

Lemma safe_now : safe now_.
Proof. intros d h Hinv. apply wp_now. intros t d1 Hd. by eapply Rel_others. Qed.

Lemma safe_publish topic name : safe (publish topic name).
Proof. intros d h Hinv. by apply wp_publish. Qed.

Lemma safe_exec {R : Set} (q : DB → result (R * option DB)) :
  (∀ d r d', db_inv d → q d = Ok (r, Some d') → others_unforced d d') → safe (exec q).
Proof.
  intros Hq. apply (safe_of_wp _ (λ _ _ _ _ _, True)). intros d h Hinv. apply wp_exec; [done|].
  intros d1 Hd. destruct (q d1) as [[r [d2|]]|e] eqn:E; [|done..].
  split_and!; [|done|done]. eapply Hq; [|done]. by eapply Rel_others.
Qed.

Lemma safe_getProject name : safe (getProject name).
Proof. apply safe_bind; [apply safe_query|]. intros a. apply safe_ret. Qed.

Lemma safe_list what f : safe (list_projects what f).
Proof. apply safe_bind; [apply safe_query|]. intros a. apply safe_ret. Qed.

Lemma safe_classify what name f : safe (classify what name f).
Proof. apply safe_bind; [apply safe_getProject|]. intros a. apply safe_ret. Qed.

(** A legal change of one row is a write the guarantee admits. *)
Lemma legal_admits name r s' rev :
  row_inv r → (rev ≤ row_SpecRevision r)%Z →
  ((st_AssignmentGeneration (row_status r) < max_int64)%Z →
     legal (row_UID r) rev (row_status r) s') →
  G_admits others_unforced name r s'.
Proof.
  intros Hri Hrev Hl d now Hinv Hr Hmax. eapply (commit_others name r s' now rev); try done.
  apply Hl. pose proof (ri_generation _ Hri). lia.
Qed.

Lemma safe_uid {X} name uid (mutate : mutation X) (M : X → ProjectRow → result ProjectStatus → Prop) x :
  (∀ x r d h, db_inv d → row_inv r → row_UID r = uid → project_at d name = Some r →
     wp Rel others_unforced (mutate x (row_status r)) (λ '(x', res) d' h',
       h' = h ∧ (∀ d'', Rel d' d'' → Rel d d'') ∧ True ∧
       ∀ d'', Rel d' d'' → project_at d'' name = Some r → M x' r res) d h) →
  (∀ x r s', row_inv r → row_UID r = uid →
     (st_AssignmentGeneration (row_status r) < max_int64)%Z → M x r (Ok s') →
     legal uid 0 (row_status r) s') →
  safe (updateProjectStatusForUID name uid mutate x).
Proof.
  intros HM Hl. eapply safe_of_wp. intros d h Hinv.
  eapply (wp_updateProjectStatusForUID Rel others_unforced) with (N := λ _ _ _, True); try done.
  intros x' r s' Hri Hu Hm. apply (legal_admits _ _ _ 0); [done| |].
  - pose proof (ri_observed _ Hri). pose proof (si_observed _ _ (ri_status _ Hri)). lia.
  - intros Hmax. rewrite Hu. by eapply Hl.
Qed.

Lemma safe_UpdateProjectStatusForUID name uid mutate :
  (∀ s s', status_inv uid s → (st_AssignmentGeneration s < max_int64)%Z →
     mutate s = Ok s' → legal uid 0 s s') →
  safe (UpdateProjectStatusForUID name uid mutate).
Proof.
  intros Hl. apply safe_fmap. apply (safe_uid _ _ _ (λ _ r res, mutate (row_status r) = res)).
  - intros x r d h _ _ _ _. apply wp_ret. auto.
  - intros x r s' Hri Hu Hmax Hm. apply Hl; [rewrite <- Hu; apply Hri|done|done].
Qed.

Lemma safe_fenced name ref mutate :
  (∀ r s', row_inv r → fence_of (row_UID r) (row_status r) = ref →
     mutate (p_Meta (project_of_row (project_key name) r)) (row_status r) = Ok s' →
     legal (row_UID r) (row_SpecRevision r) (row_status r) s') →
  safe (reportProjectStatusFenced name ref mutate).
Proof.
  intros Hl. eapply safe_of_wp. intros d h Hinv.
  eapply (wp_reportProjectStatusFenced Rel others_unforced); try done.
  intros r s' Hri Hf Hm. apply (legal_admits _ _ _ (row_SpecRevision r)); [done|lia|]. auto.
Qed.

Lemma safe_ReportProjectStatusFenced name ref mutate :
  (∀ uid s s', status_inv uid s → fence_of uid s = ref → mutate s = Ok s' → legal uid 0 s s') →
  safe (ReportProjectStatusFenced name ref mutate).
Proof.
  intros Hl. apply safe_fenced. intros r s' Hri Hf Hm.
  destruct (Hl (row_UID r) (row_status r) s' (ri_status _ Hri) Hf Hm) as [? ? ? Ho].
  split; [done..|]. pose proof (ri_observed _ Hri). pose proof (si_observed _ _ (ri_status _ Hri)). lia.
Qed.

(** The version-guarded loop needs that the name is not given to another
    lifetime while it runs. *)
Lemma safe_version name mutate :
  (∀ d d' r r', Rel d d' → project_at d name = Some r →
     project_at d' name = Some r' → row_UID r' = row_UID r) →
  (∀ uid s s', status_inv uid s → (st_AssignmentGeneration s < max_int64)%Z →
     mutate s = Ok s' → legal uid 0 s s') →
  safe (UpdateProjectStatusWithRetry name mutate).
Proof.
  intros Hname Hl. eapply safe_of_wp. intros d h Hinv.
  eapply (wp_UpdateProjectStatusWithRetry Rel others_unforced); try done.
  intros r s' Hri Hm. apply (legal_admits _ _ _ 0); [done| |].
  - pose proof (ri_observed _ Hri). pose proof (si_observed _ _ (ri_status _ Hri)). lia.
  - intros Hmax. apply Hl; [apply Hri|done|done].
Qed.
End safe.

(** ** Names that are not reused *)

(** [life] says which lifetime each name belongs to. *)
Definition named (life : string * string → string) (d : DB) : Prop :=
  ∀ key r, db_Projects d !! key = Some r → row_UID r = life key.

(** Interference in which no name is given to a second lifetime. *)
Definition steady `{UUIDSource} (life : string * string → string) (d d' : DB) : Prop :=
  others d d' ∧ named life d ∧ named life d'.

Lemma steady_trans `{UUIDSource} life d1 d2 d3 : steady life d1 d2 → steady life d2 d3 → steady life d1 d3.
Proof. intros (? & ? & _) (? & _ & ?). split_and!; [by trans d2|done|done]. Qed.
Lemma steady_others `{UUIDSource} life d d' : steady life d d' → others d d'.
Proof. by intros [? _]. Qed.
Lemma steady_name `{UUIDSource} life name d d' r r' :
  steady life d d' → project_at d name = Some r → project_at d' name = Some r' →
  row_UID r' = row_UID r.
Proof. intros (_ & H1 & H2) Hr Hr'. rewrite (H1 _ _ Hr), (H2 _ _ Hr'). done. Qed.
Lemma others_trans `{UUIDSource} d1 d2 d3 : others d1 d2 → others d2 d3 → others d1 d3.
Proof. intros. by trans d2. Qed.

(** What is safe among arbitrary others is safe among steady ones. *)
Lemma safe_steady `{UUIDSource} {A} (p : prog A) life :
  safe others p → safe (steady life) p.
Proof.
  intros Hp d h Hinv. eapply wp_rely_mono; [|done|by apply Hp]. intros d1 d2 [? _]. done.
Qed.

#[export] Hint Resolve others_trans steady_trans steady_others steady_name : cara.
#[export] Hint Resolve safe_ret safe_getProject safe_list safe_classify safe_publish safe_now
  safe_query : safe.
