(* ===== verification/EvidenceStore.v ===== *)
(** The writes an Agent makes to the Projects it holds or still owes cleanup
    for (internal/store/postgres/store.go): evidence, backups, stanzas, spec
    reports, and single conditions. *)
From Stdlib Require Import ZArith Lia.
From stdpp Require Import prelude gmap strings.
From S2P Require Import Prelude.
From S2P Require Import Conditions.
From S2P Require Import ProjectTypes.
From S2P Require Import Lifecycle.
From S2P Require Import Database.
From S2P Require Import Evolution.
From S2P Require Import StatusStore.
From S2P Require Import Legality.
Import GoTime GoInt GoString GoError.

(** [fmt.Errorf("%w: project %q is %s; ...", store.ErrConflictState, ...)]. *)
Definition phase_err (name : string) (phase : ProjectPhase) (rest : string) : error :=
  Wrap EmptyString (Sentinel ErrConflictState)
    (": project " ++ Quote name ++ " is " ++ phase ++ rest)%string.

(** ** Evidence of the assigned Agent *)

Definition workloadStoppedPhases (p : ProjectPhase) : bool :=
  bool_decide (p ∈ [ProjectPhaseScheduled; ProjectPhaseRunning; ProjectPhaseFailed; ProjectPhaseTerminating]).

Definition workload_stopped (name : string) (ref : AssignmentRef) (observedAt : Time)
    (status : ProjectStatus) : result ProjectStatus :=
  let evidence := assignmentIdentity ref in
  if negb (workloadStoppedPhases (st_Phase status)) then
    Err (phase_err name (st_Phase status)
      "; workload-stopped evidence is accepted only while Scheduled, Running, Failed or Terminating")
  else if WorkloadStoppedFor (st_Recovery status) evidence then Ok status
  else Ok (update_recovery (rec_with_WorkloadStopped
             (Some {| ws_Assignment := evidence; ws_ObservedAt := observedAt |})) status).

Definition RecordWorkloadStopped (name : string) (ref : AssignmentRef) (observedAt : Time)
    : prog (result ()) :=
  ReportProjectStatusFenced name ref (workload_stopped name ref observedAt).

Definition committedBackupPhases (p : ProjectPhase) : bool :=
  bool_decide (p ∈ [ProjectPhaseScheduled; ProjectPhaseRunning; ProjectPhaseFailed]).

Definition committed_backup (name : string) (ref : AssignmentRef) (backupID : string)
    (committedAt : Time) (status : ProjectStatus) : result ProjectStatus :=
  if negb (committedBackupPhases (st_Phase status)) then
    Err (phase_err name (st_Phase status) "; a backup is committed only while Scheduled, Running or Failed")
  else if decide (CommittedBackupID (st_Recovery status) = backupID) then Ok status
  else Ok (update_recovery (rec_with_CommittedBackup
             (Some {| cb_BackupID := backupID; cb_Assignment := assignmentIdentity ref;
                      cb_CommittedAt := committedAt |})) status).

Definition RecordCommittedBackup (name : string) (ref : AssignmentRef) (backupID : string)
    (committedAt : Time) : prog (result ()) :=
  ReportProjectStatusFenced name ref (committed_backup name ref backupID committedAt).

Definition stanzaPhases (p : ProjectPhase) : bool :=
  bool_decide (p ∈ [ProjectPhaseScheduled; ProjectPhaseRunning]).

Definition empty_backup : ProjectBackupStatus := {| bk_Stanzas := []; bk_Completions := [] |}.

Definition stanza_record (name : string) (ref : AssignmentRef) (volume : string) (observedAt : Time)
    (status : ProjectStatus) : result ProjectStatus :=
  let stanza := StanzaName (ref_UID ref) volume in
  if negb (stanzaPhases (st_Phase status)) then
    Err (phase_err name (st_Phase status) "; stanzas are recorded only while Scheduled or Running")
  else if HasStanza (st_Backup status) stanza then Ok status
  else
    let b := default empty_backup (st_Backup status) in
    Ok (st_with_Backup
          (Some {| bk_Stanzas := bk_Stanzas b ++
                     [{| stz_Name := stanza; stz_Volume := volume; stz_RecordedAt := observedAt |}];
                   bk_Completions := bk_Completions b |}) status).

Definition RecordStanza (name : string) (ref : AssignmentRef) (volume : string) (observedAt : Time)
    : prog (result ()) :=
  ReportProjectStatusFenced name ref (stanza_record name ref volume observedAt).

(** ** Backup completions *)

Definition backupActive (conds : list Condition) : bool :=
  match condition_of ConditionTypeBackupActive conds with
  | Some c => bool_decide (cond_Status c = ConditionTrue)
  | None => false
  end.

Definition bcp_with_assignment (ref : AssignmentRef) (c : BackupCompletion) : BackupCompletion :=
  {| bcp_BackupID := bcp_BackupID c; bcp_NodeRef := ref_NodeRef ref;
     bcp_AssignmentGeneration := ref_Generation ref; bcp_AcceptedAt := bcp_AcceptedAt c;
     bcp_ManifestKey := bcp_ManifestKey c; bcp_Items := bcp_Items c |}.

(** slices.Delete(xs, 0, over) when the list is over the bound. *)
Definition trim_completions (xs : list BackupCompletion) : list BackupCompletion :=
  drop (length xs - MaxBackupCompletions) xs.

Definition backup_completion (name : string) (ref : AssignmentRef) (completion : BackupCompletion)
    (status : ProjectStatus) : result ProjectStatus :=
  match Completion (st_Backup status) (bcp_BackupID completion) with
  | Some _ => Ok status
  | None =>
      if negb (bool_decide (st_NodeRef status = ref_NodeRef ref))
         || negb (bool_decide (st_AssignmentGeneration status = ref_Generation ref)) then
        Err (Wrap EmptyString (Sentinel ErrStaleAssignment)
          (": project " ++ Quote name ++ " is not assigned to " ++ ref_NodeRef ref
           ++ " at generation " ++ FormatInt (ref_Generation ref))%string)
      else if negb (bool_decide (st_Phase status = ProjectPhaseRunning)) then
        Err (phase_err name (st_Phase status) "; backups are accepted only while Running")
      else
        let b := default empty_backup (st_Backup status) in
        Ok (st_with_Conditions
              (UpsertCondition (st_Conditions status)
                 (mkCondition ConditionTypeBackupActive ConditionTrue ReasonBackupAccepted
                    "A backup of this Project has been accepted" (bcp_AcceptedAt completion))
                 (negb (backupActive (st_Conditions status))))
              (st_with_Backup
                 (Some {| bk_Stanzas := bk_Stanzas b;
                          bk_Completions := trim_completions
                            (bk_Completions b ++ [bcp_with_assignment ref completion]) |}) status))
  end.

Definition RecordBackupCompletion (name : string) (ref : AssignmentRef)
    (completion : BackupCompletion) : prog (result ()) :=
  UpdateProjectStatusForUID name (ref_UID ref) (backup_completion name ref completion).

(** ** Evidence of a cleanup owner *)

Definition owner_evidence (name : string) (owner : AssignmentRef)
    (done : CleanupObligation → bool) (record : CleanupObligation → CleanupObligation)
    (status : ProjectStatus) : result ProjectStatus :=
  match FindObligation (st_Recovery status) (assignmentIdentity owner) with
  | None => Err (project_err ErrStaleAssignment name)
  | Some obligation =>
      if done obligation then Ok status
      else
        (* the write goes through the pointer into the list *)
        match st_Recovery status with
        | None => Ok status
        | Some r => Ok (st_with_Recovery (edit_obligation (assignmentIdentity owner) record r) status)
        end
  end.

Definition resources_removed (name : string) (owner : AssignmentRef) (observedAt : Time)
    : ProjectStatus → result ProjectStatus :=
  owner_evidence name owner Resolved
    (ob_with_ResourcesRemoved (Some {| rr_ObservedAt := observedAt |})).

Definition RecordResourcesRemoved (name : string) (owner : AssignmentRef) (observedAt : Time)
    : prog (result ()) :=
  UpdateProjectStatusForUID name (ref_UID owner) (resources_removed name owner observedAt).

Definition managed_data_quarantined (name : string) (owner : AssignmentRef) (observedAt : Time)
    : ProjectStatus → result ProjectStatus :=
  owner_evidence name owner
    (λ o, match ob_ManagedDataQuarantined o with Some _ => true | None => false end)
    (ob_with_Quarantined (Some {| mq_ObservedAt := observedAt |})).

Definition RecordManagedDataQuarantined (name : string) (owner : AssignmentRef) (observedAt : Time)
    : prog (result ()) :=
  UpdateProjectStatusForUID name (ref_UID owner) (managed_data_quarantined name owner observedAt).

(** ** Spec reports *)

Record SpecAppliedReport := {
  sar_Revision : Z;
  sar_Applied : bool;
  sar_Reason : string;
  sar_Message : string;
  sar_At : Time
}.

(** The loop keeps the verdict of the last SpecApplied condition it meets. *)
Definition spec_transitioned (cs : list Condition) (status : ConditionStatus) : bool :=
  match last (filter (λ c, cond_Type c = ConditionTypeSpecApplied) cs) with
  | Some c => negb (bool_decide (cond_Status c = status))
  | None => true
  end.

Definition spec_applied (name : string) (report : SpecAppliedReport) (meta : ObjectMeta)
    (status : ProjectStatus) : result ProjectStatus :=
  if negb (bool_decide (st_Phase status ∈
       [ProjectPhaseScheduled; ProjectPhaseRunning; ProjectPhaseFailed])) then
    Err (phase_err name (st_Phase status) "; only an assigned, live Project reports its spec")
  else if bool_decide (om_SpecRevision meta < sar_Revision report)%Z then
    Err (Wrap EmptyString (Sentinel ErrConflictState)
      (": project " ++ Quote name ++ ": spec revision " ++ FormatInt (sar_Revision report)
       ++ " is newer than the Project's " ++ FormatInt (om_SpecRevision meta))%string)
  else
    let status :=
      if sar_Applied report && bool_decide (st_ObservedSpecRevision status < sar_Revision report)%Z
      then st_with_ObservedSpecRevision (sar_Revision report) status else status in
    if negb (bool_decide (sar_Revision report = om_SpecRevision meta)) then Ok status
    else
      let cond :=
        if sar_Applied report then
          mkCondition ConditionTypeSpecApplied ConditionTrue ReasonSpecApplied
            ("spec revision " ++ FormatInt (sar_Revision report) ++ " runs on every service")%string
            (sar_At report)
        else mkCondition ConditionTypeSpecApplied ConditionFalse (sar_Reason report)
               (sar_Message report) (sar_At report) in
      Ok (st_with_Conditions
            (UpsertCondition (st_Conditions status) cond
               (spec_transitioned (st_Conditions status) (cond_Status cond))) status).

Definition RecordSpecApplied (name : string) (ref : AssignmentRef) (report : SpecAppliedReport)
    : prog (result ()) :=
  reportProjectStatusFenced name ref (spec_applied name report).

(** ** Single conditions *)

Definition conditionsExcludingType (t : ConditionType) (s : ProjectStatus) : list Condition :=
  filter (λ c, cond_Type c ≠ t) (st_Conditions s).

(** jsonb_set(status, '{conditions}', ...): the key is written even when the
    array is empty. *)
Definition set_conditions (cs : list Condition) (j : StatusJSON) : StatusJSON :=
  {| js_Status := st_with_Conditions cs (js_Status j); js_HasConditions := true |}.

Definition row_with_status (j : StatusJSON) (now : Time) (r : ProjectRow) : ProjectRow :=
  {| row_UID := row_UID r; row_Phase := row_Phase r; row_Spec := row_Spec r; row_Status := j;
     row_Labels := row_Labels r; row_Annotations := row_Annotations r;
     row_CreatedAt := row_CreatedAt r; row_UpdatedAt := now; row_Version := row_Version r + 1;
     row_SpecRevision := row_SpecRevision r |}%Z.

(** UPDATE ... SET status = newStatus WHERE pred AND status IS DISTINCT FROM
    newStatus, and what the code makes of its answer. *)
Definition update_conditions (what name : string) (pred : ProjectRow → bool)
    (cs : ProjectStatus → list Condition) (miss : prog (result ())) : prog (result ()) :=
  now_ ≫= λ now,
  exec (update_row name
          (λ r, pred r &&
             bool_decide (row_Status r ≠ set_conditions (cs (row_status r)) (row_Status r)))
          (λ r, row_with_status (set_conditions (cs (row_status r)) (row_Status r)) now r)) ≫= λ res,
  match res with
  | Err e => Ret (Err (sql_err what name e))
  | Ok false => miss
  | Ok true => publish TopicProjectUpdated name ≫= λ _, Ret (Ok ())
  end.

Definition patched_conditions (condition : Condition) (s : ProjectStatus) : list Condition :=
  conditionsExcludingType (cond_Type condition) s ++ [condition].

Definition PatchProjectCondition (name : string) (condition : Condition) : prog (result ()) :=
  update_conditions "patch project condition" name (λ _, true) (patched_conditions condition)
    (classifyProjectNoOp name).

Definition ClearProjectCondition (name : string) (t : ConditionType) : prog (result ()) :=
  update_conditions "clear project condition" name (λ _, true) (conditionsExcludingType t)
    (classifyProjectNoOp name).

Definition PatchProjectConditionFenced (name : string) (ref : AssignmentRef) (condition : Condition)
    : prog (result ()) :=
  update_conditions "fenced patch project condition" name (assignmentFenceWHERE ref)
    (patched_conditions condition) (classifyFencedConditionMiss name ref).

Definition ClearProjectConditionFenced (name : string) (ref : AssignmentRef) (t : ConditionType)
    : prog (result ()) :=
  update_conditions "fenced clear project condition" name (assignmentFenceWHERE ref)
    (conditionsExcludingType t) (classifyFencedConditionMiss name ref).

(** UpdateProjectStatus replaces the whole status; only tests call it. *)
Definition UpdateProjectStatus (name : string) (status : ProjectStatus) : prog (result ()) :=
  now_ ≫= λ now,
  exec (update_row name (λ r, bool_decide (row_Status r ≠ marshal_status status))
          (commit_status status now)) ≫= λ res,
  match res with
  | Err e => Ret (Err (sql_err "update project status" name e))
  | Ok false => classifyProjectNoOp name
  | Ok true => publish TopicProjectUpdated name ≫= λ _, Ret (Ok ())
  end.

(** ** The contract *)

Lemma workload_stopped_legal name ref t uid s s' :
  status_inv uid s → workload_stopped name ref t s = Ok s' → legal uid 0 s s'.
Proof.
  intros Hi. unfold workload_stopped. destruct (negb _); [done|].
  destruct (WorkloadStoppedFor _ _); intros [= <-]; by apply legal_core.
Qed.

Lemma committed_backup_legal name ref id t uid s s' :
  status_inv uid s → committed_backup name ref id t s = Ok s' → legal uid 0 s s'.
Proof.
  intros Hi. unfold committed_backup. destruct (negb _); [done|].
  case_decide; intros [= <-]; by apply legal_core.
Qed.

Lemma stanza_record_legal name ref v t uid s s' :
  status_inv uid s → stanza_record name ref v t s = Ok s' → legal uid 0 s s'.
Proof.
  intros Hi. unfold stanza_record. destruct (negb _); [done|].
  destruct (HasStanza _ _); intros [= <-]; [by apply legal_core|].
  apply legal_kept; try done; simpl; try lia.
  unfold stanzas; simpl. destruct (st_Backup s); simpl; by eexists.
Qed.

Lemma backup_completion_core name ref c s s' :
  backup_completion name ref c s = Ok s' → same_core s s'.
Proof.
  unfold backup_completion. destruct (Completion _ _); [by intros [= <-]|].
  destruct (_ || _); [done|]. destruct (negb _); [done|]. intros [= <-].
  split; try done. unfold stanzas; simpl. by destruct (st_Backup s).
Qed.

(** The entry the evidence is about. *)
Lemma owner_evidence_cases name owner done record s s' :
  owner_evidence name owner done record s = Ok s' →
  ∃ o, FindObligation (st_Recovery s) (assignmentIdentity owner) = Some o ∧
    ((done o = true ∧ s' = s) ∨
     (done o = false ∧ ∃ r r', st_Recovery s = Some r ∧
        edit_obligation (assignmentIdentity owner) record r = Some r' ∧
        s' = st_with_Recovery (Some r') s)).
Proof.
  unfold owner_evidence. destruct (FindObligation _ _) as [o|] eqn:Ef; [|done].
  destruct (done o) eqn:Ed; [intros [= <-]; eauto 10|].
  destruct (st_Recovery s) as [r|] eqn:Er; [|done].
  destruct (edit_obligation _ _ _) as [r'|] eqn:Ee.
  - intros [= <-]. exists o. split; [done|]. right. eauto 10.
  - apply edit_obligation_None in Ee. congruence.
Qed.

Lemma owner_evidence_legal name owner done record uid s s' :
  (∀ o, done o = false → obligation_evolves o (record o)) →
  (∀ o, ob_Assignment (record o) = ob_Assignment o) →
  status_inv uid s → owner_evidence name owner done record s = Ok s' → legal uid 0 s s'.
Proof.
  intros Hrec Hass Hi (o & Hf & [[_ ->]|(Hd & r & r' & Hr & He & ->)])%owner_evidence_cases.
  { by apply legal_core. }
  apply legal_extended_kept; try done. split.
  - intros b ob Ho. rewrite Hr in Ho, Hf. simpl.
    rewrite (edit_obligation_find _ _ _ _ _ Hass He). case_decide as Hb; subst.
    + rewrite Ho in Hf. injection Hf as <-. rewrite Ho. simpl. eauto.
    + exists ob. by split.
  - exists []. rewrite app_nil_r. split; [|by left]. unfold obligations, EnsureRecovery; simpl.
    rewrite Hr; simpl. by apply edit_obligation_assignments in He.
Qed.

Lemma resources_removed_legal name owner t uid s s' :
  status_inv uid s → resources_removed name owner t s = Ok s' → legal uid 0 s s'.
Proof.
  apply owner_evidence_legal; [|done]. intros o Hd. split; try done.
  intros e He. unfold Resolved in Hd. by rewrite He in Hd.
Qed.

Lemma managed_data_quarantined_legal name owner t uid s s' :
  status_inv uid s → managed_data_quarantined name owner t s = Ok s' → legal uid 0 s s'.
Proof.
  apply owner_evidence_legal; [|done]. intros o Hd. split; try done.
  intros e He. by rewrite He in Hd.
Qed.

Lemma spec_applied_legal name report meta uid s s' :
  status_inv uid s → spec_applied name report meta s = Ok s' →
  legal uid (om_SpecRevision meta) s s'.
Proof.
  intros Hi. unfold spec_applied. destruct (negb _); [done|].
  destruct (bool_decide (om_SpecRevision meta < _)%Z) eqn:Er; [done|]. bools.
  set (s1 := if sar_Applied report && _ then _ else _).
  assert (legal uid (om_SpecRevision meta) s s1) as Hl.
  { subst s1. destruct (sar_Applied report && _) eqn:Ea; [|by apply legal_core].
    bools. apply legal_kept; try done; simpl; lia. }
  destruct (negb _); intros [= <-]; [done|].
  set (s2 := st_with_Conditions _ s1).
  destruct Hl as [Hinv Hev Hg Ho].
  assert (same_core s1 s2) as Hc by apply same_core_Conditions.
  destruct (legal_core uid (om_SpecRevision meta) s1 s2 Hinv Hc) as [Hinv2 Hev2 _ _].
  split; [done|by trans s1|done..].
Qed.

(** A write of the conditions alone keeps the row's contract. *)
Lemma conditions_row cs now r :
  row_inv r → (row_Version r < max_int64)%Z →
  let r' := row_with_status (set_conditions cs (row_Status r)) now r in
  row_inv r' ∧ row_evolves r r'.
Proof.
  intros Hri Hv r'. destruct (legal_core (row_UID r) 0 (row_status r)
    (st_with_Conditions cs (row_status r)) (ri_status _ Hri) (same_core_Conditions _ _)) as [Hi He _ _].
  destruct Hri. unfold row_status in *. split; split; unfold row_status; simpl; try done; try lia.
Qed.

Section evidence_safe.
Context `{UUIDSource}.

Lemma safe_update_conditions what name pred cs miss :
  safe others miss → safe others (update_conditions what name pred cs miss).
Proof.
  intros Hmiss. apply safe_bind; [by apply safe_now|]. intros now. apply safe_bind.
  - apply safe_exec; [done|]. intros d res d' Hinv. unfold update_row.
    destruct (project_at d name) as [r|] eqn:Er; [|done].
    destruct (_ && _); [|done]. case_bool_decide as Hv; [|done]. intros [= <- <-].
    destruct (Hinv _ _ Er) as [Hri _].
    destruct (conditions_row (cs (row_status r)) now r Hri Hv) as [Hri' He].
    split; [split|].
    + by eapply put_row_evolves.
    + intros _. by eapply put_row_inv.
    + by eapply put_row_finalized.
  - intros [[]|e]; [|done|apply safe_ret].
    apply safe_bind; [apply safe_publish|]. intros []. apply safe_ret.
Qed.

(** Every Agent write keeps the contract under arbitrary interference. *)
Lemma safe_RecordWorkloadStopped name ref t : safe others (RecordWorkloadStopped name ref t).
Proof.
  apply safe_ReportProjectStatusFenced; eauto with cara.
  intros. by eapply workload_stopped_legal.
Qed.
Lemma safe_RecordCommittedBackup name ref id t : safe others (RecordCommittedBackup name ref id t).
Proof.
  apply safe_ReportProjectStatusFenced; eauto with cara.
  intros. by eapply committed_backup_legal.
Qed.
Lemma safe_RecordStanza name ref v t : safe others (RecordStanza name ref v t).
Proof.
  apply safe_ReportProjectStatusFenced; eauto with cara.
  intros. by eapply stanza_record_legal.
Qed.
Lemma safe_RecordBackupCompletion name ref c : safe others (RecordBackupCompletion name ref c).
Proof.
  apply safe_UpdateProjectStatusForUID; eauto with cara.
  intros s s' Hi _ Hm. apply legal_core; [done|]. by eapply backup_completion_core.
Qed.
Lemma safe_RecordResourcesRemoved name ref t : safe others (RecordResourcesRemoved name ref t).
Proof.
  apply safe_UpdateProjectStatusForUID; eauto with cara.
  intros s s' Hi _ Hm. by eapply resources_removed_legal.
Qed.
Lemma safe_RecordManagedDataQuarantined name ref t :
  safe others (RecordManagedDataQuarantined name ref t).
Proof.
  apply safe_UpdateProjectStatusForUID; eauto with cara.
  intros s s' Hi _ Hm. by eapply managed_data_quarantined_legal.
Qed.
Lemma safe_RecordSpecApplied name ref report : safe others (RecordSpecApplied name ref report).
Proof.
  apply safe_fenced; eauto with cara. intros r s' Hri Hf Hm.
  exact (spec_applied_legal _ _ _ _ _ _ (ri_status _ Hri) Hm).
Qed.
Lemma safe_PatchProjectConditionFenced name ref c : safe others (PatchProjectConditionFenced name ref c).
Proof. apply safe_update_conditions. by apply safe_classify. Qed.
Lemma safe_ClearProjectConditionFenced name ref t : safe others (ClearProjectConditionFenced name ref t).
Proof. apply safe_update_conditions. by apply safe_classify. Qed.
End evidence_safe.

(** ** Properties *)

(** The one entry the evidence of an owner changes. *)
Lemma owner_evidence_change name owner is_done record s s' :
  (∀ o, ob_Assignment (record o) = ob_Assignment o) →
  owner_evidence name owner is_done record s = Ok s' → s' ≠ s →
  ∃ o, FindObligation (st_Recovery s) (assignmentIdentity owner) = Some o ∧ is_done o = false ∧
    s' = st_with_Recovery (st_Recovery s') s ∧
    ∀ b, FindObligation (st_Recovery s') b =
      if decide (b = assignmentIdentity owner) then Some (record o)
      else FindObligation (st_Recovery s) b.
Proof.
  intros Hass (o & Hf & [[_ ->]|(Hd & r & r' & Hr & He & ->)])%owner_evidence_cases; [done|].
  intros _. exists o. split_and!; try done. intros b. simpl.
  rewrite (edit_obligation_find _ _ _ _ _ Hass He), Hr. case_decide as Hb; [|done].
  subst b. rewrite Hr in Hf. by rewrite Hf.
Qed.

Lemma owner_evidence_noop name owner is_done record s :
  (∀ o, ob_Assignment (record o) = ob_Assignment o) →
  (∀ o, is_done o = false → record o ≠ o) →
  owner_evidence name owner is_done record s = Ok s →
  ∃ o, FindObligation (st_Recovery s) (assignmentIdentity owner) = Some o ∧ is_done o = true.
Proof.
  intros Hass Hch (o & Hf & [[Hd _]|(Hd & r & r' & Hr & He & Hs)])%owner_evidence_cases; [eauto|].
  exfalso. rewrite Hr in Hf. rewrite Hs in Hr. injection Hr as <-.
  pose proof (edit_obligation_find _ _ _ _ (assignmentIdentity owner) Hass He) as Hx.
  rewrite decide_True, Hf in Hx by done. injection Hx as Hx. by apply (Hch o Hd).
Qed.

Lemma project_at_put name r d : project_at (put_row (project_key name) r d) name = Some r.
Proof. unfold project_at. simpl. by rewrite lookup_insert_eq. Qed.

(** (store.go, recordResourcesRemoved): cleanup evidence lands on the one
    obligation of exactly the assignment that reports it. Whatever the others
    do, the call writes at most once; the row it writes then carries an
    unresolved obligation for that UID, Node and generation, and the write
    resolves that entry, keeps every other entry and changes nothing else of
    the status. Success without a write means the entry was found resolved, so
    the first evidence stays. *)
Theorem RecordResourcesRemoved_exact `{UUIDSource} (name : string) (owner : AssignmentRef)
    (observedAt : Time) (ms : list move) (d0 : DB)
    (Hinv : db_inv d0) (Hms : schedule_ok ms) :
  let x := run (RecordResourcesRemoved name owner observedAt) ms d0 [] in
  let a := assignmentIdentity owner in
  (history_of x = [] ∧
   (result_of x = Ok () →
      ∃ d r o, others d0 d ∧ project_at d name = Some r ∧ row_UID r = ref_UID owner ∧
        FindObligation (st_Recovery (row_status r)) a = Some o ∧ ob_ResourcesRemoved o ≠ None)) ∨
  (∃ d1 r r' o, let d2 := put_row (project_key name) r' d1 in
     others d0 d1 ∧ project_at d1 name = Some r ∧ row_UID r = ref_UID owner ∧
     FindObligation (st_Recovery (row_status r)) a = Some o ∧ ob_ResourcesRemoved o = None ∧
     (∀ b, FindObligation (st_Recovery (row_status r')) b =
        if decide (b = a) then Some (ob_with_ResourcesRemoved (Some {| rr_ObservedAt := observedAt |}) o)
        else FindObligation (st_Recovery (row_status r)) b) ∧
     row_status r' = st_with_Recovery (st_Recovery (row_status r')) (row_status r) ∧
     row_UID r' = row_UID r ∧ row_Version r' = (row_Version r + 1)%Z ∧
     ((result_of x = Ok () ∧ history_of x = [Wrote d1 d2; Published TopicProjectUpdated name]) ∨
      (∃ e, result_of x = Err e ∧ is_fault e = true ∧ history_of x = [Wrote d1 d2]))).
Proof.
  intros x a. destruct (uid_outcome name (ref_UID owner)
    (resources_removed name owner observedAt) ms d0 Hinv Hms)
    as [[Hh Hn]|(d1 & d2 & (Hd1 & r & s' & now & Hr & Hu & Hm & Hne & ->) & Hres)].
  - left. split; [done|]. intros Hok. destruct (Hn Hok) as (d & r & Hd & Hr & Hu & Hm).
    apply owner_evidence_noop in Hm as (o & Hf & Hdone); [|done|].
    + exists d, r, o. split_and!; try done. unfold Resolved in Hdone.
      by destruct (ob_ResourcesRemoved o).
    + intros o Ho Heq. unfold Resolved in Ho. apply (f_equal ob_ResourcesRemoved) in Heq.
      simpl in Heq. by rewrite <- Heq in Ho.
  - right. apply owner_evidence_change in Hm as (o & Hf & Hd & Hs & Hb); [|done..].
    exists d1, r, (commit_status s' now r), o. cbv zeta. unfold row_status at 3 4 6. simpl.
    split_and!; try done. unfold Resolved in Hd. by destruct (ob_ResourcesRemoved o).
Qed.

(** Node "a" owes the cleanup of generation 1, which it lost to Node "b". *)
Definition owed_status : ProjectStatus :=
  update_recovery (AddObligation (assignmentIdentity example_ref) 5%Z ReleaseByGraceExpired)
    (st_with_NodeRef "b" (st_with_Generation 2 (running_status "a"))).

Lemma owed_status_inv : status_inv (counter_uuid 0) owed_status.
Proof.
  assert (obligations owed_status =
    [new_obligation (assignmentIdentity example_ref) 5%Z ReleaseByGraceExpired]) as Ho by reflexivity.
  split; unfold generations; rewrite ?Ho; simpl; try done; try lia.
  - apply NoDup_singleton.
  - intros o ->%list_elem_of_singleton. simpl. split; [done|lia].
  - intros g Hg. destruct (decide (g = 2)%Z) as [->|]; [by right|].
    left. apply list_elem_of_singleton. lia.
Qed.

Lemma owed_db_inv : @db_inv counter_uuids (example_db owed_status 4).
Proof.
  apply example_db_inv; [unfold max_int64; lia|simpl; lia|simpl; lia|apply owed_status_inv].
Qed.

Lemma RecordResourcesRemoved_exact_witness :
  let x := run (RecordResourcesRemoved "shop" example_ref 9%Z) []
             (example_db owed_status 4) [] in
  result_of x = Ok () ∧
  ∃ p, select_project "shop" (db_of x) = Some p ∧ CleanupTasksFor p "a" = [].
Proof.
  destruct (@RecordResourcesRemoved_exact counter_uuids "shop" example_ref 9%Z []
    (example_db owed_status 4) owed_db_inv ltac:(by constructor)) as [[Hh _]|Hx].
  - exfalso. vm_compute in Hh. discriminate.
  - split; [vm_compute; reflexivity|]. eexists. split; vm_compute; reflexivity.
Defined.

(** ** Backup completions *)

Definition completions (s : ProjectStatus) : list BackupCompletion :=
  bk_Completions (default empty_backup (st_Backup s)).

Lemma Completion_status s id :
  Completion (st_Backup s) id =
  find_first (λ c, bool_decide (bcp_BackupID c = id)) (completions s).
Proof. unfold Completion, completions. by destruct (st_Backup s). Qed.

Lemma trim_completions_length xs : length (trim_completions xs) = min (length xs) MaxBackupCompletions.
Proof. unfold trim_completions. rewrite length_drop. lia. Qed.

Lemma trim_completions_last xs c : c ∈ trim_completions (xs ++ [c]).
Proof.
  unfold trim_completions. rewrite drop_app_le by (rewrite length_app; simpl; unfold MaxBackupCompletions; lia).
  apply elem_of_app. right. by apply list_elem_of_singleton.
Qed.

(** (store.go, RecordBackupCompletion): a backup the server accepted stays
    accepted and the history stays bounded. A new completion is appended only
    for the current assignment of a Running Project, in the name of that
    assignment, and the oldest entries beyond twenty are dropped; once it is
    recorded every later report of the same backup, from any assignment and in
    any phase, is a success that changes nothing. *)
Theorem backup_completion_accepted (name : string) (ref : AssignmentRef) (c : BackupCompletion)
    (s s' : ProjectStatus) (Hok : backup_completion name ref c s = Ok s') :
  (∀ name2 ref2 c2, bcp_BackupID c2 = bcp_BackupID c →
     backup_completion name2 ref2 c2 s' = Ok s') ∧
  (s' = s ∨
   st_NodeRef s = ref_NodeRef ref ∧ st_AssignmentGeneration s = ref_Generation ref ∧
   st_Phase s = ProjectPhaseRunning ∧ length (completions s') ≤ MaxBackupCompletions ∧
   ∃ dropped, dropped ++ completions s' = completions s ++ [bcp_with_assignment ref c] ∧
     (length (completions s) < MaxBackupCompletions → dropped = [])).
Proof.
  assert (∀ s', is_Some (Completion (st_Backup s') (bcp_BackupID c)) →
    ∀ name2 ref2 c2, bcp_BackupID c2 = bcp_BackupID c → backup_completion name2 ref2 c2 s' = Ok s')
    as Hretry.
  { intros s1 [x Hx] name2 ref2 c2 Hid. unfold backup_completion. by rewrite Hid, Hx. }
  revert Hok. unfold backup_completion at 1.
  destruct (Completion (st_Backup s) _) as [x|] eqn:Ec.
  { intros [= <-]. split; [|by left]. apply Hretry. by eexists. }
  destruct (negb (bool_decide (st_NodeRef s = _)) || _) eqn:Ef; [done|].
  destruct (negb (bool_decide (st_Phase s = _))) eqn:Ep; [done|]. intros [= <-]. bools.
  destruct Ef as [Hn Hg].
  set (s2 := st_with_Conditions _ _).
  assert (completions s2 = trim_completions (completions s ++ [bcp_with_assignment ref c])) as Hcs
    by reflexivity.
  split.
  - apply Hretry. rewrite Completion_status, Hcs. apply find_first_is_Some.
    exists (bcp_with_assignment ref c). split; [apply trim_completions_last|]. simpl. by bools.
  - right. split_and!; try done.
    + rewrite Hcs, trim_completions_length. lia.
    + rewrite Hcs. unfold trim_completions.
      exists (take (length (completions s ++ [bcp_with_assignment ref c]) - MaxBackupCompletions)
        (completions s ++ [bcp_with_assignment ref c])).
      rewrite take_drop. split; [done|]. rewrite length_app. simpl. intros Hlt.
      by replace (length (completions s) + 1 - MaxBackupCompletions) with 0 by lia.
Qed.

Definition example_completion : BackupCompletion :=
  {| bcp_BackupID := "b1"; bcp_NodeRef := EmptyString; bcp_AssignmentGeneration := 0;
     bcp_AcceptedAt := 7; bcp_ManifestKey := "m"; bcp_Items := [] |}%Z.

Lemma backup_completion_accepted_witness : ∃ s',
  backup_completion "shop" example_ref example_completion (running_status "a") = Ok s' ∧
  length (completions s') = 1 ∧
  backup_completion "shop" {| ref_UID := "x"; ref_NodeRef := "z"; ref_Generation := 9 |}
    example_completion s' = Ok s'.
Proof.
  eexists. split; [reflexivity|]. split; [vm_compute; reflexivity|].
  apply (proj1 (backup_completion_accepted "shop" example_ref example_completion
    (running_status "a") _ eq_refl)). reflexivity.
Defined.

(** ** Single conditions *)

Section condition_writes.
Context `{UUIDSource}.

Definition condition_write (name : string) (pred : ProjectRow → bool)
    (cs : ProjectStatus → list Condition) (d0 : DB) (h : list Event) (res : result ())
    (h' : list Event) : Prop :=
  ∃ d1 r now,
    let r' := row_with_status (set_conditions (cs (row_status r)) (row_Status r)) now r in
    let d2 := put_row (project_key name) r' d1 in
    others d0 d1 ∧ project_at d1 name = Some r ∧ pred r = true ∧ row_Status r' ≠ row_Status r ∧
    ((res = Ok () ∧ h' = h ++ [Wrote d1 d2; Published TopicProjectUpdated name]) ∨
     (∃ e, res = Err e ∧ is_fault e = true ∧ h' = h ++ [Wrote d1 d2])).

Lemma wp_update_conditions what name pred cs miss (N : DB → result () → Prop) d0 h :
  (∀ e, N d0 (Err e)) →
  (∀ d1, others d0 d1 → wp others (λ _ _, True) miss (λ res _ h', h' = h ∧ N d0 res) d1 h) →
  wp others (λ _ _, True) (update_conditions what name pred cs miss)
    (λ res _ h', (h' = h ∧ N d0 res) ∨ condition_write name pred cs d0 h res h') d0 h.
Proof.
  intros Herr Hmiss. apply wp_bind, wp_now. intros now d1 Hd1.
  assert (∀ d2, others d1 d2 → wp others (λ _ _, True) miss
    (λ res _ h', (h' = h ∧ N d0 res) ∨ condition_write name pred cs d0 h res h') d2 h) as Hmiss'.
  { intros d2 Hd2. eapply wp_mono; [|apply Hmiss; by trans d1]. auto. }
  apply wp_bind, wp_exec.
  { intros d2 e Hd2 He. apply wp_ret. auto. }
  intros d2 Hd2. specialize (Hmiss' d2 Hd2). unfold update_row.
  destruct (project_at d2 name) as [r|] eqn:Er; [|exact Hmiss'].
  destruct (pred r) eqn:Ep; simpl andb; [|exact Hmiss'].
  case_bool_decide as Hne; [|exact Hmiss'].
  case_bool_decide as Hv; [|by apply wp_ret; left].
  assert (others d0 d2) as Hd by (by trans d1).
  split; [done|]. split; [|intros e He].
  - apply wp_bind, wp_publish, wp_ret. right. exists d2, r, now. rewrite <- app_assoc.
    split_and!; auto.
  - apply wp_ret. right. exists d2, r, now. split_and!; auto. right. eexists. by split_and!.
Qed.

Lemma fence_WHERE ref r :
  assignmentFenceWHERE ref r = true ↔ fence_of (row_UID r) (row_status r) = ref.
Proof.
  unfold assignmentFenceWHERE, fence_of. bools. destruct ref; simpl. naive_solver.
Qed.

Lemma wp_fenced_condition what name ref cs d0 h :
  wp others (λ _ _, True)
    (update_conditions what name (assignmentFenceWHERE ref) cs (classifyFencedConditionMiss name ref))
    (λ res _ h', (h' = h ∧ (res = Ok () → ∃ d r, others d0 d ∧ project_at d name = Some r ∧
         fence_of (row_UID r) (row_status r) = ref)) ∨
       condition_write name (assignmentFenceWHERE ref) cs d0 h res h') d0 h.
Proof.
  apply (wp_update_conditions _ _ _ _ _ (λ d0 res, res = Ok () → ∃ d r, others d0 d ∧
    project_at d name = Some r ∧ fence_of (row_UID r) (row_status r) = ref)); [done|].
  intros d1 Hd1. apply wp_classify; [|done|done].
  intros d2 r Hd2 Hr. split; [done|]. intros Hok. exists d2, r. split; [by trans d1|].
  split; [done|]. apply fence_WHERE.
  destruct (fenceMatches ref _) eqn:Ef; [exact Ef|done].
Qed.
End condition_writes.

Lemma excluding_type t s t' :
  condition_of t' (conditionsExcludingType t s) =
  if decide (t' = t) then None else condition_of t' (st_Conditions s).
Proof.
  unfold conditionsExcludingType, condition_of.
  induction (st_Conditions s) as [|c cs IH]; simpl; [by case_decide|].
  rewrite filter_cons. destruct (decide (cond_Type c ≠ t)) as [Hc|Hc]; simpl.
  - rewrite IH. unfold has_type. repeat case_bool_decide; repeat case_decide; congruence.
  - apply dec_stable in Hc. rewrite IH. unfold has_type.
    case_bool_decide; case_decide; congruence.
Qed.

Lemma patched_type c s t :
  condition_of t (patched_conditions c s) =
  if decide (t = cond_Type c) then Some c else condition_of t (st_Conditions s).
Proof.
  unfold patched_conditions, condition_of. rewrite find_first_app.
  fold (condition_of t (conditionsExcludingType (cond_Type c) s)).
  rewrite excluding_type. simpl. unfold has_type.
  case_decide as Ht; [rewrite bool_decide_true by done; done|].
  rewrite bool_decide_false by congruence. unfold condition_of. by destruct (find_first _ _).
Qed.

(** (store.go, PatchProjectConditionFenced and ClearProjectConditionFenced):
    a fenced write of one condition is one statement, and touches nothing but
    that condition. Under any interference it makes at most one write, onto a
    row that carries the fence at that moment; afterwards the row's condition
    of that type is the one given (or none, when clearing), every other type
    keeps its condition, and the phase, the spec, the labels and everything
    else of the status are what the statement found. It succeeds without a
    write only when the fence was seen to hold. *)
Theorem fenced_condition_exact `{UUIDSource} (name : string) (ref : AssignmentRef)
    (op : Condition + ConditionType) (ms : list move) (d0 : DB) (Hms : schedule_ok ms) :
  let x := run match op with
               | inl c => PatchProjectConditionFenced name ref c
               | inr t => ClearProjectConditionFenced name ref t
               end ms d0 [] in
  let target := match op with inl c => cond_Type c | inr t => t end in
  (history_of x = [] ∧
   (result_of x = Ok () → ∃ d r, others d0 d ∧ project_at d name = Some r ∧
      fence_of (row_UID r) (row_status r) = ref)) ∨
  (∃ d1 r r', let d2 := put_row (project_key name) r' d1 in
     others d0 d1 ∧ project_at d1 name = Some r ∧ fence_of (row_UID r) (row_status r) = ref ∧
     (∀ t, condition_of t (st_Conditions (row_status r')) =
        if decide (t = target) then match op with inl c => Some c | inr _ => None end
        else condition_of t (st_Conditions (row_status r))) ∧
     row_status r' = st_with_Conditions (st_Conditions (row_status r')) (row_status r) ∧
     row_UID r' = row_UID r ∧ row_Phase r' = row_Phase r ∧ row_Spec r' = row_Spec r ∧
     row_Labels r' = row_Labels r ∧ row_SpecRevision r' = row_SpecRevision r ∧
     row_Version r' = (row_Version r + 1)%Z ∧
     ((result_of x = Ok () ∧ history_of x = [Wrote d1 d2; Published TopicProjectUpdated name]) ∨
      (∃ e, result_of x = Err e ∧ is_fault e = true ∧ history_of x = [Wrote d1 d2]))).
Proof.
  intros x target. set (cs := match op with
    | inl c => patched_conditions c | inr t => conditionsExcludingType t end).
  assert ((history_of x = [] ∧ (result_of x = Ok () → ∃ d r, others d0 d ∧
      project_at d name = Some r ∧ fence_of (row_UID r) (row_status r) = ref)) ∨
    condition_write name (assignmentFenceWHERE ref) cs d0 [] (result_of x) (history_of x))
    as [?|(d1 & r & now & Hd1 & Hr & Hp & _ & Hres)]; [|by left|right].
  { subst x cs. destruct op as [c|t].
    - by apply (wp_adequate others (λ _ _, True) (PatchProjectConditionFenced name ref c) _ ms d0 []
        ltac:(done) Hms (wp_fenced_condition _ _ _ _ _ _)).
    - by apply (wp_adequate others (λ _ _, True) (ClearProjectConditionFenced name ref t) _ ms d0 []
        ltac:(done) Hms (wp_fenced_condition _ _ _ _ _ _)). }
  exists d1, r, (row_with_status (set_conditions (cs (row_status r)) (row_Status r)) now r).
  split_and!; try done; [by apply fence_WHERE|].
  intros t. unfold row_status at 1. cbn [row_Status row_with_status js_Status set_conditions st_Conditions st_with_Conditions].
  subst cs target. destruct op as [c|t']; [apply patched_type|apply excluding_type].
Qed.

Lemma fenced_condition_exact_witness :
  let c := mkCondition "Note" ConditionTrue "Seen" "seen" 7%Z in
  let x := run (PatchProjectConditionFenced "shop" example_ref c) []
             (example_db (running_status "a") 3) [] in
  result_of x = Ok () ∧ length (history_of x) = 2.
Proof.
  intros c x. split; [vm_compute; reflexivity|].
  destruct (@fenced_condition_exact counter_uuids "shop" example_ref (inl c) []
    (example_db (running_status "a") 3) ltac:(by constructor))
    as [[Hh _]|(d1 & r & r' & _ & _ & _ & _ & _ & _ & _ & _ & _ & _ & _ & [[_ Hh]|(e & He & _)])].
  - exfalso. vm_compute in Hh. discriminate.
  - subst x. cbv zeta beta iota in Hh. by rewrite Hh.
  - exfalso. vm_compute in He. discriminate.
Defined.

(** ** Spec reports *)

(** (store.go, RecordSpecApplied): what an Agent reports of a spec revision
    is believed only as far as it can be true. A revision the server has not
    issued, and a report about a Project that is not assigned and live, are
    refused and change nothing. Otherwise the observed revision becomes the
    greater of what it was and, for a report of success, the one reported, so it
    never goes back and never passes the Project's revision; the SpecApplied
    condition follows the report exactly when it is about the current revision;
    the phase, the assignment and the obligations stay. *)
Theorem spec_applied_exact (name : string) (report : SpecAppliedReport) (meta : ObjectMeta)
    (s : ProjectStatus) :
  let live := st_Phase s ∈ [ProjectPhaseScheduled; ProjectPhaseRunning; ProjectPhaseFailed] in
  ((∃ s', spec_applied name report meta s = Ok s') ↔
     live ∧ (sar_Revision report ≤ om_SpecRevision meta)%Z) ∧
  ∀ s', spec_applied name report meta s = Ok s' →
    st_ObservedSpecRevision s' =
      (if sar_Applied report then Z.max (st_ObservedSpecRevision s) (sar_Revision report)
       else st_ObservedSpecRevision s) ∧
    s' = st_with_Conditions (st_Conditions s') (st_with_ObservedSpecRevision (st_ObservedSpecRevision s') s) ∧
    (∀ t, t ≠ ConditionTypeSpecApplied →
       condition_of t (st_Conditions s') = condition_of t (st_Conditions s)) ∧
    (sar_Revision report ≠ om_SpecRevision meta → st_Conditions s' = st_Conditions s) ∧
    (sar_Revision report = om_SpecRevision meta →
       cond_Status <$> condition_of ConditionTypeSpecApplied (st_Conditions s') =
       Some (if sar_Applied report then ConditionTrue else ConditionFalse)).
Proof.
  intros live. unfold spec_applied.
  destruct (bool_decide (st_Phase s ∈ _)) eqn:Hlive; bools; simpl negb; cbv iota.
  2:{ split; [|done]. by split; [intros [? ?]|intros [? _]]. }
  destruct (bool_decide (om_SpecRevision meta < sar_Revision report)%Z) eqn:Hrev; bools.
  { split; [|done]. split; [by intros [? ?]|intros [_ ?]; lia]. }
  set (s1 := if sar_Applied report && _ then _ else _).
  assert (st_ObservedSpecRevision s1 =
    (if sar_Applied report then Z.max (st_ObservedSpecRevision s) (sar_Revision report)
     else st_ObservedSpecRevision s) ∧ s1 = st_with_ObservedSpecRevision (st_ObservedSpecRevision s1) s)
    as [Hobs Hs1].
  { subst s1. destruct (sar_Applied report); simpl; [|by destruct s].
    case_bool_decide; simpl; [split; [lia|done]|split; [lia|by destruct s]]. }
  clearbody s1. assert (st_Conditions s1 = st_Conditions s) as Hcs by (rewrite Hs1; done).
  destruct (bool_decide (sar_Revision report = om_SpecRevision meta)) eqn:Hcur; bools; simpl negb; cbv iota.
  - split; [split; [intros _; split; [done|lia]|by eexists]|]. intros s' [= <-]. cbn [st_ObservedSpecRevision st_with_Conditions st_Conditions].
    split_and!; [done|by f_equal| | |].
    + intros t Ht. rewrite condition_of_upsert_ne, Hcs; [done|]. by destruct (sar_Applied report).
    + done.
    + intros _. set (c := if sar_Applied report then _ else _).
      assert (cond_Type c = ConditionTypeSpecApplied) as Ht by (subst c; by destruct (sar_Applied report)).
      rewrite <- Ht at 1. rewrite condition_of_upsert. simpl. f_equal.
      destruct (condition_of _ _) as [old|]; simpl; [rewrite merge_condition_status|];
        subst c; by destruct (sar_Applied report).
  - split; [split; [intros _; split; [done|lia]|by eexists]|]. intros s' [= <-].
    split_and!; try done; try (intros; by rewrite Hcs).
Qed.
