(* ===== verification/ProjectStore.v ===== *)
(** The records of Projects (internal/store/postgres/store.go): creating one,
    changing its spec in a transaction that holds the row, and the
    finalization point at which the record stops existing. A transaction that
    reads its row FOR UPDATE is one atomic statement here: the row is locked
    from the read to the commit, and any error before the commit rolls the
    whole of it back. *)
From Stdlib Require Import ZArith Lia.
From stdpp Require Import prelude gmap strings.
From S2P Require Import Prelude.
From S2P Require Import Conditions.
From S2P Require Import ProjectTypes.
From S2P Require Import Lifecycle.
From S2P Require Import SpecUpdate.
From S2P Require Import Database.
From S2P Require Import Evolution.
From S2P Require Import StatusStore.
From S2P Require Import Legality.
Import GoTime GoInt GoString GoError.
Open Scope go_scope.

(** ** Creating *)

Definition namespace_or_default (ns : string) : string :=
  if decide (ns = EmptyString) then defaultNamespace else ns.

(** The row INSERTed for [project]: version and spec revision start at 1. *)
Definition new_row (uid : string) (project : Project) (now : Time) : ProjectRow :=
  {| row_UID := uid; row_Phase := st_Phase (p_Status project); row_Spec := p_Spec project;
     row_Status := marshal_status (p_Status project); row_Labels := om_Labels (p_Meta project);
     row_Annotations := om_Annotations (p_Meta project); row_CreatedAt := now;
     row_UpdatedAt := now; row_Version := 1; row_SpecRevision := 1 |}.

Definition project_row_key (project : Project) : string * string :=
  (namespace_or_default (om_Namespace (p_Meta project)), om_Name (p_Meta project)).

(** The answer is the stored Project, or none on a unique violation of the
    primary key; the UNIQUE constraint on the uid cannot fire for a fresh one. *)
Definition insert_project `{UUIDSource} (project : Project) (now : Time) (d : DB)
    : result (option Project * option DB) :=
  let key := project_row_key project in
  match db_Projects d !! key with
  | Some _ => Ok (None, None)
  | None =>
      let r := new_row (uuid_NewString (db_Issued d)) project now in
      Ok (Some (project_of_row key r), Some (insert_row key r d))
  end.

Definition CreateProject `{UUIDSource} (project : Project) : prog (result Project) :=
  now_ ≫= λ now,
  exec (insert_project project now) ≫= λ res,
  match res with
  | Err e => Ret (Err (sql_err "create project" (om_Name (p_Meta project)) e))
  | Ok None => Ret (Err (Sentinel ErrAlreadyExists))
  | Ok (Some stored) =>
      publish TopicProjectCreated (om_Name (p_Meta project)) ≫= λ _, Ret (Ok stored)
  end.

(** ** Replacing the whole record; only tests call it *)

Definition replace_row (project : Project) (now : Time) (r : ProjectRow) : ProjectRow :=
  {| row_UID := row_UID r; row_Phase := st_Phase (p_Status project); row_Spec := p_Spec project;
     row_Status := marshal_status (p_Status project); row_Labels := om_Labels (p_Meta project);
     row_Annotations := om_Annotations (p_Meta project); row_CreatedAt := row_CreatedAt r;
     row_UpdatedAt := now; row_Version := row_Version r + 1;
     row_SpecRevision := row_SpecRevision r |}%Z.

Definition UpdateProject (project : Project) : prog (result Z) :=
  now_ ≫= λ now,
  let key := project_row_key project in
  exec (λ d, match db_Projects d !! key with
             | None => Ok (None, None)
             | Some r =>
                 if bool_decide (row_Version r < max_int64)%Z
                 then Ok (Some (row_Version r + 1)%Z, Some (put_row key (replace_row project now r) d))
                 else Err bigint_overflow
             end) ≫= λ res,
  Ret match res with
      | Err e => Err (sql_err "update project" (om_Name (p_Meta project)) e)
      | Ok None => Err (project_err ErrNotFound (om_Name (p_Meta project)))
      | Ok (Some version) => Ok version
      end.

(** ** Removing *)

Definition DeleteProject (name : string) : prog (result ()) :=
  exec (λ d, Ok match project_at d name with
                | None => (false, None)
                | Some _ => (true, Some (drop_row (project_key name) d))
                end) ≫= λ res,
  Ret match res with
      | Err e => Err (sql_err "delete project" name e)
      | Ok false => Err (project_err ErrNotFound name)
      | Ok true => Ok ()
      end.

(** The transaction: lock and read, check the lifetime, ask [blocker], run
    [attach], delete, commit. Its inner result is what the function returns
    when the database answers; nothing is written unless that is success. *)
Definition finalize_tx (name uid : string) (blocker : Project → string)
    (attach : option (DB → result DB)) (d : DB) : result (result () * option DB) :=
  match select_project name d with
  | None => Ok (Err (project_err ErrNotFound name), None)
  | Some project =>
      if decide (om_UID (p_Meta project) ≠ uid) then Ok (Err (lifetime_err name uid), None)
      else if decide (blocker project ≠ EmptyString) then
        Ok (Err (FinalizationBlockedError name (blocker project)), None)
      else
        match match attach with None => Ok d | Some f => f d end with
        | Err e => Ok (Err e, None)
        | Ok d' => Ok (Ok (), Some (drop_row (project_key name) d'))
        end
  end.

Definition finalizeProject (name uid : string) (blocker : Project → string)
    (attach : option (DB → result DB)) : prog (result ()) :=
  exec (finalize_tx name uid blocker attach) ≫= λ res,
  Ret match res with
      | Err e => Err (sql_err "finalize project" name e)
      | Ok res => res
      end.

Definition FinalizeProject (name uid : string) (blocker : Project → string) : prog (result ()) :=
  finalizeProject name uid blocker None.

(** ** Changing the spec *)

Definition specUpdatablePhases : list ProjectPhase :=
  [ProjectPhasePending; ProjectPhaseScheduled; ProjectPhaseRunning; ProjectPhaseFailed].

(** The parts of a Project that [change] decides. *)
Record SpecChange := {
  sc_Spec : ProjectSpec;
  sc_Labels : gmap string string;
  sc_Annotations : gmap string string
}.

Definition spec_conditions (cs : list Condition) (changed : bool) (revision : Z) (now : Time)
    : list Condition :=
  let cs := RemoveConditions cs [ConditionTypeRescheduleExhausted] in
  if changed then
    UpsertCondition cs
      (mkCondition ConditionTypeSpecApplied ConditionFalse ReasonSpecUpdatePending
         ("spec revision " ++ FormatInt revision ++ " is not running yet")%string now) true
  else cs.

Definition next_revision (r : ProjectRow) (c : SpecChange) : Z :=
  if decide (row_Spec r = sc_Spec c) then row_SpecRevision r else add64 (row_SpecRevision r) 1.

Definition spec_status (r : ProjectRow) (c : SpecChange) (now : Time) : ProjectStatus :=
  let s := st_with_FailedNodes [] (row_status r) in
  st_with_Conditions
    (spec_conditions (st_Conditions s) (negb (bool_decide (row_Spec r = sc_Spec c)))
       (next_revision r c) now) s.

(** SET spec, labels, annotations, status, spec_revision; the phase column
    stays. *)
Definition spec_row (r : ProjectRow) (c : SpecChange) (now : Time) : ProjectRow :=
  {| row_UID := row_UID r; row_Phase := row_Phase r; row_Spec := sc_Spec c;
     row_Status := marshal_status (spec_status r c now); row_Labels := sc_Labels c;
     row_Annotations := sc_Annotations c; row_CreatedAt := row_CreatedAt r; row_UpdatedAt := now;
     row_Version := row_Version r + 1; row_SpecRevision := next_revision r c |}%Z.

Definition spec_tx (name : string) (change : Project → result SpecChange) (now : Time) (d : DB)
    : result (result Project * option DB) :=
  match project_at d name with
  | None => Ok (Err (project_err ErrNotFound name), None)
  | Some r =>
      let current := project_of_row (project_key name) r in
      if decide (st_Phase (p_Status current) ∉ specUpdatablePhases) then
        Ok (Err (Wrap EmptyString (Sentinel ErrConflictState)
              (": project " ++ Quote name ++ " is " ++ st_Phase (p_Status current)
               ++ "; its spec can no longer change")%string), None)
      else
        match change current with
        | Err e => Ok (Err e, None)
        | Ok c =>
            if bool_decide (row_Version r < max_int64)%Z then
              Ok (Ok (project_of_row (project_key name) (spec_row r c now)),
                  Some (put_row (project_key name) (spec_row r c now) d))
            else Err bigint_overflow
        end
  end.

Definition changeSpec (name : string) (change : Project → result SpecChange)
    : prog (result Project) :=
  now_ ≫= λ now,
  exec (spec_tx name change now) ≫= λ res,
  match res with
  | Err e => Ret (Err (sql_err "update project spec" name e))
  | Ok (Err e) => Ret (Err e)
  | Ok (Ok stored) => publish TopicProjectUpdated name ≫= λ _, Ret (Ok stored)
  end.

Definition spec_conflict (name rest : string) : error :=
  Wrap EmptyString (Sentinel ErrConflictState) (": project " ++ Quote name ++ ": " ++ rest)%string.

(** The closure of UpdateProjectSpec. *)
Definition update_change (project current : Project) : result SpecChange :=
  let name := om_Name (p_Meta project) in
  if negb (SameBackupItems (p_Spec current) (p_Spec project)) then
    Err (spec_conflict name "spec.backup.items cannot change after the Project is created")
  else
    match
      if decide (st_NodeRef (p_Status current) ≠ EmptyString)
      then CheckAssignedSpecChange (p_Spec current) (p_Spec project) else None
    with
    | Some refusal => Err (spec_conflict name (SpecChangeRefusal_Error refusal))
    | None =>
        Ok {| sc_Spec := sp_with_RestartedAt
                match sp_RestartedAt (p_Spec project) with
                | None => sp_RestartedAt (p_Spec current)
                | Some t => Some t
                end (p_Spec project);
              sc_Labels := om_Labels (p_Meta project);
              sc_Annotations := om_Annotations (p_Meta project) |}
    end.

(** What the caller's Project looks like after a successful call. *)
Definition spec_stored (project stored : Project) : Project :=
  {| p_Meta := {| om_Name := om_Name (p_Meta project); om_UID := om_UID (p_Meta project);
                  om_Namespace := om_Namespace (p_Meta stored);
                  om_ResourceVersion := om_ResourceVersion (p_Meta stored);
                  om_SpecRevision := om_SpecRevision (p_Meta stored);
                  om_Labels := om_Labels (p_Meta project);
                  om_Annotations := om_Annotations (p_Meta project);
                  om_CreatedAt := om_CreatedAt (p_Meta project);
                  om_UpdatedAt := om_UpdatedAt (p_Meta project) |};
     p_Spec := sp_with_RestartedAt (sp_RestartedAt (p_Spec stored)) (p_Spec project);
     p_Status := p_Status project |}.

Definition UpdateProjectSpec (project : Project) : prog (result Project) :=
  stored ←? changeSpec (om_Name (p_Meta project)) (update_change project);
  Ret (Ok (spec_stored project stored)).

Definition RestartProject (name : string) (at_ : Time) : prog (result Project) :=
  changeSpec name (λ current,
    Ok {| sc_Spec := sp_with_RestartedAt (Some at_) (p_Spec current);
          sc_Labels := om_Labels (p_Meta current);
          sc_Annotations := om_Annotations (p_Meta current) |}).

#[global] Arguments spec_tx : simpl never.
#[global] Arguments finalize_tx : simpl never.
#[global] Arguments insert_project : simpl never.

(** ** The contract *)

Lemma spec_row_ok r c now :
  row_inv r → (row_Version r < max_int64)%Z →
  row_inv (spec_row r c now) ∧ row_evolves r (spec_row r c now).
Proof.
  intros Hri Hv. pose proof (ri_revision _ Hri) as Hrev. pose proof (ri_version _ Hri) as Hver.
  pose proof (ri_generation _ Hri). pose proof (ri_observed _ Hri).
  pose proof (si_observed _ _ (ri_status _ Hri)).
  assert (row_SpecRevision r ≤ next_revision r c ≤ row_SpecRevision r + 1)%Z as Hn.
  { unfold next_revision. case_decide; [lia|].
    rewrite add64_id by (unfold in_int64, min_int64; lia). lia. }
  assert (same_core (row_status r) (spec_status r c now)) as Hc by (by split).
  destruct (legal_core (row_UID r) 0 _ _ (ri_status _ Hri) Hc) as [Hi He _ _].
  destruct Hc as [Hph _ Hgen _ Hobs _ _]. pose proof (ri_phase _ Hri) as Hrp.
  split; split; unfold row_status; simpl; fold (row_status r); try done; try lia; try congruence.
Qed.

Lemma finalizable_removable r :
  finalizable (row_status r) → removable r.
Proof. intros [Hall [[_ Ho]|(_ & Hn & _)]]; split; auto. Qed.

Lemma never_held_removable r : never_held (row_status r) → removable r.
Proof.
  intros (_ & _ & Hn & _ & Ho). split; [|by left]. rewrite Ho. by intros o []%elem_of_nil.
Qed.

(** What makes a record removable accounts for every assignment the Project was
    ever given. *)
Lemma removable_complete r g :
  row_inv r → removable r → (1 ≤ g ≤ st_AssignmentGeneration (row_status r))%Z →
  ∃ o, o ∈ obligations (row_status r) ∧ ai_Generation (ob_Assignment o) = g ∧
       ob_ResourcesRemoved o ≠ None.
Proof.
  intros Hri [Hall Hcur] Hg.
  destruct (si_complete _ _ (ri_status _ Hri) g Hg) as [Hin|[-> Hn]].
  - unfold generations in Hin. apply list_elem_of_fmap in Hin as (o & -> & Ho). eauto.
  - destruct Hcur as [?|(o & Ho & _ & Hgen)]; [done|]. eauto.
Qed.

Section project_safe.
Context `{UUIDSource}.

Lemma safe_changeSpec name change : safe others (changeSpec name change).
Proof.
  apply safe_bind; [by apply safe_now|]. intros now. apply safe_bind.
  - apply safe_exec; [done|]. intros d res d' Hinv. unfold spec_tx.
    destruct (project_at d name) as [r|] eqn:Er; [|done].
    case_decide; [done|]. destruct (change _) as [c|e]; [|done].
    case_bool_decide as Hv; [|done]. intros [= <- <-].
    destruct (Hinv _ _ Er) as [Hri _]. destruct (spec_row_ok r c now Hri Hv) as [Hri' He].
    split; [split|].
    + by eapply put_row_evolves.
    + intros _. by eapply put_row_inv.
    + by eapply put_row_finalized.
  - intros [[stored|e]|e]; [|apply safe_ret..].
    apply safe_bind; [apply safe_publish|]. intros []. apply safe_ret.
Qed.

Lemma safe_UpdateProjectSpec project : safe others (UpdateProjectSpec project).
Proof. apply safe_try_bind; [apply safe_changeSpec|]. intros a. apply safe_ret. Qed.

Lemma safe_RestartProject name at_ : safe others (RestartProject name at_).
Proof. apply safe_changeSpec. Qed.

Lemma new_row_inv uid project now :
  same_core InitialProjectStatus (p_Status project) → row_inv (new_row uid project now).
Proof.
  intros Hs. pose proof (status_inv_core uid _ _ Hs (initial_status_inv uid)) as Hi.
  pose proof (sc_generation _ _ Hs) as Hg. pose proof (sc_observed _ _ Hs) as Ho. simpl in Hg, Ho.
  split; unfold row_status; simpl; unfold max_int64; rewrite ?Hg, ?Ho; try done; lia.
Qed.

Lemma safe_CreateProject project :
  same_core InitialProjectStatus (p_Status project) → safe others (CreateProject project).
Proof.
  intros Hs. apply safe_bind; [by apply safe_now|]. intros now. apply safe_bind.
  - apply safe_exec; [done|]. intros d res d' Hinv. unfold insert_project.
    destruct (db_Projects d !! _) eqn:Ek; [done|]. intros [= <- <-].
    by apply insert_row_others; [|apply new_row_inv|].
  - intros [[stored|]|e]; [|apply safe_ret..].
    apply safe_bind; [apply safe_publish|]. intros []. apply safe_ret.
Qed.

Lemma safe_FinalizeProject name uid blocker :
  (∀ r, row_inv r → blocker (project_of_row (project_key name) r) = EmptyString → removable r) →
  safe others (FinalizeProject name uid blocker).
Proof.
  intros Hb. apply safe_bind; [|intros a; apply safe_ret].
  apply safe_exec; [done|]. intros d res d' Hinv. unfold finalize_tx, select_project.
  destruct (project_at d name) as [r|] eqn:Er; simpl; [|done].
  case_decide; [done|]. case_decide as Hbl; [done|]. intros [= <- <-].
  destruct (Hinv _ _ Er) as [Hri _].
  split; [apply drop_row_others|]. eapply drop_row_finalized; [done|]. auto.
Qed.
End project_safe.

(** ** Properties *)

Lemma wp_transaction `{UUIDSource} {R : Set} {A : Type} (q : DB → result (R * option DB))
    (k : result R → prog A) (Q : A → DB → list Event → Prop) d0 h :
  (∀ d, others d0 d →
     (∀ e, is_fault e = true → wp others (λ _ _, True) (k (Err e)) Q d h) ∧
     match q d with
     | Err e => wp others (λ _ _, True) (k (Err e)) Q d h
     | Ok (r, None) => wp others (λ _ _, True) (k (Ok r)) Q d h
     | Ok (r, Some d2) =>
         wp others (λ _ _, True) (k (Ok r)) Q d2 (h ++ [Wrote d d2]) ∧
         ∀ e, is_fault e = true → wp others (λ _ _, True) (k (Err e)) Q d2 (h ++ [Wrote d d2])
     end) →
  wp others (λ _ _, True) (exec q ≫= k) Q d0 h.
Proof.
  intros Hq. apply wp_bind, wp_exec.
  - intros d e Hd He. by apply (Hq d Hd).
  - intros d Hd. destruct (Hq d Hd) as [_ Hx].
    destruct (q d) as [[r [d2|]]|e]; [|exact Hx..]. by destruct Hx.
Qed.

(** C31 (store.go, finalizeProject; finalization.go, FinalizationBlocker): a
    record stops existing only when nothing it stands for is left. Under any
    interference the call removes at most one row, and only the row of the
    lifetime it names; at the moment of removal every assignment that lifetime
    was ever given, from generation 1 to the last, has a cleanup obligation with
    ResourcesRemoved evidence. Success means the row was removed; a blocked,
    stale or missing Project is an error and nothing is written. *)
Theorem FinalizeProject_removes_only_cleaned `{UUIDSource} (name uid : string)
    (ms : list move) (d0 : DB) (Hinv : db_inv d0) (Hms : schedule_ok ms) :
  let x := run (FinalizeProject name uid FinalizationBlocker) ms d0 [] in
  (history_of x = [] ∧ ∃ e, result_of x = Err e) ∨
  (∃ d1 r, others d0 d1 ∧ project_at d1 name = Some r ∧ row_UID r = uid ∧
     history_of x = [Wrote d1 (drop_row (project_key name) d1)] ∧
     (result_of x = Ok () ∨ ∃ e, result_of x = Err e ∧ is_fault e = true) ∧
     deleting (row_status r) ∧
     ∀ g, (1 ≤ g ≤ st_AssignmentGeneration (row_status r))%Z →
       ∃ o, o ∈ obligations (row_status r) ∧ ai_Generation (ob_Assignment o) = g ∧
            ProjectUID (ob_Assignment o) = uid ∧ ob_ResourcesRemoved o ≠ None).
Proof.
  intros x. subst x. run_wp (FinalizeProject name uid FinalizationBlocker) ms d0.
  apply wp_transaction. intros d Hd. split; [intros e He; apply wp_ret; left; eauto|].
  unfold finalize_tx, select_project. destruct (project_at d name) as [r|] eqn:Er; simpl;
    [|apply wp_ret; left; eauto].
  case_decide as Hu; [apply wp_ret; left; eauto|].
  case_decide as Hb; [apply wp_ret; left; eauto|].
  apply FinalizationBlocker_empty in Hb. simpl in Hb.
  destruct (proj2 Hd Hinv _ _ Er) as [Hri _].
  assert (deleting (row_status r) ∧ ∀ g, (1 ≤ g ≤ st_AssignmentGeneration (row_status r))%Z →
    ∃ o, o ∈ obligations (row_status r) ∧ ai_Generation (ob_Assignment o) = g ∧
         ProjectUID (ob_Assignment o) = uid ∧ ob_ResourcesRemoved o ≠ None) as [Hdel Hall].
  { split; [destruct Hb as [_ [[? _]|[? _]]]; [by right|by left]|].
    intros g Hg. destruct (removable_complete r g Hri (finalizable_removable r Hb) Hg)
      as (o & Ho & Hog & Hrr).
    exists o. split_and!; try done. rewrite <- Hu. apply (si_lifetime _ _ (ri_status _ Hri) o Ho). }
  split; [|intros e He]; apply wp_ret; right; exists d, r; split_and!; eauto.
Qed.

(** A torn down Project: Node "a" held generation 1 and has removed everything. *)
Definition cleaned_status : ProjectStatus :=
  let a := assignmentIdentity example_ref in
  let owed := update_recovery (AddObligation a 5%Z ReleaseByDeletion)
    (st_with_Phase ProjectPhaseTerminated (running_status "a")) in
  match st_Recovery owed with
  | Some r => st_with_Recovery
      (edit_obligation a (ob_with_ResourcesRemoved (Some {| rr_ObservedAt := 6 |}))%Z r) owed
  | None => owed
  end.

Definition cleaned_obligation : CleanupObligation :=
  ob_with_ResourcesRemoved (Some {| rr_ObservedAt := 6%Z |})
    (new_obligation (assignmentIdentity example_ref) 5%Z ReleaseByDeletion).

Lemma cleaned_db_inv : @db_inv counter_uuids (example_db cleaned_status 4).
Proof.
  apply example_db_inv; [unfold max_int64; lia|simpl; lia|simpl; lia|].
  assert (obligations cleaned_status = [cleaned_obligation]) as Ho by reflexivity.
  split; unfold generations; rewrite ?Ho; simpl; try done; try lia.
  - apply NoDup_singleton.
  - intros o ->%list_elem_of_singleton. simpl. split; [done|lia].
  - intros g Hg. left. apply list_elem_of_singleton. lia.
Qed.

Lemma FinalizeProject_removes_only_cleaned_witness :
  let x := run (FinalizeProject "shop" (counter_uuid 0) FinalizationBlocker) []
             (example_db cleaned_status 4) [] in
  result_of x = Ok () ∧ project_at (db_of x) "shop" = None ∧ length (history_of x) = 1.
Proof.
  intros x. split; [vm_compute; reflexivity|]. split; [vm_compute; reflexivity|].
  destruct (@FinalizeProject_removes_only_cleaned counter_uuids "shop" (counter_uuid 0) []
    (example_db cleaned_status 4) cleaned_db_inv ltac:(by constructor))
    as [[Hh _]|(d1 & r & _ & _ & _ & Hh & _)].
  - exfalso. vm_compute in Hh. discriminate.
  - subst x. by rewrite Hh.
Defined.

(** A record inserted, as a lifetime of its own, and announced. *)
Definition creation `{UUIDSource} (project : Project) (d0 : DB) (h : list Event)
    (res : result Project) (h' : list Event) : Prop :=
  let key := project_row_key project in
  (h' = h ∧ ∃ e, res = Err e ∧ (is_fault e = true ∨ e = Sentinel ErrAlreadyExists)) ∨
  (∃ d1 now, let uid := uuid_NewString (db_Issued d1) in
     let r := new_row uid project now in
     let d2 := insert_row key r d1 in
     others d0 d1 ∧ db_Projects d1 !! key = None ∧ db_Projects d2 !! key = Some r ∧
     (∀ d key' r', d = d0 ∨ d = d1 → db_Projects d !! key' = Some r' → row_UID r' ≠ uid) ∧
     row_Version r = 1%Z ∧ row_SpecRevision r = 1%Z ∧ row_Spec r = p_Spec project ∧
     row_status r = p_Status project ∧
     ((res = Ok (project_of_row key r) ∧
       h' = h ++ [Wrote d1 d2; Published TopicProjectCreated (om_Name (p_Meta project))]) ∨
      (∃ e, res = Err e ∧ is_fault e = true ∧ h' = h ++ [Wrote d1 d2]))).

Lemma wp_CreateProject `{UUIDSource} project d0 h :
  db_inv d0 →
  wp others (λ _ _, True) (CreateProject project) (λ res _ h', creation project d0 h res h') d0 h.
Proof.
  intros Hinv. unfold creation. set (key := project_row_key project).
  apply wp_bind, wp_now. intros now d' Hd'. apply wp_transaction. intros d Hd.
  split; [intros e He; apply wp_ret; left; eauto|].
  assert (others d0 d) as Hd0 by (by trans d'). unfold insert_project. fold key.
  destruct (db_Projects d !! key) eqn:Ek; [apply wp_ret; left; eauto|].
  assert (∀ d2 key' r', d2 = d0 ∨ d2 = d → db_Projects d2 !! key' = Some r' →
    row_UID r' ≠ uuid_NewString (db_Issued d)) as Hfresh.
  { intros d2 key' r' Hd2 Hr Heq.
    assert (db_inv d2 ∧ db_Issued d2 ≤ db_Issued d) as [Hinv2 Hle].
    { pose proof (de_issued _ _ (proj1 Hd0)). pose proof (proj2 Hd0 Hinv).
      destruct Hd2 as [->| ->]; by split. }
    destruct (Hinv2 _ _ Hr) as [_ (k & Hk & Hu)]. rewrite Hu in Heq.
    apply (inj uuid_NewString) in Heq. lia. }
  split; [|intros e He].
  - apply wp_bind, wp_publish, wp_ret. right. exists d, now. cbv zeta.
    rewrite <- app_assoc. split_and!; try done; [simpl; by rewrite lookup_insert_eq|by left].
  - apply wp_ret. right. exists d, now. cbv zeta.
    split_and!; try done; [simpl; by rewrite lookup_insert_eq|]. right. eexists. by split_and!.
Qed.

(** (store.go, CreateProject): a new record starts a lifetime of its own.
    Under any interference the call inserts at most one row, where none was;
    its UID is carried by no row of the database now or when the call began,
    its version and spec revision are 1, its spec and status are those given,
    and its creation is announced once. An existing name is ErrAlreadyExists
    and nothing is written. *)
Theorem CreateProject_starts_lifetime `{UUIDSource} (project : Project)
    (ms : list move) (d0 : DB) (Hinv : db_inv d0) (Hms : schedule_ok ms) :
  let x := run (CreateProject project) ms d0 [] in
  let key := project_row_key project in
  (history_of x = [] ∧ ∃ e, result_of x = Err e ∧ (is_fault e = true ∨ e = Sentinel ErrAlreadyExists)) ∨
  (∃ d1 now, let uid := uuid_NewString (db_Issued d1) in
     let r := new_row uid project now in
     let d2 := insert_row key r d1 in
     others d0 d1 ∧ db_Projects d1 !! key = None ∧ db_Projects d2 !! key = Some r ∧
     (∀ d key' r', d = d0 ∨ d = d1 → db_Projects d !! key' = Some r' → row_UID r' ≠ uid) ∧
     row_Version r = 1%Z ∧ row_SpecRevision r = 1%Z ∧ row_Spec r = p_Spec project ∧
     row_status r = p_Status project ∧
     ((result_of x = Ok (project_of_row key r) ∧
       history_of x = [Wrote d1 d2; Published TopicProjectCreated (om_Name (p_Meta project))]) ∨
      (∃ e, result_of x = Err e ∧ is_fault e = true ∧ history_of x = [Wrote d1 d2]))).
Proof.
  intros x key. exact (wp_adequate others (λ _ _, True) _ _ ms d0 [] ltac:(done) Hms
    (wp_CreateProject project d0 [] Hinv)).
Qed.

Definition example_project (name : string) (spec : ProjectSpec) : Project :=
  {| p_Meta := {| om_Name := name; om_UID := "ignored"; om_Namespace := EmptyString;
                  om_ResourceVersion := 0; om_SpecRevision := 0; om_Labels := ∅;
                  om_Annotations := ∅; om_CreatedAt := 0; om_UpdatedAt := 0 |}%Z;
     p_Spec := spec; p_Status := InitialProjectStatus |}.

Lemma CreateProject_starts_lifetime_witness :
  let x := run (@CreateProject counter_uuids (example_project "blog" empty_spec)) []
             (example_db (running_status "a") 3) [] in
  (∃ p, result_of x = Ok p ∧ om_UID (p_Meta p) = counter_uuid 1) ∧ length (history_of x) = 2.
Proof.
  intros x. split; [eexists; split; vm_compute; reflexivity|].
  destruct (@CreateProject_starts_lifetime counter_uuids (example_project "blog" empty_spec) []
    (example_db (running_status "a") 3) example_running_inv ltac:(by constructor))
    as [[Hh _]|(d1 & now & _ & _ & _ & _ & _ & _ & _ & _ & [[_ Hh]|(e & He & _)])].
  - exfalso. vm_compute in Hh. discriminate.
  - subst x. by rewrite Hh.
  - exfalso. vm_compute in He. discriminate.
Defined.

Lemma next_revision_exact r c :
  row_inv r → (row_Version r < max_int64)%Z →
  next_revision r c =
    if decide (sc_Spec c = row_Spec r) then row_SpecRevision r else (row_SpecRevision r + 1)%Z.
Proof.
  intros Hri Hv. pose proof (ri_revision _ Hri). pose proof (ri_observed _ Hri).
  pose proof (si_observed _ _ (ri_status _ Hri)). unfold next_revision.
  case_decide; [by rewrite decide_True|]. rewrite decide_False by congruence.
  apply add64_id. unfold in_int64, min_int64. lia.
Qed.

Lemma spec_status_conditions r c now :
  condition_of ConditionTypeRescheduleExhausted (st_Conditions (spec_status r c now)) = None ∧
  (sc_Spec c ≠ row_Spec r →
     cond_Status <$> condition_of ConditionTypeSpecApplied (st_Conditions (spec_status r c now)) =
     Some ConditionFalse).
Proof.
  unfold spec_status. cbn [st_Conditions st_with_Conditions]. unfold spec_conditions.
  set (cs := RemoveConditions _ _).
  assert (condition_of ConditionTypeRescheduleExhausted cs = None) as Hx
    by (subst cs; rewrite condition_of_remove; by rewrite bool_decide_true by (by left)).
  case_bool_decide as Hs; simpl negb; cbv iota.
  - split; [done|]. congruence.
  - split; [by rewrite condition_of_upsert_ne|]. intros _.
    set (k := mkCondition _ _ _ _ _). change ConditionTypeSpecApplied with (cond_Type k).
    rewrite condition_of_upsert. simpl. f_equal.
    by destruct (condition_of ConditionTypeSpecApplied cs).
Qed.

(** (store.go, UpdateProjectSpec and changeSpec): a spec is accepted only
    against the row it replaces. Under any interference the call writes at most
    once, and the row it writes is, at that moment, in a phase whose spec may
    change, has the same backup items, and, if it is assigned, admits the change
    (CheckAssignedSpecChange). The write stores the given spec (keeping the last
    restart when it names none), raises the spec revision by one exactly when the
    content changed and then marks SpecApplied False in the same write, gives the
    retry budget back, and leaves the phase, the assignment and the obligations
    as they were. *)
Theorem UpdateProjectSpec_exact `{UUIDSource} (project : Project)
    (ms : list move) (d0 : DB) (Hinv : db_inv d0) (Hms : schedule_ok ms) :
  let x := run (UpdateProjectSpec project) ms d0 [] in
  let name := om_Name (p_Meta project) in
  (history_of x = [] ∧ ∃ e, result_of x = Err e) ∨
  (∃ d1 r r', let d2 := put_row (project_key name) r' d1 in
     others d0 d1 ∧ project_at d1 name = Some r ∧
     st_Phase (row_status r) ∈ specUpdatablePhases ∧
     SameBackupItems (row_Spec r) (p_Spec project) = true ∧
     (st_NodeRef (row_status r) ≠ EmptyString →
        CheckAssignedSpecChange (row_Spec r) (p_Spec project) = None) ∧
     row_Spec r' = sp_with_RestartedAt
       match sp_RestartedAt (p_Spec project) with
       | None => sp_RestartedAt (row_Spec r) | Some t => Some t end (p_Spec project) ∧
     row_SpecRevision r' =
       (if decide (row_Spec r' = row_Spec r) then row_SpecRevision r else row_SpecRevision r + 1)%Z ∧
     (row_Spec r' ≠ row_Spec r →
        cond_Status <$> condition_of ConditionTypeSpecApplied (st_Conditions (row_status r')) =
        Some ConditionFalse) ∧
     condition_of ConditionTypeRescheduleExhausted (st_Conditions (row_status r')) = None ∧
     st_FailedNodes (row_status r') = [] ∧ same_core (row_status r) (row_status r') ∧
     row_UID r' = row_UID r ∧ row_Phase r' = row_Phase r ∧
     row_Version r' = (row_Version r + 1)%Z ∧
     ((∃ p, result_of x = Ok p ∧ om_SpecRevision (p_Meta p) = row_SpecRevision r' ∧
         p_Spec p = row_Spec r' ∧ history_of x = [Wrote d1 d2; Published TopicProjectUpdated name]) ∨
      (∃ e, result_of x = Err e ∧ is_fault e = true ∧ history_of x = [Wrote d1 d2]))).
Proof.
  intros x name. subst x. run_wp (UpdateProjectSpec project) ms d0.
  apply wp_bind. apply wp_bind, wp_now. intros now d' Hd'. apply wp_transaction. intros d Hd.
  split; [intros e He; apply wp_ret, wp_ret; left; eauto|].
  assert (others d0 d) as Hd0 by (by trans d'). unfold spec_tx. fold name.
  destruct (project_at d name) as [r|] eqn:Er; [|apply wp_ret, wp_ret; left; eauto].
  cbn [p_Status project_of_row]. case_decide as Hph; [apply wp_ret, wp_ret; left; eauto|].
  destruct (update_change project _) as [c|e] eqn:Ec; [|apply wp_ret, wp_ret; left; eauto].
  case_bool_decide as Hv; [|apply wp_ret, wp_ret; left; eauto].
  unfold update_change in Ec. cbn [p_Status p_Spec project_of_row] in Ec.
  destruct (SameBackupItems _ _) eqn:Eb; [|done]. simpl negb in Ec; cbv iota in Ec.
  destruct (if decide (st_NodeRef _ ≠ EmptyString) then _ else None) eqn:Er'; [done|].
  injection Ec as <-. destruct (proj2 Hd0 Hinv _ _ Er) as [Hri _].
  set (c := {| sc_Spec := _ |}). destruct (spec_status_conditions r c now) as [Hc1 Hc2].
  assert (st_NodeRef (row_status r) ≠ EmptyString →
    CheckAssignedSpecChange (row_Spec r) (p_Spec project) = None) as Hass.
  { intros Hn. by rewrite decide_True in Er' by done. }
  assert (same_core (row_status r) (row_status (spec_row r c now))) as Hcore by (by split).
  split; [|intros e He].
  - apply wp_bind, wp_publish, wp_ret, wp_ret. right. exists d, r, (spec_row r c now).
    rewrite <- app_assoc. split_and!; try done; [by apply next_revision_exact|].
    left. eexists. by split_and!.
  - apply wp_ret, wp_ret. right. exists d, r, (spec_row r c now).
    split_and!; try done; [by apply next_revision_exact|].
    right. eexists. by split_and!.
Qed.

Lemma UpdateProjectSpec_exact_witness :
  let p := example_project "shop" (spec_example "small" []) in
  let x := run (UpdateProjectSpec p) [] (example_db InitialProjectStatus 3) [] in
  ∃ r, project_at (db_of x) "shop" = Some r ∧ row_SpecRevision r = 2%Z ∧ length (history_of x) = 2.
Proof.
  intros p x. eexists. split; [vm_compute; reflexivity|]. split; [reflexivity|].
  destruct (@UpdateProjectSpec_exact counter_uuids p [] (example_db InitialProjectStatus 3)
    ltac:(apply example_db_inv; [unfold max_int64; lia|simpl; lia|simpl; lia|apply initial_status_inv])
    ltac:(by constructor))
    as [[Hh _]|(d1 & r & r' & _ & _ & _ & _ & _ & _ & _ & _ & _ & _ & _ & _ & _ & _ & [(q & _ & _ & _ & Hh)|(e & He & _)])].
  - exfalso. vm_compute in Hh. discriminate.
  - subst x. by rewrite Hh.
  - exfalso. vm_compute in He. discriminate.
Defined.
