(* ===== verification/Takeover.v ===== *)
(** The operator takeover (internal/store/postgres/store.go): an operator's
    override of the release gate, recorded in the audit table in the same
    transaction that releases the assignment, once per request ID. *)
From Stdlib Require Import ZArith Lia.
From stdpp Require Import prelude gmap strings.
From S2P Require Import Prelude.
From S2P Require Import Conditions.
From S2P Require Import ProjectTypes.
From S2P Require Import Lifecycle.
From S2P Require Import AccessTypes.
From S2P Require Import Database.
From S2P Require Import Evolution.
From S2P Require Import StatusStore.
From S2P Require Import Legality.
Import GoTime GoInt GoString GoError.
Open Scope go_scope.

Definition stale (rest : string) : error := Wrap EmptyString (Sentinel ErrStaleAssignment) rest.
Definition conflict (rest : string) : error := Wrap EmptyString (Sentinel ErrConflictState) rest.

(** ** The decision *)

Definition takeover_marked (cs : list Condition) : bool :=
  existsb (λ c, bool_decide (cond_Type c = ConditionTypeTakeoverRequired) &&
                bool_decide (cond_Status c = ConditionTrue)) cs.

Definition takeover_release (assignment : AssignmentIdentity) (now : Time) (status : ProjectStatus)
    : ProjectStatus :=
  let transitioned := negb (bool_decide (st_Phase status = ProjectPhasePending)) in
  let s := update_recovery (OverrideRelease assignment now)
    (st_with_NodeRef EmptyString (st_with_Phase ProjectPhasePending status)) in
  st_with_Conditions
    (UpsertCondition
       (RemoveConditions (st_Conditions s)
          [ConditionTypeNotReadyAt; ConditionTypeTerminatingAt; ConditionTypeTakeoverRequired])
       (mkCondition ConditionTypePhase ConditionTrue "OperatorTakeover"
          "An operator took over without proof the workload stopped; project released for rescheduling"
          now) transitioned) s.

Definition applyOperatorTakeover (status : ProjectStatus) (assignment : AssignmentIdentity)
    (now : Time) : result (TakeoverOutcome * ProjectStatus) :=
  if negb (bool_decide (st_AssignmentGeneration status = ai_Generation assignment)) then
    Err (stale (": generation " ++ FormatInt (ai_Generation assignment) ++ " is not the latest")%string)
  else if decide (st_NodeRef status = EmptyString) then
    match FindObligation (st_Recovery status) assignment with
    | None => Err (stale ": no released assignment to take over")
    | Some o =>
        if negb (bool_decide (st_Phase status = ProjectPhasePending)) then
          Err (stale ": no released assignment to take over")
        else if PermitsAssignment o then
          Err (conflict ": the assignment is not blocking the project")
        else Ok (TakeoverObligationOverridden, update_recovery (OverrideRelease assignment now) status)
    end
  else if negb (bool_decide (st_NodeRef status = NodeName assignment)) then
    Err (stale ": project is assigned to another node")
  else if negb (PhaseTransitionAllowed WriterOperatorTakeover (st_Phase status) ProjectPhasePending) then
    Err (conflict (": project is " ++ st_Phase status)%string)
  else if negb (takeover_marked (st_Conditions status)) then
    Err (conflict (": project is not marked " ++ ConditionTypeTakeoverRequired)%string)
  else Ok (TakeoverReleased, takeover_release assignment now status).

(** ** The transaction *)

Record TakeoverAudit := { ta_RequestID : string; ta_Caller : string; ta_Note : string }.

Definition audit_of (requestID : string) (d : DB) : option TakeoverAuditRecord :=
  find_first (λ r, bool_decide (tar_RequestID r = requestID)) (db_Audit d).

Definition takeoverByRequestID (requestID : string) : prog (result (option TakeoverAuditRecord)) :=
  query (λ d, Ok (audit_of requestID d)) ≫= λ res,
  Ret match res with
      | Err e => Err (sql_err "get takeover request" requestID e)
      | Ok r => Ok r
      end.

(** How the transaction ends when the database answers: ON CONFLICT
    (request_id) DO NOTHING inserted nothing, the UPDATE matched no row, or it
    committed. *)
Inductive takeover_answer := RequestKnown | RowMissed | Committed.

Definition takeover_write (name : string) (status : ProjectStatus) (record : TakeoverAuditRecord)
    (r : ProjectRow) (d : DB) : DB :=
  put_row (project_key name) (commit_status status (tar_CreatedAt record) r)
    (db_with_Audit (db_Audit d ++ [record]) d).

Definition takeover_tx (name : string) (expectedVersion : Z) (uid : string)
    (status : ProjectStatus) (record : TakeoverAuditRecord) (d : DB)
    : result (takeover_answer * option DB) :=
  match audit_of (tar_RequestID record) d with
  | Some _ => Ok (RequestKnown, None)
  | None =>
      match project_at d name with
      | None => Ok (RowMissed, None)
      | Some r =>
          if bool_decide (row_Version r = expectedVersion) && bool_decide (row_UID r = uid) then
            if bool_decide (row_Version r < max_int64)%Z
            then Ok (Committed, Some (takeover_write name status record r d))
            else Err bigint_overflow
          else Ok (RowMissed, None)
      end
  end.

Definition commitTakeover (name : string) (expectedVersion : Z) (uid : string)
    (status : ProjectStatus) (record : TakeoverAuditRecord) : prog (result ()) :=
  exec (takeover_tx name expectedVersion uid status record) ≫= λ res,
  match res with
  | Err e => Ret (Err (sql_err "takeover" name e))
  | Ok RequestKnown =>
      Ret (Err (Wrap EmptyString (Sentinel ErrVersionConflict)
             (": takeover request " ++ Quote (tar_RequestID record))%string))
  | Ok RowMissed => classifyUIDSwapMiss name uid
  | Ok Committed => Ret (Ok ())
  end.

(** ** The request *)

(** The status and the record one attempt would write. *)
Definition takeover_decision (name : string) (ref : AssignmentRef) (audit : TakeoverAudit)
    (now : Time) (project : Project) : result (ProjectStatus * TakeoverAuditRecord) :=
  let assignment := assignmentIdentity ref in
  let evidence := if WorkloadStoppedFor (st_Recovery (p_Status project)) assignment
                  then ReleaseByWorkloadStopped else "None"%string in
  match applyOperatorTakeover (p_Status project) assignment now with
  | Err e => Err (Wrap ("project " ++ Quote name ++ ": ")%string e EmptyString)
  | Ok (outcome, next) =>
      Ok (if HasManagedVolume (p_Spec project)
          then update_recovery (OweManagedData assignment) next else next,
          {| tar_RequestID := ta_RequestID audit; tar_Namespace := defaultNamespace;
             tar_ProjectName := name; tar_Assignment := assignment; tar_Evidence := evidence;
             tar_Outcome := outcome; tar_Caller := ta_Caller audit; tar_Note := ta_Note audit;
             tar_CreatedAt := now |})
  end.

Definition takeover_attempt (name : string) (ref : AssignmentRef) (audit : TakeoverAudit) (x : ())
    : prog (() * attempt (result (TakeoverAuditRecord * bool))) :=
  takeoverByRequestID (ta_RequestID audit) ≫= λ found,
  match found with
  | Err e => Ret (x, Return (Err e))
  | Ok (Some prior) =>
      if decide (tar_ProjectName prior ≠ name ∨ tar_Assignment prior ≠ assignmentIdentity ref) then
        Ret (x, Return (Err (conflict ": request ID belongs to another takeover")))
      else Ret (x, Return (Ok (prior, true)))
  | Ok None =>
      getProject name ≫= λ res,
      match res with
      | Err e =>
          Ret (x, Return (Err (if Is e ErrNotFound then project_err ErrNotFound name else e)))
      | Ok project =>
          if decide (om_UID (p_Meta project) ≠ ref_UID ref) then
            Ret (x, Return (Err (lifetime_err name (ref_UID ref))))
          else
            now_ ≫= λ now,
            match takeover_decision name ref audit now project with
            | Err e => Ret (x, Return (Err e))
            | Ok (next, record) =>
                commitTakeover name (om_ResourceVersion (p_Meta project)) (ref_UID ref) next record
                ≫= λ res,
                match res with
                | Ok _ => publish TopicProjectUpdated name ≫= λ _, Ret (x, Return (Ok (record, false)))
                | Err e => if Is e ErrVersionConflict then Ret (x, Again e)
                           else Ret (x, Return (Err e))
                end
            end
      end
  end.

Definition zero_record : TakeoverAuditRecord :=
  {| tar_RequestID := EmptyString; tar_Namespace := EmptyString; tar_ProjectName := EmptyString;
     tar_Assignment := {| ProjectUID := EmptyString; NodeName := EmptyString; ai_Generation := 0 |};
     tar_Evidence := EmptyString; tar_Outcome := EmptyString; tar_Caller := EmptyString;
     tar_Note := EmptyString; tar_CreatedAt := zero |}.

Definition TakeoverProject (name : string) (ref : AssignmentRef) (audit : TakeoverAudit)
    : prog (result (TakeoverAuditRecord * bool)) :=
  snd <$> retry maxStatusUpdateAttempts (takeover_attempt name ref audit)
            (Ok (zero_record, false)) ().

(** SELECT ... ORDER BY created_at, id: the audit is kept in id order, so a
    stable insertion by time. *)
Fixpoint insert_audit (r : TakeoverAuditRecord) (rs : list TakeoverAuditRecord)
    : list TakeoverAuditRecord :=
  match rs with
  | [] => [r]
  | r' :: rest => if bool_decide (tar_CreatedAt r ≤ tar_CreatedAt r')%Z
                  then r :: rs else r' :: insert_audit r rest
  end.

Definition ListTakeoverAudit (name : string) : prog (result (list TakeoverAuditRecord)) :=
  query (λ d, Ok (foldr insert_audit []
    (filter (λ r, tar_Namespace r = defaultNamespace ∧ tar_ProjectName r = name) (db_Audit d))))
  ≫= λ res,
  Ret match res with
      | Err e => Err (sql_err "list takeover audit" name e)
      | Ok rs => Ok rs
      end.

#[global] Arguments takeover_tx : simpl never.
#[global] Arguments commitTakeover : simpl never.

(** ** The contract *)

Lemma operator_edges from :
  PhaseTransitionAllowed WriterOperatorTakeover from ProjectPhasePending = true →
  from = ProjectPhaseScheduled ∨ from = ProjectPhaseRunning.
Proof.
  intros [He|(_ & ? & _)]%allowed_cases; [|done]. vm_compute in He. split_elem He; auto.
Qed.

(** What applyOperatorTakeover does when it accepts. *)
Lemma applyOperatorTakeover_cases uid s a now outcome s' :
  ProjectUID a = uid → applyOperatorTakeover s a now = Ok (outcome, s') →
  st_AssignmentGeneration s = ai_Generation a ∧
  ((st_NodeRef s = EmptyString ∧ st_Phase s = ProjectPhasePending ∧
    outcome = TakeoverObligationOverridden ∧
    s' = update_recovery (OverrideRelease a now) s ∧
    ∃ o, FindObligation (st_Recovery s) a = Some o ∧ PermitsAssignment o = false) ∨
   (st_NodeRef s ≠ EmptyString ∧ a = assignment_of uid s ∧
    (st_Phase s = ProjectPhaseScheduled ∨ st_Phase s = ProjectPhaseRunning) ∧
    takeover_marked (st_Conditions s) = true ∧ outcome = TakeoverReleased ∧
    s' = takeover_release a now s)).
Proof.
  intros Hu. unfold applyOperatorTakeover.
  destruct (bool_decide (st_AssignmentGeneration s = _)) eqn:Eg; [|done]. bools. simpl negb; cbv iota.
  case_decide as Hn.
  - destruct (FindObligation _ _) as [o|] eqn:Ho; [|done].
    destruct (bool_decide (st_Phase s = _)) eqn:Ep; [|done]. bools. simpl negb; cbv iota.
    destruct (PermitsAssignment o) eqn:Epm; [done|]. intros [= <- <-]. split; [done|].
    left. eauto 10.
  - destruct (bool_decide (st_NodeRef s = _)) eqn:En; [|done]. bools. simpl negb; cbv iota.
    destruct (PhaseTransitionAllowed _ _ _) eqn:Ep; [|done]. simpl negb; cbv iota.
    destruct (takeover_marked _) eqn:Em; [|done]. intros [= <- <-]. split; [done|]. right.
    split_and!; try done; [|by apply operator_edges].
    unfold assignment_of. rewrite En, Eg, <- Hu. by destruct a.
Qed.

Lemma takeover_legal uid s a now outcome s' (owe : bool) :
  ProjectUID a = uid → status_inv uid s → applyOperatorTakeover s a now = Ok (outcome, s') →
  legal uid 0 s (if owe then update_recovery (OweManagedData a) s' else s').
Proof.
  intros Hu Hi [Hg Hc]%(applyOperatorTakeover_cases uid); [|done].
  set (s2 := if owe then _ else _).
  assert (extended uid s s' → st_Recovery s' ≠ None → extended uid s s2) as Hext.
  { intros Hx Hr. subst s2. destruct owe; [by apply extended_OweManagedData|done]. }
  destruct Hc as [(Hn & HP & -> & -> & o & Ho & _)|(Hn & -> & HP & _ & -> & ->)].
  - apply legal_extended_kept; try done; try (subst s2; by destruct owe).
    apply Hext; [|done]. by apply extended_override_known.
  - assert (extended uid s s2) as Hx.
    { apply Hext; [|done]. eapply extended_recovery; [|by apply extended_OverrideRelease]. done. }
    apply legal_release; try done; try (subst s2; by destruct owe).
    + intros [HD|HD]; rewrite HD in HP; by destruct HP.
    + subst s2. destruct owe; simpl; rewrite ?OweManagedData_find, ?decide_True by done;
        unfold EnsureRecovery; simpl; rewrite OverrideRelease_find, decide_True by done; by eexists.
    + intros [HD|HD]; subst s2; destruct owe; done.
Qed.

(** The audit and the row change in one step, which keeps the contract. *)
Lemma takeover_write_others `{UUIDSource} name status record r d rev :
  db_inv d → project_at d name = Some r → (row_Version r < max_int64)%Z →
  (rev ≤ row_SpecRevision r)%Z → legal (row_UID r) rev (row_status r) status →
  others_unforced d (takeover_write name status record r d).
Proof.
  intros Hinv Hr Hv Hrev Hl.
  assert (others d (db_with_Audit (db_Audit d ++ [record]) d)) as Haudit.
  { split; [split|]; try done.
    - intros key r' Hr'. left. exists r'. by split.
    - simpl. by apply prefix_app_r.
    - by intros [? ? ?]. }
  destruct (commit_others name r status (tar_CreatedAt record) rev
    (db_with_Audit (db_Audit d ++ [record]) d)) as [Ho Hf]; try done; [by destruct Hinv|].
  split; [|exact Hf]. by trans (db_with_Audit (db_Audit d ++ [record]) d).
Qed.

Section takeover_wp.
Context `{UUIDSource} (name : string) (ref : AssignmentRef) (audit : TakeoverAudit) (d0 : DB).

(** The one atomic step a request implements. *)
Definition takeover_commit (record : TakeoverAuditRecord) (d1 d2 : DB) : Prop :=
  others d0 d1 ∧ ∃ r next now, project_at d1 name = Some r ∧ row_UID r = ref_UID ref ∧
    audit_of (ta_RequestID audit) d1 = None ∧
    takeover_decision name ref audit now (project_of_row (project_key name) r) = Ok (next, record) ∧
    d2 = takeover_write name next record r d1.

Definition takeover_done (res : result (TakeoverAuditRecord * bool)) (h h' : list Event) : Prop :=
  (h' = h ∧
   match res with
   | Err _ => True
   | Ok (_, false) => False
   | Ok (prior, true) => ∃ d, others d0 d ∧ audit_of (ta_RequestID audit) d = Some prior ∧
       tar_ProjectName prior = name ∧ tar_Assignment prior = assignmentIdentity ref
   end) ∨
  (∃ record d1 d2, takeover_commit record d1 d2 ∧
    ((res = Ok (record, false) ∧ h' = h ++ [Wrote d1 d2; Published TopicProjectUpdated name]) ∨
     (∃ e, res = Err e ∧ is_fault e = true ∧ h' = h ++ [Wrote d1 d2]))).

Lemma takeover_err e h : takeover_done (Err e) h h.
Proof. left. by split. Qed.

Lemma decision_request now p next record :
  takeover_decision name ref audit now p = Ok (next, record) →
  tar_RequestID record = ta_RequestID audit.
Proof.
  unfold takeover_decision. destruct (applyOperatorTakeover _ _ _) as [[outcome s']|e]; [|done].
  by intros [= <- <-].
Qed.

Lemma decision_legal now r next record :
  row_inv r → row_UID r = ref_UID ref →
  takeover_decision name ref audit now (project_of_row (project_key name) r) = Ok (next, record) →
  legal (row_UID r) 0 (row_status r) next.
Proof.
  intros Hri Hu. unfold takeover_decision. cbn [p_Status p_Spec project_of_row].
  destruct (applyOperatorTakeover _ _ _) as [[outcome s']|e] eqn:Ea; [|done].
  intros [= <- <-]. eapply takeover_legal; [by rewrite Hu|apply Hri|done].
Qed.

Lemma wp_commitTakeover r d1 d2 next record now h :
  db_inv d1 → others d0 d1 → others d1 d2 → project_at d1 name = Some r → row_UID r = ref_UID ref →
  takeover_decision name ref audit now (project_of_row (project_key name) r) = Ok (next, record) →
  wp others others_unforced (commitTakeover name (row_Version r) (ref_UID ref) next record)
    (λ res d' h',
      (h' = h ∧ others d1 d' ∧ ∃ e, res = Err e) ∨
      (∃ d3 d4, takeover_commit record d3 d4 ∧ h' = h ++ [Wrote d3 d4] ∧
         (res = Ok () ∨ ∃ e, res = Err e ∧ is_fault e = true))) d2 h.
Proof.
  intros Hinv Hd0 Hd12 Hr Hu Hdec. unfold commitTakeover. apply wp_bind, wp_exec.
  { intros d3 e Hd3 He. apply wp_ret. left. split_and!; [done|by trans d2|by eexists]. }
  intros d3 Hd3. assert (others d1 d3) as Hd13 by (by trans d2). unfold takeover_tx.
  rewrite (decision_request _ _ _ _ Hdec).
  destruct (audit_of _ d3) eqn:Eau; [apply wp_ret; left; eauto|].
  assert (wp others others_unforced (classifyUIDSwapMiss name (ref_UID ref))
    (λ res d' h', (h' = h ∧ others d1 d' ∧ ∃ e, res = Err e) ∨
      (∃ d3 d4, takeover_commit record d3 d4 ∧ h' = h ++ [Wrote d3 d4] ∧
         (res = Ok () ∨ ∃ e, res = Err e ∧ is_fault e = true))) d3 h) as Hmiss.
  { eapply wp_mono; [|apply wp_classify_err; intros p; case_decide; by eexists].
    intros res d' h' (-> & Hd' & He). left. split_and!; [done|by trans d3|done]. }
  destruct (project_at d3 name) as [r3|] eqn:Er3; [|exact Hmiss].
  destruct (_ && _) eqn:Ev; [|exact Hmiss]. bools. destruct Ev as [Hv Hu3].
  assert (r3 = r) as -> by (eapply (pinned_row_unchanged d1 d3); eauto; [apply Hd13|congruence]).
  case_bool_decide as Hmax; [|apply wp_ret; left; eauto].
  assert (db_inv d3) as Hinv3 by (by apply Hd13).
  destruct (Hinv _ _ Hr) as [Hri _].
  assert (takeover_commit record d3 (takeover_write name next record r d3)) as Hc.
  { split; [by trans d1|]. exists r, next, now. auto. }
  split; [|split; [|intros e He]].
  - eapply (takeover_write_others _ _ _ _ _ 0); try done; [|by eapply decision_legal].
    pose proof (ri_observed _ Hri). pose proof (si_observed _ _ (ri_status _ Hri)). lia.
  - apply wp_ret. right. eauto 10.
  - apply wp_ret. right. exists d3, (takeover_write name next record r d3).
    split_and!; try done. right. by eexists.
Qed.

Lemma wp_takeover_attempt x d h :
  reached others d0 d →
  wp others others_unforced (takeover_attempt name ref audit x) (λ '(_, a) d' h',
    match a with
    | Return res => takeover_done res h h'
    | Again e => Is e ErrVersionConflict = true ∧ h' = h ∧ reached others d0 d'
    end) d h.
Proof.
  intros Hreach. unfold takeover_attempt. apply wp_bind. unfold takeoverByRequestID.
  apply wp_bind, wp_query; [|intros d1 e Hd1 He; apply wp_ret, wp_ret, takeover_err].
  intros d1 Hd1. apply wp_ret.
  destruct (reached_step others ltac:(by intros; etrans) ltac:(done) _ _ _ Hreach Hd1) as [Hre1 Hd01].
  destruct (audit_of _ d1) as [prior|] eqn:Ea.
  { case_decide as Hp; apply wp_ret; [apply takeover_err|]. left. split; [done|].
    exists d1. split_and!; try done; apply dec_stable; tauto. }
  apply wp_bind, wp_getProject; [by intros; apply wp_ret, takeover_err| |by intros; apply wp_ret, takeover_err].
  intros d2 r Hd2 Er. cbn [p_Meta om_UID om_ResourceVersion project_of_row].
  destruct (reached_step others ltac:(by intros; etrans) ltac:(done) _ _ _ Hre1 Hd2) as [[Hinv2 _] Hd02].
  case_decide as Hu; [apply wp_ret, takeover_err|].
  apply wp_bind, wp_now. intros now d3 Hd3.
  destruct (takeover_decision _ _ _ _ _) as [[next record]|e] eqn:Ed; [|apply wp_ret, takeover_err].
  apply wp_bind. eapply wp_mono; [|by eapply (wp_commitTakeover r d2)].
  intros res d' h' [(-> & Hd' & e & ->)|(d4 & d5 & Hc & -> & [->|(e & -> & He)])].
  - destruct (Is e ErrVersionConflict) eqn:Ee; apply wp_ret; [|apply takeover_err].
    split_and!; [done|done|]. split; [by apply Hd'|right; by trans d2].
  - apply wp_bind, wp_publish, wp_ret. rewrite <- app_assoc. right. exists record, d4, d5. auto.
  - rewrite fault_is_not by done. apply wp_ret. right. exists record, d4, d5. split; [done|].
    right. by exists e.
Qed.

Lemma wp_TakeoverProject h :
  db_inv d0 →
  wp others others_unforced (TakeoverProject name ref audit) (λ res _ h', takeover_done res h h') d0 h.
Proof.
  intros Hinv. unfold TakeoverProject. apply wp_bind.
  eapply wp_mono; [|eapply (wp_retry others others_unforced _
    (λ _ res _ h', takeover_done res h h') (reached others d0));
    [by intros; apply wp_takeover_attempt|intros; apply takeover_err|by apply reached_refl|by left]].
  intros [[] res] d' h' ?. by apply wp_ret.
Qed.
End takeover_wp.

Lemma safe_TakeoverProject `{UUIDSource} name ref audit : safe others (TakeoverProject name ref audit).
Proof.
  eapply (safe_of_wp others); [done|]. intros d h Hinv. by apply wp_TakeoverProject.
Qed.

(** ** Properties *)

(** What an accepted takeover leaves: no holder, and an obligation of that very
    assignment which lets the Project be placed again. *)
Lemma takeover_effect uid s a now outcome s' (owe : bool) :
  ProjectUID a = uid → applyOperatorTakeover s a now = Ok (outcome, s') →
  let s2 := if owe then update_recovery (OweManagedData a) s' else s' in
  st_Phase s2 = ProjectPhasePending ∧ st_NodeRef s2 = EmptyString ∧
  st_AssignmentGeneration s2 = ai_Generation a ∧
  ∃ o, FindObligation (st_Recovery s2) a = Some o ∧
       ob_ReleaseAuthorization o = ReleaseByOperatorOverride ∧ PermitsAssignment o = true ∧
       (owe = true → ob_ManagedDataOwed o = true).
Proof.
  intros Hu [Hg Hc]%(applyOperatorTakeover_cases uid); [|done].
  assert (∃ o, FindObligation (st_Recovery s') a = Some o ∧ st_Recovery s' ≠ None ∧
    ob_ReleaseAuthorization o = ReleaseByOperatorOverride) as (o & Ho & Hnn & Hk).
  { destruct Hc as [(_ & _ & _ & -> & o & Ho & _)|(_ & _ & _ & _ & _ & ->)]; simpl;
      rewrite OverrideRelease_find, decide_True by done; eexists; (split; [reflexivity|]);
      (split; [done|]);
      by match goal with |- context [from_option _ _ ?x] => destruct x end. }
  assert (∀ o', ob_ReleaseAuthorization o' = ReleaseByOperatorOverride → PermitsAssignment o' = true)
    as Hp.
  { intros o' Hk'. unfold PermitsAssignment. rewrite Hk'. by destruct (Resolved o'). }
  assert (st_Phase s' = ProjectPhasePending ∧ st_NodeRef s' = EmptyString ∧
    st_AssignmentGeneration s' = ai_Generation a) as (Hph & Hn & Hgen).
  { by destruct Hc as [(? & ? & _ & -> & _)|(_ & _ & _ & _ & _ & ->)]. }
  intros s2. subst s2. destruct owe; simpl; (split_and!; [done..|]).
  - rewrite OweManagedData_find, decide_True, FindObligation_ensure, Ho by done. simpl.
    eexists. split; [done|]. split_and!; [done|by apply Hp|done].
  - exists o. split_and!; [done|done|by apply Hp|done].
Qed.

(** (store.go, TakeoverProject and commitTakeover): an operator's override is
    applied and audited in one step or not at all. Under any interference the
    request makes at most one write; that write appends exactly one audit record,
    under a request ID the audit did not have, and in the same step leaves the
    Project of that lifetime Pending without a Node, with an obligation for
    exactly the overridden assignment that permits a new one (and owes the
    managed data when the spec has a managed volume). It accepts only the
    lifetime's latest generation, either still held in a phase the operator may
    take over and marked TakeoverRequired, or already released and blocking.
    Success without a write is the record an earlier request with this ID made
    for the same takeover. *)
Theorem TakeoverProject_audited `{UUIDSource} (name : string) (ref : AssignmentRef)
    (audit : TakeoverAudit) (ms : list move) (d0 : DB) (Hinv : db_inv d0) (Hms : schedule_ok ms) :
  let x := run (TakeoverProject name ref audit) ms d0 [] in
  let a := assignmentIdentity ref in
  (history_of x = [] ∧
   match result_of x with
   | Err _ => True
   | Ok (prior, replayed) => replayed = true ∧ ∃ d, others d0 d ∧
       audit_of (ta_RequestID audit) d = Some prior ∧
       tar_ProjectName prior = name ∧ tar_Assignment prior = a
   end) ∨
  (∃ d1 d2 r r' record,
     others d0 d1 ∧ project_at d1 name = Some r ∧ project_at d2 name = Some r' ∧
     row_UID r = ref_UID ref ∧ row_UID r' = ref_UID ref ∧
     audit_of (ta_RequestID audit) d1 = None ∧ db_Audit d2 = db_Audit d1 ++ [record] ∧
     tar_RequestID record = ta_RequestID audit ∧ tar_Assignment record = a ∧
     tar_Caller record = ta_Caller audit ∧
     st_AssignmentGeneration (row_status r) = ref_Generation ref ∧
     ((tar_Outcome record = TakeoverReleased ∧ st_NodeRef (row_status r) = ref_NodeRef ref ∧
       takeover_marked (st_Conditions (row_status r)) = true) ∨
      (tar_Outcome record = TakeoverObligationOverridden ∧ st_NodeRef (row_status r) = EmptyString ∧
       ∃ o, FindObligation (st_Recovery (row_status r)) a = Some o ∧ PermitsAssignment o = false)) ∧
     st_Phase (row_status r') = ProjectPhasePending ∧ st_NodeRef (row_status r') = EmptyString ∧
     st_AssignmentGeneration (row_status r') = ref_Generation ref ∧
     (∃ o, FindObligation (st_Recovery (row_status r')) a = Some o ∧
        ob_ReleaseAuthorization o = ReleaseByOperatorOverride ∧ PermitsAssignment o = true ∧
        (HasManagedVolume (row_Spec r) = true → ob_ManagedDataOwed o = true)) ∧
     ((result_of x = Ok (record, false) ∧
       history_of x = [Wrote d1 d2; Published TopicProjectUpdated name]) ∨
      (∃ e, result_of x = Err e ∧ is_fault e = true ∧ history_of x = [Wrote d1 d2]))).
Proof.
  intros x a. destruct (wp_adequate others others_unforced (TakeoverProject name ref audit) _ ms d0 []
    ltac:(done) Hms (wp_TakeoverProject name ref audit d0 [] Hinv))
    as [[Hh Hres]|(record & d1 & d2 & (Hd1 & r & next & now & Hr & Hu & Hau & Hdec & ->) & Hres)].
  - left. split; [done|]. fold x in Hres. destruct (result_of x) as [[prior []]|e]; by auto.
  - right. exists d1, (takeover_write name next record r d1), r,
      (commit_status next (tar_CreatedAt record) r), record.
    pose proof Hdec as Hdec'. unfold takeover_decision in Hdec'.
    cbn [p_Status p_Spec project_of_row] in Hdec'.
    destruct (applyOperatorTakeover _ _ _) as [[outcome s']|e] eqn:Ea; [|done].
    injection Hdec' as Hnext Hrec. fold a in Ea, Hnext, Hrec.
    pose proof (takeover_effect (ref_UID ref) (row_status r) a _ _ _ (HasManagedVolume (row_Spec r)) eq_refl Ea)
      as Heff. cbv zeta in Heff. rewrite Hnext in Heff. destruct Heff as (Hp & Hn & Hg & Ho).
    destruct (applyOperatorTakeover_cases (ref_UID ref) (row_status r) a _ _ _ eq_refl Ea) as [Hgen Hc].
    assert (project_at (takeover_write name next record r d1) name =
      Some (commit_status next (tar_CreatedAt record) r)) as Hput.
    { unfold project_at, takeover_write. simpl. by rewrite lookup_insert_eq. }
    split_and!; try done; try (by subst record).
    destruct Hc as [(Hno & _ & -> & _ & o & ?)|(Hno & Has & _ & Hm & -> & _)].
    + right. subst record. eauto 10.
    + left. subst record. split_and!; try done. by injection Has.
Qed.

(** (store.go, TakeoverProject): a request ID decides once. When the audit
    already has a record for it, a retry writes nothing and publishes nothing,
    whatever the Project has become and whatever the others do; it returns that
    record if it is about the same Project and assignment, and an error
    otherwise. *)
Theorem TakeoverProject_decides_once `{UUIDSource} (name : string) (ref : AssignmentRef)
    (audit : TakeoverAudit) (prior : TakeoverAuditRecord) (ms : list move) (d0 : DB)
    (Hinv : db_inv d0) (Hms : schedule_ok ms)
    (Hprior : audit_of (ta_RequestID audit) d0 = Some prior) :
  let x := run (TakeoverProject name ref audit) ms d0 [] in
  history_of x = [] ∧
  (result_of x = Ok (prior, true) ∨ ∃ e, result_of x = Err e) ∧
  (tar_ProjectName prior ≠ name ∨ tar_Assignment prior ≠ assignmentIdentity ref →
     ∃ e, result_of x = Err e).
Proof.
  intros x.
  assert (∀ d, others d0 d → audit_of (ta_RequestID audit) d = Some prior) as Hkept.
  { intros d [[_ _ [ext Hext]] _]. unfold audit_of in *. rewrite Hext, find_first_app.
    by rewrite Hprior. }
  destruct (wp_adequate others others_unforced (TakeoverProject name ref audit) _ ms d0 []
    ltac:(done) Hms (wp_TakeoverProject name ref audit d0 [] Hinv))
    as [[Hh Hres]|(record & d1 & d2 & (Hd1 & r & next & now & _ & _ & Hau & _) & _)].
  - fold x in Hh, Hres. split; [done|].
    destruct (result_of x) as [[p []]|e]; [|done|split; [right|]; by eexists].
    destruct Hres as (d & Hd & Hp & Hname & Hass). rewrite (Hkept d Hd) in Hp. injection Hp as <-.
    split; [by left|]. tauto.
  - exfalso. rewrite (Hkept d1 Hd1) in Hau. done.
Qed.

(** Node "a" is lost past its grace period and the Project is marked. *)
Definition marked_status : ProjectStatus :=
  st_with_Conditions [mkCondition ConditionTypeTakeoverRequired ConditionTrue "NodeLost" "lost" 3%Z]
    (running_status "a").

Lemma marked_db_inv : @db_inv counter_uuids (example_db marked_status 3).
Proof.
  apply example_db_inv; [unfold max_int64; lia|simpl; lia|simpl; lia|].
  eapply status_inv_core; [|by apply (running_status_inv _ "a")]. apply same_core_Conditions.
Qed.

Definition example_audit : TakeoverAudit :=
  {| ta_RequestID := "req-1"; ta_Caller := "ops"; ta_Note := "node is gone" |}.

Lemma TakeoverProject_audited_witness :
  let x := run (TakeoverProject "shop" example_ref example_audit) [] (example_db marked_status 3) [] in
  (∃ record, result_of x = Ok (record, false)) ∧ length (history_of x) = 2.
Proof.
  intros x. split; [eexists; vm_compute; reflexivity|].
  destruct (@TakeoverProject_audited counter_uuids "shop" example_ref example_audit []
    (example_db marked_status 3) marked_db_inv ltac:(by constructor))
    as [[Hh _]|(d1 & d2 & r & r' & record & Hx)].
  - exfalso. vm_compute in Hh. discriminate.
  - destruct Hx as (_ & _ & _ & _ & _ & _ & _ & _ & _ & _ & _ & _ & _ & _ & _ & _ & [[_ Hh]|(e & He & _)]).
    + subst x. by rewrite Hh.
    + exfalso. vm_compute in He. discriminate.
Defined.

Lemma TakeoverProject_decides_once_witness :
  let d0 := db_of (run (TakeoverProject "shop" example_ref example_audit) []
                     (example_db marked_status 3) []) in
  let x := run (TakeoverProject "shop" example_ref example_audit) [] d0 [] in
  history_of x = [] ∧ ∃ prior, result_of x = Ok (prior, true).
Proof.
  intros d0 x.
  assert (@db_inv counter_uuids d0) as Hinv.
  { apply (wp_adequate (@others counter_uuids) (@others_unforced counter_uuids)
      (TakeoverProject "shop" example_ref example_audit) (λ _ d _, @db_inv counter_uuids d)
      [] (example_db marked_status 3) []); [by intros d|by constructor|].
    apply safe_TakeoverProject, marked_db_inv. }
  split; [|eexists; vm_compute; reflexivity].
  eapply (@TakeoverProject_decides_once counter_uuids "shop" example_ref example_audit _ [] d0 Hinv
    ltac:(by constructor)). vm_compute. reflexivity.
Defined.
