(* ===== verification/NodeStore.v ===== *)
(** The Node rows of internal/store/postgres/store.go and the views of them the
    controllers read (internal/server/adapter/node.go). *)
From Stdlib Require Import ZArith Lia.
From stdpp Require Import prelude gmap strings.
From S2P Require Import Prelude.
From S2P Require Import Conditions.
From S2P Require Import ProjectTypes.
From S2P Require Import Lifecycle.
From S2P Require Import NodeTypes.
From S2P Require Import AccessTypes.
From S2P Require Import Database.
From S2P Require Import Evolution.
From S2P Require Import StatusStore.
From S2P Require Import Legality.
Import GoTime GoInt GoString GoError.
Open Scope go_scope.

Definition node_err (s : sentinel) (name : string) : error :=
  Wrap EmptyString (Sentinel s) (": node " ++ Quote name)%string.

(** ** Reading *)

Definition node_of_row (name : string) (r : NodeRow) : Node :=
  {| n_Meta := {| om_Name := name; om_UID := nr_UID r; om_Namespace := defaultNamespace;
                  om_ResourceVersion := nr_Version r; om_SpecRevision := 0;
                  om_Labels := nr_Labels r; om_Annotations := nr_Annotations r;
                  om_CreatedAt := nr_CreatedAt r; om_UpdatedAt := nr_UpdatedAt r |}%Z;
     n_Spec := nr_Spec r; n_Status := nr_Status r |}.

Definition getNode (name : string) : prog (result Node) :=
  query (R := option Node) (λ d, Ok (node_of_row name <$> db_Nodes d !! name)) ≫= λ res,
  Ret match res with
      | Err e => Err (sql_err "get node" name e)
      | Ok None => Err (Sentinel ErrNotFound)
      | Ok (Some n) => Ok n
      end.

Definition select_nodes (d : DB) : list Node :=
  (λ kr, node_of_row kr.1 kr.2) <$> map_to_list (db_Nodes d).

Definition ListNodes : prog (result (list Node)) :=
  query (λ d, Ok (select_nodes d)) ≫= λ res,
  Ret match res with
      | Err e => Err (Wrap "postgres: list nodes: " e EmptyString)
      | Ok ns => Ok ns
      end.

(** ** Writing *)

Definition new_node_row (uid : string) (node : Node) (now : Time) : NodeRow :=
  {| nr_UID := uid; nr_Phase := nst_State (n_Status node); nr_Spec := n_Spec node;
     nr_Status := n_Status node; nr_Labels := om_Labels (n_Meta node);
     nr_Annotations := om_Annotations (n_Meta node); nr_CreatedAt := now; nr_UpdatedAt := now;
     nr_Version := 1 |}.

(** The caller's object after the INSERT; its specRevision is not touched. *)
Definition created_node (name : string) (r : NodeRow) (node : Node) : Node :=
  let m := n_Meta (node_of_row name r) in
  {| n_Meta := {| om_Name := om_Name m; om_UID := om_UID m; om_Namespace := om_Namespace m;
                  om_ResourceVersion := om_ResourceVersion m;
                  om_SpecRevision := om_SpecRevision (n_Meta node); om_Labels := om_Labels m;
                  om_Annotations := om_Annotations m; om_CreatedAt := om_CreatedAt m;
                  om_UpdatedAt := om_UpdatedAt m |};
     n_Spec := n_Spec node; n_Status := n_Status node |}.

Definition CreateNode `{UUIDSource} (node : Node) : prog (result Node) :=
  let name := om_Name (n_Meta node) in
  now_ ≫= λ now,
  exec (λ d, match db_Nodes d !! name with
             | Some _ => Ok (None, None)
             | None =>
                 let r := new_node_row (uuid_NewString (db_Issued d)) node now in
                 Ok (Some (created_node name r node),
                     Some (db_issue (db_with_Nodes (<[name := r]> (db_Nodes d)) d)))
             end) ≫= λ res,
  match res with
  | Err e => Ret (Err (sql_err "create node" name e))
  | Ok None => Ret (Err (Sentinel ErrAlreadyExists))
  | Ok (Some stored) => publish TopicNodeCreated name ≫= λ _, Ret (Ok stored)
  end.

(** One UPDATE of the row [name]; the answer is what RETURNING gives. *)
Definition update_node {R : Set} (name : string) (f : NodeRow → NodeRow) (ret : NodeRow → R) (d : DB)
    : result (option R * option DB) :=
  match db_Nodes d !! name with
  | None => Ok (None, None)
  | Some r =>
      if bool_decide (nr_Version r < max_int64)%Z
      then Ok (Some (ret r), Some (db_with_Nodes (<[name := f r]> (db_Nodes d)) d))
      else Err bigint_overflow
  end.

Definition node_replace (node : Node) (now : Time) (r : NodeRow) : NodeRow :=
  {| nr_UID := nr_UID r; nr_Phase := nst_State (n_Status node); nr_Spec := n_Spec node;
     nr_Status := n_Status node; nr_Labels := om_Labels (n_Meta node);
     nr_Annotations := om_Annotations (n_Meta node); nr_CreatedAt := nr_CreatedAt r;
     nr_UpdatedAt := now; nr_Version := nr_Version r + 1 |}%Z.

Definition node_respec (node : Node) (now : Time) (r : NodeRow) : NodeRow :=
  {| nr_UID := nr_UID r; nr_Phase := nr_Phase r; nr_Spec := n_Spec node;
     nr_Status := nr_Status r; nr_Labels := om_Labels (n_Meta node);
     nr_Annotations := om_Annotations (n_Meta node); nr_CreatedAt := nr_CreatedAt r;
     nr_UpdatedAt := now; nr_Version := nr_Version r + 1 |}%Z.

Definition node_restatus (status : NodeStatus) (now : Time) (r : NodeRow) : NodeRow :=
  {| nr_UID := nr_UID r; nr_Phase := nst_State status; nr_Spec := nr_Spec r;
     nr_Status := status; nr_Labels := nr_Labels r; nr_Annotations := nr_Annotations r;
     nr_CreatedAt := nr_CreatedAt r; nr_UpdatedAt := now; nr_Version := nr_Version r + 1 |}%Z.

Definition UpdateNode (node : Node) : prog (result Z) :=
  let name := om_Name (n_Meta node) in
  now_ ≫= λ now,
  exec (update_node name (node_replace node now) (λ r, nr_Version r + 1)%Z) ≫= λ res,
  Ret match res with
      | Err e => Err (sql_err "update node" name e)
      | Ok None => Err (node_err ErrNotFound name)
      | Ok (Some v) => Ok v
      end.

Definition UpdateNodeSpec (node : Node) : prog (result Z) :=
  let name := om_Name (n_Meta node) in
  now_ ≫= λ now,
  exec (update_node name (node_respec node now) (λ r, nr_Version r + 1)%Z) ≫= λ res,
  match res with
  | Err e => Ret (Err (sql_err "update node spec" name e))
  | Ok None => Ret (Err (node_err ErrNotFound name))
  | Ok (Some v) => publish TopicNodeUpdated name ≫= λ _, Ret (Ok v)
  end.

Definition DeleteNode (name : string) : prog (result ()) :=
  exec (λ d, Ok match db_Nodes d !! name with
                | None => (false, None)
                | Some _ => (true, Some (db_with_Nodes (delete name (db_Nodes d)) d))
                end) ≫= λ res,
  Ret match res with
      | Err e => Err (sql_err "delete node" name e)
      | Ok false => Err (node_err ErrNotFound name)
      | Ok true => Ok ()
      end.

Definition UpdateNodeStatus (name : string) (status : NodeStatus) : prog (result ()) :=
  now_ ≫= λ now,
  exec (update_node name (node_restatus status now) nr_Phase) ≫= λ res,
  match res with
  | Err e => Ret (Err (sql_err "update node status" name e))
  | Ok None => Ret (Err (node_err ErrNotFound name))
  | Ok (Some oldPhase) =>
      if decide (oldPhase ≠ nst_State status)
      then publish TopicNodeUpdated name ≫= λ _, Ret (Ok ())
      else Ret (Ok ())
  end.

(** ** What the controllers see (adapter/node.go) *)

Definition ListNodeNames : prog (result (list string)) :=
  nodes ←? ListNodes; Ret (Ok (om_Name ∘ n_Meta <$> nodes)).

Record NodeStatusSnapshot := { nss_LastHeartbeat : Time; nss_State : NodeState }.

Definition GetNodeStatus (name : string) : prog (result NodeStatusSnapshot) :=
  node ←? getNode name;
  Ret (Ok {| nss_LastHeartbeat := nst_LastHeartbeat (n_Status node);
             nss_State := nst_State (n_Status node) |}).

(** The loop replaces the first Ready condition and breaks; without one it
    appends. *)
Definition ready_conditions (state : NodeState) (reason message : string) (now : Time)
    (cs : list Condition) : list Condition :=
  let c := mkCondition ConditionTypeReady
             (if decide (state = NodeStateReady) then ConditionTrue else ConditionFalse)
             reason message now in
  match update_first (has_type ConditionTypeReady) (λ _, c) cs with
  | Some cs' => cs'
  | None => cs ++ [c]
  end.

Definition SetNodeState (name : string) (state : NodeState) (reason message : string)
    : prog (result ()) :=
  node ←? getNode name;
  now_ ≫= λ now,
  UpdateNodeStatus name
    (nst_with_Conditions (ready_conditions state reason message now (nst_Conditions (n_Status node)))
       (nst_with_State state (n_Status node))).

Definition ListNotReadyNodeNames : prog (result (list string)) :=
  nodes ←? ListNodes;
  Ret (Ok (om_Name ∘ n_Meta <$> filter (λ n, nst_State (n_Status n) = NodeStateNotReady) nodes)).

Record ReadyNode := {
  rn_Name : string;
  rn_Labels : gmap string string;
  rn_Allocatable : ResourceList;
  rn_Conditions : list Condition
}.

Definition ready_node (n : Node) : ReadyNode :=
  {| rn_Name := om_Name (n_Meta n); rn_Labels := om_Labels (n_Meta n);
     rn_Allocatable := nst_Allocatable (n_Status n); rn_Conditions := nst_Conditions (n_Status n) |}.

Definition ListReadyNodes : prog (result (list ReadyNode)) :=
  nodes ←? ListNodes;
  Ret (Ok (ready_node <$> filter (λ n, nst_State (n_Status n) = NodeStateReady ∧
                                       ns_Unschedulable (n_Spec n) = false) nodes)).

(** ** The contract: Node writes leave the Projects alone *)

Section node_safe.
Context `{UUIDSource}.

Lemma nodes_others x d :
  (db_Nodes d !! EmptyString = None → x !! EmptyString = None) → others_unforced d (db_with_Nodes x d).
Proof.
  intros Hx. split; [split; [split|]|]; try done.
  - intros key r Hr. left. exists r. by split.
  - intros [Hinv Hn Ha]. split; [exact Hinv|by apply Hx|exact Ha].
  - intros key r Hr. left. exists r. by split.
Qed.

Lemma issue_nodes_others x d :
  (db_Nodes d !! EmptyString = None → x !! EmptyString = None) →
  others_unforced d (db_issue (db_with_Nodes x d)).
Proof.
  intros Hx. split; [split; [split|]|].
  - simpl. lia.
  - intros key r Hr. left. exists r. by split.
  - done.
  - done.
  - intros Hinv. split; [|apply Hx, Hinv|apply Hinv].
    intros key r Hr. destruct (Hinv key r Hr) as [? (k & ? & ?)]. split; [done|].
    exists k. simpl. split; [lia|done].
  - intros key r Hr. left. exists r. by split.
Qed.

Lemma safe_update_node {R : Set} name f (ret : NodeRow → R) :
  safe others (exec (update_node name f ret)).
Proof.
  apply safe_exec; [done|]. intros d res d' _. unfold update_node.
  destruct (db_Nodes d !! name) as [r|] eqn:Er; [|done]. case_bool_decide; [|done]. intros [= <- <-].
  apply nodes_others. intros Hn. rewrite lookup_insert_ne; [done|]. intros ->. congruence.
Qed.

Lemma safe_CreateNode node : om_Name (n_Meta node) ≠ EmptyString → safe others (CreateNode node).
Proof.
  intros Hname.
  apply safe_bind; [by apply safe_now|]. intros now. apply safe_bind.
  - apply safe_exec; [done|]. intros d res d' _. destruct (db_Nodes d !! _); [done|].
    intros [= <- <-]. apply issue_nodes_others. intros Hn. by rewrite lookup_insert_ne.
  - intros [[stored|]|e]; [|apply safe_ret..].
    apply safe_bind; [apply safe_publish|]. intros []. apply safe_ret.
Qed.

Lemma safe_UpdateNodeSpec node : safe others (UpdateNodeSpec node).
Proof.
  apply safe_bind; [by apply safe_now|]. intros now. apply safe_bind; [apply safe_update_node|].
  intros [[v|]|e]; [|apply safe_ret..]. apply safe_bind; [apply safe_publish|]. intros []. apply safe_ret.
Qed.

Lemma safe_UpdateNodeStatus name status : safe others (UpdateNodeStatus name status).
Proof.
  apply safe_bind; [by apply safe_now|]. intros now. apply safe_bind; [apply safe_update_node|].
  intros [[v|]|e]; [|apply safe_ret..]. case_decide; [|apply safe_ret].
  apply safe_bind; [apply safe_publish|]. intros []. apply safe_ret.
Qed.

Lemma safe_DeleteNode name : safe others (DeleteNode name).
Proof.
  apply safe_bind; [|intros a; apply safe_ret]. apply safe_exec; [done|]. intros d res d' _.
  destruct (db_Nodes d !! name); [|done]. intros [= <- <-]. apply nodes_others.
  intros Hn. by rewrite lookup_delete_None; right.
Qed.

Lemma safe_SetNodeState name state reason message : safe others (SetNodeState name state reason message).
Proof.
  apply safe_try_bind.
  - apply safe_bind; [by apply safe_query|]. intros a. apply safe_ret.
  - intros node. apply safe_bind; [by apply safe_now|]. intros now. apply safe_UpdateNodeStatus.
Qed.
End node_safe.

(** ** Properties *)

(** What a status update may end with, for the proofs about its callers. *)
Lemma wp_UpdateNodeStatus `{UUIDSource} (G : DB → DB → Prop) (name : string) (status : NodeStatus)
    (Q : result () → DB → list Event → Prop) (d0 : DB) (h : list Event) :
  (∀ d e, others d0 d → Q (Err e) d h) →
  (∀ d r now res h', others d0 d → db_Nodes d !! name = Some r →
     let d2 := db_with_Nodes (<[name := node_restatus status now r]> (db_Nodes d)) d in
     (res = Ok () ∧ h' = Wrote d d2 ::
        (if decide (nr_Phase r ≠ nst_State status) then [Published TopicNodeUpdated name] else [])) ∨
     (∃ e, res = Err e ∧ is_fault e = true ∧ h' = [Wrote d d2]) →
     Q res d2 (h ++ h')) →
  (∀ d r now, db_Nodes d !! name = Some r →
     G d (db_with_Nodes (<[name := node_restatus status now r]> (db_Nodes d)) d)) →
  wp others G (UpdateNodeStatus name status) Q d0 h.
Proof.
  intros Hno Hyes HG. apply wp_bind, wp_now. intros now d' Hd'. apply wp_bind, wp_exec.
  { intros d e Hd He. apply wp_ret, Hno. by trans d'. }
  intros d Hd. assert (others d0 d) as Hd0 by (by trans d'). unfold update_node.
  destruct (db_Nodes d !! name) as [r|] eqn:Er; [|by apply wp_ret, Hno].
  case_bool_decide as Hv; [|by apply wp_ret, Hno].
  split; [by apply HG|]. split; [|intros e He].
  - cbv beta iota. case_decide as Hp.
    + apply wp_bind, wp_publish, wp_ret. rewrite <- app_assoc. eapply Hyes; [done..|]. left.
      by rewrite decide_True.
    + apply wp_ret. eapply Hyes; [done..|]. left. split; [done|]. by case_decide.
  - apply wp_ret. eapply Hyes; [done..|]. right. eauto.
Qed.

(** (store.go, UpdateNodeStatus): a heartbeat touches the status alone and is
    announced only when the Node's state changes. Under any interference the call
    makes at most one write, of the status and the phase column together with the
    version; the spec, the labels and the Projects stay as they are at that
    moment, whoever changed them since the heartbeat was sent. The event is
    published exactly when the state the statement replaced differs from the
    reported one, so two heartbeats cannot both miss one transition. *)
Theorem UpdateNodeStatus_exact `{UUIDSource} (name : string) (status : NodeStatus)
    (ms : list move) (d0 : DB) (Hms : schedule_ok ms) :
  let x := run (UpdateNodeStatus name status) ms d0 [] in
  (history_of x = [] ∧ ∃ e, result_of x = Err e) ∨
  (∃ d1 r r', let d2 := db_with_Nodes (<[name := r']> (db_Nodes d1)) d1 in
     others d0 d1 ∧ db_Nodes d1 !! name = Some r ∧
     nr_Status r' = status ∧ nr_Phase r' = nst_State status ∧ nr_Spec r' = nr_Spec r ∧
     nr_Labels r' = nr_Labels r ∧ nr_UID r' = nr_UID r ∧ nr_Version r' = (nr_Version r + 1)%Z ∧
     ((result_of x = Ok () ∧
       history_of x = Wrote d1 d2 ::
         (if decide (nr_Phase r = nst_State status) then [] else [Published TopicNodeUpdated name])) ∨
      (∃ e, result_of x = Err e ∧ is_fault e = true ∧ history_of x = [Wrote d1 d2]))).
Proof.
  intros x. subst x. run_wp (UpdateNodeStatus name status) ms d0. apply wp_UpdateNodeStatus; [| |done].
  - intros d e Hd. left. eauto.
  - intros d r now res h Hd Hr d2 Hres. right. exists d, r, (node_restatus status now r).
    split_and!; try done. destruct Hres as [[-> ->]|(e & -> & He & ->)]; [left|right; eauto].
    split; [done|]. by repeat case_decide.
Qed.

Definition example_node_row (state : NodeState) (heartbeat : Time) : NodeRow :=
  {| nr_UID := counter_uuid 0; nr_Phase := state;
     nr_Spec := {| ns_Hostname := "a"; ns_Unschedulable := false |};
     nr_Status := {| nst_State := state; nst_Network := empty_network; nst_Capacity := ∅;
       nst_Allocatable := ∅; nst_Info := nst_Info empty_node_status;
       nst_LastHeartbeat := heartbeat; nst_Conditions := [] |};
     nr_Labels := ∅; nr_Annotations := ∅; nr_CreatedAt := 0; nr_UpdatedAt := 0; nr_Version := 1 |}%Z.

Definition node_db (r : NodeRow) : DB :=
  {| db_Projects := ∅; db_Nodes := {[ "a" := r ]}; db_Audit := []; db_Access := no_access; db_Issued := 1 |}.

Lemma UpdateNodeStatus_exact_witness :
  let status := nr_Status (example_node_row NodeStateReady 9%Z) in
  let x := run (UpdateNodeStatus "a" status) [] (node_db (example_node_row NodeStateNotReady 1%Z)) [] in
  result_of x = Ok () ∧ length (history_of x) = 2.
Proof.
  intros status x. split; [vm_compute; reflexivity|].
  destruct (@UpdateNodeStatus_exact counter_uuids "a" status []
    (node_db (example_node_row NodeStateNotReady 1%Z)) ltac:(by constructor))
    as [[Hh _]|(d1 & r & r' & _ & _ & _ & _ & _ & _ & _ & _ & [[_ Hh]|(e & He & _)])].
  - exfalso. vm_compute in Hh. discriminate.
  - subst x. rewrite Hh. case_decide as Hp; [|reflexivity].
    exfalso. apply (f_equal length) in Hh.
    vm_compute in Hh. discriminate.
  - exfalso. vm_compute in He. discriminate.
Defined.

(** A heartbeat of Node "a" at time 9, from its Agent. *)
Definition fresh_heartbeat (d : DB) : DB :=
  db_with_Nodes (alter (node_restatus (nr_Status (example_node_row NodeStateReady 9%Z)) 9%Z) "a" (db_Nodes d)) d.

(** (adapter/node.go, SetNodeState): the node health controller's write is a
    read, a change and a write of the whole status, with no version between them. A
    heartbeat that lands after the read is overwritten: the Node is marked NotReady
    with the heartbeat time of before, although the row said it was alive at 9. *)
Theorem SetNodeState_loses_heartbeat :
  let d0 := node_db (example_node_row NodeStateReady 1%Z) in
  let ms := [quiet; {| mv_others := fresh_heartbeat; mv_outcome := Done; mv_now := 10%Z |}] in
  let x := run (SetNodeState "a" NodeStateNotReady "HeartbeatTimeout" "no heartbeat") ms d0 [] in
  result_of x = Ok () ∧
  (∃ r1, db_Nodes (fresh_heartbeat d0) !! "a"%string = Some r1 ∧ nst_LastHeartbeat (nr_Status r1) = 9%Z ∧
         nst_State (nr_Status r1) = NodeStateReady) ∧
  (∃ r2, db_Nodes (db_of x) !! "a"%string = Some r2 ∧ nst_LastHeartbeat (nr_Status r2) = 1%Z ∧
         nst_State (nr_Status r2) = NodeStateNotReady ∧ nr_Version r2 = 3%Z).
Proof.
  cbv zeta. split; [vm_compute; reflexivity|].
  split; eexists; (split; [vm_compute; reflexivity|]); by vm_compute.
Qed.
