(* ===== verification/AccessStore.v ===== *)
(** The tokens and pre-auth keys of internal/store/postgres/store.go. The store
    sees hashes only.

    Creating, redeeming and revoking one token are single statements, or a
    transaction that locks the one row it decides on. RevokeNodeTokens is a
    transaction of two UPDATEs, each over the rows its own snapshot shows: what
    they match is read in two steps, and both write when the transaction commits.
    Between the steps the model lets the others do more than the row locks would. *)
From Stdlib Require Import ZArith Lia.
From stdpp Require Import prelude gmap strings sorting.
From S2P Require Import Prelude.
From S2P Require Import ProjectTypes.
From S2P Require Import AccessTypes.
From S2P Require Import Database.
From S2P Require Import Evolution.
From S2P Require Import StatusStore.
From S2P Require Import Legality.
Import GoTime GoInt GoString GoError.
Open Scope go_scope.

(** ** Statements over the access tables *)

Definition query_access {R : Set} (q : Access → R) : prog (result R) := query (λ d, Ok (q (db_Access d))).
Definition exec_access {R : Set} (q : Access → result (R * option Access)) : prog (result R) :=
  exec (λ d, match q (db_Access d) with
             | Err e => Err e
             | Ok (r, None) => Ok (r, None)
             | Ok (r, Some a) => Ok (r, Some (db_with_Access a d))
             end).

Definition unique_violation : error := SqlError "duplicate key value violates unique constraint".
Definition sequence_exhausted : error := SqlError "nextval: reached maximum value of sequence".

(** The answer of a statement under a message. *)
Definition wrapped {A} (what : string) (r : result A) : result A :=
  match r with Ok x => Ok x | Err e => Err (Wrap ("postgres: " ++ what ++ ": ")%string e EmptyString) end.

(** The row of a table with hash [h] that satisfies [f]; the hash is unique. *)
Definition select_hash {A} (hash : A → string) (f : A → bool) (h : string) (m : gmap Z A) : option A :=
  snd <$> find_first (λ kr, bool_decide (hash kr.2 = h) && f kr.2) (map_to_list m).

(** ** API tokens *)

Definition live (r : TokenRow) : bool := bool_decide (at_RevokedAt (tr_Token r) = None).

(** INSERT INTO api_tokens; the id is drawn from the table's sequence. *)
Definition insert_token (kind : APITokenKind) (name tokenHash createdBy : string) (now : Time)
    (a : Access) : result (APIToken * Access) :=
  let id := ac_NextToken a in
  if bool_decide (max_int64 < id)%Z then Err sequence_exhausted
  else if bool_decide (is_Some (ac_Tokens a !! id)) ||
          bool_decide (is_Some (select_hash tr_Hash (λ _, true) tokenHash (ac_Tokens a)))
  then Err unique_violation
  else
    let t := {| at_ID := id; at_Kind := kind; at_Name := name; at_CreatedBy := createdBy;
                at_CreatedAt := timestamptz now; at_RevokedAt := None |} in
    Ok (t, ac_with_Tokens (id + 1) (<[id := {| tr_Token := t; tr_Hash := tokenHash |}]> (ac_Tokens a)) a).

Definition CreateAPIToken (kind : APITokenKind) (name tokenHash createdBy : string)
    : prog (result APIToken) :=
  now_ ≫= λ now,
  exec_access (λ a, match insert_token kind name tokenHash createdBy now a with
                    | Ok (t, a') => Ok (t, Some a')
                    | Err e => Err e
                    end) ≫= λ res,
  Ret (wrapped ("create api token for " ++ kind ++ ":" ++ name) res).

Definition LookupAPIToken (tokenHash : string) : prog (result APIToken) :=
  query_access (R := option APIToken) (λ a, tr_Token <$> select_hash tr_Hash live tokenHash (ac_Tokens a)) ≫= λ res,
  Ret match res with
      | Ok None => Err (Sentinel ErrNotFound)
      | Ok (Some t) => Ok t
      | Err e => wrapped "look up api token" (Err e)
      end.

(** ORDER BY id. *)
Definition by_id {A} (x y : Z * A) : Prop := (x.1 ≤ y.1)%Z.
#[export] Instance by_id_dec {A} : RelDecision (by_id (A := A)).
Proof. intros x y. unfold by_id. apply _. Defined.

Definition ListAPITokens : prog (result (list APIToken)) :=
  query_access (R := list APIToken) (λ a, (λ kr, tr_Token kr.2) <$>
    merge_sort by_id (map_to_list (ac_Tokens a))) ≫= λ res,
  Ret (wrapped "list api tokens" res).

Definition RevokeAPIToken (id : Z) : prog (result ()) :=
  now_ ≫= λ now,
  exec_access (R := bool) (λ a, Ok match ac_Tokens a !! id with
    | None => (false, None)
    | Some r => (true, Some (ac_with_Tokens (ac_NextToken a)
                  (<[id := revoke_token (timestamptz now) r]> (ac_Tokens a)) a))
    end) ≫= λ res,
  Ret match res with
      | Ok false => Err (Wrap EmptyString (Sentinel ErrNotFound) (": api token " ++ FormatInt id)%string)
      | Ok true => Ok ()
      | Err e => wrapped ("revoke api token " ++ FormatInt id) (Err e)
      end.

(** ** Join tokens *)

Definition CreateNodeJoinToken (nodeName tokenHash createdBy : string) (expiresAt : Time)
    : prog (result NodeJoinToken) :=
  now_ ≫= λ now,
  exec_access (λ a,
    let id := ac_NextJoin a in
    if bool_decide (max_int64 < id)%Z then Err sequence_exhausted
    else if bool_decide (is_Some (ac_Joins a !! id)) ||
            bool_decide (is_Some (select_hash jr_Hash (λ _, true) tokenHash (ac_Joins a)))
    then Err unique_violation
    else
      let t := {| jt_ID := id; jt_NodeName := nodeName; jt_CreatedBy := createdBy;
                  jt_CreatedAt := timestamptz now; jt_ExpiresAt := timestamptz expiresAt;
                  jt_UsedAt := None; jt_RevokedAt := None |} in
      Ok (t, Some (ac_with_Joins (id + 1) (<[id := {| jr_Token := t; jr_Hash := tokenHash |}]>
                                             (ac_Joins a)) a))) ≫= λ res,
  Ret (wrapped ("create join token for node " ++ Quote nodeName) res).

Definition redeemable (now : Time) (r : JoinRow) : bool :=
  bool_decide (jt_UsedAt (jr_Token r) = None) && bool_decide (jt_RevokedAt (jr_Token r) = None)
  && bool_decide (timestamptz now < jt_ExpiresAt (jr_Token r))%Z.

Definition use_join (now : Time) (r : JoinRow) : JoinRow :=
  with_join_dates (Some (timestamptz now)) (jt_RevokedAt (jr_Token r)) r.

(** What the transaction found: no row, the token of another Node, or a
    redemption. Which of its statements a fault hit is not told apart. *)
Inductive redemption :=
| NoJoinToken
| OtherNode (join : NodeJoinToken)
| Issued (t : APIToken).

Definition redeem (joinHash nodeName nodeTokenHash : string) (now : Time) (a : Access)
    : result (redemption * option Access) :=
  match select_hash jr_Hash (redeemable now) joinHash (ac_Joins a) with
  | None => Ok (NoJoinToken, None)
  | Some r =>
      let join := jr_Token r in
      if decide (jt_NodeName join ≠ nodeName) then Ok (OtherNode join, None)
      else
        match insert_token APITokenKindNode nodeName nodeTokenHash (join_creator (jt_ID join)) now
                (ac_with_Joins (ac_NextJoin a) (<[jt_ID join := use_join now r]> (ac_Joins a)) a) with
        | Err e => Err e
        | Ok (t, a') => Ok (Issued t, Some a')
        end
  end.

Definition RedeemNodeJoinToken (joinHash nodeName nodeTokenHash : string) (now : Time)
    : prog (result APIToken) :=
  exec_access (redeem joinHash nodeName nodeTokenHash now) ≫= λ res,
  Ret match res with
      | Ok NoJoinToken => Err (Sentinel ErrNotFound)
      | Ok (OtherNode join) =>
          Err (Wrap EmptyString (Sentinel ErrWrongNode)
            (": join token " ++ FormatInt (jt_ID join) ++ " is for node " ++ Quote (jt_NodeName join)
             ++ ", not " ++ Quote nodeName)%string)
      | Ok (Issued t) => Ok t
      | Err e => Err (sql_err "issue node token for" nodeName e)
      end.

(** *** Revoking a Node's tokens *)

Definition token_of (nodeName : string) (r : TokenRow) : bool :=
  bool_decide (at_Kind (tr_Token r) = APITokenKindNode) && bool_decide (at_Name (tr_Token r) = nodeName)
  && live r.
Definition unused_join (r : JoinRow) : bool :=
  bool_decide (jt_UsedAt (jr_Token r) = None) && bool_decide (jt_RevokedAt (jr_Token r) = None).
Definition join_of (nodeName : string) (r : JoinRow) : bool :=
  bool_decide (jt_NodeName (jr_Token r) = nodeName) && unused_join r.

(** The ids of the rows that satisfy [f]. *)
Definition matching {A} (f : A → bool) (m : gmap Z A) : list Z :=
  (filter (λ kr, f kr.2 = true) (map_to_list m)).*1.
Definition update_ids {A} (ids : list Z) (f : A → A) (m : gmap Z A) : gmap Z A :=
  map_imap (λ id r, Some (if bool_decide (id ∈ ids) then f r else r)) m.

Definition revoke_join (now : Time) (r : JoinRow) : JoinRow :=
  if unused_join r then with_join_dates None (Some (timestamptz now)) r else r.

Definition revoke_ids (now : Time) (tokens joins : list Z) (a : Access) : Access :=
  ac_with_Tokens (ac_NextToken a) (update_ids tokens (revoke_token (timestamptz now)) (ac_Tokens a))
    (ac_with_Joins (ac_NextJoin a) (update_ids joins (revoke_join now) (ac_Joins a)) a).

Definition RevokeNodeTokens (nodeName : string) : prog (result (nat * nat)) :=
  now_ ≫= λ now,
  query_access (R := list Z) (λ a, matching (token_of nodeName) (ac_Tokens a)) ≫= λ nodes,
  match nodes with
  | Err e => Ret (wrapped ("revoke node tokens of " ++ Quote nodeName) (Err e))
  | Ok nodes =>
      query_access (R := list Z) (λ a, matching (join_of nodeName) (ac_Joins a)) ≫= λ joins,
      match joins with
      | Err e => Ret (wrapped ("revoke join tokens of " ++ Quote nodeName) (Err e))
      | Ok joins =>
          exec_access (λ a, Ok ((), Some (revoke_ids now nodes joins a))) ≫= λ res,
          Ret match res with
              | Err e => wrapped "commit revoke node tokens" (Err e)
              | Ok () => Ok (length nodes, length joins)
              end
      end
  end.

(** ** Pre-auth keys *)

Definition stateOrDefault (state : string) : string :=
  if decide (state = EmptyString) then PreAuthKeyStateActive else state.

Definition preauth_key_missing : error := Wrap EmptyString (Sentinel ErrNotFound) ": preauth key".

(** A zero expiration is stored as NULL, which reads as zero again. *)
Definition CreatePreAuthKey (key : PreAuthKey) : prog (result ()) :=
  now_ ≫= λ _,
  exec_access (R := bool) (λ a, Ok match ac_Keys a !! pk_KeyHash key with
    | Some _ => (false, None)
    | None => (true, Some (ac_with_Keys (<[pk_KeyHash key :=
        {| pk_KeyHash := pk_KeyHash key; pk_KeyPrefix := pk_KeyPrefix key;
           pk_CaraNodeName := pk_CaraNodeName key; pk_Expiration := timestamptz (pk_Expiration key);
           pk_State := stateOrDefault (pk_State key); pk_UsedByIP := EmptyString; pk_UsedAt := zero;
           pk_IssuedBy := pk_IssuedBy key |}]> (ac_Keys a)) a))
    end) ≫= λ res,
  Ret match res with
      | Ok true => Ok ()
      | Ok false => Err (Sentinel ErrAlreadyExists)
      | Err e => wrapped ("create preauth key for node " ++ Quote (pk_CaraNodeName key)) (Err e)
      end.

Definition GetPreAuthKeyByHash (keyHash : string) : prog (result PreAuthKey) :=
  query_access (R := option PreAuthKey) (λ a, ac_Keys a !! keyHash) ≫= λ res,
  Ret match res with
      | Ok None => Err preauth_key_missing
      | Ok (Some k) => Ok k
      | Err e => wrapped "get preauth key" (Err e)
      end.

Definition mark_used (usedByIP : string) (usedAt : Time) (k : PreAuthKey) : PreAuthKey :=
  {| pk_KeyHash := pk_KeyHash k; pk_KeyPrefix := pk_KeyPrefix k; pk_CaraNodeName := pk_CaraNodeName k;
     pk_Expiration := pk_Expiration k; pk_State := PreAuthKeyStateUsed; pk_UsedByIP := usedByIP;
     pk_UsedAt := timestamptz usedAt; pk_IssuedBy := pk_IssuedBy k |}.

Definition MarkPreAuthKeyUsed (keyHash usedByIP : string) (usedAt : Time) : prog (result ()) :=
  now_ ≫= λ _,
  exec_access (R := bool) (λ a, Ok match ac_Keys a !! keyHash with
    | None => (false, None)
    | Some k => (true, Some (ac_with_Keys (<[keyHash := mark_used usedByIP usedAt k]> (ac_Keys a)) a))
    end) ≫= λ res,
  Ret match res with
      | Ok false => Err preauth_key_missing
      | Ok true => Ok ()
      | Err e => wrapped "mark preauth key used" (Err e)
      end.

(** ** Lookup by hash *)

Section select_hash.
Context {A : Type} (hash : A → string).

Lemma select_hash_Some f h (m : gmap Z A) r :
  select_hash hash f h m = Some r → ∃ i, m !! i = Some r ∧ hash r = h ∧ f r = true.
Proof.
  unfold select_hash. rewrite fmap_Some. intros ([i r'] & Hf & ->).
  apply find_first_Some in Hf as [Hin Hb]. simpl in *. bools. destruct Hb.
  exists i. split_and!; [by apply elem_of_map_to_list|done|done].
Qed.

Lemma select_hash_None f h (m : gmap Z A) :
  select_hash hash f h m = None ↔ ∀ i r, m !! i = Some r → hash r = h → f r = false.
Proof.
  unfold select_hash. rewrite fmap_None, find_first_None. split.
  - intros Hall i r Hr Hh. specialize (Hall (i, r) ltac:(by apply elem_of_map_to_list)). simpl in Hall.
    rewrite bool_decide_eq_true_2 in Hall by done. done.
  - intros Hall [i r] Hin%elem_of_map_to_list. simpl. case_bool_decide as Hh; [|done]. by eapply Hall.
Qed.

Lemma select_hash_unique f h (m : gmap Z A) i r :
  (∀ i j r s, m !! i = Some r → m !! j = Some s → hash r = hash s → i = j) →
  m !! i = Some r → hash r = h → f r = true → select_hash hash f h m = Some r.
Proof.
  intros Hu Hr Hh Hf. destruct (select_hash hash f h m) as [s|] eqn:Es.
  - apply select_hash_Some in Es as (j & Hs & Hhs & _).
    rewrite (Hu i j r s Hr Hs ltac:(congruence)) in Hr. congruence.
  - rewrite select_hash_None in Es. rewrite (Es i r Hr Hh) in Hf. done.
Qed.
End select_hash.

(** ** The contract *)

Section access_safe.
Context `{UUIDSource}.

Lemma access_others a d :
  access_evolves (db_Access d) a → (access_inv (db_Access d) → access_inv a) →
  others_unforced d (db_with_Access a d).
Proof.
  intros Hev Hinv. split; [split; [split|]|]; try done.
  - intros key r Hr. left. exists r. by split.
  - intros [Hr Hn Ha]. split; [exact Hr|exact Hn|by apply Hinv].
  - intros key r Hr. left. exists r. by split.
Qed.

Context (Rel : DB → DB → Prop).
Context (Rel_trans : ∀ d1 d2 d3, Rel d1 d2 → Rel d2 d3 → Rel d1 d3).
Context (Rel_others : ∀ d d', Rel d d' → others d d').

Lemma safe_query_access {R : Set} (q : Access → R) : safe Rel (query_access q).
Proof using Rel_others. by apply safe_query. Qed.

Lemma safe_exec_access {R : Set} (q : Access → result (R * option Access)) :
  (∀ a r a', access_inv a → q a = Ok (r, Some a') → access_evolves a a' ∧ access_inv a') →
  safe Rel (exec_access q).
Proof using Rel_trans Rel_others.
  intros Hq. apply safe_exec; [done..|]. intros d r d' Hinv.
  destruct (q (db_Access d)) as [[r' [a'|]]|e] eqn:Eq; try done. intros [= <- <-].
  destruct (Hq _ _ _ (di_access _ Hinv) Eq). by apply access_others.
Qed.
End access_safe.

(** Writes of one row of a table. *)
Lemma insert_fresh_token i row next a :
  access_inv a → ac_Tokens a !! i = None → at_ID (tr_Token row) = i →
  (∀ j s, ac_Tokens a !! j = Some s → tr_Hash s ≠ tr_Hash row) →
  (∀ k, at_CreatedBy (tr_Token row) = join_creator k →
     at_Kind (tr_Token row) = APITokenKindNode ∧
     (∃ j, ac_Joins a !! k = Some j ∧ jt_UsedAt (jr_Token j) ≠ None ∧
           at_Name (tr_Token row) = jt_NodeName (jr_Token j)) ∧
     ∀ j s, ac_Tokens a !! j = Some s → at_CreatedBy (tr_Token s) ≠ join_creator k) →
  let a' := ac_with_Tokens next (<[i := row]> (ac_Tokens a)) a in
  access_evolves a a' ∧ access_inv a'.
Proof.
  intros Hinv Hfree Hid Hhash Hby a'. split; [split; [|done..]|destruct Hinv as [U1 U2 U3 U4 U5 U6]; split; simpl; try done].
  - apply rows_evolve_insert; [apply _|]. by rewrite Hfree.
  - intros j1 j2 r s. rewrite !lookup_insert_Some. intros [[<- <-]|[? Hr]] [[<- <-]|[? Hs]] Hh; try done.
    + by apply Hhash in Hs.
    + by apply Hhash in Hr.
    + by eapply U1.
  - intros j r. rewrite lookup_insert_Some. intros [[<- <-]|[? Hr]]; auto.
  - intros j r k. rewrite lookup_insert_Some. intros [[<- <-]|[? Hr]] Hk; [|by eapply U5].
    destruct (Hby k Hk) as (? & ? & _). done.
  - intros j1 j2 r s k. rewrite !lookup_insert_Some. intros [[<- <-]|[? Hr]] [[<- <-]|[? Hs]] Hk1 Hk2; try done.
    + destruct (Hby k Hk1) as (_ & _ & Hno). by apply Hno in Hs.
    + destruct (Hby k Hk2) as (_ & _ & Hno). by apply Hno in Hr.
    + by eapply U6.
Qed.

Lemma insert_fresh_join i row next a :
  access_inv a → ac_Joins a !! i = None → jt_ID (jr_Token row) = i →
  (∀ j s, ac_Joins a !! j = Some s → jr_Hash s ≠ jr_Hash row) →
  let a' := ac_with_Joins next (<[i := row]> (ac_Joins a)) a in
  access_evolves a a' ∧ access_inv a'.
Proof.
  intros Hinv Hfree Hid Hhash a'. split; [split; [done| |done]|].
  - apply rows_evolve_insert; [apply _|]. by rewrite Hfree.
  - destruct Hinv as [U1 U2 U3 U4 U5 U6]. split; simpl; try done.
    + intros j1 j2 r s. rewrite !lookup_insert_Some. intros [[<- <-]|[? Hr]] [[<- <-]|[? Hs]] Hh; try done.
      * by apply Hhash in Hs.
      * by apply Hhash in Hr.
      * by eapply U2.
    + intros j r. rewrite lookup_insert_Some. intros [[<- <-]|[? Hr]]; auto.
    + intros j r k Hr Hk. destruct (U5 j r k Hr Hk) as (? & x & Hx & ? & ?). split; [done|].
      exists x. split_and!; [|done|done]. rewrite lookup_insert_ne; [done|]. intros <-. congruence.
Qed.

Lemma insert_token_inv kind name hash by_ now a t a' :
  insert_token kind name hash by_ now a = Ok (t, a') →
  let row := {| tr_Token := t; tr_Hash := hash |} in
  t = {| at_ID := ac_NextToken a; at_Kind := kind; at_Name := name; at_CreatedBy := by_;
         at_CreatedAt := timestamptz now; at_RevokedAt := None |} ∧
  a' = ac_with_Tokens (ac_NextToken a + 1) (<[ac_NextToken a := row]> (ac_Tokens a)) a ∧
  ac_Tokens a !! ac_NextToken a = None ∧ ∀ j s, ac_Tokens a !! j = Some s → tr_Hash s ≠ hash.
Proof.
  unfold insert_token. case_bool_decide; [done|]. destruct (_ || _) eqn:Eu; [done|]. intros [= <- <-].
  apply orb_false_iff in Eu as [Ei Eh]. bools. split_and!; try done; [by apply eq_None_not_Some|].
  intros j s Hs Heq. apply eq_None_not_Some in Eh. rewrite select_hash_None in Eh.
  by specialize (Eh j s Hs Heq).
Qed.

(** Changes that keep every row's identity. *)
Lemma update_tokens_ok f next a :
  (∀ i r, ac_Tokens a !! i = Some r → token_evolves r (f i r)) → access_inv a →
  let a' := ac_with_Tokens next (map_imap (λ i r, Some (f i r)) (ac_Tokens a)) a in
  access_evolves a a' ∧ access_inv a'.
Proof.
  intros Hf Hinv a'.
  assert (∀ i r', ac_Tokens a' !! i = Some r' →
    ∃ r, ac_Tokens a !! i = Some r ∧ r' = f i r ∧ token_evolves r r') as Hcase.
  { intros i r'. simpl. rewrite map_lookup_imap. destruct (ac_Tokens a !! i) as [r|] eqn:Er; simpl; [|done].
    intros [= <-]. eauto. }
  split; [split; [|done..]|destruct Hinv as [U1 U2 U3 U4 U5 U6]; split; try done].
  - intros i r Hr. exists (f i r). simpl. rewrite map_lookup_imap, Hr. auto.
  - intros i j r s (r0 & Hr & _ & [])%Hcase (s0 & Hs & _ & [])%Hcase Hh.
    eapply U1; [done..|congruence].
  - intros i r (r0 & Hr & _ & [])%Hcase. specialize (U3 _ _ Hr). congruence.
  - intros i r k (r0 & Hr & _ & [])%Hcase Hk.
    destruct (U5 i r0 k Hr) as (? & j & ? & ? & ?); [congruence|].
    split; [congruence|]. exists j. split_and!; [done|done|congruence].
  - intros i j r s k (r0 & Hr & _ & [])%Hcase (s0 & Hs & _ & [])%Hcase Hk1 Hk2.
    eapply (U6 i j r0 s0 k); congruence.
Qed.

Lemma update_joins_ok f next a :
  (∀ i r, ac_Joins a !! i = Some r → join_evolves r (f i r)) → access_inv a →
  let a' := ac_with_Joins next (map_imap (λ i r, Some (f i r)) (ac_Joins a)) a in
  access_evolves a a' ∧ access_inv a'.
Proof.
  intros Hf Hinv a'.
  assert (∀ i r', ac_Joins a' !! i = Some r' →
    ∃ r, ac_Joins a !! i = Some r ∧ r' = f i r ∧ join_evolves r r') as Hcase.
  { intros i r'. simpl. rewrite map_lookup_imap. destruct (ac_Joins a !! i) as [r|] eqn:Er; simpl; [|done].
    intros [= <-]. eauto. }
  assert (∀ i r, ac_Joins a !! i = Some r → ac_Joins a' !! i = Some (f i r)) as Hlook.
  { intros i r Hr. simpl. by rewrite map_lookup_imap, Hr. }
  split; [split; [done| |done]|destruct Hinv as [U1 U2 U3 U4 U5 U6]; split; try done].
  - intros i r Hr. exists (f i r). auto.
  - intros i j r s (r0 & Hr & _ & [])%Hcase (s0 & Hs & _ & [])%Hcase Hh.
    eapply U2; [done..|congruence].
  - intros i r (r0 & Hr & _ & [])%Hcase. specialize (U4 _ _ Hr). congruence.
  - intros i r k Hr Hk. destruct (U5 i r k Hr Hk) as (? & j & Hj & Hu & ?). split; [done|].
    destruct (Hf k j Hj) as [_ Hn _ _ Hs _]. exists (f k j). split_and!; [auto| |congruence].
    by rewrite Hs.
Qed.

(** One row changed in place is such a change. *)
Lemma insert_as_imap {A} (m : gmap Z A) i r r' :
  m !! i = Some r → <[i := r']> m = map_imap (λ j x, Some (if decide (j = i) then r' else x)) m.
Proof.
  intros Hr. apply map_eq. intros j. rewrite map_lookup_imap.
  destruct (decide (j = i)) as [->|Hne].
  - by rewrite lookup_insert_eq, Hr.
  - rewrite lookup_insert_ne by done. by destruct (m !! j).
Qed.

Lemma revoke_token_evolves now r : token_evolves r (revoke_token now r).
Proof. split; try done. simpl. intros Hr. by destruct (at_RevokedAt (tr_Token r)). Qed.

Lemma use_join_evolves now r : redeemable now r = true → join_evolves r (use_join now r).
Proof. unfold redeemable. intros Hr. bools. destruct Hr as [[Hu _] _].
  split; try done. rewrite Hu. apply set_once_None. Qed.

Lemma revoke_join_evolves now r : join_evolves r (revoke_join now r).
Proof.
  unfold revoke_join. destruct (unused_join r) eqn:Eu; [|done]. unfold unused_join in Eu.
  apply andb_true_iff in Eu as [Hu Hr]. bools. split; try done.
  - rewrite Hu. apply set_once_None.
  - rewrite Hr. apply set_once_None.
Qed.

(** *** The operations keep it *)

(** The tables after join token [k] was traded for [t]. *)
Definition redeemed (k : Z) (r : JoinRow) (t : APIToken) (hash : string) (now : Time) (a : Access) : Access :=
  ac_with_Tokens (ac_NextToken a + 1) (<[at_ID t := {| tr_Token := t; tr_Hash := hash |}]> (ac_Tokens a))
    (ac_with_Joins (ac_NextJoin a) (<[k := use_join now r]> (ac_Joins a)) a).

(** A join token with this hash that can be redeemed at [now]. *)
Definition join_offered (hash : string) (now : Time) (a : Access) (k : Z) (r : JoinRow) : Prop :=
  ac_Joins a !! k = Some r ∧ jr_Hash r = hash ∧
  jt_UsedAt (jr_Token r) = None ∧ jt_RevokedAt (jr_Token r) = None ∧
  (timestamptz now < jt_ExpiresAt (jr_Token r))%Z.

Lemma redeemable_iff now r :
  redeemable now r = true ↔
  jt_UsedAt (jr_Token r) = None ∧ jt_RevokedAt (jr_Token r) = None ∧
  (timestamptz now < jt_ExpiresAt (jr_Token r))%Z.
Proof. unfold redeemable. rewrite !andb_true_iff, !bool_decide_eq_true. naive_solver. Qed.

(** A Node token of [nodeName], new in the table. *)
Definition fresh_node_token (nodeName : string) (a : Access) (t : APIToken) : Prop :=
  at_Kind t = APITokenKindNode ∧ at_Name t = nodeName ∧ at_RevokedAt t = None ∧
  ac_Tokens a !! at_ID t = None.

Definition redeem_spec (joinHash nodeName nodeTokenHash : string) (now : Time) (a : Access)
    (x : redemption) (w : option Access) : Prop :=
  match x with
  | NoJoinToken => w = None ∧ ∀ k r, ¬ join_offered joinHash now a k r
  | OtherNode j => w = None ∧ ∃ k r, join_offered joinHash now a k r ∧ jr_Token r = j ∧
                                     jt_NodeName j ≠ nodeName
  | Issued t => ∃ k r, join_offered joinHash now a k r ∧ jt_NodeName (jr_Token r) = nodeName ∧
      fresh_node_token nodeName a t ∧ at_CreatedBy t = join_creator k ∧
      (∀ i s, ac_Tokens a !! i = Some s → tr_Hash s ≠ nodeTokenHash) ∧
      w = Some (redeemed k r t nodeTokenHash now a)
  end.

Lemma redeem_correct joinHash nodeName nodeTokenHash now a x w :
  access_inv a → redeem joinHash nodeName nodeTokenHash now a = Ok (x, w) →
  redeem_spec joinHash nodeName nodeTokenHash now a x w.
Proof.
  intros Hinv. unfold redeem. destruct (select_hash _ _ _ _) as [r|] eqn:Es.
  - apply select_hash_Some in Es as (k & Hr & Hh & Hf).
    rewrite (ai_join_id _ Hinv k r Hr). case_decide as Hn.
    + intros [= <- <-]. split; [done|]. apply redeemable_iff in Hf. exists k, r. by split_and!.
    + destruct (insert_token _ _ _ _ _ _) as [[t a']|e] eqn:Ei; [|done]. intros [= <- <-].
      apply insert_token_inv in Ei as (-> & -> & Hfree & Hhash). simpl in *.
      apply redeemable_iff in Hf. exists k, r. split_and!; try done; apply Hf.
  - intros [= <- <-]. split; [done|]. intros k r (Hr & Hh & Hf). apply redeemable_iff in Hf.
    rewrite select_hash_None in Es. by rewrite (Es k r Hr Hh) in Hf.
Qed.

Lemma redeemed_ok joinHash k r t hash now a :
  access_inv a → join_offered joinHash now a k r →
  fresh_node_token (jt_NodeName (jr_Token r)) a t → at_CreatedBy t = join_creator k →
  (∀ i s, ac_Tokens a !! i = Some s → tr_Hash s ≠ hash) →
  access_evolves a (redeemed k r t hash now a) ∧ access_inv (redeemed k r t hash now a).
Proof.
  intros Hinv (Hr & _ & Hun & Hnr & Hexp) (Hkind & Hname & _ & Hfree) Hby Hhash.
  destruct (update_joins_ok (λ j x, if decide (j = k) then use_join now r else x) (ac_NextJoin a) a)
    as [He1 Hi1]; [|done|].
  { intros i x Hx. case_decide as Hik; [|done]. subst. rewrite Hr in Hx. injection Hx as <-.
    by apply use_join_evolves, redeemable_iff. }
  rewrite <- (insert_as_imap _ k r) in He1, Hi1 by done.
  destruct (insert_fresh_token (at_ID t) {| tr_Token := t; tr_Hash := hash |} (ac_NextToken a + 1)
    (ac_with_Joins (ac_NextJoin a) (<[k := use_join now r]> (ac_Joins a)) a)) as [He2 Hi2]; try done.
  - simpl. intros k' Hk'. rewrite Hby in Hk'. apply (inj join_creator) in Hk' as <-. split_and!; [done| |].
    + exists (use_join now r). rewrite lookup_insert_eq. by split_and!.
    + intros j s Hs Hk. destruct (ai_redeemed _ Hinv j s k Hs Hk) as (_ & r' & Hr' & Hu & _).
      rewrite Hr in Hr'. injection Hr' as <-. by apply Hu.
  - split; [|exact Hi2]. etrans; [exact He1|exact He2].
Qed.

Section access_ops.
Context `{UUIDSource}.

Lemma safe_CreateAPIToken kind name hash by_ :
  (∀ k, by_ ≠ join_creator k) → safe others (CreateAPIToken kind name hash by_).
Proof.
  intros Hby. apply safe_bind; [by apply safe_now|]. intros now. apply safe_bind; [|intros; apply safe_ret].
  apply safe_exec_access; [apply others_trans|done|]. intros a t a' Hinv.
  destruct (insert_token _ _ _ _ _ _) as [[t' a0]|e] eqn:Ei; [|done]. intros [= <- <-].
  apply insert_token_inv in Ei as (-> & -> & Hfree & Hhash).
  apply insert_fresh_token; try done. intros k Hk. by apply Hby in Hk.
Qed.

Lemma safe_RevokeAPIToken id : safe others (RevokeAPIToken id).
Proof.
  apply safe_bind; [by apply safe_now|]. intros now. apply safe_bind; [|intros; apply safe_ret].
  apply safe_exec_access; [apply others_trans|done|]. intros a res a' Hinv.
  destruct (ac_Tokens a !! id) as [r|] eqn:Er; [|done]. intros [= <- <-].
  rewrite (insert_as_imap _ id r) by done. apply update_tokens_ok; [|done].
  intros i r' Hr'. case_decide as Hi; [|done]. subst. rewrite Er in Hr'. injection Hr' as <-.
  apply revoke_token_evolves.
Qed.

Lemma safe_CreateNodeJoinToken nodeName hash by_ expiresAt :
  safe others (CreateNodeJoinToken nodeName hash by_ expiresAt).
Proof.
  apply safe_bind; [by apply safe_now|]. intros now. apply safe_bind; [|intros; apply safe_ret].
  apply safe_exec_access; [apply others_trans|done|]. intros a t a' Hinv. cbv beta zeta. case_bool_decide; [done|].
  destruct (_ || _) eqn:Eu; [done|]. intros [= <- <-]. apply orb_false_iff in Eu as [Ei Eh]. bools.
  apply eq_None_not_Some in Ei, Eh. rewrite select_hash_None in Eh.
  apply insert_fresh_join; try done. intros j s Hs Heq. by specialize (Eh j s Hs Heq).
Qed.

Lemma safe_RedeemNodeJoinToken jh name nh now : safe others (RedeemNodeJoinToken jh name nh now).
Proof.
  apply safe_bind; [|intros; apply safe_ret]. apply safe_exec_access; [apply others_trans|done|].
  intros a x a' Hinv Hx. apply redeem_correct in Hx; [|done].
  destruct x as [|j|t]; [by destruct Hx as [? _]|by destruct Hx as [? _]|]. destruct Hx as (k & r & Hj & <- & Hf & Hby & Hh & [= ->]).
  by eapply redeemed_ok.
Qed.

Lemma revoke_ids_ok now tokens joins a :
  access_inv a → access_evolves a (revoke_ids now tokens joins a) ∧ access_inv (revoke_ids now tokens joins a).
Proof.
  intros Hinv. unfold revoke_ids, update_ids.
  destruct (update_joins_ok (λ id r, if bool_decide (id ∈ joins) then revoke_join now r else r)
    (ac_NextJoin a) a) as [He1 Hi1]; [|done|].
  { intros i r _. case_bool_decide; [apply revoke_join_evolves|done]. }
  destruct (update_tokens_ok (λ id r, if bool_decide (id ∈ tokens) then revoke_token (timestamptz now) r else r)
    (ac_NextToken a) (ac_with_Joins (ac_NextJoin a) (update_ids joins (revoke_join now) (ac_Joins a)) a))
    as [He2 Hi2]; [|exact Hi1|].
  { intros i r _. case_bool_decide; [apply revoke_token_evolves|done]. }
  split; [|exact Hi2]. etrans; [exact He1|exact He2].
Qed.

Lemma safe_RevokeNodeTokens name : safe others (RevokeNodeTokens name).
Proof.
  apply safe_bind; [by apply safe_now|]. intros now. apply safe_bind; [by apply safe_query_access|].
  intros [nodes|e]; [|apply safe_ret]. apply safe_bind; [by apply safe_query_access|].
  intros [joins|e]; [|apply safe_ret]. apply safe_bind; [|intros; apply safe_ret].
  apply safe_exec_access; [apply others_trans|done|]. intros a [] a' Hinv [= <-]. by apply revoke_ids_ok.
Qed.

Lemma safe_CreatePreAuthKey key : safe others (CreatePreAuthKey key).
Proof.
  apply safe_bind; [by apply safe_now|]. intros now. apply safe_bind; [|intros; apply safe_ret].
  apply safe_exec_access; [apply others_trans|done|]. intros a x a' Hinv.
  destruct (ac_Keys a !! _) eqn:Ek; [done|]. intros [= <- <-]. split; [split; [done..|]|].
  - apply rows_evolve_insert; [apply _|]. by rewrite Ek.
  - by apply (access_inv_tables a).
Qed.

Lemma safe_MarkPreAuthKeyUsed hash ip t : safe others (MarkPreAuthKeyUsed hash ip t).
Proof.
  apply safe_bind; [by apply safe_now|]. intros now. apply safe_bind; [|intros; apply safe_ret].
  apply safe_exec_access; [apply others_trans|done|]. intros a x a' Hinv.
  destruct (ac_Keys a !! _) as [k|] eqn:Ek; [|done]. intros [= <- <-]. split; [split; [done..|]|].
  - apply rows_evolve_insert; [apply _|]. rewrite Ek. intros k' [= <-]. by split.
  - by apply (access_inv_tables a).
Qed.
End access_ops.

(** ** Properties *)

(** (store.go, RedeemNodeJoinToken): a join token buys one Node token, for its
    own Node. Under any interference the call makes at most one write, and only
    when at that moment the token with this hash is unused, unrevoked, unexpired
    and for the named Node; the write marks it used and adds one Node token for
    that Node, and is all the call changes. Without a write the answer is an
    error: ErrNotFound when no token with the hash could be redeemed, ErrWrongNode,
    with the token still unused, when it is another Node's, or the fault that was
    hit; after the write it is the issued token, or a fault that lost it. *)
Theorem RedeemNodeJoinToken_exact `{UUIDSource} (joinHash nodeName nodeTokenHash : string) (now : Time)
    (ms : list move) (d0 : DB) (Hinv : db_inv d0) (Hms : schedule_ok ms) :
  let x := run (RedeemNodeJoinToken joinHash nodeName nodeTokenHash now) ms d0 [] in
  ∃ d1, others d0 d1 ∧ let a := db_Access d1 in
  (history_of x = [] ∧ ∃ e, result_of x = Err e ∧
     ((Is e ErrNotFound = true ∧ ∀ k r, ¬ join_offered joinHash now a k r) ∨
      (Is e ErrWrongNode = true ∧ ∃ k r, join_offered joinHash now a k r ∧
         jt_NodeName (jr_Token r) ≠ nodeName) ∨
      is_fault e = true)) ∨
  (∃ k r t, join_offered joinHash now a k r ∧ jt_NodeName (jr_Token r) = nodeName ∧
     fresh_node_token nodeName a t ∧ at_CreatedBy t = join_creator k ∧
     history_of x = [Wrote d1 (db_with_Access (redeemed k r t nodeTokenHash now a) d1)] ∧
     (result_of x = Ok t ∨ ∃ e, result_of x = Err e ∧ is_fault e = true)).
Proof.
  intros x. subst x. run_wp (RedeemNodeJoinToken joinHash nodeName nodeTokenHash now) ms d0.
  unfold RedeemNodeJoinToken, exec_access. apply wp_bind, wp_exec.
  - intros d e Hd He. apply wp_ret. exists d. split; [done|]. left. split; [done|].
    eexists. split; [done|]. by right; right.
  - intros d Hd. assert (access_inv (db_Access d)) as Ha by (by apply di_access, Hd).
    destruct (redeem _ _ _ _ _) as [[v w]|e] eqn:Er.
    + apply redeem_correct in Er; [|done]. destruct v as [|j|t].
      * destruct Er as [-> Hno]. apply wp_ret. exists d. split; [done|]. left. split; [done|].
        eexists. split; [done|]. by left.
      * destruct Er as (-> & k & r & Hj & <- & Hn). apply wp_ret. exists d. split; [done|]. left.
        split; [done|]. eexists. split; [done|]. right; left. split; [done|]. by exists k, r.
      * destruct Er as (k & r & Hj & Hn & Hf & Hby & _ & ->).
        split; [done|]. split; [|intros e He]; apply wp_ret; exists d; (split; [done|]); right;
          exists k, r, t; split_and!; try done; [by left|right; eexists; by split].
    + apply wp_ret. exists d. split; [done|]. left. split; [done|]. eexists. split; [done|].
      right; right. simpl. unfold redeem in Er. destruct (select_hash _ _ _ _); [|done].
      case_decide; [done|]. destruct (insert_token _ _ _ _ _ _) as [[? ?]|e'] eqn:Ei; [done|].
      injection Er as <-. unfold insert_token in Ei. case_bool_decide; [by injection Ei as <-|].
      destruct (_ || _); [by injection Ei as <-|done].
Qed.

(** Node "a" has one join token, of hash "j", until time 9000. *)
Definition example_join : JoinRow :=
  {| jr_Token := {| jt_ID := 1; jt_NodeName := "a"; jt_CreatedBy := "user:ops"; jt_CreatedAt := 0;
       jt_ExpiresAt := 9000; jt_UsedAt := None; jt_RevokedAt := None |}; jr_Hash := "j" |}%Z.
Definition join_db : DB :=
  db_with_Access (ac_with_Joins 2 {[ 1%Z := example_join ]} no_access) empty_db.

Lemma join_db_inv : @db_inv counter_uuids join_db.
Proof.
  split; [intros key r; simpl; by rewrite lookup_empty|done|].
  split; simpl; try (intros *; rewrite lookup_empty; done).
  - intros i j r s [<- <-]%lookup_singleton_Some [<- <-]%lookup_singleton_Some. done.
  - by intros i r [<- <-]%lookup_singleton_Some.
Qed.

Lemma RedeemNodeJoinToken_exact_witness :
  let x := run (RedeemNodeJoinToken "j" "a" "n" 5000%Z) [] join_db [] in
  match result_of x with
  | Ok t => at_Name t = "a"%string ∧ at_Kind t = APITokenKindNode
  | Err _ => False
  end ∧
  result_of (run (RedeemNodeJoinToken "j" "b" "n" 5000%Z) [] join_db []) ≠ result_of x ∧
  result_of (run (RedeemNodeJoinToken "j" "a" "n" 9000%Z) [] join_db []) = Err (Sentinel ErrNotFound).
Proof.
  intros x. split.
  - destruct (@RedeemNodeJoinToken_exact counter_uuids "j" "a" "n" 5000%Z [] join_db join_db_inv
      ltac:(by constructor)) as (d1 & _ & [[Hh _]|(k & r & t & _ & _ & (Hk & Hn & _) & _ & _ & [Hres|(e & Hres & _)])]).
    + exfalso. vm_compute in Hh. discriminate.
    + subst x. rewrite Hres. by split.
    + exfalso. vm_compute in Hres. discriminate.
  - split; [vm_compute; discriminate|vm_compute; reflexivity].
Defined.

(** *** Revoking all of a Node's tokens *)

Lemma elem_of_matching {A} (f : A → bool) (m : gmap Z A) i :
  i ∈ matching f m ↔ ∃ r, m !! i = Some r ∧ f r = true.
Proof.
  unfold matching. rewrite list_elem_of_fmap. split.
  - intros ([j r] & -> & [Hf Hin%elem_of_map_to_list]%list_elem_of_filter). eauto.
  - intros (r & Hr & Hf). exists (i, r). split; [done|]. apply list_elem_of_filter.
    split; [done|]. by apply elem_of_map_to_list.
Qed.

Lemma token_later `{UUIDSource} d d' i r :
  others d d' → ac_Tokens (db_Access d) !! i = Some r →
  ∃ r', ac_Tokens (db_Access d') !! i = Some r' ∧ token_evolves r r'.
Proof. intros [Hev _]. apply (ae_tokens _ _ (de_access _ _ Hev)). Qed.
Lemma join_later `{UUIDSource} d d' i r :
  others d d' → ac_Joins (db_Access d) !! i = Some r →
  ∃ r', ac_Joins (db_Access d') !! i = Some r' ∧ join_evolves r r'.
Proof. intros [Hev _]. apply (ae_joins _ _ (de_access _ _ Hev)). Qed.

Lemma revoked_stays r r' :
  token_evolves r r' → at_RevokedAt (tr_Token r) ≠ None → at_RevokedAt (tr_Token r') ≠ None.
Proof. intros He Hr. by rewrite (te_revoked _ _ He Hr). Qed.

Definition spent (r : JoinRow) : Prop := unused_join r = false.
Lemma spent_iff r : spent r ↔ jt_UsedAt (jr_Token r) ≠ None ∨ jt_RevokedAt (jr_Token r) ≠ None.
Proof. unfold spent, unused_join. rewrite andb_false_iff, !bool_decide_eq_false. done. Qed.
Lemma spent_stays r r' : join_evolves r r' → spent r → spent r'.
Proof.
  rewrite !spent_iff. intros He [Hu|Hr].
  - left. by rewrite (je_used _ _ He Hu).
  - right. by rewrite (je_revoked _ _ He Hr).
Qed.
Lemma spent_revoke_join now r : spent (revoke_join now r).
Proof.
  unfold revoke_join. destruct (unused_join r) eqn:Eu; [|done].
  unfold spent, unused_join. simpl. done.
Qed.

(** (store.go, RevokeNodeTokens): what a Node had when the call began is dead
    when it succeeds. Under any interference, if the answer is not an error, every
    Node token of the Node and every join token for it that existed at the start
    is, afterwards, revoked, or used in the case of a join token. *)
Theorem RevokeNodeTokens_revokes_all `{UUIDSource} (nodeName : string) (ms : list move) (d0 : DB) (n : nat * nat)
    (Hms : schedule_ok ms) (Hok : result_of (run (RevokeNodeTokens nodeName) ms d0 []) = Ok n) :
  let a' := db_Access (db_of (run (RevokeNodeTokens nodeName) ms d0 [])) in
  (∀ i r, ac_Tokens (db_Access d0) !! i = Some r →
     at_Kind (tr_Token r) = APITokenKindNode → at_Name (tr_Token r) = nodeName →
     ∃ r', ac_Tokens a' !! i = Some r' ∧ at_RevokedAt (tr_Token r') ≠ None) ∧
  (∀ i r, ac_Joins (db_Access d0) !! i = Some r → jt_NodeName (jr_Token r) = nodeName →
     ∃ r', ac_Joins a' !! i = Some r' ∧ spent r').
Proof.
  revert Hok. run_wp (RevokeNodeTokens nodeName) ms d0.
  apply wp_bind, wp_now. intros now d1 H1. apply wp_bind, wp_query; [|by intros; apply wp_ret].
  intros d2 H2. cbv beta iota. apply wp_bind, wp_query; [|by intros; apply wp_ret].
  intros d3 H3. cbv beta iota. apply wp_bind, wp_exec; [by intros; apply wp_ret|].
  intros d4 H4. cbv beta iota. split; [done|]. split; [|by intros; apply wp_ret]. apply wp_ret. intros _. split.
  - intros i r Hr Hk Hn.
    destruct (token_later d0 d2 i r ltac:(by trans d1) Hr) as (r2 & Hr2 & He2).
    destruct (token_later d2 d4 i r2 ltac:(by trans d3) Hr2) as (r4 & Hr4 & He4).
    simpl. unfold update_ids. rewrite map_lookup_imap, Hr4. simpl. eexists. split; [done|].
    case_bool_decide as Hin; [done|]. apply (revoked_stays r2 r4 He4). intros Hlive. apply Hin.
    apply elem_of_matching. exists r2. split; [done|]. unfold token_of, live. destruct He2. bools.
    split_and!; congruence.
  - intros i r Hr Hn.
    destruct (join_later d0 d3 i r ltac:(by trans d1; [|trans d2]) Hr) as (r3 & Hr3 & He3).
    destruct (join_later d3 d4 i r3 ltac:(done) Hr3) as (r4 & Hr4 & He4).
    simpl. unfold update_ids. rewrite map_lookup_imap, Hr4. simpl. eexists. split; [done|].
    case_bool_decide as Hin; [apply spent_revoke_join|]. apply (spent_stays r3 r4 He4).
    apply not_true_is_false. intros Hu. apply Hin. apply elem_of_matching. exists r3. split; [done|].
    unfold join_of. destruct He3. bools. split; [congruence|done].
Qed.

Lemma RevokeNodeTokens_revokes_all_witness :
  let x := run (RevokeNodeTokens "a") [] join_db [] in
  result_of x = Ok (0, 1) ∧
  ∃ r', ac_Joins (db_Access (db_of x)) !! 1%Z = Some r' ∧ spent r'.
Proof.
  intros x. assert (result_of x = Ok (0, 1)) as Hx by (vm_compute; reflexivity). split; [exact Hx|].
  refine (proj2 (@RevokeNodeTokens_revokes_all counter_uuids "a" [] join_db (0, 1) _ Hx) 1%Z example_join _ _).
  - by constructor.
  - vm_compute. reflexivity.
  - reflexivity.
Defined.

(** While an Agent trades its join token, an administrator revokes everything the
    Node has: the redemption commits between the two UPDATEs, after the first saw
    no Node token and before the second looks for unused join tokens. *)
Definition redeem_meanwhile : list move :=
  [quiet; quiet; {| mv_others := λ d, db_of (run (RedeemNodeJoinToken "j" "a" "n" 5000%Z) [] d []);
                    mv_outcome := Done; mv_now := zero |}].

(** (store.go, RevokeNodeTokens): revoking a Node's tokens can leave it one.
    The interface promises that every Node token of the Node and every unused join
    token for it is revoked. When a redemption of the Node's join token commits
    between the transaction's two UPDATEs, the call reports success with nothing
    revoked, and the Node token issued meanwhile authenticates afterwards. The
    first UPDATE's snapshot is older than the token, and the second finds the join
    token used. *)
Theorem RevokeNodeTokens_races_with_join :
  let x := run (RevokeNodeTokens "a") redeem_meanwhile join_db [] in
  result_of x = Ok (0, 0) ∧
  ∃ t, result_of (run (LookupAPIToken "n") [] (db_of x) []) = Ok t ∧
       at_Kind t = APITokenKindNode ∧ at_Name t = "a"%string.
Proof.
  split; [vm_compute; reflexivity|].
  eexists. split; [vm_compute; reflexivity|]. by split.
Qed.

(** Without interference it revokes them all. *)
Example RevokeNodeTokens_quiet :
  let d := db_of (run (RedeemNodeJoinToken "j" "a" "n" 5000%Z) [] join_db []) in
  let x := run (RevokeNodeTokens "a") [] d [] in
  result_of x = Ok (1, 0) ∧
  result_of (run (LookupAPIToken "n") [] (db_of x) []) = Err (Sentinel ErrNotFound).
Proof. vm_compute. by split. Qed.
