(* ===== verification/Authz.v ===== *)
(** Who may call what (internal/server/auth, internal/server/authz and
    internal/server/handler/errors.go): the principal of a request, the allow-list
    in front of the mux, the rules about single resources, and what a refusal is
    answered with. *)
From Stdlib Require Import ZArith Lia Ascii.
From stdpp Require Import prelude gmap strings.
From S2P Require Import Prelude.
From S2P Require Import Conditions.
From S2P Require Import ProjectTypes.
From S2P Require Import AccessTypes.
From S2P Require Import Database.
From S2P Require Import Evolution.
From S2P Require Import StatusStore.
From S2P Require Import Legality.
Import GoTime GoInt GoString GoError.
Open Scope go_scope.

(** ** Principals *)

Record Principal := { pr_Kind : APITokenKind; pr_Name : string }.

Definition Principal_String (p : Principal) : string := (pr_Kind p ++ ":" ++ pr_Name p)%string.
Definition IsAdmin (p : Principal) : bool := bool_decide (pr_Kind p = APITokenKindUser).

(** What the authentication middleware attached to the request's context. *)
Definition Caller := option Principal.

(** A Node's request, and which Node. *)
Definition node_caller (c : Caller) : option string :=
  match c with
  | Some p => if decide (pr_Kind p = APITokenKindNode) then Some (pr_Name p) else None
  | None => None
  end.

Definition RequireAdmin (c : Caller) : option error :=
  match c with
  | None => Some (Sentinel ErrOperatorUnauthorized)
  | Some p =>
      if negb (IsAdmin p) then
        Some (Wrap EmptyString (Sentinel ErrForbidden) (": " ++ Principal_String p ++ " may not do this")%string)
      else None
  end.

(** A refusal of the fence, unless the caller is no Node or the Node it names. *)
Definition RequireFenceOwner (c : Caller) (fenceNode : string) : option error :=
  match c with
  | None => None
  | Some p =>
      if negb (bool_decide (pr_Kind p = APITokenKindNode)) || bool_decide (pr_Name p = fenceNode)
      then None
      else Some (Wrap EmptyString (Sentinel ErrForbidden)
             (": node " ++ pr_Name p ++ " presented an assignment fence for node " ++ Quote fenceNode)%string)
  end.

(** ** The HTTP status of an error (NewProblemMapping)

    The cases are tried in order; an error none of them knows is left to the
    library the handlers write problems with. *)
Definition problem_status (e : error) : option Z :=
  if Is e ErrNotFound then Some 404%Z
  else if Is e ErrServiceNotConfigured then Some 503%Z
  else if Is e ErrOperatorUnauthorized || Is e ErrInvalidJoinToken then Some 401%Z
  else if Is e ErrForbidden || Is e ErrWrongNode then Some 403%Z
  else if Is e ErrAlreadyExists then Some 409%Z
  else if Is e ErrConflictState then Some 409%Z
  else if Is e ErrVersionConflict then Some 409%Z
  else if Is e ErrStaleAssignment then Some 409%Z
  else None.

Definition problem_detail (e : error) : string :=
  if Is e ErrStaleAssignment then
    "assignment is stale; the Project is no longer owned by this assignment"
  else Error e.

(** What a handler gives its problem writer: handlerutil.NewValidationError(field,
    ..., message), or an error for the mapping. *)
Inductive problem :=
| ValidationError (field message : string)
| ProblemOf (e : error).

(** ** Rules *)

Definition AssignedTo (p : Project) (node : string) : bool :=
  bool_decide (st_NodeRef (p_Status p) = node).

Definition NodeMayRead (p : Project) (node : string) : bool :=
  AssignedTo p node || negb (bool_decide (CleanupTasksFor p node = [])).

Definition references (p : Project) (secret : string) : bool :=
  existsb (λ svc, existsb (λ env,
    match ev_ValueFrom env with
    | Some src => match evs_SecretKeyRef src with
                  | Some sel => bool_decide (sks_Name sel = secret)
                  | None => false
                  end
    | None => false
    end) (svc_Env svc)) (sp_Services (p_Spec p)).

Inductive decision := allow | deny | hide.

(** A request as the authorizer sees it: the caller, the pattern the mux matched
    it to (empty when none), its path, and the nodeRef query parameter. *)
Record Request := {
  rq_Caller : Caller;
  rq_Pattern : string;
  rq_Path : string;
  rq_NodeRef : string
}.
Definition rq_with_NodeRef (n : string) (r : Request) : Request :=
  {| rq_Caller := rq_Caller r; rq_Pattern := rq_Pattern r; rq_Path := rq_Path r; rq_NodeRef := n |}.

(** What a rule returns: the decision with its reason, and the request it may
    have rewritten. *)
Definition rule := Request → string → gmap string string → prog (result (decision * Request)).

Definition allowRoute : rule := λ r _ _, Ret (Ok (allow, r)).

Definition ownNode : rule := λ r node vars,
  Ret (Ok (if decide (default EmptyString (vars !! "name"%string) ≠ node) then (deny, r) else (allow, r))).

Definition ownProjectList : rule := λ r node _, Ret (Ok (allow, rq_with_NodeRef node r)).

Definition readableProject : rule := λ r node vars,
  getProject (default EmptyString (vars !! "name"%string)) ≫= λ res,
  Ret match res with
      | Err e => if Is e ErrNotFound then Ok (allow, r) else Err e
      | Ok p => Ok (if negb (NodeMayRead p node) then (hide, r) else (allow, r))
      end.

Definition usedSecret : rule := λ r node vars,
  ListProjects ≫= λ res,
  Ret match res with
      | Err e => Err e
      | Ok projects =>
          Ok (if existsb (λ p, AssignedTo p node &&
                   references p (default EmptyString (vars !! "name"%string))) projects
              then (allow, r) else (deny, r))
      end.

Definition nodeRoutes : list (string * rule) :=
  [("POST /api/v1/nodes", allowRoute);
   ("POST /api/v1/nodes/{name}/heartbeat", ownNode);
   ("GET /api/v1/nodes/{name}/cleanup-obligations", ownNode);
   ("GET /api/v1/projects", ownProjectList);
   ("GET /api/v1/projects/{name}", readableProject);
   ("PATCH /api/v1/projects/{name}/status", allowRoute);
   ("PUT /api/v1/projects/{name}/status/spec-applied", allowRoute);
   ("PATCH /api/v1/projects/{name}/conditions/{type}", allowRoute);
   ("DELETE /api/v1/projects/{name}/conditions/{type}", allowRoute);
   ("PUT /api/v1/projects/{name}/recovery/workload-stopped", allowRoute);
   ("PUT /api/v1/projects/{name}/recovery/resources-removed", allowRoute);
   ("PUT /api/v1/projects/{name}/recovery/committed-backup", allowRoute);
   ("PUT /api/v1/projects/{name}/recovery/managed-data-quarantined", allowRoute);
   ("PUT /api/v1/projects/{name}/backup/stanzas", allowRoute);
   ("PUT /api/v1/projects/{name}/backup/completions/{backupID}", allowRoute);
   ("GET /api/v1/secrets/{name}", usedSecret)]%string.

(** ** Path values *)

(** [strings.Split(s, "/")]. *)
Fixpoint split_slash (acc s : string) : list string :=
  match s with
  | EmptyString => [acc]
  | String c rest =>
      if Ascii.ascii_dec c "/"%char then acc :: split_slash EmptyString rest
      else split_slash (acc ++ String c EmptyString) rest
  end.

(** [strings.Trim(s, cutset)]. *)
Fixpoint trim_left (f : Ascii.ascii → bool) (s : string) : string :=
  match s with
  | String c rest => if f c then trim_left f rest else s
  | EmptyString => EmptyString
  end.
Fixpoint trim_right (f : Ascii.ascii → bool) (s : string) : string :=
  match s with
  | EmptyString => EmptyString
  | String c rest =>
      match trim_right f rest with
      | EmptyString => if f c then EmptyString else String c EmptyString
      | rest' => String c rest'
      end
  end.
Definition Trim (f : Ascii.ascii → bool) (s : string) : string := trim_right f (trim_left f s).
Definition is_slash (c : Ascii.ascii) : bool := if Ascii.ascii_dec c "/"%char then true else false.
Definition is_brace (c : Ascii.ascii) : bool :=
  (if Ascii.ascii_dec c "{"%char then true else false) || (if Ascii.ascii_dec c "}"%char then true else false).

(** The part after the first space; the whole pattern when it has none. *)
Fixpoint cut_space (s : string) : option string :=
  match s with
  | EmptyString => None
  | String c rest => if Ascii.ascii_dec c " "%char then Some rest else cut_space rest
  end.

Fixpoint last_char (s : string) : option Ascii.ascii :=
  match s with
  | EmptyString => None
  | String c EmptyString => Some c
  | String _ rest => last_char rest
  end.
Definition is_placeholder (seg : string) : bool :=
  match seg with
  | String c _ => (if Ascii.ascii_dec c "{"%char then true else false) &&
                  bool_decide (last_char seg = Some "}"%char)
  | EmptyString => false
  end.

Fixpoint zip_values (ps rs : list string) (vars : gmap string string) : gmap string string :=
  match ps with
  | [] => vars
  | seg :: ps' =>
      match rs with
      | [] => zip_values ps' [] vars
      | x :: rs' =>
          zip_values ps' rs' (if is_placeholder seg then <[Trim is_brace seg := x]> vars else vars)
      end
  end.

Definition pathValues (pattern path : string) : gmap string string :=
  let pattern := default pattern (cut_space pattern) in
  zip_values (split_slash EmptyString (Trim is_slash pattern))
             (split_slash EmptyString (Trim is_slash path)) ∅.

(** ** The wrapper *)

(** Refused with a status, failed with a 500, or handed to the mux. *)
Inductive verdict :=
| Refused (status : Z)
| Failed
| Serve (r : Request).

Definition rule_of (pattern : string) : option rule :=
  snd <$> find_first (λ kr, bool_decide (kr.1 = pattern)) nodeRoutes.

Definition authorize (r : Request) : prog verdict :=
  match node_caller (rq_Caller r) with
  | None => Ret (Serve r)
  | Some node =>
      if decide (rq_Pattern r = EmptyString) then Ret (Serve r)
      else
        match rule_of (rq_Pattern r) with
        | None => Ret (Refused 403%Z)
        | Some check =>
            check r node (pathValues (rq_Pattern r) (rq_Path r)) ≫= λ res,
            Ret match res with
                | Err _ => Failed
                | Ok (deny, _) => Refused 403%Z
                | Ok (hide, _) => Refused 404%Z
                | Ok (allow, r') => Serve r'
                end
        end
  end.

(** ** Properties *)

Section authz.
Context `{UUIDSource}.

Lemma safe_authorize r : safe others (authorize r).
Proof.
  unfold authorize. destruct (node_caller _) as [node|]; [|apply safe_ret].
  case_decide; [apply safe_ret|]. destruct (rule_of _) as [check|] eqn:Er; [|apply safe_ret].
  apply safe_bind; [|intros a; apply safe_ret].
  unfold rule_of in Er. destruct (find_first _ _) as [kr|] eqn:Ef; [|done].
  injection Er as <-. apply find_first_Some in Ef as [Hin _].
  unfold nodeRoutes in Hin.
  repeat (apply elem_of_cons in Hin as [->|Hin]; [simpl|]); try (by apply elem_of_nil in Hin);
    try apply safe_ret.
  - apply safe_bind; [by apply safe_getProject|]. intros a. apply safe_ret.
  - apply safe_bind; [by apply safe_list|]. intros a. apply safe_ret.
Qed.
End authz.

(** Which rule stands behind a pattern. *)
Definition project_read : string := "GET /api/v1/projects/{name}".
Definition project_list : string := "GET /api/v1/projects".
Definition secret_read : string := "GET /api/v1/secrets/{name}".
Definition own_node_routes : list string :=
  ["POST /api/v1/nodes/{name}/heartbeat"; "GET /api/v1/nodes/{name}/cleanup-obligations"]%string.

(** What [node] has when its request is served, as of some moment of the check. *)
Definition node_entitled (d0 : DB) `{UUIDSource} (node : string) (r r' : Request) : Prop :=
  let name := default EmptyString (pathValues (rq_Pattern r) (rq_Path r) !! "name"%string) in
  rq_Pattern r ∈ nodeRoutes.*1 ∧ rq_Caller r' = rq_Caller r ∧
  (rq_Pattern r ∈ own_node_routes → name = node) ∧
  (rq_Pattern r = project_list → rq_NodeRef r' = node) ∧
  (rq_Pattern r = project_read → ∃ d, others d0 d ∧
     (project_at d name = None ∨
      ∃ p, select_project name d = Some p ∧ NodeMayRead p node = true)) ∧
  (rq_Pattern r = secret_read → ∃ d p, others d0 d ∧ p ∈ select_projects (λ _, true) d ∧
     AssignedTo p node = true ∧ references p name = true).

Lemma routes_cases pat rl :
  (pat, rl) ∈ nodeRoutes →
  (rl = allowRoute ∧ pat ∉ own_node_routes ∧ pat ≠ project_list ∧ pat ≠ project_read ∧ pat ≠ secret_read) ∨
  (rl = ownNode ∧ pat ≠ project_list ∧ pat ≠ project_read ∧ pat ≠ secret_read) ∨
  (rl = ownProjectList ∧ pat = project_list ∧ pat ∉ own_node_routes) ∨
  (rl = readableProject ∧ pat = project_read ∧ pat ∉ own_node_routes) ∨
  (rl = usedSecret ∧ pat = secret_read ∧ pat ∉ own_node_routes).
Proof.
  unfold nodeRoutes. intros Hin.
  repeat (apply elem_of_cons in Hin as [Hin|Hin]; [injection Hin as -> ->|]);
    try (by apply elem_of_nil in Hin).
  all: first
    [ left; split; [reflexivity|]; split_and!; by apply (bool_decide_unpack _); vm_compute
    | right; left; split; [reflexivity|]; split_and!; by apply (bool_decide_unpack _); vm_compute
    | right; right; left; split_and!; [reflexivity..|]; by apply (bool_decide_unpack _); vm_compute
    | right; right; right; left; split_and!; [reflexivity..|]; by apply (bool_decide_unpack _); vm_compute
    | right; right; right; right; split_and!; [reflexivity..|]; by apply (bool_decide_unpack _); vm_compute ].
Qed.

Lemma rule_of_route pat rl : rule_of pat = Some rl → (pat, rl) ∈ nodeRoutes.
Proof.
  unfold rule_of. destruct (find_first _ _) as [[pat' rl']|] eqn:Ef; [|done].
  intros [= <-]. apply find_first_Some in Ef as [Hin Hp]. simpl in Hp. bools. by subst.
Qed.

Lemma wp_rule `{UUIDSource} d0 node r check :
  rule_of (rq_Pattern r) = Some check →
  wp others (λ _ _, True) (check r node (pathValues (rq_Pattern r) (rq_Path r)))
    (λ res _ h, h = [] ∧ ∀ r', res = Ok (allow, r') → node_entitled d0 node r r') d0 [].
Proof.
  intros Hin%rule_of_route. unfold node_entitled.
  set (vars := pathValues (rq_Pattern r) (rq_Path r)).
  assert (rq_Pattern r ∈ nodeRoutes.*1) as Hroute.
  { apply list_elem_of_fmap. by exists (rq_Pattern r, check). }
  destruct (routes_cases _ _ Hin) as
    [(-> & ? & ? & ? & ?)|[(-> & ? & ? & ?)|[(-> & Hpat & ?)|[(-> & Hpat & ?)|(-> & Hpat & ?)]]]].
  - apply wp_ret. split; [done|]. intros r' [= <-]. by split_and!.
  - apply wp_ret. split; [done|]. intros r'. case_decide as Hn; intros [= <-]. by split_and!.
  - apply wp_ret. split; [done|]. intros r' [= <-]. split_and!; try done; intros Hx; rewrite Hpat in Hx; done.
  - apply wp_bind, wp_getProject.
    + intros d Hd Hno. apply wp_ret. split; [done|]. intros r' [= <-].
      split_and!; try done; try (intros Hx; rewrite Hpat in Hx; done). intros _. exists d. split; [done|]. by left.
    + intros d row Hd Hrow. apply wp_ret. split; [done|]. intros r'.
      destruct (NodeMayRead _ node) eqn:Em; simpl; intros [= <-].
      split_and!; try done; try (intros Hx; rewrite Hpat in Hx; done). intros _. exists d. split; [done|]. right.
      eexists. split; [|exact Em]. unfold select_project. by rewrite Hrow.
    + intros d e Hd He. apply wp_ret. split; [done|]. rewrite fault_is_not by done. done.
  - apply wp_bind. unfold ListProjects, list_projects. apply wp_bind, wp_query.
    + intros d Hd. apply wp_ret, wp_ret. split; [done|]. intros r'.
      destruct (existsb _ _) eqn:Ee; simpl; intros [= <-].
      apply existsb_exists in Ee as (p & Hp%list_elem_of_In & [Ha Hrf]%andb_true_iff).
      split_and!; try done; try (intros Hx; rewrite Hpat in Hx; done). intros _. exists d, p. by split_and!.
    + intros d e Hd He. apply wp_ret, wp_ret. by split.
Qed.

(** (authz.go, Wrap and its rules): a Node reaches only what is its own. When
    the wrapper serves the request of a Node on a registered route, whatever the
    others do meanwhile, the route is on the allow-list; a heartbeat or a cleanup
    poll is for that Node itself; a list is filtered to that Node; a Project it
    reads did not exist or was, at a moment of the check, assigned to it or owed by
    it; a Secret it reads was referenced by a Project assigned to it. The check
    writes nothing. Callers that are not Nodes are not restricted here. *)
Theorem node_requests_confined `{UUIDSource} (r : Request) (ms : list move) (d0 : DB)
    (Hms : schedule_ok ms) :
  let x := run (authorize r) ms d0 [] in
  history_of x = [] ∧
  match node_caller (rq_Caller r) with
  | None => result_of x = Serve r
  | Some node => rq_Pattern r ≠ EmptyString → ∀ r', result_of x = Serve r' → node_entitled d0 node r r'
  end.
Proof.
  intros x. subst x. run_wp (authorize r) ms d0. unfold authorize.
  destruct (node_caller _) as [node|]; [|by apply wp_ret].
  case_decide as Hp; [by apply wp_ret|].
  destruct (rule_of _) as [check|] eqn:Er; [|by apply wp_ret].
  apply wp_bind. eapply wp_mono; [|by apply (wp_rule d0 node)].
  intros res d h [-> Hallow]. apply wp_ret. split; [done|]. intros _ r'.
  destruct res as [[[] r1]|e]; try done. intros [= <-]. by apply Hallow.
Qed.

Lemma node_requests_confined_witness :
  let r := {| rq_Caller := Some {| pr_Kind := "node"; pr_Name := "a" |};
              rq_Pattern := "GET /api/v1/projects/{name}"; rq_Path := "/api/v1/projects/shop";
              rq_NodeRef := EmptyString |} in
  result_of (run (authorize r) [] (example_db (running_status "a") 3) []) = Serve r ∧
  result_of (run (authorize r) [] (example_db (running_status "b") 3) []) = Refused 404%Z ∧
  history_of (run (authorize r) [] (example_db (running_status "a") 3) []) = [].
Proof.
  intros r. split; [vm_compute; reflexivity|]. split; [vm_compute; reflexivity|].
  exact (proj1 (@node_requests_confined counter_uuids r [] (example_db (running_status "a") 3)
    ltac:(by constructor))).
Defined.
