(* ===== verification/Authentication.v ===== *)
(** The way in (internal/server/auth/auth.go and Handler of
    internal/server/apiserver/server.go): a bearer token is turned into the
    principal it identifies, and only then is the request authorized. *)
From Stdlib Require Import ZArith Lia.
From stdpp Require Import prelude gmap strings.
From S2P Require Import Prelude.
From S2P Require Import ProjectTypes.
From S2P Require Import Strconv.
From S2P Require Import Digest.
From S2P Require Import AccessTypes.
From S2P Require Import Database.
From S2P Require Import Evolution.
From S2P Require Import StatusStore.
From S2P Require Import Legality.
From S2P Require Import AccessStore.
From S2P Require Import Authz.
Import GoTime GoInt GoString GoError.
Open Scope nat_scope.
Open Scope go_scope.

(** ** Authenticate *)

Definition BreakGlassName : string := "break-glass".
Definition break_glass : Principal := {| pr_Kind := APITokenKindUser; pr_Name := BreakGlassName |}.

(** The hash of the break-glass token, when one is configured. *)
Definition NewAuthenticator (breakGlassToken : string) : option (list Z) :=
  if decide (breakGlassToken ≠ EmptyString) then Some (Sum256 (string_bytes breakGlassToken)) else None.

Definition is_break_glass (breakGlassHash : option (list Z)) (token : string) : bool :=
  match breakGlassHash with
  | Some h => bool_decide (Sum256 (string_bytes token) = h)
  | None => false
  end.

Definition Authenticate (breakGlassHash : option (list Z)) (token : string) : prog (result Principal) :=
  if decide (token = EmptyString) then Ret (Err (Sentinel ErrUnauthenticated))
  else if is_break_glass breakGlassHash token then Ret (Ok break_glass)
  else
    LookupAPIToken (HashToken token) ≫= λ res,
    Ret match res with
        | Ok t => Ok {| pr_Kind := at_Kind t; pr_Name := at_Name t |}
        | Err e => if Is e ErrNotFound then Err (Sentinel ErrUnauthenticated) else Err e
        end.

(** ** Middleware *)

Record HTTPRequest := {
  hr_Method : string;
  hr_Path : string;
  hr_Authorization : string;
  hr_Pattern : string;
  hr_NodeRef : string
}.

Definition publicPaths (path : string) : bool := bool_decide (path = "/api/healthz"%string).

Definition isNodeJoin (r : HTTPRequest) : bool :=
  if decide (hr_Method r ≠ "POST"%string) then false
  else match CutPrefix "/api/v1/nodes/" (hr_Path r) with
       | None => false
       | Some rest =>
           match CutSuffix rest "/join" with
           | None => false
           | Some name => bool_decide (name ≠ EmptyString) &&
                          all_bytes (λ c, negb (is_slash c)) name
           end
       end.

(** The token of a request; the empty one when there is none. *)
Definition bearer (authorization : string) : string :=
  TrimSpace (default EmptyString (CutPrefix "Bearer " authorization)).

(** Refused with a status, or passed on with the principal attached. *)
Inductive admission :=
| Turned (status : Z)
| Pass (c : Caller).

Definition Middleware (breakGlassHash : option (list Z)) (r : HTTPRequest) : prog admission :=
  if publicPaths (hr_Path r) || isNodeJoin r then Ret (Pass None)
  else
    Authenticate breakGlassHash (bearer (hr_Authorization r)) ≫= λ res,
    Ret match res with
        | Ok p => Pass (Some p)
        | Err e => if Is e ErrUnauthenticated then Turned 401 else Turned 500
        end.

(** Handler: the authorizer inside the authentication. *)
Definition Handler (breakGlassHash : option (list Z)) (r : HTTPRequest) : prog verdict :=
  Middleware breakGlassHash r ≫= λ a,
  match a with
  | Turned status => Ret (Refused status)
  | Pass c => authorize {| rq_Caller := c; rq_Pattern := hr_Pattern r; rq_Path := hr_Path r;
                           rq_NodeRef := hr_NodeRef r |}
  end.

(** ** Properties *)

Section authentication.
Context `{UUIDSource}.

Lemma safe_LookupAPIToken hash : safe others (LookupAPIToken hash).
Proof. apply safe_bind; [by apply safe_query_access|]. intros a. apply safe_ret. Qed.

Lemma safe_Middleware bg r : safe others (Middleware bg r).
Proof.
  unfold Middleware. destruct (_ || _); [apply safe_ret|]. apply safe_bind; [|intros; apply safe_ret].
  unfold Authenticate. case_decide; [apply safe_ret|]. destruct (is_break_glass _ _); [apply safe_ret|].
  apply safe_bind; [apply safe_LookupAPIToken|]. intros a. apply safe_ret.
Qed.

Lemma safe_Handler bg r : safe others (Handler bg r).
Proof.
  apply safe_bind; [apply safe_Middleware|]. intros [s|c]; [apply safe_ret|apply safe_authorize].
Qed.
End authentication.

(** The principal [p] is what the token of hash [hash] identifies in [d]. *)
Definition identifies (d : DB) (hash : string) (p : Principal) : Prop :=
  ∃ i r, ac_Tokens (db_Access d) !! i = Some r ∧ tr_Hash r = hash ∧
    at_RevokedAt (tr_Token r) = None ∧ pr_Kind p = at_Kind (tr_Token r) ∧ pr_Name p = at_Name (tr_Token r).

Lemma wp_LookupAPIToken (Rel G : DB → DB → Prop) hash (Q : result APIToken → DB → list Event → Prop) d0 h :
  (∀ d t, Rel d0 d → identifies d hash {| pr_Kind := at_Kind t; pr_Name := at_Name t |} → Q (Ok t) d h) →
  (∀ d e, Rel d0 d → Is e ErrNotFound = true → (∀ p, ¬ identifies d hash p) → Q (Err e) d h) →
  (∀ d e, Rel d0 d → is_fault e = true → Q (Err e) d h) →
  wp Rel G (LookupAPIToken hash) Q d0 h.
Proof.
  intros Hok Hno Hf. apply wp_bind, wp_query.
  - intros d Hd. destruct (select_hash _ _ _ _) as [r|] eqn:Es; simpl; apply wp_ret.
    + apply select_hash_Some in Es as (i & Hr & Hh & Hl). apply Hok; [done|].
      unfold live in Hl. bools. exists i, r. by split_and!.
    + apply Hno; [done|done|]. intros p (i & r & Hr & Hh & Hl & _). rewrite select_hash_None in Es.
      specialize (Es i r Hr Hh). unfold live in Es. by bools.
  - intros d e Hd He. apply wp_ret. by apply Hf.
Qed.

(** Who the caller of a served request is, and what was checked of it. *)
Definition identified (bg : option (list Z)) (r : HTTPRequest) (d0 : DB) `{UUIDSource} (c : Caller) : Prop :=
  let token := bearer (hr_Authorization r) in
  match c with
  | None => publicPaths (hr_Path r) = true ∨ isNodeJoin r = true
  | Some p => token ≠ EmptyString ∧
      ((p = break_glass ∧ is_break_glass bg token = true) ∨
       ∃ d, others d0 d ∧ identifies d (HashToken token) p)
  end.

Definition turned_away (bg : option (list Z)) (r : HTTPRequest) (d0 : DB) `{UUIDSource} (s : Z) : Prop :=
  let token := bearer (hr_Authorization r) in
  publicPaths (hr_Path r) = false ∧ isNodeJoin r = false ∧
  (s = 500 ∨ (s = 401 ∧ (token = EmptyString ∨
     (is_break_glass bg token = false ∧ ∃ d, others d0 d ∧ ∀ p, ¬ identifies d (HashToken token) p))))%Z.

Lemma wp_Middleware `{UUIDSource} bg r d0 :
  wp others (λ _ _, True) (Middleware bg r)
    (λ a d h, others d0 d ∧ h = [] ∧
       match a with
       | Pass c => identified bg r d0 c
       | Turned s => turned_away bg r d0 s
       end) d0 [].
Proof.
  unfold Middleware, turned_away. destruct (_ || _) eqn:Ep.
  - apply wp_ret. split_and!; [done|done|]. by apply orb_true_iff in Ep.
  - apply orb_false_iff in Ep as [Hp Hj]. apply wp_bind. unfold Authenticate.
    case_decide as Ht; [apply wp_ret, wp_ret; simpl; split_and!; try done; auto|].
    destruct (is_break_glass _ _) eqn:Eb.
    + apply wp_ret, wp_ret. split_and!; [done|done|]. split; [done|]. by left.
    + apply wp_bind, wp_LookupAPIToken; intros d x Hd; [intros Hi|intros Hx Hno|intros Hx]; apply wp_ret, wp_ret.
      * split_and!; [done|done|]. split; [done|]. right. eauto.
      * rewrite Hx. simpl. split_and!; try done. right. eauto 10.
      * rewrite (fault_is_not x ErrNotFound), (fault_is_not x ErrUnauthenticated) by done.
        simpl. split_and!; try done; auto.
Qed.

Lemma wp_authorize `{UUIDSource} d0 r :
  wp others (λ _ _, True) (authorize r)
    (λ v _ h, h = [] ∧
       match v with
       | Serve r' => rq_Caller r' = rq_Caller r ∧ ∀ node, node_caller (rq_Caller r) = Some node →
           rq_Pattern r ≠ EmptyString → node_entitled d0 node r r'
       | Refused s => s = 403%Z ∨ s = 404%Z
       | Failed => True
       end) d0 [].
Proof.
  unfold authorize. destruct (node_caller _) as [node|]; [|by apply wp_ret].
  case_decide as Hp; [by apply wp_ret|].
  destruct (rule_of _) as [check|] eqn:Er; [|apply wp_ret; auto].
  apply wp_bind. eapply wp_mono; [|by apply (wp_rule d0 node)].
  intros res d h [-> Hallow]. apply wp_ret. split; [done|].
  destruct res as [[[] r1]|e]; auto. specialize (Hallow r1 eq_refl).
  split; [apply Hallow|by intros ? [= <-]].
Qed.


(** Node "a" holds the token "cara_a". *)
Definition token_db : DB :=
  let t := {| at_ID := 1; at_Kind := "node"; at_Name := "a"; at_CreatedBy := "user:ops";
              at_CreatedAt := 0; at_RevokedAt := None |}%Z in
  db_with_Access (ac_with_Tokens 2 {[ 1%Z := {| tr_Token := t; tr_Hash := HashToken "cara_a" |} ]} no_access)
    empty_db.
Definition heartbeat_request (token : string) : HTTPRequest :=
  {| hr_Method := "POST"; hr_Path := "/api/v1/nodes/a/heartbeat"; hr_Authorization := "Bearer " ++ token;
     hr_Pattern := "POST /api/v1/nodes/{name}/heartbeat"; hr_NodeRef := EmptyString |}.

