(* ===== verification/SpecValidation.v ===== *)
(** What a spec must be before it is stored (validateProjectSpecFor of
    internal/server/handler/project/handler.go). Each loop with an early return
    is the search for the first problem. *)
From Stdlib Require Import ZArith Lia Ascii.
From stdpp Require Import prelude gmap strings.
From S2P Require Import Prelude.
From S2P Require Import ProjectTypes.
From S2P Require Import Duration.
From S2P Require Import Database.
From S2P Require Import Authz.
Import GoTime GoInt GoString GoError.

Set Default Proof Using "Type".

(** [if cond { return NewValidationError(field, _, message) }; rest]. *)
Definition check (ok : bool) (field message : string) (rest : option problem) : option problem :=
  if ok then rest else Some (ValidationError field message).

(** [for _, x := range xs { if err := f(x); err != nil { return err } }; rest]. *)
Fixpoint for_each {A} (xs : list A) (f : A → option problem) (rest : option problem)
    : option problem :=
  match xs with
  | [] => rest
  | x :: xs' => match f x with Some p => Some p | None => for_each xs' f rest end
  end.

Definition nonempty (s : string) : bool := negb (bool_decide (s = EmptyString)).

(** ** Environment variables *)

Definition validateEnvVar (svcName : string) (env : EnvVar) : option problem :=
  check (nonempty (ev_Name env)) "spec.services[].env[].name"
    ("service " ++ svcName ++ ": each env var must have a non-empty name")%string
  match ev_ValueFrom env with
  | None => None
  | Some from =>
      check (negb (nonempty (ev_Value env))) "spec.services[].env[]"
        ("service " ++ svcName ++ ", env " ++ ev_Name env
         ++ ": value and valueFrom are mutually exclusive")%string
      match evs_SecretKeyRef from with
      | None =>
          Some (ValidationError "spec.services[].env[].valueFrom"
            ("service " ++ svcName ++ ", env " ++ ev_Name env
             ++ ": valueFrom requires secretKeyRef")%string)
      | Some ref =>
          check (nonempty (sks_Name ref) && nonempty (sks_Key ref))
            "spec.services[].env[].valueFrom.secretKeyRef"
            ("service " ++ svcName ++ ", env " ++ ev_Name env
             ++ ": secretKeyRef.name and secretKeyRef.key must both be non-empty")%string None
      end
  end.

(** ** The arguments of initdb *)

(** [strings.Cut(s, "=")]: before and after the first equals sign. *)
Fixpoint cut_equals (s : string) : option (string * string) :=
  match s with
  | EmptyString => None
  | String c s' =>
      if Nat.eqb (nat_of_ascii c) 61 then Some (EmptyString, s')
      else match cut_equals s' with
           | Some (name, value) => Some (String c name, value)
           | None => None
           end
  end.

Definition initdbSettings : list string :=
  ["--encoding"; "--locale"; "--lc-collate"; "--lc-ctype"; "--lc-messages"; "--lc-monetary";
   "--lc-numeric"; "--lc-time"; "--locale-provider"; "--icu-locale"; "--auth"; "--auth-host";
   "--auth-local"; "--wal-segsize"].

(** A byte of [A-Za-z0-9_.@-]. *)
Definition initdb_byte (c : ascii) : bool :=
  let n := nat_of_ascii c in
  (Nat.leb 65 n && Nat.leb n 90) || (Nat.leb 97 n && Nat.leb n 122) || (Nat.leb 48 n && Nat.leb n 57)
  || Nat.eqb n 95 || Nat.eqb n 46 || Nat.eqb n 64 || Nat.eqb n 45.

Definition initdbValue (s : string) : bool := nonempty s && all_bytes initdb_byte s.

Definition allowedInitdbArg (arg : string) : bool :=
  if bool_decide (arg = "-k"%string) || bool_decide (arg = "--data-checksums"%string) then true
  else match cut_equals arg with
       | Some (name, value) => bool_decide (name ∈ initdbSettings) && initdbValue value
       | None => false
       end.

(** The bytes of the white space rune [s] starts with, as unicode.IsSpace knows
    them, in UTF-8. No lead byte of these occurs inside another rune, so they can
    be looked for byte by byte. *)
Definition space_prefix (s : string) : option nat :=
  match s with
  | String c1 s1 =>
      let n1 := nat_of_ascii c1 in
      if (Nat.leb 9 n1 && Nat.leb n1 13) || Nat.eqb n1 32 then Some 1%nat
      else
        match s1 with
        | String c2 s2 =>
            let n2 := nat_of_ascii c2 in
            if Nat.eqb n1 194 && (Nat.eqb n2 133 || Nat.eqb n2 160) then Some 2%nat
            else
              match s2 with
              | String c3 _ =>
                  let n3 := nat_of_ascii c3 in
                  if (Nat.eqb n1 225 && Nat.eqb n2 154 && Nat.eqb n3 128)
                     || (Nat.eqb n1 226 && Nat.eqb n2 128 &&
                         ((Nat.leb 128 n3 && Nat.leb n3 138) || Nat.eqb n3 168 || Nat.eqb n3 169
                          || Nat.eqb n3 175))
                     || (Nat.eqb n1 226 && Nat.eqb n2 129 && Nat.eqb n3 159)
                     || (Nat.eqb n1 227 && Nat.eqb n2 128 && Nat.eqb n3 128)
                  then Some 3%nat else None
              | EmptyString => None
              end
        | EmptyString => None
        end
  | EmptyString => None
  end.

(** The end of the field read so far, which is none if it is empty. *)
Definition close_field (acc : string) (fields : list string) : list string :=
  if decide (acc = EmptyString) then fields else acc :: fields.

(** [strings.Fields]; [skip] bytes belong to the white space just found. *)
Fixpoint fields_from (skip : nat) (acc s : string) : list string :=
  match s with
  | EmptyString => close_field acc []
  | String c s' =>
      match skip with
      | S k => fields_from k acc s'
      | O =>
          match space_prefix s with
          | Some n => close_field acc (fields_from (pred n) EmptyString s')
          | None => fields_from 0 (acc ++ String c EmptyString)%string s'
          end
      end
  end.
Definition Fields (s : string) : list string := fields_from 0 EmptyString s.

(** ** PostgresDifferential volumes *)

Definition PGDATA : string := "PGDATA".
Definition POSTGRES_INITDB_WALDIR : string := "POSTGRES_INITDB_WALDIR".
Definition POSTGRES_INITDB_ARGS : string := "POSTGRES_INITDB_ARGS".

(** "service s uses PostgresDifferential volume v, so ..." *)
Definition uses (svc : ServiceDef) (volume rest : string) : string :=
  ("service " ++ svc_Name svc ++ " uses PostgresDifferential volume " ++ volume ++ ", so " ++ rest)%string.

Definition check_pg_env (svc : ServiceDef) (volume : string) (env : EnvVar) : option problem :=
  if negb (slices_Contains [PGDATA; POSTGRES_INITDB_WALDIR; POSTGRES_INITDB_ARGS] (ev_Name env)) then None
  else
    check (match ev_ValueFrom env with None => true | Some _ => false end)
      "spec.services[].env[].valueFrom"
      (uses svc volume (ev_Name env ++ " must be a literal value that can be checked when the Project is applied"))
    (if decide (ev_Name env = PGDATA) then
       check (bool_decide (ev_Value env = PostgresDifferentialDataPath)) "spec.services[].env[].value"
         (uses svc volume ("PGDATA must be " ++ Quote PostgresDifferentialDataPath ++ " or unset")) None
     else if decide (ev_Name env = POSTGRES_INITDB_WALDIR) then
       Some (ValidationError "spec.services[].env[].name"
         (uses svc volume "the WAL directory cannot be moved out of it"))
     else
       for_each (Fields (ev_Value env)) (λ arg,
         check (allowedInitdbArg arg) "spec.services[].env[].value"
           (uses svc volume ("POSTGRES_INITDB_ARGS may only contain "
              ++ "-k, --data-checksums or --NAME=VALUE for a supported setting, written out in full ("
              ++ Quote arg ++ " is not)")) None) None).

Definition validatePostgresDifferentialEnv (svc : ServiceDef) (volume : string) : option problem :=
  for_each (svc_Env svc) (check_pg_env svc volume) None.

(** The mounts of a volume, in the order the nested loops meet them. *)
Definition mounts_of (spec : ProjectSpec) (volume : string) : list (ServiceDef * VolumeMount) :=
  svc ← sp_Services spec;
  vm ← svc_VolumeMounts svc;
  if decide (vm_Name vm = volume) then [(svc, vm)] else [].

Definition check_pg_mount (postgresImage volume : string) (m : ServiceDef * VolumeMount)
    : option problem :=
  let '(svc, vm) := m in
  let so := ("service " ++ svc_Name svc ++ " mounts PostgresDifferential volume " ++ volume)%string in
  check (bool_decide (svc_Image svc = postgresImage)) "spec.services[].image"
    (so ++ ", so its image must be " ++ Quote postgresImage)
  (check (bool_decide (vm_MountPath vm = PostgresDifferentialDataPath))
     "spec.services[].volumeMounts[].mountPath"
     (so ++ ", so it must be mounted at " ++ Quote PostgresDifferentialDataPath)
   (validatePostgresDifferentialEnv svc volume)).

Definition validatePostgresDifferentialMount (spec : ProjectSpec) (volume postgresImage : string)
    : option problem :=
  let mounts := mounts_of spec volume in
  for_each mounts (check_pg_mount postgresImage volume)
  match mounts with
  | [_] => None
  | [] => Some (ValidationError "spec.backup.items[].volume"
            ("PostgresDifferential volume " ++ volume ++ " is not mounted by any service")%string)
  | _ => Some (ValidationError "spec.backup.items[].volume"
           ("PostgresDifferential volume " ++ volume ++ " must be mounted by exactly one service, found "
            ++ FormatInt (Z.of_nat (length mounts)) ++ " ("
            ++ Join ((λ m, svc_Name m.1) <$> mounts) ", " ++ ")")%string)
  end.

(** ** Backup items *)

Definition check_strategy (spec : ProjectSpec) (postgresImage : string) (item : BackupItem)
    : option problem :=
  let v := bi_Volume item in
  if decide (bi_Strategy item = BackupStrategyOffline) then
    check (match bi_RetainFull item with None => true | Some _ => false end)
      "spec.backup.items[].retainFull"
      ("backup item " ++ v ++ ": retainFull applies only to strategy "
       ++ Quote BackupStrategyPostgresDifferential)%string None
  else if decide (bi_Strategy item = BackupStrategyPostgresDifferential) then
    check (bool_decide (MinRetainFull ≤ EffectiveRetainFull item ≤ MaxRetainFull)%Z)
      "spec.backup.items[].retainFull"
      ("backup item " ++ v ++ ": retainFull must be between " ++ FormatInt MinRetainFull ++ " and "
       ++ FormatInt MaxRetainFull)%string
      (validatePostgresDifferentialMount spec v postgresImage)
  else Some (ValidationError "spec.backup.items[].strategy"
         ("backup item " ++ v ++ ": strategy must be " ++ Quote BackupStrategyOffline ++ " or "
          ++ Quote BackupStrategyPostgresDifferential)%string).

Definition items_field : string := "spec.backup.items[].volume".

Fixpoint check_items_from (spec : ProjectSpec) (volumeNames managedVolumes seen : list string)
    (postgresImage : string) (items : list BackupItem) (rest : option problem) : option problem :=
  match items with
  | [] => rest
  | item :: items' =>
      let v := bi_Volume item in
      check (nonempty v) items_field "each backup item must name a volume"
      (check (bool_decide (v ∈ volumeNames)) items_field
         ("backup item references undeclared volume " ++ v)%string
       (check (bool_decide (v ∈ managedVolumes)) items_field
          ("backup item " ++ v ++ ": only a Managed volume can have a backup strategy")%string
        (check (bool_decide (v ∉ seen)) items_field ("duplicate backup item for volume " ++ v)%string
           match check_strategy spec postgresImage item with
           | Some p => Some p
           | None => check_items_from spec volumeNames managedVolumes (v :: seen) postgresImage items' rest
           end)))
  end.

Definition validateBackupItems (spec : ProjectSpec) (items : list BackupItem)
    (volumeNames managedVolumes : list string) (postgresImage : string) : option problem :=
  check_items_from spec volumeNames managedVolumes [] postgresImage items
  (if HasPostgresDifferential spec then
     for_each (sp_Volumes spec) (λ vol,
       check (negb (bool_decide (vol_Type vol = VolumeTypeManaged) &&
                    negb (bool_decide (BackupStrategyFor spec (vol_Name vol) = BackupStrategyPostgresDifferential))))
         "spec.backup.items"
         ("Managed volume " ++ vol_Name vol ++ " would be backed up offline, but a Project using "
          ++ Quote BackupStrategyPostgresDifferential
          ++ " cannot mix strategies yet; give every Managed volume strategy "
          ++ Quote BackupStrategyPostgresDifferential)%string None) None
   else None).

(** ** The spec *)

Definition check_service (svc : ServiceDef) : option problem :=
  check (nonempty (svc_Name svc)) "spec.services[].name" "each service must have a non-empty name"
  (check (nonempty (svc_Image svc)) "spec.services[].image"
     ("service " ++ svc_Name svc ++ ": image is required")%string
   (for_each (svc_Env svc) (validateEnvVar (svc_Name svc)) None)).

Fixpoint check_volumes_from (seen : list string) (vols : list VolumeDef) (rest : option problem)
    : option problem :=
  match vols with
  | [] => rest
  | vol :: vols' =>
      check (nonempty (vol_Name vol)) "spec.volumes[].name" "each volume must have a non-empty name"
      (check (bool_decide (vol_Name vol ∉ seen)) "spec.volumes[].name"
         ("duplicate volume name: " ++ vol_Name vol)%string
       (check (slices_Contains [VolumeTypeManaged; VolumeTypeEphemeral] (vol_Type vol))
          "spec.volumes[].type"
          ("volume " ++ vol_Name vol ++ ": type must be " ++ Quote VolumeTypeManaged ++ " or "
           ++ Quote VolumeTypeEphemeral)%string
          (check_volumes_from (vol_Name vol :: seen) vols' rest)))
  end.

Definition volume_names (spec : ProjectSpec) : list string := vol_Name <$> sp_Volumes spec.
Definition managed_volumes (spec : ProjectSpec) : list string :=
  vol_Name <$> filter (λ v, vol_Type v = VolumeTypeManaged) (sp_Volumes spec).

Definition check_backup (spec : ProjectSpec) (postgresImage : string) : option problem :=
  match sp_Backup spec with
  | None => None
  | Some b =>
      check (negb (bool_decide (managed_volumes spec = []))) "spec.backup"
        ("spec.backup requires at least one volume with type " ++ Quote VolumeTypeManaged)%string
      (check (match ParseDuration (bc_Interval b) with Some d => bool_decide (0 < d)%Z | None => false end)
         "spec.backup.interval"
         ("spec.backup.interval must be a positive duration such as " ++ Quote "168h" ++ " or " ++ Quote "1h")%string
       (check (slices_Contains [EmptyString; VolumeOnMissingInitializeEmpty] (bc_OnMissing b))
          "spec.backup.onMissing"
          ("spec.backup.onMissing must be " ++ Quote VolumeOnMissingInitializeEmpty)%string
          (validateBackupItems spec (bc_Items b) (volume_names spec) (managed_volumes spec) postgresImage)))
  end.

Definition check_mount (names : list string) (svc : ServiceDef) (vm : VolumeMount) : option problem :=
  check (bool_decide (vm_Name vm ∈ names)) "spec.services[].volumeMounts[].name"
    ("service " ++ svc_Name svc ++ ": volumeMount references undeclared volume " ++ vm_Name vm)%string
  (check (nonempty (vm_MountPath vm)) "spec.services[].volumeMounts[].mountPath"
     ("service " ++ svc_Name svc ++ ": volumeMount " ++ vm_Name vm ++ " must have a non-empty mountPath")%string
     None).

Fixpoint check_ingress_from (serviceNames seen : list string) (ings : list IngressDef) : option problem :=
  match ings with
  | [] => None
  | ing :: ings' =>
      let n := ing_Name ing in
      check (nonempty n) "spec.ingress[].name" "each ingress entry must have a non-empty name"
      (check (bool_decide (n ∉ seen)) "spec.ingress[].name" ("duplicate ingress name: " ++ n)%string
       (check (bool_decide (it_Service (ing_Target ing) ∈ serviceNames)) "spec.ingress[].target.service"
          ("ingress " ++ n ++ ": target service " ++ it_Service (ing_Target ing)
           ++ " does not exist in spec.services")%string
        (check (bool_decide (0 < it_Port (ing_Target ing))%Z) "spec.ingress[].target.port"
           ("ingress " ++ n ++ ": target port must be greater than 0")%string
         (check (slices_Contains [EmptyString; IngressScopeInternal] (ia_Scope (ing_Access ing)))
            "spec.ingress[].access.scope"
            ("ingress " ++ n ++ ": only " ++ Quote IngressScopeInternal ++ " scope is supported")%string
            (check_ingress_from serviceNames (n :: seen) ings')))))
  end.

Definition validateProjectSpecFor (spec : ProjectSpec) (postgresImage : string) : option problem :=
  check (negb (bool_decide (sp_Services spec = []))) "spec.services"
    "spec.services must contain at least one service"
  (check (negb (nonempty (sp_Size spec)) || ProjectSize_IsValid (sp_Size spec)) "spec.size"
     ("spec.size must be one of " ++ Quote "Small" ++ ", " ++ Quote "Medium" ++ ", " ++ Quote "Large")%string
   (for_each (sp_Services spec) check_service
    (check_volumes_from [] (sp_Volumes spec)
      match check_backup spec postgresImage with
      | Some p => Some p
      | None =>
          for_each (sp_Services spec) (λ svc,
            for_each (svc_VolumeMounts svc) (check_mount (volume_names spec) svc) None)
          (check_ingress_from (svc_Name <$> sp_Services spec) [] (sp_Ingress spec))
      end))).

Definition validateProjectSpec (spec : ProjectSpec) : option problem :=
  validateProjectSpecFor spec PostgresDifferentialImage.

(** ** What a valid spec is *)

Definition valid_env (env : EnvVar) : Prop :=
  ev_Name env ≠ EmptyString ∧
  ∀ from, ev_ValueFrom env = Some from → ev_Value env = EmptyString ∧
    ∃ ref, evs_SecretKeyRef from = Some ref ∧ sks_Name ref ≠ EmptyString ∧ sks_Key ref ≠ EmptyString.

Definition valid_service (names : list string) (svc : ServiceDef) : Prop :=
  svc_Name svc ≠ EmptyString ∧ svc_Image svc ≠ EmptyString ∧
  (∀ env, env ∈ svc_Env svc → valid_env env) ∧
  (∀ vm, vm ∈ svc_VolumeMounts svc → vm_Name vm ∈ names ∧ vm_MountPath vm ≠ EmptyString).

Definition valid_volumes (vols : list VolumeDef) : Prop :=
  NoDup (vol_Name <$> vols) ∧
  ∀ v, v ∈ vols → vol_Name v ≠ EmptyString ∧ (vol_Type v = VolumeTypeManaged ∨ vol_Type v = VolumeTypeEphemeral).

(** No variable moves PostgreSQL's data or WAL out of the volume. *)
Definition contained_env (env : EnvVar) : Prop :=
  (ev_Name env = PGDATA → ev_ValueFrom env = None ∧ ev_Value env = PostgresDifferentialDataPath) ∧
  ev_Name env ≠ POSTGRES_INITDB_WALDIR ∧
  (ev_Name env = POSTGRES_INITDB_ARGS → ev_ValueFrom env = None ∧
     ∀ arg, arg ∈ Fields (ev_Value env) → allowedInitdbArg arg = true).

(** The volume is the PGDATA of exactly one service on the image. *)
Definition valid_pg_mount (spec : ProjectSpec) (postgresImage volume : string) : Prop :=
  ∃ svc vm, mounts_of spec volume = [(svc, vm)] ∧ svc_Image svc = postgresImage ∧
    vm_MountPath vm = PostgresDifferentialDataPath ∧ ∀ env, env ∈ svc_Env svc → contained_env env.

Definition valid_item (spec : ProjectSpec) (postgresImage : string) (item : BackupItem) : Prop :=
  bi_Volume item ≠ EmptyString ∧ bi_Volume item ∈ managed_volumes spec ∧
  ((bi_Strategy item = BackupStrategyOffline ∧ bi_RetainFull item = None) ∨
   (bi_Strategy item = BackupStrategyPostgresDifferential ∧
    (MinRetainFull ≤ EffectiveRetainFull item ≤ MaxRetainFull)%Z ∧
    valid_pg_mount spec postgresImage (bi_Volume item))).

Definition valid_backup (spec : ProjectSpec) (postgresImage : string) (b : ProjectBackupConfig) : Prop :=
  managed_volumes spec ≠ [] ∧
  (∃ d, ParseDuration (bc_Interval b) = Some d ∧ (0 < d)%Z) ∧
  (bc_OnMissing b = EmptyString ∨ bc_OnMissing b = VolumeOnMissingInitializeEmpty) ∧
  NoDup (bi_Volume <$> bc_Items b) ∧
  (∀ item, item ∈ bc_Items b → valid_item spec postgresImage item) ∧
  (HasPostgresDifferential spec = true → ∀ v, v ∈ sp_Volumes spec → vol_Type v = VolumeTypeManaged →
     BackupStrategyFor spec (vol_Name v) = BackupStrategyPostgresDifferential).

Definition valid_ingress (serviceNames : list string) (ings : list IngressDef) : Prop :=
  NoDup (ing_Name <$> ings) ∧
  ∀ ing, ing ∈ ings → ing_Name ing ≠ EmptyString ∧ it_Service (ing_Target ing) ∈ serviceNames ∧
    (0 < it_Port (ing_Target ing))%Z ∧
    (ia_Scope (ing_Access ing) = EmptyString ∨ ia_Scope (ing_Access ing) = IngressScopeInternal).

Definition valid_spec (spec : ProjectSpec) (postgresImage : string) : Prop :=
  sp_Services spec ≠ [] ∧
  (sp_Size spec = EmptyString ∨ ProjectSize_IsValid (sp_Size spec) = true) ∧
  (∀ svc, svc ∈ sp_Services spec → valid_service (volume_names spec) svc) ∧
  valid_volumes (sp_Volumes spec) ∧
  (∀ b, sp_Backup spec = Some b → valid_backup spec postgresImage b) ∧
  valid_ingress (svc_Name <$> sp_Services spec) (sp_Ingress spec).

(** ** Lemmas *)

Lemma check_None ok f m rest : check ok f m rest = None ↔ ok = true ∧ rest = None.
Proof. unfold check. destruct ok; naive_solver. Qed.

Lemma for_each_None {A} (xs : list A) f rest :
  for_each xs f rest = None ↔ (∀ x, x ∈ xs → f x = None) ∧ rest = None.
Proof.
  induction xs as [|x xs IH]; simpl.
  - split; [|tauto]. intros Hr. split; [by intros ? []%elem_of_nil|done].
  - destruct (f x) eqn:E.
    + split; [done|]. intros [Hx _]. rewrite (Hx x) in E; [done|by left].
    + rewrite IH. split; intros [H1 H2]; (split; [|done]); intros y Hy.
      * apply elem_of_cons in Hy as [->|Hy]; auto.
      * apply H1. by right.
Qed.

Lemma nonempty_true s : nonempty s = true ↔ s ≠ EmptyString.
Proof. unfold nonempty. by bools. Qed.
Lemma nonempty_false s : nonempty s = false ↔ s = EmptyString.
Proof. unfold nonempty. bools. split; [apply dec_stable|]; auto. Qed.

(** The normal form of "this check finds nothing". *)
Ltac checks :=
  repeat first
    [ rewrite check_None | rewrite for_each_None | rewrite slices_Contains_true
    | rewrite nonempty_true | rewrite bool_decide_eq_true | rewrite andb_true_iff
    | rewrite orb_true_iff | rewrite negb_true_iff | rewrite nonempty_false
    | rewrite bool_decide_eq_false ].

Lemma validateEnvVar_None svcName env : validateEnvVar svcName env = None ↔ valid_env env.
Proof.
  unfold validateEnvVar, valid_env. checks. apply and_iff_compat_l.
  destruct (ev_ValueFrom env) as [from|]; [|naive_solver]. checks.
  destruct (evs_SecretKeyRef from) as [ref|] eqn:Er; checks; naive_solver.
Qed.

Lemma check_pg_env_None svc volume env : check_pg_env svc volume env = None ↔ contained_env env.
Proof.
  unfold check_pg_env, contained_env.
  destruct (slices_Contains _ _) eqn:Ec; simpl negb; cbv iota.
  - apply slices_Contains_true in Ec. checks.
    assert ((match ev_ValueFrom env with None => true | Some _ => false end = true) ↔
      ev_ValueFrom env = None) as -> by (by destruct (ev_ValueFrom env)).
    case_decide as H1; [|case_decide as H2]; checks.
    + rewrite H1. split; [intros (? & ? & _)|intros [H _]; by destruct (H eq_refl)].
      split_and!; done.
    + rewrite H2. split; [by intros [_ ?]|]. by intros (_ & ? & _).
    + apply elem_of_cons in Ec as [?|Ec]; [done|]. apply elem_of_cons in Ec as [?|Ec]; [done|].
      apply list_elem_of_singleton in Ec. setoid_rewrite check_None. naive_solver.
  - split; [intros _|done]. unfold slices_Contains in Ec. bools.
    split_and!; [intros H|intros H|intros H]; destruct Ec; rewrite H; set_solver.
Qed.

Lemma validatePostgresDifferentialMount_None spec volume img :
  validatePostgresDifferentialMount spec volume img = None ↔ valid_pg_mount spec img volume.
Proof.
  unfold validatePostgresDifferentialMount, valid_pg_mount. checks.
  destruct (mounts_of spec volume) as [|[svc vm] [|m ms]].
  - split; [by intros [_ ?]|]. intros (? & ? & ? & _). done.
  - trans (check_pg_mount img volume (svc, vm) = None).
    { setoid_rewrite list_elem_of_singleton. naive_solver. }
    unfold check_pg_mount, validatePostgresDifferentialEnv. checks.
    setoid_rewrite check_pg_env_None. naive_solver.
  - split; [by intros [_ ?]|]. intros (? & ? & ? & _). done.
Qed.

Lemma check_strategy_None spec img item :
  check_strategy spec img item = None ↔
  (bi_Strategy item = BackupStrategyOffline ∧ bi_RetainFull item = None) ∨
  (bi_Strategy item = BackupStrategyPostgresDifferential ∧
   (MinRetainFull ≤ EffectiveRetainFull item ≤ MaxRetainFull)%Z ∧
   valid_pg_mount spec img (bi_Volume item)).
Proof.
  unfold check_strategy. case_decide as H1; [|case_decide as H2]; checks.
  - rewrite H1. destruct (bi_RetainFull item); naive_solver.
  - rewrite validatePostgresDifferentialMount_None. naive_solver.
  - naive_solver.
Qed.

Lemma check_items_from_None spec names managed seen img items rest :
  check_items_from spec names managed seen img items rest = None ↔
  (NoDup (bi_Volume <$> items) ∧
   ∀ item, item ∈ items → bi_Volume item ∉ seen ∧ bi_Volume item ≠ EmptyString ∧
     bi_Volume item ∈ names ∧ bi_Volume item ∈ managed ∧ check_strategy spec img item = None) ∧
  rest = None.
Proof.
  revert seen. induction items as [|item items IH]; intros seen; simpl.
  - split; [|tauto]. intros Hr. split; [|done]. split; [constructor|]. by intros ? []%elem_of_nil.
  - checks. rewrite NoDup_cons.
    destruct (check_strategy spec img item) eqn:Es.
    + split; [by intros (? & ? & ? & ? & ?)|]. intros [[_ H] _].
      destruct (H item) as (_ & _ & _ & _ & H'); [by left|]. congruence.
    + rewrite IH. setoid_rewrite elem_of_cons. setoid_rewrite list_elem_of_fmap.
      split.
      * intros (Hn & Hv & Hm & Hs & [Hnd Hall] & ->). split; [|done]. split; [split; [|done]|].
        -- intros (i & Hi & Hin). destruct (Hall i Hin) as [[] _]. auto.
        -- intros i [->|Hi]; [done|]. destruct (Hall i Hi) as (? & ? & ? & ? & ?). naive_solver.
      * intros [[[Hni Hnd] Hall] ->].
        destruct (Hall item (or_introl eq_refl)) as (? & ? & ? & ? & _).
        split_and!; try done. intros i Hi. destruct (Hall i (or_intror Hi)) as (? & ? & ? & ? & ?).
        split_and!; try done. intros [Heq|?]; [|done]. apply Hni. eauto.
Qed.

Lemma managed_volume_name spec v : v ∈ managed_volumes spec → v ∈ volume_names spec.
Proof.
  unfold managed_volumes, volume_names. rewrite !list_elem_of_fmap.
  intros (vol & -> & Hin%list_elem_of_filter). naive_solver.
Qed.

Lemma and_iff_nested (A B B' C C' : Prop) : (B ↔ B') → (C ↔ C') → (A ∧ B) ∧ C ↔ A ∧ B' ∧ C'.
Proof. tauto. Qed.

Lemma check_backup_None spec img :
  check_backup spec img = None ↔ ∀ b, sp_Backup spec = Some b → valid_backup spec img b.
Proof.
  unfold check_backup. destruct (sp_Backup spec) as [b|]; [|naive_solver].
  trans (valid_backup spec img b); [|naive_solver].
  unfold valid_backup, validateBackupItems. checks. rewrite check_items_from_None.
  assert ((match ParseDuration (bc_Interval b) with
           | Some d => bool_decide (0 < d)%Z | None => false end = true) ↔
    ∃ d, ParseDuration (bc_Interval b) = Some d ∧ (0 < d)%Z) as ->.
  { destruct (ParseDuration _); [rewrite bool_decide_eq_true|]; naive_solver. }
  do 2 apply and_iff_compat_l.
  assert (bc_OnMissing b ∈ [EmptyString; VolumeOnMissingInitializeEmpty] ↔
    bc_OnMissing b = EmptyString ∨ bc_OnMissing b = VolumeOnMissingInitializeEmpty) as ->
    by (rewrite !elem_of_cons, elem_of_nil; tauto).
  apply and_iff_compat_l. apply and_iff_nested.
  - apply forall_proper; intros item. unfold valid_item.
    rewrite check_strategy_None. pose proof (managed_volume_name spec (bi_Volume item)).
    pose proof (not_elem_of_nil (bi_Volume item)). naive_solver.
  - destruct (HasPostgresDifferential spec); [|naive_solver]. checks.
    setoid_rewrite check_None. setoid_rewrite negb_true_iff. setoid_rewrite andb_false_iff.
    setoid_rewrite bool_decide_eq_false. setoid_rewrite negb_false_iff.
    setoid_rewrite bool_decide_eq_true. split.
    + intros [H _] _ v Hv Ht. destruct (H v Hv) as [[?|?] _]; done.
    + intros H. split; [|done]. intros v Hv. split; [|done].
      destruct (decide (vol_Type v = VolumeTypeManaged)); [right; auto|by left].
Qed.

Lemma check_volumes_from_None seen vols rest :
  check_volumes_from seen vols rest = None ↔
  (valid_volumes vols ∧ ∀ v, v ∈ vols → vol_Name v ∉ seen) ∧ rest = None.
Proof.
  revert seen. unfold valid_volumes. induction vols as [|vol vols IH]; intros seen; simpl.
  - split; [|tauto]. intros Hr. split; [|done].
    split; [split; [constructor|]|]; by intros ? []%elem_of_nil.
  - checks. rewrite IH, NoDup_cons, !elem_of_cons, elem_of_nil.
    setoid_rewrite elem_of_cons. setoid_rewrite list_elem_of_fmap. split.
    + intros (Hn & Hs & Ht & [[[Hnd Hall] Hseen] ->]). split; [|done]. split; [split; [split; [|done]|]|].
      * intros (v & Hv & Hin). destruct (Hseen v Hin). auto.
      * intros v [->|Hv]; [|auto]. naive_solver.
      * intros v [->|Hv]; [done|]. specialize (Hseen v Hv). naive_solver.
    + intros [[[[Hni Hnd] Hall] Hseen] ->]. destruct (Hall vol (or_introl eq_refl)) as [? ?].
      split_and!; auto; [naive_solver|].
      intros v Hv [Heq|Hin]; [apply Hni; eauto|]. by apply (Hseen v (or_intror Hv)).
Qed.

Lemma check_ingress_from_None names seen ings :
  check_ingress_from names seen ings = None ↔
  valid_ingress names ings ∧ ∀ ing, ing ∈ ings → ing_Name ing ∉ seen.
Proof.
  revert seen. unfold valid_ingress. induction ings as [|ing ings IH]; intros seen; simpl.
  - split; [|done]. intros _. split; [split; [constructor|]|]; by intros ? []%elem_of_nil.
  - checks. rewrite IH, NoDup_cons, !elem_of_cons, elem_of_nil.
    setoid_rewrite elem_of_cons. setoid_rewrite list_elem_of_fmap. split.
    + intros (Hn & Hs & Hsvc & Hp & Hsc & [[Hnd Hall] Hseen]). split; [split; [split; [|done]|]|].
      * intros (i & Hi & Hin). destruct (Hseen i Hin). auto.
      * intros i [->|Hi]; [|auto]. naive_solver.
      * intros i [->|Hi]; [done|]. specialize (Hseen i Hi). naive_solver.
    + intros [[[Hni Hnd] Hall] Hseen]. destruct (Hall ing (or_introl eq_refl)) as (? & ? & ? & ?).
      split_and!; auto; [naive_solver|].
      intros i Hi [Heq|Hin]; [apply Hni; eauto|]. by apply (Hseen i (or_intror Hi)).
Qed.

Lemma check_service_None svc :
  check_service svc = None ↔
  svc_Name svc ≠ EmptyString ∧ svc_Image svc ≠ EmptyString ∧ ∀ env, env ∈ svc_Env svc → valid_env env.
Proof.
  unfold check_service. checks. setoid_rewrite validateEnvVar_None. naive_solver.
Qed.

Lemma validateProjectSpecFor_valid (spec : ProjectSpec) (postgresImage : string) :
  validateProjectSpecFor spec postgresImage = None ↔ valid_spec spec postgresImage.
Proof.
  unfold validateProjectSpecFor, valid_spec, valid_service. checks.
  rewrite check_volumes_from_None. setoid_rewrite check_service_None.
  destruct (check_backup spec postgresImage) eqn:Eb.
  - split; [by intros (_ & _ & _ & _ & ?)|]. intros (_ & _ & _ & _ & Hb & _).
    apply (check_backup_None spec postgresImage) in Hb. congruence.
  - rewrite check_backup_None in Eb. checks. rewrite check_ingress_from_None.
    setoid_rewrite for_each_None. unfold check_mount. setoid_rewrite check_None.
    setoid_rewrite check_None. setoid_rewrite nonempty_true. setoid_rewrite bool_decide_eq_true.
    pose proof (@not_elem_of_nil string). naive_solver.
Qed.

(** ** Properties *)


(** A PostgreSQL Project and a web service in front of it. *)
Definition example_database_spec (args : string) : ProjectSpec :=
  {| sp_Size := ProjectSizeSmall;
     sp_Services :=
       [ {| svc_Name := "db"; svc_Image := PostgresDifferentialImage; svc_Command := [];
            svc_Env := [{| ev_Name := POSTGRES_INITDB_ARGS; ev_Value := args; ev_ValueFrom := None |}];
            svc_VolumeMounts := [{| vm_Name := "data"; vm_MountPath := PostgresDifferentialDataPath |}] |};
         {| svc_Name := "web"; svc_Image := "nginx"; svc_Command := []; svc_Env := [];
            svc_VolumeMounts := [] |} ];
     sp_Volumes := [{| vol_Name := "data"; vol_Type := VolumeTypeManaged |}];
     sp_Backup := Some {| bc_Interval := "24h"; bc_OnMissing := EmptyString;
       bc_Items := [{| bi_Volume := "data"; bi_Strategy := BackupStrategyPostgresDifferential;
                       bi_RetainFull := Some 2%Z |}] |};
     sp_Ingress := [{| ing_Name := "www"; ing_Host := "shop.example";
       ing_Target := {| it_Service := "web"; it_Port := 80 |};
       ing_Access := {| ia_Scope := IngressScopeInternal |} |}];
     sp_ExpireAt := None; sp_RestartedAt := None |}.

Example example_database_accepted :
  validateProjectSpec (example_database_spec "--encoding=UTF8 -k") = None.
Proof. vm_compute. reflexivity. Qed.
Example example_waldir_refused :
  validateProjectSpec (example_database_spec "--wald=/tmp/x") ≠ None.
Proof. vm_compute. discriminate. Qed.

(** ** What reaches the shell *)

(** A byte a shell gives a meaning to, among the printable ones: anything but
    the bytes of words, "=" and "-". *)
Definition printable (c : ascii) : bool := Nat.leb 33 (nat_of_ascii c) && Nat.leb (nat_of_ascii c) 126.
Definition word_byte (c : ascii) : bool := initdb_byte c || Nat.eqb (nat_of_ascii c) 61.

Fixpoint has_byte (c : ascii) (s : string) : Prop :=
  match s with EmptyString => False | String d s' => d = c ∨ has_byte c s' end.

Lemma has_byte_app c s t : has_byte c (s ++ t) ↔ has_byte c s ∨ has_byte c t.
Proof. induction s as [|d s IH]; simpl; [tauto|]. rewrite IH. tauto. Qed.

Lemma all_bytes_spec f s c : all_bytes f s = true → has_byte c s → f c = true.
Proof.
  induction s as [|d s IH]; simpl; [done|]. intros [Hd Hs]%andb_true_iff [->|Hc]; auto.
Qed.

Lemma cut_equals_spec s name value :
  cut_equals s = Some (name, value) → ∀ c, has_byte c s →
  has_byte c name ∨ nat_of_ascii c = 61%nat ∨ has_byte c value.
Proof.
  revert name. induction s as [|d s IH]; simpl; intros name; [done|].
  destruct (Nat.eqb_spec (nat_of_ascii d) 61) as [He|He].
  - intros [= <- <-] c [<-|Hc]; auto.
  - destruct (cut_equals s) as [[n v]|] eqn:E; [|done]. intros [= <- <-] c [<-|Hc]; simpl; auto.
    destruct (IH n eq_refl c Hc) as [?|[?|?]]; auto.
Qed.

(** An accepted argument is made of word bytes. *)
Lemma allowed_arg_inert arg c : allowedInitdbArg arg = true → has_byte c arg → word_byte c = true.
Proof.
  unfold allowedInitdbArg.
  assert (∀ s, all_bytes word_byte s = true → has_byte c s → word_byte c = true) as Hall
    by (intros s; apply all_bytes_spec).
  destruct (bool_decide (arg = "-k"%string)) eqn:E1; bools; simpl; [intros _; subst; by apply Hall|].
  destruct (bool_decide (arg = "--data-checksums"%string)) eqn:E2; bools; simpl;
    [intros _; subst; by apply Hall|].
  destruct (cut_equals arg) as [[name value]|] eqn:Ec; [|done].
  intros [Hn Hv]%andb_true_iff Hc. bools. unfold initdbValue in Hv. bools. destruct Hv as [_ Hv].
  destruct (cut_equals_spec _ _ _ Ec c Hc) as [H|[H|H]].
  - assert (Forall (λ s, all_bytes word_byte s = true) initdbSettings) as Hset by (repeat constructor).
    rewrite Forall_forall in Hset. by apply (Hall name); [apply Hset|].
  - unfold word_byte. rewrite H. by rewrite orb_true_r.
  - unfold word_byte. by rewrite (all_bytes_spec _ _ _ Hv H).
Qed.

(** The first [k] bytes are not printable. *)
Fixpoint skip_ok (k : nat) (s : string) : Prop :=
  match k, s with
  | S k, String c s' => printable c = false ∧ skip_ok k s'
  | _, _ => True
  end.

Lemma space_prefix_skip c s n :
  space_prefix (String c s) = Some n → printable c = false ∧ skip_ok (pred n) s.
Proof.
  assert (∀ d, (33 ≤ nat_of_ascii d ≤ 126 → False)%nat → printable d = false) as Hp.
  { intros d Hd. unfold printable. destruct (Nat.leb_spec 33 (nat_of_ascii d));
      destruct (Nat.leb_spec (nat_of_ascii d) 126); [exfalso; lia|done..]. }
  unfold space_prefix. destruct (_ || _) eqn:E1.
  { intros [= <-]. split; [|by destruct s]. apply Hp.
    rewrite orb_true_iff, andb_true_iff, !Nat.leb_le, Nat.eqb_eq in E1. lia. }
  destruct s as [|c2 s]; [done|]. destruct (Nat.eqb _ 194 && _) eqn:E2.
  { intros [= <-]. rewrite andb_true_iff, orb_true_iff, !Nat.eqb_eq in E2.
    simpl. split_and!; [apply Hp; lia|apply Hp; lia|by destruct s]. }
  destruct s as [|c3 s]; [done|]. destruct (_ || _) eqn:E3 in |- *; [|done].
  intros [= <-]. rewrite !orb_true_iff, !andb_true_iff, !orb_true_iff, !andb_true_iff, !Nat.eqb_eq, !Nat.leb_le in E3.
  simpl. split_and!; [apply Hp; lia..|by destruct s].
Qed.

(** Every printable byte ends up in a field. *)
Lemma fields_keep c s k acc :
  printable c = true → skip_ok k s → has_byte c acc ∨ has_byte c s →
  ∃ f, f ∈ fields_from k acc s ∧ has_byte c f.
Proof.
  intros Hc. assert (∀ acc fs, has_byte c acc → ∃ f, f ∈ close_field acc fs ∧ has_byte c f) as Hclose.
  { intros a fs Ha. exists a. unfold close_field. case_decide; [by subst|]. split; [by left|done]. }
  revert k acc. induction s as [|d s IH]; intros k acc Hk Hin.
  - destruct Hin as [Hin|[]]. simpl. auto.
  - cbn [fields_from]. destruct k as [|k].
    + destruct (space_prefix (String d s)) as [n|] eqn:Esp.
      * apply space_prefix_skip in Esp as [Hd Hskip]. destruct Hin as [Hin|[->|Hin]]; [auto|congruence|].
        destruct (IH (pred n) EmptyString Hskip (or_intror Hin)) as (f & Hf & Hcf). exists f.
        split; [|done]. unfold close_field. case_decide; [done|by right].
      * apply IH; [done|]. rewrite has_byte_app. simpl in *. tauto.
    + destruct Hk as [Hd Hk]. apply IH; [done|]. destruct Hin as [?|[->|?]]; auto. congruence.
Qed.

(** (handler.go, allowedInitdbArg and validatePostgresDifferentialEnv): what
    an accepted spec passes to initdb is inert. The image's entrypoint runs
    POSTGRES_INITDB_ARGS through eval; in an accepted spec every printable byte
    of that variable, for a service that mounts a PostgresDifferential volume,
    is a letter, a digit or one of "_.@-=", so there is nothing for a shell to
    expand, quote or redirect. *)
Theorem accepted_initdb_args_inert (spec : ProjectSpec) (postgresImage : string) (item : BackupItem)
    (b : ProjectBackupConfig) (svc : ServiceDef) (vm : VolumeMount) (env : EnvVar) (c : ascii)
    (Hvalid : validateProjectSpecFor spec postgresImage = None)
    (Hb : sp_Backup spec = Some b) (Hitem : item ∈ bc_Items b)
    (Hstrategy : bi_Strategy item = BackupStrategyPostgresDifferential)
    (Hmount : (svc, vm) ∈ mounts_of spec (bi_Volume item))
    (Henv : env ∈ svc_Env svc) (Hname : ev_Name env = POSTGRES_INITDB_ARGS)
    (Hc : has_byte c (ev_Value env)) (Hprint : printable c = true) :
  ev_ValueFrom env = None ∧ word_byte c = true.
Proof.
  apply validateProjectSpecFor_valid in Hvalid as (_ & _ & _ & _ & Hbackup & _).
  destruct (Hbackup b Hb) as (_ & _ & _ & _ & Hitems & _).
  destruct (Hitems item Hitem) as (_ & _ & [[Hs _]|(_ & _ & svc' & vm' & Hm & _ & _ & Hcont)]).
  { rewrite Hs in Hstrategy. done. }
  rewrite Hm in Hmount. apply list_elem_of_singleton in Hmount as [= -> ->].
  destruct (Hcont env Henv) as (_ & _ & Hargs). destruct (Hargs Hname) as [Hfrom Hall].
  split; [done|].
  destruct (fields_keep c (ev_Value env) 0 EmptyString Hprint I (or_intror Hc)) as (f & Hf & Hcf).
  eapply allowed_arg_inert; [|done]. by apply Hall.
Qed.

Lemma accepted_initdb_args_inert_witness :
  word_byte "U" = true ∧ validateProjectSpec (example_database_spec "--encoding=UTF8 -k") = None.
Proof.
  split; [|vm_compute; reflexivity].
  set (spec := example_database_spec "--encoding=UTF8 -k").
  set (db := {| svc_Name := "db"; svc_Image := PostgresDifferentialImage; svc_Command := [];
    svc_Env := [{| ev_Name := POSTGRES_INITDB_ARGS; ev_Value := "--encoding=UTF8 -k"; ev_ValueFrom := None |}];
    svc_VolumeMounts := [{| vm_Name := "data"; vm_MountPath := PostgresDifferentialDataPath |}] |}).
  refine (proj2 (accepted_initdb_args_inert spec PostgresDifferentialImage
    {| bi_Volume := "data"; bi_Strategy := BackupStrategyPostgresDifferential; bi_RetainFull := Some 2%Z |}
    _ db {| vm_Name := "data"; vm_MountPath := PostgresDifferentialDataPath |}
    {| ev_Name := POSTGRES_INITDB_ARGS; ev_Value := "--encoding=UTF8 -k"; ev_ValueFrom := None |}
    "U" _ eq_refl _ _ _ _ eq_refl _ eq_refl)).
  - vm_compute. reflexivity.
  - left.
  - reflexivity.
  - vm_compute. left.
  - left.
  - vm_compute. tauto.
Defined.
