(* ===== verification/Adapter.v ===== *)
(** What the controllers do to Projects (internal/server/adapter/project.go):
    granting an assignment, releasing it, moving a Failed Project, and the
    conditions the controllers keep. The grant and the releases are the only
    writes that change who may run a Project; the theorems say what each one
    leaves on the record. *)
From Stdlib Require Import ZArith Lia.
From stdpp Require Import prelude gmap strings.
From S2P Require Import Prelude.
From S2P Require Import Conditions.
From S2P Require Import ProjectTypes.
From S2P Require Import Lifecycle.
From S2P Require Import NodeTypes.
From S2P Require Import Database.
From S2P Require Import Evolution.
From S2P Require Import StatusStore.
From S2P Require Import Legality.
From S2P Require Import ProjectStore.
Import GoTime GoInt GoString GoError.
Open Scope go_scope.

(** ** Views (controller.ProjectSnapshot, ProjectPlacement) *)

Record ConditionSnapshot := {
  cs_Type : ConditionType;
  cs_Reason : string;
  cs_LastTransitionTime : Time
}.

Record ProjectSnapshot := {
  snap_Name : string;
  snap_UID : string;
  snap_Phase : ProjectPhase;
  snap_NodeRef : string;
  snap_AssignmentGeneration : Z;
  snap_Size : ProjectSize;
  snap_FailedNodes : list string;
  snap_Conditions : list ConditionSnapshot
}.

Record ProjectPlacement := { pp_Size : ProjectSize; pp_ExcludedNodes : list string }.

Definition condition_snapshot (c : Condition) : ConditionSnapshot :=
  {| cs_Type := cond_Type c; cs_Reason := cond_Reason c;
     cs_LastTransitionTime := cond_LastTransitionTime c |}.

Definition snapshotOf (p : Project) : ProjectSnapshot :=
  {| snap_Name := om_Name (p_Meta p); snap_UID := om_UID (p_Meta p);
     snap_Phase := st_Phase (p_Status p); snap_NodeRef := st_NodeRef (p_Status p);
     snap_AssignmentGeneration := st_AssignmentGeneration (p_Status p);
     snap_Size := sp_Size (p_Spec p); snap_FailedNodes := st_FailedNodes (p_Status p);
     snap_Conditions := condition_snapshot <$> st_Conditions (p_Status p) |}.

Definition ListProjectNamesByPhase (phase : ProjectPhase) : prog (result (list string)) :=
  projects ←? ListProjectsByPhase phase; Ret (Ok (om_Name ∘ p_Meta <$> projects)).

Definition GetProjectPhase (name : string) : prog (result (ProjectPhase * string)) :=
  project ←? getProject name;
  Ret (Ok (st_Phase (p_Status project), st_NodeRef (p_Status project))).

Definition placement_of (p : Project) : ProjectPlacement :=
  {| pp_Size := sp_Size (p_Spec p);
     pp_ExcludedNodes := st_FailedNodes (p_Status p) ++ NodesOwingCleanup (st_Recovery (p_Status p)) |}.

Definition GetProjectPlacement (name : string) : prog (result ProjectPlacement) :=
  project ←? getProject name; Ret (Ok (placement_of project)).

Definition adapter_ListProjectsByNodeRef (nodeRef : string) (phases : list ProjectPhase)
    : prog (result (list ProjectSnapshot)) :=
  projects ←? ListProjectsByNodeRef nodeRef phases; Ret (Ok (snapshotOf <$> projects)).

Definition GetProjectSnapshot (name : string) : prog (result ProjectSnapshot) :=
  project ←? getProject name; Ret (Ok (snapshotOf project)).

(** ** Granting an assignment *)

Definition conflict_state (rest : string) : error :=
  Wrap EmptyString (Sentinel ErrConflictState) rest.

Definition grant (nodeRef : string) (now : Time) (status : ProjectStatus) : ProjectStatus :=
  let generation := add64 (st_AssignmentGeneration status) 1 in
  let s := st_with_History AssignmentHistoryKnown (st_with_Generation generation status) in
  let s := st_with_Conditions (RemoveConditions (st_Conditions s) [ConditionTypeSchedulingBlocked]) s in
  let s := st_with_Recovery (ClearForNewAssignment (st_Recovery s)) s in
  let s := st_with_NodeRef nodeRef (st_with_Phase ProjectPhaseScheduled s) in
  st_with_Conditions
    (UpsertCondition (st_Conditions s)
       (mkCondition ConditionTypePhase ConditionTrue "Scheduled"
          ("Assigned to node " ++ nodeRef ++ " as generation " ++ FormatInt generation)%string now)
       true) s.

Definition set_scheduled (name nodeRef : string) (now : Time) (status : ProjectStatus)
    : result ProjectStatus :=
  if bool_decide (st_Phase status = ProjectPhaseScheduled) && bool_decide (st_NodeRef status = nodeRef)
  then Ok status
  else if negb (PhaseTransitionAllowed WriterScheduler (st_Phase status) ProjectPhaseScheduled) then
    Err (conflict_state (": project " ++ Quote name ++ " is " ++ st_Phase status ++ " on node "
           ++ Quote (st_NodeRef status) ++ "; only a Pending project can be assigned")%string)
  else
    match BlockingObligation (st_Recovery status) with
    | Some o =>
        Err (conflict_state (": node " ++ NodeName (ob_Assignment o)
               ++ " has not removed the resources of generation "
               ++ FormatInt (ai_Generation (ob_Assignment o))
               ++ " (released by " ++ ob_ReleaseAuthorization o ++ ")")%string)
    | None =>
        if bool_decide (nodeRef ∈ NodesOwingCleanup (st_Recovery status)) then
          Err (conflict_state (": node " ++ nodeRef ++ " still owes cleanup for this project")%string)
        else Ok (grant nodeRef now status)
    end.

Definition SetProjectScheduled (name nodeRef : string) : prog (result ()) :=
  now_ ≫= λ now, UpdateProjectStatusWithRetry name (set_scheduled name nodeRef now).

(** ** Conditions the controllers keep *)

Definition upsert (t : ConditionType) (reason message : string) (at_ : Time) (transitioned : bool)
    (s : ProjectStatus) : ProjectStatus :=
  st_with_Conditions
    (UpsertCondition (st_Conditions s) (mkCondition t ConditionTrue reason message at_) transitioned) s.

Definition SetSchedulingBlocked (name reason message : string) : prog (result ()) :=
  now_ ≫= λ now,
  UpdateProjectStatusWithRetry name (λ s,
    Ok (if decide (st_Phase s = ProjectPhasePending)
        then upsert ConditionTypeSchedulingBlocked reason message now false s else s)).

(** Writes any phase; only tests call it. *)
Definition SetProjectPhase (name : string) (phase : ProjectPhase) (reason message : string)
    : prog (result ()) :=
  now_ ≫= λ now,
  UpdateProjectStatusWithRetry name (λ s,
    let transitioned := negb (bool_decide (st_Phase s = phase)) in
    let s := st_with_Phase phase s in
    let s := if decide (phase = ProjectPhaseFailed)
             then st_with_Recovery (ClearHealthyWindow <$> st_Recovery s) s else s in
    Ok (upsert ConditionTypePhase reason message now transitioned s)).

Definition adapter_FinalizeProject (name uid : string) : prog (result ()) :=
  FinalizeProject name uid FinalizationBlocker.

Definition SetFinalizationBlocked (name uid reason : string) : prog (result ()) :=
  now_ ≫= λ now,
  UpdateProjectStatusForUID name uid (λ s,
    Ok (if AwaitsFinalization s
        then upsert ConditionTypeFinalizationBlocked "CleanupPending" ("Record kept: " ++ reason)%string
               now false s
        else s)).

Definition SetTerminatingAt (name : string) (at_ : Time) : prog (result ()) :=
  UpdateProjectStatusWithRetry name (λ s,
    Ok (upsert ConditionTypeTerminatingAt "NodeNotReady"
          "Node went NotReady while project was Terminating; termination timeout clock started"
          at_ true s)).

Definition SetNotReadyAt (name : string) (at_ : Time) : prog (result ()) :=
  UpdateProjectStatusWithRetry name (λ s,
    Ok (upsert ConditionTypeNotReadyAt "NodeNotReady"
          "Node went NotReady while project was Running; running grace period clock started"
          at_ true s)).

Definition SetTerminationBlocked (name nodeRef : string) (at_ : Time) : prog (result ()) :=
  UpdateProjectStatusWithRetry name (λ s,
    Ok (if decide (st_Phase s = ProjectPhaseTerminating)
        then upsert ConditionTypeTerminationBlocked "NodeNotReady"
               ("Node " ++ nodeRef ++ " has been NotReady past the termination timeout; "
                ++ "the project is kept until the node returns and confirms its resources are removed")%string
               at_ true s
        else s)).

Definition SetRescheduleExhausted (name message : string) : prog (result ()) :=
  now_ ≫= λ now,
  UpdateProjectStatusWithRetry name (λ s,
    Ok (if decide (st_Phase s = ProjectPhaseFailed)
        then upsert ConditionTypeRescheduleExhausted "RetriesExhausted" message now false s else s)).

Definition ClearFailedNodes (name : string) : prog (result ()) :=
  UpdateProjectStatusWithRetry name (λ s, Ok (st_with_FailedNodes [] s)).

(** controller.IsOutageCondition. *)
Definition IsOutageCondition (t : ConditionType) : bool :=
  bool_decide (t ∈ [ConditionTypeNotReadyAt; ConditionTypeTerminatingAt;
                    ConditionTypeTakeoverRequired; ConditionTypeTerminationBlocked]).

Definition clear_clocks (nodeRef : string) (notAfter : Time) (s : ProjectStatus) : ProjectStatus :=
  if negb (bool_decide (st_NodeRef s = nodeRef)) then s
  else st_with_Conditions
         (filter (λ c, negb (IsOutageCondition (cond_Type c)
                             && negb (bool_decide (notAfter < cond_LastTransitionTime c)%Z)) = true)
            (st_Conditions s)) s.

Definition ClearRescheduleClocks (name nodeRef : string) (notAfter : Time) : prog (result ()) :=
  UpdateProjectStatusWithRetry name (λ s, Ok (clear_clocks nodeRef notAfter s)).

(** ** Releasing an assignment *)

Definition snap_assignment (p : ProjectSnapshot) : AssignmentIdentity :=
  {| ProjectUID := snap_UID p; NodeName := snap_NodeRef p;
     ai_Generation := snap_AssignmentGeneration p |}.

(** What both releases write: no Node, the obligation with its managed data, the
    outage conditions gone, and the Phase condition. *)
Definition release (a : AssignmentIdentity) (authorization : ReleaseAuthorizationKind)
    (hasManaged : bool) (reason message : string) (now : Time) (transitioned : bool)
    (status : ProjectStatus) : ProjectStatus :=
  let s := st_with_NodeRef EmptyString (st_with_Phase ProjectPhasePending status) in
  let s := update_recovery (AddObligation a now authorization) s in
  let s := if hasManaged then update_recovery (OweManagedData a) s else s in
  let s := st_with_Conditions
    (RemoveConditions (st_Conditions s)
       [ConditionTypeNotReadyAt; ConditionTypeTerminatingAt; ConditionTypeTakeoverRequired]) s in
  upsert ConditionTypePhase reason message now transitioned s.

Definition hasBackup (s : ProjectStatus) : bool :=
  negb (bool_decide (CommittedBackupID (st_Recovery s) = EmptyString)) ||
  bool_decide (LastCompletion (st_Backup s) ≠ None).

(** Which authorization the release has, if any. *)
Definition release_authorization (graceExpiredRelease hasManaged : bool) (a : AssignmentIdentity)
    (s : ProjectStatus) : option ReleaseAuthorizationKind :=
  if WorkloadStoppedFor (st_Recovery s) a then Some ReleaseByWorkloadStopped
  else if graceExpiredRelease && (negb hasManaged || hasBackup s) then Some ReleaseByGraceExpired
  else None.

Definition release_reason (k : ReleaseAuthorizationKind) : string :=
  if decide (k = ReleaseByGraceExpired)
  then "Node stayed NotReady past its grace period; project released for rescheduling"
  else "Node went NotReady and confirmed the workload stopped; project released for rescheduling".

Definition takeover_required (message : string) (now : Time) (s : ProjectStatus)
    : ProjectStatus :=
  upsert ConditionTypeTakeoverRequired "WorkloadStopUnconfirmed" message now false s.

(** The closure of ReleaseAssignment; the captured variable is [released]. *)
Definition release_mutation (graceExpiredRelease : bool) (p : ProjectSnapshot) (now : Time)
    : mutation bool := λ released status,
  if negb (bool_decide (st_NodeRef status = snap_NodeRef p))
     || negb (bool_decide (st_AssignmentGeneration status = snap_AssignmentGeneration p)) then
    Ret (released, Err (Wrap EmptyString (Sentinel ErrStaleAssignment)
      (": project " ++ Quote (snap_Name p) ++ " no longer holds node " ++ snap_NodeRef p
       ++ " generation " ++ FormatInt (snap_AssignmentGeneration p))%string))
  else if negb (PhaseTransitionAllowed WriterRescheduler (st_Phase status) ProjectPhasePending) then
    Ret (released, Err (conflict_state
      (": project " ++ Quote (snap_Name p) ++ " is " ++ st_Phase status)%string))
  else
    getProject (snap_Name p) ≫= λ res,
    match res with
    | Err e => Ret (released, Err e)
    | Ok project =>
        let hasManaged := HasManagedVolume (p_Spec project) in
        match release_authorization graceExpiredRelease hasManaged (snap_assignment p) status with
        | None =>
            Ret (false, Ok (takeover_required
              ("Node " ++ snap_NodeRef p ++ " is NotReady and has not confirmed generation "
               ++ FormatInt (snap_AssignmentGeneration p) ++ " stopped; "
               ++ "the project stays assigned to it until the node returns or the takeover is authorized")%string
              now status))
        | Some authorization =>
            Ret (true, Ok (release (snap_assignment p) authorization hasManaged "NodeNotReady"
              (release_reason authorization) now
              (negb (bool_decide (st_Phase status = ProjectPhasePending))) status))
        end
    end.

(** [if err != nil { return false, err }; return released, nil]. *)
Definition captured (x : bool * result ()) : result bool :=
  match x.2 with Err e => Err e | Ok _ => Ok x.1 end.

Definition ReleaseAssignment (graceExpiredRelease : bool) (p : ProjectSnapshot)
    : prog (result bool) :=
  now_ ≫= λ now,
  captured <$> updateProjectStatusForUID (snap_Name p) (snap_UID p)
                 (release_mutation graceExpiredRelease p now) false.

(** ** Moving a Failed Project *)

Definition add_failed_node (node : string) (s : ProjectStatus) : ProjectStatus :=
  if bool_decide (node ∈ st_FailedNodes s) then s
  else st_with_FailedNodes (st_FailedNodes s ++ [node]) s.

Definition move_mutation (p : ProjectSnapshot) (message : string) (now : Time)
    : mutation bool := λ _ status,
  if negb (PhaseTransitionAllowed WriterFailedRescheduler (st_Phase status) ProjectPhasePending)
     || negb (bool_decide (st_NodeRef status = snap_NodeRef p))
     || negb (bool_decide (st_AssignmentGeneration status = snap_AssignmentGeneration p)) then
    Ret (false, Ok status)
  else if negb (WorkloadStoppedFor (st_Recovery status) (snap_assignment p)) then
    Ret (false, Ok (takeover_required
      ("Failed on node " ++ snap_NodeRef p ++ ", which has not confirmed generation "
       ++ FormatInt (snap_AssignmentGeneration p) ++ " stopped; "
       ++ "the project stays assigned to it until the stop is confirmed or the takeover is authorized")%string
      now status))
  else
    getProject (snap_Name p) ≫= λ res,
    match res with
    | Err e => Ret (false, Err e)
    | Ok project =>
        Ret (true, Ok (release (snap_assignment p) ReleaseByWorkloadStopped
          (HasManagedVolume (p_Spec project)) "RescheduledAfterFailure" message now true
          (add_failed_node (snap_NodeRef p) status)))
    end.

Definition MoveFailedProject (p : ProjectSnapshot) (message : string) : prog (result bool) :=
  now_ ≫= λ now,
  captured <$> updateProjectStatusForUID (snap_Name p) (snap_UID p) (move_mutation p message now) false.

(** ** The contract *)

Lemma upsert_core t reason message at_ b s : same_core s (upsert t reason message at_ b s).
Proof. apply same_core_Conditions. Qed.

Lemma scheduler_edge from :
  PhaseTransitionAllowed WriterScheduler from ProjectPhaseScheduled = true → from = ProjectPhasePending.
Proof. intros [He|(_ & ? & _)]%allowed_cases; [|done]. vm_compute in He. by split_elem He. Qed.

Lemma rescheduler_edge from :
  PhaseTransitionAllowed WriterRescheduler from ProjectPhasePending = true →
  from = ProjectPhaseScheduled ∨ from = ProjectPhaseRunning.
Proof. intros [He|(_ & ? & _)]%allowed_cases; [|done]. vm_compute in He. split_elem He; auto. Qed.

Lemma failed_edge from :
  PhaseTransitionAllowed WriterFailedRescheduler from ProjectPhasePending = true →
  from = ProjectPhaseFailed.
Proof. intros [He|(_ & ? & _)]%allowed_cases; [|done]. vm_compute in He. by split_elem He. Qed.

(** The two ways set_scheduled succeeds. *)
Lemma set_scheduled_cases name nodeRef now s s' :
  set_scheduled name nodeRef now s = Ok s' →
  (s' = s ∧ st_Phase s = ProjectPhaseScheduled ∧ st_NodeRef s = nodeRef) ∨
  (s' = grant nodeRef now s ∧ st_Phase s = ProjectPhasePending ∧
   BlockingObligation (st_Recovery s) = None ∧ nodeRef ∉ NodesOwingCleanup (st_Recovery s)).
Proof.
  unfold set_scheduled. destruct (_ && _) eqn:Es; [intros [= <-]; bools; left; tauto|].
  destruct (PhaseTransitionAllowed _ _ _) eqn:Ea; [|done]. simpl negb; cbv iota.
  destruct (BlockingObligation _) eqn:Eb; [done|].
  destruct (bool_decide (nodeRef ∈ _)) eqn:Hn; [done|]. intros [= <-]. right. apply scheduler_edge in Ea. by bools.
Qed.

Lemma grant_obligations nodeRef now s : obligations (grant nodeRef now s) = obligations s.
Proof. unfold obligations, EnsureRecovery, grant. simpl. by destruct (st_Recovery s). Qed.

Lemma set_scheduled_legal name nodeRef now uid s s' :
  nodeRef ≠ EmptyString → status_inv uid s → (st_AssignmentGeneration s < max_int64)%Z →
  set_scheduled name nodeRef now s = Ok s' → legal uid 0 s s'.
Proof.
  intros Hn Hi Hmax [[-> _]|(-> & HP & _)]%set_scheduled_cases; [by apply legal_core|].
  apply legal_grant; try done. apply grant_obligations.
Qed.

Lemma release_recovery a k hm reason message now b s :
  st_Recovery (release a k hm reason message now b s) =
  Some ((if hm then OweManagedData a else id) (AddObligation a now k (EnsureRecovery s))).
Proof. by destruct hm. Qed.

(** The obligations after a release. *)
Lemma release_find a k hm reason message now b s a' :
  FindObligation (st_Recovery (release a k hm reason message now b s)) a' =
  if decide (a' = a)
  then Some ((if hm then ob_with_DataOwed true else id)
               (default (new_obligation a now k) (FindObligation (st_Recovery s) a)))
  else FindObligation (st_Recovery s) a'.
Proof.
  rewrite release_recovery. rewrite <- !(FindObligation_ensure s).
  destruct hm; unfold id; cbv beta iota; rewrite ?OweManagedData_find; rewrite ?AddObligation_find;
    repeat case_decide; simplify_eq/=; done.
Qed.

Lemma release_legal uid s s0 k hm reason message now b :
  status_inv uid s → st_NodeRef s ≠ EmptyString → ¬ deleting s →
  same_core s s0 → st_Recovery s0 = st_Recovery s →
  legal uid 0 s (release (assignment_of uid s) k hm reason message now b s0).
Proof.
  intros Hi Hn Hd Hc Hr. pose proof Hc as [E1 E2 E3 E4 E5 E6 E7].
  assert (extended uid s (update_recovery (AddObligation (assignment_of uid s) now k) s)) as Hx
    by (by apply extended_AddObligation).
  apply legal_release; try done; try (by destruct hm).
  - destruct hm.
    + apply (extended_OweManagedData _ _ _ (assignment_of uid s)) in Hx; [|done].
      eapply extended_recovery; [|exact Hx].
      rewrite release_recovery. simpl. unfold EnsureRecovery. rewrite Hr. done.
    + eapply extended_recovery; [|exact Hx]. rewrite release_recovery. simpl.
      unfold EnsureRecovery. rewrite Hr. done.
  - rewrite release_find, decide_True by done. by eexists.
  - intros [HD|HD]; destruct hm; done.
Qed.

(** *** What one run of the closures computes *)

Definition released_as (grace hm : bool) (p : ProjectSnapshot) (now : Time) (x : bool)
    (s s' : ProjectStatus) : Prop :=
  st_NodeRef s = snap_NodeRef p ∧ st_AssignmentGeneration s = snap_AssignmentGeneration p ∧
  (st_Phase s = ProjectPhaseScheduled ∨ st_Phase s = ProjectPhaseRunning) ∧
  match release_authorization grace hm (snap_assignment p) s with
  | Some k => x = true ∧ s' = release (snap_assignment p) k hm "NodeNotReady" (release_reason k) now true s
  | None => x = false ∧ ∃ message, s' = takeover_required message now s
  end.

Definition moved_as (hm : bool) (p : ProjectSnapshot) (message : string) (now : Time) (x : bool)
    (s s' : ProjectStatus) : Prop :=
  (x = false ∧ s' = s) ∨
  (x = false ∧ st_Phase s = ProjectPhaseFailed ∧ ∃ m, s' = takeover_required m now s) ∨
  (x = true ∧ st_NodeRef s = snap_NodeRef p ∧ st_AssignmentGeneration s = snap_AssignmentGeneration p ∧
   st_Phase s = ProjectPhaseFailed ∧ WorkloadStoppedFor (st_Recovery s) (snap_assignment p) = true ∧
   s' = release (snap_assignment p) ReleaseByWorkloadStopped hm "RescheduledAfterFailure" message now
          true (add_failed_node (snap_NodeRef p) s)).

Section mutations.
Context `{UUIDSource} (G : DB → DB → Prop).

(** A closure that reads the Project again sees, if its swap commits, the very
    row it was given. *)
Lemma wp_reread {A : Type} name r d h (k : result Project → prog A)
    (Q : A → DB → list Event → Prop) :
  db_inv d → project_at d name = Some r →
  (∀ d1 r1, others d d1 →
     (∀ d2, others d1 d2 → project_at d2 name = Some r → r1 = r) →
     wp others G (k (Ok (project_of_row (project_key name) r1))) Q d1 h) →
  (∀ d1 e, others d d1 → wp others G (k (Err e)) Q d1 h) →
  wp others G (getProject name ≫= k) Q d h.
Proof.
  intros Hinv Hr Hok Herr. apply wp_bind, wp_getProject; [by eauto| |by eauto].
  intros d1 r1 Hd1 Hr1. apply Hok; [done|]. intros d2 Hd2 Hr2.
  by eapply (row_between d d1 d2 (project_key name)); [|apply Hd1|apply Hd2|..].
Qed.

Lemma wp_release_mutation grace p now x r d h :
  db_inv d → project_at d (snap_Name p) = Some r →
  wp others G (release_mutation grace p now x (row_status r)) (λ '(x', res) d' h',
    h' = h ∧ (∀ d'', others d' d'' → others d d'') ∧
    (∀ s', res = Ok s' → ∃ hm, released_as grace hm p now x' (row_status r) s') ∧
    ∀ d'', others d' d'' → project_at d'' (snap_Name p) = Some r →
      ∀ s', res = Ok s' →
      released_as grace (HasManagedVolume (row_Spec r)) p now x' (row_status r) s') d h.
Proof.
  intros Hinv Hr. unfold release_mutation.
  destruct (_ || _) eqn:Ef; [by apply wp_ret|].
  destruct (PhaseTransitionAllowed _ _ _) eqn:Ea; [|by apply wp_ret]. simpl negb; cbv iota.
  apply rescheduler_edge in Ea. bools. destruct Ef as [Hn Hg].
  assert (negb (bool_decide (st_Phase (row_status r) = ProjectPhasePending)) = true) as Ht
    by (destruct Ea as [-> | ->]; reflexivity).
  apply (wp_reread _ r); [done|done| |].
  2:{ intros d1 e Hd1. apply wp_ret. split_and!; try done. intros d'' ?. by trans d1. }
  intros d1 r1 Hd1 Hsame. cbn [p_Spec project_of_row]. rewrite Ht.
  assert (∀ d'', others d1 d'' → others d d'') by (intros; by trans d1).
  destruct (release_authorization _ _ _ _) as [k|] eqn:Ek; apply wp_ret; split_and!; try done.
  - intros s' [= <-]. exists (HasManagedVolume (row_Spec r1)). split_and!; try done. by rewrite Ek.
  - intros d'' Hd'' Hr'' s' [= <-]. rewrite (Hsame d'' Hd'' Hr'') in Ek |- *.
    split_and!; try done. by rewrite Ek.
  - intros s' [= <-]. exists (HasManagedVolume (row_Spec r1)). split_and!; try done.
    rewrite Ek. split; [done|]. by eexists.
  - intros d'' Hd'' Hr'' s' [= <-]. rewrite (Hsame d'' Hd'' Hr'') in Ek.
    split_and!; try done. rewrite Ek. split; [done|]. by eexists.
Qed.

Lemma wp_move_mutation p message now x r d h :
  db_inv d → project_at d (snap_Name p) = Some r →
  wp others G (move_mutation p message now x (row_status r)) (λ '(x', res) d' h',
    h' = h ∧ (∀ d'', others d' d'' → others d d'') ∧
    (∀ s', res = Ok s' → ∃ hm, moved_as hm p message now x' (row_status r) s') ∧
    ∀ d'', others d' d'' → project_at d'' (snap_Name p) = Some r →
      ∀ s', res = Ok s' →
      moved_as (HasManagedVolume (row_Spec r)) p message now x' (row_status r) s') d h.
Proof.
  intros Hinv Hr. unfold move_mutation.
  destruct (_ || _) eqn:Ef.
  { apply wp_ret. split_and!; try done; [intros s' [= <-]; exists true|intros ??? s' [= <-]]; by left. }
  rewrite !orb_false_iff, !negb_false_iff in Ef. destruct Ef as [[Ea Hn] Hg].
  apply failed_edge in Ea. bools.
  destruct (WorkloadStoppedFor _ _) eqn:Ews; simpl negb; cbv iota.
  2:{ apply wp_ret. split_and!; try done;
        [intros s' [= <-]; exists true|intros ??? s' [= <-]]; right; left; eauto. }
  apply (wp_reread _ r); [done|done| |].
  2:{ intros d1 e Hd1. apply wp_ret. split_and!; try done. intros d'' ?. by trans d1. }
  intros d1 r1 Hd1 Hsame. cbn [p_Spec project_of_row]. apply wp_ret.
  split_and!; [done|intros; by trans d1| |].
  - intros s' [= <-]. exists (HasManagedVolume (row_Spec r1)). by right; right.
  - intros d'' Hd'' Hr'' s' [= <-]. rewrite (Hsame d'' Hd'' Hr''). by right; right.
Qed.

Lemma released_as_legal grace hm p now x r s' :
  snap_NodeRef p ≠ EmptyString → row_inv r → row_UID r = snap_UID p →
  released_as grace hm p now x (row_status r) s' → legal (snap_UID p) 0 (row_status r) s'.
Proof.
  intros Hne Hri Hu (Hn & Hg & Hp & Hk). rewrite <- Hu.
  destruct (release_authorization _ _ _ _) as [k|].
  - destruct Hk as [_ ->].
    assert (snap_assignment p = assignment_of (row_UID r) (row_status r)) as ->
      by (unfold snap_assignment, assignment_of; congruence).
    apply release_legal; try done; [apply Hri|congruence|].
    intros [HD|HD]; rewrite HD in Hp; by destruct Hp.
  - destruct Hk as [_ [m ->]]. apply legal_core; [apply Hri|apply upsert_core].
Qed.

Lemma moved_as_legal hm p message now x r s' :
  snap_NodeRef p ≠ EmptyString → row_inv r → row_UID r = snap_UID p →
  moved_as hm p message now x (row_status r) s' → legal (snap_UID p) 0 (row_status r) s'.
Proof.
  intros Hne Hri Hu [[_ ->]|[(_ & _ & m & ->)|(_ & Hn & Hg & Hp & _ & ->)]]; rewrite <- Hu.
  - apply legal_core; [apply Hri|done].
  - apply legal_core; [apply Hri|apply upsert_core].
  - assert (snap_assignment p = assignment_of (row_UID r) (row_status r)) as ->
      by (unfold snap_assignment, assignment_of; congruence).
    apply release_legal; [apply Hri|congruence| | |].
    + intros [HD|HD]; rewrite HD in Hp; done.
    + unfold add_failed_node. case_bool_decide; [done|apply same_core_FailedNodes].
    + unfold add_failed_node. by case_bool_decide.
Qed.
End mutations.

Section adapter_safe.
Context `{UUIDSource}.

Lemma safe_ReleaseAssignment grace p :
  snap_NodeRef p ≠ EmptyString → safe others (ReleaseAssignment grace p).
Proof.
  intros Hne. apply safe_bind; [by apply safe_now|]. intros now. apply safe_fmap.
  apply (safe_uid others ltac:(eauto with cara) ltac:(done) _ _ _ (λ x r res, ∀ s', res = Ok s' →
    released_as grace (HasManagedVolume (row_Spec r)) p now x (row_status r) s')).
  - intros x r d h Hinv _ _ Hr. eapply wp_mono; [|by apply wp_release_mutation].
    intros [x' res] d' h' (? & ? & _ & ?). by split_and!.
  - intros x r s' Hri Hu _ Hs. by eapply released_as_legal; eauto.
Qed.

Lemma safe_MoveFailedProject p message :
  snap_NodeRef p ≠ EmptyString → safe others (MoveFailedProject p message).
Proof.
  intros Hne. apply safe_bind; [by apply safe_now|]. intros now. apply safe_fmap.
  apply (safe_uid others ltac:(eauto with cara) ltac:(done) _ _ _ (λ x r res, ∀ s', res = Ok s' →
    moved_as (HasManagedVolume (row_Spec r)) p message now x (row_status r) s')).
  - intros x r d h Hinv _ _ Hr. eapply wp_mono; [|by apply wp_move_mutation].
    intros [x' res] d' h' (? & ? & _ & ?). by split_and!.
  - intros x r s' Hri Hu _ Hs. by eapply moved_as_legal; eauto.
Qed.

Lemma safe_FinalizeProject_blocker name uid : safe others (adapter_FinalizeProject name uid).
Proof.
  apply safe_FinalizeProject. intros r _ Hb. apply finalizable_removable.
  by apply FinalizationBlocker_empty in Hb.
Qed.

Lemma safe_SetFinalizationBlocked name uid reason : safe others (SetFinalizationBlocked name uid reason).
Proof.
  apply safe_bind; [by apply safe_now|]. intros now.
  apply safe_UpdateProjectStatusForUID; eauto with cara. intros s s' Hi _ [= <-].
  apply legal_core; [done|]. destruct (AwaitsFinalization s); [apply upsert_core|done].
Qed.

(** The writes guarded by the version alone, among others that do not reuse a
    name. *)
Lemma safe_core_version life name (f : ProjectStatus → ProjectStatus) :
  (∀ s, same_core s (f s)) →
  safe (steady life) (UpdateProjectStatusWithRetry name (λ s, Ok (f s))).
Proof.
  intros Hf. apply safe_version; eauto with cara.
  intros uid s s' Hi _ [= <-]. by apply legal_core.
Qed.

Lemma safe_SetProjectScheduled life name nodeRef :
  nodeRef ≠ EmptyString → safe (steady life) (SetProjectScheduled name nodeRef).
Proof.
  intros Hn. apply safe_bind; [apply safe_now; eauto with cara|]. intros now.
  apply safe_version; eauto with cara. intros uid s s' Hi Hmax Hs. by eapply set_scheduled_legal.
Qed.
Lemma safe_SetSchedulingBlocked life name reason message :
  safe (steady life) (SetSchedulingBlocked name reason message).
Proof.
  apply safe_bind; [apply safe_now; eauto with cara|]. intros now.
  apply safe_core_version. intros s. case_decide; [apply upsert_core|done].
Qed.
Lemma safe_SetTerminatingAt life name at_ : safe (steady life) (SetTerminatingAt name at_).
Proof. apply safe_core_version. intros s. apply upsert_core. Qed.
Lemma safe_SetNotReadyAt life name at_ : safe (steady life) (SetNotReadyAt name at_).
Proof. apply safe_core_version. intros s. apply upsert_core. Qed.
Lemma safe_SetTerminationBlocked life name nodeRef at_ :
  safe (steady life) (SetTerminationBlocked name nodeRef at_).
Proof. apply safe_core_version. intros s. case_decide; [apply upsert_core|done]. Qed.
Lemma safe_SetRescheduleExhausted life name message :
  safe (steady life) (SetRescheduleExhausted name message).
Proof.
  apply safe_bind; [apply safe_now; eauto with cara|]. intros now.
  apply safe_core_version. intros s. case_decide; [apply upsert_core|done].
Qed.
Lemma safe_ClearFailedNodes life name : safe (steady life) (ClearFailedNodes name).
Proof. apply safe_core_version. intros s. apply same_core_FailedNodes. Qed.
Lemma safe_ClearRescheduleClocks life name nodeRef notAfter :
  safe (steady life) (ClearRescheduleClocks name nodeRef notAfter).
Proof.
  apply safe_core_version. intros s. unfold clear_clocks. destruct (negb _); [done|].
  apply same_core_Conditions.
Qed.
End adapter_safe.

(** ** Properties *)

Definition snapshot_matches (p : ProjectSnapshot) (r : ProjectRow) : Prop :=
  row_UID r = snap_UID p ∧ st_NodeRef (row_status r) = snap_NodeRef p ∧
  st_AssignmentGeneration (row_status r) = snap_AssignmentGeneration p.

(** The obligation a release leaves for assignment [a], given what the list had. *)
Definition release_obligation (a : AssignmentIdentity) (k : ReleaseAuthorizationKind) (hm : bool)
    (now : Time) (before : option CleanupObligation) : CleanupObligation :=
  (if hm then ob_with_DataOwed true else id) (default (new_obligation a now k) before).

(** A release as a change of one row. *)
Definition row_released (a : AssignmentIdentity) (k : ReleaseAuthorizationKind) (hm : bool)
    (now : Time) (r r' : ProjectRow) : Prop :=
  st_Phase (row_status r') = ProjectPhasePending ∧ st_NodeRef (row_status r') = EmptyString ∧
  st_AssignmentGeneration (row_status r') = st_AssignmentGeneration (row_status r) ∧
  row_UID r' = row_UID r ∧ row_Phase r' = ProjectPhasePending ∧
  ∀ b, FindObligation (st_Recovery (row_status r')) b =
    if decide (b = a)
    then Some (release_obligation a k hm now (FindObligation (st_Recovery (row_status r)) a))
    else FindObligation (st_Recovery (row_status r)) b.

Lemma release_row_released a k hm reason message now b r s0 now' :
  st_Recovery s0 = st_Recovery (row_status r) →
  st_AssignmentGeneration s0 = st_AssignmentGeneration (row_status r) →
  row_released a k hm now r (commit_status (release a k hm reason message now b s0) now' r).
Proof.
  intros Hr Hg.
  assert (row_status (commit_status (release a k hm reason message now b s0) now' r) =
          release a k hm reason message now b s0) as Hrow by done.
  split_and!; rewrite ?Hrow; try done; try (by destruct hm).
  intros c. rewrite release_find, Hr. done.
Qed.

(** (adapter/project.go, ReleaseAssignment): an assignment is given up only
    with an authorization, and never without its debt on the record. Under any
    interference the call writes at most once, onto the lifetime, Node and
    generation its snapshot judged, while Scheduled or Running. Either it
    releases: the Agent confirmed that very assignment stopped, or grace-expired
    release is on and the row written has no managed volume or has a backup; the
    same write then leaves the Project Pending without a Node, with the cleanup
    obligation of exactly that assignment (owing the managed data when that row's
    spec has some) and every other obligation kept. Or it only marks
    TakeoverRequired and the assignment stays. It answers true exactly for a
    release. *)
Theorem ReleaseAssignment_authorized `{UUIDSource} (grace : bool) (p : ProjectSnapshot)
    (ms : list move) (d0 : DB) (Hinv : db_inv d0) (Hms : schedule_ok ms) :
  let x := run (ReleaseAssignment grace p) ms d0 [] in
  (history_of x = [] ∧ result_of x ≠ Ok true) ∨
  (∃ d1 r r', let d2 := put_row (project_key (snap_Name p)) r' d1 in
     let hm := HasManagedVolume (row_Spec r) in
     others d0 d1 ∧ project_at d1 (snap_Name p) = Some r ∧ snapshot_matches p r ∧
     (st_Phase (row_status r) = ProjectPhaseScheduled ∨ st_Phase (row_status r) = ProjectPhaseRunning) ∧
     ∃ released : bool,
       (if released then
          ∃ k now, row_released (snap_assignment p) k hm now r r' ∧
            ((k = ReleaseByWorkloadStopped ∧
              WorkloadStoppedFor (st_Recovery (row_status r)) (snap_assignment p) = true) ∨
             (k = ReleaseByGraceExpired ∧ grace = true ∧ (hm = false ∨ hasBackup (row_status r) = true)))
        else same_core (row_status r) (row_status r') ∧ st_Recovery (row_status r') = st_Recovery (row_status r)) ∧
       ((result_of x = Ok released ∧
         history_of x = [Wrote d1 d2; Published TopicProjectUpdated (snap_Name p)]) ∨
        (∃ e, result_of x = Err e ∧ is_fault e = true ∧ history_of x = [Wrote d1 d2]))).
Proof.
  intros x. subst x. run_wp (ReleaseAssignment grace p) ms d0.
  apply wp_bind, wp_now. intros now d' Hd'. assert (db_inv d') as Hinv' by (by apply Hd').
  apply wp_bind. eapply wp_mono; [|eapply (wp_updateProjectStatusForUID others (λ _ _, True)
    ltac:(eauto with cara) ltac:(done) _ _ _
    (λ x r res, ∀ s', res = Ok s' → ∃ hm, released_as grace hm p now x (row_status r) s')
    (λ x r res, ∀ s', res = Ok s' →
       released_as grace (HasManagedVolume (row_Spec r)) p now x (row_status r) s'));
    [intros; by apply wp_release_mutation|done|done]].
  intros [released res] d2 h2 Hout. apply wp_ret. unfold captured; simpl.
  destruct Hout as [[-> Hn]|(d1 & d3 & (Hd1 & r & s' & now' & Hr & Hu & Hm & Hne & ->) & Hres)].
  - left. split; [done|]. destruct res as [[]|e]; [|done]. intros [= ->].
    destruct (Hn eq_refl) as (d & r & _ & _ & _ & Hm).
    destruct (Hm _ eq_refl) as (hm & _ & _ & Hp & Hk).
    destruct (release_authorization _ _ _ _); [|by destruct Hk].
    destruct Hk as [_ Heq]. apply (f_equal st_Phase) in Heq. simpl in Heq.
    rewrite Heq in Hp. by destruct hm, Hp.
  - right. destruct (Hm _ eq_refl) as (Hnode & Hgen & Hp & Hk).
    exists d1, r, (commit_status s' now' r). cbv zeta.
    split_and!; [by trans d'|done|by split_and!|done|]. exists released. split.
    + unfold release_authorization in Hk.
      destruct (WorkloadStoppedFor _ _) eqn:Ews.
      { destruct Hk as [-> ->]. exists ReleaseByWorkloadStopped, now.
        split; [by apply release_row_released|by left]. }
      destruct (grace && _) eqn:Eg.
      { destruct Hk as [-> ->]. exists ReleaseByGraceExpired, now.
        split; [by apply release_row_released|]. right. split; [done|].
        apply andb_true_iff in Eg as [-> Eg]. split; [done|].
        apply orb_true_iff in Eg as [Eg|Eg]; [left; by apply negb_true_iff|by right]. }
      destruct Hk as [-> [m ->]]. split; [apply upsert_core|done].
    + destruct Hres as [[-> ->]|(e & -> & He & ->)]; [by left|right; by exists e].
Qed.

(** Node "a" confirmed that generation 1 stopped. *)
Definition stopped_status (phase : ProjectPhase) : ProjectStatus :=
  st_with_Phase phase (update_recovery (rec_with_WorkloadStopped
    (Some {| ws_Assignment := assignmentIdentity example_ref; ws_ObservedAt := 4%Z |})) (running_status "a")).

Lemma stopped_db_inv phase :
  phase ≠ ProjectPhasePending → @db_inv counter_uuids (example_db (stopped_status phase) 3).
Proof.
  intros Hp. apply example_db_inv; [unfold max_int64; lia|simpl; lia|simpl; lia|].
  split; unfold generations; simpl; try done; try lia; [constructor|by intros o []%elem_of_nil|].
  intros g Hg. right. split; [lia|done].
Qed.

Definition example_snapshot : ProjectSnapshot :=
  {| snap_Name := "shop"; snap_UID := counter_uuid 0; snap_Phase := ProjectPhaseRunning;
     snap_NodeRef := "a"; snap_AssignmentGeneration := 1; snap_Size := EmptyString;
     snap_FailedNodes := []; snap_Conditions := [] |}.

Lemma ReleaseAssignment_authorized_witness :
  let x := run (ReleaseAssignment false example_snapshot) []
             (example_db (stopped_status ProjectPhaseRunning) 3) [] in
  result_of x = Ok true ∧ length (history_of x) = 2.
Proof.
  intros x. assert (result_of x = Ok true) as Hok by (vm_compute; reflexivity). split; [exact Hok|].
  destruct (@ReleaseAssignment_authorized counter_uuids false example_snapshot []
    (example_db (stopped_status ProjectPhaseRunning) 3) (stopped_db_inv ProjectPhaseRunning ltac:(done)) ltac:(by constructor))
    as [[_ Hh]|(d1 & r & r' & _ & _ & _ & _ & released & _ & [[_ Hh]|(e & He & _)])].
  - exfalso. exact (Hh Hok).
  - subst x. by rewrite Hh.
  - exfalso. vm_compute in He. discriminate.
Defined.

(** (adapter/project.go, MoveFailedProject): a Failed Project leaves its Node
    only once that Node confirmed the workload stopped, and a move is spent only
    on a move. Under any interference the call writes at most once. If it moves,
    the row written is Failed on the Node and generation of the snapshot, with
    WorkloadStopped evidence for exactly that assignment; the write releases it
    with its cleanup obligation and adds that Node to FailedNodes, once. Otherwise
    the assignment, the phase and FailedNodes are kept. It answers true exactly
    for a move. *)
Theorem MoveFailedProject_confirmed `{UUIDSource} (p : ProjectSnapshot) (message : string)
    (ms : list move) (d0 : DB) (Hinv : db_inv d0) (Hms : schedule_ok ms) :
  let x := run (MoveFailedProject p message) ms d0 [] in
  (history_of x = [] ∧ result_of x ≠ Ok true) ∨
  (∃ d1 r r', let d2 := put_row (project_key (snap_Name p)) r' d1 in
     others d0 d1 ∧ project_at d1 (snap_Name p) = Some r ∧ row_UID r = snap_UID p ∧
     st_Phase (row_status r) = ProjectPhaseFailed ∧
     ∃ moved : bool,
       (if moved then
          snapshot_matches p r ∧
          WorkloadStoppedFor (st_Recovery (row_status r)) (snap_assignment p) = true ∧
          (∃ now, row_released (snap_assignment p) ReleaseByWorkloadStopped
                    (HasManagedVolume (row_Spec r)) now r r') ∧
          (∀ n, n ∈ st_FailedNodes (row_status r') ↔ n ∈ st_FailedNodes (row_status r) ∨ n = snap_NodeRef p) ∧
          (NoDup (st_FailedNodes (row_status r)) → NoDup (st_FailedNodes (row_status r')))
        else same_core (row_status r) (row_status r') ∧
             st_FailedNodes (row_status r') = st_FailedNodes (row_status r)) ∧
       ((result_of x = Ok moved ∧
         history_of x = [Wrote d1 d2; Published TopicProjectUpdated (snap_Name p)]) ∨
        (∃ e, result_of x = Err e ∧ is_fault e = true ∧ history_of x = [Wrote d1 d2]))).
Proof.
  intros x. subst x. run_wp (MoveFailedProject p message) ms d0.
  apply wp_bind, wp_now. intros now d' Hd'. assert (db_inv d') as Hinv' by (by apply Hd').
  apply wp_bind. eapply wp_mono; [|eapply (wp_updateProjectStatusForUID others (λ _ _, True)
    ltac:(eauto with cara) ltac:(done) _ _ _
    (λ x r res, ∀ s', res = Ok s' → ∃ hm, moved_as hm p message now x (row_status r) s')
    (λ x r res, ∀ s', res = Ok s' →
       moved_as (HasManagedVolume (row_Spec r)) p message now x (row_status r) s'));
    [intros; by apply wp_move_mutation|done|done]].
  intros [moved res] d2 h2 Hout. apply wp_ret. unfold captured; simpl.
  destruct Hout as [[-> Hn]|(d1 & d3 & (Hd1 & r & s' & now' & Hr & Hu & Hm & Hne & ->) & Hres)].
  - left. split; [done|]. destruct res as [[]|e]; [|done]. intros [= ->].
    destruct (Hn eq_refl) as (d & r & _ & _ & _ & Hm).
    destruct (Hm _ eq_refl) as (hm & [[? _]|[[? _]|(_ & _ & _ & Hp & _ & Heq)]]); [done|done|].
    apply (f_equal st_Phase) in Heq. rewrite Hp in Heq. by destruct hm.
  - right. exists d1, r, (commit_status s' now' r). cbv zeta.
    destruct (Hm _ eq_refl) as [[_ ?]|Hm']; [done|].
    assert (st_Phase (row_status r) = ProjectPhaseFailed) as Hp by (destruct Hm'; tauto).
    split_and!; [by trans d'|done|done|done|]. exists moved. split.
    + destruct Hm' as [(-> & _ & m & ->)|(-> & Hnode & Hgen & _ & Hws & ->)].
      { split; [apply upsert_core|done]. }
      set (s0 := add_failed_node (snap_NodeRef p) (row_status r)).
      set (s1 := release _ _ _ _ _ _ _ s0).
      assert (row_status (commit_status s1 now' r) = s1) as Hrow by done.
      assert (st_FailedNodes s1 = st_FailedNodes s0) as Hf
        by (subst s1; by destruct (HasManagedVolume (row_Spec r))).
      assert (st_Recovery s0 = st_Recovery (row_status r) ∧
        st_AssignmentGeneration s0 = st_AssignmentGeneration (row_status r)) as [Hrec Hgen0]
        by (subst s0; unfold add_failed_node; by case_bool_decide).
      rewrite Hrow, Hf. split_and!; [by split_and!|done| | |].
      * exists now. by apply release_row_released.
      * intros n. subst s0. unfold add_failed_node. case_bool_decide; simpl; [set_solver|].
        by rewrite elem_of_app, list_elem_of_singleton.
      * intros Hnd. subst s0. unfold add_failed_node. case_bool_decide; simpl; [done|].
        apply NoDup_app. split_and!; [done| |apply NoDup_singleton].
        intros n Hn ->%list_elem_of_singleton. done.
    + destruct Hres as [[-> ->]|(e & -> & He & ->)]; [by left|right; by exists e].
Qed.

Lemma MoveFailedProject_confirmed_witness :
  let x := run (MoveFailedProject example_snapshot "moved") []
             (example_db (stopped_status ProjectPhaseFailed) 3) [] in
  result_of x = Ok true ∧ length (history_of x) = 2.
Proof.
  intros x. assert (result_of x = Ok true) as Hok by (vm_compute; reflexivity). split; [exact Hok|].
  destruct (@MoveFailedProject_confirmed counter_uuids example_snapshot "moved" []
    (example_db (stopped_status ProjectPhaseFailed) 3) (stopped_db_inv ProjectPhaseFailed ltac:(done)) ltac:(by constructor))
    as [[_ Hh]|(d1 & r & r' & _ & _ & _ & _ & moved & _ & [[_ Hh]|(e & He & _)])].
  - exfalso. exact (Hh Hok).
  - subst x. by rewrite Hh.
  - exfalso. vm_compute in He. discriminate.
Defined.

Lemma no_blocking_obligation s :
  BlockingObligation (st_Recovery s) = None ↔
  ∀ o, o ∈ obligations s → PermitsAssignment o = true.
Proof.
  unfold BlockingObligation, obligations, EnsureRecovery. destruct (st_Recovery s) as [r|]; simpl.
  - rewrite find_first_None. apply forall_proper; intros o. by rewrite negb_false_iff.
  - split; [|done]. by intros _ o []%elem_of_nil.
Qed.

Lemma NodesOwingCleanup_spec n s :
  n ∉ NodesOwingCleanup (st_Recovery s) ↔
  ∀ o, o ∈ obligations s → NodeName (ob_Assignment o) = n → Resolved o = true ∧ DataOutstanding o = false.
Proof.
  unfold NodesOwingCleanup, obligations, EnsureRecovery. destruct (st_Recovery s) as [r|]; simpl.
  - rewrite list_elem_of_fmap. split.
    + intros Hn o Ho Hname. destruct (Resolved o) eqn:E1, (DataOutstanding o) eqn:E2; try done;
        exfalso; apply Hn; exists o; (split; [done|]); apply list_elem_of_filter; rewrite E1, E2; done.
    + intros Hall (o & -> & [Hf Ho]%list_elem_of_filter). destruct (Hall o Ho eq_refl) as [E1 E2].
      by rewrite E1, E2 in Hf.
  - split; [|by intros _ []%elem_of_nil]. by intros _ o []%elem_of_nil.
Qed.

Lemma grant_evidence nodeRef now s a : WorkloadStoppedFor (st_Recovery (grant nodeRef now s)) a = false.
Proof. unfold grant. simpl. by destruct (st_Recovery s). Qed.

(** No name is given to a second lifetime, by this call or by the others. *)
Definition no_reuse `{UUIDSource} (life : string * string → string) (ms : list move) : Prop :=
  Forall (move_ok_on (steady life) (named life)) ms.

(** (adapter/project.go, SetProjectScheduled): a Project gets a new assignment
    only when every earlier one has been accounted for. As long as no name is
    reused, whatever the others do, the call writes at most once. The row it
    writes is Pending without a Node, every cleanup obligation on it permits a new
    assignment, and the chosen Node owes none of it; the write makes that Node
    the holder of the next generation, exactly one higher, keeps every obligation,
    and drops the stop evidence of the generation before. Success without a write
    means the Project was already Scheduled on that Node. *)
Theorem SetProjectScheduled_grants `{UUIDSource} (life : string * string → string)
    (name nodeRef : string) (ms : list move) (d0 : DB)
    (Hinv : db_inv d0) (Hname : named life d0) (Hms : no_reuse life ms) :
  let x := run (SetProjectScheduled name nodeRef) ms d0 [] in
  (history_of x = [] ∧
   (result_of x = Ok () → ∃ d r, others d0 d ∧ project_at d name = Some r ∧
      st_Phase (row_status r) = ProjectPhaseScheduled ∧ st_NodeRef (row_status r) = nodeRef)) ∨
  (∃ d1 r r', let d2 := put_row (project_key name) r' d1 in
     others d0 d1 ∧ project_at d1 name = Some r ∧
     st_Phase (row_status r) = ProjectPhasePending ∧ st_NodeRef (row_status r) = EmptyString ∧
     (∀ o, o ∈ obligations (row_status r) → PermitsAssignment o = true ∧
        (NodeName (ob_Assignment o) = nodeRef → Resolved o = true ∧ DataOutstanding o = false)) ∧
     st_Phase (row_status r') = ProjectPhaseScheduled ∧ st_NodeRef (row_status r') = nodeRef ∧
     st_AssignmentGeneration (row_status r') = (st_AssignmentGeneration (row_status r) + 1)%Z ∧
     st_AssignmentHistory (row_status r') = AssignmentHistoryKnown ∧
     obligations (row_status r') = obligations (row_status r) ∧
     (∀ a, WorkloadStoppedFor (st_Recovery (row_status r')) a = false) ∧
     row_UID r' = row_UID r ∧
     ((result_of x = Ok () ∧ history_of x = [Wrote d1 d2; Published TopicProjectUpdated name]) ∨
      (∃ e, result_of x = Err e ∧ is_fault e = true ∧ history_of x = [Wrote d1 d2]))).
Proof.
  intros x. subst x. pattern (result_of (run (SetProjectScheduled name nodeRef) ms d0 [])),
    (db_of (run (SetProjectScheduled name nodeRef) ms d0 [])),
    (history_of (run (SetProjectScheduled name nodeRef) ms d0 [])).
  apply (wp_adequate_on (steady life) (λ d1 d2, named life d1 → named life d2) (named life));
    [by intros d ?; split_and!|by intros ?? _ (_ & _ & ?)|by auto|done|done|].
  apply wp_bind, wp_now. intros now d' Hd'. assert (db_inv d') as Hinv' by (by apply Hd').
  eapply wp_mono; [|eapply (wp_UpdateProjectStatusWithRetry (steady life));
    [eauto with cara|eauto with cara|eauto with cara| |done]].
  2:{ intros r s' _ _ d now' _ Hr _ Hnd key r1. simpl.
      destruct (decide (project_key name = key)) as [<-|Hne].
      - rewrite lookup_insert_eq. intros [= <-]. simpl. by apply Hnd.
      - rewrite lookup_insert_ne by done. apply Hnd. }
  intros res d2 h2 [[-> Hn]|(d1 & d3 & (Hd1 & r & s' & now' & Hr & Hmax & Hm & Hne & ->) & Hres)].
  - left. split; [done|]. intros Hok. destruct (Hn Hok) as (d & r & Hd & Hr & Hm).
    exists d, r. split; [trans d'; [apply Hd'|apply Hd]|]. split; [done|].
    apply set_scheduled_cases in Hm as [(_ & ? & ?)|(Heq & HP & _)]; [done|].
    apply (f_equal st_Phase) in Heq. rewrite HP in Heq. done.
  - right. apply set_scheduled_cases in Hm as [[? _]|(-> & HP & Hb & Ho)]; [done|].
    assert (others d' d1) as Hd1' by apply Hd1.
    destruct (proj2 Hd1' Hinv' _ _ Hr) as [Hri _].
    pose proof (ri_generation _ Hri). pose proof (si_generation _ _ (ri_status _ Hri)).
    exists d1, r, (commit_status (grant nodeRef now (row_status r)) now' r).
    assert (row_status (commit_status (grant nodeRef now (row_status r)) now' r) =
            grant nodeRef now (row_status r)) as -> by done.
    split_and!; try done.
    + trans d'; [apply Hd'|done].
    + by apply (si_pending _ _ (ri_status _ Hri)).
    + intros o Hin. split; [by apply (proj1 (no_blocking_obligation _) Hb)|].
      by apply (proj1 (NodesOwingCleanup_spec _ _) Ho).
    + simpl. apply add64_id. unfold in_int64, min_int64. lia.
    + apply grant_obligations.
    + intros a. apply grant_evidence.
Qed.

Lemma SetProjectScheduled_grants_witness :
  let x := run (SetProjectScheduled "shop" "a") [] (example_db InitialProjectStatus 1) [] in
  result_of x = Ok () ∧ length (history_of x) = 2.
Proof.
  intros x. split; [vm_compute; reflexivity|].
  destruct (@SetProjectScheduled_grants counter_uuids (λ _, counter_uuid 0) "shop" "a" []
    (example_db InitialProjectStatus 1)
    ltac:(apply example_db_inv; [unfold max_int64; lia|simpl; lia|simpl; lia|apply initial_status_inv])
    ltac:(intros key r; simpl; intros [<- <-]%lookup_singleton_Some; reflexivity) ltac:(by constructor))
    as [[Hh _]|(d1 & r & r' & Hx)].
  - exfalso. vm_compute in Hh. discriminate.
  - destruct Hx as (_ & _ & _ & _ & _ & _ & _ & _ & _ & _ & _ & _ & [[_ Hh]|(e & He & _)]).
    + subst x. by rewrite Hh.
    + exfalso. vm_compute in He. discriminate.
Defined.
