(* ===== verification/Manager.v ===== *)
(** The manager of the controllers (internal/server/controller/manager.go,
    workqueue.go and controller.go) and the event bus (internal/event/bus.go).

    The work queue is the place where a lost wake-up would stop a controller
    for ever: a signal channel of one slot, and a set of names under a mutex.
    The workers, the goroutines that wait to put a name back, and whoever else
    enqueues are the threads of a labelled step relation; the theorems say that
    no name that was enqueued is lost and that waiting names are all handed
    out. *)
From Stdlib Require Import ZArith Lia.
From stdpp Require Import prelude gmap gmultiset strings.
From S2P Require Import Prelude.
From S2P Require Import Database.
Import GoTime GoError.

Set Default Proof Using "Type".

(** ** The work queue *)

(** [dirty] holds only the value true, so it is a set; [notify] is the
    one-slot channel, full or empty. *)
Record workQueue := { wq_dirty : gset string; wq_notify : bool }.

Definition newWorkQueue : workQueue := {| wq_dirty := ∅; wq_notify := false |}.

Definition Enqueue (name : string) (wq : workQueue) : workQueue :=
  if decide (name ∈ wq_dirty wq) then wq
  else {| wq_dirty := {[name]} ∪ wq_dirty wq; wq_notify := true |}.

Definition Len (wq : workQueue) : nat := size (wq_dirty wq).

(** What [Get] does under the lock once it has taken the signal, when the map
    iteration hands it [pick]; [None] stands for an iteration over an empty map.
    The empty name is taken for a spurious wake-up. *)
Definition get_locked (pick : option string) (wq : workQueue) : option string * workQueue :=
  match pick with
  | None => (None, wq)
  | Some name =>
      if decide (name = EmptyString) then (None, wq)
      else let rest := wq_dirty wq ∖ {[name]} in
           (Some name, {| wq_dirty := rest; wq_notify := wq_notify wq || bool_decide (rest ≠ ∅) |})
  end.

(** What the iteration may hand out. *)
Definition may_pick (pick : option string) (wq : workQueue) : Prop :=
  match pick with None => wq_dirty wq = ∅ | Some name => name ∈ wq_dirty wq end.

(** ** The manager *)

(** controller.Result. *)
Record Result := { Requeue : bool }.
Definition done_ : Result := {| Requeue := false |}.
Definition requeue : Result := {| Requeue := true |}.

Definition defaultWorkers : Z := 1.
Definition defaultRequeueAfter : Duration := (10 * Second)%Z.
Definition defaultErrorBackoff : Duration := (5 * Second)%Z.

Record managerOptions := { mo_requeueAfter : Duration; mo_errorBackoff : Duration }.
Definition WithRequeueAfter (d : Duration) (o : managerOptions) : managerOptions :=
  {| mo_requeueAfter := d; mo_errorBackoff := mo_errorBackoff o |}.
Definition WithErrorBackoff (d : Duration) (o : managerOptions) : managerOptions :=
  {| mo_requeueAfter := mo_requeueAfter o; mo_errorBackoff := d |}.
Definition applyManagerOptions (opts : list (managerOptions → managerOptions)) : managerOptions :=
  foldl (λ o fn, fn o)
    {| mo_requeueAfter := defaultRequeueAfter; mo_errorBackoff := defaultErrorBackoff |} opts.

Record registration := { reg_ctrl : string; reg_workers : Z }.
Record Manager := {
  m_registrations : list registration;
  m_requeueAfter : Duration;
  m_errorBackoff : Duration
}.
Definition NewManager (opts : list (managerOptions → managerOptions)) : Manager :=
  let o := applyManagerOptions opts in
  {| m_registrations := []; m_requeueAfter := mo_requeueAfter o; m_errorBackoff := mo_errorBackoff o |}.
Definition AddWithWorkers (ctrl : string) (workers : Z) (m : Manager) : Manager :=
  let workers := if decide (workers < 1)%Z then defaultWorkers else workers in
  {| m_registrations := m_registrations m ++ [{| reg_ctrl := ctrl; reg_workers := workers |}];
     m_requeueAfter := m_requeueAfter m; m_errorBackoff := m_errorBackoff m |}.
Definition Add (ctrl : string) : Manager → Manager := AddWithWorkers ctrl defaultWorkers.

(** What [runWorker] does with the answer of [Reconcile]: leave the loop, wait
    and put the name back, or nothing. *)
Inductive aftermath := Leave | EnqueueAfter (d : Duration) | Finished.
Definition after_reconcile (m : Manager) (res : result Result) : aftermath :=
  match res with
  | Err e => if Is e ContextCanceled || Is e DeadlineExceeded then Leave
             else EnqueueAfter (m_errorBackoff m)
  | Ok r => if Requeue r then EnqueueAfter (m_requeueAfter m) else Finished
  end.

(** ** One controller at work *)

(** A worker is in the [select] of [Get], has taken the signal and not yet the
    lock, is inside [Reconcile], or has returned. *)
Inductive worker := Waiting | Signalled | Running (name : string) | Stopped.
#[export] Instance worker_eq_dec : EqDecision worker.
Proof. solve_decision. Defined.

(** [po_timers] are the goroutines waiting to put a name back. *)
Record pool := {
  po_queue : workQueue;
  po_workers : list worker;
  po_timers : list (string * Duration);
  po_cancelled : bool
}.

Definition with_worker (i : nat) (w : worker) (c : pool) : pool :=
  {| po_queue := po_queue c; po_workers := <[i := w]> (po_workers c);
     po_timers := po_timers c; po_cancelled := po_cancelled c |}.
Definition with_queue (wq : workQueue) (c : pool) : pool :=
  {| po_queue := wq; po_workers := po_workers c;
     po_timers := po_timers c; po_cancelled := po_cancelled c |}.
Definition with_timers (ts : list (string * Duration)) (c : pool) : pool :=
  {| po_queue := po_queue c; po_workers := po_workers c;
     po_timers := ts; po_cancelled := po_cancelled c |}.
Definition cancel (c : pool) : pool :=
  {| po_queue := po_queue c; po_workers := po_workers c;
     po_timers := po_timers c; po_cancelled := true |}.

Definition drain_notify (wq : workQueue) : workQueue :=
  {| wq_dirty := wq_dirty wq; wq_notify := false |}.

(** The worker after [Reconcile] answered [res] for [name]. *)
Definition finish (m : Manager) (i : nat) (name : string) (res : result Result) (c : pool) : pool :=
  match after_reconcile m res with
  | Leave => with_worker i Stopped c
  | EnqueueAfter d => with_timers ((name, d) :: po_timers c) (with_worker i Waiting c)
  | Finished => with_worker i Waiting c
  end.

(** What a step of a worker shows: a name it starts to reconcile, if any. *)
Definition label := option string.

Inductive worker_step (m : Manager) (c : pool) : label → pool → Prop :=
| w_receive i :
    po_workers c !! i = Some Waiting → wq_notify (po_queue c) = true →
    worker_step m c None (with_worker i Signalled (with_queue (drain_notify (po_queue c)) c))
| w_cancelled i :
    po_workers c !! i = Some Waiting → po_cancelled c = true →
    worker_step m c None (with_worker i Stopped c)
| w_locked i pick got wq' :
    po_workers c !! i = Some Signalled → may_pick pick (po_queue c) →
    get_locked pick (po_queue c) = (got, wq') →
    worker_step m c got
      (with_worker i (match got with Some name => Running name | None => Waiting end) (with_queue wq' c))
| w_reconciled i name res :
    po_workers c !! i = Some (Running name) →
    worker_step m c None (finish m i name res c).

(** The steps of everyone else: seeds and event handlers that enqueue, timers
    that fire or are dropped, and the cancellation. What is enqueued is the name
    of a stored resource, which is never empty. *)
Inductive other_step (c : pool) : pool → Prop :=
| o_enqueue name : name ≠ EmptyString → other_step c (with_queue (Enqueue name (po_queue c)) c)
| o_timer ts1 name d ts2 :
    po_timers c = ts1 ++ (name, d) :: ts2 →
    other_step c (with_timers (ts1 ++ ts2) (with_queue (Enqueue name (po_queue c)) c))
| o_timer_dropped ts1 name d ts2 :
    po_timers c = ts1 ++ (name, d) :: ts2 → po_cancelled c = true →
    other_step c (with_timers (ts1 ++ ts2) c)
| o_cancel : other_step c (cancel c).

(** A registered controller as [Start] sets it going. *)
Definition start (reg : registration) : pool :=
  {| po_queue := newWorkQueue; po_workers := replicate (Z.to_nat (reg_workers reg)) Waiting;
     po_timers := []; po_cancelled := false |}.

Inductive reachable (m : Manager) (reg : registration) : pool → Prop :=
| r_start : reachable m reg (start reg)
| r_worker c l c' : reachable m reg c → worker_step m c l c' → reachable m reg c'
| r_other c c' : reachable m reg c → other_step c c' → reachable m reg c'.

(** A run of the workers alone, with the names they start on the way. *)
Inductive worker_run (m : Manager) : pool → list label → pool → Prop :=
| run_nil c : worker_run m c [] c
| run_cons c l c' ls c'' : worker_step m c l c' → worker_run m c' ls c'' →
    worker_run m c (l :: ls) c''.

(** ** The event bus *)

(** A subscriber's channel holds the events not yet received, oldest first. *)
Record BusEvent := { be_Topic : Topic; be_Name : string }.
Record Bus := { bus_subscribers : gmap Topic (list (list BusEvent)); bus_bufSize : nat }.

Definition NewBus (bufSize : nat) : Bus := {| bus_subscribers := ∅; bus_bufSize := bufSize |}.

Definition subscribers (topic : Topic) (b : Bus) : list (list BusEvent) :=
  default [] (bus_subscribers b !! topic).

Definition Subscribe (topic : Topic) (b : Bus) : Bus :=
  {| bus_subscribers := <[topic := subscribers topic b ++ [[]]]> (bus_subscribers b);
     bus_bufSize := bus_bufSize b |}.

(** The [select] with a default: a full channel drops the event. *)
Definition offer (bufSize : nat) (e : BusEvent) (ch : list BusEvent) : list BusEvent :=
  if decide (length ch < bufSize) then ch ++ [e] else ch.

(** Nothing changes for a topic nobody subscribed to: the map entry of an absent
    topic reads as no subscriber. *)
Definition bus_Publish (topic : Topic) (name : string) (b : Bus) : Bus :=
  {| bus_subscribers :=
       alter (fmap (offer (bus_bufSize b) {| be_Topic := topic; be_Name := name |})) topic
         (bus_subscribers b);
     bus_bufSize := bus_bufSize b |}.

(** The receive of the [i]-th subscriber of [topic]. *)
Definition receive (topic : Topic) (i : nat) (b : Bus) : option (BusEvent * Bus) :=
  match subscribers topic b !! i with
  | Some (e :: rest) =>
      Some (e, {| bus_subscribers := <[topic := <[i := rest]> (subscribers topic b)]> (bus_subscribers b);
                  bus_bufSize := bus_bufSize b |})
  | _ => None
  end.

(** ** Lemmas *)

Lemma Enqueue_dirty name wq x :
  x ∈ wq_dirty (Enqueue name wq) ↔ x = name ∨ x ∈ wq_dirty wq.
Proof. unfold Enqueue. case_decide; simpl; set_solver. Qed.

Lemma Enqueue_notify name wq :
  wq_notify (Enqueue name wq) = true ∨ Enqueue name wq = wq ∧ name ∈ wq_dirty wq.
Proof. unfold Enqueue. case_decide; auto. Qed.

(** Nobody sleeps through a signal: while a name waits, the channel is full or a
    worker that took the signal is on its way to the lock. *)
Definition signal_pending (c : pool) : Prop :=
  wq_dirty (po_queue c) ≠ ∅ →
  wq_notify (po_queue c) = true ∨ ∃ i, po_workers c !! i = Some Signalled.

Record pool_ok (c : pool) : Prop := {
  pk_signal : signal_pending c;
  pk_named : EmptyString ∉ wq_dirty (po_queue c);
  pk_running : ∀ i name, po_workers c !! i = Some (Running name) → name ≠ EmptyString;
  pk_timers : ∀ name d, (name, d) ∈ po_timers c → name ≠ EmptyString
}.

(** The other workers are where they were. *)
Lemma with_worker_lookup i j w c w' :
  po_workers (with_worker i w c) !! j = Some w' → (j = i ∧ w' = w) ∨ po_workers c !! j = Some w'.
Proof.
  simpl. intros H. destruct (decide (i = j)) as [<-|Hne].
  - apply list_lookup_insert_Some in H. naive_solver.
  - rewrite list_lookup_insert_ne in H by done. by right.
Qed.

Lemma with_worker_same i w c w0 :
  po_workers c !! i = Some w0 → po_workers (with_worker i w c) !! i = Some w.
Proof. intros H. simpl. apply list_lookup_insert_eq. by eapply lookup_lt_Some. Qed.

Lemma get_locked_spec pick wq got wq' :
  may_pick pick wq → EmptyString ∉ wq_dirty wq → get_locked pick wq = (got, wq') →
  match got with
  | None => pick = None ∧ wq_dirty wq = ∅ ∧ wq' = wq
  | Some name => name ∈ wq_dirty wq ∧ wq_dirty wq' = wq_dirty wq ∖ {[name]} ∧
                 (wq_dirty wq' ≠ ∅ → wq_notify wq' = true) ∧ (wq_notify wq = true → wq_notify wq' = true)
  end.
Proof.
  intros Hp Hne. destruct pick as [name|]; simpl in *; [|by intros [= <- <-]].
  case_decide as He; [subst; done|]. intros [= <- <-]. split_and!; try done; simpl.
  - intros Hn. rewrite bool_decide_eq_true_2 by done. apply orb_true_r.
  - by intros ->.
Qed.

Lemma finish_workers m i name res c :
  ∃ w, (w = Waiting ∨ w = Stopped) ∧ po_workers (finish m i name res c) = <[i := w]> (po_workers c) ∧
       po_queue (finish m i name res c) = po_queue c.
Proof.
  unfold finish. destruct (after_reconcile m res); [exists Stopped|exists Waiting..]; auto.
Qed.

Lemma worker_step_ok m c l c' : pool_ok c → worker_step m c l c' → pool_ok c'.
Proof.
  intros [Hs Hn Hr Ht] Hstep. destruct Hstep as [i Hi Hf|i Hi Hc|i pick got wq' Hi Hp Hg|i name res Hi].
  - split; [| |intros j nm [[-> ?]|?]%with_worker_lookup; [done|by eapply Hr]|]; [|done..].
    intros _. right. exists i. by eapply with_worker_same.
  - split; [|done|intros j nm [[-> ?]|?]%with_worker_lookup; [done|by eapply Hr]|done].
    intros Hd. destruct (Hs Hd) as [?|(j & Hj)]; [by left|]. right. exists j. simpl.
    rewrite list_lookup_insert_ne; [done|]. intros ->. congruence.
  - pose proof (get_locked_spec _ _ _ _ Hp Hn Hg) as Hspec. destruct got as [name|].
    + destruct Hspec as (Hin & Hd' & Hnot & _). split; simpl.
      * intros Hd. left. by apply Hnot.
      * rewrite Hd'. set_solver.
      * intros j nm [[-> [= <-]]|?]%with_worker_lookup; [set_solver|by eapply Hr].
      * done.
    + destruct Hspec as (_ & Hd & ->). split; simpl; [by intros ?| |
        intros j nm [[-> ?]|?]%with_worker_lookup; [done|by eapply Hr]|done].
      by rewrite Hd.
  - destruct (finish_workers m i name res c) as (w & Hw & Hws & Hq).
    assert (w ≠ Signalled ∧ ∀ nm, w ≠ Running nm) as [Hw1 Hw2] by (destruct Hw; by subst).
    split; rewrite ?Hq.
    + intros Hd. rewrite Hq in Hd |- *. destruct (Hs Hd) as [?|(j & Hj)]; [by left|]. right. exists j.
      rewrite Hws, list_lookup_insert_ne; [done|]. intros ->. congruence.
    + done.
    + intros j nm Hj. rewrite Hws in Hj.
      destruct (with_worker_lookup i j w c _ Hj) as [[-> ?]|?]; [by edestruct Hw2|by eapply Hr].
    + unfold finish. destruct (after_reconcile m res) as [|d|]; [done| |done].
      intros nm d' [[= -> ->]|?]%elem_of_cons; [by eapply Hr|by eapply Ht].
Qed.

Lemma other_step_ok c c' : pool_ok c → other_step c c' → pool_ok c'.
Proof.
  intros [Hs Hn Hr Ht] Hstep.
  assert (∀ name, name ≠ EmptyString → pool_ok (with_queue (Enqueue name (po_queue c)) c)) as Henq.
  { intros name Hne. split; simpl; try done.
    - intros Hd. destruct (Enqueue_notify name (po_queue c)) as [?|[Heq Hin]]; [by left|].
      simpl in *. rewrite Heq in Hd |- *. by apply Hs.
    - rewrite Enqueue_dirty. naive_solver. }
  destruct Hstep as [name Hne|ts1 name d ts2 Hts|ts1 name d ts2 Hts Hc|].
  - by apply Henq.
  - assert (name ≠ EmptyString) as Hne by (apply (Ht name d); rewrite Hts; set_solver).
    destruct (Henq name Hne) as [? ? ? ?]. split; try done. simpl. intros nm d' Hin.
    apply (Ht nm d'). rewrite Hts. set_solver.
  - split; try done. simpl. intros nm d' Hin. apply (Ht nm d'). rewrite Hts. set_solver.
  - by split.
Qed.

Lemma start_ok reg : pool_ok (start reg).
Proof.
  split; simpl; [by intros ?|set_solver| |set_solver].
  intros i name Hi. apply lookup_replicate in Hi as [? _]. done.
Qed.

Lemma reachable_ok m reg c : reachable m reg c → pool_ok c.
Proof. induction 1; eauto using start_ok, worker_step_ok, other_step_ok. Qed.

(** ** Progress *)

Definition worker_weight (w : worker) : nat :=
  match w with Stopped => 0 | Waiting => 1 | Signalled => 2 | Running _ => 2 end.

(** How many steps the workers can make before somebody enqueues again. *)
Definition work_left (c : pool) : nat :=
  3 * size (wq_dirty (po_queue c)) + (if wq_notify (po_queue c) then 2 else 0) +
  sum_list_with worker_weight (po_workers c).

Lemma with_worker_weight i w0 w c :
  po_workers c !! i = Some w0 →
  sum_list_with worker_weight (po_workers (with_worker i w c)) + worker_weight w0 =
  sum_list_with worker_weight (po_workers c) + worker_weight w.
Proof.
  simpl. revert i. induction (po_workers c) as [|x xs IH]; intros [|i] H; simplify_eq/=.
  - lia.
  - specialize (IH i H). lia.
Qed.

Lemma worker_step_decreases m c l c' : pool_ok c → worker_step m c l c' → work_left c' < work_left c.
Proof.
  intros Hok Hstep. unfold work_left.
  destruct Hstep as [i Hi Hf|i Hi Hc|i pick got wq' Hi Hp Hg|i name res Hi].
  - pose proof (with_worker_weight i _ Signalled (with_queue (drain_notify (po_queue c)) c) Hi) as Hw.
    simpl in *. rewrite Hf. lia.
  - pose proof (with_worker_weight i _ Stopped c Hi) as Hw. simpl in *. lia.
  - pose proof (get_locked_spec _ _ _ _ Hp (pk_named _ Hok) Hg) as Hspec.
    pose proof (λ w, with_worker_weight i _ w (with_queue wq' c) Hi) as Hw. destruct got as [name|].
    + destruct Hspec as (Hin & Hd' & _). specialize (Hw (Running name)). simpl in *.
      assert (size (wq_dirty wq') < size (wq_dirty (po_queue c)))
        by (rewrite Hd'; apply subset_size; set_solver).
      destruct (wq_notify wq'), (wq_notify (po_queue c)); lia.
    + destruct Hspec as (_ & _ & ->). specialize (Hw Waiting). simpl in *. lia.
  - destruct (finish_workers m i name res c) as (w & Hww & Hws & Hq). rewrite Hq, Hws.
    pose proof (with_worker_weight i _ w c Hi) as Hw. simpl in *. destruct Hww; subst; simpl in *; lia.
Qed.

(** No worker can move. *)
Definition quiescent (m : Manager) (c : pool) : Prop := ∀ l c', ¬ worker_step m c l c'.

Lemma quiescent_workers m c i w :
  quiescent m c → po_workers c !! i = Some w →
  w = Stopped ∨ (w = Waiting ∧ wq_notify (po_queue c) = false).
Proof.
  intros Hq Hi. destruct w as [| |name|]; [right; split; [done|]| | |by left].
  - destruct (wq_notify (po_queue c)) eqn:E; [|done]. exfalso. eapply Hq. by apply (w_receive m c i).
  - exfalso. destruct (set_choose_or_empty (wq_dirty (po_queue c))) as [[x Hx]|He].
    + destruct (get_locked (Some x) (po_queue c)) as [got wq'] eqn:E.
      eapply Hq. by apply (w_locked m c i (Some x) got wq').
    + eapply Hq. apply (w_locked m c i None None (po_queue c) Hi); [|done]. simpl. by apply leibniz_equiv.
  - exfalso. eapply Hq. by apply (w_reconciled m c i name (Ok done_)).
Qed.

(** A name that waits goes on waiting until a worker starts on it. *)
Lemma waiting_step m c l c' x :
  pool_ok c → worker_step m c l c' → x ∈ wq_dirty (po_queue c) →
  x ∈ wq_dirty (po_queue c') ∨ l = Some x.
Proof.
  intros Hok Hstep Hx. destruct Hstep as [i Hi Hf|i Hi Hc|i pick got wq' Hi Hp Hg|i name res Hi]; try by left.
  - pose proof (get_locked_spec _ _ _ _ Hp (pk_named _ Hok) Hg) as Hspec. simpl.
    destruct got as [name|]; [|by destruct Hspec as (_ & _ & ->); left].
    destruct Hspec as (_ & -> & _). destruct (decide (x = name)) as [->|Hne]; [by right|].
    left. set_solver.
  - destruct (finish_workers m i name res c) as (w & _ & _ & ->). by left.
Qed.

Lemma worker_run_ok m c ls c' :
  pool_ok c → worker_run m c ls c' →
  pool_ok c' ∧ length ls + work_left c' ≤ work_left c ∧
  ∀ x, x ∈ wq_dirty (po_queue c) → x ∈ wq_dirty (po_queue c') ∨ Some x ∈ ls.
Proof.
  intros Hok Hrun. induction Hrun as [c|c l c' ls c'' Hstep Hrun IH]; [simpl; auto|].
  destruct (IH (worker_step_ok _ _ _ _ Hok Hstep)) as (? & ? & Hx).
  pose proof (worker_step_decreases _ _ _ _ Hok Hstep). split_and!; [done|simpl; lia|].
  intros x Hin. destruct (waiting_step _ _ _ _ _ Hok Hstep Hin) as [Hw| ->].
  - destruct (Hx x Hw); [by left|right; by apply elem_of_cons; right].
  - right. by apply elem_of_cons; left.
Qed.

(** Whether a worker can move. *)
Definition can_move (c : pool) (w : worker) : bool :=
  match w with
  | Waiting => wq_notify (po_queue c) || po_cancelled c
  | Signalled | Running _ => true
  | Stopped => false
  end.

Lemma quiescent_or_step m c :
  (∃ l c', worker_step m c l c') ∨ quiescent m c.
Proof.
  destruct (decide (Exists (λ w, can_move c w = true) (po_workers c))) as [He|Hne].
  - left. apply Exists_exists in He as (w & (i & Hi)%list_elem_of_lookup & Hw).
    destruct w as [| |name|]; simpl in Hw; [apply orb_true_iff in Hw as [?|?]| | |done].
    + eexists _, _. by apply (w_receive m c i).
    + eexists _, _. by apply (w_cancelled m c i).
    + destruct (set_choose_or_empty (wq_dirty (po_queue c))) as [[x Hx]|Hd].
      * destruct (get_locked (Some x) (po_queue c)) as [got wq'] eqn:E.
        eexists _, _. by apply (w_locked m c i (Some x) got wq').
      * eexists _, _. apply (w_locked m c i None None (po_queue c) Hi); [|done]. simpl. by apply leibniz_equiv.
    + eexists _, _. by apply (w_reconciled m c i name (Ok done_)).
  - right. intros l c' Hstep. apply Hne. apply Exists_exists.
    destruct Hstep as [i Hi Hf|i Hi Hc|i pick got wq' Hi Hp Hg|i name res Hi];
      eexists; (split; [by eapply list_elem_of_lookup_2|]); simpl; rewrite ?Hf, ?Hc; auto using orb_true_r.
Qed.

(** Left alone, the workers come to rest. *)
Lemma runs_to_rest m c : pool_ok c → ∃ ls c', worker_run m c ls c' ∧ quiescent m c'.
Proof.
  remember (work_left c) as n eqn:Hn. revert c Hn.
  induction (lt_wf n) as [n _ IH]. intros c -> Hok.
  destruct (quiescent_or_step m c) as [(l & c1 & Hs)|Hq]; [|exists [], c; split; [constructor|done]].
  destruct (IH _ (worker_step_decreases _ _ _ _ Hok Hs) c1 eq_refl (worker_step_ok _ _ _ _ Hok Hs))
    as (ls & c' & Hrun & Hq).
  exists (l :: ls), c'. split; [by econstructor|done].
Qed.

(** ** Properties *)

(** C36 (manager.go, runWorker; workqueue.go, Enqueue and Get): no enqueued name
    is lost and no wake-up is missed. From any state a controller can reach, with
    any number of workers and whatever has been enqueued, reconciled, retried or
    cancelled before, the workers can make only so many steps before they have
    nothing left to do; they do come to rest; and when they have and one of them has
    not returned, no name waits: each name that waited has been handed to
    Reconcile. *)
Theorem waiting_names_are_reconciled (m : Manager) (reg : registration) (c c' : pool) (ls : list label)
    (Hreach : reachable m reg c) (Hrun : worker_run m c ls c') :
  length ls ≤ work_left c ∧
  (∃ ls2 c2, worker_run m c' ls2 c2 ∧ quiescent m c2) ∧
  (quiescent m c' → (∃ i w, po_workers c' !! i = Some w ∧ w ≠ Stopped) →
   wq_dirty (po_queue c') = ∅ ∧ ∀ name, name ∈ wq_dirty (po_queue c) → Some name ∈ ls).
Proof.
  destruct (worker_run_ok m c ls c' (reachable_ok _ _ _ Hreach) Hrun) as (Hok & Hlen & Hx).
  split; [lia|]. split; [by apply runs_to_rest|]. intros Hq (i & w & Hi & Hw).
  assert (wq_notify (po_queue c') = false) as Hf
    by (destruct (quiescent_workers _ _ _ _ Hq Hi) as [?|[_ ?]]; done).
  assert (wq_dirty (po_queue c') = ∅) as He.
  { destruct (decide (wq_dirty (po_queue c') = ∅)) as [|Hd]; [done|exfalso].
    destruct (pk_signal _ Hok Hd) as [?|(j & Hj)]; [congruence|].
    destruct (quiescent_workers _ _ _ _ Hq Hj) as [?|[? _]]; done. }
  split; [done|]. intros name Hin. destruct (Hx name Hin) as [H|H]; [|done].
  rewrite He in H. set_solver.
Qed.

(** A controller with one worker, and one with two. *)
Definition example_manager : Manager := Add "node-health" (NewManager []).
Definition example_registration : registration := {| reg_ctrl := "node-health"; reg_workers := 1 |}.
Definition two_workers : registration := {| reg_ctrl := "node-health"; reg_workers := 2 |}.

(** One worker, with [q] as its queue. *)
Definition one (q : workQueue) (w : worker) : pool :=
  {| po_queue := q; po_workers := [w]; po_timers := []; po_cancelled := false |}.

Definition queue_of (names : list string) (notify : bool) : workQueue :=
  {| wq_dirty := list_to_set names; wq_notify := notify |}.

Lemma waiting_names_are_reconciled_witness :
  ∃ c c' ls, reachable example_manager example_registration c ∧
    worker_run example_manager c ls c' ∧ wq_dirty (po_queue c) = {["a"]} ∧ Some "a" ∈ ls ∧
    wq_dirty (po_queue c') = ∅.
Proof.
  set (c := one (queue_of ["a"] true) Waiting).
  set (c' := one (queue_of [] false) Waiting).
  assert (reachable example_manager example_registration c) as Hr.
  { assert (c = with_queue (Enqueue "a" newWorkQueue) (start example_registration)) as ->
      by (vm_compute; reflexivity).
    apply (r_other _ _ _ _ (r_start _ _)). by apply (o_enqueue (start example_registration) "a"). }
  assert (worker_run example_manager c [None; Some "a"; None] c') as Hrun.
  { set (c1 := one (queue_of ["a"] false) Signalled).
    set (c2 := one (queue_of [] false) (Running "a")).
    apply (run_cons _ c None c1); [exact (w_receive _ c 0 eq_refl eq_refl)|].
    apply (run_cons _ c1 (Some "a") c2).
    { apply (w_locked _ c1 0 (Some "a") (Some "a") (queue_of [] false)); [done| |vm_compute; reflexivity].
      vm_compute. reflexivity. }
    apply (run_cons _ c2 None c'); [exact (w_reconciled _ c2 0 "a" (Ok done_) eq_refl)|constructor]. }
  exists c, c', [None; Some "a"; None]. split; [done|]. split; [done|]. split; [vm_compute; reflexivity|].
  destruct (waiting_names_are_reconciled _ _ c c' _ Hr Hrun) as (_ & _ & Hq).
  destruct Hq as [He Hn].
  - intros l c2 Hs. inversion Hs as [i Hi Hf|i Hi Hc|i pick got wq' Hi Hp Hg|i nm res Hi];
      try (simpl in *; congruence); destruct i as [|[|i]]; simpl in Hi; simplify_eq.
  - exists 0, Waiting. done.
  - split; [apply Hn; vm_compute; set_solver|done].
Defined.

(** ** What the comments promise and the code does not *)

(** A worker takes a waiting name: the signal, then the lock. *)
Lemma take m reg c i name :
  reachable m reg c → po_workers c !! i = Some Waiting → wq_notify (po_queue c) = true →
  wq_dirty (po_queue c) = {[name]} → name ≠ EmptyString →
  reachable m reg (with_worker i (Running name) (with_queue newWorkQueue c)).
Proof.
  intros Hr Hi Hn Hd Hne.
  assert (po_workers (with_worker i Signalled (with_queue (drain_notify (po_queue c)) c)) !! i = Some Signalled)
    as Hi2 by (by eapply (with_worker_same i Signalled (with_queue (drain_notify (po_queue c)) c))).
  pose proof (r_worker _ _ _ _ _ Hr (w_receive m c i Hi Hn)) as Hr1.
  pose proof (w_locked m _ i (Some name) (Some name) newWorkQueue Hi2) as Hs.
  assert (with_worker i (Running name) (with_queue newWorkQueue c) =
          with_worker i (Running name) (with_queue newWorkQueue
            (with_worker i Signalled (with_queue (drain_notify (po_queue c)) c)))) as ->.
  { unfold with_worker, with_queue. simpl. by rewrite list_insert_insert_eq. }
  eapply r_worker; [exact Hr1|]. apply Hs.
  - simpl. rewrite Hd. set_solver.
  - unfold get_locked. rewrite decide_False by done. unfold newWorkQueue. simpl. rewrite Hd.
    assert ({[name]} ∖ {[name]} = (∅ : gset string)) as -> by set_solver. done.
Qed.

(** The Controller interface says that the manager never reconciles a key twice at
    the same time. The queue forgets a name when it hands it out, so with two
    workers a name that is enqueued again meanwhile is handed to the second. *)
Lemma same_key_twice :
  ∃ c, reachable example_manager two_workers c ∧
       po_workers c = [Running "a"; Running "a"].
Proof.
  set (e1 := with_queue (Enqueue "a" newWorkQueue) (start two_workers)).
  assert (reachable example_manager two_workers e1) as H1
    by (apply (r_other _ _ _ _ (r_start _ _)), (o_enqueue (start two_workers) "a"); done).
  pose proof (take _ _ e1 0 "a" H1 eq_refl eq_refl ltac:(vm_compute; reflexivity) ltac:(done)) as H2.
  pose proof (r_other _ _ _ _ H2 (o_enqueue _ "a" ltac:(done))) as H3.
  pose proof (take _ _ _ 1 "a" H3 eq_refl ltac:(vm_compute; reflexivity) ltac:(vm_compute; reflexivity)
                ltac:(done)) as H4.
  eexists. split; [exact H4|]. reflexivity.
Qed.

(** runWorker takes any deadline error for its own context having ended. When the
    database answers with one, the worker returns although nobody cancelled it,
    the name it worked on is not put back, and nothing starts it again: names that
    wait are not reconciled any more. *)
Lemma deadline_stops_controller (e : error) (He : Is e DeadlineExceeded = true) :
  ∃ c, reachable example_manager example_registration c ∧
       po_cancelled c = false ∧ po_workers c = [Stopped] ∧ po_timers c = [] ∧
       wq_dirty (po_queue c) = {["b"]}.
Proof.
  set (e1 := with_queue (Enqueue "a" newWorkQueue) (start example_registration)).
  assert (reachable example_manager example_registration e1) as H1
    by (apply (r_other _ _ _ _ (r_start _ _)), (o_enqueue (start example_registration) "a"); done).
  pose proof (take _ _ e1 0 "a" H1 eq_refl eq_refl ltac:(vm_compute; reflexivity) ltac:(done)) as H2.
  set (e2 := with_worker 0 (Running "a") (with_queue newWorkQueue e1)).
  pose proof (r_worker _ _ _ _ _ H2 (w_reconciled _ e2 0 "a" (Err e) eq_refl)) as H3.
  unfold finish, after_reconcile in H3. rewrite He, orb_true_r in H3.
  pose proof (r_other _ _ _ _ H3 (o_enqueue _ "b" ltac:(done))) as H4.
  eexists. split; [exact H4|]. split_and!; vm_compute; reflexivity.
Qed.

(** One worker reconciles one name at a time. *)
Lemma single_worker m reg c :
  reg_workers reg = 1%Z → reachable m reg c → length (po_workers c) = 1.
Proof.
  intros Hreg. induction 1 as [|c l c' Hr IH Hs|c c' Hr IH Hs].
  - simpl. by rewrite Hreg.
  - destruct Hs as [| | |i name res Hi]; simpl; rewrite ?length_insert; try done.
    destruct (finish_workers m i name res c) as (w & _ & -> & _). by rewrite length_insert.
  - by destruct Hs.
Qed.

(** Every registered controller has at least one worker. *)
Lemma AddWithWorkers_workers ctrl n m :
  Forall (λ reg, (1 ≤ reg_workers reg)%Z) (m_registrations m) →
  Forall (λ reg, (1 ≤ reg_workers reg)%Z) (m_registrations (AddWithWorkers ctrl n m)).
Proof.
  intros H. simpl. apply Forall_app. split; [done|]. constructor; [|done]. simpl.
  unfold defaultWorkers. case_decide; lia.
Qed.

(** ** The bus *)

(** A published event reaches each subscriber of its topic with room for it,
    behind the events it has not read yet, and nobody else. *)
Lemma bus_Publish_spec topic name b topic' :
  subscribers topic' (bus_Publish topic name b) =
  (if decide (topic' = topic)
   then offer (bus_bufSize b) {| be_Topic := topic; be_Name := name |} <$> subscribers topic b
   else subscribers topic' b).
Proof.
  unfold subscribers, bus_Publish. simpl. case_decide as Ht.
  - subst. rewrite lookup_alter_eq. by destruct (bus_subscribers b !! topic).
  - by rewrite lookup_alter_ne.
Qed.

(** No channel ever holds more than its buffer. *)
Lemma bus_Publish_bounded topic name b :
  (∀ t, Forall (λ ch, length ch ≤ bus_bufSize b) (subscribers t b)) →
  ∀ t, Forall (λ ch, length ch ≤ bus_bufSize b) (subscribers t (bus_Publish topic name b)).
Proof.
  intros H t. rewrite bus_Publish_spec. case_decide; [|apply H].
  apply Forall_fmap. eapply Forall_impl; [apply H|]. intros ch Hch. simpl. unfold offer.
  case_decide; [|done]. rewrite length_app. simpl. lia.
Qed.
