(* ===== verification/Recovery.v ===== *)
(** The controllers that follow Nodes and Projects through failures
    (internal/server/controller: node_health.go, project_rescheduler.go,
    failed_project_rescheduler.go, project_termination.go, clock.go). Each
    [Reconcile] is the program of the store calls it makes; each [resync] the
    names its seed enqueues on a tick. *)
From Stdlib Require Import ZArith Lia.
From stdpp Require Import prelude gmap strings.
From S2P Require Import Prelude.
From S2P Require Import Conditions.
From S2P Require Import ProjectTypes.
From S2P Require Import Lifecycle.
From S2P Require Import NodeTypes.
From S2P Require Import Database.
From S2P Require Import Evolution.
From S2P Require Import StatusStore.
From S2P Require Import Legality.
From S2P Require Import ProjectStore.
From S2P Require Import NodeStore.
From S2P Require Import Adapter.
From S2P Require Import Manager.
Import GoTime GoInt GoString GoError.
Open Scope go_scope.

Set Default Proof Using "Type".

(** ** Options (clock.go) *)

Record options := {
  o_seedInterval : Duration;
  o_terminatingTimeout : Duration;
  o_runningGracePeriod : Duration
}.
Definition WithSeedInterval (d : Duration) (o : options) : options :=
  {| o_seedInterval := d; o_terminatingTimeout := o_terminatingTimeout o;
     o_runningGracePeriod := o_runningGracePeriod o |}.
Definition WithTerminatingTimeout (d : Duration) (o : options) : options :=
  {| o_seedInterval := o_seedInterval o; o_terminatingTimeout := d;
     o_runningGracePeriod := o_runningGracePeriod o |}.
Definition WithRunningGracePeriod (d : Duration) (o : options) : options :=
  {| o_seedInterval := o_seedInterval o; o_terminatingTimeout := o_terminatingTimeout o;
     o_runningGracePeriod := d |}.
Definition applyOptions (opts : list (options → options)) : options :=
  foldl (λ o fn, fn o)
    {| o_seedInterval := 0; o_terminatingTimeout := 0; o_runningGracePeriod := 0 |}%Z opts.

(** [c.clock.Since(t)]. *)
Definition since (t : Time) : prog Duration := now_ ≫= λ now, Ret (Sub now t).

(** [if err != nil { if errors.Is(err, ...) { return ok }; return err }]. *)
Definition unless {A} (skips : list sentinel) (ok : A) (e : error) : prog (result A) :=
  Ret (if existsb (Is e) skips then Ok ok else Err e).

(** ** Node health (node_health.go) *)

Definition NodeHeartbeatTimeout : Duration := (90 * Second)%Z.

Definition node_health_Reconcile (name : string) : prog (result Result) :=
  GetNodeStatus name ≫= λ res,
  match res with
  | Err e => unless [ErrNotFound] done_ e
  | Ok snap =>
      since (nss_LastHeartbeat snap) ≫= λ age,
      if decide (nss_State snap = NodeStateDraining) then Ret (Ok done_)
      else if decide (NodeHeartbeatTimeout < age ∧ nss_State snap ≠ NodeStateNotReady)%Z then
        _ ←? SetNodeState name NodeStateNotReady "HeartbeatTimeout"
               "Agent has not posted a heartbeat within the timeout window";
        Ret (Ok done_)
      else if decide (age ≤ NodeHeartbeatTimeout ∧ nss_State snap = NodeStateNotReady)%Z then
        _ ←? SetNodeState name NodeStateReady "AgentReady" "Agent is healthy and posting heartbeats";
        Ret (Ok done_)
      else Ret (Ok done_)
  end.

(** What a seed enqueues; a failed listing enqueues nothing. *)
Definition or_nothing (p : prog (result (list string))) : prog (list string) :=
  p ≫= λ res, Ret (match res with Ok names => names | Err _ => [] end).

Definition seedOnce : prog (list string) := or_nothing ListNodeNames.

(** ** Projects on a NotReady Node (project_rescheduler.go) *)

Definition terminatingTimeout : Duration := (10 * Minute)%Z.
Definition runningGracePeriod : Duration := (3 * Minute)%Z.

(** [rc_grace] is the graceExpiredRelease of the adapter behind the store. *)
Record Rescheduler := {
  rc_terminatingTimeout : Duration;
  rc_runningGrace : Duration;
  rc_grace : bool
}.
Definition NewProjectReschedulerController (grace : bool) (opts : list (options → options))
    : Rescheduler :=
  let o := applyOptions opts in
  {| rc_terminatingTimeout :=
       if decide (o_terminatingTimeout o ≤ 0)%Z then terminatingTimeout else o_terminatingTimeout o;
     rc_runningGrace :=
       if decide (o_runningGracePeriod o ≤ 0)%Z then runningGracePeriod else o_runningGracePeriod o;
     rc_grace := grace |}.

Definition hasRescheduleClock (p : ProjectSnapshot) : bool :=
  existsb (λ c, IsOutageCondition (cs_Type c)) (snap_Conditions p).

Definition incidentClock (conds : list ConditionSnapshot) (t : ConditionType) (lastHeartbeat : Time)
    : Time * bool :=
  match find_first (λ c, bool_decide (cs_Type c = t)) conds with
  | Some c => (cs_LastTransitionTime c, negb (Before (cs_LastTransitionTime c) lastHeartbeat))
  | None => (zero, false)
  end.

Fixpoint clear_each (nodeName : string) (notAfter : Time) (ps : list ProjectSnapshot)
    (firstErr : option error) : prog (result ()) :=
  match ps with
  | [] => Ret (match firstErr with Some e => Err e | None => Ok () end)
  | p :: rest =>
      if hasRescheduleClock p then
        ClearRescheduleClocks (snap_Name p) nodeName notAfter ≫= λ res,
        clear_each nodeName notAfter rest
          (match res with
           | Err e => if Is e ErrNotFound then firstErr else Some (default e firstErr)
           | Ok _ => firstErr
           end)
      else clear_each nodeName notAfter rest firstErr
  end.

Definition clearRescheduleClocks (nodeName : string) (notAfter : Time) : prog (result ()) :=
  projects ←? adapter_ListProjectsByNodeRef nodeName
    [ProjectPhaseScheduled; ProjectPhaseRunning; ProjectPhaseTerminating; ProjectPhaseFailed];
  clear_each nodeName notAfter projects None.

Definition rescheduler_release (c : Rescheduler) (p : ProjectSnapshot) : prog (result ()) :=
  ReleaseAssignment (rc_grace c) p ≫= λ res,
  match res with
  | Err e => unless [ErrNotFound; ErrStaleAssignment; ErrConflictState] () e
  | Ok _ => Ret (Ok ())
  end.

Definition handleTerminating (c : Rescheduler) (p : ProjectSnapshot) (lastHeartbeat : Time)
    : prog (result bool) :=
  let '(terminatingAt, running) :=
    incidentClock (snap_Conditions p) ConditionTypeTerminatingAt lastHeartbeat in
  if negb running then
    now_ ≫= λ now,
    SetTerminatingAt (snap_Name p) now ≫= λ res,
    match res with Err e => unless [ErrNotFound] false e | Ok _ => Ret (Ok true) end
  else
    since terminatingAt ≫= λ elapsed,
    if decide (elapsed < rc_terminatingTimeout c)%Z then Ret (Ok true)
    else if (incidentClock (snap_Conditions p) ConditionTypeTerminationBlocked lastHeartbeat).2
    then Ret (Ok false)
    else
      now_ ≫= λ now,
      SetTerminationBlocked (snap_Name p) (snap_NodeRef p) now ≫= λ res,
      match res with Err e => unless [ErrNotFound] false e | Ok _ => Ret (Ok false) end.

Definition handleRunning (c : Rescheduler) (p : ProjectSnapshot) (lastHeartbeat : Time)
    : prog (result bool) :=
  let '(notReadyAt, running) :=
    incidentClock (snap_Conditions p) ConditionTypeNotReadyAt lastHeartbeat in
  if negb running then
    now_ ≫= λ now,
    SetNotReadyAt (snap_Name p) now ≫= λ res,
    match res with Err e => unless [ErrNotFound] false e | Ok _ => Ret (Ok true) end
  else
    since notReadyAt ≫= λ elapsed,
    if decide (elapsed < rc_runningGrace c)%Z then Ret (Ok true)
    else _ ←? rescheduler_release c p; Ret (Ok false).

(** The body of the loop for one Project: whether it must be looked at again. *)
Definition reschedule_one (c : Rescheduler) (lastHeartbeat : Time) (p : ProjectSnapshot)
    : prog (result bool) :=
  if decide (snap_Phase p = ProjectPhaseScheduled) then _ ←? rescheduler_release c p; Ret (Ok false)
  else if decide (snap_Phase p = ProjectPhaseRunning) then handleRunning c p lastHeartbeat
  else if decide (snap_Phase p = ProjectPhaseTerminating) then handleTerminating c p lastHeartbeat
  else Ret (Ok false).

Fixpoint reschedule_each (c : Rescheduler) (lastHeartbeat : Time) (ps : list ProjectSnapshot)
    (requeueNeeded : bool) : prog (result Result) :=
  match ps with
  | [] => Ret (Ok (if requeueNeeded then requeue else done_))
  | p :: rest =>
      again ←? reschedule_one c lastHeartbeat p;
      reschedule_each c lastHeartbeat rest (again || requeueNeeded)
  end.

(** Without Projects the loop answers the same as the early return. *)
Definition rescheduler_Reconcile (c : Rescheduler) (name : string) : prog (result Result) :=
  GetNodeStatus name ≫= λ res,
  match res with
  | Err e => unless [ErrNotFound] done_ e
  | Ok snap =>
      if negb (bool_decide (nss_State snap = NodeStateNotReady)) then
        _ ←? clearRescheduleClocks name (nss_LastHeartbeat snap); Ret (Ok done_)
      else
        projects ←? adapter_ListProjectsByNodeRef name
          [ProjectPhaseScheduled; ProjectPhaseRunning; ProjectPhaseTerminating];
        reschedule_each c (nss_LastHeartbeat snap) projects false
  end.

Definition resyncNotReadyNodes : prog (list string) := or_nothing ListNotReadyNodeNames.

(** ** Failed Projects (failed_project_rescheduler.go) *)

Definition rescheduleBackoff : list Duration := [1 * Minute; 5 * Minute]%Z.
Definition maxReschedules : nat := length rescheduleBackoff.
Definition rescheduleStableAfter : Duration := (3 * Hour)%Z.
Definition rescheduleReasons : list string :=
  ["LocalRestartExhausted"; "ContainerRestartStuck"; "InspectError"; "ReconcileError";
   "ContainerExited"; "ContainerCrashed"].
Definition phaseReasonRunning : string := "ContainersRunning".

Definition phaseCondition (p : ProjectSnapshot) : option ConditionSnapshot :=
  find_first (λ c, bool_decide (cs_Type c = ConditionTypePhase)) (snap_Conditions p).

Definition hasCondition (p : ProjectSnapshot) (t : ConditionType) : bool :=
  existsb (λ c, bool_decide (cs_Type c = t)) (snap_Conditions p).

Definition raiseRescheduleExhaustedAlert (p : ProjectSnapshot) (reason : string) : prog (result ()) :=
  SetRescheduleExhausted (snap_Name p)
    ("Failed (" ++ reason ++ ") on every node it was tried on: "
     ++ Join (snap_FailedNodes p ++ [snap_NodeRef p])%list ", " ++ "; moved "
     ++ FormatInt (Z.of_nat maxReschedules) ++ " times, no moves left")%string ≫= λ res,
  match res with Err e => unless [ErrNotFound] () e | Ok _ => Ret (Ok ()) end.

Definition move_message (p : ProjectSnapshot) (reason : string) (spent : nat) : string :=
  ("Failed on node " ++ Quote (snap_NodeRef p) ++ " (" ++ reason ++ "); moved to a different node (move "
   ++ FormatInt (Z.of_nat (spent + 1)) ++ " of " ++ FormatInt (Z.of_nat maxReschedules) ++ ")")%string.

Definition reconcileFailed (p : ProjectSnapshot) : prog (result Result) :=
  match phaseCondition p with
  | None => Ret (Ok done_)
  | Some phase =>
      if negb (bool_decide (cs_Reason phase ∈ rescheduleReasons)) then Ret (Ok done_)
      else if decide (snap_NodeRef p = EmptyString) then Ret (Ok done_)
      else
        let spent := length (snap_FailedNodes p) in
        match rescheduleBackoff !! spent with
        | None =>
            if hasCondition p ConditionTypeRescheduleExhausted then Ret (Ok done_)
            else _ ←? raiseRescheduleExhaustedAlert p (cs_Reason phase); Ret (Ok done_)
        | Some wait =>
            since (cs_LastTransitionTime phase) ≫= λ failedFor,
            if decide (failedFor < wait)%Z then Ret (Ok requeue)
            else
              MoveFailedProject p (move_message p (cs_Reason phase) spent) ≫= λ res,
              match res with
              | Err e => unless [ErrNotFound; ErrStaleAssignment] done_ e
              | Ok _ => Ret (Ok done_)
              end
        end
  end.

Definition reconcileRunning (p : ProjectSnapshot) : prog (result ()) :=
  if decide (snap_FailedNodes p = []) then Ret (Ok ())
  else match phaseCondition p with
       | None => Ret (Ok ())
       | Some phase =>
           if negb (bool_decide (cs_Reason phase = phaseReasonRunning)) then Ret (Ok ())
           else
             since (cs_LastTransitionTime phase) ≫= λ runningFor,
             if decide (runningFor < rescheduleStableAfter)%Z then Ret (Ok ())
             else
               ClearFailedNodes (snap_Name p) ≫= λ res,
               match res with Err e => unless [ErrNotFound] () e | Ok _ => Ret (Ok ()) end
       end.

(** The switch of [Reconcile] over the phase of the snapshot. *)
Definition failed_one (p : ProjectSnapshot) : prog (result Result) :=
  if decide (snap_Phase p = ProjectPhaseFailed) then reconcileFailed p
  else if decide (snap_Phase p = ProjectPhaseRunning) then
    _ ←? reconcileRunning p; Ret (Ok done_)
  else Ret (Ok done_).

Definition failed_Reconcile (name : string) : prog (result Result) :=
  GetProjectSnapshot name ≫= λ res,
  match res with
  | Err e => unless [ErrNotFound] done_ e
  | Ok p => failed_one p
  end.

(** A listing that fails is skipped. *)
Definition failed_resync : prog (list string) :=
  or_nothing (ListProjectNamesByPhase ProjectPhaseFailed) ≫= λ failed,
  or_nothing (ListProjectNamesByPhase ProjectPhaseRunning) ≫= λ running,
  Ret (failed ++ running)%list.

(** ** Deletion (project_termination.go) *)

(** The ProjectStatus literal with a Phase and a NodeRef and nothing else. *)
Definition snapshot_status (p : ProjectSnapshot) : ProjectStatus :=
  {| st_Phase := snap_Phase p; st_NodeRef := snap_NodeRef p; st_AssignmentGeneration := 0;
     st_AssignmentHistory := EmptyString; st_FailedNodes := []; st_Conditions := [];
     st_ObservedSpecRevision := 0; st_Recovery := None; st_Backup := None |}.

Definition termination_Reconcile (name : string) : prog (result Result) :=
  GetProjectSnapshot name ≫= λ res,
  match res with
  | Err e => unless [ErrNotFound] done_ e
  | Ok p =>
      if negb (AwaitsFinalization (snapshot_status p)) then Ret (Ok done_)
      else
        adapter_FinalizeProject name (snap_UID p) ≫= λ res,
        match res with
        | Ok _ => Ret (Ok done_)
        | Err e =>
            if Is e ErrNotFound || Is e ErrStaleAssignment then Ret (Ok done_)
            else match AsFinalizationBlocked e with
                 | Some (_, reason) =>
                     SetFinalizationBlocked name (snap_UID p) reason ≫= λ res,
                     match res with
                     | Err e => unless [ErrNotFound; ErrStaleAssignment] done_ e
                     | Ok _ => Ret (Ok done_)
                     end
                 | None => Ret (Err e)
                 end
        end
  end.

(** A listing that fails ends the resync; what it listed before is enqueued. *)
Definition resyncTerminated : prog (list string) :=
  ListProjectNamesByPhase ProjectPhaseTerminated ≫= λ res,
  match res with
  | Err _ => Ret []
  | Ok terminated =>
      or_nothing (ListProjectNamesByPhase ProjectPhaseTerminating) ≫= λ terminating,
      Ret (terminated ++ terminating)%list
  end.

(** ** The contract *)

Section recovery_safe.
Context `{UUIDSource} (life : string * string → string).

(** What is known of a listing is known to the continuation. *)
Lemma safe_bind_with {A B} (P : A → Prop) (p : prog A) (k : A → prog B) :
  (∀ d h, db_inv d → wp (steady life) others_unforced p (λ a d' _, db_inv d' ∧ P a) d h) →
  (∀ a, P a → safe (steady life) (k a)) → safe (steady life) (p ≫= k).
Proof.
  intros Hp Hk d h Hinv. apply wp_bind. eapply wp_mono; [|by apply Hp].
  intros a d' h' [Hinv' HP]. by apply Hk.
Qed.

Lemma safe_unless {A} skips (ok : A) e : safe (steady life) (unless skips ok e).
Proof. apply safe_ret. Qed.

Lemma safe_since t : safe (steady life) (since t).
Proof. apply safe_bind; [apply safe_now; eauto with cara|]. intros now. apply safe_ret. Qed.

Lemma safe_getNode name : safe (steady life) (getNode name).
Proof. apply safe_bind; [apply safe_query; eauto with cara|]. intros a. apply safe_ret. Qed.

Lemma safe_GetNodeStatus name : safe (steady life) (GetNodeStatus name).
Proof. apply safe_try_bind; [apply safe_getNode|]. intros a. apply safe_ret. Qed.
End recovery_safe.

Ltac safe_steps :=
  repeat (match goal with
  | |- safe _ (match ?x with _ => _ end) => destruct x
  | |- safe _ (Ret _) => apply safe_ret
  | |- safe _ (unless _ _ _) => apply safe_unless
  | |- safe _ (since _ ≫= _) => apply safe_bind; [apply safe_since|intros ?]
  | |- safe _ (try_bind _ _) => apply safe_try_bind; [|intros ?]
  | |- safe _ (now_ ≫= _) => apply safe_bind; [apply safe_now; eauto with cara|intros ?]
  | |- safe _ (_ ≫= _) => apply safe_bind; [|intros ?]
  end).

Section reconcile_safe.
Context `{UUIDSource} (life : string * string → string).

Lemma safe_node_health name : safe (steady life) (node_health_Reconcile name).
Proof.
  apply safe_bind; [apply safe_GetNodeStatus|intros res].
  safe_steps; apply safe_steady, safe_SetNodeState.
Qed.

Lemma safe_clear_each nodeName notAfter ps firstErr :
  safe (steady life) (clear_each nodeName notAfter ps firstErr).
Proof.
  revert firstErr. induction ps as [|p ps IH]; intros firstErr; cbn [clear_each]; [apply safe_ret|].
  destruct (hasRescheduleClock p); [|apply IH].
  apply safe_bind; [apply safe_ClearRescheduleClocks|]. intros res. apply IH.
Qed.

Lemma safe_rescheduler_release c p :
  snap_NodeRef p ≠ EmptyString → safe (steady life) (rescheduler_release c p).
Proof.
  intros Hn. unfold rescheduler_release.
  safe_steps. by apply safe_steady, safe_ReleaseAssignment.
Qed.

Lemma safe_reschedule_one c hb p :
  snap_NodeRef p ≠ EmptyString → safe (steady life) (reschedule_one c hb p).
Proof.
  intros Hn. unfold reschedule_one, handleRunning, handleTerminating.
  safe_steps; auto using safe_rescheduler_release, safe_SetNotReadyAt, safe_SetTerminatingAt,
    safe_SetTerminationBlocked.
Qed.

Lemma safe_reschedule_each c hb ps again :
  Forall (λ p, snap_NodeRef p ≠ EmptyString) ps → safe (steady life) (reschedule_each c hb ps again).
Proof.
  intros Hps. revert again. induction Hps as [|p ps Hp Hps IH]; intros again; cbn [reschedule_each]; [apply safe_ret|].
  apply safe_try_bind; [by apply safe_reschedule_one|]. intros b. apply IH.
Qed.
End reconcile_safe.

Section reconcilers.
Context `{UUIDSource}.

(** What a listing returns are rows that satisfied its WHERE clause. *)
Lemma wp_list_with Rel G what f (P : Project → Prop) d h :
  (∀ key r, f r = true → P (project_of_row key r)) →
  wp Rel G (list_projects what f)
    (λ res d' h', h' = h ∧ Rel d d' ∧ ∀ ps, res = Ok ps → Forall P ps) d h.
Proof.
  intros HP. unfold list_projects. apply wp_bind, wp_query; [|intros d1 e Hd He; by apply wp_ret].
  intros d1 Hd. apply wp_ret. split_and!; [done|done|]. intros ps [= <-].
  unfold select_projects. apply Forall_fmap, Forall_forall. intros [key r] Hin.
  apply list_elem_of_filter in Hin as [[_ Hf] _]. by apply HP.
Qed.

Lemma wp_ListProjectsByNodeRef Rel G nodeRef phases d h :
  phases ≠ [] →
  wp Rel G (adapter_ListProjectsByNodeRef nodeRef phases)
    (λ res d' h', h' = h ∧ Rel d d' ∧
       ∀ ps, res = Ok ps → Forall (λ p, snap_NodeRef p = nodeRef ∧ snap_NodeRef p ≠ EmptyString) ps) d h.
Proof.
  intros Hne. unfold adapter_ListProjectsByNodeRef, try_bind. apply wp_bind.
  unfold ListProjectsByNodeRef. destruct phases as [|phase phases]; [done|].
  eapply wp_mono; [|apply (wp_list_with _ _ _ _
    (λ p, st_NodeRef (p_Status p) = nodeRef ∧ st_NodeRef (p_Status p) ≠ EmptyString))].
  - intros [ps|e] d' h' (-> & Hd & Hps); apply wp_ret; (split_and!; [done|done|]); [|done].
    intros ps' [= <-]. apply Forall_fmap. by apply (Hps ps).
  - intros key r Hf. bools. simpl. tauto.
Qed.

Lemma safe_clearRescheduleClocks life nodeName notAfter :
  safe (steady life) (clearRescheduleClocks nodeName notAfter).
Proof.
  apply safe_try_bind; [|intros ps; apply safe_clear_each].
  apply safe_try_bind; [apply safe_list; eauto with cara|intros; apply safe_ret].
Qed.

Lemma safe_rescheduler_Reconcile life c name : safe (steady life) (rescheduler_Reconcile c name).
Proof.
  apply safe_bind; [apply safe_GetNodeStatus|]. intros [snap|e]; [|apply safe_unless].
  destruct (negb _).
  - apply safe_try_bind; [apply safe_clearRescheduleClocks|]. intros. apply safe_ret.
  - apply (safe_bind_with _ (λ res : result (list ProjectSnapshot), ∀ ps, res = Ok ps →
      Forall (λ p, snap_NodeRef p ≠ EmptyString) ps)).
    + intros d h Hinv. eapply wp_mono; [|by apply wp_ListProjectsByNodeRef].
      intros res d' h' (_ & Hd & Hps). split; [by apply Hd|]. intros ps Hr.
      eapply Forall_impl; [by apply Hps|]. by intros p [_ ?].
    + intros [ps|e] Hps; [|apply safe_ret]. by apply safe_reschedule_each, Hps.
Qed.

Lemma safe_failed_Reconcile life name : safe (steady life) (failed_Reconcile name).
Proof.
  apply safe_bind.
  { apply safe_try_bind; [apply safe_getProject; eauto with cara|intros; apply safe_ret]. }
  intros [p|e]; [|apply safe_unless]. unfold failed_one, reconcileFailed, reconcileRunning,
    raiseRescheduleExhaustedAlert.
  repeat (case_decide || safe_steps); auto using safe_SetRescheduleExhausted, safe_ClearFailedNodes.
  by apply safe_steady, safe_MoveFailedProject.
Qed.

Lemma safe_termination_Reconcile life name : safe (steady life) (termination_Reconcile name).
Proof.
  apply safe_bind.
  { apply safe_try_bind; [apply safe_getProject; eauto with cara|intros; apply safe_ret]. }
  intros [p|e]; [|apply safe_unless]. destruct (negb _); [apply safe_ret|].
  apply safe_bind; [apply safe_steady, safe_FinalizeProject_blocker|].
  intros [[]|e]; [apply safe_ret|]. destruct (_ || _); [apply safe_ret|].
  destruct (AsFinalizationBlocked e) as [[? reason]|]; [|apply safe_ret].
  apply safe_bind; [apply safe_steady, safe_SetFinalizationBlocked|].
  intros [[]|e']; [apply safe_ret|apply safe_unless].
Qed.
End reconcilers.

(** ** What a reconcile may write *)

(** A write that changes the conditions of one Project and nothing else of its
    status. *)
Definition conditions_write (d1 d2 : DB) : Prop :=
  ∃ name r cs now, project_at d1 name = Some r ∧
    d2 = put_row (project_key name) (commit_status (st_with_Conditions cs (row_status r)) now r) d1.

Lemma put_row_named life name r r' d :
  project_at d name = Some r → row_UID r' = row_UID r → named life d →
  named life (put_row (project_key name) r' d).
Proof.
  intros Hr Hu Hn key r1. simpl. destruct (decide (project_key name = key)) as [<-|Hne].
  - rewrite lookup_insert_eq. intros [= <-]. rewrite Hu. by apply Hn.
  - rewrite lookup_insert_ne by done. apply Hn.
Qed.

Lemma conditions_write_named life d1 d2 : conditions_write d1 d2 → named life d1 → named life d2.
Proof. intros (name & r & cs & now & Hr & ->). by apply (put_row_named _ _ r). Qed.

Section writes.
Context `{UUIDSource} (life : string * string → string).

(** Every own write of a run is one [G] admits. *)
Lemma run_written (G : DB → DB → Prop) {A} (p : prog A) ms d0 :
  (∀ d1 d2, G d1 d2 → named life d1 → named life d2) →
  db_inv d0 → named life d0 → no_reuse life ms →
  (∀ d h, db_inv d → wp (steady life) G p (λ _ _ _, True) d h) →
  Forall (written G) (history_of (run p ms d0 [])).
Proof.
  intros HG Hinv Hn Hms Hp.
  refine (proj2 (wp_adequate_on (steady life) G (named life) p
    (λ _ _ h', True ∧ Forall (written G) h') ms d0 [] _ _ (λ d1 d2 Hd Hg, HG d1 d2 Hg Hd) Hms Hn _)).
  - intros d ?. by split_and!.
  - by intros ?? _ (_ & _ & ?).
  - apply wp_written; [constructor|by apply Hp].
Qed.

(** The loop guarded by the version, with any change the guarantee admits. *)
Lemma wp_version_writes (G : DB → DB → Prop) name m d h :
  (∀ r s', row_inv r → m (row_status r) = Ok s' → G_admits G name r s') →
  db_inv d → wp (steady life) G (UpdateProjectStatusWithRetry name m) (λ _ d' _, True) d h.
Proof.
  intros HG Hinv. eapply wp_mono; [|eapply (wp_UpdateProjectStatusWithRetry (steady life) G)];
    eauto with cara.
Qed.

Lemma wp_conditions name m d h :
  (∀ s s', m s = Ok s' → ∃ cs, s' = st_with_Conditions cs s) → db_inv d →
  wp (steady life) conditions_write (UpdateProjectStatusWithRetry name m) (λ _ d' _, True) d h.
Proof.
  intros Hm. apply wp_version_writes. intros r s' _ Hs d' now _ Hr _.
  destruct (Hm _ _ Hs) as [cs ->]. by exists name, r, cs, now.
Qed.

(** The write and what the caller makes of its answer. *)
Lemma wp_conditions_then {B} name m (k : result () → prog B) d h :
  (∀ s s', m s = Ok s' → ∃ cs, s' = st_with_Conditions cs s) → (∀ res, ∃ b, k res = Ret b) → db_inv d →
  wp (steady life) conditions_write (UpdateProjectStatusWithRetry name m ≫= k) (λ _ _ _, True) d h.
Proof.
  intros Hm Hk Hinv. apply wp_bind. eapply wp_mono; [|by apply wp_conditions].
  intros res d' h' _. destruct (Hk res) as [b ->]. by apply wp_ret.
Qed.

Lemma skip_ends {A} skips (ok1 ok2 : A) (res : result ()) :
  ∃ b, match res with Err e => unless skips ok1 e | Ok _ => Ret (Ok ok2) end = Ret b.
Proof. destruct res; by eexists. Qed.

Lemma upsert_conditions t reason message at_ b s :
  ∃ cs, upsert t reason message at_ b s = st_with_Conditions cs s.
Proof. by eexists. Qed.

Lemma same_conditions s : ∃ cs, s = st_with_Conditions cs s.
Proof. exists (st_Conditions s). by destruct s. Qed.
End writes.

(** ** Properties *)

(** The rescheduler's clock for one outage: the first condition of the type. *)
Definition clock_since (p : ProjectSnapshot) (t : ConditionType) (lastHeartbeat started : Time) : Prop :=
  ∃ c, find_first (λ c, bool_decide (cs_Type c = t)) (snap_Conditions p) = Some c ∧
       cs_LastTransitionTime c = started ∧ (lastHeartbeat ≤ started)%Z.

Lemma incidentClock_running p t hb started :
  incidentClock (snap_Conditions p) t hb = (started, true) ↔ clock_since p t hb started.
Proof.
  unfold incidentClock, clock_since, Before. destruct (find_first _ _) as [c|]; [|naive_solver].
  split.
  - intros [= <- Hb]. exists c. bools. split_and!; [done|done|]. lia.
  - intros (c' & [= <-] & <- & Hle). f_equal. bools. lia.
Qed.

(** (project_rescheduler.go, Reconcile, handleRunning and handleTerminating):
    a Running Project keeps its Node through the whole grace period of every
    outage. As long as no name is reused and whatever the others do, the handling
    of one Project of a NotReady Node writes nothing but conditions, unless the
    Project was listed Scheduled, or was listed Running with a NotReadyAt clock
    that is not older than the Node's last heartbeat and has, when it is read, run
    for the grace period. A Project listed Terminating or in any other phase is
    never released, moved or finalized here. *)
Theorem rescheduler_patient `{UUIDSource} (life : string * string → string) (c : Rescheduler)
    (lastHeartbeat : Time) (p : ProjectSnapshot) (ms : list move) (d0 : DB)
    (Hinv : db_inv d0) (Hname : named life d0) (Hms : no_reuse life ms) :
  Forall (written conditions_write) (history_of (run (reschedule_one c lastHeartbeat p) ms d0 [])) ∨
  snap_Phase p = ProjectPhaseScheduled ∨
  (snap_Phase p = ProjectPhaseRunning ∧
   ∃ started, clock_since p ConditionTypeNotReadyAt lastHeartbeat started ∧
              (rc_runningGrace c ≤ Sub (mv_now (next_move ms)) started)%Z).
Proof.
  unfold reschedule_one. case_decide as HS; [by auto|].
  assert (∀ A (q : prog A), (∀ d h, db_inv d → wp (steady life) conditions_write q (λ _ _ _, True) d h) →
    Forall (written conditions_write) (history_of (run q ms d0 []))) as Hrun
    by (intros; eapply run_written; eauto using conditions_write_named).
  case_decide as HR; [|case_decide as HT; [|left; constructor]].
  - unfold handleRunning. destruct (incidentClock _ _ _) as [notReadyAt running] eqn:Ec.
    destruct running; cbn [negb].
    + destruct (decide (Sub (mv_now (next_move ms)) notReadyAt < rc_runningGrace c)%Z) as [Hlt|Hge].
      * left. unfold since. simpl. rewrite decide_True by done. constructor.
      * right; right. split; [done|]. exists notReadyAt. split; [by apply incidentClock_running|lia].
    + left. apply Hrun. intros d h Hd. apply wp_bind, wp_now. intros now d1 Hd1.
      apply wp_conditions_then; [|apply skip_ends|by apply Hd1].
      intros s s' [= <-]. apply upsert_conditions.
  - left. apply Hrun. intros d h Hd. unfold handleTerminating.
    destruct (incidentClock _ _ _) as [terminatingAt running]. destruct running; cbn [negb].
    + apply wp_bind. unfold since. apply wp_bind, wp_now. intros now d1 Hd1. apply wp_ret.
      case_decide; [by apply wp_ret|]. destruct (incidentClock _ _ _).2; [by apply wp_ret|].
      apply wp_bind, wp_now. intros now' d2 Hd2.
      apply wp_conditions_then; [|apply skip_ends|by apply Hd2, Hd1].
      intros s s' [= <-]. case_decide; [apply upsert_conditions|apply same_conditions].
    + apply wp_bind, wp_now. intros now d1 Hd1.
      apply wp_conditions_then; [|apply skip_ends|by apply Hd1].
      intros s s' [= <-]. apply upsert_conditions.
Qed.

(** A Running Project of Node "a" without a clock: the first sight of the outage
    starts one, and writes nothing else. *)
Lemma rescheduler_patient_witness :
  let c := NewProjectReschedulerController true [] in
  let x := run (reschedule_one c 1%Z example_snapshot) []
             (example_db (stopped_status ProjectPhaseRunning) 3) [] in
  result_of x = Ok true ∧ length (history_of x) = 2 ∧ Forall (written conditions_write) (history_of x).
Proof.
  intros c x. split; [vm_compute; reflexivity|]. split; [vm_compute; reflexivity|].
  destruct (@rescheduler_patient counter_uuids (λ _, counter_uuid 0) c 1%Z example_snapshot []
    (example_db (stopped_status ProjectPhaseRunning) 3) (stopped_db_inv ProjectPhaseRunning ltac:(done))
    ltac:(intros key r; simpl; intros [<- <-]%lookup_singleton_Some; reflexivity) ltac:(by constructor))
    as [H|[H|(_ & started & (cond & Hc & _) & _)]]; [exact H|..].
  - exfalso. vm_compute in H. discriminate.
  - exfalso. vm_compute in Hc. discriminate.
Defined.

(** A write that empties one Project's FailedNodes and nothing else of its
    status. *)
Definition failed_nodes_cleared (d1 d2 : DB) : Prop :=
  ∃ name r now, project_at d1 name = Some r ∧
    d2 = put_row (project_key name) (commit_status (st_with_FailedNodes [] (row_status r)) now r) d1.

(** (failed_project_rescheduler.go, Reconcile): what a Failed Project's moves
    cost. As long as no name is reused and whatever the others do, handling the
    snapshot of a Project writes nothing but conditions, with two exceptions. A
    Failed one with a Node, which failed for a reason on the allow-list and has
    been moved fewer times than there are backoffs, may be moved once it has been
    Failed for the backoff of that move; so two spent moves are the last. A
    Running one with the containers' own reason has its FailedNodes emptied, and
    nothing else, once it has been Running for three hours. *)
Theorem failed_moves_bounded `{UUIDSource} (life : string * string → string)
    (p : ProjectSnapshot) (ms : list move) (d0 : DB)
    (Hinv : db_inv d0) (Hname : named life d0) (Hms : no_reuse life ms) :
  let x := run (failed_one p) ms d0 [] in
  let elapsed phase := Sub (mv_now (next_move ms)) (cs_LastTransitionTime phase) in
  Forall (written conditions_write) (history_of x) ∨
  (snap_Phase p = ProjectPhaseFailed ∧ snap_NodeRef p ≠ EmptyString ∧
   length (snap_FailedNodes p) < maxReschedules ∧
   ∃ phase wait, phaseCondition p = Some phase ∧ cs_Reason phase ∈ rescheduleReasons ∧
     rescheduleBackoff !! length (snap_FailedNodes p) = Some wait ∧ (wait ≤ elapsed phase)%Z) ∨
  (snap_Phase p = ProjectPhaseRunning ∧ snap_FailedNodes p ≠ [] ∧
   Forall (written failed_nodes_cleared) (history_of x) ∧
   ∃ phase, phaseCondition p = Some phase ∧ cs_Reason phase = phaseReasonRunning ∧
     (rescheduleStableAfter ≤ elapsed phase)%Z).
Proof.
  cbv zeta. unfold failed_one. case_decide as HF; [|case_decide as HR; [|left; constructor]].
  - unfold reconcileFailed. destruct (phaseCondition p) as [phase|] eqn:Ep; [|left; constructor].
    destruct (bool_decide (cs_Reason phase ∈ rescheduleReasons)) eqn:Er; [|left; constructor]. bools.
    cbn [negb]. case_decide as Hn; [left; constructor|].
    destruct (rescheduleBackoff !! length (snap_FailedNodes p)) as [wait|] eqn:Ew.
    + destruct (decide (Sub (mv_now (next_move ms)) (cs_LastTransitionTime phase) < wait)%Z) as [Hlt|Hge].
      * left. unfold since. simpl. rewrite decide_True by done. constructor.
      * right; left. split_and!; [done|done|by apply lookup_lt_Some in Ew|].
        exists phase, wait. split_and!; [done|done|done|lia].
    + left. destruct (hasCondition _ _); [constructor|].
      eapply run_written; eauto using conditions_write_named. intros d h Hd.
      unfold raiseRescheduleExhaustedAlert, SetRescheduleExhausted. apply wp_bind.
      apply wp_bind, wp_bind, wp_now. intros now d1 Hd1.
      eapply wp_mono; [|apply wp_conditions; [|by apply Hd1]].
      * intros [[]|e] d' h' _; apply wp_ret; [by apply wp_ret|].
        by destruct (existsb _ _); apply wp_ret.
      * intros s s' [= <-]. case_decide; [apply upsert_conditions|apply same_conditions].
  - unfold reconcileRunning. case_decide as Hfn; [left; constructor|].
    destruct (phaseCondition p) as [phase|] eqn:Ep; [|left; constructor].
    destruct (bool_decide (cs_Reason phase = phaseReasonRunning)) eqn:Er; [|left; constructor]. bools.
    cbn [negb].
    destruct (decide (Sub (mv_now (next_move ms)) (cs_LastTransitionTime phase) < rescheduleStableAfter)%Z)
      as [Hlt|Hge].
    { left. unfold since. simpl. rewrite decide_True by done. constructor. }
    right; right. split_and!; [done|done| |exists phase; split_and!; [done|done|lia]].
    eapply (run_written life); eauto.
    + intros d1 d2 (name & r & now & Hr & ->). by apply (put_row_named _ _ r).
    + intros d h Hd. apply wp_bind, wp_bind. unfold since. apply wp_bind, wp_now. intros now d1 Hd1.
      apply wp_ret. case_decide; [by apply wp_ret, wp_ret|].
      apply wp_bind. eapply wp_mono; [|apply wp_version_writes; [|by apply Hd1]].
      * intros [[]|e] d' h' _; apply wp_ret; [by apply wp_ret|].
        by destruct (existsb _ _); apply wp_ret.
      * intros r s' _ [= <-] d2 now2 _ Hr _. by exists (snap_Name p), r, now2.
Qed.

(** A Project that failed on Node "a" at time 0, of a reason a move may fix, read
    an hour later. *)
Definition crashed_snapshot (failed : list string) : ProjectSnapshot :=
  {| snap_Name := "shop"; snap_UID := counter_uuid 0; snap_Phase := ProjectPhaseFailed;
     snap_NodeRef := "a"; snap_AssignmentGeneration := 1%Z; snap_Size := EmptyString;
     snap_FailedNodes := failed;
     snap_Conditions := [{| cs_Type := ConditionTypePhase; cs_Reason := "ContainerCrashed";
                            cs_LastTransitionTime := 0%Z |}] |}.
Definition at_time (t : Time) : move := {| mv_others := id; mv_outcome := Done; mv_now := t |}.

(** Moved the first time; with two spent moves only announced. *)
Lemma failed_moves_bounded_witness :
  let ms := [at_time Hour] in
  let d := example_db (stopped_status ProjectPhaseFailed) 3 in
  let x := run (failed_one (crashed_snapshot [])) ms d [] in
  let y := run (failed_one (crashed_snapshot ["b"; "c"])) ms d [] in
  (∃ r, project_at (db_of x) "shop" = Some r ∧ st_Phase (row_status r) = ProjectPhasePending ∧
        st_FailedNodes (row_status r) = ["a"]) ∧
  Forall (written conditions_write) (history_of y).
Proof.
  intros ms d x y. split.
  - eexists. split; [vm_compute; reflexivity|]. by vm_compute.
  - destruct (@failed_moves_bounded counter_uuids (λ _, counter_uuid 0) (crashed_snapshot ["b"; "c"]) ms d
      (stopped_db_inv ProjectPhaseFailed ltac:(done))
      ltac:(intros key r; simpl; intros [<- <-]%lookup_singleton_Some; reflexivity)) as [H|[H|H]].
    + constructor; [|constructor]. split; [|done]. intros d' Hd'. split_and!; [reflexivity|done|done].
    + exact H.
    + exfalso. destruct H as (_ & _ & H & _). vm_compute in H. lia.
    + exfalso. destruct H as (H & _). vm_compute in H. discriminate.
Defined.

(** A write of the state [state] to one Node's status. *)
Definition state_write (name : string) (state : NodeState) (d1 d2 : DB) : Prop :=
  ∃ r status now, db_Nodes d1 !! name = Some r ∧ nst_State status = state ∧
    d2 = db_with_Nodes (<[name := node_restatus status now r]> (db_Nodes d1)) d1.

Lemma wp_SetNodeState Rel name state reason message d h :
  wp Rel (state_write name state) (SetNodeState name state reason message) (λ _ _ _, True) d h.
Proof.
  unfold SetNodeState, getNode. apply wp_bind, wp_bind, wp_query; [|intros d1 e Hd He; by apply wp_ret, wp_ret].
  intros d1 Hd. apply wp_ret. destruct (_ <$> _) as [node|]; [|by apply wp_ret].
  apply wp_bind, wp_now. intros now d2 Hd2. unfold UpdateNodeStatus.
  apply wp_bind, wp_now. intros now' d3 Hd3. apply wp_bind, wp_exec; [intros; by apply wp_ret|].
  intros d4 Hd4. unfold update_node. destruct (db_Nodes d4 !! name) as [r|] eqn:Er; [|by apply wp_ret].
  case_bool_decide; [|by apply wp_ret]. split; [|].
  { eexists r, _, _. split_and!; [done| |reflexivity]. reflexivity. }
  split; [|intros; by apply wp_ret]. case_decide; [apply wp_bind, wp_publish|]; by apply wp_ret.
Qed.

Lemma run_SetNodeState `{UUIDSource} name state reason message ms d :
  schedule_ok ms →
  Forall (written (state_write name state))
    (history_of (run (_ ←? SetNodeState name state reason message; Ret (Ok done_)) ms d [])).
Proof.
  intros Hms.
  refine (proj2 (wp_adequate others (state_write name state) _
    (λ _ _ h', True ∧ Forall (written (state_write name state)) h') ms d [] _ Hms _)); [done|].
  apply wp_written; [constructor|]. apply wp_bind. eapply wp_mono; [|apply wp_SetNodeState].
  intros [[]|e] d' h' _; by apply wp_ret.
Qed.

(** (node_health.go, Reconcile): a Node is written NotReady exactly when its
    heartbeat is more than 90 seconds old and it is not NotReady yet, Ready exactly
    when it is NotReady with a heartbeat that is not, and a Draining Node never.
    Whatever the others do, when the first read finds the Node the reconcile answers
    from that row and the clock read next: either nothing is due, it succeeds and
    writes nothing, or every write it makes sets that one state on that Node. *)
Theorem node_health_follows_heartbeat `{UUIDSource} (name : string) (ms : list move) (d0 : DB)
    (r : NodeRow) (Hms : schedule_ok ms) (Hread : mv_outcome (next_move ms) = Done)
    (Hr : db_Nodes (mv_others (next_move ms) d0) !! name = Some r) :
  let x := run (node_health_Reconcile name) ms d0 [] in
  let late := bool_decide
    (NodeHeartbeatTimeout < mv_now (next_move (tail ms)) - nst_LastHeartbeat (nr_Status r))%Z in
  let state := nst_State (nr_Status r) in
  if decide (state = NodeStateDraining ∨ late = bool_decide (state = NodeStateNotReady))
  then result_of x = Ok done_ ∧ history_of x = []
  else Forall (written (state_write name (if late then NodeStateNotReady else NodeStateReady)))
         (history_of x).
Proof.
  cbv zeta. set (now := mv_now (next_move (tail ms))).
  set (age := Sub now (nst_LastHeartbeat (nr_Status r))).
  rewrite (bool_decide_ext (NodeHeartbeatTimeout < now - nst_LastHeartbeat (nr_Status r))%Z
    (NodeHeartbeatTimeout < age)%Z)
    by (symmetry; apply Sub_gt; unfold min_int64, max_int64, NodeHeartbeatTimeout, Second; lia).
  assert (Forall (move_ok others) (tail (tail ms))) as Hms2
    by (destruct Hms as [|? ? _ [|]]; simpl; auto).
  pose proof (λ st reason message d', run_SetNodeState name st reason message _ d' Hms2) as Hset.
  unfold node_health_Reconcile, GetNodeStatus, getNode, since.
  cbn -[SetNodeState NodeHeartbeatTimeout]. rewrite Hread, Hr.
  cbn -[SetNodeState NodeHeartbeatTimeout]. fold now age.
  destruct (decide (nst_State (nr_Status r) = NodeStateDraining)) as [HD|HD].
  { rewrite decide_True by auto. done. }
  destruct (decide (NodeHeartbeatTimeout < age)%Z) as [Hl|Hl],
    (decide (nst_State (nr_Status r) = NodeStateNotReady)) as [HN|HN].
  - rewrite (bool_decide_eq_true_2 _ Hl), (bool_decide_eq_true_2 _ HN), decide_True by auto.
    rewrite decide_False by tauto. rewrite decide_False by lia. done.
  - rewrite (bool_decide_eq_true_2 _ Hl), (bool_decide_eq_false_2 _ HN), decide_False by intuition congruence.
    rewrite decide_True by tauto. apply Hset.
  - rewrite (bool_decide_eq_false_2 _ Hl), (bool_decide_eq_true_2 _ HN), decide_False by intuition congruence.
    rewrite decide_False by tauto. rewrite decide_True by (split; [lia|done]). apply Hset.
  - rewrite (bool_decide_eq_false_2 _ Hl), (bool_decide_eq_false_2 _ HN), decide_True by auto.
    rewrite decide_False by tauto. rewrite decide_False by tauto. done.
Qed.

(** At 91 seconds a Ready Node is late; at 90 it is not. *)
Lemma node_health_follows_heartbeat_witness :
  let r := example_node_row NodeStateReady 0%Z in
  let x t := run (node_health_Reconcile "a") [quiet; at_time t] (node_db r) [] in
  history_of (x (90 * Second)%Z) = [] ∧
  Forall (written (state_write "a" NodeStateNotReady)) (history_of (x (91 * Second)%Z)) ∧
  length (history_of (x (91 * Second)%Z)) = 2.
Proof.
  intros r x.
  assert (∀ t, @schedule_ok counter_uuids [quiet; at_time t]) as Hms.
  { intros t. repeat apply Forall_cons_2; [split; [|done]..|by constructor];
      intros d _; exact (reflexivity (R := @others counter_uuids) d). }
  split; [|split; [|vm_compute; reflexivity]].
  - exact (proj2 (@node_health_follows_heartbeat counter_uuids "a" _ (node_db r) r (Hms (90 * Second)%Z)
      eq_refl eq_refl)).
  - exact (@node_health_follows_heartbeat counter_uuids "a" _ (node_db r) r (Hms (91 * Second)%Z)
      eq_refl eq_refl).
Defined.

(** With grace-expired release on, a Scheduled Project leaves its Node at the first
    sight of the outage: the release gate asks for no grace period, and the
    rescheduler keeps no clock for Scheduled Projects. The Node below missed its
    heartbeats for 91 seconds; one reconcile later the Project is Pending, released
    as ReleaseByGraceExpired, "past its grace period". *)
Lemma scheduled_released_without_grace :
  let c := NewProjectReschedulerController true [] in
  let p0 := example_db (st_with_Phase ProjectPhaseScheduled (running_status "a")) 3 in
  let d0 := db_with_Nodes {[ "a"%string := example_node_row NodeStateNotReady 0%Z ]} p0 in
  let x := run (rescheduler_Reconcile c "a") (replicate 9 (at_time (91 * Second)%Z)) d0 [] in
  result_of x = Ok done_ ∧
  ∃ r o, project_at (db_of x) "shop" = Some r ∧ st_Phase (row_status r) = ProjectPhasePending ∧
    obligations (row_status r) = [o] ∧ ob_ReleaseAuthorization o = ReleaseByGraceExpired.
Proof.
  cbv zeta. split; [vm_compute; reflexivity|]. eexists _, _.
  split; [vm_compute; reflexivity|]. by vm_compute.
Qed.
