(* ===== verification/Scheduler.v ===== *)
(** The scheduler (internal/server/controller: project_scheduler.go,
    scheduler_filter.go, scheduler_score.go, capacity_ledger.go): which Node a
    Pending Project is bound to, and why none when it is not.

    Filter reads the ledger of one Node after another while other servers write,
    so the verdicts of one pass are about different moments. [filter_with] is the
    pass as a function of what was read for each Node; [wp_filterNodes] says the
    program is that function, for some moment per Node inside the pass. *)
From Stdlib Require Import ZArith Lia.
From Stdlib Require Import SpecFloat.
From stdpp Require Import prelude gmap strings.
From S2P Require Import Prelude.
From S2P Require Import Conditions.
From S2P Require Import ProjectTypes.
From S2P Require Import Lifecycle.
From S2P Require Import NodeTypes.
From S2P Require Import Float64.
From S2P Require Import Strconv.
From S2P Require Import Quantity.
From S2P Require Import AccessTypes.
From S2P Require Import Database.
From S2P Require Import Evolution.
From S2P Require Import StatusStore.
From S2P Require Import Legality.
From S2P Require Import ProjectStore.
From S2P Require Import NodeStore.
From S2P Require Import Adapter.
From S2P Require Import Manager.
From S2P Require Import Recovery.
Import GoTime GoInt GoString GoError.
Open Scope go_scope.

Set Default Proof Using "Type".

(** ** The capacity ledger (capacity_ledger.go) *)

Definition ledgerPhases : list ProjectPhase :=
  [ProjectPhaseScheduled; ProjectPhaseRunning; ProjectPhaseTerminating].

Record NodeUsage := { nu_CPUMilli : Z; nu_MemoryBytes : Z }.
Definition no_usage : NodeUsage := {| nu_CPUMilli := 0; nu_MemoryBytes := 0 |}.

(** The loop of [Used]; the sums are int64. *)
Definition add_usage (used : NodeUsage) (p : ProjectSnapshot) : NodeUsage :=
  let req := Requests (snap_Size p) in
  {| nu_CPUMilli := add64 (nu_CPUMilli used) (CPUMilli req);
     nu_MemoryBytes := add64 (nu_MemoryBytes used) (MemoryBytes req) |}.
Definition usage_of (projects : list ProjectSnapshot) : NodeUsage :=
  foldl add_usage no_usage projects.

Definition Used (node : string) : prog (result NodeUsage) :=
  adapter_ListProjectsByNodeRef node ledgerPhases ≫= λ res,
  Ret match res with
      | Err e => Err (Wrap ("list projects on node " ++ Quote node ++ ": ")%string e EmptyString)
      | Ok projects => Ok (usage_of projects)
      end.

Record placementCheck := {
  pc_ok : bool;
  pc_reason : string;
  pc_used : NodeUsage;
  pc_allocatable : NodeUsage
}.

(** The text of a quantity error, as [%v] writes it. *)
Definition quantity_error (resource s : string) : string :=
  ("invalid quantity: " ++ resource ++ " " ++ Quote (TrimSpace s))%string.

Definition missing_resources (node : ReadyNode) : list string :=
  filter (λ r, rn_Allocatable node !! r = None) ["cpu"; "memory"]%string.

(** What the Node offers, or why that is not known. *)
Definition parseAllocatable (node : ReadyNode) : NodeUsage + string :=
  let name := Quote (rn_Name node) in
  match rn_Allocatable node !! "cpu"%string, rn_Allocatable node !! "memory"%string with
  | Some cpu, Some mem =>
      match ParseCPU cpu with
      | None => inr ("node " ++ name ++ " reports unparseable allocatable cpu: "
                     ++ quantity_error "cpu" cpu)%string
      | Some cpuMilli =>
          match ParseMemory mem with
          | None => inr ("node " ++ name ++ " reports unparseable allocatable memory: "
                         ++ quantity_error "memory" mem)%string
          | Some memoryBytes => inl {| nu_CPUMilli := cpuMilli; nu_MemoryBytes := memoryBytes |}
          end
      end
  | _, _ => inr ("node " ++ name ++ " has not reported allocatable ["
                 ++ Join (missing_resources node) " " ++ "]; upgrade cara-agent")%string
  end.

Definition rejected_check (reason : string) : placementCheck :=
  {| pc_ok := false; pc_reason := reason; pc_used := no_usage; pc_allocatable := no_usage |}.

(** The file_as once both sides are known. *)
Definition capacity_check (name : string) (size : ProjectSize) (allocatable used : NodeUsage)
    : placementCheck :=
  let req := Requests size in
  if decide (nu_CPUMilli allocatable < add64 (nu_CPUMilli used) (CPUMilli req))%Z then
    {| pc_ok := false; pc_used := used; pc_allocatable := allocatable;
       pc_reason := ("node " ++ Quote name ++ " lacks cpu: " ++ FormatInt (nu_CPUMilli used)
         ++ "m in use + " ++ FormatInt (CPUMilli req) ++ "m requested > "
         ++ FormatInt (nu_CPUMilli allocatable) ++ "m allocatable")%string |}
  else if decide (nu_MemoryBytes allocatable < add64 (nu_MemoryBytes used) (MemoryBytes req))%Z then
    {| pc_ok := false; pc_used := used; pc_allocatable := allocatable;
       pc_reason := ("node " ++ Quote name ++ " lacks memory: " ++ FormatMemory (nu_MemoryBytes used)
         ++ " in use + " ++ FormatMemory (MemoryBytes req) ++ " requested > "
         ++ FormatMemory (nu_MemoryBytes allocatable) ++ " allocatable")%string |}
  else {| pc_ok := true; pc_reason := EmptyString; pc_used := used; pc_allocatable := allocatable |}.

Definition check (node : ReadyNode) (size : ProjectSize) : prog (result placementCheck) :=
  match parseAllocatable node with
  | inr reason => Ret (Ok (rejected_check reason))
  | inl allocatable =>
      used ←? Used (rn_Name node);
      Ret (Ok (capacity_check (rn_Name node) size allocatable used))
  end.

Definition Fits (node : ReadyNode) (size : ProjectSize) : prog (result (bool * string)) :=
  c ←? check node size; Ret (Ok (pc_ok c, pc_reason c)).

(** ** Filter (scheduler_filter.go) *)

Record candidate := { cand_Node : ReadyNode; cand_Used : NodeUsage; cand_Allocatable : NodeUsage }.
Definition cand_Name (c : candidate) : string := rn_Name (cand_Node c).

Definition underPressure (n : ReadyNode) : option ConditionType :=
  cond_Type <$> find_first (λ c,
    (bool_decide (cond_Type c = ConditionTypeDiskPressure)
     || bool_decide (cond_Type c = ConditionTypeMemoryPressure))
    && bool_decide (cond_Status c = ConditionTrue)) (rn_Conditions n).

Definition already_failed (name : string) : string :=
  ("node " ++ Quote name ++ " already failed this project")%string.
Definition reports (name : string) (cond : ConditionType) : string :=
  ("node " ++ Quote name ++ " reports " ++ cond)%string.

(** What a check of [n] adds to the two lists. *)
Definition filed (n : ReadyNode) (c : placementCheck) (acc : list candidate * list string)
    : list candidate * list string :=
  if pc_ok c
  then (acc.1 ++ [{| cand_Node := n; cand_Used := pc_used c; cand_Allocatable := pc_allocatable c |}], acc.2)%list
  else (acc.1, acc.2 ++ [pc_reason c])%list.

Fixpoint filter_each (nodes : list ReadyNode) (size : ProjectSize) (excluded : list string)
    (acc : list candidate * list string) : prog (result (list candidate * list string)) :=
  match nodes with
  | [] => Ret (Ok acc)
  | n :: rest =>
      if bool_decide (rn_Name n ∈ excluded) then
        filter_each rest size excluded (acc.1, acc.2 ++ [already_failed (rn_Name n)])%list
      else
        match underPressure n with
        | Some cond => filter_each rest size excluded (acc.1, acc.2 ++ [reports (rn_Name n) cond])%list
        | None => c ←? check n size; filter_each rest size excluded (filed n c acc)
        end
  end.
Definition filterNodes (nodes : list ReadyNode) (size : ProjectSize) (excluded : list string)
    : prog (result (list candidate * list string)) :=
  filter_each nodes size excluded ([], []).

(** ** Score (scheduler_score.go) *)

Definition TierPrimaryBonus : float64 := float64_of 1000.

Definition freePercent (allocatable booked : Z) : float64 :=
  if decide (allocatable ≤ 0 ∨ allocatable ≤ booked)%Z then float64_of 0
  else float64_div (float64_mul (float64_of 100) (float64_of (sub64 allocatable booked)))
         (float64_of allocatable).

Definition leastAllocated (c : candidate) (size : ProjectSize) : float64 :=
  let req := Requests size in
  let cpu := freePercent (nu_CPUMilli (cand_Allocatable c)) (add64 (nu_CPUMilli (cand_Used c)) (CPUMilli req)) in
  let mem := freePercent (nu_MemoryBytes (cand_Allocatable c))
               (add64 (nu_MemoryBytes (cand_Used c)) (MemoryBytes req)) in
  float64_div (float64_add cpu mem) (float64_of 2).

Definition scoreCandidate (c : candidate) (size : ProjectSize) : float64 :=
  let score := leastAllocated c size in
  if decide (NodeTierFromLabels (rn_Labels (cand_Node c)) = NodeTierPrimary)
  then float64_add score TierPrimaryBonus else score.

(** [None] stands for the loop before its first candidate. *)
Definition better (score : float64) (c : candidate) (best : option (candidate * float64)) : bool :=
  match best with
  | None => true
  | Some (b, bestScore) =>
      float64_gt score bestScore || (float64_eq score bestScore && String.ltb (cand_Name c) (cand_Name b))
  end.
Definition pickBest (candidates : list candidate) (size : ProjectSize) : option (candidate * float64) :=
  foldl (λ best c, let score := scoreCandidate c size in
                   if better score c best then Some (c, score) else best) None candidates.

(** ** The controller (project_scheduler.go) *)

Definition reportBlocked (name reason message : string) : prog () :=
  SetSchedulingBlocked name reason message ≫= λ _, Ret ().

(** The Project is bound to the winner, or told why there is none. *)
Definition bind_best (name : string) (size : ProjectSize) (filtered : list candidate * list string)
    : prog (result Result) :=
  match pickBest filtered.1 size with
  | None =>
      reportBlocked name "NoSuitableNode" (Join filtered.2 "; ") ≫= λ _, Ret (Ok requeue)
  | Some (best, _) =>
      SetProjectScheduled name (cand_Name best) ≫= λ res,
      match res with
      | Ok _ => Ret (Ok done_)
      | Err e =>
          if Is e ErrConflictState
          then reportBlocked name "AssignmentRefused" (Error e) ≫= λ _, Ret (Ok done_)
          else Ret (Err e)
      end
  end.

Definition scheduler_Reconcile (name : string) : prog (result Result) :=
  GetProjectPhase name ≫= λ res,
  match res with
  | Err e => unless [ErrNotFound] done_ e
  | Ok (phase, _) =>
      if decide (phase ≠ ProjectPhasePending) then Ret (Ok done_)
      else
        readyNodes ←? ListReadyNodes;
        if decide (readyNodes = []) then
          reportBlocked name "NoReadyNodes" "no Node is Ready" ≫= λ _, Ret (Ok requeue)
        else
          GetProjectPlacement name ≫= λ res,
          match res with
          | Err e => unless [ErrNotFound] done_ e
          | Ok placement =>
              filtered ←? filterNodes readyNodes (pp_Size placement) (pp_ExcludedNodes placement);
              bind_best name (pp_Size placement) filtered
          end
  end.

Definition resyncPending : prog (list string) :=
  or_nothing (ListProjectNamesByPhase ProjectPhasePending).

(** ** What a Node has booked *)

(** The Projects the ledger counts, at one moment. *)
Definition ledger_at (d : DB) (node : string) : list ProjectSnapshot :=
  snapshotOf <$> select_projects
    (λ r, bool_decide (row_Phase r ∈ ledgerPhases) && bool_decide (st_NodeRef (row_status r) ≠ EmptyString)
          && bool_decide (st_NodeRef (row_status r) = node)) d.

Definition total (f : ResourceRequests → Z) (ps : list ProjectSnapshot) : Z :=
  foldr (λ p acc, f (Requests (snap_Size p)) + acc)%Z 0%Z ps.

(** Far fewer Projects than would overflow the sums. *)
Definition small (d : DB) : Prop := (Z.of_nat (size (db_Projects d)) ≤ 2 ^ 30)%Z.

Lemma Requests_bounds s :
  (0 ≤ CPUMilli (Requests s) ≤ 2 ^ 32 ∧ 0 ≤ MemoryBytes (Requests s) ≤ 2 ^ 32)%Z.
Proof. unfold Requests, projectSizeRequests. repeat case_decide; vm_compute; repeat split; discriminate. Qed.

Lemma total_bounds ps :
  (0 ≤ total CPUMilli ps ≤ Z.of_nat (length ps) * 2 ^ 32 ∧
   0 ≤ total MemoryBytes ps ≤ Z.of_nat (length ps) * 2 ^ 32)%Z.
Proof.
  induction ps as [|p ps IH]; cbn [total foldr length]; [lia|]. fold (total CPUMilli ps) (total MemoryBytes ps).
  pose proof (Requests_bounds (snap_Size p)). lia.
Qed.

Lemma usage_of_total ps :
  (Z.of_nat (length ps) ≤ 2 ^ 30)%Z →
  usage_of ps = {| nu_CPUMilli := total CPUMilli ps; nu_MemoryBytes := total MemoryBytes ps |}.
Proof.
  intros Hl. unfold usage_of.
  cut (∀ u, (0 ≤ nu_CPUMilli u ∧ 0 ≤ nu_MemoryBytes u ∧
    nu_CPUMilli u + Z.of_nat (length ps) * 2 ^ 32 ≤ 2 ^ 62 ∧
    nu_MemoryBytes u + Z.of_nat (length ps) * 2 ^ 32 ≤ 2 ^ 62)%Z →
    foldl add_usage u ps = {| nu_CPUMilli := nu_CPUMilli u + total CPUMilli ps;
                              nu_MemoryBytes := nu_MemoryBytes u + total MemoryBytes ps |}%Z).
  { intros H. rewrite H; [done|]. simpl. lia. }
  clear Hl. induction ps as [|p ps IH]; intros u Hu; cbn [foldl total foldr length] in *.
  { destruct u; simpl. by rewrite !Z.add_0_r. }
  fold (total CPUMilli ps) (total MemoryBytes ps). pose proof (Requests_bounds (snap_Size p)) as [Hc Hm].
  assert (add_usage u p = {| nu_CPUMilli := nu_CPUMilli u + CPUMilli (Requests (snap_Size p));
    nu_MemoryBytes := nu_MemoryBytes u + MemoryBytes (Requests (snap_Size p)) |}%Z) as ->.
  { unfold add_usage. by rewrite !add64_id by (unfold in_int64, min_int64, max_int64; lia). }
  rewrite IH by (simpl; lia). cbn [nu_CPUMilli nu_MemoryBytes]. by rewrite !Z.add_assoc.
Qed.

Lemma ledger_at_length d node : (length (ledger_at d node) ≤ size (db_Projects d))%nat.
Proof.
  unfold ledger_at, select_projects. rewrite !length_fmap. etrans; [apply length_filter|].
  by rewrite length_map_to_list.
Qed.

Lemma ledger_small d node :
  small d →
  usage_of (ledger_at d node) = {| nu_CPUMilli := total CPUMilli (ledger_at d node);
                                   nu_MemoryBytes := total MemoryBytes (ledger_at d node) |} ∧
  (0 ≤ total CPUMilli (ledger_at d node) ≤ 2 ^ 62)%Z ∧ (0 ≤ total MemoryBytes (ledger_at d node) ≤ 2 ^ 62)%Z.
Proof.
  unfold small. intros Hs. pose proof (ledger_at_length d node). pose proof (total_bounds (ledger_at d node)).
  split; [apply usage_of_total; lia|lia].
Qed.

(** ** Filter as a function of what was read *)

Definition file_as (used : string → NodeUsage) (size : ProjectSize) (excluded : list string) (n : ReadyNode)
    : candidate + string :=
  if bool_decide (rn_Name n ∈ excluded) then inr (already_failed (rn_Name n))
  else
    match underPressure n with
    | Some cond => inr (reports (rn_Name n) cond)
    | None =>
        match parseAllocatable n with
        | inr reason => inr reason
        | inl allocatable =>
            let c := capacity_check (rn_Name n) size allocatable (used (rn_Name n)) in
            if pc_ok c then inl {| cand_Node := n; cand_Used := pc_used c; cand_Allocatable := pc_allocatable c |}
            else inr (pc_reason c)
        end
    end.

Definition file (v : candidate + string) (acc : list candidate * list string) : list candidate * list string :=
  match v with inl c => (acc.1 ++ [c], acc.2) | inr reason => (acc.1, acc.2 ++ [reason]) end%list.

Definition filter_with (used : string → NodeUsage) (nodes : list ReadyNode) (size : ProjectSize)
    (excluded : list string) (acc : list candidate * list string) : list candidate * list string :=
  foldl (λ acc n, file (file_as used size excluded n) acc) acc nodes.

Lemma file_as_ext used used' size excluded n :
  used (rn_Name n) = used' (rn_Name n) → file_as used size excluded n = file_as used' size excluded n.
Proof. unfold file_as. by intros ->. Qed.

Lemma filter_with_ext used used' nodes size excluded acc :
  (∀ n, n ∈ nodes → used (rn_Name n) = used' (rn_Name n)) →
  filter_with used nodes size excluded acc = filter_with used' nodes size excluded acc.
Proof.
  unfold filter_with. revert acc. induction nodes as [|n nodes IH]; intros acc Hn; simpl; [done|].
  rewrite (file_as_ext used used') by (apply Hn; left). apply IH. intros m Hm. apply Hn. by right.
Qed.

Lemma filter_with_candidates used nodes size excluded acc c :
  c ∈ (filter_with used nodes size excluded acc).1 ↔
  c ∈ acc.1 ∨ ∃ n, n ∈ nodes ∧ file_as used size excluded n = inl c.
Proof.
  unfold filter_with. revert acc. induction nodes as [|n nodes IH]; intros acc; simpl.
  { split; [by left|]. intros [?|(n & []%elem_of_nil & _)]; done. }
  rewrite IH. destruct (file_as used size excluded n) as [c'|] eqn:Ev; simpl; rewrite ?elem_of_app, ?elem_of_cons, ?elem_of_nil.
  - split.
    + intros [[?|[->|[]]]|(m & Hm & ?)]; [by left|right; exists n|right; exists m];
        rewrite elem_of_cons; auto.
    + intros [?|(m & [->|Hm]%elem_of_cons & Hv)]; [by auto| |right; eauto].
      rewrite Hv in Ev. injection Ev as ->. auto.
  - split.
    + intros [?|(m & Hm & ?)]; [by left|right; exists m; rewrite elem_of_cons; auto].
    + intros [?|(m & [->|Hm]%elem_of_cons & Hv)]; [by auto|congruence|right; eauto].
Qed.

Lemma filter_with_names used nodes size excluded acc :
  cand_Name <$> (filter_with used nodes size excluded acc).1 `sublist_of` (cand_Name <$> acc.1) ++ (rn_Name <$> nodes).
Proof.
  unfold filter_with. revert acc. induction nodes as [|n nodes IH]; intros acc; simpl; [by rewrite app_nil_r|].
  etrans; [apply IH|]. assert (∀ c, file_as used size excluded n = inl c → cand_Name c = rn_Name n) as Hc.
  { intros c. unfold file_as. repeat case_match; try done. by intros [= <-]. }
  destruct (file_as _ _ _ _) as [c|]; simpl.
  - rewrite fmap_app, <- app_assoc. simpl. by rewrite (Hc c eq_refl).
  - apply sublist_app; [done|]. by apply sublist_cons.
Qed.

Section filter.
Context `{UUIDSource} (Rel G : DB → DB → Prop).
Context (Rel_others : ∀ d d', Rel d d' → others d d').

Lemma wp_Used node d h :
  wp Rel G (Used node) (λ res d' h', h' = h ∧ Rel d d' ∧
    ∀ u, res = Ok u → u = usage_of (ledger_at d' node)) d h.
Proof.
  unfold Used, adapter_ListProjectsByNodeRef, try_bind, ListProjectsByNodeRef, ledgerPhases, list_projects.
  apply wp_bind, wp_bind, wp_bind, wp_query.
  - intros d1 Hd. repeat apply wp_ret. split_and!; [done|done|]. by intros u [= <-].
  - intros d1 e Hd He. repeat apply wp_ret. by split_and!.
Qed.

(** A pass that answers is [filter_with] of what the ledger held for each Node
    at some moment of the pass. *)
Lemma wp_filter_each nodes size excluded acc d h :
  NoDup (rn_Name <$> nodes) →
  wp Rel G (filter_each nodes size excluded acc) (λ res d' h', h' = h ∧ others d d' ∧
    ∀ out, res = Ok out → ∃ ledger : string → DB,
      (∀ m, others d (ledger m) ∧ others (ledger m) d') ∧
      out = filter_with (λ m, usage_of (ledger_at (ledger m) m)) nodes size excluded acc) d h.
Proof using Rel_others.
  revert acc d h. induction nodes as [|n nodes IH]; intros acc d h Hnd.
  { apply wp_ret. split_and!; [done|done|]. intros out [= <-]. exists (λ _, d). by split. }
  inversion Hnd as [|? ? Hn Hnd']; subst. cbn [filter_each].
  assert (∀ acc', (∀ used, file (file_as used size excluded n) acc = acc') →
    wp Rel G (filter_each nodes size excluded acc') (λ res d' h', h' = h ∧ others d d' ∧
      ∀ out, res = Ok out → ∃ ledger : string → DB,
        (∀ m, others d (ledger m) ∧ others (ledger m) d') ∧
        out = filter_with (λ m, usage_of (ledger_at (ledger m) m)) (n :: nodes) size excluded acc) d h) as Hskip.
  { intros acc' Ha. eapply wp_mono; [|by apply IH]. intros res d' h' (-> & Hd & Ho).
    split_and!; [done|done|]. intros out Hout. destruct (Ho out Hout) as (ledger & Hl & ->).
    exists ledger. split; [done|]. cbn [filter_with foldl]. by rewrite Ha. }
  unfold file_as in Hskip. case_bool_decide as Hex; [by apply Hskip|].
  destruct (underPressure n) as [cond|] eqn:Eu; [by apply Hskip|]. unfold check.
  destruct (parseAllocatable n) as [allocatable|reason] eqn:Ea.
  2:{ by apply Hskip. }
  clear Hskip. unfold try_bind. apply wp_bind, wp_bind. eapply wp_mono; [|apply wp_Used].
  intros [u|e] d1 h1 (-> & Hd1%Rel_others & Hu); [|apply wp_ret, wp_ret; by split_and!].
  specialize (Hu u eq_refl). apply wp_ret. eapply wp_mono; [|by apply IH].
  intros res d' h' (-> & Hd & Ho). split_and!; [done|by trans d1|]. intros out Hout.
  destruct (Ho out Hout) as (ledger & Hl & ->). exists (λ m, if decide (m = rn_Name n) then d1 else ledger m). split.
  - intros m. case_decide; [by split|].
    destruct (Hl m). split; [by trans d1|done].
  - assert (∀ m, m ∈ nodes → rn_Name n ≠ rn_Name m) as Hne.
    { intros m Hm Heq. apply Hn. rewrite Heq. by apply list_elem_of_fmap_2. }
    cbn [filter_with foldl].
    replace (file (file_as _ size excluded n) acc) with (filed n (capacity_check (rn_Name n) size allocatable u) acc).
    + apply filter_with_ext. intros m Hm. by rewrite decide_False by (intros ?; by eapply Hne).
    + unfold file_as. rewrite bool_decide_eq_false_2 by done. rewrite Eu, Ea, decide_True, Hu by done.
      unfold filed, file. by destruct (pc_ok _).
Qed.
End filter.

(** ** Scores *)

Lemma float64_add_comm f g : float64_add f g = float64_add g f.
Proof.
  unfold float64_add. destruct f as [[]|[]| |s1 m1 e1], g as [[]|[]| |s2 m2 e2]; try reflexivity.
  cbn [SFadd]. by rewrite (Z.min_comm e1 e2), Z.add_comm.
Qed.

Lemma float64_add_zero f lo hi : between f lo hi → float64_add f (S754_zero false) = f.
Proof. by intros (m & e & -> & _). Qed.

(** Zero, or between two powers of two. *)
Definition within (f : float64) (lo hi : Z) : Prop := f = S754_zero false ∨ between f lo hi.

Lemma between_weaken f lo hi lo' hi' :
  between f lo hi → (lo' ≤ lo)%Z → (hi ≤ hi')%Z → between f lo' hi'.
Proof.
  intros (m & e & -> & Hm & H1 & H2) Hl Hh. exists m, e. split_and!; [done|lia..| |].
  - etrans; [|exact H1]. apply pow2_le. lia.
  - etrans; [exact H2|]. apply pow2_le. lia.
Qed.

Lemma within_add f g lo k :
  within f lo k → within g lo k → (- 1021 ≤ lo)%Z → (k ≤ 999)%Z → within (float64_add f g) lo (k + 1).
Proof.
  intros [->|Hf] [->|Hg] Hl Hk.
  - by left.
  - right. rewrite float64_add_comm, (float64_add_zero _ _ _ Hg). eapply between_weaken; [done|lia..].
  - right. rewrite (float64_add_zero _ _ _ Hf). eapply between_weaken; [done|lia..].
  - right. eapply add_between; eauto; lia.
Qed.

Lemma within_half f lo k :
  within f lo k → (- 1020 ≤ lo)%Z → (k ≤ 1000)%Z → within (float64_div f (float64_of 2)) (lo - 1) (k - 1).
Proof.
  assert (between (float64_of 2) 1 1) as H2 by (apply float64_of_between; lia).
  intros [->|Hf] Hl Hk.
  - left. destruct H2 as (m & e & -> & _). done.
  - right. apply div_between; [done|done|lia..].
Qed.

Lemma freePercent_within a b :
  in_int64 a → (0 ≤ b)%Z → within (freePercent a b) (-57) 8.
Proof.
  unfold in_int64, min_int64, max_int64. intros Ha Hb. unfold freePercent.
  case_decide as H0; [by left|]. right. rewrite sub64_id by (unfold in_int64, min_int64, max_int64; lia).
  destruct (Z.log2_spec a ltac:(lia)) as [H1 H2]. set (k := Z.log2 a) in *.
  assert (0 ≤ k)%Z as Hk by apply Z.log2_nonneg. rewrite <- Z.add_1_r in H2.
  assert (k < 63)%Z by (apply pow2_lt_inv; lia).
  apply (between_weaken _ (6 + 0 - (k + 1)) (7 + (k + 1) - k)); [|lia..].
  apply div_between; [apply mul_between| |lia..]; [|apply float64_of_between; lia|lia..|apply float64_of_between; lia].
  apply float64_of_between; lia.
Qed.

(** What a candidate's numbers satisfy when nothing has overflowed. *)
Definition sane (size : ProjectSize) (c : candidate) : Prop :=
  in_int64 (nu_CPUMilli (cand_Allocatable c)) ∧ in_int64 (nu_MemoryBytes (cand_Allocatable c)) ∧
  (0 ≤ nu_CPUMilli (cand_Used c) ≤ 2 ^ 62)%Z ∧ (0 ≤ nu_MemoryBytes (cand_Used c) ≤ 2 ^ 62)%Z.

Lemma leastAllocated_within size c : sane size c → within (leastAllocated c size) (-58) 8.
Proof.
  intros (Hc & Hm & Huc & Hum). pose proof (Requests_bounds size) as [Hrc Hrm].
  unfold leastAllocated. rewrite !add64_id by (unfold in_int64, min_int64, max_int64; lia).
  apply (within_half _ (-57) 9); [|lia..].
  apply (within_add _ _ _ 8); [apply freePercent_within; [done|lia]..|lia|lia].
Qed.

Definition is_primary (c : candidate) : bool :=
  bool_decide (NodeTierFromLabels (rn_Labels (cand_Node c)) = NodeTierPrimary).

(** A score of the backup tier stays below [2 ^ 8], one of the primary tier above
    [2 ^ 9]. *)
Lemma scoreCandidate_within size c :
  sane size c →
  if is_primary c then between (scoreCandidate c size) 9 11 else within (scoreCandidate c size) (-58) 8.
Proof.
  intros Hs%leastAllocated_within. unfold is_primary, scoreCandidate.
  assert (between TierPrimaryBonus 9 10) as Hb by (apply float64_of_between; lia).
  case_decide as Hp; [rewrite bool_decide_eq_true_2 by done|by rewrite bool_decide_eq_false_2].
  rewrite float64_add_comm. destruct Hs as [->|Hs].
  - rewrite (float64_add_zero _ _ _ Hb). eapply between_weaken; [done|lia..].
  - eapply (add_between _ _ 9 10 (-58) 8 10); [done|done|lia..].
Qed.

Lemma within_at_most f lo hi : (- 1021 ≤ lo)%Z → within f lo hi → at_most f hi.
Proof. intros Hl [->|H]; [by left|right; eauto]. Qed.

Lemma scoreCandidate_proper size c : sane size c → proper (scoreCandidate c size).
Proof.
  intros Hs%scoreCandidate_within. destruct (is_primary c); [by eapply between_proper|].
  eapply at_most_proper, within_at_most; [|done]. lia.
Qed.

Lemma primary_wins size c b :
  sane size c → sane size b → is_primary b = true → is_primary c = false →
  float64_lt (scoreCandidate c size) (scoreCandidate b size) = true.
Proof.
  intros Hc%scoreCandidate_within Hb%scoreCandidate_within Eb Ec. rewrite Eb in Hb. rewrite Ec in Hc.
  eapply at_most_lt; [|exact Hb|]; [eapply within_at_most; [|exact Hc]|]; lia.
Qed.

(** ** The best candidate *)

(** [b] is chosen over [c]. *)
Definition beats (size : ProjectSize) (b c : candidate) : Prop :=
  float64_lt (scoreCandidate c size) (scoreCandidate b size) = true ∨
  (scoreCandidate c size = scoreCandidate b size ∧ String.ltb (cand_Name b) (cand_Name c) = true).

Lemma better_beats size b c :
  sane size b → sane size c →
  better (scoreCandidate c size) c (Some (b, scoreCandidate b size)) = true ↔ beats size c b.
Proof.
  intros Hb%scoreCandidate_proper Hc%scoreCandidate_proper. unfold better, beats, float64_gt.
  rewrite orb_true_iff, andb_true_iff, proper_eq by done. unfold float64_lt. naive_solver.
Qed.

Lemma beats_trans size a b c :
  sane size a → sane size b → sane size c → beats size a b → beats size b c → beats size a c.
Proof.
  intros Ha%scoreCandidate_proper Hb%scoreCandidate_proper Hc%scoreCandidate_proper.
  intros [H1|[E1 H1]] [H2|[E2 H2]]; unfold beats.
  - left. by eapply (proper_lt_trans _ (scoreCandidate b size)).
  - left. by rewrite E2.
  - left. by rewrite <- E1.
  - right. split; [congruence|]. by eapply ltb_trans.
Qed.

Lemma beats_total size a b :
  sane size a → sane size b → cand_Name a ≠ cand_Name b → beats size a b ∨ beats size b a.
Proof.
  intros Ha%scoreCandidate_proper Hb%scoreCandidate_proper Hne. unfold beats.
  destruct (proper_total _ _ Ha Hb) as [?|[E|?]]; [by auto| |by auto].
  destruct (ltb_total _ _ Hne); auto.
Qed.

Lemma beats_asym size a b : sane size a → sane size b → beats size a b → beats size b a → False.
Proof.
  intros Ha Hb H1 H2. pose proof (beats_trans _ _ _ _ Ha Hb Ha H1 H2) as [H|[_ H]].
  - by rewrite proper_lt_irrefl in H by by apply scoreCandidate_proper.
  - apply ltb_spec in H as [_ ?]. done.
Qed.

Definition chosen (size : ProjectSize) (cs : list candidate) (b : candidate) : Prop :=
  b ∈ cs ∧ ∀ c, c ∈ cs → c = b ∨ beats size b c.

Lemma pickBest_snoc cs c size :
  pickBest (cs ++ [c]) size =
  if better (scoreCandidate c size) c (pickBest cs size) then Some (c, scoreCandidate c size)
  else pickBest cs size.
Proof. unfold pickBest. by rewrite foldl_app. Qed.

Lemma pickBest_None cs size : pickBest cs size = None ↔ cs = [].
Proof.
  induction cs as [|c cs _] using rev_ind; [done|]. rewrite pickBest_snoc. split; [|by destruct cs].
  destruct (pickBest cs size) as [[b s]|] eqn:E; simpl; [|done]. by case_match.
Qed.

Lemma pickBest_elem cs size b s : pickBest cs size = Some (b, s) → b ∈ cs.
Proof.
  revert b s. induction cs as [|c cs IH] using rev_ind; [done|]. intros b s. rewrite pickBest_snoc, elem_of_app.
  destruct (better _ _ _); [intros [= <- _]; right; left|]. intros Hp. left. by eapply IH.
Qed.

Lemma pickBest_chosen cs size :
  Forall (sane size) cs → NoDup (cand_Name <$> cs) →
  ∀ b s, pickBest cs size = Some (b, s) → s = scoreCandidate b size ∧ chosen size cs b.
Proof.
  induction cs as [|c cs IH] using rev_ind; [done|]. rewrite Forall_app, Forall_singleton, fmap_app.
  intros [Hcs Hc] (Hnd & Hdisj & _)%NoDup_app b s. rewrite pickBest_snoc.
  destruct (pickBest cs size) as [[b0 s0]|] eqn:E0.
  2:{ apply pickBest_None in E0 as ->. intros [= <- <-]. split; [done|]. split; [left|].
      intros c' Hc'%list_elem_of_singleton. by left. }
  destruct (IH Hcs Hnd b0 s0 eq_refl) as [-> [Hin Hall]].
  assert (sane size b0) as Hb0 by (by eapply Forall_forall).
  destruct (better _ _ _) eqn:Eb.
  - intros [= <- <-]. apply better_beats in Eb; [|done..]. split; [done|]. split; [apply elem_of_app; right; left|].
    intros c' [Hc'|Hc'%list_elem_of_singleton]%elem_of_app; [|by left]. right.
    destruct (Hall c' Hc') as [->|Hb]; [done|].
    eapply (beats_trans _ _ b0); [done|done| |done|done]. by eapply Forall_forall.
  - intros [= <- <-]. split; [done|]. split; [by apply elem_of_app; left|].
    intros c' [Hc'|Hc'%list_elem_of_singleton]%elem_of_app; [by auto|]. subst. right.
    destruct (beats_total size b0 c) as [?|Hx]; [done|done| |done|].
    + intros Heq. apply (Hdisj (cand_Name b0)); [by apply list_elem_of_fmap_2|].
      rewrite Heq. left.
    + apply better_beats in Hx; [|done..]. congruence.
Qed.

Lemma chosen_unique size cs b b' :
  Forall (sane size) cs → chosen size cs b → chosen size cs b' → b = b'.
Proof.
  rewrite Forall_forall. intros Hcs [Hb Hall] [Hb' Hall'].
  destruct (Hall b' Hb') as [?|H1]; [done|]. destruct (Hall' b Hb) as [?|H2]; [done|].
  exfalso. eapply (beats_asym size b b'); eauto.
Qed.

(** ** A Node with room *)

Lemma ParseCPU_int64 s n : ParseCPU s = Some n → in_int64 n.
Proof.
  unfold ParseCPU, ParseInt, int64_of. intros Hp.
  destruct (CutSuffix _ _) as [milli|].
  - destruct (cut_sign milli) as [neg digits]. case_decide; [done|].
    destruct (parse_digits _ _) as [x|]; [|done]. simpl in Hp.
    case_bool_decide as Hz; [|done]. simpl in Hp. case_bool_decide; [done|]. by injection Hp as <-.
  - destruct (ParseFloat _); [|done]. simpl in Hp. destruct (_ || _); [done|].
    injection Hp as <-. case_bool_decide; [done|]. unfold in_int64, min_int64, max_int64. lia.
Qed.

Lemma cut_unit_multiplier units s number mult :
  Forall (λ u : string * Z, 0 < u.2)%Z units → cut_unit units s = (number, mult) → (0 < mult)%Z.
Proof.
  induction 1 as [|[suffix m] units Hm Hu IH]; simpl; [intros [= _ <-]; lia|].
  destruct (CutSuffix _ _); [|done]. by intros [= _ <-].
Qed.

Lemma ParseMemory_int64 s n : ParseMemory s = Some n → in_int64 n.
Proof.
  unfold ParseMemory. destruct (cut_unit _ _) as [number mult] eqn:Ec.
  apply cut_unit_multiplier in Ec; [|by repeat constructor].
  destruct (ParseInt number) as [x|]; [|done]. simpl. case_bool_decide as Hx; [done|].
  intros [= <-]. assert (x ≤ max_int64 / mult)%Z by lia. assert (0 ≤ x)%Z by lia.
  assert (mult * (max_int64 / mult) ≤ max_int64)%Z by (apply Z.mul_div_le; lia).
  unfold in_int64, min_int64. nia.
Qed.

Lemma parseAllocatable_int64 n a :
  parseAllocatable n = inl a → in_int64 (nu_CPUMilli a) ∧ in_int64 (nu_MemoryBytes a).
Proof.
  unfold parseAllocatable.
  destruct (rn_Allocatable n !! "cpu"%string), (rn_Allocatable n !! "memory"%string); try done.
  destruct (ParseCPU _) eqn:Ec; [|done]. destruct (ParseMemory _) eqn:Em; [|done].
  intros [= <-]. eauto using ParseCPU_int64, ParseMemory_int64.
Qed.

(** The Project's size fits beside what the Node has booked in [d]. *)
Definition room (d : DB) (n : ReadyNode) (size : ProjectSize) : Prop :=
  ∃ a, parseAllocatable n = inl a ∧
    (total CPUMilli (ledger_at d (rn_Name n)) + CPUMilli (Requests size) ≤ nu_CPUMilli a)%Z ∧
    (total MemoryBytes (ledger_at d (rn_Name n)) + MemoryBytes (Requests size) ≤ nu_MemoryBytes a)%Z.

Definition eligible (d : DB) (excluded : list string) (size : ProjectSize) (n : ReadyNode) : Prop :=
  rn_Name n ∉ excluded ∧ underPressure n = None ∧ room d n size.

(** The candidate a Node is, with what it has booked in [d]. *)
Definition bid (d : DB) (n : ReadyNode) : candidate :=
  {| cand_Node := n; cand_Used := usage_of (ledger_at d (rn_Name n));
     cand_Allocatable := match parseAllocatable n with inl a => a | inr _ => no_usage end |}.

Lemma capacity_check_spec name size a used :
  let c := capacity_check name size a used in
  pc_ok c = bool_decide (add64 (nu_CPUMilli used) (CPUMilli (Requests size)) ≤ nu_CPUMilli a
                         ∧ add64 (nu_MemoryBytes used) (MemoryBytes (Requests size)) ≤ nu_MemoryBytes a)%Z ∧
  pc_used c = used ∧ pc_allocatable c = a.
Proof.
  unfold capacity_check. case_decide; [|case_decide]; simpl; (split; [|done]); symmetry;
    (apply bool_decide_eq_true_2 || apply bool_decide_eq_false_2); lia.
Qed.

Lemma file_as_eligible d size excluded n c :
  small d →
  file_as (λ m, usage_of (ledger_at d m)) size excluded n = inl c ↔
  eligible d excluded size n ∧ c = bid d n.
Proof.
  intros Hs. unfold file_as, eligible, room, bid.
  destruct (ledger_small d (rn_Name n) Hs) as (Hu & Hc & Hm). pose proof (Requests_bounds size) as [Hrc Hrm].
  case_bool_decide; [naive_solver|]. destruct (underPressure n); [naive_solver|].
  destruct (parseAllocatable n) as [a|]; [|naive_solver].
  destruct (capacity_check_spec (rn_Name n) size a (usage_of (ledger_at d (rn_Name n)))) as (-> & -> & ->).
  rewrite Hu. cbn [nu_CPUMilli nu_MemoryBytes].
  rewrite !add64_id by (unfold in_int64, min_int64, max_int64; lia).
  case_bool_decide; naive_solver.
Qed.

Lemma bid_sane d excluded size n : small d → eligible d excluded size n → sane size (bid d n).
Proof.
  intros Hs (_ & _ & a & Ha & _). destruct (ledger_small d (rn_Name n) Hs) as (Hu & Hc & Hm).
  unfold sane, bid. rewrite Ha, Hu. apply parseAllocatable_int64 in Ha as [Hac Ham].
  exact (conj Hac (conj Ham (conj Hc Hm))).
Qed.

(** The Ready Nodes of one moment. *)
Definition ready_at (d : DB) : list ReadyNode :=
  ready_node <$> filter (λ n, nst_State (n_Status n) = NodeStateReady ∧
                              ns_Unschedulable (n_Spec n) = false) (select_nodes d).

Lemma ready_at_names d : NoDup (rn_Name <$> ready_at d).
Proof.
  unfold ready_at. rewrite <- list_fmap_compose. change (rn_Name ∘ ready_node) with (λ n, om_Name (n_Meta n)).
  eapply sublist_NoDup; [|apply fmap_sublist, sublist_filter]. unfold select_nodes.
  rewrite <- list_fmap_compose. exact (NoDup_fst_map_to_list (db_Nodes d)).
Qed.

Lemma ready_at_spec d n :
  n ∈ ready_at d ↔ ∃ r, db_Nodes d !! rn_Name n = Some r ∧ n = ready_node (node_of_row (rn_Name n) r) ∧
    nst_State (nr_Status r) = NodeStateReady ∧ ns_Unschedulable (nr_Spec r) = false.
Proof.
  unfold ready_at, select_nodes. rewrite list_elem_of_fmap. split.
  - intros (m & -> & [[Hs Hu] Hm]%list_elem_of_filter). apply list_elem_of_fmap in Hm as ([k r] & -> & Hm).
    apply elem_of_map_to_list in Hm. by exists r.
  - intros (r & Hr & Hn & Hs & Hu). eexists. split; [exact Hn|]. apply list_elem_of_filter. split; [done|].
    apply list_elem_of_fmap. exists (rn_Name n, r). split; [done|]. by apply elem_of_map_to_list.
Qed.

(** The pass finds exactly the eligible Nodes, and the best of them is the one
    that beats every other. *)
Lemma filter_pick (ledger : string → DB) dn size excluded b s :
  (∀ m, small (ledger m)) →
  let cs := (filter_with (λ m, usage_of (ledger_at (ledger m) m)) (ready_at dn) size excluded ([], [])).1 in
  pickBest cs size = Some (b, s) →
  ∃ n, n ∈ ready_at dn ∧ b = bid (ledger (rn_Name n)) n ∧ eligible (ledger (rn_Name n)) excluded size n ∧
    ∀ m, m ∈ ready_at dn → eligible (ledger (rn_Name m)) excluded size m →
      m = n ∨ beats size (bid (ledger (rn_Name n)) n) (bid (ledger (rn_Name m)) m).
Proof.
  intros Hs cs Hp.
  assert (∀ c, c ∈ cs ↔ ∃ n, n ∈ ready_at dn ∧ eligible (ledger (rn_Name n)) excluded size n ∧
    c = bid (ledger (rn_Name n)) n) as Hcs.
  { intros c. unfold cs. rewrite filter_with_candidates.
    assert (∀ n, file_as (λ m, usage_of (ledger_at (ledger m) m)) size excluded n = inl c ↔
      eligible (ledger (rn_Name n)) excluded size n ∧ c = bid (ledger (rn_Name n)) n) as Hv.
    { intros n. rewrite <- file_as_eligible by done. by erewrite file_as_ext. }
    setoid_rewrite Hv. split; [intros [[]%elem_of_nil|?]; done|by right]. }
  destruct (pickBest_chosen cs size) with (b := b) (s := s) as [_ [Hb Hall]]; [| |done|].
  - apply Forall_forall. intros c (n & _ & He & ->)%Hcs. by eapply bid_sane.
  - eapply sublist_NoDup; [apply (ready_at_names dn)|]. apply filter_with_names.
  - apply Hcs in Hb as (n & Hn & He & ->). exists n. split_and!; [done|done|done|].
    intros m Hm Hem. destruct (Hall (bid (ledger (rn_Name m)) m)) as [Heq|?]; [apply Hcs; eauto|left|by right].
    by apply (f_equal cand_Node) in Heq.
Qed.

(** ** The whole reconcile *)

(** The binding of [name] to [n] in one write, as the scheduler decides it: the
    Node was listed at [dn], the Project's size and exclusions read at [dp], the
    ledger of each Node at its own moment after that. *)
Definition binds `{UUIDSource} (d0 : DB) (name : string) (d1 d2 : DB) : Prop :=
  ∃ dn dp (ledger : string → DB) p n r now now',
    others d0 dn ∧ others dn dp ∧ (∀ m, others dp (ledger m) ∧ others (ledger m) d1) ∧
    n ∈ ready_at dn ∧ project_at dp name = Some p ∧
    project_at d1 name = Some r ∧ st_Phase (row_status r) = ProjectPhasePending ∧
    d2 = put_row (project_key name) (commit_status (grant (rn_Name n) now (row_status r)) now' r) d1 ∧
    ((∀ m, small (ledger m)) →
       let size := sp_Size (row_Spec p) in
       let excluded := pp_ExcludedNodes (placement_of (project_of_row (project_key name) p)) in
       eligible (ledger (rn_Name n)) excluded size n ∧
       ∀ m, m ∈ ready_at dn → eligible (ledger (rn_Name m)) excluded size m →
         m = n ∨ beats size (bid (ledger (rn_Name n)) n) (bid (ledger (rn_Name m)) m)).

Section reconcile.
Context `{UUIDSource} (life : string * string → string).

Definition keeps (d1 d2 : DB) : Prop := named life d1 → named life d2.

Lemma wp_version_history name m d h :
  db_inv d →
  wp (steady life) keeps (UpdateProjectStatusWithRetry name m) (λ _ _ h',
    ∃ t, h' = h ++ t ∧ Forall (written (version_commit (steady life) name m d)) t) d h.
Proof.
  intros Hinv. eapply wp_mono; [|eapply (wp_UpdateProjectStatusWithRetry (steady life));
    [eauto with cara..| |done]].
  - intros res d' h' [[-> _]|(d1 & d2 & Hc & [[_ ->]|(e & _ & _ & ->)])].
    + exists []. by rewrite app_nil_r.
    + eexists. split; [done|]. by constructor; [|constructor; [|constructor]].
    + eexists. split; [done|]. by constructor; [|constructor].
  - intros r s' _ _ d1 now _ Hr _ Hn. by eapply put_row_named.
Qed.

Lemma wp_reportBlocked W name reason message d h :
  (∀ d1 d2, conditions_write d1 d2 → W d1 d2) → db_inv d → Forall (written W) h →
  wp (steady life) keeps (reportBlocked name reason message) (λ _ _ h', Forall (written W) h') d h.
Proof.
  intros HW Hinv Hh. apply wp_bind, wp_bind, wp_now. intros now d1 Hd1.
  eapply wp_mono; [|apply wp_version_history; by apply Hd1].
  intros res d' h' (t & -> & Ht). apply wp_ret, Forall_app. split; [done|].
  eapply Forall_impl; [exact Ht|]. intros [d2 d3|]; [|done]. simpl.
  intros (_ & r & s' & now' & Hr & _ & [= <-] & _ & ->). apply HW.
  assert (∀ s, ∃ cs, (if decide (st_Phase s = ProjectPhasePending)
    then upsert ConditionTypeSchedulingBlocked reason message now false s else s) = st_with_Conditions cs s) as Hcs
    by (intros s; case_decide; [apply upsert_conditions|apply same_conditions]).
  destruct (Hcs (row_status r)) as [cs ->]. by exists name, r, cs, now'.
Qed.

Lemma wp_SetProjectScheduled name node d h :
  node ≠ EmptyString → db_inv d →
  wp (steady life) keeps (SetProjectScheduled name node) (λ _ d' h',
    db_inv d' ∧ ∃ t, h' = h ++ t ∧ Forall (written (λ d1 d2, others d d1 ∧ ∃ r now now',
      project_at d1 name = Some r ∧ st_Phase (row_status r) = ProjectPhasePending ∧
      d2 = put_row (project_key name) (commit_status (grant node now (row_status r)) now' r) d1)) t) d h.
Proof.
  intros Hn Hinv.
  eapply wp_rely_mono; [by intros d1 d2 Hd; exact Hd| |apply wp_and; [by apply (safe_SetProjectScheduled life)|]].
  { by intros d1 d2 [_ ?]. }
  apply wp_bind, wp_now. intros now d1 Hd1. eapply wp_mono; [|apply wp_version_history; by apply Hd1].
  intros res d' h' (t & -> & Ht). exists t. split; [done|]. eapply Forall_impl; [exact Ht|].
  intros [d2 d3|]; [|done]. intros ([Hd2 _] & r & s' & now' & Hr & _ & Hs & Hne & ->).
  split; [trans d1; [by apply Hd1|done]|].
  apply set_scheduled_cases in Hs as [[? _]|(-> & HP & _)]; [done|]. by exists r, now, now'.
Qed.

Lemma wp_ListReadyNodes (G : DB → DB → Prop) d h :
  wp (steady life) G ListReadyNodes (λ res d' h', h' = h ∧ steady life d d' ∧
    ∀ nodes, res = Ok nodes → nodes = ready_at d') d h.
Proof.
  unfold ListReadyNodes, ListNodes, try_bind. apply wp_bind, wp_bind, wp_query.
  - intros d1 Hd. repeat apply wp_ret. split_and!; [done|done|]. by intros nodes [= <-].
  - intros d1 e Hd He. repeat apply wp_ret. by split_and!.
Qed.

Lemma wp_reads_project {A} (G : DB → DB → Prop) name (f : Project → A) d h :
  wp (steady life) G (project ←? getProject name; Ret (Ok (f project))) (λ res d' h', h' = h ∧ steady life d d' ∧
    ∀ a, res = Ok a → ∃ r, project_at d' name = Some r ∧ a = f (project_of_row (project_key name) r)) d h.
Proof.
  unfold try_bind. apply wp_bind, wp_getProject.
  - intros d1 Hd _. apply wp_ret. by split_and!.
  - intros d1 r Hd Hr. apply wp_ret. split_and!; [done|done|]. intros a [= <-]. eauto.
  - intros d1 e Hd He. apply wp_ret. by split_and!.
Qed.

(** The names a listing of Ready Nodes has. *)
Lemma ready_at_named d n : db_inv d → n ∈ ready_at d → rn_Name n ≠ EmptyString.
Proof. intros Hinv (r & Hr & _)%ready_at_spec Hn. pose proof (di_nodes _ Hinv). congruence. Qed.

Lemma filter_pick_name used d size excluded b s :
  db_inv d → pickBest (filter_with used (ready_at d) size excluded ([], [])).1 size = Some (b, s) →
  cand_Name b ≠ EmptyString.
Proof.
  intros Hinv Hp%pickBest_elem. apply (list_elem_of_fmap_2 cand_Name) in Hp.
  eapply elem_of_sublist in Hp; [|apply filter_with_names]. simpl in Hp.
  apply list_elem_of_fmap in Hp as (n & -> & Hn). by eapply ready_at_named.
Qed.

Lemma safe_reportBlocked name reason message : safe (steady life) (reportBlocked name reason message).
Proof. apply safe_bind; [apply safe_SetSchedulingBlocked|]. intros a. apply safe_ret. Qed.

Lemma safe_bind_best name size filtered :
  (∀ b s, pickBest filtered.1 size = Some (b, s) → cand_Name b ≠ EmptyString) →
  safe (steady life) (bind_best name size filtered).
Proof.
  intros Hb. unfold bind_best. destruct (pickBest _ _) as [[b s]|].
  - apply safe_bind; [apply safe_SetProjectScheduled; by eapply Hb|]. intros [[]|e]; [apply safe_ret|].
    destruct (Is e _); [|apply safe_ret]. apply safe_bind; [apply safe_reportBlocked|]. intros. apply safe_ret.
  - apply safe_bind; [apply safe_reportBlocked|]. intros. apply safe_ret.
Qed.

Lemma safe_scheduler name : safe (steady life) (scheduler_Reconcile name).
Proof.
  apply safe_bind.
  { apply safe_try_bind; [apply safe_getProject; eauto with cara|intros; apply safe_ret]. }
  intros [[phase node]|e]; [|apply safe_unless]. case_decide; [apply safe_ret|].
  apply (safe_bind_with _ (λ res : result (list ReadyNode), ∀ nodes, res = Ok nodes →
    ∃ d, db_inv d ∧ nodes = ready_at d)).
  { intros d h Hinv. eapply wp_mono; [|apply wp_ListReadyNodes]. intros res d' h' (_ & Hd & Hr).
    assert (db_inv d') by (by apply Hd). split; [done|]. intros nodes Hn. exists d'. auto. }
  intros [nodes|e] Hn; [|apply safe_ret]. destruct (Hn nodes eq_refl) as (dn & Hdn & ->).
  case_decide; [apply safe_bind; [apply safe_reportBlocked|]; intros; apply safe_ret|].
  apply safe_bind.
  { apply safe_try_bind; [apply safe_getProject; eauto with cara|intros; apply safe_ret]. }
  intros [placement|e]; [|apply safe_unless].
  apply (safe_bind_with _ (λ res : result (list candidate * list string), ∀ out, res = Ok out →
    ∃ used, out = filter_with used (ready_at dn) (pp_Size placement) (pp_ExcludedNodes placement) ([], []))).
  { intros d h Hinv. eapply wp_mono; [|apply wp_filter_each; [by intros ?? [? _]|apply ready_at_names]].
    intros res d' h' (_ & Hd & Ho). split; [by apply Hd|]. intros out Hout.
    destruct (Ho out Hout) as (ledger & _ & ->). by eexists. }
  intros [out|e] Ho; [|apply safe_ret]. destruct (Ho out eq_refl) as (used & ->).
  apply safe_bind_best. intros b s. by apply filter_pick_name.
Qed.
End reconcile.

(** ** Properties *)

(** (scheduler_score.go, pickBest): the Node chosen is a function of the
    candidates, not of the order the store listed them in. As long as no sum
    overflowed, every listing of the same candidates, under distinct names, gives
    the same answer; it is a candidate; no candidate has a higher score; and a
    backup Node is chosen only when no primary Node is a candidate, however full
    the primary ones are, in the rounded arithmetic of float64. *)
Theorem pickBest_order_independent (cs cs' : list candidate) (size : ProjectSize)
    (Hsane : Forall (sane size) cs) (Hnames : NoDup (cand_Name <$> cs)) (Hperm : cs ≡ₚ cs') :
  pickBest cs' size = pickBest cs size ∧
  (pickBest cs size = None ↔ cs = []) ∧
  ∀ b s, pickBest cs size = Some (b, s) →
    b ∈ cs ∧ s = scoreCandidate b size ∧
    (∀ c, c ∈ cs → float64_gt (scoreCandidate c size) s = false) ∧
    (∀ c, c ∈ cs → is_primary c = true → is_primary b = true).
Proof.
  assert (Forall (sane size) cs') as Hsane' by (by rewrite <- Hperm).
  assert (NoDup (cand_Name <$> cs')) as Hnames' by (by rewrite <- Hperm).
  split; [|split; [apply pickBest_None|]].
  - destruct (pickBest cs size) as [[b s]|] eqn:E.
    + destruct (pickBest_chosen _ _ Hsane Hnames b s E) as [-> Hb].
      destruct (pickBest cs' size) as [[b' s']|] eqn:E'.
      * destruct (pickBest_chosen _ _ Hsane' Hnames' b' s' E') as [-> Hb'].
        assert (b' = b) as ->; [|done]. eapply (chosen_unique size cs'); [done|done|].
        destruct Hb as [Hin Hall]. split; [by rewrite <- Hperm|]. intros c Hc. apply Hall. by rewrite Hperm.
      * apply pickBest_None in E' as ->. by apply Permutation_nil_r in Hperm; subst.
    + apply pickBest_None in E as ->. by apply Permutation_nil_l in Hperm; subst.
  - intros b s E. destruct (pickBest_chosen _ _ Hsane Hnames b s E) as [-> [Hb Hall]].
    rewrite Forall_forall in Hsane. split_and!; [done|done| |].
    + intros c Hc. apply not_true_is_false. unfold float64_gt. intros Hgt.
      destruct (Hall c Hc) as [->|Hbeats].
      * by rewrite proper_lt_irrefl in Hgt by (by apply scoreCandidate_proper, Hsane).
      * apply (beats_asym size b c); auto. by left.
    + intros c Hc Hp. destruct (is_primary b) eqn:Eb; [done|]. exfalso.
      destruct (Hall c Hc) as [->|Hbeats]; [congruence|]. apply (beats_asym size b c); auto.
      left. apply primary_wins; auto.
Qed.

(** A nearly full primary Node, an empty backup Node and another as empty. *)
Definition example_ready (name tier : string) : ReadyNode :=
  {| rn_Name := name; rn_Labels := {[ LabelNodeTier := tier ]};
     rn_Allocatable := {[ "cpu" := "4"; "memory" := "8Gi" ]}%string; rn_Conditions := [] |}.
Definition example_candidate (name tier : string) (cpu mem : Z) : candidate :=
  {| cand_Node := example_ready name tier;
     cand_Used := {| nu_CPUMilli := cpu; nu_MemoryBytes := mem |};
     cand_Allocatable := {| nu_CPUMilli := 4000; nu_MemoryBytes := 8 * 2 ^ 30 |} |}%Z.

Lemma pickBest_order_independent_witness :
  let a := example_candidate "a" NodeTierBackup 0 0 in
  let b := example_candidate "b" NodeTierBackup 0 0 in
  let c := example_candidate "c" NodeTierPrimary 3000 0 in
  (∃ s, pickBest [b; a] ProjectSizeMedium = Some (a, s)) ∧
  pickBest [c; b; a] ProjectSizeMedium = pickBest [a; b; c] ProjectSizeMedium ∧
  ∃ s, pickBest [a; b; c] ProjectSizeMedium = Some (c, s).
Proof.
  intros a b c. split; [eexists; vm_compute; reflexivity|].
  split; [|eexists; vm_compute; reflexivity].
  apply pickBest_order_independent.
  - repeat constructor; simpl; unfold min_int64, max_int64; lia.
  - apply (bool_decide_unpack _). vm_compute. exact I.
  - exact (Permutation_rev [a; b; c]).
Defined.

(** C32 (project_scheduler.go, Reconcile): a Project is bound to the best Node that
    can take it. As long as no name is reused and whatever the others do, each
    write of a reconcile changes only one Project's conditions, or binds this
    Project, Pending at that moment, to a Node. That Node was listed as Ready and
    schedulable; and, if the ledger never read more than [2 ^ 30] Projects, it was
    not one the Project failed on or is owed cleanup by, was not under pressure,
    and what it had booked when its ledger was read plus the Project's size was
    within its Allocatable; every other listed Node was ineligible then, or is of
    no better tier and loses on score, or on the name when the scores are equal. *)
Theorem scheduler_binds_best `{UUIDSource} (life : string * string → string) (name : string)
    (ms : list move) (d0 : DB)
    (Hinv : db_inv d0) (Hname : named life d0) (Hms : no_reuse life ms) :
  Forall (written (λ d1 d2, conditions_write d1 d2 ∨ binds d0 name d1 d2))
    (history_of (run (scheduler_Reconcile name) ms d0 [])).
Proof.
  set (W := λ d1 d2, conditions_write d1 d2 ∨ binds d0 name d1 d2).
  refine (wp_adequate_on (steady life) (keeps life) (named life) _ (λ _ _ h', Forall (written W) h') ms d0 []
    _ _ (λ d1 d2 Hd Hk, Hk Hd) Hms Hname _); [by intros; split_and!|by intros ?? _ (_ & _ & ?)|].
  apply wp_bind. eapply wp_mono; [|apply wp_reads_project].
  intros res d1 h1 (-> & Hd1 & _). assert (db_inv d1) as Hinv1 by (by apply Hd1).
  destruct res as [[phase node]|e]; [|apply wp_ret; constructor].
  case_decide; [apply wp_ret; constructor|].
  apply wp_bind. eapply wp_mono; [|apply wp_ListReadyNodes].
  intros res dn h2 (-> & Hdn & Hready). assert (db_inv dn) as Hinvn by (by apply Hdn).
  destruct res as [nodes|e]; [|apply wp_ret; constructor]. rewrite (Hready nodes eq_refl). clear nodes Hready.
  case_decide.
  { apply wp_bind. eapply wp_mono; [|by apply (wp_reportBlocked life W); [by left| |]].
    intros [] d' h' Hh. by apply wp_ret. }
  apply wp_bind. eapply wp_mono; [|apply wp_reads_project].
  intros res dp h3 (-> & Hdp & Hp). assert (db_inv dp) as Hinvp by (by apply Hdp).
  destruct res as [placement|e]; [|apply wp_ret; constructor].
  destruct (Hp placement eq_refl) as (p & Hrow & ->). clear Hp.
  apply wp_bind. eapply wp_mono; [|apply wp_filter_each; [by intros ?? [? _]|apply ready_at_names]].
  intros res df h4 (-> & Hdf & Ho). assert (db_inv df) as Hinvf by (by apply Hdf).
  destruct res as [out|e]; [|apply wp_ret; constructor].
  destruct (Ho out eq_refl) as (ledger & Hl & ->). clear Ho. unfold bind_best.
  destruct (pickBest _ _) as [[b s]|] eqn:Epick.
  2:{ apply wp_bind. eapply wp_mono; [|by apply (wp_reportBlocked life W); [by left| |]].
      intros [] d' h' Hh. by apply wp_ret. }
  apply wp_bind. eapply wp_mono; [|apply wp_SetProjectScheduled; [exact (filter_pick_name _ _ _ _ _ _ Hinvn Epick)|done]].
  intros res d' h' (Hinv' & t & -> & Ht). simpl app.
  assert (Forall (written W) t) as HW.
  { eapply Forall_impl; [exact Ht|]. intros [d2 d3|]; [|done].
    intros (Hd2 & r & now & now' & Hr & HP & ->). right.
    assert (Hb := Epick). apply pickBest_elem, filter_with_candidates in Hb as [[]%elem_of_nil|(n & Hn & Hv)].
    assert (cand_Node b = n) as Hbn.
    { revert Hv. unfold file_as. repeat case_match; try done. by intros [= <-]. }
    exists dn, dp, ledger, p, n, r, now, now'.
    split_and!; [trans d1; [apply Hd1|apply Hdn]|apply Hdp| |done|done|done|done| |].
    - intros m. destruct (Hl m) as [? ?]. split; [done|by trans df].
    - unfold cand_Name. by rewrite Hbn.
    - intros Hs. destruct (filter_pick _ _ _ _ _ _ Hs Epick) as (n' & Hn' & -> & He & Hall).
      simpl in Hbn. subst n'. by split. }
  destruct res as [[]|e]; [by apply wp_ret|]. destruct (Is e _); [|by apply wp_ret].
  apply wp_bind. eapply wp_mono; [|by apply (wp_reportBlocked life W); [by left| |]].
  intros [] d'' h' Hh. by apply wp_ret.
Qed.

(** A Pending Project and two Ready Nodes, the backup one empty, the primary one
    with another Project on it. *)
Definition ready_row (tier : string) : NodeRow :=
  let r := example_node_row NodeStateReady 0%Z in
  {| nr_UID := nr_UID r; nr_Phase := nr_Phase r; nr_Spec := nr_Spec r;
     nr_Status := {| nst_State := NodeStateReady; nst_Network := empty_network;
       nst_Capacity := ∅; nst_Allocatable := {[ "cpu" := "4"; "memory" := "8Gi" ]}%string;
       nst_Info := nst_Info empty_node_status; nst_LastHeartbeat := 0%Z; nst_Conditions := [] |};
     nr_Labels := {[ LabelNodeTier := tier ]}; nr_Annotations := ∅;
     nr_CreatedAt := 0%Z; nr_UpdatedAt := 0%Z; nr_Version := 1%Z |}.
Definition cluster_db : DB :=
  {| db_Projects := {[ project_key "shop" := example_row (counter_uuid 0) InitialProjectStatus 1;
                       project_key "blog" := example_row (counter_uuid 1) (running_status "b") 3 ]};
     db_Nodes := {[ "a" := ready_row NodeTierBackup; "b" := ready_row NodeTierPrimary ]}%string;
     db_Audit := []; db_Access := no_access; db_Issued := 2 |}.
Definition cluster_life (key : string * string) : string :=
  if decide (key = project_key "shop") then counter_uuid 0 else counter_uuid 1.

Lemma cluster_inv : @db_inv counter_uuids cluster_db.
Proof.
  split; [|done|exact no_access_inv]. intros key r. simpl. intros [[<- <-]|[_ [<- <-]%lookup_singleton_Some]]%lookup_insert_Some; split.
  - by split; unfold row_status; simpl; try done; try lia; apply initial_status_inv.
  - exists 0%nat. simpl. split; [lia|done].
  - by split; unfold row_status; simpl; try done; try lia; apply running_status_inv.
  - exists 1%nat. simpl. split; [lia|done].
Qed.

Lemma scheduler_binds_best_witness :
  let x := run (scheduler_Reconcile "shop") [] cluster_db [] in
  result_of x = Ok done_ ∧
  (∃ r, project_at (db_of x) "shop" = Some r ∧ st_NodeRef (row_status r) = "b"%string) ∧
  Forall (written (λ d1 d2, conditions_write d1 d2 ∨ @binds counter_uuids cluster_db "shop" d1 d2)) (history_of x).
Proof.
  intros x. split; [vm_compute; reflexivity|]. split; [eexists; split; vm_compute; reflexivity|].
  apply (@scheduler_binds_best counter_uuids cluster_life "shop" [] cluster_db cluster_inv).
  - intros key r. simpl. intros [[<- <-]|[_ [<- <-]%lookup_singleton_Some]]%lookup_insert_Some; vm_compute; reflexivity.
  - by constructor.
Defined.
