(* ===== verification/ProjectHandler.v ===== *)
(** The Project routes of operators (internal/server/handler/project/handler.go
    and takeover.go): reading, restart, deletion and takeover. A handler is
    modelled from the decoded request on; what it writes to the response is its
    result. *)
From Stdlib Require Import ZArith Lia.
From stdpp Require Import prelude gmap strings.
From S2P Require Import Prelude.
From S2P Require Import Conditions.
From S2P Require Import ProjectTypes.
From S2P Require Import Lifecycle.
From S2P Require Import SpecUpdate.
From S2P Require Import NodeTypes.
From S2P Require Import Database.
From S2P Require Import Evolution.
From S2P Require Import StatusStore.
From S2P Require Import Legality.
From S2P Require Import EvidenceStore.
From S2P Require Import ProjectStore.
From S2P Require Import Takeover.
From S2P Require Import Authz.
From S2P Require Import SpecValidation.
Import GoTime GoInt GoString GoError.
Open Scope go_scope.

(** ** Responses *)

Inductive response (A : Type) :=
| WriteHeader (status : Z)
| WriteJSON (status : Z) (body : A)
| WriteError (p : problem).
#[global] Arguments WriteHeader {A} status.
#[global] Arguments WriteJSON {A} status body.
#[global] Arguments WriteError {A} p.

Definition StatusOK : Z := 200.
Definition StatusAccepted : Z := 202.
Definition StatusNoContent : Z := 204.

Definition not_found {A} (name : string) : response A :=
  WriteError (ProblemOf (Wrap ("project not found: " ++ name ++ ": ")%string (Sentinel ErrNotFound) EmptyString)).
Definition recreated {A} (name : string) : response A :=
  WriteError (ProblemOf (Wrap ("project " ++ name
    ++ " was deleted and recreated during this request; retry to delete the new one: ")%string
    (Sentinel ErrConflictState) EmptyString)).

(** [if errors.Is(err, store.ErrNotFound) { not found } else { err }]. *)
Definition lookup_failed {A} (name : string) (e : error) : response A :=
  if Is e ErrNotFound then not_found name else WriteError (ProblemOf e).

(** ** Reading *)

Definition getProject_handler (name : string) : prog (response Project) :=
  getProject name ≫= λ res,
  Ret match res with
      | Err e => lookup_failed name e
      | Ok p => WriteJSON StatusOK p
      end.

Definition listProjects (phaseValues : list string) (nodeRefFilter : string)
    : prog (response (list Project)) :=
  match phaseValues with
  | [] => ListProjects
  | [p] => ListProjectsByPhase p
  | ps => ListProjectsByPhases ps
  end ≫= λ res,
  Ret match res with
      | Err e => WriteError (ProblemOf e)
      | Ok projects =>
          WriteJSON StatusOK
            (if decide (nodeRefFilter ≠ EmptyString)
             then filter (λ p, st_NodeRef (p_Status p) = nodeRefFilter) projects else projects)
      end.

Definition restartProject (name : string) : prog (response Project) :=
  now_ ≫= λ now,
  RestartProject name now ≫= λ res,
  Ret match res with
      | Err e => lookup_failed name e
      | Ok p => WriteJSON StatusOK p
      end.

(** ** Creating and updating *)

Definition StatusCreated : Z := 201.

Definition om_with_Name (n ns : string) (m : ObjectMeta) : ObjectMeta :=
  {| om_Name := n; om_UID := om_UID m; om_Namespace := ns; om_ResourceVersion := om_ResourceVersion m;
     om_SpecRevision := om_SpecRevision m; om_Labels := om_Labels m;
     om_Annotations := om_Annotations m; om_CreatedAt := om_CreatedAt m;
     om_UpdatedAt := om_UpdatedAt m |}.

(** The namespace of a request: empty means the default one. *)
Definition request_namespace (ns : string) : string :=
  if decide (ns = EmptyString) then DefaultNamespace else ns.

(** The status a Project is created with; [now] is the clock read when its
    backups have to be reported. *)
Definition created_status (spec : ProjectSpec) (now : Time) : ProjectStatus :=
  let s := InitialProjectStatus in
  let conditions := RemoveConditions (st_Conditions s) [ConditionTypeBackupActive] in
  st_with_Conditions
    (if HasPostgresDifferential spec then
       conditions ++ [mkCondition ConditionTypeBackupActive ConditionFalse ReasonNoAcceptedBackup
         "No PostgresDifferential backup of this Project has been accepted yet" now]
     else conditions) s.

Definition created_project (project : Project) (now : Time) : Project :=
  let m := p_Meta project in
  {| p_Meta := om_with_Name (om_Name m) (request_namespace (om_Namespace m)) m;
     p_Spec := p_Spec project; p_Status := created_status (p_Spec project) now |}.

Definition createProject `{UUIDSource} (postgresImage : string) (project : Project)
    : prog (response Project) :=
  let name := om_Name (p_Meta project) in
  if decide (name = EmptyString) then
    Ret (WriteError (ValidationError "metadata.name" "metadata.name is required"))
  else match ValidateName name with
  | Some message => Ret (WriteError (ValidationError "metadata.name" message))
  | None =>
      match ValidateNamespace (om_Namespace (p_Meta project)) with
      | Some message => Ret (WriteError (ValidationError "metadata.namespace" message))
      | None =>
          match validateProjectSpecFor (p_Spec project) postgresImage with
          | Some p => Ret (WriteError p)
          | None =>
              (if HasPostgresDifferential (p_Spec project) then now_ else Ret zero) ≫= λ now,
              CreateProject (created_project project now) ≫= λ res,
              Ret match res with
                  | Err e =>
                      if Is e ErrAlreadyExists then
                        WriteError (ProblemOf (Wrap ("project already exists: " ++ name ++ ": ")%string
                          (Sentinel ErrAlreadyExists) EmptyString))
                      else WriteError (ProblemOf e)
                  | Ok stored => WriteJSON StatusCreated stored
                  end
          end
      end
  end.

(** The field-level answer to a change the store would refuse. *)
Definition update_refusal (current project : Project) : option problem :=
  if negb (SameBackupItems (p_Spec current) (p_Spec project)) then
    Some (ValidationError "spec.backup.items"
      "spec.backup.items cannot change after the Project is created; in-place changes of backup strategy or retainFull are not supported")
  else if decide (st_NodeRef (p_Status current) ≠ EmptyString) then
    match CheckAssignedSpecChange (p_Spec current) (p_Spec project) with
    | Some refusal => Some (ValidationError (scr_Field refusal) (scr_Message refusal))
    | None => None
    end
  else None.

Definition updateProject (postgresImage name : string) (project : Project) : prog (response Project) :=
  let m := p_Meta project in
  if decide (om_Name m ≠ EmptyString ∧ om_Name m ≠ name) then
    Ret (WriteError (ValidationError "metadata.name"
      ("metadata.name " ++ Quote (om_Name m) ++ " does not match URL path " ++ Quote name)%string))
  else match ValidateNamespace (om_Namespace m) with
  | Some message => Ret (WriteError (ValidationError "metadata.namespace" message))
  | None =>
      let project := {| p_Meta := om_with_Name name (request_namespace (om_Namespace m)) m;
                        p_Spec := p_Spec project; p_Status := p_Status project |} in
      match validateProjectSpecFor (p_Spec project) postgresImage with
      | Some p => Ret (WriteError p)
      | None =>
          getProject name ≫= λ current,
          match (match current with Ok current => update_refusal current project | Err _ => None end) with
          | Some p => Ret (WriteError p)
          | None =>
              UpdateProjectSpec project ≫= λ res,
              match res with
              | Err e => Ret (lookup_failed name e)
              | Ok _ =>
                  getProject name ≫= λ res,
                  Ret match res with
                      | Err e => WriteError (ProblemOf e)
                      | Ok updated => WriteJSON StatusOK updated
                      end
              end
          end
      end
  end.

(** ** Deletion *)

(** The closure that moves a Project into Terminating. *)
Definition mark_terminating (name uid : string) (now : Time) (status : ProjectStatus)
    : result ProjectStatus :=
  if bool_decide (st_Phase status = ProjectPhaseTerminating)
     || bool_decide (st_Phase status = ProjectPhaseTerminated) then Ok status
  else if negb (PhaseTransitionAllowed WriterDeleteAPI (st_Phase status) ProjectPhaseTerminating) then
    Err (Wrap EmptyString (Sentinel ErrConflictState)
      (": project " ++ Quote name ++ " is " ++ st_Phase status
       ++ "; it cannot enter Terminating from there")%string)
  else
    let s := st_with_Phase ProjectPhaseTerminating status in
    Ok (if decide (st_NodeRef s ≠ EmptyString)
        then update_recovery
               (AddObligation {| ProjectUID := uid; NodeName := st_NodeRef s;
                                 ai_Generation := st_AssignmentGeneration s |} now ReleaseByDeletion) s
        else s).

(** The switch on the phase, once the Project is known not to be deletable at
    once. *)
Definition terminate (name : string) (project : Project) : prog (response ()) :=
  if decide (st_Phase (p_Status project) = ProjectPhaseTerminating ∨
             st_Phase (p_Status project) = ProjectPhaseTerminated)
  then Ret (WriteHeader StatusAccepted)
  else
    now_ ≫= λ now,
    let uid := om_UID (p_Meta project) in
    UpdateProjectStatusForUID name uid (mark_terminating name uid now) ≫= λ res,
    Ret match res with
        | Err e =>
            if Is e ErrNotFound then not_found name
            else if Is e ErrStaleAssignment then recreated name
            else WriteError (ProblemOf e)
        | Ok _ => WriteHeader StatusAccepted
        end.

Definition force_delete (name : string) : prog (response ()) :=
  DeleteProject name ≫= λ res,
  Ret match res with
      | Err e => lookup_failed name e
      | Ok _ => WriteHeader StatusNoContent
      end.

Definition deleteProject (name : string) (force : bool) : prog (response ()) :=
  getProject name ≫= λ res,
  match res with
  | Err e => Ret (lookup_failed name e)
  | Ok project =>
      if force then force_delete name
      else if decide (ImmediateDeletionBlocker project = EmptyString) then
        FinalizeProject name (om_UID (p_Meta project)) ImmediateDeletionBlocker ≫= λ res,
        match res with
        | Ok _ => Ret (WriteHeader StatusNoContent)
        | Err e =>
            if Is e ErrNotFound then Ret (not_found name)
            else if Is e ErrStaleAssignment then Ret (recreated name)
            else if Is e ErrConflictState then
              getProject name ≫= λ res,
              match res with
              | Err e' => Ret (lookup_failed name e')
              | Ok current =>
                  if decide (om_UID (p_Meta current) ≠ om_UID (p_Meta project))
                  then Ret (recreated name)
                  else terminate name current
              end
            else Ret (WriteError (ProblemOf e))
        end
      else terminate name project
  end.


(** ** Takeover *)

Definition maxTakeoverNoteLength : nat := 1024.

Record takeoverRequest := {
  tkr_UID : string;
  tkr_NodeRef : string;
  tkr_AssignmentGeneration : option Z;
  tkr_RequestID : string;
  tkr_Note : string
}.

(** TakeoverResponse: the record, and whether it was replayed. *)
Definition TakeoverResponse : Type := TakeoverAuditRecord * bool.

Definition operatorCaller (c : Caller) : string :=
  match c with Some p => Principal_String p | None => "unknown" end.

Definition postTakeover (caller : Caller) (name : string) (req : takeoverRequest)
    : prog (response TakeoverResponse) :=
  match RequireAdmin caller with
  | Some e => Ret (WriteError (ProblemOf e))
  | None =>
      if decide (tkr_RequestID req = EmptyString) then
        Ret (WriteError (ValidationError "requestID" "requestID is required"))
      else if Nat.ltb maxTakeoverNoteLength (String.length (tkr_Note req)) then
        Ret (WriteError (ValidationError "note" "note is too long"))
      else
        match (if decide (tkr_UID req = EmptyString ∨ tkr_NodeRef req = EmptyString) then None
               else tkr_AssignmentGeneration req) with
        | None =>
            Ret (WriteError (ProblemOf (Wrap EmptyString (Sentinel ErrStaleAssignment)
              (": project " ++ Quote name ++ ": takeover requires a complete assignment fence")%string)))
        | Some generation =>
            TakeoverProject name
              {| ref_UID := tkr_UID req; ref_NodeRef := tkr_NodeRef req; ref_Generation := generation |}
              {| ta_RequestID := tkr_RequestID req; ta_Caller := operatorCaller caller;
                 ta_Note := tkr_Note req |} ≫= λ res,
            Ret match res with
                | Err e => WriteError (ProblemOf e)
                | Ok answer => WriteJSON StatusOK answer
                end
        end
  end.

Definition getTakeoverAudit (caller : Caller) (name : string)
    : prog (response (list TakeoverAuditRecord)) :=
  match RequireAdmin caller with
  | Some e => Ret (WriteError (ProblemOf e))
  | None =>
      ListTakeoverAudit name ≫= λ res,
      Ret match res with
          | Err e => WriteError (ProblemOf e)
          | Ok records => WriteJSON StatusOK records
          end
  end.

(** ** The contract *)

(** Moving into Terminating keeps the assignment and records what it owes. *)
Lemma mark_terminating_cases name uid now s s' :
  mark_terminating name uid now s = Ok s' →
  (deleting s ∧ s' = s) ∨
  (¬ deleting s ∧ PhaseTransitionAllowed WriterDeleteAPI (st_Phase s) ProjectPhaseTerminating = true ∧
   s' = (if decide (st_NodeRef s ≠ EmptyString)
         then update_recovery (AddObligation (assignment_of uid s) now ReleaseByDeletion)
                (st_with_Phase ProjectPhaseTerminating s)
         else st_with_Phase ProjectPhaseTerminating s)).
Proof.
  unfold mark_terminating, deleting.
  destruct (bool_decide (st_Phase s = ProjectPhaseTerminating)) eqn:E1; bools; simpl;
    [intros [= <-]; auto|].
  destruct (bool_decide (st_Phase s = ProjectPhaseTerminated)) eqn:E2; bools; simpl;
    [intros [= <-]; auto|].
  destruct (PhaseTransitionAllowed _ _ _) eqn:E3; simpl; [|done].
  intros [= <-]. right. split; [naive_solver|]. by split.
Qed.

Lemma mark_terminating_extended uid s now :
  extended uid s (if decide (st_NodeRef s ≠ EmptyString)
     then update_recovery (AddObligation (assignment_of uid s) now ReleaseByDeletion)
            (st_with_Phase ProjectPhaseTerminating s)
     else st_with_Phase ProjectPhaseTerminating s).
Proof.
  case_decide as Hn.
  - eapply extended_recovery; [|by apply extended_AddObligation]. done.
  - apply (extended_recovery uid s s); [done|]. split; [done|]. exists []. rewrite app_nil_r. auto.
Qed.

Lemma mark_terminating_legal name uid now s s' :
  status_inv uid s → mark_terminating name uid now s = Ok s' → legal uid 0 s s'.
Proof.
  intros Hi [[_ ->]|(Hd & _ & ->)]%mark_terminating_cases; [by apply legal_core|].
  apply legal_delete; [done|done|apply mark_terminating_extended|..]; by case_decide.
Qed.

Section project_routes_safe.
Context `{UUIDSource}.

Lemma safe_terminate name project : safe others (terminate name project).
Proof.
  unfold terminate. case_decide; [apply safe_ret|].
  apply safe_bind; [by apply safe_now|]. intros now. apply safe_bind; [|intros; apply safe_ret].
  apply safe_UpdateProjectStatusForUID; eauto with cara.
  intros. by eapply mark_terminating_legal.
Qed.

Lemma safe_deleteProject name : safe others (deleteProject name false).
Proof.
  apply safe_bind; [by apply safe_getProject|]. intros [project|e]; [|apply safe_ret].
  cbv beta iota. case_decide; [|apply safe_terminate].
  apply safe_bind.
  { apply safe_FinalizeProject. intros r _ Hb. apply never_held_removable.
    by apply ImmediateDeletionBlocker_empty in Hb. }
  intros [[]|e]; [apply safe_ret|]. destruct (Is e ErrNotFound); [apply safe_ret|].
  destruct (Is e ErrStaleAssignment); [apply safe_ret|].
  destruct (Is e ErrConflictState); [|apply safe_ret].
  apply safe_bind; [by apply safe_getProject|]. intros [current|e']; [|apply safe_ret].
  case_decide; [apply safe_ret|apply safe_terminate].
Qed.

Lemma created_status_core spec now : same_core InitialProjectStatus (created_status spec now).
Proof. apply same_core_Conditions. Qed.

Lemma safe_createProject img project : safe others (createProject img project).
Proof.
  unfold createProject. case_decide; [apply safe_ret|].
  destruct (ValidateName _); [apply safe_ret|]. destruct (ValidateNamespace _); [apply safe_ret|].
  destruct (validateProjectSpecFor _ _); [apply safe_ret|].
  apply safe_bind; [destruct (HasPostgresDifferential _); [by apply safe_now|apply safe_ret]|].
  intros now. apply safe_bind; [|intros; apply safe_ret].
  apply safe_CreateProject, created_status_core.
Qed.

Lemma safe_updateProject img name project : safe others (updateProject img name project).
Proof.
  unfold updateProject. case_decide; [apply safe_ret|].
  destruct (ValidateNamespace _); [apply safe_ret|].
  destruct (validateProjectSpecFor _ _); [apply safe_ret|].
  apply safe_bind; [by apply safe_getProject|]. intros current.
  destruct (match current with Ok _ => _ | Err _ => _ end); [apply safe_ret|].
  apply safe_bind; [apply safe_UpdateProjectSpec|]. intros [p|e]; [|apply safe_ret].
  apply safe_bind; [by apply safe_getProject|intros; apply safe_ret].
Qed.

Lemma safe_restartProject name : safe others (restartProject name).
Proof.
  apply safe_bind; [by apply safe_now|]. intros now.
  apply safe_bind; [apply safe_RestartProject|intros; apply safe_ret].
Qed.

Lemma safe_postTakeover caller name req : safe others (postTakeover caller name req).
Proof.
  unfold postTakeover. destruct (RequireAdmin caller); [apply safe_ret|].
  case_decide; [apply safe_ret|]. destruct (Nat.ltb _ _); [apply safe_ret|].
  destruct (if decide _ then _ else _); [|apply safe_ret].
  apply safe_bind; [apply safe_TakeoverProject|intros; apply safe_ret].
Qed.
End project_routes_safe.

(** ** Properties *)

(** What a deletion that is not forced may do to the database, and answer. *)
Definition deletion_outcome `{UUIDSource} (name : string) (d0 : DB) (h : list Event)
    (res : response ()) (h' : list Event) : Prop :=
  (h' = h ∧ res ≠ WriteHeader StatusNoContent ∧
   (res = WriteHeader StatusAccepted →
      ∃ d r, others d0 d ∧ project_at d name = Some r ∧ deleting (row_status r))) ∨
  (∃ d1 r, others d0 d1 ∧ project_at d1 name = Some r ∧ never_held (row_status r) ∧
     h' = h ++ [Wrote d1 (drop_row (project_key name) d1)] ∧
     (res = WriteHeader StatusNoContent ∨
      ∃ e, res = WriteError (ProblemOf e) ∧ is_fault e = true)) ∨
  (∃ d1 r s' now, let d2 := put_row (project_key name) (commit_status s' now r) d1 in
     let a := assignment_of (row_UID r) (row_status r) in
     others d0 d1 ∧ project_at d1 name = Some r ∧ ¬ deleting (row_status r) ∧
     PhaseTransitionAllowed WriterDeleteAPI (st_Phase (row_status r)) ProjectPhaseTerminating = true ∧
     st_Phase s' = ProjectPhaseTerminating ∧ assignment_of (row_UID r) s' = a ∧
     (st_NodeRef (row_status r) ≠ EmptyString → is_Some (FindObligation (st_Recovery s') a)) ∧
     obligations_evolve (st_Recovery (row_status r)) (st_Recovery s') ∧
     ((res = WriteHeader StatusAccepted ∧
       h' = h ++ [Wrote d1 d2; Published TopicProjectUpdated name]) ∨
      (∃ e, res = WriteError (ProblemOf e) ∧ is_fault e = true ∧ h' = h ++ [Wrote d1 d2]))).

Lemma deletion_refused `{UUIDSource} name d0 h res :
  res ≠ WriteHeader StatusNoContent → res ≠ WriteHeader StatusAccepted →
  deletion_outcome name d0 h res h.
Proof. intros ??. by left. Qed.

Lemma lookup_failed_cases {A} name e s : lookup_failed (A := A) name e ≠ WriteHeader s.
Proof. unfold lookup_failed, not_found. by destruct (Is e ErrNotFound). Qed.

Lemma wp_terminate `{UUIDSource} name project d0 d h :
  db_inv d → others d0 d →
  (∃ d' r, others d0 d' ∧ project_at d' name = Some r ∧ project = project_of_row (project_key name) r) →
  wp others (λ _ _, True) (terminate name project) (λ res _ h', deletion_outcome name d0 h res h') d h.
Proof.
  intros Hinv Hd (d' & r & Hd' & Hr & ->). unfold terminate. case_decide as Hdel.
  { apply wp_ret. left. split_and!; try done. intros _. by exists d', r. }
  apply wp_bind, wp_now. intros now d1 Hd1.
  apply wp_bind. eapply wp_mono; [|apply wp_UpdateProjectStatusForUID; by apply Hd1].
  intros res d2 h2 [[-> Hnoop]|(e1 & e2 & (He1 & r1 & s' & t & Hr1 & Hu1 & Hm & Hne & ->) & Hres)];
    apply wp_ret.
  - destruct res as [[]|e].
    + left. split_and!; try done. intros _. destruct (Hnoop eq_refl) as (d3 & r3 & Hd3 & Hr3 & _ & Hm).
      apply mark_terminating_cases in Hm as [[Hdel3 _]|(Hnd & _ & Heq)].
      * exists d3, r3. split_and!; try done. by trans d; [|trans d1].
      * exfalso. apply Hnd. rewrite Heq. left. by case_decide.
    + apply deletion_refused; unfold not_found, recreated;
        destruct (Is e ErrNotFound), (Is e ErrStaleAssignment); done.
  - right. right. exists e1, r1, s', t. cbv zeta.
    apply mark_terminating_cases in Hm as [[? ->]|(Hnd & Ha & Heq)]; [done|]. subst s'.
    cbn [om_UID p_Meta project_of_row] in *. rewrite <- Hu1 in *.
    split_and!; try done.
    + by trans d; [|trans d1].
    + by case_decide.
    + by case_decide.
    + intros Hn. rewrite decide_True by done. simpl. rewrite AddObligation_find.
      rewrite decide_True by done. by destruct (FindObligation _ _).
    + apply (ex_evolve (row_UID r1)). apply mark_terminating_extended.
    + destruct Hres as [[-> ->]|(e & -> & Hf & ->)]; [by left|right].
      exists e. rewrite !fault_is_not by done. by split_and!.
Qed.

(** C30 (handler.go, deleteProject): a deletion that is not forced never drops
    what an Agent may still hold. Whatever happens meanwhile it writes at most
    once. Either it removes a row that, at that moment, no Node was ever
    assigned; or it moves a Project the delete API may move into Terminating,
    leaving the assignment as it is and recording, in the same write, a cleanup
    obligation for the assignment it holds, every earlier obligation kept; or it
    writes nothing. 204 is answered only for the removal, 202 only when the
    Project was moved or is already being deleted, and an error after a write is
    the write's lost acknowledgement. *)
Theorem deleteProject_exact `{UUIDSource} (name : string) (ms : list move) (d0 : DB)
    (Hinv : db_inv d0) (Hms : schedule_ok ms) :
  let x := run (deleteProject name false) ms d0 [] in
  deletion_outcome name d0 [] (result_of x) (history_of x).
Proof.
  intros x. subst x. run_wp (deleteProject name false) ms d0.
  apply wp_bind. apply wp_getProject.
  { intros. apply wp_ret, deletion_refused; apply lookup_failed_cases. }
  2:{ intros. apply wp_ret, deletion_refused; apply lookup_failed_cases. }
  intros d r Hd Hr. cbv beta iota. case_decide as Hb.
  2:{ apply wp_terminate; [by apply Hd|done|eauto]. }
  apply wp_bind, wp_transaction. intros d1 Hd1.
  split; [intros e He; apply wp_ret|].
  { rewrite !fault_is_not by done. by apply wp_ret, deletion_refused. }
  unfold finalize_tx, select_project. destruct (project_at d1 name) as [r1|] eqn:Er;
    cbn [fmap option_fmap option_map p_Meta om_UID project_of_row]; [|by apply deletion_refused].
  case_decide as Hu; [by apply deletion_refused|].
  case_decide as Hb1.
  - apply wp_ret. cbn [Is]. rewrite (bool_decide_false (ErrNotFound = _)) by done.
    rewrite (bool_decide_false (ErrStaleAssignment = _)) by done. rewrite bool_decide_true by done.
    apply wp_bind. apply wp_getProject.
    { intros. apply wp_ret, deletion_refused; apply lookup_failed_cases. }
    2:{ intros. apply wp_ret, deletion_refused; apply lookup_failed_cases. }
    intros d2 r2 Hd2 Hr2. case_decide; [by apply wp_ret, deletion_refused|].
    assert (others d0 d2) by (by trans d; [|trans d1]).
    apply wp_terminate; [by apply Hd2, Hd1, Hd|done|eauto].
  - apply ImmediateDeletionBlocker_empty in Hb1. simpl in Hb1.
    assert (others d0 d1) by (by trans d).
    split; [|intros e He]; apply wp_ret; [|rewrite !fault_is_not by done]; apply wp_ret;
      right; left; exists d1, r1; split_and!; auto.
    right. by eexists.
Qed.

(** A Running Project is moved, and owes its cleanup; a Pending one that never
    had a Node is removed. *)
Lemma deleteProject_exact_witness :
  (let x := run (deleteProject "shop" false) [] (example_db (running_status "a") 3) [] in
   result_of x = WriteHeader StatusAccepted ∧ length (history_of x) = 2 ∧
   ∃ r, project_at (db_of x) "shop" = Some r ∧ deleting (row_status r)) ∧
  (let x := run (deleteProject "shop" false) [] (example_db InitialProjectStatus 1) [] in
   result_of x = WriteHeader StatusNoContent ∧ project_at (db_of x) "shop" = None).
Proof.
  split; intros x.
  - destruct (@deleteProject_exact counter_uuids "shop" [] (example_db (running_status "a") 3)
      example_running_inv ltac:(by constructor))
      as [[Hh _]|[(d1 & r & _ & _ & _ & Hh & _)|(d1 & r & s' & now & _ & _ & _ & _ & _ & _ & _ & _ & [[Hr Hh]|(e & He & _)])]].
    + exfalso. vm_compute in Hh. discriminate.
    + exfalso. vm_compute in Hh. discriminate.
    + subst x. rewrite Hr, Hh. split_and!; try done.
      eexists. split; [vm_compute; reflexivity|]. left. vm_compute. reflexivity.
    + exfalso. vm_compute in He. discriminate.
  - split; vm_compute; reflexivity.
Defined.

(** (handler.go, createProject): a Project starts as the server says, never
    as the client says. Whatever status the request carried and whatever happens
    meanwhile, the request inserts at most one row, under a name no row had; its
    name and spec are valid and its spec is the one given; it is Pending, has
    never been assigned, owes nothing and has no evidence and no backup records;
    its only condition, present exactly when its strategy reports its backups,
    says none has been accepted. 201 is answered only for such an insertion. *)
Theorem createProject_exact `{UUIDSource} (postgresImage : string) (project : Project)
    (ms : list move) (d0 : DB) (Hinv : db_inv d0) (Hms : schedule_ok ms) :
  let x := run (createProject postgresImage project) ms d0 [] in
  (history_of x = [] ∧ ∀ body, result_of x ≠ WriteJSON StatusCreated body) ∨
  (∃ d1 key r, let d2 := insert_row key r d1 in let s := row_status r in
     others d0 d1 ∧ db_Projects d1 !! key = None ∧ key.2 = om_Name (p_Meta project) ∧
     ValidateName key.2 = None ∧ row_Spec r = p_Spec project ∧ valid_spec (row_Spec r) postgresImage ∧
     st_Phase s = ProjectPhasePending ∧ st_NodeRef s = EmptyString ∧ st_AssignmentGeneration s = 0%Z ∧
     st_AssignmentHistory s = AssignmentHistoryNeverAssigned ∧ st_Recovery s = None ∧
     st_Backup s = None ∧ st_FailedNodes s = [] ∧ st_ObservedSpecRevision s = 0%Z ∧
     (∀ t, cond_Status <$> condition_of t (st_Conditions s) =
        if decide (t = ConditionTypeBackupActive ∧ HasPostgresDifferential (row_Spec r) = true)
        then Some ConditionFalse else None) ∧
     ((result_of x = WriteJSON StatusCreated (project_of_row key r) ∧
       history_of x = [Wrote d1 d2; Published TopicProjectCreated key.2]) ∨
      (∃ e, result_of x = WriteError (ProblemOf e) ∧ is_fault e = true ∧ history_of x = [Wrote d1 d2]))).
Proof.
  intros x. subst x. run_wp (createProject postgresImage project) ms d0. unfold createProject.
  case_decide; [by apply wp_ret; left|].
  destruct (ValidateName _) eqn:En; [by apply wp_ret; left|].
  destruct (ValidateNamespace _); [by apply wp_ret; left|].
  destruct (validateProjectSpecFor _ _) as [p|] eqn:Ev; [by apply wp_ret; left|].
  apply validateProjectSpecFor_valid in Ev.
  assert (wp others (λ _ _, True) (if HasPostgresDifferential (p_Spec project) then now_ else Ret zero)
    (λ _ d h, h = [] ∧ others d0 d) d0 []) as Hnow.
  { destruct (HasPostgresDifferential _); [by apply wp_now|by apply wp_ret]. }
  apply wp_bind. eapply wp_mono; [|exact Hnow]. clear Hnow.
  intros now d h0 [-> Hd]. apply wp_bind. eapply wp_mono; [|apply wp_CreateProject; by apply Hd].
  intros res d' h' Hres. apply wp_ret.
  destruct Hres as [[-> (e & -> & _)]|(d1 & t & Hd1 & Hnone & Hput & _ & _ & _ & Hspec & Hstatus & Hres)].
  { left. split; [done|]. intros body. by destruct (Is e ErrAlreadyExists). }
  right. set (r := new_row _ _ t) in *. exists d1, (project_row_key (created_project project now)), r.
  cbv zeta. rewrite Hstatus, Hspec. split_and!; try done; [by trans d| |].
  - intros ct. simpl. unfold RemoveConditions. destruct (HasPostgresDifferential (p_Spec project)); simpl.
    + case_decide as Hct.
      * destruct Hct as [-> _]. done.
      * unfold condition_of. simpl. unfold has_type. simpl. rewrite bool_decide_false; [done|].
        intros <-. by destruct Hct.
    + by rewrite decide_False by (by intros [_ ?]).
  - destruct Hres as [[-> ->]|(e & -> & He & ->)]; [by left|right].
    exists e. by rewrite fault_is_not.
Qed.

(** A client that claims its Project already runs on a Node of its choosing. *)
Definition forged_project : Project :=
  {| p_Meta := p_Meta (example_project "blog" empty_spec);
     p_Spec := example_database_spec "-k"; p_Status := running_status "evil" |}.

Lemma createProject_exact_witness :
  let x := run (@createProject counter_uuids PostgresDifferentialImage forged_project) []
             (example_db (running_status "a") 3) [] in
  length (history_of x) = 2 ∧
  ∃ r, project_at (db_of x) "blog" = Some r ∧ st_Phase (row_status r) = ProjectPhasePending.
Proof.
  intros x. split; [|eexists; split; vm_compute; reflexivity].
  destruct (@createProject_exact counter_uuids PostgresDifferentialImage forged_project []
    (example_db (running_status "a") 3) example_running_inv ltac:(by constructor))
    as [[Hh _]|(d1 & key & r & _ & _ & _ & _ & _ & _ & _ & _ & _ & _ & _ & _ & _ & _ & _ & [[_ Hh]|(e & He & _)])].
  - exfalso. vm_compute in Hh. discriminate.
  - subst x. by rewrite Hh.
  - exfalso. vm_compute in He. discriminate.
Defined.
