(* ===== verification/TokenRoutes.v ===== *)
(** The routes that issue, trade and revoke tokens
    (internal/server/handler/token/handler.go). What crypto/rand gave for a new
    token is an argument of the handler that asks for one. *)
From Stdlib Require Import ZArith Lia Ascii.
From stdpp Require Import prelude gmap strings.
From S2P Require Import Prelude.
From S2P Require Import ProjectTypes.
From S2P Require Import NodeTypes.
From S2P Require Import Duration.
From S2P Require Import Strconv.
From S2P Require Import Digest.
From S2P Require Import AccessTypes.
From S2P Require Import Database.
From S2P Require Import Evolution.
From S2P Require Import StatusStore.
From S2P Require Import Legality.
From S2P Require Import AccessStore.
From S2P Require Import Authz.
From S2P Require Import Authentication.
From S2P Require Import ProjectHandler.
Import GoTime GoInt GoString GoError.
Open Scope nat_scope.
Open Scope go_scope.

Definition DefaultJoinTokenTTL : Duration := Hour.
Definition MaxJoinTokenTTL : Duration := (7 * 24 * Hour)%Z.

(** ** API tokens *)

(** The zero Principal of a request without one. *)
Definition caller_of (c : Caller) : Principal :=
  default {| pr_Kind := EmptyString; pr_Name := EmptyString |} c.

Definition createToken (rand : result (list Z)) (caller : Caller) (req : APITokenRequest)
    : prog (response APITokenCreated) :=
  match RequireAdmin caller with
  | Some e => Ret (WriteError (ProblemOf e))
  | None =>
      if negb (APITokenKind_Valid (atr_Kind req)) then
        Ret (WriteError (ValidationError "kind"
          ("kind must be " ++ Quote APITokenKindNode ++ " or " ++ Quote APITokenKindUser)))
      else match ValidateName (atr_Name req) with
      | Some message => Ret (WriteError (ValidationError "name" message))
      | None =>
          if decide (atr_Kind req = APITokenKindUser ∧ atr_Name req = BreakGlassName) then
            Ret (WriteError (ValidationError "name" "the break-glass name is reserved"))
          else match rand with
          | Err e => Ret (WriteError (ProblemOf e))
          | Ok b =>
              let token := NewToken b in
              CreateAPIToken (atr_Kind req) (atr_Name req) (HashToken token)
                (Principal_String (caller_of caller)) ≫= λ res,
              Ret match res with
                  | Err e => WriteError (ProblemOf e)
                  | Ok issued => WriteJSON StatusCreated {| atc_APIToken := issued; atc_Token := token |}
                  end
          end
      end
  end.

Definition listTokens (caller : Caller) : prog (response (list APIToken)) :=
  match RequireAdmin caller with
  | Some e => Ret (WriteError (ProblemOf e))
  | None =>
      ListAPITokens ≫= λ res,
      Ret match res with Err e => WriteError (ProblemOf e) | Ok tokens => WriteJSON StatusOK tokens end
  end.

Definition revokeToken (caller : Caller) (pathID : string) : prog (response ()) :=
  match RequireAdmin caller with
  | Some e => Ret (WriteError (ProblemOf e))
  | None =>
      match ParseInt pathID with
      | None => Ret (WriteError (ValidationError "id" "id must be an integer"))
      | Some id =>
          RevokeAPIToken id ≫= λ res,
          Ret match res with Err e => WriteError (ProblemOf e) | Ok () => WriteHeader StatusNoContent end
      end
  end.

(** ** Join tokens *)

(** The lifetime a request asks for; none is an answer for the client. *)
Definition join_ttl (req : NodeJoinTokenRequest) : option Duration :=
  if decide (jtr_TTL req ≠ EmptyString) then
    match ParseDuration (jtr_TTL req) with
    | Some d => if bool_decide (d <= 0)%Z || bool_decide (MaxJoinTokenTTL < d)%Z then None else Some d
    | None => None
    end
  else Some DefaultJoinTokenTTL.

(** A request without a body is the zero request. *)
Definition createJoinToken (rand : result (list Z)) (caller : Caller) (name : string)
    (req : NodeJoinTokenRequest) : prog (response NodeJoinTokenCreated) :=
  match RequireAdmin caller with
  | Some e => Ret (WriteError (ProblemOf e))
  | None =>
      match ValidateName name with
      | Some message => Ret (WriteError (ValidationError "name" message))
      | None =>
          match join_ttl req with
          | None => Ret (WriteError (ValidationError "ttl"
              "ttl must be a duration between 1s and 168h0m0s"))
          | Some ttl =>
              match rand with
              | Err e => Ret (WriteError (ProblemOf e))
              | Ok b =>
                  let token := NewToken b in
                  now_ ≫= λ now,
                  CreateNodeJoinToken name (HashToken token) (Principal_String (caller_of caller))
                    (now + ttl)%Z ≫= λ res,
                  Ret match res with
                      | Err e => WriteError (ProblemOf e)
                      | Ok issued =>
                          WriteJSON StatusCreated {| jtc_NodeJoinToken := issued; jtc_Token := token |}
                      end
              end
          end
      end
  end.

(** The join token of the Authorization header. *)
Definition join_bearer (authorization : string) : option string :=
  match CutPrefix "Bearer " authorization with
  | Some token => if decide (TrimSpace token = EmptyString) then None else Some (TrimSpace token)
  | None => None
  end.

Definition joinNode (rand : result (list Z)) (name authorization : string) : prog (response NodeJoined) :=
  match join_bearer authorization with
  | None => Ret (WriteError (ProblemOf (Sentinel ErrInvalidJoinToken)))
  | Some joinToken =>
      match rand with
      | Err e => Ret (WriteError (ProblemOf e))
      | Ok b =>
          let nodeToken := NewToken b in
          now_ ≫= λ now,
          RedeemNodeJoinToken (HashToken joinToken) name (HashToken nodeToken) now ≫= λ res,
          Ret match res with
              | Ok issued => WriteJSON StatusCreated {| nj_APIToken := issued; nj_Token := nodeToken |}
              | Err e =>
                  if Is e ErrNotFound then WriteError (ProblemOf (Sentinel ErrInvalidJoinToken))
                  else WriteError (ProblemOf e)
              end
      end
  end.

Definition revokeNodeTokens (caller : Caller) (name : string) : prog (response NodeTokensRevoked) :=
  match RequireAdmin caller with
  | Some e => Ret (WriteError (ProblemOf e))
  | None =>
      match ValidateName name with
      | Some message => Ret (WriteError (ValidationError "name" message))
      | None =>
          RevokeNodeTokens name ≫= λ res,
          Ret match res with
              | Err e => WriteError (ProblemOf e)
              | Ok (nodes, joins) =>
                  WriteJSON StatusOK {| ntr_NodeTokens := nodes; ntr_JoinTokens := joins |}
              end
      end
  end.

(** ** The contract *)

(** Who may issue, and what is recorded of it. *)
Lemma RequireAdmin_None c : RequireAdmin c = None → pr_Kind (caller_of c) = APITokenKindUser.
Proof. destruct c as [p|]; simpl; [|done]. unfold IsAdmin. by case_bool_decide. Qed.

Lemma admin_creator c k : RequireAdmin c = None → Principal_String (caller_of c) ≠ join_creator k.
Proof. intros Hc%RequireAdmin_None. unfold Principal_String. rewrite Hc. discriminate. Qed.

Section token_routes_safe.
Context `{UUIDSource}.

Lemma safe_createToken rand caller req : safe others (createToken rand caller req).
Proof.
  unfold createToken. destruct (RequireAdmin caller) eqn:Ea; [apply safe_ret|].
  destruct (negb _); [apply safe_ret|]. destruct (ValidateName _); [apply safe_ret|].
  case_decide; [apply safe_ret|]. destruct rand as [b|e]; [|apply safe_ret].
  apply safe_bind; [|intros; apply safe_ret]. apply safe_CreateAPIToken. intros k. by apply admin_creator.
Qed.

Lemma safe_listTokens caller : safe others (listTokens caller).
Proof.
  unfold listTokens. destruct (RequireAdmin _); [apply safe_ret|].
  apply safe_bind; [|intros; apply safe_ret].
  apply safe_bind; [by apply safe_query_access|intros; apply safe_ret].
Qed.

Lemma safe_revokeToken caller id : safe others (revokeToken caller id).
Proof.
  unfold revokeToken. destruct (RequireAdmin _); [apply safe_ret|]. destruct (ParseInt _); [|apply safe_ret].
  apply safe_bind; [apply safe_RevokeAPIToken|intros; apply safe_ret].
Qed.

Lemma safe_createJoinToken rand caller name req : safe others (createJoinToken rand caller name req).
Proof.
  unfold createJoinToken. destruct (RequireAdmin _); [apply safe_ret|].
  destruct (ValidateName _); [apply safe_ret|]. destruct (join_ttl _); [|apply safe_ret].
  destruct rand as [b|e]; [|apply safe_ret]. apply safe_bind; [by apply safe_now|]. intros now.
  apply safe_bind; [apply safe_CreateNodeJoinToken|intros; apply safe_ret].
Qed.

Lemma safe_joinNode rand name authorization : safe others (joinNode rand name authorization).
Proof.
  unfold joinNode. destruct (join_bearer _); [|apply safe_ret]. destruct rand as [b|e]; [|apply safe_ret].
  apply safe_bind; [by apply safe_now|]. intros now.
  apply safe_bind; [apply safe_RedeemNodeJoinToken|intros; apply safe_ret].
Qed.

Lemma safe_revokeNodeTokens caller name : safe others (revokeNodeTokens caller name).
Proof.
  unfold revokeNodeTokens. destruct (RequireAdmin _); [apply safe_ret|].
  destruct (ValidateName _); [apply safe_ret|].
  apply safe_bind; [apply safe_RevokeNodeTokens|intros; apply safe_ret].
Qed.
End token_routes_safe.

(** ** Properties *)

Definition bearer_header (token : string) : string := ("Bearer " ++ token)%string.

Lemma bearer_token token : all_bytes visible token = true → bearer (bearer_header token) = token.
Proof. intros Hv. unfold bearer, bearer_header. rewrite CutPrefix_app. by apply TrimSpace_visible. Qed.

Lemma join_bearer_token b : Forall is_byte b → join_bearer (bearer_header (NewToken b)) = Some (NewToken b).
Proof.
  intros Hb. unfold join_bearer, bearer_header. rewrite CutPrefix_app.
  rewrite TrimSpace_visible by by apply NewToken_visible. by rewrite decide_False by done.
Qed.

(** The next row of a table has an id and its hash is new. *)
Definition room {A} (hash : A → string) (h : string) (next : Z) (m : gmap Z A) : Prop :=
  (next ≤ max_int64)%Z ∧ m !! next = None ∧ ∀ i r, m !! i = Some r → hash r ≠ h.

Lemma room_unused {A} (hash : A → string) h next m :
  room hash h next m → select_hash hash (λ _, true) h m = None.
Proof. intros (_ & _ & Hh). apply select_hash_None. intros i r Hr Heq. by apply Hh in Hr. Qed.

Lemma insert_token_room kind name h by_ now a :
  room tr_Hash h (ac_NextToken a) (ac_Tokens a) →
  let t := {| at_ID := ac_NextToken a; at_Kind := kind; at_Name := name; at_CreatedBy := by_;
              at_CreatedAt := timestamptz now; at_RevokedAt := None |} in
  insert_token kind name h by_ now a =
    Ok (t, ac_with_Tokens (ac_NextToken a + 1) (<[ac_NextToken a := {| tr_Token := t; tr_Hash := h |}]> (ac_Tokens a)) a).
Proof.
  intros Hroom t. unfold insert_token. rewrite (room_unused _ _ _ _ Hroom). destruct Hroom as (Hmax & Hfree & _).
  rewrite bool_decide_eq_false_2 by lia. rewrite Hfree, !bool_decide_eq_false_2 by apply is_Some_None. done.
Qed.

(** The row a join token is issued as. *)
Definition issued_join (id : Z) (name h by_ : string) (created expires : Time) : JoinRow :=
  {| jr_Token := {| jt_ID := id; jt_NodeName := name; jt_CreatedBy := by_;
       jt_CreatedAt := timestamptz created; jt_ExpiresAt := timestamptz expires;
       jt_UsedAt := None; jt_RevokedAt := None |}; jr_Hash := h |}.

Lemma run_createJoinToken b admin name req ttl t1 t2 d :
  ValidateName name = None → join_ttl req = Some ttl →
  let a := db_Access d in
  room jr_Hash (HashToken (NewToken b)) (ac_NextJoin a) (ac_Joins a) →
  let x := run (createJoinToken (Ok b) (Some {| pr_Kind := APITokenKindUser; pr_Name := admin |}) name req)
             [at_time t1; at_time t2] d [] in
  let row := issued_join (ac_NextJoin a) name (HashToken (NewToken b)) ("user:" ++ admin) t2 (t1 + ttl)%Z in
  result_of x = WriteJSON StatusCreated {| jtc_NodeJoinToken := jr_Token row; jtc_Token := NewToken b |} ∧
  db_of x = db_with_Access (ac_with_Joins (ac_NextJoin a + 1) (<[ac_NextJoin a := row]> (ac_Joins a)) a) d.
Proof.
  intros Hname Hreq a Hroom x row. subst x. unfold createJoinToken.
  change (RequireAdmin _) with (@None error). cbv iota. rewrite Hname, Hreq.
  unfold CreateNodeJoinToken, exec_access. simpl. fold a. rewrite (room_unused _ _ _ _ Hroom).
  destruct Hroom as (Hmax & Hfree & _).
  rewrite bool_decide_eq_false_2 by lia. rewrite Hfree, !bool_decide_eq_false_2 by apply is_Some_None. done.
Qed.

Lemma joinable_now ttl t t1 : (t + 1000 ≤ t1 + ttl)%Z → (timestamptz t < timestamptz (t1 + ttl))%Z.
Proof.
  unfold timestamptz. intros Ht. pose proof (Z.mod_pos_bound t 1000 ltac:(lia)).
  pose proof (Z.div_mod t 1000 ltac:(lia)). pose proof (Z.div_mod (t1 + ttl) 1000 ltac:(lia)).
  pose proof (Z.mod_pos_bound (t1 + ttl) 1000 ltac:(lia)).
  pose proof (Z.div_le_mono (t + 1 * 1000) (t1 + ttl) 1000 ltac:(lia) ltac:(lia)) as Hd.
  rewrite Z.div_add in Hd by lia. lia.
Qed.

Lemma run_joinNode b b1 name t k r d :
  let a := db_Access d in access_inv a → Forall is_byte b1 →
  ac_Joins a !! k = Some r → jr_Hash r = HashToken (NewToken b1) → jt_NodeName (jr_Token r) = name →
  room tr_Hash (HashToken (NewToken b)) (ac_NextToken a) (ac_Tokens a) →
  redeemable t r = true →
  let x := run (joinNode (Ok b) name (bearer_header (NewToken b1))) [at_time t] d [] in
  let issued := {| at_ID := ac_NextToken a; at_Kind := APITokenKindNode; at_Name := name;
                   at_CreatedBy := join_creator k; at_CreatedAt := timestamptz t; at_RevokedAt := None |} in
  result_of x = WriteJSON StatusCreated {| nj_APIToken := issued; nj_Token := NewToken b |} ∧
  db_of x = db_with_Access (redeemed k r issued (HashToken (NewToken b)) t a) d.
Proof.
  intros a Hinv Hb1 Hr Hh Hn Hroom Hrd x issued. subst x. unfold joinNode.
  rewrite join_bearer_token by done. unfold RedeemNodeJoinToken, exec_access. simpl. fold a. unfold redeem.
  rewrite (select_hash_unique jr_Hash _ _ _ k r (ai_join_hash _ Hinv) Hr Hh Hrd).
  rewrite Hn, decide_False by naive_solver.
  rewrite (ai_join_id _ Hinv k r Hr). rewrite insert_token_room by done. done.
Qed.

Definition admin_caller (name : string) : Caller := Some {| pr_Kind := APITokenKindUser; pr_Name := name |}.

(** C34 (token/handler.go and auth.go): enrolment works, once. An administrator asks
    for a join token for a valid Node name with an accepted lifetime; an Agent
    presents what it was given before the lifetime is over; what the Agent gets
    back then authenticates as exactly that Node, at any request that is not
    public; and the join token is refused to whoever presents it again, at any
    time. This holds from any well-formed tables whose sequences have a next id
    free, whatever random bytes the tokens are made of as long as their digests are
    new. *)
Theorem enrolment_round_trip (d0 : DB) (admin name : string) (req : NodeJoinTokenRequest) (ttl : Duration)
    (b1 b2 b3 : list Z) (t0 t1 t2 t3 : Time) (bg : option (list Z)) (r : HTTPRequest)
    (Hinv : access_inv (db_Access d0)) (Hname : ValidateName name = None) (Hreq : join_ttl req = Some ttl)
    (Hb1 : Forall is_byte b1) (Hb2 : Forall is_byte b2)
    (Hjoin : room jr_Hash (HashToken (NewToken b1)) (ac_NextJoin (db_Access d0)) (ac_Joins (db_Access d0)))
    (Hnode : room tr_Hash (HashToken (NewToken b2)) (ac_NextToken (db_Access d0)) (ac_Tokens (db_Access d0)))
    (Hbg : is_break_glass bg (NewToken b2) = false)
    (Hprivate : publicPaths (hr_Path r) = false ∧ isNodeJoin r = false)
    (Htime : (t2 + 1000 ≤ t0 + ttl)%Z) :
  ∃ created joined,
    let x1 := run (createJoinToken (Ok b1) (admin_caller admin) name req) [at_time t0; at_time t1] d0 [] in
    result_of x1 = WriteJSON StatusCreated created ∧
    let x2 := run (joinNode (Ok b2) name (bearer_header (jtc_Token created))) [at_time t2] (db_of x1) [] in
    result_of x2 = WriteJSON StatusCreated joined ∧
    (hr_Authorization r = bearer_header (nj_Token joined) →
     result_of (run (Middleware bg r) [] (db_of x2) []) =
       Pass (Some {| pr_Kind := APITokenKindNode; pr_Name := name |})) ∧
    result_of (run (joinNode (Ok b3) name (bearer_header (jtc_Token created))) [at_time t3] (db_of x2) []) =
      WriteError (ProblemOf (Sentinel ErrInvalidJoinToken)).
Proof.
  set (a0 := db_Access d0) in *.
  set (row := issued_join (ac_NextJoin a0) name (HashToken (NewToken b1)) ("user:" ++ admin) t1 (t0 + ttl)%Z).
  set (a1 := ac_with_Joins (ac_NextJoin a0 + 1) (<[ac_NextJoin a0 := row]> (ac_Joins a0)) a0).
  set (issued := {| at_ID := ac_NextToken a0; at_Kind := APITokenKindNode; at_Name := name;
    at_CreatedBy := join_creator (ac_NextJoin a0); at_CreatedAt := timestamptz t2; at_RevokedAt := None |}).
  set (a2 := redeemed (ac_NextJoin a0) row issued (HashToken (NewToken b2)) t2 a1).
  destruct Hjoin as (Hj1 & Hj2 & Hj3).
  destruct (insert_fresh_join (ac_NextJoin a0) row (ac_NextJoin a0 + 1) a0 Hinv Hj2 eq_refl Hj3) as [_ Hinv1].
  fold a1 in Hinv1.
  assert (redeemable t2 row = true) as Hrd.
  { unfold redeemable. simpl. apply bool_decide_eq_true_2. by apply joinable_now. }
  destruct (run_createJoinToken b1 admin name req ttl t0 t1 d0 Hname Hreq (conj Hj1 (conj Hj2 Hj3)))
    as [Hx1 Hd1]. fold a0 row a1 in Hx1, Hd1.
  destruct (run_joinNode b2 b1 name t2 (ac_NextJoin a0) row (db_with_Access a1 d0) Hinv1 Hb1
    ltac:(apply lookup_insert_eq) eq_refl eq_refl Hnode Hrd) as [Hx2 Hd2]. fold issued a2 in Hx2, Hd2.
  assert (access_inv a2) as Hinv2.
  { eapply redeemed_ok; [exact Hinv1| |split_and!; try done; apply Hnode|done|apply Hnode].
    split; [apply lookup_insert_eq|]. split; [reflexivity|]. by apply redeemable_iff. }
  exists {| jtc_NodeJoinToken := jr_Token row; jtc_Token := NewToken b1 |},
    {| nj_APIToken := issued; nj_Token := NewToken b2 |}.
  cbv zeta. unfold admin_caller. rewrite Hd1. cbn [jtc_Token]. rewrite Hd2.
  split; [exact Hx1|]. split; [exact Hx2|]. cbn [nj_Token]. split.
  - intros Hauth. unfold Middleware. destruct Hprivate as [-> ->]. cbn [orb].
    rewrite Hauth, bearer_token by by apply NewToken_visible.
    unfold Authenticate. rewrite decide_False by done. rewrite Hbg. simpl.
    rewrite (select_hash_unique tr_Hash live _ _ (ac_NextToken a0)
      {| tr_Token := issued; tr_Hash := HashToken (NewToken b2) |} (ai_token_hash _ Hinv2)); try done.
    apply lookup_insert_eq.
  - unfold joinNode. rewrite join_bearer_token by done. simpl. unfold redeem.
    destruct (select_hash _ _ _ _) as [s|] eqn:Es; [|done]. exfalso.
    apply select_hash_Some in Es as (j & Hs & Hh & Hf).
    assert (ac_Joins a2 !! ac_NextJoin a0 = Some (use_join t2 row)) as Hused by apply lookup_insert_eq.
    rewrite (ai_join_hash _ Hinv2 _ _ _ _ Hs Hused Hh) in Hs.
    assert (s = use_join t2 row) as -> by exact (inj Some _ _ (eq_trans (eq_sym Hs) Hused)). done.
Qed.

Lemma enrolment_round_trip_witness :
  let b1 := repeat 7%Z 32 in let b2 := repeat 8%Z 32 in
  let req := {| jtr_TTL := "30m" |} in
  let r := {| hr_Method := "POST"; hr_Path := "/api/v1/nodes/a/heartbeat";
              hr_Authorization := bearer_header (NewToken b2);
              hr_Pattern := "POST /api/v1/nodes/{name}/heartbeat"; hr_NodeRef := EmptyString |} in
  join_ttl req = Some (30 * Minute)%Z ∧
  ∃ created joined,
    let x1 := run (createJoinToken (Ok b1) (admin_caller "ops") "a" req) [at_time 5%Z; at_time 6%Z] join_db [] in
    result_of x1 = WriteJSON StatusCreated created ∧
    let x2 := run (joinNode (Ok b2) "a" (bearer_header (jtc_Token created))) [at_time Minute] (db_of x1) [] in
    result_of x2 = WriteJSON StatusCreated joined.
Proof.
  intros b1 b2 req r. assert (join_ttl req = Some (30 * Minute)%Z) as Hreq by (vm_compute; reflexivity).
  split; [exact Hreq|].
  destruct (enrolment_round_trip join_db "ops" "a" req (30 * Minute)%Z b1 b2 b2 5%Z 6%Z Minute 9%Z None r)
    as (created & joined & Hc & Hj & _).
  - apply (@di_access counter_uuids _ join_db_inv).
  - vm_compute. reflexivity.
  - exact Hreq.
  - by apply Forall_forall; intros x ->%list_elem_of_In%repeat_spec.
  - by apply Forall_forall; intros x ->%list_elem_of_In%repeat_spec.
  - split_and!; [vm_compute; discriminate|vm_compute; reflexivity|].
    intros i s Hs. apply (proj1 (lookup_singleton_Some 1%Z i example_join s)) in Hs as [_ <-].
    vm_compute. discriminate.
  - split_and!; [vm_compute; discriminate|vm_compute; reflexivity|].
    intros i s Hs. exfalso. exact (lookup_empty_Some i s Hs).
  - reflexivity.
  - split; vm_compute; reflexivity.
  - vm_compute. discriminate.
  - eexists _, _. split; [exact Hc|exact Hj].
Defined.

(** A lifetime of a nanosecond is between 1s and 168h0m0s. *)
Example join_ttl_nanosecond : join_ttl {| jtr_TTL := "1ns" |} = Some 1%Z.
Proof. vm_compute. reflexivity. Qed.
