(* ===== verification/NodeRoutes.v ===== *)
(** The Node routes (internal/server/handler/node/handler.go and probe.go, with
    the address lookup of internal/server/agentdialer/dialer.go): registration,
    heartbeats and their binding to a pre-auth key, deletion, and the probe. *)
From Stdlib Require Import ZArith Lia Ascii.
From stdpp Require Import prelude gmap strings.
From S2P Require Import Prelude.
From S2P Require Import Conditions.
From S2P Require Import ProjectTypes.
From S2P Require Import NodeTypes.
From S2P Require Import AccessTypes.
From S2P Require Import Database.
From S2P Require Import Evolution.
From S2P Require Import StatusStore.
From S2P Require Import Legality.
From S2P Require Import NodeStore.
From S2P Require Import AccessStore.
From S2P Require Import Authz.
From S2P Require Import Adapter.
From S2P Require Import Recovery.
From S2P Require Import ProjectHandler.
Import GoTime GoInt GoString GoError.
Open Scope nat_scope.
Open Scope go_scope.

(** ** Reading *)

Definition computeOverlayStatus (overlayIP : string) (lastHeartbeat now : Time) (threshold : Duration)
    : OverlayStatus :=
  if decide (overlayIP = EmptyString) then OverlayStatusUnknown
  else if IsZero lastHeartbeat then OverlayStatusUnknown
  else if bool_decide (threshold < Sub now lastHeartbeat)%Z then OverlayStatusOffline
  else OverlayStatusOnline.

Definition nn_with_OverlayStatus (x : OverlayStatus) (n : NodeNetworkStatus) : NodeNetworkStatus :=
  {| nn_OverlayIP := nn_OverlayIP n; nn_OverlayStatus := x; nn_DNSName := nn_DNSName n;
     nn_Mode := nn_Mode n; nn_AgentPort := nn_AgentPort n; nn_Throughput := nn_Throughput n |}.
Definition nst_with_Network (x : NodeNetworkStatus) (s : NodeStatus) : NodeStatus :=
  {| nst_State := nst_State s; nst_Network := x; nst_Capacity := nst_Capacity s;
     nst_Allocatable := nst_Allocatable s; nst_Info := nst_Info s;
     nst_LastHeartbeat := nst_LastHeartbeat s; nst_Conditions := nst_Conditions s |}.
Definition n_with_Status (x : NodeStatus) (n : Node) : Node :=
  {| n_Meta := n_Meta n; n_Spec := n_Spec n; n_Status := x |}.

Definition overlayOfflineThreshold : Duration := NodeHeartbeatTimeout.

Definition setOverlayStatus (node : Node) (now : Time) : Node :=
  let s := n_Status node in
  n_with_Status (nst_with_Network (nn_with_OverlayStatus
    (computeOverlayStatus (nn_OverlayIP (nst_Network s)) (nst_LastHeartbeat s) now overlayOfflineThreshold)
    (nst_Network s)) s) node.

Definition node_not_found {A} (name : string) : response A :=
  WriteError (ProblemOf (Wrap ("node not found: " ++ name ++ ": ")%string (Sentinel ErrNotFound) EmptyString)).
Definition node_failed {A} (name : string) (e : error) : response A :=
  if Is e ErrNotFound then node_not_found name else WriteError (ProblemOf e).

Definition listNodes : prog (response (list Node)) :=
  ListNodes ≫= λ res,
  match res with
  | Err e => Ret (WriteError (ProblemOf e))
  | Ok nodes => now_ ≫= λ now, Ret (WriteJSON StatusOK (map (λ n, setOverlayStatus n now) nodes))
  end.

Definition getNode_handler (name : string) : prog (response Node) :=
  getNode name ≫= λ res,
  match res with
  | Err e => Ret (node_failed name e)
  | Ok node => now_ ≫= λ now, Ret (WriteJSON StatusOK (setOverlayStatus node now))
  end.

Definition listCleanupObligations (name : string) : prog (response (list CleanupTask)) :=
  ListProjectsOwingCleanup name ≫= λ res,
  Ret match res with
      | Err e => WriteError (ProblemOf e)
      | Ok projects => WriteJSON StatusOK (projects ≫= λ p, CleanupTasksFor p name)
      end.

(** ** Registration *)

Definition tier_field : string := ("metadata.labels[" ++ LabelNodeTier ++ "]")%string.

(** A Node caller that names another Node. *)
Definition registers_other (caller : Caller) (name : string) : option Principal :=
  match caller with
  | Some p => if decide (pr_Kind p = APITokenKindNode ∧ pr_Name p ≠ name) then Some p else None
  | None => None
  end.

Definition createNode `{UUIDSource} (caller : Caller) (node : Node) : prog (response Node) :=
  let m := n_Meta node in
  if decide (om_Name m = EmptyString) then
    Ret (WriteError (ValidationError "metadata.name" "metadata.name is required"))
  else match ValidateName (om_Name m) with
  | Some message => Ret (WriteError (ValidationError "metadata.name" message))
  | None =>
      match ValidateNamespace (om_Namespace m) with
      | Some message => Ret (WriteError (ValidationError "metadata.namespace" message))
      | None =>
          match registers_other caller (om_Name m) with
          | Some p => Ret (WriteError (ProblemOf (Wrap EmptyString (Sentinel ErrForbidden)
              (": " ++ Principal_String p ++ " may register only node " ++ Quote (pr_Name p))%string)))
          | None =>
              match ValidateNodeLabels (om_Labels m) with
              | Some message => Ret (WriteError (ValidationError tier_field message))
              | None =>
                  let node := if decide (nst_State (n_Status node) = EmptyString)
                              then n_with_Status (nst_with_State NodeStateNotReady (n_Status node)) node
                              else node in
                  CreateNode node ≫= λ res,
                  Ret match res with
                      | Err e =>
                          if Is e ErrAlreadyExists then
                            WriteError (ProblemOf (Wrap ("node already exists: " ++ om_Name m ++ ": ")%string
                              (Sentinel ErrAlreadyExists) EmptyString))
                          else WriteError (ProblemOf e)
                      | Ok stored => WriteJSON StatusCreated stored
                      end
              end
          end
      end
  end.

Definition updateNode (name : string) (node : Node) : prog (response Node) :=
  let m := n_Meta node in
  if decide (om_Name m ≠ EmptyString ∧ om_Name m ≠ name) then
    Ret (WriteError (ValidationError "metadata.name"
      ("metadata.name " ++ Quote (om_Name m) ++ " does not match URL path " ++ Quote name)))
  else match ValidateNamespace (om_Namespace m) with
  | Some message => Ret (WriteError (ValidationError "metadata.namespace" message))
  | None =>
      match ValidateNodeLabels (om_Labels m) with
      | Some message => Ret (WriteError (ValidationError tier_field message))
      | None =>
          UpdateNodeSpec {| n_Meta := om_with_Name name (om_Namespace m) m; n_Spec := n_Spec node;
                            n_Status := n_Status node |} ≫= λ res,
          match res with
          | Err e => Ret (node_failed name e)
          | Ok _ =>
              getNode name ≫= λ updated,
              Ret match updated with
                  | Err e => WriteError (ProblemOf e)
                  | Ok n => WriteJSON StatusOK n
                  end
          end
      end
  end.

(** ** Deletion *)

Definition activePhases : list ProjectPhase :=
  [ProjectPhaseScheduled; ProjectPhaseRunning; ProjectPhaseTerminating].

Definition deleteNode (name : string) : prog (response ()) :=
  ListProjectsByNodeRef name activePhases ≫= λ res,
  match res with
  | Err e => Ret (WriteError (ProblemOf e))
  | Ok (_ :: _ as projects) =>
      Ret (WriteError (ProblemOf (Wrap ("cannot delete node " ++ Quote name ++ ": "
        ++ FormatInt (Z.of_nat (length projects)) ++ " project(s) still assigned: ")%string
        (Sentinel ErrAlreadyExists) EmptyString)))
  | Ok [] =>
      DeleteNode name ≫= λ res,
      Ret match res with
          | Err e => node_failed name e
          | Ok () => WriteHeader StatusNoContent
          end
  end.

(** ** Heartbeats *)

Record heartbeatRequest := {
  hb_State : NodeState;
  hb_Network : NodeNetworkStatus;
  hb_Capacity : ResourceList;
  hb_Allocatable : ResourceList;
  hb_KeyRef : string
}.

Definition zero_throughput : NodeThroughput := nn_Throughput empty_network.

(** Every field the request carries replaces the one there is. *)
Definition or_string (x y : string) : string := if decide (x ≠ EmptyString) then x else y.

Definition merge_network (req n : NodeNetworkStatus) : NodeNetworkStatus :=
  {| nn_OverlayIP := or_string (nn_OverlayIP req) (nn_OverlayIP n);
     nn_OverlayStatus := nn_OverlayStatus n;
     nn_DNSName := or_string (nn_DNSName req) (nn_DNSName n);
     nn_Mode := or_string (nn_Mode req) (nn_Mode n);
     nn_AgentPort := if decide (nn_AgentPort req ≠ 0%Z) then nn_AgentPort req else nn_AgentPort n;
     nn_Throughput := if decide (nn_Throughput req ≠ zero_throughput) then nn_Throughput req
                      else nn_Throughput n |}.

Definition merge_status (req : heartbeatRequest) (now : Time) (s : NodeStatus) : NodeStatus :=
  {| nst_State := or_string (hb_State req) (nst_State s);
     nst_Network := merge_network (hb_Network req) (nst_Network s);
     nst_Capacity := if decide (hb_Capacity req ≠ ∅) then hb_Capacity req else nst_Capacity s;
     nst_Allocatable := if decide (hb_Allocatable req ≠ ∅) then hb_Allocatable req else nst_Allocatable s;
     nst_Info := nst_Info s; nst_LastHeartbeat := now; nst_Conditions := nst_Conditions s |}.

(** [None] lets the heartbeat proceed; otherwise the response is written. The
    validator is wired when [keys] is. *)
Definition validatePreAuthKey (keys : bool) (name keyRef overlayIP : string) : prog (option (response ())) :=
  if decide (keyRef = EmptyString) then Ret None
  else if negb keys then Ret None
  else
    GetPreAuthKeyByHash keyRef ≫= λ res,
    match res with
    | Err e => Ret (if Is e ErrNotFound then None else Some (WriteError (ProblemOf e)))
    | Ok mapping =>
        if decide (pk_CaraNodeName mapping ≠ name) then
          Ret (Some (WriteError (ValidationError "keyRef"
            ("pre-auth key does not authorize node " ++ Quote name))))
        else if decide (pk_State mapping ≠ PreAuthKeyStateActive) then Ret None
        else
          (if IsZero (pk_Expiration mapping) then Ret false
           else now_ ≫= λ now, Ret (negb (After (pk_Expiration mapping) now))) ≫= λ expired,
          if expired : bool then
            Ret (Some (WriteError (ValidationError "keyRef" "pre-auth key has expired")))
          else
            now_ ≫= λ now,
            MarkPreAuthKeyUsed keyRef overlayIP now ≫= λ res,
            Ret match res with
                | Err e => Some (WriteError (ProblemOf e))
                | Ok () => None
                end
    end.

Definition heartbeat (keys : bool) (name : string) (req : heartbeatRequest) : prog (response ()) :=
  getNode name ≫= λ res,
  match res with
  | Err e => Ret (node_failed name e)
  | Ok existing =>
      if decide (hb_State req ≠ EmptyString ∧ NodeState_IsValid (hb_State req) = false) then
        Ret (WriteError (ValidationError "state"
          ("invalid state " ++ hb_State req ++ ": must be one of Ready, NotReady, Draining")))
      else
        now_ ≫= λ now,
        let status := merge_status req now (n_Status existing) in
        validatePreAuthKey keys name (hb_KeyRef req) (nn_OverlayIP (nst_Network status)) ≫= λ stop,
        match stop with
        | Some r => Ret r
        | None =>
            UpdateNodeStatus name status ≫= λ res,
            Ret match res with
                | Err e => node_failed name e
                | Ok () => WriteHeader StatusNoContent
                end
        end
  end.

(** ** Probe *)

Definition DefaultAgentPort : Z := 9090.

(** [net.JoinHostPort]. *)
Definition JoinHostPort (host port : string) : string :=
  if all_bytes (λ c, negb (Nat.eqb (nat_of_ascii c) 58 || Nat.eqb (nat_of_ascii c) 37)) host
  then (host ++ ":" ++ port)%string else ("[" ++ host ++ "]:" ++ port)%string.

(** The base URL of the Agent, a Node without an address, or a failed lookup. *)
Inductive dialed :=
| Dialed (baseURL : string)
| Unreachable (text : string)
| LookupFailed (e : error).

Definition dialer_Client (name : string) : prog dialed :=
  getNode name ≫= λ res,
  Ret match res with
      | Err e => LookupFailed (Wrap "agentdialer: node lookup failed: " e EmptyString)
      | Ok node =>
          let n := nst_Network (n_Status node) in
          if decide (nn_OverlayIP n = EmptyString) then
            Unreachable ("agentdialer: node has no reachable address: node " ++ Quote name
                         ++ " has no Status.Network.OverlayIP")%string
          else
            let port := if decide (nn_AgentPort n = 0%Z) then DefaultAgentPort else nn_AgentPort n in
            Dialed ("http://" ++ JoinHostPort (nn_OverlayIP n) (FormatInt port))%string
      end.

Record probeResult := {
  pr_OK : bool; pr_StatusCode : Z; pr_LatencyMs : Z; pr_Address : string; pr_Error : string
}.

(** What GET /healthz came to: a transport error, or a status code. *)
Definition doProbe (http : string + Z) : Z * option string :=
  match http with
  | inl text => (0%Z, Some ("dial agent: " ++ text)%string)
  | inr code =>
      if bool_decide (code < 200)%Z || bool_decide (300 <= code)%Z
      then (code, Some ("agent returned status " ++ FormatInt code)%string) else (code, None)
  end.

Definition StatusConflict : Z := 409.

(** [http url] is the answer of the Agent at [url], with the time it took. *)
Definition probe (dialer : bool) (http : string → (string + Z) * Duration) (name : string)
    : prog (response probeResult) :=
  if negb dialer then
    Ret (WriteError (ProblemOf (SqlError "probe not available: dialer is not configured")))
  else
    dialer_Client name ≫= λ res,
    Ret match res with
        | Unreachable text =>
            WriteJSON StatusConflict {| pr_OK := false; pr_StatusCode := 0; pr_LatencyMs := 0;
              pr_Address := EmptyString; pr_Error := text |}
        | LookupFailed e => WriteError (ProblemOf e)
        | Dialed baseURL =>
            let '(answer, latency) := http baseURL in
            let '(code, failure) := doProbe answer in
            WriteJSON StatusOK {| pr_OK := bool_decide (failure = None) && bool_decide (code = 200%Z);
              pr_StatusCode := code; pr_LatencyMs := (latency ÷ 1000000)%Z; pr_Address := baseURL;
              pr_Error := default EmptyString failure |}
        end.

(** ** The contract *)

Section node_routes_safe.
Context `{UUIDSource}.

Lemma safe_get_node name : safe others (getNode name).
Proof. apply safe_bind; [by apply safe_query|]. intros a. apply safe_ret. Qed.

Lemma safe_createNode caller node : safe others (createNode caller node).
Proof.
  unfold createNode. case_decide as Hn; [apply safe_ret|].
  destruct (ValidateName _); [apply safe_ret|]. destruct (ValidateNamespace _); [apply safe_ret|].
  destruct (registers_other _ _); [apply safe_ret|]. destruct (ValidateNodeLabels _); [apply safe_ret|].
  apply safe_bind; [|intros; apply safe_ret]. apply safe_CreateNode. by case_decide.
Qed.

Lemma safe_updateNode name node : safe others (updateNode name node).
Proof.
  unfold updateNode. case_decide; [apply safe_ret|]. destruct (ValidateNamespace _); [apply safe_ret|].
  destruct (ValidateNodeLabels _); [apply safe_ret|].
  apply safe_bind; [apply safe_UpdateNodeSpec|]. intros [v|e]; [|apply safe_ret].
  apply safe_bind; [apply safe_get_node|intros; apply safe_ret].
Qed.

Lemma safe_deleteNode name : safe others (deleteNode name).
Proof.
  apply safe_bind; [by apply safe_list|]. intros [[|p ps]|e]; [|apply safe_ret..].
  apply safe_bind; [apply safe_DeleteNode|intros; apply safe_ret].
Qed.

Lemma safe_validatePreAuthKey keys name keyRef ip : safe others (validatePreAuthKey keys name keyRef ip).
Proof.
  unfold validatePreAuthKey. case_decide; [apply safe_ret|]. destruct (negb keys); [apply safe_ret|].
  apply safe_bind.
  { apply safe_bind; [by apply safe_query_access|]. intros a. apply safe_ret. }
  intros [k|e]; [|apply safe_ret]. case_decide; [apply safe_ret|]. case_decide; [apply safe_ret|].
  apply safe_bind.
  { destruct (IsZero _); [apply safe_ret|]. apply safe_bind; [by apply safe_now|intros; apply safe_ret]. }
  intros [|]; [apply safe_ret|]. apply safe_bind; [by apply safe_now|]. intros now.
  apply safe_bind; [apply safe_MarkPreAuthKeyUsed|intros; apply safe_ret].
Qed.

Lemma safe_heartbeat keys name req : safe others (heartbeat keys name req).
Proof.
  apply safe_bind; [apply safe_get_node|]. intros [n|e]; [|apply safe_ret]. cbv beta iota.
  case_decide; [apply safe_ret|]. apply safe_bind; [by apply safe_now|]. intros now.
  apply safe_bind; [apply safe_validatePreAuthKey|]. intros [r|]; [apply safe_ret|].
  apply safe_bind; [apply safe_UpdateNodeStatus|intros; apply safe_ret].
Qed.

Lemma safe_listNodes : safe others listNodes.
Proof.
  apply safe_bind; [apply safe_bind; [by apply safe_query|intros; apply safe_ret]|].
  intros [ns|e]; [|apply safe_ret]. apply safe_bind; [by apply safe_now|intros; apply safe_ret].
Qed.

Lemma safe_getNode_handler name : safe others (getNode_handler name).
Proof.
  apply safe_bind; [apply safe_get_node|]. intros [n|e]; [|apply safe_ret].
  apply safe_bind; [by apply safe_now|intros; apply safe_ret].
Qed.

Lemma safe_listCleanupObligations name : safe others (listCleanupObligations name).
Proof. apply safe_bind; [by apply safe_list|intros; apply safe_ret]. Qed.

Lemma safe_probe dialer http name : safe others (probe dialer http name).
Proof.
  unfold probe. destruct (negb _); [apply safe_ret|]. apply safe_bind; [|intros; apply safe_ret].
  apply safe_bind; [apply safe_get_node|intros; apply safe_ret].
Qed.
End node_routes_safe.

(** ** Properties *)

(** *** Heartbeats *)

(** The key write of a heartbeat: a key bound to [name] is marked used. *)
Definition key_consumed (name keyRef : string) (d1 d2 : DB) : Prop :=
  ∃ k ip t, ac_Keys (db_Access d1) !! keyRef = Some k ∧ pk_CaraNodeName k = name ∧
    d2 = db_with_Access (ac_with_Keys (<[keyRef := mark_used ip t k]> (ac_Keys (db_Access d1))) (db_Access d1)) d1.

(** The status write: the row's status becomes the request merged into a status
    the row had since [d0]. *)
Definition status_merged `{UUIDSource} (name : string) (req : heartbeatRequest) (d0 d1 d2 : DB) : Prop :=
  ∃ d r0 now r t, others d0 d ∧ db_Nodes d !! name = Some r0 ∧ db_Nodes d1 !! name = Some r ∧
    d2 = db_with_Nodes (<[name := node_restatus (merge_status req now (nr_Status r0)) t r]> (db_Nodes d1)) d1.

(** What the binding found at some moment since [d0]: no key, or a key of this
    Node that is used up, or that had not expired at a reading of the clock. *)
Definition key_admits `{UUIDSource} (keys : bool) (name keyRef : string) (d0 : DB) : Prop :=
  keyRef = EmptyString ∨ keys = false ∨
  ∃ d, others d0 d ∧ match ac_Keys (db_Access d) !! keyRef with
  | None => True
  | Some k => pk_CaraNodeName k = name ∧
      (pk_State k ≠ PreAuthKeyStateActive ∨ pk_Expiration k = zero ∨ ∃ now, (now < pk_Expiration k)%Z)
  end.

(** The key is another Node's. *)
Definition foreign_key (keys : bool) (name keyRef : string) (d : DB) : Prop :=
  keys = true ∧ keyRef ≠ EmptyString ∧
  ∃ k, ac_Keys (db_Access d) !! keyRef = Some k ∧ pk_CaraNodeName k ≠ name.

Lemma key_later `{UUIDSource} d d' h k :
  others d d' → ac_Keys (db_Access d) !! h = Some k →
  ∃ k', ac_Keys (db_Access d') !! h = Some k' ∧ key_evolves k k'.
Proof. intros [Hev _]. apply (ae_keys _ _ (de_access _ _ Hev)). Qed.

Lemma foreign_key_stays `{UUIDSource} keys name keyRef d d' :
  others d d' → foreign_key keys name keyRef d → foreign_key keys name keyRef d'.
Proof.
  intros Ho (Hk & Hr & k & Hl & Hn). destruct (key_later d d' keyRef k Ho Hl) as (k' & Hl' & []).
  split_and!; [done|done|]. exists k'. split; [done|congruence].
Qed.

(** What the binding leaves behind. *)
Definition bound `{UUIDSource} (keys : bool) (name keyRef : string) (d0 : DB) (stop : option (response ()))
    (h : list Event) : Prop :=
  (h = [] ∨ ∃ d1 d2, h = [Wrote d1 d2] ∧ key_consumed name keyRef d1 d2) ∧
  (foreign_key keys name keyRef d0 → h = [] ∧ stop ≠ None) ∧
  match stop with
  | None => key_admits keys name keyRef d0
  | Some r => r ≠ WriteHeader StatusNoContent
  end.

Lemma wp_MarkPreAuthKeyUsed `{UUIDSource} (Q : result () → DB → list Event → Prop) name keyRef ip t d0 k :
  ac_Keys (db_Access d0) !! keyRef = Some k → pk_CaraNodeName k = name →
  (∀ d e, others d0 d → Q (Err e) d []) →
  (∀ d1 d2 res, others d0 d2 → key_consumed name keyRef d1 d2 → Q res d2 [Wrote d1 d2]) →
  wp others (λ _ _, True) (MarkPreAuthKeyUsed keyRef ip t) Q d0 [].
Proof.
  intros Hk Hn Hno Hyes. apply wp_bind, wp_now. intros now d' Hd'. apply wp_bind, wp_exec.
  { intros d e Hd He. apply wp_ret, Hno. by trans d'. }
  intros d Hd. assert (others d0 d) as Hd0 by (by trans d').
  destruct (key_later d0 d keyRef k Hd0 Hk) as (k' & Hk' & []). rewrite Hk'.
  set (d2 := db_with_Access _ d).
  assert (others d0 d2) as Hd2.
  { trans d; [done|]. apply access_others.
    - split; [done..|]. apply rows_evolve_insert; [apply _|]. rewrite Hk'. intros k0 [= <-]. by split.
    - by apply access_inv_tables. }
  assert (key_consumed name keyRef d d2) as Hc by (exists k', ip, t; split_and!; [done|congruence|done]).
  split; [done|]. split; [|intros e He]; by apply wp_ret, Hyes.
Qed.

Lemma wp_validatePreAuthKey `{UUIDSource} keys name keyRef ip d0 :
  wp others (λ _ _, True) (validatePreAuthKey keys name keyRef ip)
    (λ stop d h, others d0 d ∧ bound keys name keyRef d0 stop h) d0 [].
Proof.
  unfold validatePreAuthKey. case_decide as Hr.
  { apply wp_ret. split; [done|]. split_and!; [by left| |by left]. by intros (_ & ? & _). }
  destruct keys; simpl negb; cbv iota; [|apply wp_ret; split; [done|]; split_and!;
    [by left|by intros (? & _)|by right; left]].
  apply wp_bind. unfold GetPreAuthKeyByHash. apply wp_bind, wp_query.
  - intros d Hd. apply wp_ret. destruct (ac_Keys (db_Access d) !! keyRef) as [k|] eqn:Ek.
    + case_decide as Hn.
      { apply wp_ret. split; [done|]. split_and!; [by left|done|done]. }
      assert (¬ foreign_key true name keyRef d0) as Hmine.
      { intros Hf. destruct (foreign_key_stays _ _ _ _ _ Hd Hf) as (_ & _ & k' & Hk' & Hn'). congruence. }
      assert (∀ stop, match stop with None => key_admits true name keyRef d0
                      | Some r => r ≠ WriteHeader StatusNoContent end →
        bound true name keyRef d0 stop []) as Hdone by (intros; split_and!; [by left|done|done]).
      case_decide as Hs.
      { apply wp_ret. split; [done|]. apply Hdone. right; right. exists d. rewrite Ek. auto. }
      apply wp_bind.
      assert (∀ d1, others d d1 → (pk_Expiration k = zero ∨ ∃ now, (now < pk_Expiration k)%Z) →
        wp others (λ _ _, True) (now_ ≫= λ now, MarkPreAuthKeyUsed keyRef ip now ≫= λ res,
          Ret match res with Err e => Some (WriteError (ProblemOf e)) | Ok () => None end)
          (λ stop d h, others d0 d ∧ bound true name keyRef d0 stop h) d1 []) as Hmark.
      { intros d1 Hd1 Hexp. destruct (key_later d d1 keyRef k Hd1 Ek) as (k1 & Hk1 & []).
        apply wp_bind, wp_now. intros now d2 Hd2.
        destruct (key_later d1 d2 keyRef k1 Hd2 Hk1) as (k2 & Hk2 & []).
        assert (others d0 d2) as Hd02 by (trans d; [done|by trans d1]).
        assert (key_admits true name keyRef d0) as Hadm
          by (right; right; exists d; rewrite Ek; auto).
        apply wp_bind. eapply (wp_MarkPreAuthKeyUsed _ name); [exact Hk2|congruence|..].
        - intros d3 e Hd3. apply wp_ret. split; [by trans d2|]. by apply Hdone.
        - intros d3 d4 res Hd4 Hc. apply wp_ret. split; [by trans d2|].
          split_and!; [right; eauto|done|]. by destruct res as [[]|e]. }
      destruct (IsZero (pk_Expiration k)) eqn:Ez.
      * apply wp_ret. apply Hmark; [done|]. left. unfold IsZero in Ez. by bools.
      * apply wp_bind, wp_now. intros now d1 Hd1. apply wp_ret. unfold After.
        case_bool_decide as Hx; simpl negb; cbv iota.
        -- apply Hmark; [done|]. right. eauto.
        -- apply wp_ret. split; [by trans d|]. by apply Hdone.
    + apply wp_ret. split; [done|]. split_and!; [by left| |].
      * intros Hf. destruct (foreign_key_stays _ _ _ _ _ Hd Hf) as (_ & _ & k' & Hk' & _). congruence.
      * right; right. exists d. by rewrite Ek.
  - intros d e Hd He. apply wp_ret. simpl. rewrite fault_is_not by done. apply wp_ret.
    split; [done|]. split_and!; [by left|done|done].
Qed.

Lemma key_admits_later `{UUIDSource} keys name keyRef d0 d1 :
  others d0 d1 → key_admits keys name keyRef d1 → key_admits keys name keyRef d0.
Proof.
  intros Ho [?|[?|(d & Hd & Hm)]]; [by left|by right; left|]. right; right. exists d.
  split; [by trans d1|done].
Qed.

(** (node/handler.go, heartbeat and validatePreAuthKey): a heartbeat changes one
    Node's status, and a pre-auth key speaks for its own Node alone. Under any
    interference the call writes at most the key it was sent with, marking it used,
    and then the status of the Node in its path: the fields the request carries
    merged into a status that row had during the call. The status is written only
    if the key was found missing, or bound to this Node and used or unexpired; 204
    is answered only after that write. A heartbeat that names a key issued for
    another Node writes nothing at all. *)
Theorem heartbeat_exact `{UUIDSource} (keys : bool) (name : string) (req : heartbeatRequest)
    (ms : list move) (d0 : DB) (Hms : schedule_ok ms) :
  let x := run (heartbeat keys name req) ms d0 [] in
  (foreign_key keys name (hb_KeyRef req) d0 →
     history_of x = [] ∧ result_of x ≠ WriteHeader StatusNoContent) ∧
  ∃ kw, (kw = [] ∨ ∃ d1 d2, kw = [Wrote d1 d2] ∧ key_consumed name (hb_KeyRef req) d1 d2) ∧
  ((history_of x = kw ∧ result_of x ≠ WriteHeader StatusNoContent) ∨
   (∃ d1 d2 pubs, history_of x = kw ++ Wrote d1 d2 :: pubs ∧
      status_merged name req d0 d1 d2 ∧ key_admits keys name (hb_KeyRef req) d0 ∧
      (pubs = [] ∨ pubs = [Published TopicNodeUpdated name]) ∧
      (result_of x = WriteHeader StatusNoContent ∨
       ∃ e, result_of x = node_failed name e ∧ is_fault e = true))).
Proof.
  intros x. subst x. run_wp (heartbeat keys name req) ms d0. unfold heartbeat.
  assert (∀ r d, r ≠ WriteHeader StatusNoContent →
    (λ (r : response ()) (_ : DB) (h : list Event),
       (foreign_key keys name (hb_KeyRef req) d0 → h = [] ∧ r ≠ WriteHeader StatusNoContent) ∧
       ∃ kw, (kw = [] ∨ ∃ d1 d2, kw = [Wrote d1 d2] ∧ key_consumed name (hb_KeyRef req) d1 d2) ∧
       ((h = kw ∧ r ≠ WriteHeader StatusNoContent) ∨
        (∃ d1 d2 pubs, h = kw ++ Wrote d1 d2 :: pubs ∧
          status_merged name req d0 d1 d2 ∧ key_admits keys name (hb_KeyRef req) d0 ∧
          (pubs = [] ∨ pubs = [Published TopicNodeUpdated name]) ∧
          (r = WriteHeader StatusNoContent ∨ ∃ e, r = node_failed name e ∧ is_fault e = true)))) r d [])
    as Hnone by (intros r d Hr; split; [done|]; exists []; auto).
  assert (∀ e, node_failed (A := ()) name e ≠ WriteHeader StatusNoContent) as Hfail
    by (intros e; unfold node_failed; by destruct (Is e ErrNotFound)).
  apply wp_bind. unfold getNode. apply wp_bind, wp_query.
  2: { intros d e Hd He. by apply wp_ret, wp_ret, Hnone. }
  intros d Hd. apply wp_ret. destruct (db_Nodes d !! name) as [r0|] eqn:Er0; [|by apply wp_ret, Hnone].
  cbv beta iota. cbn [fmap option_fmap option_map].
  case_decide; [by apply wp_ret, Hnone|]. apply wp_bind, wp_now. intros now d1 Hd1.
  assert (others d0 d1) as Hd01 by (by trans d).
  apply wp_bind. eapply wp_mono; [|apply wp_validatePreAuthKey].
  intros stop d2 h [Hd2 (Hkw & Hforeign & Hstop)].
  destruct stop as [r|].
  { apply wp_ret. split; [|exists h; auto].
    intros Hf. split; [|done]. apply Hforeign. by eapply foreign_key_stays. }
  assert (¬ foreign_key keys name (hb_KeyRef req) d0) as Hmine.
  { intros Hf. by apply Hforeign; [eapply foreign_key_stays|]. }
  apply wp_bind, wp_UpdateNodeStatus; [| |done].
  - intros d3 e Hd3. apply wp_ret. split; [done|]. exists h. auto.
  - intros d3 r t res h' Hd3 Hr d4 Hres. apply wp_ret. split; [done|]. exists h. split; [done|]. right.
    assert (status_merged name req d0 d3 d4) as Hm by (exists d, r0, now, r, t; by split_and!).
    destruct Hres as [[-> ->]|(e & -> & He & ->)].
    + exists d3, d4, (if decide (nr_Phase r ≠ nst_State (merge_status req now (nr_Status r0)))
                      then [Published TopicNodeUpdated name] else []).
      split_and!; [done|done|by eapply key_admits_later| |by left]. case_decide; auto.
    + exists d3, d4, []. split_and!; [done|done|by eapply key_admits_later|by left|]. right. eauto.
Qed.

(** Key "k" was issued for Node "b"; Node "a" exists. *)
Definition key_of (node : string) : PreAuthKey :=
  {| pk_KeyHash := "k"; pk_KeyPrefix := "k"; pk_CaraNodeName := node; pk_Expiration := 0;
     pk_State := PreAuthKeyStateActive; pk_UsedByIP := EmptyString; pk_UsedAt := 0;
     pk_IssuedBy := EmptyString |}%Z.
Definition key_db (node : string) : DB :=
  db_with_Access (ac_with_Keys {[ "k" := key_of node ]} no_access)
    (node_db (example_node_row NodeStateNotReady 1%Z)).
Definition beat : heartbeatRequest :=
  {| hb_State := NodeStateReady; hb_Network := empty_network; hb_Capacity := ∅; hb_Allocatable := ∅;
     hb_KeyRef := "k" |}.

Lemma heartbeat_exact_witness :
  history_of (run (heartbeat true "a" beat) [] (key_db "b") []) = [] ∧
  result_of (run (heartbeat true "a" beat) [] (key_db "a") []) = WriteHeader StatusNoContent ∧
  length (history_of (run (heartbeat true "a" beat) [] (key_db "a") [])) = 3.
Proof.
  split; [|split; vm_compute; reflexivity].
  apply (@heartbeat_exact counter_uuids true "a" beat [] (key_db "b")).
  - by constructor.
  - split_and!; [reflexivity|discriminate|]. exists (key_of "b"). split; [reflexivity|discriminate].
Defined.

(** *** Deletion *)

(** The Projects that keep a Node: assigned to it, in a phase of [activePhases]. *)
Definition keeps_node (name : string) (r : ProjectRow) : Prop :=
  row_Phase r ∈ activePhases ∧ st_NodeRef (row_status r) = name ∧ name ≠ EmptyString.

Lemma select_none_kept name d :
  (∀ p, p ∉ select_projects (λ r, bool_decide (row_Phase r ∈ activePhases) &&
    bool_decide (st_NodeRef (row_status r) ≠ EmptyString) &&
    bool_decide (st_NodeRef (row_status r) = name)) d) →
  ∀ key r, key.1 = defaultNamespace → db_Projects d !! key = Some r → ¬ keeps_node name r.
Proof.
  intros Hno key r Hk Hr (Hp & Hn & Hne). apply (Hno (project_of_row key r)).
  unfold select_projects. apply list_elem_of_fmap. exists (key, r). split; [done|].
  apply list_elem_of_filter. split; [|by apply elem_of_map_to_list].
  split; [done|]. simpl. rewrite !bool_decide_eq_true_2; [done|done|congruence|done].
Qed.

(** (node/handler.go, deleteNode): a Node's record is removed only after a moment of
    the request at which no Project in an active phase was assigned to it; when one
    was, or on any error, nothing is written, and 204 says the record is gone. *)
Theorem deleteNode_exact `{UUIDSource} (name : string) (ms : list move) (d0 : DB) (Hms : schedule_ok ms) :
  let x := run (deleteNode name) ms d0 [] in
  (history_of x = [] ∧ result_of x ≠ WriteHeader StatusNoContent) ∨
  (∃ d1 d2, others d0 d1 ∧ others d1 d2 ∧
     (∀ key r, key.1 = defaultNamespace → db_Projects d1 !! key = Some r → ¬ keeps_node name r) ∧
     history_of x = [Wrote d2 (db_with_Nodes (delete name (db_Nodes d2)) d2)] ∧
     (result_of x = WriteHeader StatusNoContent ∨ ∃ e, result_of x = node_failed name e ∧ is_fault e = true)).
Proof.
  intros x. subst x. run_wp (deleteNode name) ms d0.
  assert (∀ e, node_failed (A := ()) name e ≠ WriteHeader StatusNoContent) as Hfail
    by (intros e; unfold node_failed; by destruct (Is e ErrNotFound)).
  apply wp_bind. unfold ListProjectsByNodeRef, list_projects, activePhases. fold activePhases.
  apply wp_bind, wp_query; [|intros d e Hd He; apply wp_ret, wp_ret; by left].
  intros d1 Hd1. apply wp_ret. set (ps := select_projects _ d1).
  assert (ps = [] → ∀ key r, key.1 = defaultNamespace → db_Projects d1 !! key = Some r →
    ¬ keeps_node name r) as Hno.
  { intros Hps. apply select_none_kept. intros p Hp. fold activePhases in ps. subst ps.
    rewrite Hps in Hp. by apply elem_of_nil in Hp. }
  destruct ps as [|p ps']; [|by apply wp_ret; left]. specialize (Hno eq_refl).
  apply wp_bind. unfold DeleteNode. apply wp_bind, wp_exec.
  - intros d e Hd He. apply wp_ret, wp_ret. by left.
  - intros d2 Hd2. destruct (db_Nodes d2 !! name) as [r|]; [|by apply wp_ret, wp_ret; left].
    split; [done|]. split; [|intros e He]; apply wp_ret, wp_ret; right; exists d1, d2;
      (split_and!; [done|done|exact Hno|done|]); [by left|right; eexists; by split].
Qed.

(** The scheduler grants the Project to the Node between the two. *)
Definition grant_meanwhile : list move :=
  [quiet; {| mv_others := λ d, db_of (run (SetProjectScheduled "shop" "a") [] d []);
             mv_outcome := Done; mv_now := zero |}].
Definition pending_on (r : NodeRow) : DB :=
  db_with_Nodes {[ "a" := r ]} (example_db InitialProjectStatus 1).

(** The check and the deletion are two statements: a grant between them leaves a
    Project Scheduled on a Node that no longer exists. *)
Example deleteNode_strands_project :
  let x := run (deleteNode "a") grant_meanwhile (pending_on (example_node_row NodeStateReady 1%Z)) [] in
  result_of x = WriteHeader StatusNoContent ∧ db_Nodes (db_of x) !! "a"%string = None ∧
  match project_at (db_of x) "shop" with
  | Some r => st_Phase (row_status r) = ProjectPhaseScheduled ∧ st_NodeRef (row_status r) = "a"%string
  | None => False
  end.
Proof. split_and!; vm_compute; done. Qed.

(** A Failed Project keeps its NodeRef, but not its Node. *)
Example deleteNode_ignores_failed :
  let s := st_with_Phase ProjectPhaseFailed (running_status "a") in
  let x := run (deleteNode "a") [] (db_with_Nodes {[ "a" := example_node_row NodeStateReady 1%Z ]}
             (example_db s 3)) [] in
  result_of x = WriteHeader StatusNoContent ∧ db_Nodes (db_of x) !! "a"%string = None.
Proof. vm_compute. done. Qed.

(** *** Registration *)

(** A Node that registers writes one row, under the name its token was issued for;
    a request for another name is refused before the store is asked. *)
Lemma createNode_own `{UUIDSource} (p : Principal) (node : Node) (ms : list move) (d0 : DB) :
  pr_Kind p = APITokenKindNode → om_Name (n_Meta node) ≠ pr_Name p →
  history_of (run (createNode (Some p) node) ms d0 []) = [] ∧
  db_of (run (createNode (Some p) node) ms d0 []) = d0.
Proof.
  intros Hk Hn. unfold createNode. case_decide; [done|]. destruct (ValidateName _); [done|].
  destruct (ValidateNamespace _); [done|]. unfold registers_other. rewrite decide_True by done. done.
Qed.

(** *** Overlay status

    It is Offline exactly when the health controller would call the Node NotReady
    for its silence, and Unknown without an address or a heartbeat. *)
Lemma computeOverlayStatus_exact ip last now :
  let age := (now - last)%Z in
  computeOverlayStatus ip last now overlayOfflineThreshold =
    if decide (ip = EmptyString ∨ last = zero) then OverlayStatusUnknown
    else if decide (NodeHeartbeatTimeout < age)%Z then OverlayStatusOffline else OverlayStatusOnline.
Proof.
  unfold computeOverlayStatus, IsZero, overlayOfflineThreshold.
  rewrite (bool_decide_ext (NodeHeartbeatTimeout < Sub now last)%Z (NodeHeartbeatTimeout < now - last)%Z)
    by (apply Sub_gt; unfold min_int64, max_int64, NodeHeartbeatTimeout, Second; lia).
  repeat (case_decide || case_bool_decide); naive_solver.
Qed.
