(* ===== verification/SecretRoutes.v ===== *)
(** Secrets: their rows in internal/store/postgres/store.go and the routes of
    internal/server/handler/secret/handler.go. *)
From Stdlib Require Import ZArith Lia.
From stdpp Require Import prelude gmap strings.
From S2P Require Import Prelude.
From S2P Require Import ProjectTypes.
From S2P Require Import NodeTypes.
From S2P Require Import AccessTypes.
From S2P Require Import Database.
From S2P Require Import Evolution.
From S2P Require Import StatusStore.
From S2P Require Import Legality.
From S2P Require Import AccessStore.
From S2P Require Import Authz.
From S2P Require Import ProjectHandler.
Import GoTime GoInt GoString GoError.
Open Scope nat_scope.
Open Scope go_scope.

(** ** The store *)

Definition secret_key (name : string) : string * string := (defaultNamespace, name).

(** The namespace a row is written under. *)
Definition secret_namespace (s : Secret) : string :=
  if decide (om_Namespace (sec_Meta s) = EmptyString) then defaultNamespace else om_Namespace (sec_Meta s).
Definition key_of_secret (s : Secret) : string * string := (secret_namespace s, om_Name (sec_Meta s)).

Definition secret_of_row (key : string * string) (r : SecretRow) : Secret :=
  {| sec_Meta := {| om_Name := key.2; om_UID := sr_UID r; om_Namespace := key.1;
       om_ResourceVersion := sr_Version r; om_SpecRevision := 0; om_Labels := sr_Labels r;
       om_Annotations := sr_Annotations r; om_CreatedAt := sr_CreatedAt r; om_UpdatedAt := sr_UpdatedAt r |}%Z;
     sec_Spec := sr_Spec r |}.

Definition db_with_Secrets (x : gmap (string * string) SecretRow) (d : DB) : DB :=
  db_with_Access (ac_with_Secrets x (db_Access d)) d.

Definition new_secret_row (uid : string) (s : Secret) (now : Time) : SecretRow :=
  {| sr_UID := uid; sr_Spec := sec_Spec s; sr_Labels := om_Labels (sec_Meta s);
     sr_Annotations := om_Annotations (sec_Meta s); sr_CreatedAt := timestamptz now;
     sr_UpdatedAt := timestamptz now; sr_Version := 1 |}.

(** The caller's object after an INSERT or an UPDATE; what the store does not set
    is what the caller sent. *)
Definition secret_created (uid : string) (s : Secret) (now : Time) : Secret :=
  let m := sec_Meta s in
  {| sec_Meta := {| om_Name := om_Name m; om_UID := uid; om_Namespace := secret_namespace s;
       om_ResourceVersion := 1; om_SpecRevision := om_SpecRevision m; om_Labels := om_Labels m;
       om_Annotations := om_Annotations m; om_CreatedAt := now; om_UpdatedAt := now |};
     sec_Spec := sec_Spec s |}.
Definition secret_updated (version : Z) (s : Secret) (now : Time) : Secret :=
  let m := sec_Meta s in
  {| sec_Meta := {| om_Name := om_Name m; om_UID := om_UID m; om_Namespace := secret_namespace s;
       om_ResourceVersion := version; om_SpecRevision := om_SpecRevision m; om_Labels := om_Labels m;
       om_Annotations := om_Annotations m; om_CreatedAt := om_CreatedAt m; om_UpdatedAt := now |};
     sec_Spec := sec_Spec s |}.

Definition CreateSecret `{UUIDSource} (s : Secret) : prog (result Secret) :=
  let key := key_of_secret s in
  now_ ≫= λ now,
  exec (R := option Secret) (λ d,
    Ok match ac_Secrets (db_Access d) !! key with
       | Some _ => (None, None)
       | None =>
           let uid := uuid_NewString (db_Issued d) in
           (Some (secret_created uid s now),
            Some (db_issue (db_with_Secrets (<[key := new_secret_row uid s now]> (ac_Secrets (db_Access d))) d)))
       end) ≫= λ res,
  Ret match res with
      | Err e => Err (sql_err "create secret" (om_Name (sec_Meta s)) e)
      | Ok None => Err (Sentinel ErrAlreadyExists)
      | Ok (Some stored) => Ok stored
      end.

Definition GetSecret (name : string) : prog (result Secret) :=
  query_access (R := option Secret) (λ a, secret_of_row (secret_key name) <$> ac_Secrets a !! secret_key name) ≫= λ res,
  Ret match res with
      | Err e => Err (sql_err "get secret" name e)
      | Ok None => Err (Sentinel ErrNotFound)
      | Ok (Some s) => Ok s
      end.

Definition select_secrets (a : Access) : list Secret :=
  (λ kr, secret_of_row kr.1 kr.2) <$>
    filter (λ kr, kr.1.1 = defaultNamespace) (map_to_list (ac_Secrets a)).

Definition ListSecrets : prog (result (list Secret)) :=
  query_access (R := list Secret) select_secrets ≫= λ res, Ret (wrapped "list secrets" res).

Definition secret_missing (name : string) : error :=
  Wrap EmptyString (Sentinel ErrNotFound) (": secret " ++ Quote name)%string.

Definition replace_secret (s : Secret) (now : Time) (r : SecretRow) : SecretRow :=
  {| sr_UID := sr_UID r; sr_Spec := sec_Spec s; sr_Labels := om_Labels (sec_Meta s);
     sr_Annotations := om_Annotations (sec_Meta s); sr_CreatedAt := sr_CreatedAt r;
     sr_UpdatedAt := timestamptz now; sr_Version := sr_Version r + 1 |}%Z.

Definition UpdateSecret (s : Secret) : prog (result Secret) :=
  let key := key_of_secret s in
  let name := om_Name (sec_Meta s) in
  now_ ≫= λ now,
  exec_access (R := option Z) (λ a,
    match ac_Secrets a !! key with
    | None => Ok (None, None)
    | Some r =>
        if bool_decide (sr_Version r < max_int64)%Z
        then Ok (Some (sr_Version r + 1)%Z,
                 Some (ac_with_Secrets (<[key := replace_secret s now r]> (ac_Secrets a)) a))
        else Err bigint_overflow
    end) ≫= λ res,
  Ret match res with
      | Err e => Err (sql_err "update secret" name e)
      | Ok None => Err (secret_missing name)
      | Ok (Some v) => Ok (secret_updated v s now)
      end.

Definition DeleteSecret (name : string) : prog (result ()) :=
  exec_access (R := bool) (λ a, Ok match ac_Secrets a !! secret_key name with
    | None => (false, None)
    | Some _ => (true, Some (ac_with_Secrets (delete (secret_key name) (ac_Secrets a)) a))
    end) ≫= λ res,
  Ret match res with
      | Err e => Err (sql_err "delete secret" name e)
      | Ok false => Err (secret_missing name)
      | Ok true => Ok ()
      end.

(** ** The handlers *)

(** The loop over the items, [seen] the keys of those before; [None] accepts. *)
Fixpoint check_data_items (seen : list string) (items : list SecretDataItem) : option problem :=
  match items with
  | [] => None
  | item :: rest =>
      if decide (sdi_Key item = EmptyString) then
        Some (ValidationError "spec.data[].key" "each data item must have a non-empty key")
      else if decide (sdi_Key item ∈ seen) then
        Some (ValidationError "spec.data[].key" ("duplicate data key: " ++ sdi_Key item))
      else check_data_items (sdi_Key item :: seen) rest
  end.

Definition validateSecretSpec (spec : SecretSpec) : option problem :=
  match spec with
  | [] => Some (ValidationError "spec.data" "spec.data must contain at least one key/value pair")
  | _ => check_data_items [] spec
  end.

Definition secret_not_found {A} (name : string) : response A :=
  WriteError (ProblemOf (Wrap ("secret not found: " ++ name ++ ": ")%string (Sentinel ErrNotFound) EmptyString)).
Definition secret_failed {A} (name : string) (e : error) : response A :=
  if Is e ErrNotFound then secret_not_found name else WriteError (ProblemOf e).

Definition with_meta (name namespace : string) (s : Secret) : Secret :=
  {| sec_Meta := om_with_Name name namespace (sec_Meta s); sec_Spec := sec_Spec s |}.

Definition createSecret `{UUIDSource} (s : Secret) : prog (response Secret) :=
  let m := sec_Meta s in
  if decide (om_Name m = EmptyString) then
    Ret (WriteError (ValidationError "metadata.name" "metadata.name is required"))
  else match ValidateName (om_Name m) with
  | Some message => Ret (WriteError (ValidationError "metadata.name" message))
  | None =>
      match ValidateNamespace (om_Namespace m) with
      | Some message => Ret (WriteError (ValidationError "metadata.namespace" message))
      | None =>
          match validateSecretSpec (sec_Spec s) with
          | Some p => Ret (WriteError p)
          | None =>
              CreateSecret (with_meta (om_Name m) (request_namespace (om_Namespace m)) s) ≫= λ res,
              Ret match res with
                  | Err e =>
                      if Is e ErrAlreadyExists then
                        WriteError (ProblemOf (Wrap ("secret already exists: " ++ om_Name m ++ ": ")%string
                          (Sentinel ErrAlreadyExists) EmptyString))
                      else WriteError (ProblemOf e)
                  | Ok stored => WriteJSON StatusCreated stored
                  end
          end
      end
  end.

Definition updateSecret (name : string) (s : Secret) : prog (response Secret) :=
  let m := sec_Meta s in
  if decide (om_Name m ≠ EmptyString ∧ om_Name m ≠ name) then
    Ret (WriteError (ValidationError "metadata.name"
      ("metadata.name " ++ Quote (om_Name m) ++ " does not match URL path " ++ Quote name)))
  else match ValidateNamespace (om_Namespace m) with
  | Some message => Ret (WriteError (ValidationError "metadata.namespace" message))
  | None =>
      match validateSecretSpec (sec_Spec s) with
      | Some p => Ret (WriteError p)
      | None =>
          UpdateSecret (with_meta name (request_namespace (om_Namespace m)) s) ≫= λ res,
          Ret match res with
              | Err e => secret_failed name e
              | Ok stored => WriteJSON StatusOK stored
              end
      end
  end.

Definition listSecrets : prog (response (list Secret)) :=
  ListSecrets ≫= λ res,
  Ret match res with Err e => WriteError (ProblemOf e) | Ok secrets => WriteJSON StatusOK secrets end.

Definition getSecret (name : string) : prog (response Secret) :=
  GetSecret name ≫= λ res,
  Ret match res with Err e => secret_failed name e | Ok s => WriteJSON StatusOK s end.

Definition deleteSecret (name : string) : prog (response ()) :=
  DeleteSecret name ≫= λ res,
  Ret match res with Err e => secret_failed name e | Ok () => WriteHeader StatusNoContent end.

(** ** The contract *)

Section secret_safe.
Context `{UUIDSource}.

Lemma secrets_others x d : others_unforced d (db_with_Secrets x d).
Proof. apply access_others; [by split|by apply access_inv_tables]. Qed.

Lemma issue_others d : others_unforced d (db_issue d).
Proof.
  split; [split; [split|]|]; simpl; try done; try lia.
  - intros key r Hr. left. exists r. by split.
  - intros [Hr Hn Ha]. split; [|done|done]. intros key r Hk. destruct (Hr key r Hk) as [? (k & ? & ?)].
    split; [done|]. exists k. simpl. split; [lia|done].
  - intros key r Hr. left. exists r. by split.
Qed.

Lemma safe_CreateSecret s : safe others (CreateSecret s).
Proof.
  apply safe_bind; [by apply safe_now|]. intros now. apply safe_bind; [|intros; apply safe_ret].
  apply safe_exec; [done|]. intros d r d' _. destruct (ac_Secrets _ !! _); [done|].
  intros [= <- <-]. set (x := <[_ := _]> _). destruct (secrets_others x d) as [H1 H2].
  destruct (issue_others (db_with_Secrets x d)) as [H3 H4]. split; [by trans (db_with_Secrets x d)|exact H2].
Qed.

Lemma secrets_ok x a : access_inv a → access_evolves a (ac_with_Secrets x a) ∧ access_inv (ac_with_Secrets x a).
Proof. intros Hinv. split; [by split|by apply (access_inv_tables a)]. Qed.

Lemma safe_UpdateSecret s : safe others (UpdateSecret s).
Proof.
  apply safe_bind; [by apply safe_now|]. intros now. apply safe_bind; [|intros; apply safe_ret].
  apply safe_exec_access; [apply others_trans|done|]. intros a r a' Hinv.
  destruct (ac_Secrets a !! _) as [row|]; [|done]. case_bool_decide; [|done]. intros [= <- <-].
  by apply secrets_ok.
Qed.

Lemma safe_DeleteSecret name : safe others (DeleteSecret name).
Proof.
  apply safe_bind; [|intros; apply safe_ret]. apply safe_exec_access; [apply others_trans|done|].
  intros a r a' Hinv. destruct (ac_Secrets a !! _) as [row|]; [|done]. intros [= <- <-].
  by apply secrets_ok.
Qed.

Lemma safe_createSecret s : safe others (createSecret s).
Proof.
  unfold createSecret. case_decide; [apply safe_ret|]. destruct (ValidateName _); [apply safe_ret|].
  destruct (ValidateNamespace _); [apply safe_ret|]. destruct (validateSecretSpec _); [apply safe_ret|].
  apply safe_bind; [apply safe_CreateSecret|intros; apply safe_ret].
Qed.

Lemma safe_updateSecret name s : safe others (updateSecret name s).
Proof.
  unfold updateSecret. case_decide; [apply safe_ret|].
  destruct (ValidateNamespace _); [apply safe_ret|]. destruct (validateSecretSpec _); [apply safe_ret|].
  apply safe_bind; [apply safe_UpdateSecret|intros; apply safe_ret].
Qed.

Lemma safe_listSecrets : safe others listSecrets.
Proof.
  apply safe_bind; [|intros; apply safe_ret]. apply safe_bind; [by apply safe_query_access|intros; apply safe_ret].
Qed.

Lemma safe_getSecret name : safe others (getSecret name).
Proof.
  apply safe_bind; [|intros; apply safe_ret]. apply safe_bind; [by apply safe_query_access|intros; apply safe_ret].
Qed.

Lemma safe_deleteSecret name : safe others (deleteSecret name).
Proof. apply safe_bind; [apply safe_DeleteSecret|intros; apply safe_ret]. Qed.
End secret_safe.

(** ** Properties *)

Lemma check_data_items_None seen items :
  check_data_items seen items = None ↔
  Forall (λ i, sdi_Key i ≠ EmptyString ∧ sdi_Key i ∉ seen) items ∧ NoDup (sdi_Key <$> items).
Proof.
  revert seen. induction items as [|item rest IH]; intros seen; csimpl; [split; [by split; constructor|done]|].
  rewrite Forall_cons, NoDup_cons. repeat case_decide; [naive_solver..|].
  rewrite IH. rewrite list_elem_of_fmap. setoid_rewrite not_elem_of_cons.
  rewrite !Forall_forall. naive_solver.
Qed.

(** A Secret is accepted exactly when it has data, and a key names one value. *)
Lemma validateSecretSpec_exact spec :
  validateSecretSpec spec = None ↔
  spec ≠ [] ∧ Forall (λ i, sdi_Key i ≠ EmptyString) spec ∧ NoDup (sdi_Key <$> spec).
Proof.
  unfold validateSecretSpec. destruct spec as [|item rest]; [naive_solver|].
  rewrite check_data_items_None, !Forall_forall. split.
  - intros [Hk Hd]. split_and!; [done| |done]. intros i Hi. by apply Hk.
  - intros (_ & Hk & Hd). split; [|done]. intros i Hi. split; [by apply Hk|apply not_elem_of_nil].
Qed.

(** What a row and the object a caller was given agree on. *)
Definition same_secret (s s' : Secret) : Prop :=
  sec_Spec s' = sec_Spec s ∧ om_Name (sec_Meta s') = om_Name (sec_Meta s) ∧
  om_Labels (sec_Meta s') = om_Labels (sec_Meta s) ∧
  om_Annotations (sec_Meta s') = om_Annotations (sec_Meta s).

Definition accepted (name : string) (s : Secret) : Prop :=
  ValidateName name = None ∧ ValidateNamespace (om_Namespace (sec_Meta s)) = None ∧
  validateSecretSpec (sec_Spec s) = None.

Lemma accepted_key name s :
  accepted name s → key_of_secret (with_meta name (request_namespace (om_Namespace (sec_Meta s))) s) = secret_key name.
Proof.
  intros (_ & Hn & _). unfold key_of_secret, secret_namespace, secret_key, request_namespace. simpl.
  unfold ValidateNamespace in Hn.
  destruct (decide (om_Namespace (sec_Meta s) = EmptyString)) as [_|Hne]; [done|].
  rewrite decide_False by done. rewrite bool_decide_eq_false_2 in Hn by done. simpl in Hn.
  destruct (bool_decide _) eqn:Ed; [|done]. bools. by rewrite Ed.
Qed.

Lemma run_createSecret `{UUIDSource} s t d :
  let name := om_Name (sec_Meta s) in
  accepted name s → ac_Secrets (db_Access d) !! secret_key name = None →
  let uid := uuid_NewString (db_Issued d) in
  let x := run (createSecret s) [at_time t] d [] in
  ∃ stored, result_of x = WriteJSON StatusCreated stored ∧ same_secret s stored ∧
    om_UID (sec_Meta stored) = uid ∧
    ac_Secrets (db_Access (db_of x)) !! secret_key name = Some (new_secret_row uid s t).
Proof.
  intros name Hacc Hfree uid x. pose proof (accepted_key name s Hacc) as Hkey.
  destruct Hacc as (Hn & Hns & Hspec). subst x. unfold createSecret. fold name.
  rewrite decide_False by by intros E; rewrite E in Hn.
  rewrite Hn, Hns, Hspec. unfold CreateSecret. rewrite Hkey. simpl. rewrite Hfree. simpl.
  eexists. split; [done|]. split; [by split_and!|]. split; [done|]. by rewrite lookup_insert_eq.
Qed.

Lemma run_updateSecret name s t d r :
  ac_Secrets (db_Access d) !! secret_key name = Some r → (sr_Version r < max_int64)%Z →
  accepted name s → om_Name (sec_Meta s) = EmptyString ∨ om_Name (sec_Meta s) = name →
  let x := run (updateSecret name s) [at_time t] d [] in
  (∃ stored, result_of x = WriteJSON StatusOK stored) ∧
  ac_Secrets (db_Access (db_of x)) !! secret_key name = Some (replace_secret s t r).
Proof.
  intros Hr Hv Hacc Hname x. pose proof (accepted_key name s Hacc) as Hkey.
  destruct Hacc as (_ & Hns & Hspec). subst x. unfold updateSecret.
  rewrite decide_False by naive_solver. rewrite Hns, Hspec. unfold UpdateSecret, exec_access. rewrite Hkey.
  simpl. rewrite Hr, bool_decide_eq_true_2 by done. simpl. split; [by eexists|].
  by rewrite lookup_insert_eq.
Qed.

(** (secret/handler.go and store.go): a Secret reads back as it was written. A
    request that passes validation, for a name not in use, creates a Secret; a
    read then answers with the same data, labels and annotations, under a UID the
    server drew. Rotating it replaces the data and keeps the UID and the creation
    time, at the next version; deleting it ends with a 404. *)
Theorem secrets_read_back `{UUIDSource} (s s2 : Secret) (t t2 : Time) (d : DB)
    (Hacc : accepted (om_Name (sec_Meta s)) s) (Hacc2 : accepted (om_Name (sec_Meta s)) s2)
    (Hname2 : om_Name (sec_Meta s2) = EmptyString ∨ om_Name (sec_Meta s2) = om_Name (sec_Meta s))
    (Hfree : ac_Secrets (db_Access d) !! secret_key (om_Name (sec_Meta s)) = None) :
  let name := om_Name (sec_Meta s) in
  let x1 := run (createSecret s) [at_time t] d [] in
  let x2 := run (updateSecret name s2) [at_time t2] (db_of x1) [] in
  let x3 := run (deleteSecret name) [] (db_of x2) [] in
  ∃ stored read rotated,
    result_of x1 = WriteJSON StatusCreated stored ∧
    result_of (run (getSecret name) [] (db_of x1) []) = WriteJSON StatusOK read ∧
    same_secret s read ∧ om_UID (sec_Meta read) = om_UID (sec_Meta stored) ∧
    om_ResourceVersion (sec_Meta read) = 1%Z ∧
    result_of (run (getSecret name) [] (db_of x2) []) = WriteJSON StatusOK rotated ∧
    sec_Spec rotated = sec_Spec s2 ∧ om_UID (sec_Meta rotated) = om_UID (sec_Meta read) ∧
    om_CreatedAt (sec_Meta rotated) = om_CreatedAt (sec_Meta read) ∧
    om_ResourceVersion (sec_Meta rotated) = 2%Z ∧
    result_of x3 = WriteHeader StatusNoContent ∧
    result_of (run (getSecret name) [] (db_of x3) []) = secret_not_found name.
Proof.
  intros name x1 x2 x3. destruct (run_createSecret s t d Hacc Hfree) as (stored & H1 & Hs & Hu & Hr1).
  fold name x1 in H1, Hu, Hr1.
  destruct (run_updateSecret name s2 t2 (db_of x1) _ Hr1 ltac:(done) Hacc2 Hname2) as [_ Hr2].
  fold x2 in Hr2. clearbody x2.
  assert (∀ d' r, ac_Secrets (db_Access d') !! secret_key name = Some r →
    result_of (run (getSecret name) [] d' []) = WriteJSON StatusOK (secret_of_row (secret_key name) r)) as Hget
    by (intros d' r Hr; simpl; by rewrite Hr).
  exists stored. eexists _, _. split; [exact H1|]. split; [by apply Hget|].
  split; [by split_and!|]. split; [by rewrite Hu|]. split; [done|]. split; [by apply Hget|].
  do 4 (split; [done|]). subst x3. simpl. rewrite Hr2. simpl. split; [done|].
  by rewrite lookup_delete_eq.
Qed.

Definition example_secret (uid value : string) : Secret :=
  {| sec_Meta := {| om_Name := "db"; om_UID := uid; om_Namespace := EmptyString;
       om_ResourceVersion := 0; om_SpecRevision := 0; om_Labels := ∅; om_Annotations := ∅;
       om_CreatedAt := 0; om_UpdatedAt := 0 |}%Z;
     sec_Spec := [{| sdi_Key := "password"; sdi_Value := value |}] |}.

Lemma secrets_read_back_witness :
  validateSecretSpec (sec_Spec (example_secret EmptyString "x")) = None ∧
  ∃ stored, result_of (run (@createSecret counter_uuids (example_secret EmptyString "x")) [at_time 5%Z] empty_db []) =
    WriteJSON StatusCreated stored.
Proof.
  split; [vm_compute; reflexivity|].
  destruct (@secrets_read_back counter_uuids (example_secret EmptyString "x") (example_secret EmptyString "y")
    5%Z 6%Z empty_db) as (stored & _ & _ & Hc & _).
  - split_and!; vm_compute; reflexivity.
  - split_and!; vm_compute; reflexivity.
  - by right.
  - vm_compute. reflexivity.
  - by exists stored.
Defined.

(** The answer to a rotation shows the UID the client sent, not the Secret's. *)
Example updateSecret_echoes_uid :
  let d := db_of (run (@createSecret counter_uuids (example_secret EmptyString "x")) [] empty_db []) in
  match result_of (run (updateSecret "db" (example_secret "mine" "y")) [] d []),
        result_of (run (getSecret "db") [] d []) with
  | WriteJSON _ answered, WriteJSON _ read =>
      om_UID (sec_Meta answered) = "mine"%string ∧ om_UID (sec_Meta read) ≠ "mine"%string
  | _, _ => False
  end.
Proof. vm_compute. split; [done|discriminate]. Qed.
