(* ===== verification/OverlayRoutes.v ===== *)
(** Overlay administration (internal/server/handler/overlay/handler.go). The
    Headscale server is outside: its client is a record of what each call
    answers. *)
From Stdlib Require Import ZArith Lia.
From stdpp Require Import prelude gmap strings.
From S2P Require Import Prelude.
From S2P Require Import ProjectTypes.
From S2P Require Import NodeTypes.
From S2P Require Import Duration.
From S2P Require Import Digest.
From S2P Require Import AccessTypes.
From S2P Require Import Database.
From S2P Require Import Evolution.
From S2P Require Import StatusStore.
From S2P Require Import Legality.
From S2P Require Import NodeStore.
From S2P Require Import AccessStore.
From S2P Require Import Authz.
From S2P Require Import ProjectHandler.
From S2P Require Import NodeRoutes.
Import GoTime GoInt GoString GoError.
Open Scope nat_scope.
Open Scope go_scope.

(** ** Headscale *)

Record HeadscaleKey := { hk_Key : string; hk_Expiration : Time }.
Record HeadscaleNode := {
  hn_ID : string; hn_Name : string; hn_IPAddresses : list string; hn_Online : bool
}.

(** A call that creates a key is given the user and the expiration; reusable and
    ephemeral keys are never asked for. *)
Record HeadscaleClient := {
  hs_CreatePreAuthKey : string → Time → result HeadscaleKey;
  hs_ListNodes : result (list HeadscaleNode);
  hs_DeleteNode : string → result ()
}.

(** The handler's client; without one no endpoint is configured. *)
Definition not_configured {A} : response A :=
  WriteError (ProblemOf (Wrap EmptyString (Sentinel ErrServiceNotConfigured)
    ": overlay administration requires headscale_api_url and headscale_api_key on cara-server")).

(** ** Pre-auth keys *)

Record CreatePreAuthKeyRequest := { cpk_Node : string; cpk_TTL : string }.
Record PreAuthKeyResponse := { pkr_Key : string; pkr_Expiration : Time }.

Definition defaultKeyTTL : Duration := (24 * Hour)%Z.

Definition key_ttl (req : CreatePreAuthKeyRequest) : option Duration :=
  if decide (cpk_TTL req ≠ EmptyString) then
    match ParseDuration (cpk_TTL req) with
    | Some d => if bool_decide (d <= 0)%Z then None else Some d
    | None => None
    end
  else Some defaultKeyTTL.

Definition mapping_of (key : HeadscaleKey) (node : string) : PreAuthKey :=
  let '(hash, prefix) := keyref_Hash (hk_Key key) in
  {| pk_KeyHash := hash; pk_KeyPrefix := prefix; pk_CaraNodeName := node;
     pk_Expiration := hk_Expiration key; pk_State := PreAuthKeyStateActive; pk_UsedByIP := EmptyString;
     pk_UsedAt := zero; pk_IssuedBy := EmptyString |}.

Definition createPreAuthKey (hs : option HeadscaleClient) (user : string) (keys : bool)
    (req : CreatePreAuthKeyRequest) : prog (response PreAuthKeyResponse) :=
  match hs with
  | None => Ret not_configured
  | Some c =>
      match key_ttl req with
      | None => Ret (WriteError (ValidationError "ttl"
          ("ttl must be a positive Go duration such as " ++ Quote "24h")))
      | Some ttl =>
          now_ ≫= λ now,
          match hs_CreatePreAuthKey c user (now + ttl)%Z with
          | Err e => Ret (WriteError (ProblemOf e))
          | Ok key =>
              let answer := WriteJSON StatusCreated {| pkr_Key := hk_Key key; pkr_Expiration := hk_Expiration key |} in
              if keys && bool_decide (cpk_Node req ≠ EmptyString) then
                CreatePreAuthKey (mapping_of key (cpk_Node req)) ≫= λ res,
                Ret match res with
                    | Err e => WriteError (ProblemOf
                        (Wrap "issued key but failed to persist its node mapping: " e EmptyString))
                    | Ok () => answer
                    end
              else Ret answer
          end
      end
  end.

(** ** Nodes *)

Record OverlayNode := {
  on_ID : string; on_Name : string; on_IPAddresses : list string; on_Online : bool
}.

Definition listOverlayNodes (hs : option HeadscaleClient) : response (list OverlayNode) :=
  match hs with
  | None => not_configured
  | Some c =>
      match hs_ListNodes c with
      | Err e => WriteError (ProblemOf e)
      | Ok nodes => WriteJSON StatusOK
          (map (λ n, {| on_ID := hn_ID n; on_Name := hn_Name n; on_IPAddresses := hn_IPAddresses n;
                        on_Online := hn_Online n |}) nodes)
      end
  end.

Definition findHeadscaleNodeID (c : HeadscaleClient) (name : string) : result (option string) :=
  match hs_ListNodes c with
  | Err e => Err e
  | Ok nodes => Ok (hn_ID <$> find_first (λ n, bool_decide (hn_Name n = name)) nodes)
  end.

Definition storeDeleteAttempts : nat := 3.

(** [cancelled n] is the context's error when it is done during the backoff before
    the last [n] attempts; there is none after the last. *)
Definition backoff (cancelled : nat → option error) (attempts : nat) : option error :=
  match attempts with O => None | S _ => cancelled attempts end.

(** The loop with [attempts] left. *)
Fixpoint delete_attempts (cancelled : nat → option error) (attempts : nat) (name : string) (lastErr : option error)
    : prog (option error) :=
  match attempts with
  | O => Ret lastErr
  | S attempts =>
      DeleteNode name ≫= λ res,
      match res with
      | Ok () => Ret None
      | Err e =>
          if Is e ErrNotFound then Ret None
          else match backoff cancelled attempts with
               | Some done => Ret (Some done)
               | None => delete_attempts cancelled attempts name (Some e)
               end
      end
  end.
Definition deleteFromStoreWithRetry (cancelled : nat → option error) (name : string) : prog (option error) :=
  delete_attempts cancelled storeDeleteAttempts name None.

Record RevokeNodeResponse := {
  rv_HeadscaleRemoved : bool; rv_StoreRemoved : bool; rv_Drift : bool; rv_Message : string
}.

Definition revokeNode (hs : option HeadscaleClient) (cancelled : nat → option error) (name : string)
    : prog (response RevokeNodeResponse) :=
  match hs with
  | None => Ret not_configured
  | Some c =>
      match findHeadscaleNodeID c name with
      | Err e => Ret (WriteError (ProblemOf e))
      | Ok found =>
          match match found with Some id => hs_DeleteNode c id | None => Ok () end with
          | Err e => Ret (WriteError (ProblemOf (Wrap ("revoke " ++ Quote name
              ++ ": delete from Headscale failed, Cara store left unchanged: ")%string e EmptyString)))
          | Ok () =>
              deleteFromStoreWithRetry cancelled name ≫= λ storeErr,
              Ret (WriteJSON StatusOK
                match storeErr with
                | Some e => {| rv_HeadscaleRemoved := true; rv_StoreRemoved := false; rv_Drift := true;
                    rv_Message := ("node " ++ Quote name
                      ++ " removed from Headscale but Cara store delete failed; re-run revoke to retry: "
                      ++ Error e)%string |}
                | None => {| rv_HeadscaleRemoved := true; rv_StoreRemoved := true; rv_Drift := false;
                             rv_Message := EmptyString |}
                end)
          end
      end
  end.

(** ** The contract *)

Section overlay_safe.
Context `{UUIDSource}.

Lemma safe_createPreAuthKey hs user keys req : safe others (createPreAuthKey hs user keys req).
Proof.
  unfold createPreAuthKey. destruct hs as [c|]; [|apply safe_ret]. destruct (key_ttl req); [|apply safe_ret].
  apply safe_bind; [by apply safe_now|]. intros now. destruct (hs_CreatePreAuthKey _ _ _); [|apply safe_ret].
  destruct (_ && _); [|apply safe_ret]. apply safe_bind; [apply safe_CreatePreAuthKey|intros; apply safe_ret].
Qed.

Lemma safe_delete_attempts cancelled n name lastErr : safe others (delete_attempts cancelled n name lastErr).
Proof.
  revert lastErr. induction n as [|n IH]; intros lastErr; [apply safe_ret|].
  apply safe_bind; [apply safe_DeleteNode|]. intros [[]|e]; [apply safe_ret|].
  destruct (Is e ErrNotFound); [apply safe_ret|]. destruct (backoff _ _); [apply safe_ret|apply (IH (Some e))].
Qed.

Lemma safe_revokeNode hs cancelled name : safe others (revokeNode hs cancelled name).
Proof.
  unfold revokeNode. destruct hs as [c|]; [|apply safe_ret].
  destruct (findHeadscaleNodeID c name) as [found|e]; [|apply safe_ret].
  destruct (match found with Some _ => _ | None => _ end) as [[]|e]; [|apply safe_ret].
  apply safe_bind; [apply safe_delete_attempts|intros; apply safe_ret].
Qed.
End overlay_safe.

(** ** Properties *)

(** The removal of [name]'s record. *)
Definition node_removed (name : string) (e : Event) : Prop :=
  ∃ d, e = Wrote d (db_with_Nodes (delete name (db_Nodes d)) d).

Lemma wp_delete_attempts `{UUIDSource} cancelled name (d0 d : DB) n lastErr h :
  others d0 d → Forall (node_removed name) h → (n = 0 → lastErr ≠ None) →
  wp others (λ _ _, True) (delete_attempts cancelled n name lastErr)
    (λ r _ h', Forall (node_removed name) h' ∧ length h' ≤ length h + n ∧
       (r = None → ∃ d1, others d0 d1 ∧ db_Nodes d1 !! name = None)) d h.
Proof.
  revert d lastErr h. induction n as [|n IH]; intros d lastErr h Hd Hh Hlast.
  { apply wp_ret. split_and!; [done|lia|]. intros ->. by destruct Hlast. }
  assert (∀ d1 e h1, others d0 d1 → Forall (node_removed name) h1 → length h1 ≤ S (length h) →
    wp others (λ _ _, True) (match backoff cancelled n with
      | Some done => Ret (Some done)
      | None => delete_attempts cancelled n name (Some e) end)
    (λ r _ h', Forall (node_removed name) h' ∧ length h' ≤ length h + S n ∧
       (r = None → ∃ d1, others d0 d1 ∧ db_Nodes d1 !! name = None)) d1 h1) as Hnext.
  { intros d1 e h1 Hd1 Hh1 Hl1.
    assert (wp others (λ _ _, True) (delete_attempts cancelled n name (Some e))
      (λ r _ h', Forall (node_removed name) h' ∧ length h' ≤ length h + S n ∧
         (r = None → ∃ d1, others d0 d1 ∧ db_Nodes d1 !! name = None)) d1 h1) as Hrec.
    { eapply wp_mono; [|by apply IH]. intros r d2 h2 (? & ? & ?). split_and!; [done|lia|done]. }
    destruct (backoff cancelled n); [|exact Hrec].
    apply wp_ret. split_and!; [done|lia|done]. }
  cbn [delete_attempts]. apply wp_bind. unfold DeleteNode. apply wp_bind, wp_exec.
  - intros d1 e Hd1 He. apply wp_ret. cbn [Is sql_err]. rewrite (fault_is_not e) by done. cbv iota.
    apply (Hnext d1 (sql_err "delete node" name e)); [by trans d|done|lia].
  - intros d1 Hd1. assert (others d0 d1) as Hd01 by (by trans d).
    destruct (db_Nodes d1 !! name) as [row|] eqn:Er.
    + set (d2 := db_with_Nodes _ d1).
      assert (others d0 d2) as Hd2.
      { trans d1; [done|]. apply nodes_others. intros Hn. by rewrite lookup_delete_None; right. }
      assert (Forall (node_removed name) (h ++ [Wrote d1 d2])) as Hh2
        by (apply Forall_app; split; [done|]; repeat constructor; by exists d1).
      assert (length (h ++ [Wrote d1 d2]) ≤ S (length h)) as Hl by (rewrite length_app; simpl; lia).
      split; [done|]. split; [|intros e He]; apply wp_ret.
      * apply wp_ret. split_and!; [done|lia|]. intros _. exists d2. split; [done|]. apply lookup_delete_eq.
      * cbn [Is sql_err]. rewrite (fault_is_not e) by done. cbv iota.
        by apply (Hnext d2 (sql_err "delete node" name e)).
    + apply wp_ret. cbn [Is node_err]. rewrite bool_decide_eq_true_2 by done. apply wp_ret.
      split_and!; [done|lia|eauto].
Qed.

(** What Headscale answered to a revocation of [name]. *)
Definition headscale_removed (c : HeadscaleClient) (name : string) : bool :=
  match findHeadscaleNodeID c name with
  | Err _ => false
  | Ok None => true
  | Ok (Some id) => match hs_DeleteNode c id with Ok () => true | Err _ => false end
  end.


Definition example_headscale (deleted : result ()) : HeadscaleClient :=
  {| hs_CreatePreAuthKey := λ _ t, Ok {| hk_Key := "hskey-auth-1"; hk_Expiration := t |};
     hs_ListNodes := Ok [{| hn_ID := "7"; hn_Name := "a"; hn_IPAddresses := []; hn_Online := true |}];
     hs_DeleteNode := λ _, deleted |}.


(** A key that was answered speaks for the Node it was asked for, and no other
    Node's heartbeat may name it. *)
Lemma createPreAuthKey_binds `{UUIDSource} (c : HeadscaleClient) (user : string) (req : CreatePreAuthKeyRequest)
    (ms : list move) (d0 : DB) (Hms : schedule_ok ms) (Hnode : cpk_Node req ≠ EmptyString) :
  let x := run (createPreAuthKey (Some c) user true req) ms d0 [] in
  ∀ r other, result_of x = WriteJSON StatusCreated r → other ≠ cpk_Node req →
    foreign_key true other (HashToken (pkr_Key r)) (db_of x).
Proof.
  intros x. subst x. run_wp (createPreAuthKey (Some c) user true req) ms d0. unfold createPreAuthKey.
  destruct (key_ttl req) as [ttl|]; [|by apply wp_ret]. apply wp_bind, wp_now. intros now d Hd.
  destruct (hs_CreatePreAuthKey _ _ _) as [key|e]; [|by apply wp_ret].
  cbv zeta. rewrite bool_decide_eq_true_2 by done. cbn [andb]. apply wp_bind. unfold CreatePreAuthKey.
  apply wp_bind, wp_now. intros now' d1 Hd1. apply wp_bind, wp_exec; [by intros; apply wp_ret, wp_ret|].
  intros d2 Hd2. destruct (ac_Keys _ !! _) eqn:Ek; [by apply wp_ret, wp_ret|].
  split; [done|]. split; [|by intros; apply wp_ret, wp_ret]. apply wp_ret, wp_ret.
  intros r other [= <-] Hne. split; [done|]. split.
  - intros Hempty. pose proof (length_HashToken (hk_Key key)) as Hl. cbn [pkr_Key] in Hempty. by rewrite Hempty in Hl.
  - eexists. split; [apply lookup_insert_eq|]. done.
Qed.
