(* ===== verification/AgentRoutes.v ===== *)
(** The Project routes of Agents (internal/server/handler/project/handler.go):
    phase reports, conditions, recovery evidence and backup records, each
    fenced to the assignment its caller was granted. *)
From Stdlib Require Import ZArith Lia Ascii.
From stdpp Require Import prelude gmap strings.
From S2P Require Import Prelude.
From S2P Require Import Conditions.
From S2P Require Import ProjectTypes.
From S2P Require Import Lifecycle.
From S2P Require Import NodeTypes.
From S2P Require Import Strconv.
From S2P Require Import AccessTypes.
From S2P Require Import Database.
From S2P Require Import Evolution.
From S2P Require Import StatusStore.
From S2P Require Import Legality.
From S2P Require Import EvidenceStore.
From S2P Require Import ProjectStore.
From S2P Require Import Authz.
From S2P Require Import ProjectHandler.
Import GoTime GoInt GoString GoError.
Open Scope nat_scope.
Open Scope go_scope.

(** ** Fences *)

Definition fence_missing {A} (name what : string) : response A :=
  WriteError (ProblemOf (Wrap EmptyString (Sentinel ErrStaleAssignment)
    (": project " ++ Quote name ++ ": " ++ what)%string)).

(** The fence of a request, or the problem to write: complete, and owned by the
    caller. *)
Definition fence_in {A} (caller : Caller) (missing : response A) (uid nodeRef : string)
    (generation : option Z) : AssignmentRef + response A :=
  if decide (uid = EmptyString ∨ nodeRef = EmptyString) then inr missing
  else
    match generation with
    | None => inr missing
    | Some g =>
        match RequireFenceOwner caller nodeRef with
        | Some e => inr (WriteError (ProblemOf e))
        | None => inl {| ref_UID := uid; ref_NodeRef := nodeRef; ref_Generation := g |}
        end
    end.

Definition resolveFence {A} (caller : Caller) (name uid nodeRef : string) (generation : option Z)
    : AssignmentRef + response A :=
  fence_in caller (fence_missing name "request is missing an assignment fence") uid nodeRef generation.

(** ** Phase reports *)

Record statusPatchRequest := {
  spr_Phase : ProjectPhase;
  spr_Reason : string;
  spr_Message : string;
  spr_UID : string;
  spr_NodeRef : string;
  spr_AssignmentGeneration : option Z
}.

Definition report_phase (name : string) (req : statusPatchRequest) (observedAt : Time)
    (status : ProjectStatus) : result ProjectStatus :=
  if negb (PhaseTransitionAllowed WriterAgent (st_Phase status) (spr_Phase req)) then
    Err (Wrap EmptyString (Sentinel ErrConflictState)
      (": project " ++ Quote name ++ " is " ++ st_Phase status
       ++ "; an Agent cannot report it " ++ spr_Phase req)%string)
  else if bool_decide (spr_Phase req = ProjectPhaseTerminated)
          && negb (bool_decide (st_Phase status = ProjectPhaseTerminated))
          && negb (ResourcesRemovedFor (st_Recovery status) (st_NodeRef status)
                     (st_AssignmentGeneration status)) then
    Err (Wrap EmptyString (Sentinel ErrConflictState)
      (": project " ++ Quote name ++ ": node " ++ st_NodeRef status
       ++ " has not recorded ResourcesRemoved for generation "
       ++ FormatInt (st_AssignmentGeneration status))%string)
  else
    let transitioned := negb (bool_decide (st_Phase status = spr_Phase req)) in
    let s := st_with_Phase (spr_Phase req) status in
    let s := if decide (spr_Phase req = ProjectPhaseFailed)
             then st_with_Recovery (ClearHealthyWindow <$> st_Recovery s) s else s in
    if decide (spr_Reason req = EmptyString ∧ spr_Message req = EmptyString) then Ok s
    else Ok (st_with_Conditions
               (UpsertCondition (st_Conditions s)
                  (mkCondition ConditionTypePhase ConditionTrue (spr_Reason req) (spr_Message req) observedAt)
                  transitioned) s).

Definition patchStatus (caller : Caller) (name : string) (req : statusPatchRequest)
    : prog (response ()) :=
  if decide (spr_Phase req = EmptyString) then
    Ret (WriteError (ValidationError "phase" "phase is required"))
  else if negb (ProjectPhase_IsValid (spr_Phase req)) then
    Ret (WriteError (ValidationError "phase" ("invalid phase " ++ spr_Phase req
      ++ ": must be one of Pending, Scheduled, Running, Failed, Terminating, Terminated")%string))
  else
    match resolveFence caller name (spr_UID req) (spr_NodeRef req) (spr_AssignmentGeneration req) with
    | inr problem => Ret problem
    | inl ref =>
        now_ ≫= λ observedAt,
        ReportProjectStatusFenced name ref (report_phase name req observedAt) ≫= λ res,
        Ret match res with
            | Err e => lookup_failed name e
            | Ok _ => WriteHeader StatusNoContent
            end
    end.

(** ** Applied specs *)

(** writeEvidenceResult: the response to the result of a store call. *)
Definition writeEvidenceResult (name : string) (res : result ()) : response () :=
  match res with
  | Err e => lookup_failed name e
  | Ok _ => WriteHeader StatusNoContent
  end.

Record specAppliedRequest := {
  srq_UID : string;
  srq_NodeRef : string;
  srq_AssignmentGeneration : option Z;
  srq_SpecRevision : Z;
  srq_Applied : bool;
  srq_Reason : string;
  srq_Message : string
}.

Definition putSpecApplied (caller : Caller) (name : string) (req : specAppliedRequest)
    : prog (response ()) :=
  if decide (srq_SpecRevision req < 1)%Z then
    Ret (WriteError (ValidationError "specRevision" "specRevision must be at least 1"))
  else if decide (srq_Applied req = false ∧ srq_Reason req = EmptyString) then
    Ret (WriteError (ValidationError "reason" "reason is required when applied is false"))
  else
    match resolveFence caller name (srq_UID req) (srq_NodeRef req) (srq_AssignmentGeneration req) with
    | inr problem => Ret problem
    | inl ref =>
        now_ ≫= λ at_,
        RecordSpecApplied name ref
          {| sar_Revision := srq_SpecRevision req; sar_Applied := srq_Applied req;
             sar_Reason := srq_Reason req; sar_Message := srq_Message req; sar_At := at_ |} ≫= λ res,
        Ret (writeEvidenceResult name res)
    end.

(** ** Conditions *)

Definition agentWritableConditions (t : ConditionType) : bool :=
  bool_decide (t ∈ [ConditionTypeMaintenance; ConditionTypeRecoveryBlocked;
                    ConditionTypeTeardownBlocked; ConditionTypeBackupFailing;
                    ConditionTypeDataRestored]).

Definition not_writable {A} (condType : ConditionType) : response A :=
  WriteError (ValidationError "type" ("condition type " ++ Quote condType ++ " is not agent-writable")%string).

Record conditionPatchRequest := {
  cpr_Status : ConditionStatus;
  cpr_Reason : string;
  cpr_Message : string;
  cpr_UID : string;
  cpr_NodeRef : string;
  cpr_AssignmentGeneration : option Z
}.

(** The text a literal cannot hold: status must be "True", "False", or
    "Unknown". *)
Definition status_choices : string :=
  ("status must be " ++ Quote "True" ++ ", " ++ Quote "False" ++ ", or " ++ Quote "Unknown")%string.

Definition patchCondition (caller : Caller) (name : string) (condType : ConditionType)
    (req : conditionPatchRequest) : prog (response ()) :=
  if negb (agentWritableConditions condType) then Ret (not_writable condType)
  else if negb (slices_Contains [ConditionTrue; ConditionFalse; ConditionUnknown] (cpr_Status req)) then
    Ret (WriteError (ValidationError "status" status_choices))
  else
    match resolveFence caller name (cpr_UID req) (cpr_NodeRef req) (cpr_AssignmentGeneration req) with
    | inr problem => Ret problem
    | inl ref =>
        now_ ≫= λ now,
        PatchProjectConditionFenced name ref
          {| cond_Type := condType; cond_Status := cpr_Status req; cond_Reason := cpr_Reason req;
             cond_Message := cpr_Message req; cond_LastHeartbeatTime := now;
             cond_LastTransitionTime := now |} ≫= λ res,
        Ret match res with
            | Err e => lookup_failed name e
            | Ok _ => WriteHeader StatusNoContent
            end
    end.

Definition deleteCondition (caller : Caller) (name : string) (condType : ConditionType)
    (uid nodeRef rawGeneration : string) : prog (response ()) :=
  if negb (agentWritableConditions condType) then Ret (not_writable condType)
  else
    match
      (if decide (rawGeneration ≠ EmptyString) then Some <$> ParseInt rawGeneration else Some None)
    with
    | None => Ret (WriteError (ValidationError "assignmentGeneration" "assignmentGeneration must be an integer"))
    | Some generation =>
        match resolveFence caller name uid nodeRef generation with
        | inr problem => Ret problem
        | inl ref =>
            ClearProjectConditionFenced name ref condType ≫= λ res,
            Ret match res with
                | Err e => lookup_failed name e
                | Ok _ => WriteHeader StatusNoContent
                end
        end
    end.

(** ** Recovery evidence *)

Record evidenceRequest := {
  evr_UID : string;
  evr_NodeRef : string;
  evr_AssignmentGeneration : option Z
}.

Definition evidence_fence {A} (caller : Caller) (what name : string) (req : evidenceRequest)
    : AssignmentRef + response A :=
  fence_in caller (fence_missing name (what ++ " requires a complete assignment fence")%string)
    (evr_UID req) (evr_NodeRef req) (evr_AssignmentGeneration req).

Definition decodeEvidenceFence {A} (caller : Caller) (name : string) (req : evidenceRequest)
    : AssignmentRef + response A :=
  evidence_fence caller "evidence" name req.

(** The three routes whose body is a fence alone. *)
Definition put_evidence (caller : Caller) (name : string) (req : evidenceRequest)
    (record : string → AssignmentRef → Time → prog (result ())) : prog (response ()) :=
  match decodeEvidenceFence caller name req with
  | inr problem => Ret problem
  | inl ref =>
      now_ ≫= λ now,
      record name ref now ≫= λ res,
      Ret (writeEvidenceResult name res)
  end.

Definition putWorkloadStopped (caller : Caller) (name : string) (req : evidenceRequest)
    : prog (response ()) := put_evidence caller name req RecordWorkloadStopped.
Definition putManagedDataQuarantined (caller : Caller) (name : string) (req : evidenceRequest)
    : prog (response ()) := put_evidence caller name req RecordManagedDataQuarantined.
Definition putResourcesRemoved (caller : Caller) (name : string) (req : evidenceRequest)
    : prog (response ()) := put_evidence caller name req RecordResourcesRemoved.

(** ** Backups *)

Definition is_decimal (c : ascii) : bool :=
  Nat.leb 48 (nat_of_ascii c) && Nat.leb (nat_of_ascii c) 57.
Definition is_hex (c : ascii) : bool :=
  is_decimal c || (Nat.leb 97 (nat_of_ascii c) && Nat.leb (nat_of_ascii c) 102).
Definition is_char (x c : ascii) : bool := if ascii_dec x c then true else false.

(** A regular expression that is a sequence of character classes. *)
Fixpoint matches (classes : list (ascii → bool)) (s : string) : bool :=
  match classes, s with
  | [], EmptyString => true
  | f :: fs, String c s' => f c && matches fs s'
  | _, _ => false
  end.

Definition backupIDPattern (s : string) : bool :=
  matches (repeat is_decimal 8 ++ [is_char "T"] ++ repeat is_decimal 6 ++ [is_char "Z"; is_char "-"]
           ++ repeat is_hex 8) s.

Record committedBackupRequest := {
  cbr_Fence : evidenceRequest;
  cbr_BackupID : string
}.

Definition putCommittedBackup (caller : Caller) (name : string) (req : committedBackupRequest)
    : prog (response ()) :=
  if negb (backupIDPattern (cbr_BackupID req)) then
    Ret (WriteError (ValidationError "backupID" "backupID is not a valid backup generation"))
  else
    let f := cbr_Fence req in
    match resolveFence caller name (evr_UID f) (evr_NodeRef f) (evr_AssignmentGeneration f) with
    | inr problem => Ret problem
    | inl ref =>
        now_ ≫= λ now,
        RecordCommittedBackup name ref (cbr_BackupID req) now ≫= λ res,
        Ret (writeEvidenceResult name res)
    end.

Definition hasManagedVolume (spec : ProjectSpec) (volume : string) : bool :=
  existsb (λ v, bool_decide (vol_Name v = volume) && bool_decide (vol_Type v = VolumeTypeManaged))
    (sp_Volumes spec).

Definition differential_volume (spec : ProjectSpec) (volume : string) : bool :=
  bool_decide (BackupStrategyFor spec volume = BackupStrategyPostgresDifferential)
  && hasManagedVolume spec volume.

Definition not_differential {A} (field volume name : string) : response A :=
  WriteError (ValidationError field
    ("volume " ++ volume ++ " is not a PostgresDifferential volume of project " ++ name)%string).

Record stanzaRequest := { szr_Fence : evidenceRequest; szr_Volume : string }.

Definition putStanza (caller : Caller) (name : string) (req : stanzaRequest) : prog (response ()) :=
  match evidence_fence caller "a stanza" name (szr_Fence req) with
  | inr problem => Ret problem
  | inl ref =>
      getProject name ≫= λ res,
      match res with
      | Err e => Ret (writeEvidenceResult name (Err e))
      | Ok project =>
          if negb (differential_volume (p_Spec project) (szr_Volume req)) then
            Ret (not_differential "volume" (szr_Volume req) name)
          else
            now_ ≫= λ now,
            RecordStanza name ref (szr_Volume req) now ≫= λ res,
            Ret (writeEvidenceResult name res)
      end
  end.

Record completionRequest := {
  cor_Fence : evidenceRequest;
  cor_Items : list BackupCompletionItem
}.

(** The loop over the items, from index [i] on: the first problem. *)
Fixpoint check_items (spec : ProjectSpec) (name uid : string) (i : nat)
    (items : list BackupCompletionItem) : option (response ()) :=
  match items with
  | [] => None
  | item :: rest =>
      let field := ("items[" ++ FormatInt (Z.of_nat i) ++ "]")%string in
      if negb (differential_volume spec (bci_Volume item)) then
        Some (not_differential (field ++ ".volume")%string (bci_Volume item) name)
      else if decide (bci_Stanza item ≠ StanzaName uid (bci_Volume item)) then
        Some (WriteError (ValidationError (field ++ ".stanza")%string "not the stanza of this lifetime's volume"))
      else if decide (bci_Label item = EmptyString) then
        Some (WriteError (ValidationError (field ++ ".label")%string "a backup label is required"))
      else if decide (bci_Type item ≠ "full"%string ∧ bci_Type item ≠ "diff"%string) then
        Some (WriteError (ValidationError (field ++ ".type")%string "must be full or diff"))
      else check_items spec name uid (S i) rest
  end.

Definition putBackupCompletion (caller : Caller) (name backupID : string) (req : completionRequest)
    : prog (response ()) :=
  match evidence_fence caller "a backup completion" name (cor_Fence req) with
  | inr problem => Ret problem
  | inl ref =>
      if negb (backupIDPattern backupID) then
        Ret (WriteError (ValidationError "backupID" "not a backup ID"))
      else
        getProject name ≫= λ res,
        match res with
        | Err e => Ret (writeEvidenceResult name (Err e))
        | Ok project =>
            if decide (cor_Items req = []) then
              Ret (WriteError (ValidationError "items" "a backup completion lists at least one item"))
            else
              match check_items (p_Spec project) name (ref_UID ref) 0 (cor_Items req) with
              | Some problem => Ret problem
              | None =>
                  now_ ≫= λ now,
                  RecordBackupCompletion name ref
                    {| bcp_BackupID := backupID; bcp_AcceptedAt := now;
                       bcp_NodeRef := EmptyString; bcp_AssignmentGeneration := 0%Z;
                       bcp_ManifestKey := BackupManifestKey (ref_UID ref) backupID;
                       bcp_Items := cor_Items req |} ≫= λ res,
                  Ret (writeEvidenceResult name res)
              end
        end
  end.

(** ** The contract *)

(** What an accepted phase report is, and all it changes of the core. *)
Lemma report_phase_cases name req t s s' :
  report_phase name req t s = Ok s' →
  PhaseTransitionAllowed WriterAgent (st_Phase s) (spr_Phase req) = true ∧
  (spr_Phase req = ProjectPhaseTerminated → st_Phase s = ProjectPhaseTerminated ∨
     ResourcesRemovedFor (st_Recovery s) (st_NodeRef s) (st_AssignmentGeneration s) = true) ∧
  same_core (st_with_Phase (spr_Phase req) s) s' ∧
  (∀ ct, ct ≠ ConditionTypePhase →
     condition_of ct (st_Conditions s') = condition_of ct (st_Conditions s)).
Proof.
  unfold report_phase. destruct (PhaseTransitionAllowed _ _ _) eqn:Ea; simpl; [|done].
  destruct (bool_decide (spr_Phase req = ProjectPhaseTerminated) && _ && _) eqn:Et; [done|].
  set (s1 := if decide (spr_Phase req = ProjectPhaseFailed) then _ else _). intros Hok.
  assert (same_core (st_with_Phase (spr_Phase req) s) s1) as Hs1.
  { subst s1. destruct (decide (spr_Phase req = _)); [|done]. simpl. destruct (st_Recovery s) as [r|] eqn:Er; simpl.
    - by apply (same_core_set_Recovery r).
    - split; try done. unfold obligations, EnsureRecovery. simpl. by rewrite Er. }
  assert (st_Conditions s1 = st_Conditions s) as Hc
    by (subst s1; by destruct (decide (spr_Phase req = _))).
  clearbody s1.
  split; [done|]. split; [|case_decide; injection Hok as <-; split].
  - intros Hp. rewrite Hp in *. rewrite bool_decide_true in Et by done. simpl in Et.
    rewrite andb_false_iff, !negb_false_iff in Et. bools. tauto.
  - done.
  - intros ct _. by rewrite Hc.
  - etrans; [done|]. eauto with cara.
  - intros ct Hne. cbn [st_Conditions st_with_Conditions]. rewrite Hc.
    by apply condition_of_upsert_ne.
Qed.

Lemma report_phase_legal name req t uid s s' :
  status_inv uid s → report_phase name req t s = Ok s' → legal uid 0 s s'.
Proof.
  intros Hi ((Hp & Hg & Ht)%agent_phase_facts & _ & [] & _)%report_phase_cases. simpl in *.
  apply legal_kept; try done; try lia; unfold deleting; try (rewrite sc_phase; naive_solver).
  by rewrite sc_stanzas.
Qed.

(** ** What a Node may change *)

(** The condition types no Agent route writes. *)
Definition foreign_condition (t : ConditionType) : Prop :=
  agentWritableConditions t = false ∧
  t ∉ [ConditionTypePhase; ConditionTypeSpecApplied; ConditionTypeBackupActive].

(** A change to a Project its Agent holds: the phase moves only as an Agent may
    move it, and the assignment, its history, the obligations and the conditions
    of others stay. *)
Record own_change (s s' : ProjectStatus) : Prop := {
  oc_phase : st_Phase s' = st_Phase s ∨
    PhaseTransitionAllowed WriterAgent (st_Phase s) (st_Phase s') = true;
  oc_node : st_NodeRef s' = st_NodeRef s;
  oc_generation : st_AssignmentGeneration s' = st_AssignmentGeneration s;
  oc_history : st_AssignmentHistory s' = st_AssignmentHistory s;
  oc_obligations : obligations s' = obligations s;
  oc_conditions : ∀ t, foreign_condition t →
    condition_of t (st_Conditions s') = condition_of t (st_Conditions s)
}.

(** A change to a Project another Node, or none, holds: evidence on obligations
    of this Node, and nothing else. *)
Definition owed_change (node : string) (s s' : ProjectStatus) : Prop :=
  s' = st_with_Recovery (st_Recovery s') s ∧
  ∀ a, NodeName a ≠ node → FindObligation (st_Recovery s') a = FindObligation (st_Recovery s) a.

Lemma workload_stopped_own name ref t s s' : workload_stopped name ref t s = Ok s' → own_change s s'.
Proof.
  unfold workload_stopped. destruct (negb _); [done|].
  destruct (WorkloadStoppedFor _ _); intros [= <-]; split; auto.
Qed.

Lemma committed_backup_own name ref id t s s' : committed_backup name ref id t s = Ok s' → own_change s s'.
Proof.
  unfold committed_backup. destruct (negb _); [done|]. case_decide; intros [= <-]; split; auto.
Qed.

Lemma stanza_record_own name ref v t s s' : stanza_record name ref v t s = Ok s' → own_change s s'.
Proof.
  unfold stanza_record. destruct (negb _); [done|].
  destruct (HasStanza _ _); intros [= <-]; split; auto.
Qed.

Lemma own_change_upsert s1 s cond b :
  own_change s s1 → cond_Type cond ∈ [ConditionTypePhase; ConditionTypeSpecApplied; ConditionTypeBackupActive] →
  own_change s (st_with_Conditions (UpsertCondition (st_Conditions s1) cond b) s1).
Proof.
  intros [] Hin. split; try done. intros t Ht. simpl. rewrite condition_of_upsert_ne; [auto|].
  intros <-. by destruct Ht.
Qed.

Lemma spec_applied_own name report meta s s' : spec_applied name report meta s = Ok s' → own_change s s'.
Proof.
  unfold spec_applied. destruct (negb _); [done|]. destruct (bool_decide (_ < _)%Z); [done|].
  set (s1 := if sar_Applied report && _ then _ else _).
  assert (own_change s s1) as H1 by (subst s1; destruct (_ && _); split; auto).
  destruct (negb _); intros [= <-]; [done|]. apply own_change_upsert; [done|].
  destruct (sar_Applied report); simpl; set_solver.
Qed.

Lemma backup_completion_own name ref c s s' :
  backup_completion name ref c s = Ok s' → s' ≠ s →
  own_change s s' ∧ st_NodeRef s = ref_NodeRef ref.
Proof.
  intros Hm Hne. pose proof Hm as Hm'. unfold backup_completion in Hm'.
  destruct (Completion _ _); [congruence|].
  destruct (bool_decide (st_NodeRef s = _)) eqn:En; simpl in Hm'; [|done]. bools.
  destruct (negb _); [done|]. simpl in Hm'. destruct (negb _); [done|]. injection Hm' as <-.
  split; [|done]. apply (own_change_upsert (st_with_Backup _ s)); [split; auto|]. simpl. set_solver.
Qed.

Lemma report_phase_own name req t s s' : report_phase name req t s = Ok s' → own_change s s'.
Proof.
  intros (Ha & _ & [] & Hc)%report_phase_cases. simpl in *. split; try done.
  - right. congruence.
  - intros ct [_ Hct]. apply Hc. set_solver.
Qed.

Lemma conditions_own cs s :
  (∀ t, foreign_condition t → condition_of t cs = condition_of t (st_Conditions s)) →
  own_change s (st_with_Conditions cs s).
Proof. intros Hc. split; auto. Qed.

Lemma owner_evidence_owed name owner is_done record s s' :
  (∀ o, ob_Assignment (record o) = ob_Assignment o) →
  owner_evidence name owner is_done record s = Ok s' → s' ≠ s →
  owed_change (ref_NodeRef owner) s s'.
Proof.
  intros Hass Hm Hne. destruct (owner_evidence_change _ _ _ _ _ _ Hass Hm Hne) as (o & _ & _ & Hs & Hb).
  split; [done|]. intros a Ha. rewrite Hb. rewrite decide_False; [done|]. by intros ->.
Qed.

(** One write of one row, which a Node may make. *)
Definition node_write (node name : string) (d1 d2 : DB) : Prop :=
  ∃ r r', project_at d1 name = Some r ∧ d2 = put_row (project_key name) r' d1 ∧
    row_UID r' = row_UID r ∧ row_Spec r' = row_Spec r ∧
    ((st_NodeRef (row_status r) = node ∧ own_change (row_status r) (row_status r')) ∨
     owed_change node (row_status r) (row_status r')).

(** No write, or one with at most its announcement. *)
Definition confined (node name : string) (h h' : list Event) : Prop :=
  h' = h ∨ ∃ d1 d2, node_write node name d1 d2 ∧
    (h' = h ++ [Wrote d1 d2; Published TopicProjectUpdated name] ∨ h' = h ++ [Wrote d1 d2]).

Section confinement.
Context `{UUIDSource}.
Notation wpc p node name d h := (wp others (λ _ _, True) p (λ _ _ h', confined node name h h') d h).

Lemma confined_fenced name ref mutate d h :
  db_inv d → (∀ m s s', mutate m s = Ok s' → own_change s s') →
  wpc (reportProjectStatusFenced name ref mutate) (ref_NodeRef ref) name d h.
Proof.
  intros Hinv Hm. eapply wp_mono; [|by apply wp_fenced_report].
  intros res d' h' [[-> _]|(d1 & d2 & (_ & r & s' & now & Hr & Hf & Hs & _ & ->) & Hres)]; [by left|].
  right. exists d1, (put_row (project_key name) (commit_status s' now r) d1). split.
  - exists r, (commit_status s' now r). split_and!; try done. left. split; [by rewrite <- Hf|eauto].
  - destruct Hres as [[_ ->]|(e & _ & _ & ->)]; auto.
Qed.

Lemma confined_uid name uid node mutate d h :
  db_inv d →
  (∀ s s', mutate s = Ok s' → s' ≠ s →
     (st_NodeRef s = node ∧ own_change s s') ∨ owed_change node s s') →
  wpc (UpdateProjectStatusForUID name uid mutate) node name d h.
Proof.
  intros Hinv Hm. eapply wp_mono; [|by apply wp_UpdateProjectStatusForUID].
  intros res d' h' [[-> _]|(d1 & d2 & (_ & r & s' & now & Hr & Hu & Hs & Hne & ->) & Hres)]; [by left|].
  right. exists d1, (put_row (project_key name) (commit_status s' now r) d1). split.
  - exists r, (commit_status s' now r). split_and!; try done. by apply Hm.
  - destruct Hres as [[_ ->]|(e & _ & _ & ->)]; auto.
Qed.

Lemma confined_condition what name ref cs d h :
  (∀ s t, foreign_condition t → condition_of t (cs s) = condition_of t (st_Conditions s)) →
  wpc (update_conditions what name (assignmentFenceWHERE ref) cs (classifyFencedConditionMiss name ref))
    (ref_NodeRef ref) name d h.
Proof.
  intros Hcs. eapply wp_mono; [|apply wp_fenced_condition].
  intros res d' h' [[-> _]|(d1 & r & now & Hd1 & Hr & Hp%fence_WHERE & _ & Hres)]; [by left|].
  set (r' := row_with_status (set_conditions (cs (row_status r)) (row_Status r)) now r) in *.
  right. exists d1, (put_row (project_key name) r' d1). split.
  - exists r, r'. split_and!; try done. left. split; [by rewrite <- Hp|].
    apply conditions_own. auto.
  - destruct Hres as [[_ ->]|(e & _ & _ & ->)]; auto.
Qed.

(** A fence is complete, and a Node presents only its own. *)
Lemma fence_in_owner {A} caller (missing : response A) uid nodeRef gen ref :
  fence_in caller missing uid nodeRef gen = inl ref →
  ref = {| ref_UID := uid; ref_NodeRef := nodeRef; ref_Generation := default 0%Z gen |} ∧
  nodeRef ≠ EmptyString ∧ uid ≠ EmptyString ∧ is_Some gen ∧
  ∀ node, node_caller caller = Some node → node = nodeRef.
Proof.
  unfold fence_in. case_decide as Hn; [done|]. destruct gen as [g|]; [|done].
  destruct (RequireFenceOwner caller nodeRef) eqn:Ef; [done|]. intros [= <-].
  split_and!; try naive_solver. intros node. unfold node_caller, RequireFenceOwner in *.
  destruct caller as [p|]; [|done]. case_decide as Hk; [|done]. intros [= <-].
  rewrite bool_decide_true in Ef by done. simpl in Ef. case_bool_decide; [done|done].
Qed.
End confinement.

(** ** The routes *)

Inductive agent_call :=
| PatchStatus (req : statusPatchRequest)
| PatchCondition (t : ConditionType) (req : conditionPatchRequest)
| DeleteCondition (t : ConditionType) (uid nodeRef rawGeneration : string)
| PutSpecApplied (req : specAppliedRequest)
| PutWorkloadStopped (req : evidenceRequest)
| PutManagedDataQuarantined (req : evidenceRequest)
| PutResourcesRemoved (req : evidenceRequest)
| PutCommittedBackup (req : committedBackupRequest)
| PutStanza (req : stanzaRequest)
| PutBackupCompletion (backupID : string) (req : completionRequest).

(** RegisterRoutes, for the routes of Agents that write. *)
Definition agent_route (caller : Caller) (name : string) (c : agent_call) : prog (response ()) :=
  match c with
  | PatchStatus req => patchStatus caller name req
  | PatchCondition t req => patchCondition caller name t req
  | DeleteCondition t uid nodeRef raw => deleteCondition caller name t uid nodeRef raw
  | PutSpecApplied req => putSpecApplied caller name req
  | PutWorkloadStopped req => putWorkloadStopped caller name req
  | PutManagedDataQuarantined req => putManagedDataQuarantined caller name req
  | PutResourcesRemoved req => putResourcesRemoved caller name req
  | PutCommittedBackup req => putCommittedBackup caller name req
  | PutStanza req => putStanza caller name req
  | PutBackupCompletion id req => putBackupCompletion caller name id req
  end.

Section route_confinement.
Context `{UUIDSource}.
Notation wpc p node name d h := (wp others (λ _ _, True) p (λ _ _ h', confined node name h h') d h).

Lemma confined_then {A B} (p : prog A) (f : A → B) node name d h :
  wpc p node name d h → wpc (p ≫= λ res, Ret (f res)) node name d h.
Proof. intros Hp. apply wp_bind. by eapply wp_mono; [|exact Hp]. Qed.

Lemma confined_now {A} (k : Time → prog A) node name d h :
  db_inv d → (∀ t d1, db_inv d1 → wpc (k t) node name d1 h) → wpc (now_ ≫= k) node name d h.
Proof. intros Hinv Hk. apply wp_bind, wp_now. intros t d1 Hd. apply Hk. by apply Hd. Qed.

Lemma confined_read {A} (k : result Project → prog A) node name d h :
  db_inv d → (∀ res d1, db_inv d1 → wpc (k res) node name d1 h) →
  wpc (getProject name ≫= k) node name d h.
Proof.
  intros Hinv Hk. apply wp_bind, wp_getProject; intros; apply Hk; by apply H0.
Qed.

(** A route writes for the Node of its fence, which is its caller. *)
Lemma confined_fence {A B} caller (missing : response A) uid nodeRef gen
    (k : AssignmentRef → prog B) (e : response A → prog B) node name d h :
  node_caller caller = Some node →
  (∀ r, wpc (e r) node name d h) →
  (∀ ref, ref_NodeRef ref = node → wpc (k ref) node name d h) →
  wpc (match fence_in caller missing uid nodeRef gen with inr p => e p | inl ref => k ref end)
    node name d h.
Proof.
  intros Hc He Hk. destruct (fence_in _ _ _ _ _) as [ref|p] eqn:Ef; [|done].
  apply fence_in_owner in Ef as (-> & _ & _ & _ & Hn). apply Hk. simpl. symmetry. auto.
Qed.
End route_confinement.

Lemma foreign_not_writable t t' :
  agentWritableConditions t = true → foreign_condition t' → t' ≠ t.
Proof. intros Ht [Hf _] ->. congruence. Qed.

(** Follows a route from its validation to its store call: every refusal is
    answered without a write, and the fence names the caller. *)
Ltac confine :=
  repeat first
    [ apply confined_fence; [done|intros ?; by apply wp_ret; left|]; intros ? <-
    | match goal with
      | |- wp _ _ (now_ ≫= _) _ _ _ => apply confined_now; [done|]; intros ? ? ?
      | |- wp _ _ (getProject _ ≫= _) _ _ _ => apply confined_read; [done|]; intros [?|?] ? ?
      | |- wp _ _ (Ret _) _ _ _ => by apply wp_ret; left
      | |- wp _ _ (if negb ?b then _ else _) _ _ _ =>
          destruct b eqn:?; [change (negb true) with false|change (negb false) with true]; cbv iota
      | |- wp _ _ (if decide ?P then _ else _) _ _ _ => destruct (decide P)
      | |- wp _ _ (match ?x with None => _ | Some _ => _ end) _ _ _ => destruct x
      end ]; apply confined_then.

(** C29 (handler.go, the routes of Agents; authz.go, RequireFenceOwner): a Node's
    credential reaches nothing but that Node's work. Whatever an authenticated
    Node sends to any of the ten writing routes, and whatever happens meanwhile,
    the request makes at most one write, to the row of the Project it names. If
    the Project is assigned to the caller at that moment, the write leaves the
    spec, the assignment, its history, the obligations and the controllers'
    conditions alone and moves the phase only as an Agent may; otherwise it is
    evidence on cleanup obligations of the caller and changes nothing else. *)
Theorem node_writes_confined `{UUIDSource} (caller : Caller) (node name : string) (c : agent_call)
    (ms : list move) (d0 : DB) (Hinv : db_inv d0) (Hms : schedule_ok ms)
    (Hcaller : node_caller caller = Some node) :
  confined node name [] (history_of (run (agent_route caller name c) ms d0 [])).
Proof.
  run_wp (agent_route caller name c) ms d0.
  destruct c as [req|t req|t uid nodeRef raw|req|req|req|req|req|req|id req]; simpl agent_route.
  - unfold patchStatus. confine. apply confined_fenced; [done|]. intros _. apply report_phase_own.
  - unfold patchCondition. confine. apply confined_condition. intros s t' Ht'.
    rewrite patched_type, decide_False; [done|]. by apply foreign_not_writable.
  - unfold deleteCondition. confine. apply confined_condition. intros s t' Ht'.
    rewrite excluding_type, decide_False; [done|]. by apply foreign_not_writable.
  - unfold putSpecApplied. confine. apply confined_fenced; [done|]. apply spec_applied_own.
  - confine. apply confined_fenced; [done|]. intros _. apply workload_stopped_own.
  - confine. apply confined_uid; [done|]. intros s s' Hm Hne. right.
    by refine (owner_evidence_owed _ _ _ _ _ _ _ Hm Hne).
  - confine. apply confined_uid; [done|]. intros s s' Hm Hne. right.
    by refine (owner_evidence_owed _ _ _ _ _ _ _ Hm Hne).
  - unfold putCommittedBackup. confine. apply confined_fenced; [done|]. intros _. apply committed_backup_own.
  - confine. apply confined_fenced; [done|]. intros _. apply stanza_record_own.
  - confine. apply confined_uid; [done|]. intros s s' Hm Hne. left.
    destruct (backup_completion_own _ _ _ _ _ Hm Hne). by split.
Qed.

(** Node "a" reports its own Project failed; Node "b" presents the same fence
    and is refused. *)
Definition example_node (name : string) : Caller :=
  Some {| pr_Kind := APITokenKindNode; pr_Name := name |}.
Definition example_report (phase : ProjectPhase) : statusPatchRequest :=
  {| spr_Phase := phase; spr_Reason := "Crashed"; spr_Message := "exited with 1";
     spr_UID := counter_uuid 0; spr_NodeRef := "a"; spr_AssignmentGeneration := Some 1%Z |}.

Lemma node_writes_confined_witness :
  let x := run (agent_route (example_node "a") "shop" (PatchStatus (example_report ProjectPhaseFailed)))
             [] (example_db (running_status "a") 3) [] in
  length (history_of x) = 2 ∧ confined "a" "shop" [] (history_of x) ∧
  history_of (run (agent_route (example_node "b") "shop" (PatchStatus (example_report ProjectPhaseFailed)))
             [] (example_db (running_status "a") 3) []) = [].
Proof.
  intros x. split; [vm_compute; reflexivity|]. split; [|vm_compute; reflexivity].
  apply (@node_writes_confined counter_uuids (example_node "a") "a" "shop"
    (PatchStatus (example_report ProjectPhaseFailed)) [] (example_db (running_status "a") 3)
    example_running_inv ltac:(by constructor) eq_refl).
Defined.

(** (handler.go, patchStatus): a phase report is accepted only from the
    assignment it names, and believed only as far as the lifecycle allows.
    Under any interference it makes at most one write; the row written carries,
    at that moment, the UID, the Node and the generation of the request; the
    move is one an Agent may make from the phase found, so a deletion that came
    first wins; Terminated is written only once ResourcesRemoved is recorded for
    that assignment; and the assignment, the obligations and the conditions other
    than Phase stay as found. 204 is answered only after such a write, or when
    the row was found to say the same already. *)
Theorem patchStatus_exact `{UUIDSource} (caller : Caller) (name : string) (req : statusPatchRequest)
    (ms : list move) (d0 : DB) (Hinv : db_inv d0) (Hms : schedule_ok ms) :
  let x := run (patchStatus caller name req) ms d0 [] in
  let fence := λ r, row_UID r = spr_UID req ∧ st_NodeRef (row_status r) = spr_NodeRef req ∧
                    spr_AssignmentGeneration req = Some (st_AssignmentGeneration (row_status r)) in
  (history_of x = [] ∧
   (result_of x = WriteHeader StatusNoContent →
      ∃ d r, others d0 d ∧ project_at d name = Some r ∧ fence r ∧
             st_Phase (row_status r) = spr_Phase req)) ∨
  (∃ d1 r s' now, let d2 := put_row (project_key name) (commit_status s' now r) d1 in
     others d0 d1 ∧ project_at d1 name = Some r ∧ fence r ∧
     PhaseTransitionAllowed WriterAgent (st_Phase (row_status r)) (spr_Phase req) = true ∧
     (spr_Phase req = ProjectPhaseTerminated → st_Phase (row_status r) = ProjectPhaseTerminated ∨
        ResourcesRemovedFor (st_Recovery (row_status r)) (spr_NodeRef req)
          (st_AssignmentGeneration (row_status r)) = true) ∧
     same_core (st_with_Phase (spr_Phase req) (row_status r)) s' ∧
     (∀ ct, ct ≠ ConditionTypePhase →
        condition_of ct (st_Conditions s') = condition_of ct (st_Conditions (row_status r))) ∧
     ((result_of x = WriteHeader StatusNoContent ∧
       history_of x = [Wrote d1 d2; Published TopicProjectUpdated name]) ∨
      (∃ e, result_of x = WriteError (ProblemOf e) ∧ is_fault e = true ∧ history_of x = [Wrote d1 d2]))).
Proof.
  intros x fence. subst x. run_wp (patchStatus caller name req) ms d0.
  unfold patchStatus. case_decide; [by apply wp_ret; left|]. destruct (negb _); [by apply wp_ret; left|].
  destruct (resolveFence _ _ _ _ _) as [ref|p] eqn:Ef.
  2:{ apply wp_ret. left. split; [done|]. intros ->. unfold resolveFence, fence_in in Ef.
      case_decide; [done|]. destruct (spr_AssignmentGeneration req); [|done].
      by destruct (RequireFenceOwner _ _). }
  apply fence_in_owner in Ef as (-> & _ & _ & [g Hg] & _). rewrite Hg; simpl default.
  assert (∀ r, fence_of (row_UID r) (row_status r) =
    {| ref_UID := spr_UID req; ref_NodeRef := spr_NodeRef req; ref_Generation := g |} → fence r) as Hfence.
  { intros r [= Hu Hn Hgen]. subst fence. cbv beta. rewrite Hg. by split_and!; [..|f_equal]. }
  apply wp_bind, wp_now. intros now d Hd. apply wp_bind.
  eapply wp_mono; [|apply wp_fenced_report; by apply Hd].
  intros res d' h' [[-> Hn]|(d1 & d2 & (Hd1 & r & s' & t & Hr & Hf & Hm & Hne & ->) & Hres)]; apply wp_ret.
  - left. split; [done|]. destruct res as [[]|e]; [|by intros []%lookup_failed_cases].
    intros _. destruct (Hn eq_refl) as (d1 & r & Hd1 & Hr & Hf & (_ & _ & [Hph] & _)%report_phase_cases).
    exists d1, r. split_and!; try done; [by trans d|by apply Hfence].
  - right. exists d1, r, s', t. apply report_phase_cases in Hm as (Ha & Ht & Hc & Hct).
    destruct (Hfence _ Hf) as (Hu & Hnode & Hgen). rewrite Hnode in Ht.
    split_and!; try done; [by trans d|].
    destruct Hres as [[-> ->]|(e & -> & He & ->)]; [by left|right].
    exists e. unfold lookup_failed. by rewrite fault_is_not.
Qed.

Lemma patchStatus_exact_witness :
  let x := run (patchStatus (example_node "a") "shop" (example_report ProjectPhaseFailed)) []
             (example_db (running_status "a") 3) [] in
  ∃ r, project_at (db_of x) "shop" = Some r ∧ st_Phase (row_status r) = ProjectPhaseFailed ∧
    result_of x = WriteHeader StatusNoContent.
Proof.
  intros x. eexists. split; [vm_compute; reflexivity|]. split; [vm_compute; reflexivity|].
  destruct (@patchStatus_exact counter_uuids (example_node "a") "shop" (example_report ProjectPhaseFailed)
    [] (example_db (running_status "a") 3) example_running_inv ltac:(by constructor))
    as [[Hh _]|(d1 & r & s' & now & _ & _ & _ & _ & _ & _ & _ & [[Hr _]|(e & He & _)])].
  - exfalso. vm_compute in Hh. discriminate.
  - exact Hr.
  - exfalso. vm_compute in He. discriminate.
Defined.

(** ** Every route keeps the contract *)

Section agent_routes_safe.
Context `{UUIDSource}.

Lemma safe_fence {A B} caller (missing : response A) uid nodeRef gen
    (k : AssignmentRef → prog B) (e : response A → prog B) :
  (∀ r, safe others (e r)) → (∀ ref, safe others (k ref)) →
  safe others match fence_in caller missing uid nodeRef gen with inr p => e p | inl ref => k ref end.
Proof. intros He Hk. by destruct (fence_in _ _ _ _ _). Qed.

Lemma safe_agent_route caller name c : safe others (agent_route caller name c).
Proof.
  assert (∀ p : response (), safe others (Ret p)) as Hret by (intros; apply safe_ret).
  assert (∀ (p : prog (result ())) (f : result () → response ()),
    safe others p → safe others (p ≫= λ res, Ret (f res))) as Hthen
    by (intros; apply safe_bind; [done|intros; apply safe_ret]).
  assert (∀ k : Time → prog (response ()), (∀ t, safe others (k t)) → safe others (now_ ≫= k)) as Hnow
    by (intros; apply safe_bind; [by apply safe_now|done]).
  destruct c as [req|t req|t uid nodeRef raw|req|req|req|req|req|req|id req]; simpl agent_route.
  - unfold patchStatus. case_decide; [done|]. destruct (negb _); [done|].
    apply safe_fence; [done|]. intros ref. apply Hnow. intros now. apply Hthen.
    apply safe_ReportProjectStatusFenced; eauto with cara. intros. by eapply report_phase_legal.
  - unfold patchCondition. destruct (negb _); [done|]. destruct (negb _); [done|].
    apply safe_fence; [done|]. intros ref. apply Hnow. intros now.
    apply Hthen, safe_PatchProjectConditionFenced.
  - unfold deleteCondition. destruct (negb _); [done|]. destruct (if decide _ then _ else _); [|done].
    apply safe_fence; [done|]. intros ref. apply Hthen, safe_ClearProjectConditionFenced.
  - unfold putSpecApplied. case_decide; [done|]. case_decide; [done|].
    apply safe_fence; [done|]. intros ref. apply Hnow. intros now. apply Hthen, safe_RecordSpecApplied.
  - apply safe_fence; [done|]. intros ref. apply Hnow. intros now. apply Hthen, safe_RecordWorkloadStopped.
  - apply safe_fence; [done|]. intros ref. apply Hnow. intros now.
    apply Hthen, safe_RecordManagedDataQuarantined.
  - apply safe_fence; [done|]. intros ref. apply Hnow. intros now. apply Hthen, safe_RecordResourcesRemoved.
  - unfold putCommittedBackup. destruct (negb _); [done|].
    apply safe_fence; [done|]. intros ref. apply Hnow. intros now. apply Hthen, safe_RecordCommittedBackup.
  - apply safe_fence; [done|]. intros ref. apply safe_bind; [by apply safe_getProject|].
    intros [p|e]; [|done]. destruct (negb _); [done|].
    apply Hnow. intros now. apply Hthen, safe_RecordStanza.
  - apply safe_fence; [done|]. intros ref. destruct (negb _); [done|].
    apply safe_bind; [by apply safe_getProject|]. intros [p|e]; [|done]. case_decide; [done|].
    destruct (check_items _ _ _ _ _); [done|].
    apply Hnow. intros now. apply Hthen, safe_RecordBackupCompletion.
Qed.
End agent_routes_safe.
