(* ===== verification/Calendar.v ===== *)
(** Package time: a UTC time written as RFC3339 and RFC3339Nano, from year 1 to 9999. *)
From Stdlib Require Import ZArith.
From stdpp Require Import prelude strings.
From S2P Require Import Prelude.
Import GoTime GoInt GoString.
Open Scope nat_scope.

Set Default Proof Using "Type".


Definition pad2 (z : Z) : string := if Z.ltb z 10 then ("0" ++ FormatInt z)%string else FormatInt z.
Definition pad4 (z : Z) : string :=
  if Z.ltb z 10 then ("000" ++ FormatInt z)%string
  else if Z.ltb z 100 then ("00" ++ FormatInt z)%string
  else if Z.ltb z 1000 then ("0" ++ FormatInt z)%string else FormatInt z.

Definition leap (y : Z) : bool := Z.eqb (y mod 4) 0 && (negb (Z.eqb (y mod 100) 0) || Z.eqb (y mod 400) 0).
Definition month_days (y : Z) : list Z :=
  [31; if leap y then 29 else 28; 31; 30; 31; 30; 31; 31; 30; 31; 30; 31]%Z.

(** The month and the day, from the day of the year. *)
Fixpoint month_of (days : list Z) (month d : Z) : Z * Z :=
  match days with
  | [] => (month, d + 1)%Z
  | n :: rest => if Z.ltb d n then (month, d + 1)%Z else month_of rest (month + 1)%Z (d - n)%Z
  end.
(** The year and the day in it, from the days since the start of year 1: cycles of
    400, 100, 4 and 1 years, the last of each cycle a day longer where it is. *)
Definition year_of (days : Z) : Z * Z :=
  let n400 := (days / 146097)%Z in let d := (days mod 146097)%Z in
  let n100 := Z.min 3 (d / 36524) in let d := (d - 36524 * n100)%Z in
  let n4 := (d / 1461)%Z in let d := (d mod 1461)%Z in
  let n1 := Z.min 3 (d / 365) in
  (400 * n400 + 100 * n100 + 4 * n4 + n1 + 1, d - 365 * n1)%Z.

(** The date and the time of day, their parts separated by [dash] and [colon]. *)
Definition date_time_by (dash colon : string) (t : Time) : string :=
  let secs := (t / Second)%Z in
  let days := (secs / 86400)%Z in
  let s := (secs mod 86400)%Z in
  let '(y, yd) := year_of days in
  let '(mo, d) := month_of (month_days y) 1 yd in
  (pad4 y ++ dash ++ pad2 mo ++ dash ++ pad2 d ++ "T" ++ pad2 (s / 3600) ++ colon ++ pad2 (s mod 3600 / 60)
   ++ colon ++ pad2 (s mod 60))%string.
Definition date_time (t : Time) : string := date_time_by "-" ":" t.

Definition RFC3339 (t : Time) : string := (date_time t ++ "Z")%string.

(** The layout 20060102T150405Z. *)
Definition compact_time (t : Time) : string := (date_time_by EmptyString EmptyString t ++ "Z")%string.

(** The digits of a fraction of [n] digits, the last ones left out while they are 0. *)
Fixpoint fraction (n : nat) (x : Z) : string :=
  match n with
  | 0 => EmptyString
  | S n =>
      if Z.eqb x 0 then EmptyString
      else (FormatInt (x / 10 ^ Z.of_nat n) ++ fraction n (x mod 10 ^ Z.of_nat n))%string
  end.
Definition RFC3339Nano (t : Time) : string :=
  let ns := (t mod Second)%Z in
  (date_time t ++ (if Z.eqb ns 0 then EmptyString else "." ++ fraction 9 ns) ++ "Z")%string.

Example RFC3339_forms :
  RFC3339 (63844806896 * Second)%Z = "2024-02-29T12:34:56Z"%string ∧ RFC3339 0%Z = "0001-01-01T00:00:00Z"%string ∧
  RFC3339 (63082281599 * Second)%Z = "1999-12-31T23:59:59Z"%string ∧
  RFC3339Nano (63844806896 * Second + 50700000)%Z = "2024-02-29T12:34:56.0507Z"%string ∧
  RFC3339Nano (63844806896 * Second)%Z = "2024-02-29T12:34:56Z"%string ∧
  compact_time (63844806896 * Second + 50700000)%Z = "20240229T123456Z"%string.
Proof. split_and!; vm_compute; reflexivity. Qed.
