(* ===== verification/Failures.v ===== *)
(** The errors of the Agent (internal/agent and its packages), apart from those
    of the server: sentinels, the typed errors that carry names to publish, and
    wrapping. *)
From stdpp Require Import prelude strings.
From S2P Require Import Prelude.
From S2P Require Import ProjectTypes.
Import GoString.

Set Default Proof Using "Type".

(** The sentinels of client.go, loop.go, restoresupport.go and the docker, backup,
    restore, objectstore, context, pgbackup and pgbackrest packages. [ErrBackupDiskSpace] and
    [ErrRestoreDiskSpace] are the two packages' ErrInsufficientDiskSpace. [ErrStaleReport] is client.go's ErrStaleAssignment;
    [ErrDockerNotFound] marks what Docker's client takes for a 404, whose text is
    around it. *)
Inductive agent_sentinel :=
| ErrNodeNotFound
| ErrStaleReport
| ErrProjectNotFound
| ErrSecretNotFound
| ErrJoinRefused
| errSecretKeyNotFound
| errDeferred
| ErrContainerNotOwned
| ErrRecoveryVolumeUnavailable
| ErrImagePull
| ErrRepositoryNotHTTPS
| ErrDockerNotFound
| ErrObjectNotFound
| ErrNoManagedVolumes
| ErrBackupDiskSpace
| ErrGenerationMissing
| ErrManifestMismatch
| ErrChecksumMismatch
| ErrRestoreDiskSpace
| ErrUnsafePath
| ErrArchiveTooLarge
| ErrContainerNotReady
| ContextCanceled
| ContextDeadlineExceeded.
#[export] Instance agent_sentinel_eq_dec : EqDecision agent_sentinel.
Proof. solve_decision. Defined.

Inductive failure :=
| Fails (s : agent_sentinel)
| secretRefError (Service Env Secret Key : string) (e : failure)
| VolumeUnavailableError (Service Volume : string) (Type_ : VolumeType) (Detail : string)
| ContainerNotOwnedError (Container Service Label Want Got : string)
| PlacementBlockedError (Reason Detail : string)
| pgBlockedError (reason detail : string)
| Text (text : string)
| Around (pre : string) (e : failure) (post : string)
| Joined (e rest : failure).
#[export] Instance failure_eq_dec : EqDecision failure.
Proof. solve_decision. Defined.

Definition agent_sentinel_text (s : agent_sentinel) : string :=
  match s with
  | ErrNodeNotFound => "node not found"
  | ErrStaleReport => "stale assignment: report rejected by server"
  | ErrProjectNotFound => "project not found"
  | ErrSecretNotFound => "secret not found"
  | ErrJoinRefused => "cara-server refused the join token"
  | errSecretKeyNotFound => "secret key not found"
  | errDeferred => "agent: operation deferred, project busy"
  | ErrContainerNotOwned => "container not owned by the current assignment"
  | ErrRecoveryVolumeUnavailable => "recovery volume unavailable"
  | ErrImagePull => "pull image"
  | ErrRepositoryNotHTTPS => "pgbackrest: the object store must be reached over https"
  | ErrDockerNotFound => EmptyString
  | ErrObjectNotFound => "objectstore: key not found"
  | ErrNoManagedVolumes => "backup: project has no Managed volumes"
  | ErrBackupDiskSpace => "backup: insufficient free disk space"
  | ErrGenerationMissing => "restore: backup generation is missing"
  | ErrManifestMismatch => "restore: generation does not match project spec"
  | ErrChecksumMismatch => "restore: archive does not match manifest"
  | ErrRestoreDiskSpace => "restore: insufficient free disk space"
  | ErrUnsafePath => "restore: archive entry escapes destination"
  | ErrArchiveTooLarge => "restore: archive exceeds maximum extracted size"
  | ErrContainerNotReady => "pgbackup: database container is not running under this assignment"
  | ContextCanceled => "context canceled"
  | ContextDeadlineExceeded => "context deadline exceeded"
  end.

(** [errors.Is]. *)
Fixpoint FIs (e : failure) (target : agent_sentinel) : bool :=
  match e with
  | Fails s => bool_decide (s = target)
  | secretRefError _ _ _ _ e' => FIs e' target
  | VolumeUnavailableError _ _ _ _ => bool_decide (target = ErrRecoveryVolumeUnavailable)
  | ContainerNotOwnedError _ _ _ _ _ => bool_decide (target = ErrContainerNotOwned)
  | PlacementBlockedError _ _ | pgBlockedError _ _ | Text _ => false
  | Around _ e' _ => FIs e' target
  | Joined e' rest => FIs e' target || FIs rest target
  end.

Definition newline : string := String (Ascii.ascii_of_nat 10) EmptyString.

(** [err.Error()]. *)
Fixpoint FError (e : failure) : string :=
  match e with
  | Fails s => agent_sentinel_text s
  | secretRefError service env secret key e' =>
      if FIs e' errSecretKeyNotFound
      then "service " ++ Quote service ++ " env " ++ Quote env ++ ": secret " ++ Quote secret ++ ": "
           ++ FError e' ++ ": " ++ Quote key
      else "service " ++ Quote service ++ " env " ++ Quote env ++ ": " ++ FError e'
  | VolumeUnavailableError service volume type detail =>
      agent_sentinel_text ErrRecoveryVolumeUnavailable ++ ": service " ++ Quote service ++ ": " ++ type
      ++ " volume " ++ Quote volume ++ ": " ++ detail
  | ContainerNotOwnedError container service label want got =>
      agent_sentinel_text ErrContainerNotOwned ++ ": container " ++ Quote container ++ " for service "
      ++ Quote service ++ ": label " ++ label ++ " is " ++ Quote got ++ ", current assignment requires "
      ++ Quote want
  | PlacementBlockedError reason detail => "restore: placement blocked (" ++ reason ++ "): " ++ detail
  | pgBlockedError reason detail => reason ++ ": " ++ detail
  | Text text => text
  | Around pre e' post => pre ++ FError e' ++ post
  | Joined e' rest => FError e' ++ newline ++ FError rest
  end%string.

(** [errors.As] for each typed error a caller asks for: the first along the
    chain. *)
Fixpoint AsSecretRef (e : failure) : option (string * string * string) :=
  match e with
  | secretRefError service _ secret key _ => Some (service, secret, key)
  | Around _ e' _ => AsSecretRef e'
  | Joined e' rest => match AsSecretRef e' with Some x => Some x | None => AsSecretRef rest end
  | _ => None
  end.
Fixpoint AsVolumeUnavailable (e : failure) : option (string * string * VolumeType) :=
  match e with
  | VolumeUnavailableError service volume type _ => Some (service, volume, type)
  | secretRefError _ _ _ _ e' | Around _ e' _ => AsVolumeUnavailable e'
  | Joined e' rest => match AsVolumeUnavailable e' with Some x => Some x | None => AsVolumeUnavailable rest end
  | _ => None
  end.
Fixpoint AsContainerNotOwned (e : failure) : option string :=
  match e with
  | ContainerNotOwnedError _ service _ _ _ => Some service
  | secretRefError _ _ _ _ e' | Around _ e' _ => AsContainerNotOwned e'
  | Joined e' rest => match AsContainerNotOwned e' with Some x => Some x | None => AsContainerNotOwned rest end
  | _ => None
  end.
Fixpoint AsPlacementBlocked (e : failure) : option (string * string) :=
  match e with
  | PlacementBlockedError reason detail => Some (reason, detail)
  | secretRefError _ _ _ _ e' | Around _ e' _ => AsPlacementBlocked e'
  | Joined e' rest => match AsPlacementBlocked e' with Some x => Some x | None => AsPlacementBlocked rest end
  | _ => None
  end.
Fixpoint AsPgBlocked (e : failure) : option (string * string) :=
  match e with
  | pgBlockedError reason detail => Some (reason, detail)
  | secretRefError _ _ _ _ e' | Around _ e' _ => AsPgBlocked e'
  | Joined e' rest => match AsPgBlocked e' with Some x => Some x | None => AsPgBlocked rest end
  | _ => None
  end.

(** [errors.Join]. *)
Fixpoint errors_Join (errs : list failure) : option failure :=
  match errs with
  | [] => None
  | e :: rest => match errors_Join rest with None => Some e | Some e' => Some (Joined e e') end
  end.

Lemma errors_Join_None errs : errors_Join errs = None ↔ errs = [].
Proof. destruct errs as [|e errs]; [done|]. simpl. by destruct (errors_Join errs). Qed.

(** What a call that can fail answers. *)
Inductive reply (A : Type) :=
| Got (a : A)
| Bad (e : failure).
#[global] Arguments Got {A} a.
#[global] Arguments Bad {A} e.

#[export] Instance reply_eq_dec `{EqDecision A} : EqDecision (reply A).
Proof. solve_decision. Defined.

(** [if err != nil { return ..., err }] over a pure computation. *)
Definition reply_bind {A B} (r : reply A) (f : A → reply B) : reply B :=
  match r with Got a => f a | Bad e => Bad e end.
Notation "'let!' x ':=' r 'in' k" := (reply_bind r (λ x, k))
  (at level 200, x name, r at level 100, k at level 200) : go_scope.
