(* ===== verification/Paths.v ===== *)
(** Where the Agent keeps data: the host directories of Managed volumes
    (internal/agent/volume/path.go) and the object-store keys of backups
    (internal/agent/backup/keys.go), over models of path/filepath on Unix. *)
From Stdlib Require Import ZArith Lia Ascii.
From stdpp Require Import prelude strings.
From S2P Require Import Prelude.
From S2P Require Import ProjectTypes.
From S2P Require Import NodeTypes.
From S2P Require Import Strconv.
From S2P Require Import Failures.
Import GoString.
Open Scope go_scope.

Set Default Proof Using "Type".

(** ** path/filepath *)

Definition slash (c : ascii) : bool := Nat.eqb (nat_of_ascii c) 47.

(** [strings.Split(s, "/")]. *)
Fixpoint split_slash (s : string) : list string :=
  match s with
  | EmptyString => [EmptyString]
  | String c s' =>
      if slash c then EmptyString :: split_slash s'
      else match split_slash s' with
           | x :: rest => String c x :: rest
           | [] => [String c EmptyString]
           end
  end.

Definition IsAbs (s : string) : bool := match s with String c _ => slash c | EmptyString => false end.

(** One element of a path, on the elements before it, latest first. *)
Definition clean_step (rooted : bool) (stack : list string) (x : string) : list string :=
  if decide (x = EmptyString ∨ x = "."%string) then stack
  else if decide (x = ".."%string) then
    match stack with
    | y :: rest => if decide (y = ".."%string) then x :: stack else rest
    | [] => if rooted then [] else [x]
    end
  else x :: stack.
Definition elements_of (s : string) : list string :=
  rev (foldl (clean_step (IsAbs s)) [] (split_slash s)).

Definition Clean (s : string) : string :=
  if decide (s = EmptyString) then "."%string
  else
    let body := Join (elements_of s) "/" in
    if IsAbs s then ("/" ++ body)%string
    else if decide (body = EmptyString) then "."%string else body.

(** [filepath.Join]. *)
Fixpoint path_join (xs : list string) : string :=
  match xs with
  | [] => EmptyString
  | x :: rest => if decide (x = EmptyString) then path_join rest else Clean (Join xs "/")
  end.

(** ** volume/path.go *)

Definition volumesDir : string := "volumes".
Definition dataDir : string := "data".

Fixpoint check_components (cs : list (string * string)) : option failure :=
  match cs with
  | [] => None
  | (label, value) :: rest =>
      match ValidateName value with
      | Some message => Some (Around (label ++ " " ++ Quote value ++ " cannot be used in a volume path: ")%string
                                (Text message) EmptyString)
      | None => check_components rest
      end
  end.

Definition HostPath (dataRoot namespace project volumeName : string) : reply string :=
  match check_components [("namespace", namespace); ("project", project); ("volume", volumeName)]%string with
  | Some e => Bad e
  | None =>
      if decide (dataRoot = EmptyString) then Bad (Text "data root must not be empty")
      else if negb (IsAbs dataRoot) then
        Bad (Text ("data root " ++ Quote dataRoot ++ " must be an absolute path"))
      else
        let root := Clean dataRoot in
        let path := path_join [root; volumesDir; namespace; project; volumeName; dataDir] in
        match CutPrefix (root ++ "/") path with
        | None => Bad (Text ("derived volume path " ++ Quote path ++ " escapes data root " ++ Quote root))
        | Some _ => Got path
        end
  end%string.

(** [filepath.Dir]: what is before the last slash, cleaned. *)
Definition path_dir (s : string) : string :=
  Clean (match rev (split_slash s) with
         | _ :: ((_ :: _) as rest) => Join (rev rest) "/" ++ "/"
         | _ => EmptyString
         end)%string.

(** [path.Base]: the last element, trailing slashes left out. *)
Definition path_base (s : string) : string :=
  if decide (s = EmptyString) then "."
  else default "/" (last (filter (λ x, x ≠ EmptyString) (split_slash s))).

Definition ProjectDir (dataRoot namespace project : string) : reply string :=
  let! path := HostPath dataRoot namespace project "x" in Got (path_dir (path_dir path)).

Definition VolumesRoot (dataRoot : string) : reply string :=
  if decide (dataRoot = EmptyString) then Bad (Text "data root must not be empty")
  else if negb (IsAbs dataRoot) then
    Bad (Text ("data root " ++ Quote dataRoot ++ " must be an absolute path")%string)
  else Got (path_join [Clean dataRoot; volumesDir]).

Definition pgBackRestClientRoot : string := "pgbackrest/projects".
Definition PgBackRestClientDirs (dataRoot uid : string) : reply (string * string) :=
  if bool_decide (uid = EmptyString ∨ uid = "."%string ∨ uid = ".."%string)
     || negb (all_bytes (λ c, negb (slash c || Nat.eqb (nat_of_ascii c) 92)) uid) then
    Bad (Text ("project UID " ++ Quote uid ++ " cannot be used in a path"))
  else if bool_decide (dataRoot = EmptyString) || negb (IsAbs dataRoot) then
    Bad (Text ("data root " ++ Quote dataRoot ++ " must be an absolute path"))
  else
    let base := path_join [Clean dataRoot; pgBackRestClientRoot; uid] in
    Got (path_join [base; "conf"], path_join [base; "tls"])%string.

(** ** backup/keys.go *)

Definition keyPrefix : string := "cara/v1/projects".
Definition manifestFileName : string := "manifest.json".

Definition ProjectPrefix (namespace project : string) : reply string :=
  match ValidateName namespace with
  | Some e => Bad (Around ("backup: namespace " ++ Quote namespace ++ ": ") (Text e) EmptyString)
  | None =>
      match ValidateName project with
      | Some e => Bad (Around ("backup: project " ++ Quote project ++ ": ") (Text e) EmptyString)
      | None => Got (keyPrefix ++ "/" ++ namespace ++ "/" ++ project)
      end
  end%string.

Definition GenerationPrefix (namespace project backupID : string) : reply string :=
  let! prefix := ProjectPrefix namespace project in
  if decide (backupID = EmptyString) then Bad (Text "backup: backupID must not be empty")
  else Got (prefix ++ "/snapshots/" ++ backupID)%string.

Definition ManifestKey (namespace project backupID : string) : reply string :=
  let! prefix := GenerationPrefix namespace project backupID in Got (prefix ++ "/" ++ manifestFileName)%string.

Definition ArchiveKey (namespace project backupID volumeName : string) : reply string :=
  let! prefix := GenerationPrefix namespace project backupID in
  match ValidateName volumeName with
  | Some e => Bad (Around ("backup: volume " ++ Quote volumeName ++ ": ")%string (Text e) EmptyString)
  | None => Got (prefix ++ "/" ++ volumeName ++ ".tar.gz")%string
  end.

Example path_base_forms :
  path_base "a/snapshots/b/manifest.json" = "manifest.json"%string ∧ path_base "a//" = "a"%string ∧
  path_base "//" = "/"%string ∧ path_base EmptyString = "."%string.
Proof. split_and!; vm_compute; reflexivity. Qed.

Example HostPath_forms :
  HostPath "/var/lib//cara/../cara/" "default" "web" "db" = Got "/var/lib/cara/volumes/default/web/db/data"%string ∧
  ProjectDir "/var/lib/cara" "default" "web" = Got "/var/lib/cara/volumes/default/web"%string ∧
  Clean "../a/./../../b" = "../../b"%string ∧ Clean "/../a" = "/a"%string ∧ Clean "a/.." = "."%string.
Proof. split_and!; vm_compute; reflexivity. Qed.

(** A data root of "/" fails the containment check: the check looks for two
    slashes. *)
Example HostPath_root :
  match HostPath "/" "default" "web" "db" with Bad _ => True | Got _ => False end.
Proof. vm_compute. exact I. Qed.

(** ** Lemmas about paths *)

Definition no_slash (x : string) : Prop := all_bytes (λ c, negb (slash c)) x = true.
(** An element a cleaned absolute path is made of. *)
Definition plain (x : string) : Prop := no_slash x ∧ x ≠ EmptyString ∧ x ≠ "."%string ∧ x ≠ ".."%string.

Lemma split_slash_nil s : split_slash s ≠ [].
Proof. destruct s as [|c s]; simpl; [done|]. destruct (slash c); [done|]. by destruct (split_slash s). Qed.

Lemma split_no_slash x : no_slash x → split_slash x = [x].
Proof.
  unfold no_slash. induction x as [|c x IH]; simpl; [done|]. rewrite andb_true_iff, negb_true_iff.
  intros [-> Hx]. by rewrite IH.
Qed.

Lemma split_app s t : split_slash (s ++ "/" ++ t)%string = split_slash s ++ split_slash t.
Proof.
  induction s as [|c s IH]; [done|].
  change ((String c s ++ "/" ++ t)%string) with (String c (s ++ "/" ++ t)%string). cbn [split_slash].
  rewrite IH. destruct (slash c); [done|].
  destruct (split_slash s) eqn:E; [by apply split_slash_nil in E|done].
Qed.

Lemma Join_cons x y ys sep : Join (x :: y :: ys) sep = (x ++ sep ++ Join (y :: ys) sep)%string.
Proof. done. Qed.

Lemma split_Join xs : Forall no_slash xs → xs ≠ [] → split_slash (Join xs "/") = xs.
Proof.
  induction 1 as [|x xs Hx Hxs IH]; [done|]. intros _. destruct xs as [|y ys]; [by apply split_no_slash|].
  rewrite Join_cons, split_app, IH, split_no_slash; done.
Qed.

Lemma split_slashes s : Forall no_slash (split_slash s).
Proof.
  induction s as [|c s IH]; simpl; [by repeat constructor|]. destruct (slash c) eqn:Ec; [by constructor|].
  destruct (split_slash s) as [|x rest]; [constructor; [|done]; unfold no_slash; simpl; by rewrite Ec|].
  inversion_clear IH as [|? ? Hx Hr]. constructor; [|done]. unfold no_slash in *. simpl. by rewrite Ec, Hx.
Qed.

Lemma clean_steps_plain st xs :
  Forall plain st → Forall no_slash xs → Forall plain (foldl (clean_step true) st xs).
Proof.
  intros Hst Hxs. revert st Hst. induction Hxs as [|x xs Hx Hxs IH]; intros st Hst; [done|]. simpl. apply IH.
  unfold clean_step. case_decide as H1; [done|]. case_decide as H2.
  - destruct Hst as [|y st Hy Hst]; [done|]. destruct Hy as (_ & _ & _ & Hy). by rewrite decide_False.
  - constructor; [|done]. unfold plain. tauto.
Qed.

Lemma clean_steps_keep st xs : Forall plain xs → foldl (clean_step true) st xs = rev xs ++ st.
Proof.
  intros Hxs. revert st. induction Hxs as [|x xs (_ & H1 & H2 & H3) Hxs IH]; intros st; [done|].
  simpl. rewrite <- app_assoc. simpl. rewrite IH. unfold clean_step.
  rewrite decide_False by tauto. by rewrite decide_False.
Qed.

Lemma elements_plain s : IsAbs s = true → Forall plain (elements_of s).
Proof.
  intros Ha. unfold elements_of. rewrite Ha. apply Forall_rev.
  apply clean_steps_plain; [constructor|apply split_slashes].
Qed.

Lemma Clean_abs s : IsAbs s = true → Clean s = ("/" ++ Join (elements_of s) "/")%string.
Proof. intros Ha. unfold Clean. rewrite decide_False by (by intros ->). by rewrite Ha. Qed.

(** A cleaned absolute path followed by plain elements. *)
Lemma Clean_below s xs :
  IsAbs s = true → Forall plain xs →
  Clean (Clean s ++ "/" ++ Join xs "/")%string = ("/" ++ Join (elements_of s ++ xs) "/")%string.
Proof.
  intros Ha Hxs. pose proof (elements_plain s Ha) as Hs. set (es := elements_of s) in *.
  assert (elements_of (Clean s ++ "/" ++ Join xs "/")%string = es ++ xs) as He.
  { unfold elements_of. rewrite split_app, (Clean_abs s Ha). fold es.
    change (IsAbs (("/" ++ Join es "/") ++ "/" ++ Join xs "/")%string) with true.
    change ("/" ++ Join es "/")%string with (EmptyString ++ "/" ++ Join es "/")%string.
    rewrite split_app, !foldl_app. simpl.
    assert (∀ st ys, Forall plain ys → foldl (clean_step true) st (split_slash (Join ys "/")) = rev ys ++ st)
      as Hfold.
    { intros st ys Hys. destruct ys as [|y ys]; [done|].
      rewrite split_Join; [by apply clean_steps_keep| |done]. by eapply Forall_impl; [exact Hys|intros ? []]. }
    rewrite !Hfold by done. by rewrite app_nil_r, rev_app_distr, !rev_involutive. }
  rewrite Clean_abs, He by (by rewrite Clean_abs). done.
Qed.

Lemma valid_plain name : ValidateName name = None → plain name.
Proof.
  intros Hv. destruct (valid_name_segment name Hv) as (_ & H1 & H2 & H3 & H4). by split_and!.
Qed.

Lemma check_components_None cs :
  check_components cs = None ↔ Forall (λ c, ValidateName c.2 = None) cs.
Proof.
  induction cs as [|[l v] cs IH]; simpl; [done|]. rewrite Forall_cons, <- IH. simpl.
  destruct (ValidateName v); naive_solver.
Qed.

Definition volume_path (namespace project volume : string) : string :=
  Join [volumesDir; namespace; project; volume; dataDir] "/".

Lemma host_path_joined root namespace project volume :
  IsAbs root = true → Forall (λ x, ValidateName x = None) [namespace; project; volume] →
  path_join [Clean root; volumesDir; namespace; project; volume; dataDir] =
  ("/" ++ Join (elements_of root ++ [volumesDir; namespace; project; volume; dataDir]) "/")%string.
Proof.
  intros Ha Hv. rewrite !Forall_cons in Hv. destruct Hv as (Hn & Hp & Hv & _).
  assert (Forall plain [volumesDir; namespace; project; volume; dataDir]) as Hxs.
  { repeat constructor; try (by apply valid_plain); by vm_compute. }
  unfold path_join. rewrite decide_False by (by rewrite Clean_abs).
  rewrite Join_cons. by apply Clean_below.
Qed.

Lemma Join_app xs ys sep :
  xs ≠ [] → ys ≠ [] → Join (xs ++ ys) sep = (Join xs sep ++ sep ++ Join ys sep)%string.
Proof.
  intros Hxs Hys. induction xs as [|x xs IH]; [done|]. destruct xs as [|x' xs].
  - by destruct ys.
  - change ((x :: x' :: xs) ++ ys) with (x :: x' :: (xs ++ ys)). rewrite !Join_cons.
    change (x' :: xs ++ ys) with ((x' :: xs) ++ ys). by rewrite IH, !append_assoc.
Qed.

Definition valid_volume (namespace project volume : string) : Prop :=
  Forall (λ x, ValidateName x = None) [namespace; project; volume].

Lemma HostPath_cases dataRoot namespace project volume :
  match HostPath dataRoot namespace project volume with
  | Got path => (valid_volume namespace project volume ∧ IsAbs dataRoot = true ∧ Clean dataRoot ≠ "/"%string) ∧
      path = (Clean dataRoot ++ "/" ++ volume_path namespace project volume)%string
  | Bad _ => ¬ (valid_volume namespace project volume ∧ IsAbs dataRoot = true ∧ Clean dataRoot ≠ "/"%string)
  end.
Proof.
  unfold HostPath. set (cs := [_; _; _]).
  assert (check_components cs = None ↔ valid_volume namespace project volume) as Hcs.
  { rewrite check_components_None. unfold valid_volume, cs. by rewrite !Forall_cons, !Forall_nil. }
  destruct (check_components cs) as [e|]; [intros [Hv _]; by apply Hcs in Hv|].
  assert (valid_volume namespace project volume) as Hv by by apply Hcs.
  case_decide as He; [subst; by intros (_ & ? & _)|].
  destruct (IsAbs dataRoot) eqn:Ha; cbn [negb]; [|by intros (_ & ? & _)]. cbv zeta.
  rewrite host_path_joined by done. pose proof (elements_plain dataRoot Ha) as Hes. rewrite !Clean_abs by done.
  destruct (elements_of dataRoot) as [|x es]; [by intros (_ & _ & ?)|].
  rewrite Join_app by done. fold (volume_path namespace project volume).
  assert (("/" ++ Join (x :: es) "/" ++ "/" ++ volume_path namespace project volume)%string =
    ((("/" ++ Join (x :: es) "/") ++ "/") ++ volume_path namespace project volume)%string) as ->
    by (by rewrite !append_assoc).
  rewrite CutPrefix_app. split; [|by rewrite !append_assoc].
  split_and!; [done|done|]. inversion_clear Hes as [|? ? (_ & Hx & _) _].
  destruct x as [|c x]; [done|]. by destruct es.
Qed.

Lemma volume_path_inj ns p v ns' p' v' :
  valid_volume ns p v → valid_volume ns' p' v' → volume_path ns p v = volume_path ns' p' v' →
  ns = ns' ∧ p = p' ∧ v = v'.
Proof.
  unfold valid_volume, volume_path. rewrite !Forall_cons, !Forall_nil. intros (H1 & H2 & H3 & _) (H4 & H5 & H6 & _) He.
  apply (f_equal split_slash) in He. rewrite !split_Join in He by first [done|
    repeat constructor; first [by apply valid_plain|by vm_compute]]. by injection He.
Qed.

(** (volume/path.go, HostPath): volumes keep apart and stay below the data root.
    A directory is derived exactly for valid names under an absolute data root that
    is not the root of the file system; it is the cleaned data root followed by the
    names, and no two volumes have the same one. *)
Theorem HostPath_exact (dataRoot namespace project volume : string) :
  match HostPath dataRoot namespace project volume with
  | Got path =>
      (valid_volume namespace project volume ∧ IsAbs dataRoot = true ∧ Clean dataRoot ≠ "/"%string) ∧
      path = (Clean dataRoot ++ "/" ++ volume_path namespace project volume)%string ∧
      ∀ ns p v, HostPath dataRoot ns p v = Got path → ns = namespace ∧ p = project ∧ v = volume
  | Bad _ => ¬ (valid_volume namespace project volume ∧ IsAbs dataRoot = true ∧ Clean dataRoot ≠ "/"%string)
  end.
Proof.
  pose proof (HostPath_cases dataRoot namespace project volume) as H.
  destruct (HostPath dataRoot namespace project volume) as [path|e]; [|exact H]. destruct H as [Hv ->].
  split; [exact Hv|]. split; [done|]. intros ns p v Hs.
  pose proof (HostPath_cases dataRoot ns p v) as H. rewrite Hs in H. destruct H as [(Hv' & _) He].
  destruct (volume_path_inj ns p v namespace project volume) as (-> & -> & ->); [tauto|tauto| |done].
  apply (f_equal (CutPrefix (Clean dataRoot ++ "/"))) in He.
  rewrite <- !(append_assoc (Clean dataRoot) "/"), !CutPrefix_app in He. apply (inj Some) in He. by symmetry.
Qed.
