(* ===== verification/Tracker.v ===== *)
(** What an Agent remembers between polls, in its process and nowhere else: the
    attempts at restarting a Project's containers (internal/agent/recovery.go),
    the failed updates to a spec revision (spec_update.go), and the Projects
    whose ownership moved away (orphan.go).

    The operations are functions of the clock readings they make. A reading whose
    value a branch does not use changes nothing, so an operation is given every
    reading it could make, in order. *)
From Stdlib Require Import ZArith Lia.
From stdpp Require Import prelude gmap strings.
From S2P Require Import Prelude.
From S2P Require Import ProjectTypes.
Import GoTime GoInt.

Set Default Proof Using "Type".
Open Scope nat_scope.

(** ** Tier-1 recovery *)

Definition maxRecoveryAttempts : nat := 3.
Definition recoveryVerifyTimeout : Duration := (30 * Second)%Z.
Definition transientObservationTimeout : Duration := (30 * Second)%Z.
Definition recoveryBackoff : list Duration := [5 * Second; 10 * Second]%Z.

Record recoveryKey := {
  rk_Namespace : string; rk_Name : string; rk_UID : string; rk_Generation : Z
}.
#[export] Instance recoveryKey_eq_dec : EqDecision recoveryKey.
Proof. solve_decision. Defined.
#[export] Instance recoveryKey_countable : Countable recoveryKey.
Proof.
  apply (inj_countable' (λ k, (rk_Namespace k, rk_Name k, rk_UID k, rk_Generation k))
    (λ x, let '(ns, n, u, g) := x in
          {| rk_Namespace := ns; rk_Name := n; rk_UID := u; rk_Generation := g |})).
  by intros [].
Defined.

Definition keyForProject (p : Project) : recoveryKey :=
  {| rk_Namespace := om_Namespace (p_Meta p); rk_Name := om_Name (p_Meta p);
     rk_UID := om_UID (p_Meta p); rk_Generation := st_AssignmentGeneration (p_Status p) |}.

Record recoveryEntry := { re_attempts : nat; re_lastAttemptAt : Time }.

Inductive recoveryDecision := recoveryWait | recoveryAttempt | recoveryExhausted.
#[export] Instance recoveryDecision_eq_dec : EqDecision recoveryDecision.
Proof. solve_decision. Defined.

Record specUpdateFailure := {
  suf_revision : Z; suf_stoppedFailures : nat; suf_lastAttemptAt : Time
}.

Record recoveryTracker := {
  rt_entries : gmap recoveryKey recoveryEntry;
  rt_transientSince : gmap recoveryKey Time;
  rt_specUpdates : gmap recoveryKey specUpdateFailure
}.

Definition newRecoveryTracker : recoveryTracker :=
  {| rt_entries := ∅; rt_transientSince := ∅; rt_specUpdates := ∅ |}.

Definition rt_with_entries x (t : recoveryTracker) : recoveryTracker :=
  {| rt_entries := x; rt_transientSince := rt_transientSince t; rt_specUpdates := rt_specUpdates t |}.
Definition rt_with_transientSince x (t : recoveryTracker) : recoveryTracker :=
  {| rt_entries := rt_entries t; rt_transientSince := x; rt_specUpdates := rt_specUpdates t |}.
Definition rt_with_specUpdates x (t : recoveryTracker) : recoveryTracker :=
  {| rt_entries := rt_entries t; rt_transientSince := rt_transientSince t; rt_specUpdates := x |}.

(** [since] is read for the time elapsed, [now] when an attempt is counted. The
    backoff has an entry for each count of attempts that reaches it. *)
Definition next_entry (since now : Time) (e : recoveryEntry) : recoveryDecision * recoveryEntry :=
  let attempted := {| re_attempts := S (re_attempts e); re_lastAttemptAt := now |} in
  if decide (re_attempts e = 0) then (recoveryAttempt, attempted)
  else
    let elapsed := Sub since (re_lastAttemptAt e) in
    if decide (maxRecoveryAttempts ≤ re_attempts e) then
      (if decide (recoveryVerifyTimeout ≤ elapsed)%Z then recoveryExhausted else recoveryWait, e)
    else if decide (elapsed < nth (re_attempts e - 1) recoveryBackoff 0)%Z then (recoveryWait, e)
    else (recoveryAttempt, attempted).

Definition entryLocked (key : recoveryKey) (t : recoveryTracker) : recoveryEntry :=
  default {| re_attempts := 0; re_lastAttemptAt := zero |} (rt_entries t !! key).

Definition next (since now : Time) (key : recoveryKey) (t : recoveryTracker)
    : recoveryDecision * recoveryTracker :=
  let '(d, e) := next_entry since now (entryLocked key t) in
  (d, rt_with_entries (<[key := e]> (rt_entries t)) t).

Definition observeHealthy (key : recoveryKey) (t : recoveryTracker) : recoveryTracker :=
  rt_with_entries (delete key (rt_entries t)) t.

Definition observeTransient (now : Time) (key : recoveryKey) (t : recoveryTracker) : bool * recoveryTracker :=
  match rt_transientSince t !! key with
  | None => (false, rt_with_transientSince (<[key := now]> (rt_transientSince t)) t)
  | Some since => (bool_decide (transientObservationTimeout ≤ Sub now since)%Z, t)
  end.

Definition clearTransient (key : recoveryKey) (t : recoveryTracker) : recoveryTracker :=
  rt_with_transientSince (delete key (rt_transientSince t)) t.

Definition attempts (key : recoveryKey) (t : recoveryTracker) : nat :=
  match rt_entries t !! key with Some e => re_attempts e | None => 0 end.

Definition only_keys {A} (keys : gset recoveryKey) (m : gmap recoveryKey A) : gmap recoveryKey A :=
  filter (λ kv, kv.1 ∈ keys) m.
Definition retain (keys : gset recoveryKey) (t : recoveryTracker) : recoveryTracker :=
  {| rt_entries := only_keys keys (rt_entries t);
     rt_transientSince := only_keys keys (rt_transientSince t);
     rt_specUpdates := only_keys keys (rt_specUpdates t) |}.

(** ** Failed spec updates *)

Definition specUpdateRetryInterval : Duration := Minute.
Definition maxSpecUpdateAttempts : nat := maxRecoveryAttempts.

Definition specUpdateDue (now : Time) (key : recoveryKey) (revision : Z) (t : recoveryTracker) : bool :=
  match rt_specUpdates t !! key with
  | None => true
  | Some f =>
      if decide (suf_revision f ≠ revision) then true
      else bool_decide (specUpdateRetryInterval ≤ Sub now (suf_lastAttemptAt f))%Z
  end.

Definition specUpdateFailed (now : Time) (key : recoveryKey) (revision : Z) (stoppedSomething : bool)
    (t : recoveryTracker) : nat * recoveryTracker :=
  let before := match rt_specUpdates t !! key with
                | Some f => if decide (suf_revision f ≠ revision) then 0 else suf_stoppedFailures f
                | None => 0
                end in
  let f := {| suf_revision := revision;
              suf_stoppedFailures := if stoppedSomething then S before else before;
              suf_lastAttemptAt := now |} in
  (suf_stoppedFailures f, rt_with_specUpdates (<[key := f]> (rt_specUpdates t)) t).

Definition specUpdateSucceeded (key : recoveryKey) (t : recoveryTracker) : recoveryTracker :=
  rt_with_specUpdates (delete key (rt_specUpdates t)) t.

(** ** Orphans *)

Definition orphanGracePeriod : Duration := (3 * Minute)%Z.

Record ProjectIdentity := { pi_Namespace : string; pi_Name : string; pi_UID : string }.
#[export] Instance ProjectIdentity_eq_dec : EqDecision ProjectIdentity.
Proof. solve_decision. Defined.
#[export] Instance ProjectIdentity_countable : Countable ProjectIdentity.
Proof.
  apply (inj_countable' (λ k, (pi_Namespace k, pi_Name k, pi_UID k))
    (λ x, let '(ns, n, u) := x in {| pi_Namespace := ns; pi_Name := n; pi_UID := u |})).
  by intros [].
Defined.

Definition projectIdentity (p : Project) : ProjectIdentity :=
  {| pi_Namespace := if decide (om_Namespace (p_Meta p) = EmptyString) then DefaultNamespace
                     else om_Namespace (p_Meta p);
     pi_Name := om_Name (p_Meta p); pi_UID := om_UID (p_Meta p) |}.

(** [os_lostSince] is the zero time while no grace period runs. *)
Record orphanState := { os_stopped : bool; os_lostSince : Time }.

Notation orphanTracker := (gmap ProjectIdentity orphanState).

Inductive orphanVerdict := Leave | ToStop | ToRemove | Reappeared.
#[export] Instance orphanVerdict_eq_dec : EqDecision orphanVerdict.
Proof. solve_decision. Defined.

(** A stopped Project that is not assigned here: its grace period starts, runs,
    or is over. [since] is what the clock shows when the elapsed time is read. *)
Definition grace (now since : Time) (s : orphanState) : option orphanState * orphanVerdict :=
  if IsZero (os_lostSince s) then (Some {| os_stopped := os_stopped s; os_lostSince := now |}, Leave)
  else if decide (orphanGracePeriod ≤ Sub since (os_lostSince s))%Z then (Some s, ToRemove)
  else (Some s, Leave).

(** The body of the first loop, over Projects that have containers here, and of
    the second, over the tracked ones that have none. *)
Definition observe_local (now since : Time) (assigned : bool) (state : option orphanState)
    : option orphanState * orphanVerdict :=
  if assigned then
    match state with
    | Some s => if os_stopped s then (state, Reappeared) else (None, Leave)
    | None => (None, Leave)
    end
  else
    match state with
    | None => (Some {| os_stopped := false; os_lostSince := zero |}, ToStop)
    | Some s => if os_stopped s then grace now since s else (state, ToStop)
    end.
Definition observe_absent (now since : Time) (assigned : bool) (s : orphanState)
    : option orphanState * orphanVerdict :=
  if assigned then (if os_stopped s then (Some s, Reappeared) else (None, Leave))
  else if os_stopped s then grace now since s else (None, Leave).

Definition observe_one (now since : Time) (local assigned : bool) (state : option orphanState)
    : option orphanState * orphanVerdict :=
  if local then observe_local now since assigned state
  else match state with Some s => observe_absent now since assigned s | None => (None, Leave) end.

(** Each Project is looked at once; Go visits them in any order. [since] says
    what the clock shows at each one. *)
Record orphanObservation := {
  oo_toStop : list ProjectIdentity; oo_toRemove : list ProjectIdentity; oo_reappeared : list ProjectIdentity
}.
Definition observe (now : Time) (since : ProjectIdentity → Time) (local assigned : gset ProjectIdentity)
    (t : orphanTracker) : orphanObservation * orphanTracker :=
  let verdict id := observe_one now (since id) (bool_decide (id ∈ local)) (bool_decide (id ∈ assigned)) (t !! id) in
  let ids := elements (local ∪ dom t) in
  let pick v := filter (λ id, (verdict id).2 = v) ids in
  ({| oo_toStop := pick ToStop; oo_toRemove := pick ToRemove; oo_reappeared := pick Reappeared |},
   list_to_map (omap (λ id, pair id <$> (verdict id).1) ids)).

Definition markStopped (now : Time) (id : ProjectIdentity) (t : orphanTracker) : orphanTracker :=
  <[id := {| os_stopped := true; os_lostSince := now |}]> t.
Definition resetGrace (t : orphanTracker) : orphanTracker :=
  (λ s, {| os_stopped := os_stopped s; os_lostSince := zero |}) <$> t.
Definition forget (id : ProjectIdentity) (t : orphanTracker) : orphanTracker := delete id t.

(** ** How far recovery goes *)

(** The times of the attempts at an incident that is not over, latest first. *)
Notation incidents := (gmap recoveryKey (list Time)).
Definition attempts_at (log : incidents) (key : recoveryKey) : list Time := default [] (log !! key).

(** Every way the poll loop changes the tracker, in any order and number. *)
Inductive recovering : incidents → recoveryTracker → Prop :=
| recovering_new : recovering ∅ newRecoveryTracker
| recovering_next log t key since now d t' :
    recovering log t → (since ≤ now)%Z → next since now key t = (d, t') →
    recovering (if decide (d = recoveryAttempt) then <[key := now :: attempts_at log key]> log else log) t'
| recovering_healthy log t key :
    recovering log t → recovering (delete key log) (observeHealthy key t)
| recovering_retain log t keys :
    recovering log t → recovering (only_keys keys log) (retain keys t)
| recovering_other log t t' :
    recovering log t → rt_entries t' = rt_entries t → recovering log t'.

Fixpoint spaced (ts : list Time) : Prop :=
  match ts with
  | t2 :: ((t1 :: _) as rest) => (nth (length rest - 1) recoveryBackoff 0 ≤ t2 - t1)%Z ∧ spaced rest
  | _ => True
  end.

(** What the tracker holds for a key with attempts [ts]. *)
Definition entry_of (ts : list Time) : recoveryEntry :=
  {| re_attempts := length ts; re_lastAttemptAt := default zero (head ts) |}.
Definition incident_ok (log : incidents) (t : recoveryTracker) (key : recoveryKey) : Prop :=
  let ts := attempts_at log key in
  length ts ≤ maxRecoveryAttempts ∧ spaced ts ∧ entryLocked key t = entry_of ts.

Lemma next_entry_exact since now ts :
  length ts ≤ maxRecoveryAttempts →
  match next_entry since now (entry_of ts) with
  | (recoveryAttempt, e) =>
      e = entry_of (now :: ts) ∧ length ts < maxRecoveryAttempts ∧
      ∀ last, head ts = Some last → (nth (length ts - 1) recoveryBackoff 0 ≤ Sub since last)%Z
  | (recoveryExhausted, e) =>
      e = entry_of ts ∧ length ts = maxRecoveryAttempts ∧
      ∀ last, head ts = Some last → (recoveryVerifyTimeout ≤ Sub since last)%Z
  | (recoveryWait, e) =>
      e = entry_of ts ∧ ∃ last, head ts = Some last ∧ (Sub since last < recoveryVerifyTimeout)%Z
  end.
Proof.
  intros Hlen. unfold next_entry, entry_of, maxRecoveryAttempts in *. destruct ts as [|last ts]; simpl.
  { split_and!; [done|lia|done]. }
  rewrite Nat.sub_0_r in *. unfold recoveryVerifyTimeout, Second in *.
  destruct ts as [|t1 [|t2 [|]]]; simpl in *; try lia; repeat case_decide; try lia;
    split_and!; try (eexists; split; [reflexivity|]); try (intros ? [= <-]); try done; lia.
Qed.

Lemma Sub_ge t u d : (min_int64 < d ≤ max_int64)%Z → (d ≤ Sub t u)%Z → (d ≤ t - u)%Z.
Proof. intros Hd H. pose proof (Sub_lt t u d Hd). lia. Qed.

Lemma backoff_range n : (min_int64 < nth n recoveryBackoff 0 ≤ max_int64)%Z.
Proof. destruct n as [|[|[]]]; vm_compute; split; congruence || done. Qed.

Lemma entryLocked_insert key key' e t x :
  entryLocked key' (rt_with_entries (<[key := e]> x) t) =
  if decide (key = key') then e else entryLocked key' (rt_with_entries x t).
Proof.
  unfold entryLocked. simpl. case_decide as Hk; [subst; by rewrite lookup_insert_eq|by rewrite lookup_insert_ne].
Qed.

Lemma only_keys_lookup {A} (keys : gset recoveryKey) (m : gmap recoveryKey A) key :
  only_keys keys m !! key = if decide (key ∈ keys) then m !! key else None.
Proof.
  unfold only_keys. destruct (m !! key) as [x|] eqn:Em.
  - case_decide as Hk; [by apply map_lookup_filter_Some_2|].
    apply map_lookup_filter_None_2. right. intros y _. simpl. done.
  - rewrite map_lookup_filter_None_2 by (by left). by case_decide.
Qed.

Lemma attempts_at_insert log key k ts :
  attempts_at (<[key := ts]> log) k = if decide (key = k) then ts else attempts_at log k.
Proof. unfold attempts_at. case_decide; [subst; by rewrite lookup_insert_eq|by rewrite lookup_insert_ne]. Qed.

Lemma incident_next log t key since now d t' :
  (∀ k, incident_ok log t k) → (since ≤ now)%Z → next since now key t = (d, t') →
  ∀ k, incident_ok (if decide (d = recoveryAttempt) then <[key := now :: attempts_at log key]> log else log) t' k.
Proof.
  intros Hok Hclock Hn k. destruct (Hok key) as (Hlen & Hsp & He).
  unfold next in Hn. pose proof (next_entry_exact since now (attempts_at log key) Hlen) as Hx.
  rewrite He in Hn. destruct (next_entry since now (entry_of (attempts_at log key))) as [d' e].
  injection Hn as -> <-. destruct (decide (k = key)) as [->|Hk].
  - unfold incident_ok. rewrite entryLocked_insert. destruct (decide (key = key)); [|done].
    destruct d; case_decide as Hd; try done; destruct Hx as (-> & Hx); try done.
    rewrite !attempts_at_insert, decide_True by done. destruct Hx as [Hlt Hgap]. simpl length.
    split_and!; [lia| |done]. destruct (attempts_at log key) as [|last ts] eqn:Ets; [done|].
    split; [|exact Hsp]. specialize (Hgap last eq_refl).
    apply Sub_ge in Hgap; [|apply backoff_range]. simpl in *. lia.
  - destruct (Hok k) as (Hlen' & Hsp' & He').
    unfold incident_ok. rewrite entryLocked_insert. destruct (decide (key = k)); [congruence|].
    assert (attempts_at (if decide (d = recoveryAttempt) then <[key := now :: attempts_at log key]> log else log) k
            = attempts_at log k) as ->.
    { case_decide; [|done]. rewrite attempts_at_insert, decide_False; congruence. }
    by split_and!.
Qed.

Lemma recovering_ok log t : recovering log t → ∀ key, incident_ok log t key.
Proof.
  induction 1 as [|log t key since now d t' _ IH Hclock Hn|log t key _ IH|log t keys _ IH|log t t' _ IH He];
    intros k.
  - unfold incident_ok, attempts_at. rewrite lookup_empty. simpl. split_and!; [unfold maxRecoveryAttempts; lia|done|].
    unfold entryLocked. simpl. by rewrite lookup_empty.
  - by eapply incident_next.
  - specialize (IH k). unfold incident_ok, attempts_at, entryLocked, observeHealthy in *. simpl.
    destruct (decide (key = k)) as [->|Hk]; [rewrite !lookup_delete_eq|by rewrite !lookup_delete_ne].
    simpl. split_and!; [unfold maxRecoveryAttempts; lia|done|done].
  - specialize (IH k). unfold incident_ok, attempts_at, entryLocked, retain in *. simpl.
    rewrite !only_keys_lookup. case_decide; [done|].
    simpl. split_and!; [unfold maxRecoveryAttempts; lia|done|done].
  - specialize (IH k). unfold incident_ok, entryLocked in *. by rewrite He.
Qed.

(** (recovery.go, next): one incident gets three attempts. However the poll
    loop uses the tracker, the attempts at a Project since it was last seen healthy
    are at most three, the second at least 5 and the third at least 10 seconds
    after the one before it; the incident is given up exactly after the third one
    has had 30 seconds, and a wait ends within 30 seconds of the last attempt. *)
Theorem recovery_is_bounded (log : incidents) (t : recoveryTracker) (key : recoveryKey) (since now : Time)
    (Hr : recovering log t) :
  let ts := attempts_at log key in
  length ts ≤ maxRecoveryAttempts ∧ spaced ts ∧
  match (next since now key t).1 with
  | recoveryAttempt => length ts < maxRecoveryAttempts ∧
      ∀ last, head ts = Some last → (nth (length ts - 1) recoveryBackoff 0 ≤ Sub since last)%Z
  | recoveryExhausted => length ts = maxRecoveryAttempts ∧
      ∀ last, head ts = Some last → (recoveryVerifyTimeout ≤ Sub since last)%Z
  | recoveryWait => ∃ last, head ts = Some last ∧ (Sub since last < recoveryVerifyTimeout)%Z
  end.
Proof.
  intros ts. destruct (recovering_ok _ _ Hr key) as (Hlen & Hsp & He).
  split; [exact Hlen|]. split; [exact Hsp|].
  unfold next. rewrite He. pose proof (next_entry_exact since now _ Hlen) as Hx. fold ts in Hx |- *.
  destruct (next_entry since now (entry_of ts)) as [[] e]; simpl; tauto.
Qed.

Lemma recovering_attempt log t key since now :
  recovering log t → (since ≤ now)%Z → (next since now key t).1 = recoveryAttempt →
  recovering (<[key := now :: attempts_at log key]> log) (next since now key t).2.
Proof.
  intros Hr Hclock Hd. destruct (next since now key t) as [d t'] eqn:En. simpl in *. subst d.
  exact (recovering_next log t key since now recoveryAttempt t' Hr Hclock En).
Qed.

(** Attempts at 1, 7 and 20 seconds, and the verdict at 60. *)
Definition example_key : recoveryKey :=
  {| rk_Namespace := "default"; rk_Name := "web"; rk_UID := "u"; rk_Generation := 1 |}.
Definition sec (n : Z) : Time := (n * Second)%Z.
Definition attempt_at (n : Z) (t : recoveryTracker) : recoveryTracker := (next (sec n) (sec n) example_key t).2.
Definition tried_thrice : recoveryTracker := attempt_at 20 (attempt_at 7 (attempt_at 1 newRecoveryTracker)).

Lemma tried_thrice_recovering :
  ∃ log, recovering log tried_thrice ∧ attempts_at log example_key = [sec 20; sec 7; sec 1].
Proof.
  assert (∃ log, recovering log (attempt_at 1 newRecoveryTracker) ∧ attempts_at log example_key = [sec 1])
    as (l1 & H1 & E1).
  { eexists. split; [apply recovering_attempt; [apply recovering_new|done|vm_compute; reflexivity]|].
    by rewrite attempts_at_insert, decide_True. }
  assert (∃ log, recovering log (attempt_at 7 (attempt_at 1 newRecoveryTracker)) ∧
    attempts_at log example_key = [sec 7; sec 1]) as (l2 & H2 & E2).
  { eexists. split; [apply recovering_attempt; [exact H1|done|vm_compute; reflexivity]|].
    by rewrite attempts_at_insert, decide_True, E1. }
  eexists. split; [apply recovering_attempt; [exact H2|done|vm_compute; reflexivity]|].
  by rewrite attempts_at_insert, decide_True, E2.
Qed.

Lemma recovery_is_bounded_witness :
  (next (sec 60) (sec 60) example_key tried_thrice).1 = recoveryExhausted ∧
  (next (sec 45) (sec 45) example_key tried_thrice).1 = recoveryWait ∧
  ∃ log, recovering log tried_thrice ∧ attempts_at log example_key = [sec 20; sec 7; sec 1] ∧
    spaced (attempts_at log example_key).
Proof.
  split; [vm_compute; reflexivity|]. split; [vm_compute; reflexivity|].
  destruct tried_thrice_recovering as (log & Hr & Ea). exists log. split; [exact Hr|]. split; [exact Ea|].
  exact (proj1 (proj2 (recovery_is_bounded log tried_thrice example_key (sec 60) (sec 60) Hr))).
Defined.

(** ** When an orphan may be removed *)

(** What the sweep has seen and done, latest first: a listing the server
    answered, a poll without an answer, containers stopped, a Project forgotten
    because it was recovered or removed. *)
Inductive sweep :=
| Snapshot (at_ : Time) (assigned : gset ProjectIdentity)
| Unanswered (at_ : Time)
| Stopped (at_ : Time) (id : ProjectIdentity)
| Forgotten (at_ : Time) (id : ProjectIdentity).
Definition sweep_time (e : sweep) : Time :=
  match e with Snapshot t _ | Unanswered t | Stopped t _ | Forgotten t _ => t end.

Notation not_after log now := (Forall (λ e, (sweep_time e ≤ now)%Z) log).

Inductive tracking : list sweep → orphanTracker → Prop :=
| tracking_new : tracking [] ∅
| tracking_snapshot log t now since local assigned :
    tracking log t → not_after log now →
    tracking (Snapshot now assigned :: log) (observe now since local assigned t).2
| tracking_unanswered log t now :
    tracking log t → not_after log now → tracking (Unanswered now :: log) (resetGrace t)
| tracking_stopped log t now id :
    tracking log t → not_after log now → tracking (Stopped now id :: log) (markStopped now id t)
| tracking_forgotten log t now id :
    tracking log t → not_after log now → tracking (Forgotten now id :: log) (forget id t).

(** The event neither leaves the assignments unknown nor forgets the Project. *)
Definition keeps_grace (id : ProjectIdentity) (e : sweep) : Prop :=
  match e with Unanswered _ => False | Forgotten _ id' => id' ≠ id | _ => True end.

Definition orphan_ok (log : list sweep) (id : ProjectIdentity) (s : orphanState) : Prop :=
  (os_stopped s = true → ∃ t0, Stopped t0 id ∈ log) ∧
  (os_lostSince s ≠ zero → Forall (λ e, (os_lostSince s < sweep_time e)%Z → keeps_grace id e) log).

Lemma orphan_ok_cons log id s e :
  orphan_ok log id s → ((os_lostSince s < sweep_time e)%Z → keeps_grace id e) → orphan_ok (e :: log) id s.
Proof.
  intros [Hs Hg] He. split; [|by constructor; auto].
  intros H. destruct (Hs H) as [t0 Ht]. exists t0. by constructor.
Qed.

Lemma orphan_ok_restart log id stopped now :
  (stopped = true → ∃ t0, Stopped t0 id ∈ log) → not_after log now →
  orphan_ok log id {| os_stopped := stopped; os_lostSince := now |}.
Proof.
  intros Hs Hlog. split; [done|]. simpl. intros _. eapply Forall_impl; [exact Hlog|].
  intros e He Hlt. simpl in *. lia.
Qed.

(** A tracker rebuilt one Project at a time. *)
Lemma lookup_each (f : ProjectIdentity → option orphanState) (ids : list ProjectIdentity) id :
  (list_to_map (omap (λ i, pair i <$> f i) ids) : orphanTracker) !! id =
  if decide (id ∈ ids) then f id else None.
Proof.
  induction ids as [|i ids IH]; [done|].
  change (omap (λ i, pair i <$> f i) (i :: ids)) with
    (match pair i <$> f i with Some y => y :: omap (λ i, pair i <$> f i) ids | None => omap (λ i, pair i <$> f i) ids end).
  destruct (decide (i = id)) as [->|Hi].
  - destruct (f id) as [s|] eqn:Ef; simpl.
    + by rewrite lookup_insert_eq, decide_True by (by left).
    + rewrite IH. by repeat case_decide.
  - rewrite (decide_ext (id ∈ i :: ids) (id ∈ ids)) by (rewrite elem_of_cons; naive_solver).
    destruct (f i); simpl; [rewrite lookup_insert_ne by done|]; exact IH.
Qed.

Lemma observe_lookup now since local assigned t id :
  (observe now since local assigned t).2 !! id =
  (observe_one now (since id) (bool_decide (id ∈ local)) (bool_decide (id ∈ assigned)) (t !! id)).1.
Proof.
  unfold observe. simpl.
  set (v := λ id, observe_one now (since id) (bool_decide (id ∈ local)) (bool_decide (id ∈ assigned)) (t !! id)).
  change ((list_to_map (omap (λ id, pair id <$> (v id).1) (elements (local ∪ dom t))) : orphanTracker) !! id
          = (v id).1).
  rewrite (lookup_each (λ id, (v id).1)). case_decide as Hin; [done|].
  rewrite elem_of_elements, elem_of_union, elem_of_dom in Hin. unfold v, observe_one.
  rewrite bool_decide_eq_false_2 by tauto. destruct (t !! id) eqn:E; [|done].
  exfalso. apply Hin. right. by exists o.
Qed.

Lemma grace_ok log id now since s s' v :
  os_stopped s = true → orphan_ok log id s → not_after log now → grace now since s = (Some s', v) →
  orphan_ok log id s'.
Proof.
  intros Hst Hok Hlog. unfold grace. case_match; [|case_decide]; intros [= <- <-]; try done.
  apply orphan_ok_restart; [apply Hok|done].
Qed.

Lemma observe_one_ok log id now since local assigned state s' v :
  (∀ s, state = Some s → orphan_ok log id s) → not_after log now →
  observe_one now since local assigned state = (Some s', v) → orphan_ok log id s'.
Proof.
  intros Hok Hlog. unfold observe_one, observe_local, observe_absent.
  destruct local, assigned, state as [s|]; simpl; try done; try (destruct (os_stopped s) eqn:Hst);
    intros Heq; try (injection Heq as <- <-); eauto using grace_ok; done.
Qed.

Lemma tracking_ok log t : tracking log t → ∀ id s, t !! id = Some s → orphan_ok log id s.
Proof.
  induction 1 as [|log t now since local assigned _ IH Hlog|log t now _ IH Hlog|log t now id' _ IH Hlog
    |log t now id' _ IH Hlog]; intros id s Hs.
  - by rewrite lookup_empty in Hs.
  - rewrite observe_lookup in Hs. destruct (observe_one _ _ _ _ _) as [s'' v] eqn:Eo. simpl in Hs. subst s''.
    apply orphan_ok_cons; [|done]. eapply observe_one_ok; [|exact Hlog|exact Eo]. eauto.
  - unfold resetGrace in Hs. rewrite lookup_fmap in Hs. destruct (t !! id) as [s0|] eqn:E0; [|done].
    injection Hs as <-. destruct (IH id s0 E0) as [Hst _]. split; [|done].
    simpl. intros H. destruct (Hst H) as [t0 Ht]. exists t0. by constructor.
  - unfold markStopped in Hs. destruct (decide (id' = id)) as [->|Hne].
    + rewrite lookup_insert_eq in Hs. injection Hs as <-. apply orphan_ok_restart.
      * intros _. exists now. by constructor.
      * by constructor.
    + rewrite lookup_insert_ne in Hs by done. apply orphan_ok_cons; [auto|done].
  - unfold forget in Hs. destruct (decide (id' = id)) as [->|Hne]; [by rewrite lookup_delete_eq in Hs|].
    rewrite lookup_delete_ne in Hs by done. apply orphan_ok_cons; [auto|done].
Qed.

Lemma observe_removes now since local assigned t id :
  id ∈ oo_toRemove (observe now since local assigned t).1 →
  id ∉ assigned ∧ ∃ s, t !! id = Some s ∧ os_stopped s = true ∧ os_lostSince s ≠ zero ∧
    (orphanGracePeriod ≤ Sub (since id) (os_lostSince s))%Z.
Proof.
  unfold observe. simpl. intros [Hv _]%list_elem_of_filter. revert Hv.
  unfold observe_one, observe_local, observe_absent, grace, IsZero.
  repeat (case_bool_decide || case_decide || case_match); simpl; intros Hv; try discriminate Hv;
    (split; [done|eexists; split; [reflexivity|by split_and!]]).
Qed.

(** (orphan.go, observe): what is removed has been stopped, and lost for three
    minutes. Whatever the polls were, a Project whose resources are removed is not
    assigned here by this listing; its containers were stopped before; and a grace
    period of at least three minutes ran, from one moment on, during which every
    poll was answered and the Project was never taken back as recovered. *)
Theorem orphan_removed_after_grace (log : list sweep) (t : orphanTracker) (now : Time)
    (since : ProjectIdentity → Time) (local assigned : gset ProjectIdentity) (id : ProjectIdentity)
    (Ht : tracking log t) (Hr : id ∈ oo_toRemove (observe now since local assigned t).1) :
  id ∉ assigned ∧ (∃ t0, Stopped t0 id ∈ log) ∧
  ∃ lost, (lost + orphanGracePeriod ≤ since id)%Z ∧
    Forall (λ e, (lost < sweep_time e)%Z → keeps_grace id e) log.
Proof.
  destruct (observe_removes _ _ _ _ _ _ Hr) as (Ha & s & Hs & Hst & Hl & Hg).
  destruct (tracking_ok _ _ Ht id s Hs) as [Hstop Hgrace]. split; [exact Ha|]. split; [auto|].
  exists (os_lostSince s). split; [|auto].
  apply Sub_ge in Hg; [lia|]. vm_compute. split; congruence.
Qed.

Definition example_orphan : ProjectIdentity := {| pi_Namespace := "default"; pi_Name := "web"; pi_UID := "u" |}.
Definition quiet_clock (n : Z) : ProjectIdentity → Time := λ _, sec n.

(** Found elsewhere at 10 s, stopped at 11 s, listed again and again until 300 s. *)
Definition orphan_at (assigned : gset ProjectIdentity) (t : orphanTracker) (n : Z) : orphanTracker :=
  (observe (sec n) (quiet_clock n) {[ example_orphan ]} assigned t).2.
Definition stopped_orphan : orphanTracker := markStopped (sec 11) example_orphan (orphan_at ∅ ∅ 10).

Lemma stopped_orphan_tracking :
  tracking [Stopped (sec 11) example_orphan; Snapshot (sec 10) ∅] stopped_orphan.
Proof.
  unfold stopped_orphan, orphan_at. apply tracking_stopped.
  - apply tracking_snapshot; [apply tracking_new|apply Forall_nil; exact I].
  - apply Forall_cons. split; [|apply Forall_nil; exact I]. simpl. unfold sec, Second. lia.
Qed.

Lemma orphan_removed_after_grace_witness :
  example_orphan ∈ oo_toRemove (observe (sec 191) (quiet_clock 191) {[ example_orphan ]} ∅ stopped_orphan).1 ∧
  oo_toRemove (observe (sec 190) (quiet_clock 190) {[ example_orphan ]} ∅ stopped_orphan).1 = [] ∧
  ∃ lost, (lost + orphanGracePeriod ≤ sec 191)%Z.
Proof.
  assert (example_orphan ∈ oo_toRemove
    (observe (sec 191) (quiet_clock 191) {[ example_orphan ]} ∅ stopped_orphan).1) as Hin.
  { replace (oo_toRemove _) with [example_orphan] by (vm_compute; reflexivity). by left. }
  split; [exact Hin|]. split; [vm_compute; reflexivity|].
  destruct (orphan_removed_after_grace _ stopped_orphan (sec 191) (quiet_clock 191) {[ example_orphan ]} ∅
    example_orphan stopped_orphan_tracking Hin) as (_ & _ & lost & Hl & _).
  exists lost. exact Hl.
Defined.

(** The grace period is not restarted when the Project is listed here again: if
    its recovery did not succeed meanwhile, and the assignment moves away again,
    the first listing without it removes its resources, although the server still
    assigned it here ten seconds before. *)
Example orphan_removed_at_once :
  let t := orphan_at {[ example_orphan ]} stopped_orphan 290 in
  oo_reappeared (observe (sec 290) (quiet_clock 290) {[ example_orphan ]} {[ example_orphan ]} stopped_orphan).1
    = [example_orphan] ∧
  oo_toRemove (observe (sec 300) (quiet_clock 300) {[ example_orphan ]} ∅ t).1 = [example_orphan].
Proof. split; vm_compute; reflexivity. Qed.
