(* ===== verification/Engine.v ===== *)
(** The Docker engine as the Agent calls it (internal/agent/docker/api.go): the
    requests of the engine's client and what it answers. The engine itself is not
    this program's; nothing is assumed of the answers. *)
From Stdlib Require Import ZArith.
From stdpp Require Import prelude gmap strings.
From S2P Require Import Prelude.
From S2P Require Import Failures.
From S2P Require Import Strconv.
Import GoString.

Set Default Proof Using "Type".

(** ** Labels (client.go) *)

Definition labelProject : string := "cara.project".
Definition labelService : string := "cara.service".
Definition labelNamespace : string := "cara.namespace".
Definition labelUID : string := "cara.uid".
Definition labelGeneration : string := "cara.generation".
Definition labelVolume : string := "cara.volume".
Definition labelVolumeType : string := "cara.volume.type".
Definition labelSpecHash : string := "cara.spec-hash".

Notation labels := (gmap string string).
(** [m[k]] of a Go map of strings, nil included. *)
Definition lbl (m : labels) (k : string) : string := default EmptyString (m !! k).

(** ** What the engine tells *)

(** [types.ContainerJSON]: the labels are [None] when it carries no Config; the
    networks give the container's address on each. *)
Record ContainerJSON := {
  cj_ID : string; cj_Labels : option labels; cj_Status : string; cj_Running : bool; cj_ExitCode : Z;
  cj_Networks : gmap string string
}.
(** An entry of a listing. *)
Record ContainerEntry := {
  ce_ID : string; ce_Names : list string; ce_Labels : labels; ce_State : string
}.
Record ContainerConfig := {
  cc_Name : string; cc_Image : string; cc_Cmd : list string; cc_Env : list string; cc_Labels : labels;
  cc_Binds : list string; cc_Network : string; cc_Aliases : list string
}.
Record NetworkJSON := { nj_ID : string; nj_Name : string; nj_Labels : labels }.
Record VolumeJSON := { vj_Name : string; vj_Labels : labels }.
(** A record of a pull's progress stream, or bytes that are not JSON. *)
Inductive PullMessage := PullRecord (error detail : string) | PullGarbage.
(** What a host directory shows: whether it is one, and whether another user owns it. *)
Record DirInfo := { di_IsDir : bool; di_ForeignOwner : bool }.

(** ** Requests *)

Inductive docker_call :=
| ContainerCreate (config : ContainerConfig)
| ContainerInspect (name : string)
| ContainerList (filters : list string)
| ContainerRemove (id : string) (force : bool)
| ContainerStart (id : string)
| ContainerStop (id : string) (timeout : option Z)
| ImagePull (ref : string)
| NetworkCreate (name : string) (ls : labels)
| NetworkInspect (name : string)
| NetworkRemove (id : string)
| VolumeCreate (name : string) (ls : labels)
| VolumeInspect (name : string)
| VolumeList (filters : list string)
| VolumeRemove (name : string)
| MkdirAll (path : string)
| StatDir (path : string)
| Access (path : string) (read : bool).

(** A listing takes label filters: a key alone, or a key and its value. *)
Definition docker_answer (c : docker_call) : Type :=
  match c with
  | ContainerCreate _ => reply string
  | ContainerInspect _ => reply ContainerJSON
  | ContainerList _ => reply (list ContainerEntry)
  | ImagePull _ => reply (list PullMessage)
  | NetworkInspect _ => reply NetworkJSON
  | VolumeInspect _ => reply VolumeJSON
  | VolumeList _ => reply (list VolumeJSON)
  | StatDir _ => reply DirInfo
  | _ => option failure
  end.

(** An engine that cannot be reached. *)
Definition docker_down (c : docker_call) : docker_answer c :=
  match c return docker_answer c with
  | ContainerCreate _ | ContainerInspect _ | ContainerList _ | ImagePull _ | NetworkInspect _ | VolumeInspect _
  | VolumeList _ | StatDir _ => Bad (Text "down")
  | _ => Some (Text "down")
  end.

(** ** Errors *)

Definition IsErrNotFound (e : failure) : bool := FIs e ErrDockerNotFound.
Definition isNotFound (e : failure) : bool :=
  IsErrNotFound e || Contains (FError e) "No such" || Contains (FError e) "not found".

(** [fmt.Errorf("...: %w", err)]. *)
Definition wrap (pre : string) (e : failure) : failure := Around pre e EmptyString.
Definition wrapped (pre : string) (r : option failure) : option failure := wrap pre <$> r.

Definition shortID (id : string) : string := String.substring 0 12 id.
Definition firstName (names : list string) : string := hd EmptyString names.
Definition entry_name (c : ContainerEntry) : string := TrimPrefix (firstName (ce_Names c)) "/".
