(* ===== verification/SpecHash.v ===== *)
(** What a container was built from (internal/agent/docker/spec_update.go,
    ServiceSpecHash): the configuration as encoding/json writes it, and its SHA-256. *)
From Stdlib Require Import ZArith Ascii.
From stdpp Require Import prelude strings.
From S2P Require Import Prelude.
From S2P Require Import Calendar.
From S2P Require Import ProjectTypes.
From S2P Require Import Strconv.
From S2P Require Import Digest.
Import GoTime GoString.
Open Scope nat_scope.

Set Default Proof Using "Type".

(** ** encoding/json of strings *)

Definition json_u (n : nat) : string :=
  String backslash ("u00" ++ String (hex_digit (Nat.div n 16)) (String (hex_digit (Nat.modulo n 16)) EmptyString))%string.
Definition json_escape (x : nat) : string := String backslash (String (ascii_of_nat x) EmptyString).

(** One byte below 0x80; the strings are valid UTF-8, whose other bytes stay. *)
Definition json_byte (c : ascii) : string :=
  let n := nat_of_ascii c in
  if Nat.eqb n 34 || Nat.eqb n 92 then json_escape n
  else if Nat.eqb n 8 then json_escape 98
  else if Nat.eqb n 12 then json_escape 102
  else if Nat.eqb n 10 then json_escape 110
  else if Nat.eqb n 13 then json_escape 114
  else if Nat.eqb n 9 then json_escape 116
  else if Nat.ltb n 32 || Nat.eqb n 60 || Nat.eqb n 62 || Nat.eqb n 38 then json_u n
  else String c EmptyString.

(** U+2028 and U+2029 are three bytes each. *)
Fixpoint json_body (s : string) : string :=
  match s with
  | EmptyString => EmptyString
  | String c s1 =>
      match s1 with
      | String d (String e s2) =>
          if Nat.eqb (nat_of_ascii c) 226 && Nat.eqb (nat_of_ascii d) 128 &&
             (Nat.eqb (nat_of_ascii e) 168 || Nat.eqb (nat_of_ascii e) 169)
          then (String backslash (if Nat.eqb (nat_of_ascii e) 168 then "u2028" else "u2029") ++ json_body s2)%string
          else (json_byte c ++ json_body s1)%string
      | _ => (json_byte c ++ json_body s1)%string
      end
  end.

Definition json_string (s : string) : string :=
  String dquote (json_body s ++ String dquote EmptyString)%string.
(** A field of an object, and one that is omitted when it is empty. *)
Definition json_field (name value : string) : string :=
  (String dquote (name ++ String dquote EmptyString) ++ ":" ++ value)%string.
Definition json_list {A} (enc : A → string) (xs : list A) : string := ("[" ++ Join (enc <$> xs) "," ++ "]")%string.
Definition json_object (fields : list string) : string := ("{" ++ Join fields "," ++ "}")%string.
Definition omitempty {A} (name : string) (enc : list A → string) (xs : list A) : list string :=
  match xs with [] => [] | _ => [json_field name (enc xs)] end.
Definition omit_string (name value : string) : list string :=
  if decide (value = EmptyString) then [] else [json_field name (json_string value)].

(** ** The input *)

Record envHashInput := { eh_Name : string; eh_Value : string; eh_SecretRef : option SecretKeySelector }.
Record mountHash := { mh_Name : string; mh_MountPath : string; mh_Type : VolumeType }.
Record serviceHashInput := {
  sh_Image : string; sh_Command : list string; sh_Env : list envHashInput; sh_Mounts : list mountHash;
  sh_RestartedAt : string
}.

Definition type_of_volume (spec : ProjectSpec) (name : string) : VolumeType :=
  match find_first (λ v, bool_decide (vol_Name v = name)) (rev (sp_Volumes spec)) with
  | Some v => vol_Type v
  | None => EmptyString
  end.

Definition hash_input (svc : ServiceDef) (spec : ProjectSpec) : serviceHashInput :=
  {| sh_Image := svc_Image svc;
     sh_Command := svc_Command svc;
     sh_Env := (λ e, match ev_ValueFrom e ≫= evs_SecretKeyRef with
                     | Some ref => {| eh_Name := ev_Name e; eh_Value := EmptyString; eh_SecretRef := Some ref |}
                     | None => {| eh_Name := ev_Name e; eh_Value := ev_Value e; eh_SecretRef := None |}
                     end) <$> svc_Env svc;
     sh_Mounts := (λ m, {| mh_Name := vm_Name m; mh_MountPath := vm_MountPath m;
                           mh_Type := type_of_volume spec (vm_Name m) |}) <$> svc_VolumeMounts svc;
     sh_RestartedAt := match sp_RestartedAt spec with Some t => RFC3339Nano t | None => EmptyString end |}.

(** ** Its encoding, with the field names of the struct tags *)

Definition json_secret_ref (r : SecretKeySelector) : string :=
  json_object [json_field "name" (json_string (sks_Name r)); json_field "key" (json_string (sks_Key r))].
Definition json_env (e : envHashInput) : string :=
  json_object (json_field "name" (json_string (eh_Name e)) :: omit_string "value" (eh_Value e) ++
               match eh_SecretRef e with Some r => [json_field "secretKeyRef" (json_secret_ref r)] | None => [] end).
Definition json_mount (m : mountHash) : string :=
  json_object [json_field "name" (json_string (mh_Name m)); json_field "mountPath" (json_string (mh_MountPath m));
               json_field "type" (json_string (mh_Type m))].
Definition json_input (x : serviceHashInput) : string :=
  json_object (json_field "image" (json_string (sh_Image x)) ::
    omitempty "command" (json_list json_string) (sh_Command x) ++
    omitempty "env" (json_list json_env) (sh_Env x) ++
    omitempty "volumeMounts" (json_list json_mount) (sh_Mounts x) ++
    omit_string "restartedAt" (sh_RestartedAt x)).

Definition ServiceSpecHash (svc : ServiceDef) (spec : ProjectSpec) : string :=
  hex_EncodeToString (Sum256 (string_bytes (json_input (hash_input svc spec)))).

(** The hash of one service, computed also by another implementation. *)
Definition hashed_spec : ProjectSpec :=
  {| sp_Size := EmptyString; sp_Services := []; sp_Volumes := [{| vol_Name := "db"; vol_Type := VolumeTypeManaged |}];
     sp_Backup := None; sp_Ingress := []; sp_ExpireAt := None;
     sp_RestartedAt := Some (63844806896 * Second + 50700000)%Z |}.
Definition hashed_service : ServiceDef :=
  {| svc_Name := "main"; svc_Image := "nginx:1<2";
     svc_Command := ["sh"; "-c"; "a" ++ String (ascii_of_nat 9) "b" ++ String dquote (String backslash EmptyString)]%string;
     svc_Env := [{| ev_Name := "A"; ev_Value := "x&y"; ev_ValueFrom := None |};
                 {| ev_Name := "B"; ev_Value := EmptyString; ev_ValueFrom := None |};
                 {| ev_Name := "T"; ev_Value := "resolved";
                    ev_ValueFrom := Some {| evs_SecretKeyRef := Some {| sks_Name := "s"; sks_Key := "k" |} |} |}];
     svc_VolumeMounts := [{| vm_Name := "db"; vm_MountPath := "/data" |}] |}.
Example ServiceSpecHash_form :
  ServiceSpecHash hashed_service hashed_spec =
    "219ec813e3253d1d76cc61118f635ac5049dc3a16f51031b926e8467dfb14865"%string.
Proof. vm_compute. reflexivity. Qed.

(** ** Reading an encoded string back *)

Definition hex_value (c : ascii) : nat :=
  let n := nat_of_ascii c in if Nat.leb n 57 then n - 48 else n - 87.
Definition is_ascii (n : nat) (c : ascii) : bool := Nat.eqb (nat_of_ascii c) n.

Definition unescape (c : ascii) : ascii :=
  let n := nat_of_ascii c in
  if Nat.eqb n 98 then ascii_of_nat 8 else if Nat.eqb n 102 then ascii_of_nat 12
  else if Nat.eqb n 110 then ascii_of_nat 10 else if Nat.eqb n 114 then ascii_of_nat 13
  else if Nat.eqb n 116 then ascii_of_nat 9 else c.

(** The bytes of one unit of an encoded string, and what follows. *)
Definition read_unit (t : string) : option (string * string) :=
  match t with
  | EmptyString => None
  | String c t =>
      if negb (is_ascii 92 c) then Some (String c EmptyString, t)
      else match t with
           | String u ((String h1 (String h2 (String h3 (String h4 rest)))) as tl) =>
               if is_ascii 117 u then
                 if is_ascii 50 h1 then
                   Some (String (ascii_of_nat 226) (String (ascii_of_nat 128)
                           (String (ascii_of_nat (160 + hex_value h4)) EmptyString)), rest)
                 else Some (String (ascii_of_nat (16 * hex_value h3 + hex_value h4)) EmptyString, rest)
               else Some (String (unescape u) EmptyString, tl)
           | String u tl => Some (String (unescape u) EmptyString, tl)
           | EmptyString => None
           end
  end.

Fixpoint read_body (fuel : nat) (t : string) : option (string * string) :=
  match fuel, t with
  | S fuel, String c rest =>
      if is_ascii 34 c then Some (EmptyString, rest)
      else '(u, rest) ← read_unit t; '(x, rest') ← read_body fuel rest; Some ((u ++ x)%string, rest')
  | _, _ => None
  end.

Lemma read_unit_byte c t : read_unit (json_byte c ++ t) = Some (String c EmptyString, t).
Proof. destruct c as [[] [] [] [] [] [] [] []]; try reflexivity; by destruct t as [|? [|? [|? [|? ?]]]]. Qed.
Lemma json_byte_head c : ∃ d s, json_byte c = String d s ∧ is_ascii 34 d = false.
Proof. destruct c as [[] [] [] [] [] [] [] []]; by do 2 eexists. Qed.

Lemma read_body_byte fuel c t :
  read_body (S fuel) (json_byte c ++ t) = '(x, r) ← read_body fuel t; Some (String c x, r).
Proof.
  destruct (json_byte_head c) as (d & s & Hd & Hq). pose proof (read_unit_byte c t) as Hu. rewrite Hd in *.
  simpl in Hu |- *. rewrite Hq. by rewrite Hu.
Qed.

Lemma read_body_body (x : string) : ∀ (fuel : nat) (rest : string),
  String.length x < fuel → read_body fuel (json_body x ++ String dquote rest) = Some (x, rest).
Proof.
  induction x as [x IH] using (well_founded_induction (well_founded_ltof _ String.length)).
  intros [|fuel] rest Hlt; [lia|]. destruct x as [|c s1]; [done|]. simpl in Hlt.
  assert (read_body (S fuel) ((json_byte c ++ json_body s1) ++ String dquote rest) = Some (String c s1, rest)) as Hplain.
  { rewrite append_assoc, read_body_byte, (IH s1) by (unfold ltof; simpl; lia). done. }
  simpl json_body. destruct s1 as [|d [|e s2]]; [exact Hplain..|].
  destruct (Nat.eqb (nat_of_ascii c) 226 && _ && _) eqn:E; [|exact Hplain].
  apply andb_true_iff in E as [[Hc%Nat.eqb_eq Hd%Nat.eqb_eq]%andb_true_iff He].
  assert (c = ascii_of_nat 226 ∧ d = ascii_of_nat 128) as [-> ->]
    by (rewrite <- Hc, <- Hd; by rewrite !ascii_nat_embedding).
  simpl in Hlt.
  destruct (Nat.eqb (nat_of_ascii e) 168) eqn:Ee.
  - apply Nat.eqb_eq in Ee. assert (e = ascii_of_nat 168) as -> by (rewrite <- Ee; by rewrite ascii_nat_embedding).
    simpl. change ((EmptyString ++ json_body s2)%string) with (json_body s2).
    rewrite IH by (unfold ltof; simpl; lia). done.
  - apply Nat.eqb_eq in He. assert (e = ascii_of_nat 169) as -> by (rewrite <- He; by rewrite ascii_nat_embedding).
    simpl. change ((EmptyString ++ json_body s2)%string) with (json_body s2).
    rewrite IH by (unfold ltof; simpl; lia). done.
Qed.

(** ** Encodings that can be told apart *)

Lemma append_String c (s t : string) : (String c s ++ t)%string = String c (s ++ t).
Proof. done. Qed.
Lemma append_Empty (t : string) : (EmptyString ++ t)%string = t.
Proof. done. Qed.
(** Concatenations to the right, characters in front. *)
Ltac flat := repeat first [rewrite append_assoc | rewrite append_String | rewrite append_Empty].
Ltac flat_in H := repeat first [rewrite append_assoc in H | rewrite append_String in H | rewrite append_Empty in H].

(** What follows an encoded value does not change how it reads. *)
Definition readable {A} (enc : A → string) : Prop :=
  ∀ x y a b, (enc x ++ a = enc y ++ b)%string → x = y ∧ a = b.

Lemma json_string_readable : readable json_string.
Proof.
  intros x y a b H. unfold json_string in H. flat_in H. injection H as H.
  apply (f_equal (read_body (S (String.length x + String.length y)))) in H.
  rewrite !read_body_body in H by lia. by injection H as -> ->.
Qed.

Fixpoint json_tail (xs : list string) : string :=
  match xs with [] => EmptyString | x :: xs => ("," ++ x ++ json_tail xs)%string end.
Lemma Join_json_tail x xs : Join (x :: xs) "," = (x ++ json_tail xs)%string.
Proof.
  revert x. induction xs as [|y xs IH]; intros x; [by rewrite append_empty|].
  change (Join (x :: y :: xs) ",") with (x ++ "," ++ Join (y :: xs) ",")%string. by rewrite IH.
Qed.

Lemma json_list_readable {A} (enc : A → string) :
  readable enc → (∀ x, ∃ c s, enc x = String c s ∧ is_ascii 93 c = false) → readable (json_list enc).
Proof.
  intros Henc Hhead.
  assert (∀ xs ys a b, (json_tail (enc <$> xs) ++ "]" ++ a = json_tail (enc <$> ys) ++ "]" ++ b)%string →
    xs = ys ∧ a = b) as Htail.
  { induction xs as [|x xs IH]; intros [|y ys] a b H; rewrite ?fmap_cons in H; simpl json_tail in H; flat_in H;
      try discriminate; [by injection H|].
    injection H as H. apply Henc in H as [-> H]. by apply IH in H as [-> ->]. }
  intros [|x xs] [|y ys] a b; unfold json_list; rewrite ?fmap_cons, ?Join_json_tail; intros H; flat_in H; injection H as H.
  - by split.
  - destruct (Hhead y) as (c & s & Hy & Hc). rewrite Hy in H. flat_in H. injection H as <- _. done.
  - destruct (Hhead x) as (c & s & Hx & Hc). rewrite Hx in H. flat_in H. injection H as -> _. done.
  - apply Henc in H as [-> H]. by apply Htail in H as [-> ->].
Qed.

(** *** The objects *)

Lemma json_string_head x : ∃ c s, json_string x = String c s ∧ is_ascii 93 c = false.
Proof. by do 2 eexists. Qed.
#[local] Opaque json_string.
Lemma String_tail c s t : String c s = String c t → s = t.
Proof. congruence. Qed.
(** Constant text in front, and an encoded string after it. *)
Ltac peel H := flat_in H; repeat match type of H with String _ _ = String _ _ => apply String_tail in H end.
Ltac read_string H := peel H; apply json_string_readable in H as [? H].

Lemma json_secret_ref_readable : readable json_secret_ref.
Proof.
  intros [n k] [n' k'] a b H. unfold json_secret_ref, json_object, json_field in H. cbn [Join fmap] in H.
  read_string H. read_string H. peel H. simpl in *. by subst.
Qed.

#[local] Opaque json_secret_ref.

Lemma json_env_readable : readable json_env.
Proof.
  intros [n v r] [n' v' r'] a b H. unfold json_env, json_object, omit_string in H. rewrite !Join_json_tail in H.
  unfold json_field in H. read_string H. simpl in * |-. subst n'.
  assert (∀ s s' a b, (json_tail match s with Some r => [json_field "secretKeyRef" (json_secret_ref r)] | None => [] end
      ++ "}" ++ a = json_tail match s' with Some r => [json_field "secretKeyRef" (json_secret_ref r)] | None => [] end
      ++ "}" ++ b)%string → s = s' ∧ a = b) as Href.
  { clear. intros [s|] [s'|] a b H; simpl json_tail in H; unfold json_field in H; flat_in H; try discriminate; peel H.
    - apply json_secret_ref_readable in H as [-> H]. by peel H.
    - done. }
  do 2 case_decide; subst; simpl app in H; simpl json_tail in H.
  - destruct (Href r r' a b) as [-> ->]; [|done]. by flat; flat_in H.
  - destruct r as [r|]; simpl json_tail in H; unfold json_field in H; flat_in H; discriminate.
  - destruct r' as [r'|]; simpl json_tail in H; unfold json_field in H; flat_in H; discriminate.
  - unfold json_field in H. read_string H. subst v'. destruct (Href r r' a b) as [-> ->]; [|done].
    by flat; flat_in H.
Qed.

Lemma json_mount_readable : readable json_mount.
Proof.
  intros [n p t] [n' p' t'] a b H. unfold json_mount, json_object, json_field in H. cbn [Join fmap] in H.
  do 3 read_string H. peel H. simpl in *. by subst.
Qed.

(** *** The input *)

Definition field_tag (name : string) : string :=
  String (ascii_of_nat 44) (String dquote (name ++ String dquote EmptyString) ++ ":")%string.
(** Not the field of that name. *)
Definition other_field (name t : string) : Prop := CutPrefix (field_tag name) t = None.

Lemma json_tail_app xs ys : json_tail (xs ++ ys) = (json_tail xs ++ json_tail ys)%string.
Proof. induction xs as [|x xs IH]; [done|]. simpl. rewrite IH. by flat. Qed.

Lemma field_readable {A} name (enc : A → string) (x y : option A) R R' :
  readable enc → other_field name R → other_field name R' →
  (json_tail (option_list (json_field name ∘ enc <$> x)) ++ R =
   json_tail (option_list (json_field name ∘ enc <$> y)) ++ R')%string →
  x = y ∧ R = R'.
Proof.
  intros Henc HR HR' H.
  assert (∀ x R, json_tail (option_list (Some (json_field name (enc x)))) ++ R = field_tag name ++ enc x ++ R)%string
    as Htag by (intros ??; simpl; unfold json_field, field_tag; by flat).
  destruct x as [x|], y as [y|]; simpl fmap in H; rewrite ?Htag in H.
  - apply (f_equal (CutPrefix (field_tag name))) in H. rewrite !CutPrefix_app in H. injection H as H.
    by apply Henc in H as [-> ->].
  - change (json_tail (option_list None) ++ R')%string with R' in H. unfold other_field in HR'.
    by rewrite <- H, CutPrefix_app in HR'.
  - change (json_tail (option_list None) ++ R)%string with R in H. unfold other_field in HR.
    by rewrite H, CutPrefix_app in HR.
  - done.
Qed.

(** What is omitted, as an option. *)
Definition given {A} (xs : list A) : option (list A) := match xs with [] => None | _ => Some xs end.
Definition given_string (s : string) : option string := if decide (s = EmptyString) then None else Some s.
Lemma omitempty_given {A} name (enc : list A → string) xs :
  omitempty name enc xs = option_list (json_field name ∘ enc <$> given xs).
Proof. by destruct xs. Qed.
Lemma omit_string_given name s : omit_string name s = option_list (json_field name ∘ json_string <$> given_string s).
Proof. unfold omit_string, given_string. by case_decide. Qed.
Lemma given_inj {A} (xs ys : list A) : given xs = given ys → xs = ys.
Proof. destruct xs, ys; simpl; congruence. Qed.
Lemma given_string_inj s t : given_string s = given_string t → s = t.
Proof. unfold given_string. repeat case_decide; congruence. Qed.

Lemma other_field_field {A} name name' (enc : A → string) (x : option A) R :
  other_field name R → (∀ t, other_field name (field_tag name' ++ t)) →
  other_field name (json_tail (option_list (json_field name' ∘ enc <$> x)) ++ R).
Proof.
  intros HR Hn. destruct x as [x|]; [|exact HR]. simpl. unfold json_field. flat.
  pose proof (Hn (enc x ++ R)%string) as H. unfold field_tag in H. revert H. by flat.
Qed.

Lemma json_list_other {A} (enc : A → string) : ∀ xs, ∃ c s, json_list enc xs = String c s.
Proof. intros xs. by do 2 eexists. Qed.

(** Every text says what it was made from, whatever follows. *)
Lemma json_input_readable : readable json_input.
Proof.
  assert (readable (json_list json_string)) as Hc.
  { apply json_list_readable; [apply json_string_readable|apply json_string_head]. }
  assert (readable (json_list json_env)) as He.
  { apply json_list_readable; [apply json_env_readable|]. intros x. do 2 eexists. split; [reflexivity|done]. }
  assert (readable (json_list json_mount)) as Hm.
  { apply json_list_readable; [apply json_mount_readable|]. intros x. do 2 eexists. split; [reflexivity|done]. }
  intros [i c e m t] [i' c' e' m' t'] a b H. unfold json_input, json_object in H.
  cbn [sh_Image sh_Command sh_Env sh_Mounts sh_RestartedAt] in H.
  rewrite !Join_json_tail, !json_tail_app, !omitempty_given, !omit_string_given in H.
  rewrite !append_assoc in H. apply String_tail in H. unfold json_field at 1 6 in H. read_string H. subst i'.
  apply field_readable in H as [->%given_inj H]; [|done|..].
  apply field_readable in H as [->%given_inj H]; [|done|..].
  apply field_readable in H as [->%given_inj H]; [|done|..].
  apply field_readable in H as [->%given_string_inj H]; [|apply json_string_readable|..].
  { split; [done|]. by peel H. }
  all: repeat (apply other_field_field; [|by intros]); done.
Qed.

