(* ===== verification/Stores.v ===== *)
(** The object store and the staging disk as the Agent uses them for backups and
    restores: the interface of internal/objectstore/objectstore.go, the manifest of
    internal/agent/backup/manifest.go, and the calls of the os package. Neither the
    store nor the file system is assumed to do anything. *)
From Stdlib Require Import ZArith.
From stdpp Require Import prelude gmap strings.
From S2P Require Import Prelude.
From S2P Require Import ProjectTypes.
From S2P Require Import Failures.
Import GoTime.

Set Default Proof Using "Type".

(** ** Manifests *)

Record VolumeManifestEntry := { ve_Name : string; ve_ArchiveKey : string; ve_SizeBytes : Z; ve_SHA256 : string }.
#[export] Instance VolumeManifestEntry_eq_dec : EqDecision VolumeManifestEntry.
Proof. solve_decision. Defined.
Record Manifest := {
  mf_FormatVersion : Z; mf_BackupID : string; mf_Namespace : string; mf_Project : string; mf_ProjectUID : string;
  mf_CreatedAt : Time; mf_SourceNode : string; mf_ProjectSpecRevision : Z; mf_CaraVersion : string;
  mf_BackupMethod : string; mf_Volumes : list VolumeManifestEntry
}.
#[export] Instance Manifest_eq_dec : EqDecision Manifest.
Proof. solve_decision. Defined.

(** The manifest of a PostgreSQL backup run (pgbackup/manifest.go). *)
Record PgManifestItem := {
  pmi_Volume : string; pmi_Strategy : BackupStrategy; pmi_Stanza : string; pmi_BackupLabel : string;
  pmi_BackupType : string; pmi_PGMajor : Z; pmi_StartedAt : Time; pmi_StoppedAt : Time
}.
Record PgManifest := {
  pm_FormatVersion : Z; pm_BackupID : string; pm_ProjectUID : string; pm_Namespace : string; pm_Name : string;
  pm_NodeRef : string; pm_AssignmentGeneration : Z; pm_CaraVersion : string; pm_CreatedAt : Time;
  pm_Items : list PgManifestItem
}.

(** ** Provenance (restore/marker.go) *)

Record Provenance := {
  pv_Namespace : string; pv_Project : string; pv_ProjectUID : string; pv_NodeName : string;
  pv_AssignmentGeneration : Z; pv_BackupID : string
}.
#[export] Instance Provenance_eq_dec : EqDecision Provenance.
Proof. solve_decision. Defined.
Record Marker := {
  mk_Version : Z; mk_Namespace : string; mk_Project : string; mk_ProjectUID : string; mk_NodeName : string;
  mk_AssignmentGeneration : Z; mk_InitializedFromBackupID : string; mk_EstablishedAt : Time
}.

(** ** Maps of Go

    The order in which Go ranges over a map is unspecified. *)
Class MapOrder := {
  map_order : list string → list string;
  map_order_perm (keys : list string) : map_order keys ≡ₚ keys
}.
Definition map_order_ascending : MapOrder := {| map_order := λ keys, keys; map_order_perm := λ keys, reflexivity keys |}.

(** ** Requests *)

(** What is uploaded: a file of the staging disk, or a manifest as JSON. *)
Inductive upload :=
| UploadFile (path : string) (size : Z)
| UploadManifest (m : Manifest)
| UploadPgManifest (m : PgManifest).

Inductive store_call :=
| StorePut (key : string) (body : upload)
| StoreHead (key : string)
| StoreOpen (key : string)
| StoreList (prefix : string)
| StoreDelete (key : string)
| StoreManifest (key : string).

(** [StoreHead] answers the size of what is stored. [StoreOpen] begins a download,
    whose bytes [CopyFrom] moves to a file; [StoreManifest] reads and decodes a
    manifest that was opened. *)
Definition store_answer (c : store_call) : Type :=
  match c with
  | StoreHead _ => reply Z
  | StoreList _ => reply (list string)
  | StoreManifest _ => reply Manifest
  | _ => option failure
  end.

Inductive disk_call :=
| MakeDirs (path : string)
| RemoveTree (path : string)
| RenamePath (from to : string)
| RemoveFile (path : string)
| FreeBytes (path : string)
| ArchiveDir (dir file : string)
| OpenFile (file : string)
| CreateFile (file : string)
| CopyFrom (key file : string)
| SyncFile (file : string)
| ExtractArchive (file dir : string) (limit : Z)
| WriteMarkerFile (file : string) (m : Marker).

(** [ArchiveDir] answers the size and the digest of the archive it wrote, [CopyFrom]
    those of what it received. *)
Definition disk_answer (c : disk_call) : Type :=
  match c with
  | FreeBytes _ => reply Z
  | ArchiveDir _ _ | CopyFrom _ _ => reply (Z * string)
  | _ => option failure
  end.

(** A store and a disk that cannot be reached. *)
Definition store_down (c : store_call) : store_answer c :=
  match c return store_answer c with
  | StoreHead _ | StoreList _ | StoreManifest _ => Bad (Text "down")
  | _ => Some (Text "down")
  end.
Definition disk_down (c : disk_call) : disk_answer c :=
  match c return disk_answer c with
  | FreeBytes _ | ArchiveDir _ _ | CopyFrom _ _ => Bad (Text "down")
  | _ => Some (Text "down")
  end.
