(* ===== verification/Actions.v ===== *)
(** What an Agent does, as programs over its requests. A request goes to the
    server (internal/agent/client.go), to the container runtime
    (internal/agent/docker/runtime.go), to the file system, to the Node's repo host
    or to the coordinator of its own operations (backup/coordinator.go). Nothing is
    assumed of the answers: every theorem about a program holds for every server,
    every Docker daemon and every disk.

    A request type says what its answer is; a program is a tree over the answers,
    with the memory of the process ([Tracker]) read and changed in between. *)
From Stdlib Require Import ZArith Lia.
From stdpp Require Import prelude gmap strings.
From S2P Require Import Prelude.
From S2P Require Import Conditions.
From S2P Require Import ProjectTypes.
From S2P Require Import AccessTypes.
From S2P Require Import Failures.
From S2P Require Import Tracker.
From S2P Require Import Engine.
From S2P Require Import Stores.
Import GoTime GoInt GoString.
Open Scope nat_scope.

Set Default Proof Using "Type".

(** ** The fence of a report *)

Record AssignmentFence := { af_UID : string; af_NodeRef : string; af_Generation : Z }.
#[export] Instance AssignmentFence_eq_dec : EqDecision AssignmentFence.
Proof. solve_decision. Defined.

Definition fenceForProject (p : Project) : AssignmentFence :=
  {| af_UID := om_UID (p_Meta p); af_NodeRef := st_NodeRef (p_Status p);
     af_Generation := st_AssignmentGeneration (p_Status p) |}.

(** ** Containers *)

Record ContainerState := {
  cs_ServiceName : string; cs_ContainerID : string; cs_Status : string; cs_ExitCode : Z;
  cs_NotOwned : option failure
}.
Record StaleContainer := { sc_Name : string; sc_Service : string; sc_ID : string; sc_Reason : option failure }.
Record SpecDrift := {
  sd_Outdated : list string; sd_Missing : list string; sd_Removed : list StaleContainer
}.
Definition drift_Changes (d : SpecDrift) : bool :=
  negb (bool_decide (sd_Outdated d = [])) || negb (Nat.eqb (length (sd_Removed d)) 0).

(** An assignment as Docker resources are labelled with it. *)
Record Assignment := {
  as_Namespace : string; as_Project : string; as_UID : string; as_Generation : Z; as_AllGenerations : bool
}.
#[export] Instance Assignment_eq_dec : EqDecision Assignment.
Proof. solve_decision. Defined.

Definition NetworkName (projectName : string) : string := ("cara-" ++ projectName)%string.
Definition ContainerName (projectName serviceName : string) : string :=
  (projectName ++ "-" ++ serviceName)%string.

(** Two Projects can claim one container name. *)
Example ContainerName_collides : ContainerName "web-db" "main" = ContainerName "web" "db-main".
Proof. reflexivity. Qed.

Record ExecResult := { ex_ExitCode : Z; ex_Stdout : string; ex_Stderr : string }.

(** ** Databases that are backed up while they run (pgbackup/runner.go) *)

Record PgDatabase := {
  pd_ProjectUID : string; pd_Volume : string; pd_Service : string; pd_Stanza : string; pd_ContainerID : string;
  pd_SystemID : string; pd_Timeline : string
}.
#[export] Instance PgDatabase_eq_dec : EqDecision PgDatabase.
Proof. solve_decision. Defined.
Record PgItem := {
  pi_Volume : string; pi_Stanza : string; pi_Label : string; pi_Type : string; pi_PGMajor : Z; pi_Started : Time;
  pi_Stopped : Time
}.

(** ** Operations on one Project *)

Record ResourceKey := { rs_Namespace : string; rs_Name : string }.
#[export] Instance ResourceKey_eq_dec : EqDecision ResourceKey.
Proof. solve_decision. Defined.
Definition key_of_project (p : Project) : ResourceKey :=
  {| rs_Namespace := om_Namespace (p_Meta p); rs_Name := om_Name (p_Meta p) |}.

Inductive Operation :=
| OpBackup | OpRestore | OpTerminate | OpFinalBackup | OpGC | OpOrphanCleanup | OpRecovery | OpPlacement | OpUpdate.
#[export] Instance Operation_eq_dec : EqDecision Operation.
Proof. solve_decision. Defined.

(** ** What the disk says *)

(** What the file system says of a path that is inspected, of a directory that is
    listed, and of a marker that is read and decoded. *)
Inductive stat_answer := StatFound | StatAbsent | StatError (e : failure).
Inductive dir_answer := DirEntries (n : nat) | DirAbsent | DirForbidden | DirError (e : failure).
Inductive marker_answer := MarkerFound (m : Marker) | MarkerAbsent | MarkerError (e : failure).

(** ** Requests *)

Inductive call :=
(* the server *)
| GetProject (name : string)
| GetSecret (name : string)
| ListProjectsAssignedToNode
| ListCleanupTasks
| UpdateProjectStatus (name : string) (fence : AssignmentFence) (phase : ProjectPhase) (reason message : string)
| PatchProjectCondition (name : string) (fence : AssignmentFence) (type : ConditionType) (status : ConditionStatus)
    (reason message : string)
| ClearProjectCondition (name : string) (fence : AssignmentFence) (type : ConditionType)
| ReportSpecApplied (name : string) (fence : AssignmentFence) (revision : Z) (applied : bool) (reason message : string)
| ReportResourcesRemoved (name : string) (assignment : AssignmentIdentity)
| ReportManagedDataQuarantined (name : string) (assignment : AssignmentIdentity)
| RecordStanza (name : string) (fence : AssignmentFence) (volume : string)
| CommitBackup (name : string) (fence : AssignmentFence) (backupID : string)
| RecordBackupCompletion (name : string) (fence : AssignmentFence) (backupID : string) (items : list BackupCompletionItem)
(* the container runtime *)
| ReconcileProject (p : Project)
| InspectProject (p : Project)
| RecoverServices (p : Project) (services : list string)
| PreflightRecovery (p : Project) (services : list string)
| StaleContainers (p : Project)
| GetContainerIPs (p : Project)
| ListLocalProjects
| StopOrphanProject (id : ProjectIdentity)
| RemoveOrphanProject (id : ProjectIdentity)
| DriftOf (p : Project)
| UpdateServices (p : Project) (drift : SpecDrift)
| RemoveAssignment (a : Assignment)
| AssignmentRemaining (a : Assignment)
| EnsureProjectNetwork (p : Project)
| Exec (container user : string) (cmd : list string)
| ExecUntilCancelled (container user : string) (cmd : list string)
| RestartContainer (container : string)
| StopContainers (p : Project)
| StartContainers (p : Project)
(* the Docker engine, behind the runtime *)
| Docker (c : docker_call)
(* the object store, and the file system behind a backup or a restore *)
| Store (c : store_call)
| Disk (c : disk_call)
(* the Node's repo host *)
| Revoke (uid network : string)
| RepoRemaining (uid network : string)
| IssueClientIdentity (uid image : string)
| WriteClientConfig (uid : string) (stanzas : list (string * Z))
| Authorize (uid : string) (stanzas : list string) (network image : string)
| RepoVersion
(* the proxy *)
| RoutesUpdate (p : Project) (ips : gmap string string)
| RoutesRemove (project : string)
(* this Node's data *)
| Stat (path : string)
| ReadDir (path : string)
| ReadMarker (path : string)
| InitializeEmpty (p : Project)
| RestoreGeneration (p : Project) (backupID : string)
| BeginPgRestore (p : Project)
| Quarantine (dataRoot : string) (owner : Provenance) (now : Time)
(* the continuity of WAL archiving, and the recorder of a run *)
| CheckContinuity (db : PgDatabase)
| FullAccepted (db : PgDatabase) (version : Z)
| RecordRun (p : Project) (backupID : string) (items : list PgItem)
(* this process *)
| TryClaim (key : ResourceKey) (op : Operation)
| IsBusy (key : ResourceKey)
| Release (key : ResourceKey)
| SyncSupervisor (projects : list Project)
| RandomSuffix
| ContextErr
| Clock
| Sleep (d : Duration).

(** Answers. [None] is a nil error; beginning a background restore answers the
    block that says where the Project stands and whether it took the claim over; a sleep answers why it
    was cut short, and a command that was waited for until the context was cancelled the
    context's error. *)
Definition answer (c : call) : Type :=
  match c with
  | GetProject _ => reply Project
  | GetSecret _ => reply Secret
  | ListProjectsAssignedToNode => reply (list Project)
  | ListCleanupTasks => reply (list CleanupTask)
  | InspectProject _ => reply (list ContainerState)
  | StaleContainers _ => reply (list StaleContainer)
  | GetContainerIPs _ => reply (gmap string string)
  | ListLocalProjects => reply (list ProjectIdentity)
  | DriftOf _ => reply SpecDrift
  | AssignmentRemaining _ | RepoRemaining _ _ => reply (list string)
  | Exec _ _ _ => reply ExecResult
  | ExecUntilCancelled _ _ _ => reply ExecResult + failure
  | CheckContinuity _ => bool * Z * option failure
  | RepoVersion => reply string
  | Docker c => docker_answer c
  | Store c => store_answer c
  | Disk c => disk_answer c
  | RandomSuffix => reply string
  | Stat _ => stat_answer
  | ReadDir _ => dir_answer
  | ReadMarker _ => marker_answer
  | BeginPgRestore _ => failure * bool
  | TryClaim _ _ | IsBusy _ => bool
  | RoutesUpdate _ _ | RoutesRemove _ | Release _ | SyncSupervisor _ => ()
  | Clock => Time
  | _ => option failure
  end.

(** A request and what it was answered. *)
Inductive happening := Did (c : call) (x : answer c).
Definition call_of (e : happening) : call := match e with Did c _ => c end.
Notation story := (list happening).

(** ** Programs *)

Record memory := { mem_Recovery : option recoveryTracker; mem_Orphans : option orphanTracker }.
Definition mem_with_Recovery x (m : memory) : memory := {| mem_Recovery := x; mem_Orphans := mem_Orphans m |}.
Definition mem_with_Orphans x (m : memory) : memory := {| mem_Recovery := mem_Recovery m; mem_Orphans := x |}.

Inductive act (A : Type) : Type :=
| Return (a : A)
| Call (c : call) (k : answer c → act A)
| Memory (T : Type) (f : memory → T * memory) (k : T → act A).
#[global] Arguments Return {A} a.
#[global] Arguments Call {A} c k.
#[global] Arguments Memory {A} T f k.

#[global] Instance act_bind : MBind act :=
  fix bind {A B} (f : A → act B) (p : act A) : act B :=
    match p with
    | Return a => f a
    | Call c k => Call c (λ x, bind f (k x))
    | Memory T g k => Memory T g (λ x, bind f (k x))
    end.

(** One request, and one change of the memory, as programs. *)
Definition call_ (c : call) : act (answer c) := Call c Return.
Definition remember {T : Type} (f : memory → T * memory) : act T := Memory T f Return.
Definition memory_ : act memory := remember (λ m, (m, m)).
Definition skip : act () := Return ().

(** [for _, x := range xs { body(x) }]. *)
Fixpoint for_each {X} (xs : list X) (body : X → act ()) : act () :=
  match xs with [] => skip | x :: rest => body x ≫= λ _, for_each rest body end.

(** [release, ok := TryClaim(key, op); if !ok { lost }; defer release(); body]. *)
Definition claimed {A} (busy : bool) (key : ResourceKey) (op : Operation) (lost body : act A) : act A :=
  if busy then
    call_ (TryClaim key op) ≫= λ ok,
    if ok : bool then body ≫= λ a, call_ (Release key) ≫= λ _, Return a else lost
  else body.

(** ** Running against any world *)

(** What answers each request, given everything that happened before. *)
Definition world := story → ∀ c : call, answer c.

Fixpoint act_run {A} (w : world) (p : act A) (m : memory) (h : story) : A * memory * story :=
  match p with
  | Return a => (a, m, h)
  | Call c k => let x := w h c in act_run w (k x) m (h ++ [Did c x])
  | Memory T f k => let '(x, m') := f m in act_run w (k x) m' h
  end.

(** [ok h c] says that [c] may be requested after [h]; the precondition of a
    program that must obey it, for all answers. *)
Fixpoint awp {A} (ok : story → call → Prop) (p : act A) (Q : A → memory → story → Prop)
    (m : memory) (h : story) : Prop :=
  match p with
  | Return a => Q a m h
  | Call c k => ok h c ∧ ∀ x, awp ok (k x) Q m (h ++ [Did c x])
  | Memory T f k => let '(x, m') := f m in awp ok (k x) Q m' h
  end.

(** Every request of [h] was allowed when it was made. *)
Definition obeys (ok : story → call → Prop) (h : story) : Prop :=
  ∀ h1 e h2, h = h1 ++ e :: h2 → ok h1 (call_of e).

Lemma obeys_nil ok : obeys ok [].
Proof. by intros [] ??. Qed.

Lemma obeys_snoc ok h c x : obeys ok h → ok h c → obeys ok (h ++ [Did c x]).
Proof.
  intros Ho Hc h1 e h2 Heq. destruct h2 as [|e' h2 _] using rev_ind.
  - apply app_inj_tail in Heq as [<- <-]. exact Hc.
  - rewrite app_comm_cons, app_assoc in Heq. apply app_inj_tail in Heq as [-> _]. by eapply Ho.
Qed.

Lemma awp_adequate {A} ok (w : world) (p : act A) Q m h :
  awp ok p Q m h → obeys ok h →
  Q (act_run w p m h).1.1 (act_run w p m h).1.2 (act_run w p m h).2 ∧ obeys ok (act_run w p m h).2.
Proof.
  revert m h. induction p as [a|c k IH|T f k IH]; intros m h Hp Ho; simpl in *.
  - done.
  - destruct Hp as [Hc Hk]. apply IH; [done|by apply obeys_snoc].
  - destruct (f m) as [x m']. by apply IH.
Qed.

Section rules.
Context {A B : Type} (ok : story → call → Prop).

Lemma awp_bind (p : act A) (f : A → act B) Q m h :
  awp ok p (λ a m' h', awp ok (f a) Q m' h') m h → awp ok (p ≫= f) Q m h.
Proof.
  revert m h. induction p as [a|c k IH|T g k IH]; intros m h; simpl; [done| |].
  - intros [Hc Hk]. split; [done|]. intros x. by apply IH.
  - destruct (g m) as [x m']. apply IH.
Qed.

Lemma awp_mono (p : act A) (Q Q' : A → memory → story → Prop) m h :
  (∀ a m' h', Q a m' h' → Q' a m' h') → awp ok p Q m h → awp ok p Q' m h.
Proof.
  intros HQ. revert m h. induction p as [a|c k IH|T g k IH]; intros m h; simpl; [by auto| |].
  - intros [Hc Hk]. split; [done|]. intros x. by apply IH.
  - destruct (g m) as [x m']. apply IH.
Qed.
End rules.

Lemma awp_ok_mono {A} (ok ok' : story → call → Prop) (p : act A) Q m h :
  (∀ h c, ok h c → ok' h c) → awp ok p Q m h → awp ok' p Q m h.
Proof.
  intros Hok. revert m h. induction p as [a|c k IH|T f k IH]; intros m h; simpl; [done| |].
  - intros [Hc Hk]. split; [by apply Hok|]. intros x. by apply IH.
  - destruct (f m) as [x m']. apply IH.
Qed.

(** What was seen at the start is known at every request. *)
Lemma awp_ok_from {A} (ok : story → call → Prop) (p : act A) Q m h1 h :
  h1 `prefix_of` h → awp (λ h c, h1 `prefix_of` h → ok h c) p Q m h → awp ok p Q m h.
Proof.
  revert m h. induction p as [a|c k IH|T f k IH]; intros m h Hpre; simpl; [done| |].
  - intros [Hc Hk]. split; [by apply Hc|]. intros x. apply IH; [|done]. etrans; [exact Hpre|]. by exists [Did c x].
  - destruct (f m) as [x m']. by apply IH.
Qed.

(** A program whose requests are all of one kind. *)
Fixpoint only {A} (P : call → Prop) (p : act A) : Prop :=
  match p with
  | Return _ => True
  | Call c k => P c ∧ ∀ x, only P (k x)
  | Memory T f k => ∀ x, only P (k x)
  end.

Lemma only_bind {A B} P (p : act A) (f : A → act B) :
  only P p → (∀ a, only P (f a)) → only P (p ≫= f).
Proof.
  intros Hp Hf. induction p as [a|c k IH|T g k IH]; simpl in *; [done| |].
  - destruct Hp as [Hc Hk]. split; [done|]. intros x. by apply IH.
  - intros x. by apply IH.
Qed.

Lemma only_call P c : P c → only P (call_ c).
Proof. intros Hc. split; [done|]. intros x. exact I. Qed.

Lemma only_for_each {X} P (xs : list X) body : (∀ x, only P (body x)) → only P (for_each xs body).
Proof. intros Hb. induction xs as [|x xs IH]; simpl; [done|]. by apply only_bind. Qed.

Lemma only_mono {A} (P P' : call → Prop) (p : act A) : (∀ c, P c → P' c) → only P p → only P' p.
Proof.
  intros HP. induction p as [a|c k IH|T g k IH]; simpl; [done| |].
  - intros [Hc Hk]. split; [by apply HP|]. intros x. by apply IH.
  - intros Hk x. by apply IH.
Qed.

(** A history that went on with requests of one kind. *)
Definition grows (P : call → Prop) (h h' : story) : Prop :=
  ∃ k, h' = h ++ k ∧ Forall (λ e, P (call_of e)) k.

Lemma grows_refl P h : grows P h h.
Proof. exists []. by rewrite app_nil_r. Qed.
Lemma grows_snoc P h h' c x : grows P h h' → P c → grows P h (h' ++ [Did c x]).
Proof.
  intros (k & -> & Hk) Hc. exists (k ++ [Did c x]). rewrite app_assoc. split; [done|].
  apply Forall_app. split; [done|]. by constructor.
Qed.
Lemma grows_trans P h h' h'' : grows P h h' → grows P h' h'' → grows P h h''.
Proof.
  intros (k & -> & Hk) (k' & -> & Hk'). exists (k ++ k'). rewrite app_assoc. split; [done|].
  by apply Forall_app.
Qed.
Lemma grows_call P h c x : P c → grows P h (h ++ [Did c x]).
Proof. intros Hc. apply grows_snoc; [apply grows_refl|done]. Qed.
Lemma grows_prefix P h h' : grows P h h' → h `prefix_of` h'.
Proof. intros (k & -> & _). by exists k. Qed.
Lemma grows_mono (P P' : call → Prop) h h' : (∀ c, P c → P' c) → grows P h h' → grows P' h h'.
Proof. intros HP (k & -> & Hk). exists k. split; [done|]. eapply Forall_impl; [exact Hk|]. auto. Qed.
Lemma prefix_grows (h h' : story) : h `prefix_of` h' → grows (λ _, True) h h'.
Proof. intros [k ->]. exists k. split; [done|]. by apply Forall_true. Qed.
Lemma prefix_of_snoc (h h' : story) c (x : answer c) : h `prefix_of` h' → h `prefix_of` h' ++ [Did c x].
Proof. intros Hp. etrans; [exact Hp|]. by exists [Did c x]. Qed.
Lemma seen_grows P (e : happening) h h' : grows P h h' → e ∈ h → e ∈ h'.
Proof. intros (k & -> & _). rewrite elem_of_app. auto. Qed.
#[export] Hint Resolve grows_refl grows_snoc grows_call : cara.

(** Requests that are always allowed do not matter to a protocol. *)
Lemma awp_only {A} ok (P : call → Prop) (p : act A) (Q : A → memory → story → Prop) m h :
  only P p → (∀ h c, P c → ok h c) → (∀ a m' h', grows P h h' → Q a m' h') → awp ok p Q m h.
Proof.
  intros Hp HP. revert m h Hp. induction p as [a|c k IH|T f k IH]; intros m h Hp HQ; simpl in *.
  - apply HQ, grows_refl.
  - destruct Hp as [Hc Hk]. split; [by apply HP|]. intros x. apply IH; [done|].
    intros a m' h' Hpre. apply HQ. eapply grows_trans; [|exact Hpre]. by apply grows_call.
  - destruct (f m) as [x m']. by apply IH.
Qed.

Lemma awp_only_bind {A B} ok (P : call → Prop) (p : act A) (f : A → act B) Q m h :
  only P p → (∀ h c, P c → ok h c) → (∀ a m' h', grows P h h' → awp ok (f a) Q m' h') →
  awp ok (p ≫= f) Q m h.
Proof. intros Hp HP Hf. apply awp_bind. by eapply awp_only. Qed.

(** [h] comes before the history of the goal. *)
Ltac later :=
  solve [assumption | reflexivity | apply prefix_of_snoc; later
        | match goal with H : ?a `prefix_of` ?b |- _ `prefix_of` ?b => transitivity a; [later|exact H] end].

(** *** Claims *)

(** Since the claim was answered, nothing released it. *)
Definition holds (key : ResourceKey) (op : Operation) (h : story) : Prop :=
  ∃ h1 h2, h = h1 ++ Did (TryClaim key op) true :: h2 ∧ Forall (λ e, call_of e ≠ Release key) h2.

Lemma holds_claimed key op h : holds key op (h ++ [Did (TryClaim key op) true]).
Proof. exists h, []. by split. Qed.
Lemma holds_snoc key op h c x : holds key op h → c ≠ Release key → holds key op (h ++ [Did c x]).
Proof.
  intros (h1 & h2 & -> & Hh) Hc. exists h1, (h2 ++ [Did c x]). rewrite <- app_assoc. split; [done|].
  apply Forall_app. split; [done|]. by constructor.
Qed.
Lemma holds_grows P key op h h' : ¬ P (Release key) → grows P h h' → holds key op h → holds key op h'.
Proof.
  intros HP (k & -> & Hk) (h1 & h2 & -> & Hh). exists h1, (h2 ++ k). rewrite <- app_assoc. split; [done|].
  apply Forall_app. split; [done|]. eapply Forall_impl; [exact Hk|]. intros e He Heq. apply HP. by rewrite <- Heq.
Qed.
Lemma not_holds_nil key op : ¬ holds key op [].
Proof. intros ([|e h1] & h2 & Heq & _); discriminate Heq. Qed.
Lemma not_holds_snoc key op h c x :
  ¬ holds key op h → Did c x ≠ Did (TryClaim key op) true → ¬ holds key op (h ++ [Did c x]).
Proof.
  intros Hn Hne (h1 & h2 & Heq & Hh). destruct h2 as [|e h2 _] using rev_ind.
  - apply app_inj_tail in Heq as [_ Heq]. done.
  - rewrite app_comm_cons, app_assoc in Heq. apply app_inj_tail in Heq as [-> _].
    apply Hn. exists h1, h2. split; [done|]. by apply Forall_app in Hh as [Hh _].
Qed.
Definition granted (e : happening) : bool := match e with Did (TryClaim _ _) ok => ok | _ => false end.
Lemma not_holds_ungranted key op h e : ¬ holds key op h → granted e = false → ¬ holds key op (h ++ [e]).
Proof. intros Hn He. destruct e as [c x]. apply not_holds_snoc; [done|]. by intros Heq; rewrite Heq in He. Qed.
Lemma not_holds_released key op h x : ¬ holds key op (h ++ [Did (Release key) x]).
Proof.
  intros (h1 & h2 & Heq & Hh). destruct h2 as [|e h2 _] using rev_ind.
  - by apply app_inj_tail in Heq as [_ Heq].
  - rewrite app_comm_cons, app_assoc in Heq. apply app_inj_tail in Heq as [_ <-].
    apply Forall_app in Hh as [_ Hh]. inversion_clear Hh. done.
Qed.
Lemma not_holds_grows P key op h h' :
  (∀ k o, ¬ P (TryClaim k o)) → grows P h h' → ¬ holds key op h → ¬ holds key op h'.
Proof.
  intros HP (k & -> & Hk). induction k as [|e k IH] using rev_ind; [by rewrite app_nil_r|].
  apply Forall_app in Hk as [Hk He]. intros Hn. rewrite app_assoc. apply not_holds_ungranted; [by apply IH|].
  inversion_clear He as [|? ? He' _]. destruct e as [c x]. destruct c; try done. by apply HP in He'.
Qed.
#[export] Hint Resolve holds_claimed holds_snoc : cara.

Lemma awp_call_bind {B} ok c (f : answer c → act B) Q m h :
  ok h c → (∀ x, awp ok (f x) Q m (h ++ [Did c x])) → awp ok (call_ c ≫= f) Q m h.
Proof. intros Hc Hf. by split. Qed.

(** What was seen stays seen. *)
Lemma seen_prefix (e : happening) (h h' : story) : h `prefix_of` h' → e ∈ h → e ∈ h'.
Proof. intros [k ->]. rewrite elem_of_app. auto. Qed.
Lemma seen_last (e : happening) (h : story) : e ∈ h ++ [e].
Proof. rewrite elem_of_app. right. by left. Qed.
Lemma seen_app (e e' : happening) (h : story) : e ∈ h → e ∈ h ++ [e'].
Proof. rewrite elem_of_app. auto. Qed.
#[export] Hint Resolve seen_prefix seen_last seen_app only_call : cara.

(** *** Part of a program on its own *)

(** A history that continues [h1]: what a part of a program did is judged by itself. *)
Lemma awp_since {A} (okb ok : story → call → Prop) (P : call → Prop) (p : act A)
    (Qb Q : A → memory → story → Prop) m h1 h2 :
  Forall (λ e, P (call_of e)) h2 →
  (∀ h c, okb h c → P c) →
  (∀ h c, Forall (λ e, P (call_of e)) h → okb h c → ok (h1 ++ h) c) →
  (∀ a m' h, Forall (λ e, P (call_of e)) h → Qb a m' h → Q a m' (h1 ++ h)) →
  awp okb p Qb m h2 → awp ok p Q m (h1 ++ h2).
Proof.
  intros Hh2 HP Hok HQ. revert m h2 Hh2.
  induction p as [a|c k IH|T f k IH]; intros m h2 Hh2 Hp; simpl in *.
  - by apply HQ.
  - destruct Hp as [Hc Hk]. split; [by apply Hok|]. intros x. rewrite <- app_assoc. apply IH; [|done].
    apply Forall_app. split; [done|]. constructor; [|done]. simpl. by eapply HP.
  - destruct (f m) as [x m']. by apply IH.
Qed.

Lemma awp_since_start {A} (okb ok : story → call → Prop) (P : call → Prop) (p : act A)
    (Qb Q : A → memory → story → Prop) m h1 :
  (∀ h c, okb h c → P c) →
  (∀ h c, Forall (λ e, P (call_of e)) h → okb h c → ok (h1 ++ h) c) →
  (∀ a m' h, Forall (λ e, P (call_of e)) h → Qb a m' h → Q a m' (h1 ++ h)) →
  awp okb p Qb m [] → awp ok p Q m h1.
Proof.
  intros HP Hok HQ Hp. rewrite <- (app_nil_r h1). by apply (awp_since okb ok P p Qb Q m h1 []).
Qed.

(** [E] holds of what was done since the claim, which still stands; without a
    coordinator, of what was done since some point. *)
Definition under (busy : bool) (key : ResourceKey) (op : Operation) (E : story → Prop) (h : story) : Prop :=
  ∃ h1 h2, h = h1 ++ h2 ∧ (busy = true → ∃ h0, h1 = h0 ++ [Did (TryClaim key op) true]) ∧
    Forall (λ e, call_of e ≠ Release key) h2 ∧ E h2.

(** A claimed body obeys a protocol when it obeys it on its own. *)
Lemma awp_claimed {A} (okb ok : story → call → Prop) (R : A → Prop) busy key op (lost body : act A)
    (Q : A → memory → story → Prop) m h :
  (∀ h c, okb h c → c ≠ Release key) →
  (∀ h' c, h `prefix_of` h' → under busy key op (λ h2, okb h2 c) h' → ok h' c) →
  (∀ h, ok h (TryClaim key op)) → (∀ h, ok h (Release key)) →
  (∀ h', h `prefix_of` h' → awp ok lost Q m h') → (∀ a m' h', h `prefix_of` h' → R a → Q a m' h') →
  awp okb body (λ a _ _, R a) m [] → awp ok (claimed busy key op lost body) Q m h.
Proof.
  intros HP Hok Hc Hr Hl HQ Hb. unfold claimed. destruct busy.
  - apply awp_call_bind; [apply Hc|]. intros [|]; [|apply Hl; by apply prefix_of_snoc]. apply awp_bind.
    eapply (awp_since_start okb ok (λ c, c ≠ Release key) body (λ a _ _, R a)); [done| | |done].
    + intros h' c Hf Ho. apply Hok; [rewrite <- app_assoc; by apply prefix_app_r|].
      exists (h ++ [Did (TryClaim key op) true]), h'. split_and!; [done| |done|done]. intros _. by exists h.
    + intros a m' h' _ Ha. split; [apply Hr|]. intros x. apply HQ; [|done].
      apply prefix_of_snoc. rewrite <- app_assoc. by apply prefix_app_r.
  - eapply (awp_since_start okb ok (λ c, c ≠ Release key) body (λ a _ _, R a)); [done| | |done].
    + intros h' c Hf Ho. apply Hok; [by apply prefix_app_r|]. by exists h, h'.
    + intros a m' h' _ Ha. apply HQ; [by apply prefix_app_r|done].
Qed.

(** What was done stays done. *)
Lemma awp_prefix {A} ok (p : act A) (Q : A → memory → story → Prop) m h :
  awp ok p Q m h → awp ok p (λ a m' h', Q a m' h' ∧ h `prefix_of` h') m h.
Proof.
  assert (∀ h1, h1 `prefix_of` h → awp ok p Q m h → awp ok p (λ a m' h', Q a m' h' ∧ h1 `prefix_of` h') m h) as H.
  { intros h1. revert m h. induction p as [a|c k IH|T f k IH]; intros m h Hpre; simpl; [by intros| |].
    - intros [Hc Hk]. split; [done|]. intros x. apply IH; [|done]. etrans; [exact Hpre|]. by exists [Did c x].
    - destruct (f m) as [x m']. by apply IH. }
  by apply H.
Qed.

(** What a program does not ask for is not in what it did. *)
Lemma awp_grows {A} ok (P : call → Prop) (p : act A) (Q : A → memory → story → Prop) m h :
  only P p → awp ok p Q m h → awp ok p (λ a m' h', Q a m' h' ∧ grows P h h') m h.
Proof.
  assert (∀ h1, grows P h1 h → only P p → awp ok p Q m h → awp ok p (λ a m' h', Q a m' h' ∧ grows P h1 h') m h) as H.
  { intros h1. revert m h. induction p as [a|c k IH|T f k IH]; intros m h Hg Hp; simpl in *; [by intros| |].
    - destruct Hp as [Hc Hp]. intros [Ho Hk]. split; [done|]. intros x. apply IH; [by apply grows_snoc|done..].
    - destruct (f m) as [x m']. by apply IH. }
  apply H, grows_refl.
Qed.

(** A claim that is held stays held. *)
Lemma awp_held {A} (ok : story → call → Prop) key op (p : act A) (Q : A → memory → story → Prop) m h :
  (∀ h c, ok h c → c ≠ Release key) → holds key op h → awp ok p Q m h →
  awp (λ h c, holds key op h ∧ ok h c) p (λ a m' h', holds key op h' ∧ Q a m' h') m h.
Proof.
  intros Hr. revert m h. induction p as [a|c k IH|T f k IH]; intros m h Hh; simpl; [done| |].
  - intros [Hc Hk]. split; [done|]. intros x. apply IH; [apply holds_snoc; [done|by eapply Hr]|done].
  - destruct (f m) as [x m']. by apply IH.
Qed.

Lemma awp_for_each {X} ok (xs : list X) (body : X → act ()) m h :
  (∀ x m' h', x ∈ xs → h `prefix_of` h' → awp ok (body x) (λ _ _ _, True) m' h') →
  awp ok (for_each xs body) (λ _ _ h', h `prefix_of` h') m h.
Proof.
  assert (∀ h1, (∀ x m' h', x ∈ xs → h1 `prefix_of` h' → awp ok (body x) (λ _ _ _, True) m' h') →
    h1 `prefix_of` h → awp ok (for_each xs body) (λ _ _ h', h1 `prefix_of` h') m h) as H.
  { intros h1. revert m h. induction xs as [|x xs IH]; intros m h Hb Hpre; simpl; [done|].
    apply awp_bind. eapply awp_mono; [|apply awp_prefix, Hb; [by left|done]].
    intros _ m' h' [_ Hpre']. apply IH; [|by etrans]. intros x' m'' h'' Hx. apply Hb. by right. }
  intros Hb. by apply H.
Qed.

(** *** Early returns *)

(** [if err := x; err != nil { return err }]. *)
Definition or_return (x : act (option failure)) (k : act (option failure)) : act (option failure) :=
  x ≫= λ err, match err with Some e => Return (Some e) | None => k end.
Notation "x ;? k" := (or_return x k) (at level 100, k at level 200, right associativity).

(** [v, err := x; if err != nil { return err }]. *)
Definition or_return_value {A} (x : act (reply A)) (k : A → act (option failure)) : act (option failure) :=
  x ≫= λ r, match r with Bad e => Return (Some e) | Got a => k a end.

Lemma awp_or_return ok (x k : act (option failure)) (Q : option failure → memory → story → Prop) m h :
  awp ok x (λ e m' h', match e with Some e => Q (Some e) m' h' | None => awp ok k Q m' h' end) m h →
  awp ok (x ;? k) Q m h.
Proof. intros H. apply awp_bind. eapply awp_mono; [|exact H]. by intros [e|]. Qed.

Lemma awp_or_return_value {A} ok (x : act (reply A)) k (Q : option failure → memory → story → Prop) m h :
  awp ok x (λ r m' h', match r with Bad e => Q (Some e) m' h' | Got a => awp ok (k a) Q m' h' end) m h →
  awp ok (or_return_value x k) Q m h.
Proof. intros H. apply awp_bind. eapply awp_mono; [|exact H]. by intros [a|e]. Qed.

(** The answer to a request that was wrapped: an error, or the rest. *)
Ltac answered := intros [?|]; cbn [fmap option_fmap option_map awp]; cbv beta iota.

Lemma only_or_return P (x k : act (option failure)) : only P x → only P k → only P (x ;? k).
Proof. intros Hx Hk. apply only_bind; [done|]. by intros [e|]. Qed.
Lemma only_or_return_value {A} P (x : act (reply A)) k :
  only P x → (∀ a, only P (k a)) → only P (or_return_value x k).
Proof. intros Hx Hk. apply only_bind; [done|]. by intros [a|e]. Qed.
