(* ===== verification/Coordinator.v ===== *)
(** Who may work on a Project (internal/agent/backup/coordinator.go): the claims of
    one Agent process, what decides whether a backup's containers are started again,
    and that the histories of the Agent's goroutines never hold one Project at once. *)
From Stdlib Require Import ZArith.
From stdpp Require Import prelude gmap strings relations.
From S2P Require Import Prelude.
From S2P Require Import ProjectTypes.
From S2P Require Import Failures.
From S2P Require Import Stores.
From S2P Require Import Actions.
Import GoString.
Open Scope nat_scope.

Set Default Proof Using "Type".

(** ** Claims *)

#[export] Instance ResourceKey_countable : Countable ResourceKey.
Proof.
  refine (inj_countable (λ k, (rs_Namespace k, rs_Name k))
                        (λ '(ns, n), Some {| rs_Namespace := ns; rs_Name := n |}) _).
  by intros [].
Defined.

Definition ResourceKey_String (k : ResourceKey) : string := (rs_Namespace k ++ "/" ++ rs_Name k)%string.

(** The table behind the mutex; each method runs under it. *)
Notation Coordinator := (gmap ResourceKey Operation).
Definition NewCoordinator : Coordinator := ∅.

(** The release function of a granted claim, and whether its [sync.Once] is spent. *)
Record claim_release := { cr_key : ResourceKey; cr_op : Operation; cr_done : bool }.

Definition Coordinator_TryClaim (c : Coordinator) (key : ResourceKey) (op : Operation)
    : option claim_release * Coordinator :=
  match c !! key with
  | Some _ => (None, c)
  | None => (Some {| cr_key := key; cr_op := op; cr_done := false |}, <[key := op]> c)
  end.
Definition release (r : claim_release) (c : Coordinator) : claim_release * Coordinator :=
  if cr_done r then (r, c)
  else ({| cr_key := cr_key r; cr_op := cr_op r; cr_done := true |}, delete (cr_key r) c).
Definition Coordinator_IsBusy (c : Coordinator) (key : ResourceKey) : bool := bool_decide (is_Some (c !! key)).
Definition Coordinator_Current (c : Coordinator) (key : ResourceKey) : option Operation := c !! key.

(** ** After a backup *)

Inductive ExitReason := ExitSuccess | ExitFailure | ExitTimeout | ExitCancelled | ExitAgentShutdown.
Inductive Ownership :=
| OwnershipRetained | OwnershipReassigned | OwnershipTerminating | OwnershipLost | OwnershipUnknown.
#[export] Instance Ownership_eq_dec : EqDecision Ownership.
Proof. solve_decision. Defined.

Definition ShouldRestartContainers (reason : ExitReason) (ownership : Ownership) : bool :=
  match ownership with
  | OwnershipReassigned | OwnershipTerminating | OwnershipLost => false
  | OwnershipRetained | OwnershipUnknown =>
      match reason with
      | ExitSuccess | ExitFailure | ExitTimeout | ExitCancelled | ExitAgentShutdown => true
      end
  end.
Definition ExitReason_String (r : ExitReason) : string :=
  match r with
  | ExitSuccess => "Success" | ExitFailure => "Failure" | ExitTimeout => "Timeout"
  | ExitCancelled => "Cancelled" | ExitAgentShutdown => "AgentShutdown"
  end.
Definition Ownership_String (o : Ownership) : string :=
  match o with
  | OwnershipRetained => "Retained" | OwnershipReassigned => "Reassigned" | OwnershipTerminating => "Terminating"
  | OwnershipLost => "Lost" | OwnershipUnknown => "Unknown"
  end.

(** ** The coordinator and the release functions it gave out *)

Record claims := { cs_table : Coordinator; cs_given : list claim_release }.

Inductive claims_step : claims → claims → Prop :=
| step_TryClaim c given key op given' c' :
    Coordinator_TryClaim c key op = (given', c') →
    claims_step {| cs_table := c; cs_given := given |} {| cs_table := c'; cs_given := given ++ option_list given' |}
| step_release c given i r r' c' :
    given !! i = Some r → release r c = (r', c') →
    claims_step {| cs_table := c; cs_given := given |} {| cs_table := c'; cs_given := <[i := r']> given |}.

Definition no_claims : claims := {| cs_table := NewCoordinator; cs_given := [] |}.

(** The claim behind the [i]-th release function stands. *)
Definition standing (s : claims) (i : nat) (key : ResourceKey) (op : Operation) : Prop :=
  cs_given s !! i = Some {| cr_key := key; cr_op := op; cr_done := false |}.

Definition claims_inv (s : claims) : Prop :=
  (∀ key op, cs_table s !! key = Some op ↔ ∃ i, standing s i key op) ∧
  (∀ key i j op op', standing s i key op → standing s j key op' → i = j).

Lemma no_claims_inv : claims_inv no_claims.
Proof.
  unfold claims_inv, standing, no_claims, NewCoordinator. simpl. split.
  - intros key op. rewrite lookup_empty. split; [done|]. by intros [i ?].
  - intros key i j op op' H. done.
Qed.

Lemma claims_step_inv s s' : claims_step s s' → claims_inv s → claims_inv s'.
Proof.
  intros [c given key op given' c' Ht|c given i r r' c' Hi Hr] [Htab Huniq]; unfold claims_inv, standing in *; simpl in *.
  - unfold Coordinator_TryClaim in Ht. destruct (c !! key) as [op0|] eqn:Hc; simplify_eq/=.
    { rewrite app_nil_r. by split. }
    assert (∀ i k o, (given ++ [{| cr_key := key; cr_op := op; cr_done := false |}]) !! i
        = Some {| cr_key := k; cr_op := o; cr_done := false |} ↔
      given !! i = Some {| cr_key := k; cr_op := o; cr_done := false |} ∨ (i = length given ∧ k = key ∧ o = op)) as Hlk.
    { intros i k o. rewrite lookup_app_Some, list_lookup_singleton_Some. split.
      - intros [?|(? & ? & ?)]; [by left|]. simplify_eq. right. split_and!; [lia|done|done].
      - intros [?|(-> & -> & ->)]; [by left|]. right. split_and!; [lia|lia|done]. }
    split.
    + intros k o. setoid_rewrite Hlk. destruct (decide (k = key)) as [->|Hne].
      * rewrite lookup_insert_eq. split; [intros [= ->]; eauto|].
        intros (i & [Hi|(_ & _ & ->)]); [|done]. assert (c !! key = Some o) as Ho by (apply Htab; eauto). congruence.
      * rewrite lookup_insert_ne by done. rewrite Htab. split; [intros [i Hi]; eauto|].
        intros (i & [Hi|(_ & ? & _)]); [eauto|done].
    + assert (∀ i o, ¬ given !! i = Some {| cr_key := key; cr_op := o; cr_done := false |}) as Hfree.
      { intros i o Hi. assert (c !! key = Some o) as Ho by (apply Htab; eauto). congruence. }
      intros k i j o o'. rewrite !Hlk. intros [Hi|(-> & Hk & ->)] [Hj|(-> & Hk' & ->)]; [by eapply Huniq|subst k..|done];
        exfalso; by eapply Hfree.
  - unfold release in Hr. destruct r as [key op done]. simpl in Hr. destruct done; simplify_eq/=.
    { rewrite list_insert_id by done. by split. }
    assert (∀ j k o, <[i := {| cr_key := key; cr_op := op; cr_done := true |}]> given !! j
        = Some {| cr_key := k; cr_op := o; cr_done := false |} ↔
      given !! j = Some {| cr_key := k; cr_op := o; cr_done := false |} ∧ j ≠ i) as Hlk.
    { intros j k o. destruct (decide (j = i)) as [->|Hne].
      - rewrite list_lookup_insert_eq by (by eapply lookup_lt_Some). naive_solver.
      - rewrite list_lookup_insert_ne by done. naive_solver. }
    split.
    + intros k o. setoid_rewrite Hlk. destruct (decide (k = key)) as [->|Hne].
      * rewrite lookup_delete_eq. split; [done|]. intros (j & Hj & Hne). destruct Hne. by eapply Huniq.
      * rewrite lookup_delete_ne by done. rewrite Htab. split; [|naive_solver].
        intros (j & Hj). exists j. split; [done|]. intros ->. congruence.
    + intros k j1 j2 o o'. rewrite !Hlk. intros [H1 _] [H2 _]. by eapply Huniq.
Qed.

Lemma reachable_inv s : rtc claims_step no_claims s → claims_inv s.
Proof.
  intros Hs. remember no_claims as s0. assert (claims_inv s0) as H0 by (subst; apply no_claims_inv).
  clear Heqs0. induction Hs as [|s1 s2 s3 Hstep _ IH]; [done|]. apply IH. by eapply claims_step_inv.
Qed.

(** C25 (internal/agent/backup/coordinator.go, TryClaim, its release, IsBusy, Current):
    however claims and releases go on, a release called again and again or late
    included, at most one claim of a Project stands; a Project is busy exactly while
    one stands, with the operation it was granted for; a claim is granted exactly when
    none stands; and a release frees its own claim and no other. *)
Theorem claims_are_exclusive (s : claims) (key : ResourceKey) (op : Operation) :
  rtc claims_step no_claims s →
  (∀ i j op1 op2, standing s i key op1 → standing s j key op2 → i = j ∧ op1 = op2) ∧
  (Coordinator_IsBusy (cs_table s) key = true ↔ ∃ i op', standing s i key op') ∧
  (∀ op', Coordinator_Current (cs_table s) key = Some op' ↔ ∃ i, standing s i key op') ∧
  (is_Some (Coordinator_TryClaim (cs_table s) key op).1 ↔ ¬ ∃ i op', standing s i key op') ∧
  (∀ i r, cs_given s !! i = Some r → ∀ key' j op',
     standing {| cs_table := (release r (cs_table s)).2; cs_given := <[i := (release r (cs_table s)).1]> (cs_given s) |}
       j key' op' ↔ standing s j key' op' ∧ j ≠ i).
Proof.
  intros [Htab Huniq]%reachable_inv. split_and!.
  - intros i j op1 op2 H1 H2. pose proof (Huniq _ _ _ _ _ H1 H2) as ->. unfold standing in *. by simplify_eq.
  - unfold Coordinator_IsBusy. rewrite bool_decide_eq_true. split.
    + intros [op' Hop]. apply Htab in Hop as [i Hi]. eauto.
    + intros (i & op' & Hi). exists op'. apply Htab. eauto.
  - intros op'. apply Htab.
  - unfold Coordinator_TryClaim. destruct (cs_table s !! key) as [op0|] eqn:Hc; simpl; split.
    + by intros [? ?].
    + intros Hn. exfalso. apply Hn. apply Htab in Hc as [i Hi]. eauto.
    + intros _ (i & op' & Hi). assert (cs_table s !! key = Some op') by (apply Htab; eauto). congruence.
    + by eexists.
  - intros i r Hi key' j op'. unfold standing, release. simpl. destruct (decide (j = i)) as [->|Hne].
    + destruct (cr_done r) eqn:Hd; simpl; rewrite list_lookup_insert_eq by (by eapply lookup_lt_Some);
        naive_solver.
    + rewrite list_lookup_insert_ne by done. naive_solver.
Qed.

Lemma claims_are_exclusive_witness :
  let key := {| rs_Namespace := "default"; rs_Name := "web" |} in
  let s := {| cs_table := {[ key := OpBackup ]};
              cs_given := [{| cr_key := key; cr_op := OpBackup; cr_done := false |}] |} in
  Coordinator_Current (cs_table s) key = Some OpBackup ∧
  (∀ i j op1 op2, standing s i key op1 → standing s j key op2 → i = j ∧ op1 = op2).
Proof.
  intros key s. split; [vm_compute; reflexivity|].
  refine (proj1 (claims_are_exclusive s key OpRestore _)).
  apply rtc_once. exact (step_TryClaim NewCoordinator [] key OpBackup _ _ eq_refl).
Defined.

(** ** The goroutines of an Agent *)

Definition of_goroutine (i : nat) (tr : list (nat * happening)) : story :=
  omap (λ e, if Nat.eqb e.1 i then Some e.2 else None) tr.

Definition coordinator_answered (c : Coordinator) (e : happening) : Prop :=
  match e with
  | Did (TryClaim key op) ok => ok = bool_decide (is_Some (Coordinator_TryClaim c key op).1)
  | Did (IsBusy key) busy => busy = Coordinator_IsBusy c key
  | _ => True
  end.
Definition coordinator_after (c : Coordinator) (e : happening) : Coordinator :=
  match e with
  | Did (TryClaim key op) _ => (Coordinator_TryClaim c key op).2
  | Did (Release key) _ => delete key c
  | _ => c
  end.

(** An interleaving of goroutines over one coordinator, in which each releases only
    what it holds. *)
Inductive coordinated : list (nat * happening) → Coordinator → Prop :=
| coordinated_start : coordinated [] NewCoordinator
| coordinated_event tr c i e :
    coordinated tr c → coordinator_answered c e →
    (∀ key, call_of e = Release key → ∃ op, holds key op (of_goroutine i tr)) →
    coordinated (tr ++ [(i, e)]) (coordinator_after c e).

Lemma holds_snoc_inv key op h e :
  holds key op (h ++ [e]) → e = Did (TryClaim key op) true ∨ (holds key op h ∧ call_of e ≠ Release key).
Proof.
  intros (h1 & h2 & Heq & Hh). destruct h2 as [|e' h2 _] using rev_ind.
  - apply app_inj_tail in Heq as [_ ->]. by left.
  - rewrite app_comm_cons, app_assoc in Heq. apply app_inj_tail in Heq as [-> ->]. right.
    apply Forall_app in Hh as [Hh He]. split; [by exists h1, h2|]. by inversion_clear He.
Qed.

Lemma of_goroutine_snoc i j tr e :
  of_goroutine i (tr ++ [(j, e)]) = of_goroutine i tr ++ (if Nat.eqb j i then [e] else []).
Proof. unfold of_goroutine. rewrite omap_app. simpl. by destruct (Nat.eqb j i). Qed.

Lemma coordinated_holds tr c :
  coordinated tr c →
  (∀ key i op, holds key op (of_goroutine i tr) → c !! key = Some op) ∧
  (∀ key i j op op', holds key op (of_goroutine i tr) → holds key op' (of_goroutine j tr) → i = j).
Proof.
  induction 1 as [|tr c g e Hco [Htab Huniq] Ha Hr].
  { split; [intros key i op H|intros key i j op op' H]; by apply not_holds_nil in H. }
  assert (∀ key i op, holds key op (of_goroutine i (tr ++ [(g, e)])) →
    (g = i ∧ e = Did (TryClaim key op) true ∧ c !! key = None) ∨
    (holds key op (of_goroutine i tr) ∧ call_of e ≠ Release key)) as Hcase.
  { intros key i op. rewrite of_goroutine_snoc. destruct (Nat.eqb g i) eqn:Hg.
    - apply Nat.eqb_eq in Hg as <-. intros [->|H]%holds_snoc_inv; [left|by right]. split_and!; [done|done|].
      simpl in Ha. unfold Coordinator_TryClaim in Ha. destruct (c !! key); [|done].
      symmetry in Ha. apply bool_decide_eq_true in Ha as [? Ha]. done.
    - rewrite app_nil_r. intros H. right. split; [done|]. intros Hrel. destruct (Hr _ Hrel) as [op' H'].
      apply Nat.eqb_neq in Hg. by apply Hg, (Huniq key g i op' op). }
  split.
  - intros key i op [(_ & -> & Hn)|[H Hrel]]%Hcase.
    + simpl. unfold Coordinator_TryClaim. rewrite Hn. apply lookup_insert_eq.
    + apply Htab in H. destruct e as [q x]. simpl in *. destruct q; try done.
      * unfold Coordinator_TryClaim. destruct (c !! key0) as [?|] eqn:Hk; [done|]. simpl.
        destruct (decide (key0 = key)) as [->|?]; [congruence|by rewrite lookup_insert_ne].
      * rewrite lookup_delete_ne; [done|]. congruence.
  - intros key i j op op' [(<- & -> & Hn)|[H Hrel]]%Hcase [(<- & He & Hn')|[H' Hrel']]%Hcase.
    + done.
    + apply Htab in H'. congruence.
    + apply Htab in H. congruence.
    + by eapply Huniq.
Qed.

(** What a protocol allows only under a claim, no two goroutines do at once: in any
    interleaving over one coordinator at most one goroutine holds a Project, and
    while it does the Project is busy. *)
Theorem holders_exclusive tr c key i op :
  coordinated tr c → holds key op (of_goroutine i tr) →
  Coordinator_IsBusy c key = true ∧
  ∀ j op', holds key op' (of_goroutine j tr) → j = i ∧ op' = op.
Proof.
  intros Hco H. destruct (coordinated_holds tr c Hco) as [Htab Huniq]. split.
  - unfold Coordinator_IsBusy. apply bool_decide_eq_true. exists op. by eapply Htab.
  - intros j op' H'. pose proof (Huniq _ _ _ _ _ H' H) as ->. apply Htab in H, H'. split; [done|congruence].
Qed.
