(* ===== verification/Retention.v ===== *)
(** Which backup generations are deleted (internal/agent/backup/retention.go): after a
    commit, those of this Project beyond the newest seven, and uploads that were
    abandoned before them. *)
From Stdlib Require Import ZArith Lia.
From stdpp Require Import prelude gmap strings sorting.
From S2P Require Import Prelude.
From S2P Require Import ProjectTypes.
From S2P Require Import Strconv.
From S2P Require Import Failures.
From S2P Require Import Paths.
From S2P Require Import Engine.
From S2P Require Import Stores.
From S2P Require Import Actions.
Import GoTime GoInt GoString.
Open Scope nat_scope.

Set Default Proof Using "Type".

Definition RetainGenerations : nat := 7.

Record generationObjects := { go_id : string; go_keys : list string }.

Definition is_manifest (key : string) : bool := bool_decide (path_base key = manifestFileName).
Definition generation_manifestKey (g : generationObjects) : string :=
  default EmptyString (find_first is_manifest (go_keys g)).

(** The generation an object belongs to; none without a slash after its name. *)
Definition generation_id (prefix key : string) : option string :=
  match split_slash (TrimPrefix key prefix) with id :: _ :: _ => Some id | _ => None end.

(** The map of objects by generation. *)
Definition byID_add (prefix : string) (m : gmap string (list string)) (key : string) : gmap string (list string) :=
  match generation_id prefix key with
  | None => m
  | Some id => <[id := default [] (m !! id) ++ [key]]> m
  end.
Definition byID (prefix : string) (objects : list string) : gmap string (list string) :=
  foldl (byID_add prefix) ∅ objects.

(** The UID a manifest names, empty when it cannot be read. *)
Definition manifestUID (key : string) : act string :=
  call_ (Store (StoreOpen key)) ≫= λ err,
  match (err : option failure) with
  | Some _ => Return EmptyString
  | None =>
      call_ (Store (StoreManifest key)) ≫= λ r,
      Return (match (r : reply Manifest) with Bad _ => EmptyString | Got m => mf_ProjectUID m end)
  end.

Fixpoint delete_keys (keys : list string) : act () :=
  match keys with
  | [] => skip
  | k :: rest =>
      call_ (Store (StoreDelete k)) ≫= λ err,
      match (err : option failure) with Some _ => skip | None => delete_keys rest end
  end.

(** The stable sort that puts manifests before everything else. *)
Definition manifests_first (keys : list string) : list string :=
  filter (λ k, is_manifest k = true) keys ++ filter (λ k, is_manifest k = false) keys.
Definition deleteGeneration (g : generationObjects) : act () := delete_keys (manifests_first (go_keys g)).

(** Ours and the abandoned ones, in the order of the range. *)
Fixpoint sort_out (uid : string) (gens ours abandoned : list generationObjects)
    : act (list generationObjects * list generationObjects) :=
  match gens with
  | [] => Return (ours, abandoned)
  | g :: rest =>
      if decide (generation_manifestKey g = EmptyString) then sort_out uid rest ours (abandoned ++ [g])
      else
        manifestUID (generation_manifestKey g) ≫= λ named,
        if decide (named = uid) then sort_out uid rest (ours ++ [g]) abandoned
        else sort_out uid rest ours abandoned
  end.

(** Backup IDs, descending. *)
Definition newest_first (g1 g2 : generationObjects) : Prop := string_order (go_id g2) (go_id g1).
#[export] Instance newest_first_dec : RelDecision newest_first.
Proof. intros x y. unfold newest_first. apply _. Defined.

Definition prune_listed (backupID committed : string) (ours abandoned : list generationObjects) : act () :=
  let ours := merge_sort newest_first ours in
  if Nat.ltb (length ours) RetainGenerations then skip
  else
    for_each (drop RetainGenerations ours) (λ g,
      if decide (go_id g = backupID ∨ go_id g = committed) then skip else deleteGeneration g) ≫= λ _,
    let oldestKept := default EmptyString (go_id <$> ours !! (RetainGenerations - 1)) in
    for_each abandoned (λ g, if String.ltb (go_id g) oldestKept then deleteGeneration g else skip).

Definition snapshots (prefix : string) : string := (prefix ++ "/snapshots/")%string.

Definition pruneGenerations {order : MapOrder} (p : Project) (backupID : string) : act () :=
  let uid := om_UID (p_Meta p) in
  if decide (uid = EmptyString) then skip
  else
    match ProjectPrefix (om_Namespace (p_Meta p)) (om_Name (p_Meta p)) with
    | Bad _ => skip
    | Got prefix =>
        call_ (Store (StoreList (snapshots prefix))) ≫= λ r,
        match (r : reply (list string)) with
        | Bad _ => skip
        | Got objects =>
            let gens := byID (snapshots prefix) objects in
            sort_out uid ((λ id, {| go_id := id; go_keys := default [] (gens !! id) |}) <$>
              map_order (map_to_list gens).*1) [] [] ≫= λ '(ours, abandoned),
            prune_listed backupID (CommittedBackupID (st_Recovery (p_Status p))) ours abandoned
        end
    end.

Example generation_id_forms :
  generation_id "cara/v1/projects/default/web/snapshots/"
    "cara/v1/projects/default/web/snapshots/20260724T140000Z-6e27c7b2/db.tar.gz" = Some "20260724T140000Z-6e27c7b2"%string ∧
  generation_id "p/" "p/stray" = None.
Proof. split; vm_compute; reflexivity. Qed.

(** ** The objects of a generation *)

Definition of_generation (prefix id : string) (objects : list string) : list string :=
  filter (λ k, generation_id prefix k = Some id) objects.

Lemma byID_lookup prefix objects id :
  byID prefix objects !! id =
    match of_generation prefix id objects with [] => None | keys => Some keys end.
Proof.
  unfold byID, of_generation. induction objects as [|k objects IH] using rev_ind; [done|].
  rewrite foldl_app, filter_app. simpl. unfold byID_add at 1. rewrite filter_cons, filter_nil.
  destruct (generation_id prefix k) as [id'|] eqn:E.
  - destruct (decide (id' = id)) as [->|Hne].
    + rewrite lookup_insert_eq, IH, decide_True by done. by destruct (filter _ objects).
    + rewrite lookup_insert_ne, IH, decide_False by (done || congruence). by rewrite app_nil_r.
  - rewrite IH, decide_False by done. by rewrite app_nil_r.
Qed.

(** The generations a range visits: each once, with all its objects. *)
Definition listed_generation (prefix : string) (objects : list string) (g : generationObjects) : Prop :=
  go_keys g = of_generation prefix (go_id g) objects ∧ go_keys g ≠ [].

Lemma ranged_generations {order : MapOrder} prefix objects :
  let gens := byID prefix objects in
  let visited := (λ id, {| go_id := id; go_keys := default [] (gens !! id) |}) <$>
                   map_order (map_to_list gens).*1 in
  Forall (listed_generation prefix objects) visited ∧ NoDup (go_id <$> visited).
Proof.
  intros gens visited. split.
  - subst visited. apply Forall_fmap, Forall_forall. intros id Hid. rewrite map_order_perm in Hid.
    apply list_elem_of_fmap in Hid as ([id' keys] & -> & Hk%elem_of_map_to_list). unfold listed_generation. simpl.
    rewrite Hk. simpl. unfold gens in Hk. rewrite byID_lookup in Hk.
    destruct (of_generation _ _ _) eqn:E; [done|]. by simplify_eq.
  - subst visited. rewrite <- list_fmap_compose. simpl. unfold compose. simpl. rewrite list_fmap_id, map_order_perm.
    apply NoDup_fst_map_to_list.
Qed.

(** ** The order *)

(** Whatever stands before an object that is no manifest, the manifests do. *)
Lemma manifests_before keys l1 k l2 k' :
  manifests_first keys = l1 ++ k :: l2 → is_manifest k = false → k' ∈ keys → is_manifest k' = true → k' ∈ l1.
Proof.
  unfold manifests_first. intros Heq Hk Hin Hk'.
  assert (k' ∈ filter (λ k, is_manifest k = true) keys) as Hf by by apply list_elem_of_filter.
  apply app_eq_inv in Heq as [([|k1 l] & Heq1 & Heq2)|(l & -> & Heq)].
  - by rewrite app_nil_r in Heq1; rewrite <- Heq1.
  - simplify_eq/=. assert (k1 ∈ filter (λ k, is_manifest k = true) keys) as H1.
    { rewrite Heq1. apply elem_of_app. right. by left. }
    apply list_elem_of_filter in H1 as [H1 _]. congruence.
  - apply elem_of_app. by left.
Qed.

Lemma elem_of_take_inv {A} n (xs : list A) x : x ∈ take n xs → x ∈ xs.
Proof. intros H. rewrite <- (take_drop n xs). apply elem_of_app. by left. Qed.
Lemma elem_of_drop_inv {A} n (xs : list A) x : x ∈ drop n xs → x ∈ xs.
Proof. intros H. rewrite <- (take_drop n xs). apply elem_of_app. by right. Qed.

(** What is kept is newer than what is dropped, and not older than the oldest kept. *)
Lemma newer_above n gs g g' :
  StronglySorted newest_first gs → NoDup (go_id <$> gs) → g ∈ drop n gs → g' ∈ take n gs →
  String.ltb (go_id g) (go_id g') = true.
Proof.
  intros Hs Hnd Hg Hg'. apply ltb_spec. rewrite <- (take_drop n gs) in Hs, Hnd. split.
  - exact (StronglySorted_app_1_elem_of _ _ _ _ _ Hs Hg' Hg).
  - rewrite fmap_app, NoDup_app in Hnd. destruct Hnd as (_ & Hd & _). intros Heq.
    apply (Hd (go_id g')); [by apply list_elem_of_fmap_2|]. rewrite <- Heq. by apply list_elem_of_fmap_2.
Qed.
Lemma oldest_bound gs id g :
  StronglySorted newest_first gs → RetainGenerations ≤ length gs → g ∈ take RetainGenerations gs →
  String.ltb id (default EmptyString (go_id <$> gs !! (RetainGenerations - 1))) = true →
  String.ltb id (go_id g) = true.
Proof.
  intros Hs Hlen Hg Hlt. destruct (lookup_lt_is_Some_2 gs (RetainGenerations - 1)) as [o Ho]; [unfold RetainGenerations in *; lia|].
  rewrite Ho in Hlt. simpl in Hlt. apply list_elem_of_lookup in Hg as [i Hi].
  apply lookup_take_Some in Hi as [Hi Hlti].
  assert (string_order (go_id o) (go_id g)) as Hle.
  { destruct (decide (i = RetainGenerations - 1)) as [->|Hne]; [simplify_eq; apply string_order_refl|].
    rewrite <- (take_drop (RetainGenerations - 1) gs) in Hs.
    apply (StronglySorted_app_1_elem_of _ _ _ _ _ Hs); apply list_elem_of_lookup.
    - exists i. rewrite lookup_take_Some. split; [done|lia].
    - exists 0. rewrite lookup_drop. by rewrite Nat.add_0_r. }
  apply ltb_spec in Hlt as [Hlt Hne]. apply ltb_spec. split; [by eapply leb_trans|].
  intros ->. apply Hne. by apply String.leb_antisym.
Qed.

(** ** What may be deleted *)

Section retention.
Context (p : Project) (backupID : string).
Notation uid := (om_UID (p_Meta p)).

Definition listed (prefix : string) (objects : list string) (h : story) : Prop :=
  ProjectPrefix (om_Namespace (p_Meta p)) (om_Name (p_Meta p)) = Got prefix ∧
  Did (Store (StoreList (snapshots prefix))) (Got objects) ∈ h.

(** A manifest among the objects of the generation was read, and names this Project's
    lifetime. *)
Definition ours (prefix : string) (objects : list string) (id : string) (h : story) : Prop :=
  ∃ k m, k ∈ of_generation (snapshots prefix) id objects ∧ is_manifest k = true ∧
    Did (Store (StoreManifest k)) (Got m) ∈ h ∧ mf_ProjectUID m = uid.

(** As many generations as are kept are ours and later. *)
Definition outlived (prefix : string) (objects : list string) (id : string) (h : story) : Prop :=
  ∃ newer, NoDup newer ∧ length newer = RetainGenerations ∧
    ∀ id', id' ∈ newer → ours prefix objects id' h ∧ String.ltb id id' = true.

(** What may be deleted: ours, and neither the one just committed nor the one the
    server names; or an upload without a manifest. *)
Definition deletable (prefix : string) (objects : list string) (id : string) (h : story) : Prop :=
  outlived prefix objects id h ∧
  (ours prefix objects id h ∧ id ≠ backupID ∧ id ≠ CommittedBackupID (st_Recovery (p_Status p)) ∨
   ∀ k, k ∈ of_generation (snapshots prefix) id objects → is_manifest k = false).

Definition prune_allowed (h : story) (c : call) : Prop :=
  match c with
  | Store (StoreList prefix) =>
      ∃ prefix', ProjectPrefix (om_Namespace (p_Meta p)) (om_Name (p_Meta p)) = Got prefix' ∧
        prefix = snapshots prefix' ∧ uid ≠ EmptyString
  | Store (StoreOpen k) | Store (StoreManifest k) =>
      ∃ prefix objects, listed prefix objects h ∧ k ∈ objects ∧ is_manifest k = true
  | Store (StoreDelete k) =>
      ∃ prefix objects id, listed prefix objects h ∧ k ∈ of_generation (snapshots prefix) id objects ∧
        deletable prefix objects id h ∧
        (is_manifest k = false → ∀ k', k' ∈ of_generation (snapshots prefix) id objects → is_manifest k' = true →
           Did (Store (StoreDelete k')) None ∈ h)
  | _ => False
  end.

Lemma listed_later prefix objects h h' : h `prefix_of` h' → listed prefix objects h → listed prefix objects h'.
Proof. intros Hp [H1 H2]. split; [done|by eapply seen_prefix]. Qed.
Lemma ours_later prefix objects id h h' : h `prefix_of` h' → ours prefix objects id h → ours prefix objects id h'.
Proof. intros Hp (k & m & H1 & H2 & H3 & H4). exists k, m. split_and!; [done|done|by eapply seen_prefix|done]. Qed.
Lemma deletable_later prefix objects id h h' :
  h `prefix_of` h' → deletable prefix objects id h → deletable prefix objects id h'.
Proof.
  intros Hp [(newer & H1 & H2 & H3) H4]. split.
  - exists newer. split_and!; [done|done|]. intros id' Hid. destruct (H3 _ Hid). split; [by eapply ours_later|done].
  - destruct H4 as [[H4 H5]|H4]; [left|by right]. split; [by eapply ours_later|done].
Qed.

(** Manifests first: whenever another object goes, the manifests went. *)
Lemma awp_delete_keys prefix objects id keys m h :
  listed prefix objects h → deletable prefix objects id h →
  (∀ k, k ∈ keys → k ∈ of_generation (snapshots prefix) id objects) →
  (∀ l1 k l2, keys = l1 ++ k :: l2 → is_manifest k = false →
     ∀ k', k' ∈ of_generation (snapshots prefix) id objects → is_manifest k' = true →
     k' ∈ l1 ∨ Did (Store (StoreDelete k')) None ∈ h) →
  awp prune_allowed (delete_keys keys) (λ _ _ _, True) m h.
Proof.
  revert m h. induction keys as [|k keys IH]; intros m h Hl Hd Hin Hman; [done|]. apply awp_call_bind.
  - exists prefix, objects, id. split_and!; [done|apply Hin; by left|done|].
    intros Hk k' Hk' Hm. destruct (Hman [] k keys eq_refl Hk k' Hk' Hm) as [?%elem_of_nil|?]; done.
  - intros [e|]; [done|]. apply IH.
    + eapply listed_later; [|done]. later.
    + eapply deletable_later; [|done]. later.
    + intros k' Hk'. apply Hin. by right.
    + intros l1 k1 l2 -> Hk1 k' Hk' Hm. destruct (Hman (k :: l1) k1 l2 eq_refl Hk1 k' Hk' Hm) as [Hk2|?].
      * apply elem_of_cons in Hk2 as [->|?]; [right; apply seen_last|by left].
      * right. by apply seen_app.
Qed.

Lemma awp_deleteGeneration prefix objects g m h :
  listed prefix objects h → listed_generation (snapshots prefix) objects g →
  deletable prefix objects (go_id g) h →
  awp prune_allowed (deleteGeneration g) (λ _ _ _, True) m h.
Proof.
  intros Hl [Hk _] Hd. apply (awp_delete_keys prefix objects (go_id g)); [done|done| |]; rewrite Hk.
  - unfold manifests_first. intros k [?%list_elem_of_filter|?%list_elem_of_filter]%elem_of_app; naive_solver.
  - intros l1 k l2 Heq Hm k' Hk' Hm'. left. by eapply manifests_before.
Qed.

Lemma awp_manifestUID prefix objects id k (Q : string → memory → story → Prop) m h :
  listed prefix objects h → k ∈ of_generation (snapshots prefix) id objects → is_manifest k = true →
  (∀ named h', h `prefix_of` h' → (named = uid → uid ≠ EmptyString → ours prefix objects id h') → Q named m h') →
  awp prune_allowed (manifestUID k) Q m h.
Proof.
  intros Hl Hk Hm HQ. assert (∀ h', h `prefix_of` h' → ∃ prefix objects, listed prefix objects h' ∧ k ∈ objects ∧
    is_manifest k = true) as Hok.
  { intros h' Hp. exists prefix, objects. split_and!; [by eapply listed_later| |done].
    by apply list_elem_of_filter in Hk as [_ ?]. }
  apply awp_call_bind; [by apply Hok|]. intros [e|].
  { apply HQ; [later|]. intros <- []. done. }
  apply awp_call_bind; [apply Hok; later|]. intros [mf|e].
  - apply HQ; [later|]. intros Hu _. exists k, mf. split_and!; [done|done|apply seen_last|done].
  - apply HQ; [later|]. intros <- []. done.
Qed.

Notation known prefix objects h :=
  (Forall (λ g, listed_generation (snapshots prefix) objects g ∧ ours prefix objects (go_id g) h)).
Notation bare prefix objects :=
  (Forall (λ g, listed_generation (snapshots prefix) objects g ∧
     ∀ k, k ∈ of_generation (snapshots prefix) (go_id g) objects → is_manifest k = false)).

Lemma known_later prefix objects h h' gs : h `prefix_of` h' → known prefix objects h gs → known prefix objects h' gs.
Proof. intros Hp H. eapply Forall_impl; [exact H|]. intros g [Hg Ho]. split; [done|by eapply ours_later]. Qed.

Lemma manifestKey_found g :
  generation_manifestKey g ≠ EmptyString →
  generation_manifestKey g ∈ go_keys g ∧ is_manifest (generation_manifestKey g) = true.
Proof.
  unfold generation_manifestKey. destruct (find_first _ _) eqn:E; [|done]. intros _. by apply find_first_Some in E.
Qed.
Lemma manifestKey_empty g k :
  generation_manifestKey g = EmptyString → k ∈ go_keys g → is_manifest k = false.
Proof.
  unfold generation_manifestKey. destruct (find_first _ _) eqn:E; simpl.
  - apply find_first_Some in E as [_ E]. intros ->. by vm_compute in E.
  - intros _ Hk. by apply (find_first_None is_manifest (go_keys g)).
Qed.

Lemma awp_sort_out prefix objects gens os abandoned
    (Q : list generationObjects * list generationObjects → memory → story → Prop) m h :
  uid ≠ EmptyString → listed prefix objects h → Forall (listed_generation (snapshots prefix) objects) gens →
  known prefix objects h os → bare prefix objects abandoned → NoDup (go_id <$> os ++ gens) →
  (∀ os' abandoned' h', h `prefix_of` h' → known prefix objects h' os' → bare prefix objects abandoned' →
     NoDup (go_id <$> os') → Q (os', abandoned') m h') →
  awp prune_allowed (sort_out uid gens os abandoned) Q m h.
Proof.
  intros Hu Hl Hg. revert os abandoned h Hl. induction Hg as [|g gens [Hk Hne] Hg IH]; intros os abandoned h Hl Ho Hb Hnd HQ.
  { apply HQ; [done|done|done|]. by rewrite app_nil_r in Hnd. }
  assert (NoDup (go_id <$> os ++ gens)) as Hnd'.
  { eapply sublist_NoDup; [exact Hnd|]. apply fmap_sublist, sublist_app; [done|]. by apply sublist_cons. }
  cbn [sort_out]. case_decide as He.
  - apply IH; [done|done| |done|done]. apply Forall_app. split; [done|]. constructor; [|done].
    split; [by split|]. intros k. rewrite <- Hk. by apply manifestKey_empty.
  - apply manifestKey_found in He as [Hin Hm]. apply awp_bind. rewrite Hk in Hin.
    eapply awp_manifestUID; [done|exact Hin|done|]. intros named h1 Hp1 Hours.
    assert (known prefix objects h1 os) as Ho1 by by eapply known_later.
    assert (listed prefix objects h1) as Hl1 by by eapply listed_later.
    case_decide as Hn; (apply IH; [done| |done| |intros os' ab' h' Hp ???; apply HQ; [later|done|done|done]]).
    + apply Forall_app. split; [done|]. constructor; [|done]. split; [by split|by apply Hours].
    + by rewrite <- app_assoc.
    + done.
    + done.
Qed.

Lemma awp_prune_listed prefix objects os abandoned m h :
  listed prefix objects h → known prefix objects h os → bare prefix objects abandoned → NoDup (go_id <$> os) →
  awp prune_allowed (prune_listed backupID (CommittedBackupID (st_Recovery (p_Status p))) os abandoned)
    (λ _ _ _, True) m h.
Proof.
  intros Hl Ho Hb Hnd. unfold prune_listed. cbv zeta. set (sorted := merge_sort newest_first os).
  assert (sorted ≡ₚ os) as Hperm by apply merge_sort_Permutation.
  assert (StronglySorted newest_first sorted) as Hs.
  { apply StronglySorted_merge_sort.
    - intros x y z H1 H2. unfold newest_first in *. by etrans.
    - intros x y. unfold newest_first. apply total, _. }
  destruct (Nat.ltb (length sorted) RetainGenerations) eqn:Hlen; [done|]. apply Nat.ltb_ge in Hlen.
  assert (known prefix objects h sorted) as Ho' by by rewrite Hperm.
  assert (NoDup (go_id <$> sorted)) as Hnd' by by rewrite Hperm.
  assert (∀ id h', h `prefix_of` h' → (∀ g, g ∈ take RetainGenerations sorted → String.ltb id (go_id g) = true) →
    outlived prefix objects id h') as Hout.
  { intros id h' Hp Hlt. exists (go_id <$> take RetainGenerations sorted). split_and!.
    - eapply sublist_NoDup; [exact Hnd'|]. apply fmap_sublist, sublist_take.
    - rewrite length_fmap, length_take. lia.
    - intros id' (g & -> & Hin)%list_elem_of_fmap. split; [|by apply Hlt].
      eapply ours_later; [exact Hp|]. rewrite Forall_forall in Ho'. eapply Ho', elem_of_take_inv, Hin. }
  apply awp_bind. eapply awp_mono; [|apply awp_for_each].
  - intros [] m1 h1 Hp1. simpl in Hp1. eapply awp_mono; [by intros|]. apply awp_for_each. intros g m2 h2 Hg Hp2.
    destruct (String.ltb _ _) eqn:Hlt; [|done]. rewrite Forall_forall in Hb. destruct (Hb g Hg) as [Hlg Hbare].
    apply (awp_deleteGeneration prefix objects); [by eapply listed_later; [|exact Hl]; later|done|].
    split; [|by right]. apply Hout; [later|]. intros g' Hg'. eapply oldest_bound; done.
  - intros g m1 h1 Hg Hp1. case_decide as Hpr; [done|].
    assert (g ∈ sorted) as Hgs by by eapply elem_of_drop_inv.
    rewrite Forall_forall in Ho'. destruct (Ho' g Hgs) as [Hlg Hours].
    apply (awp_deleteGeneration prefix objects); [by eapply listed_later|done|]. split.
    + apply Hout; [done|]. intros g' Hg'. by eapply newer_above.
    + left. split_and!; [by eapply ours_later|naive_solver|naive_solver].
Qed.

Lemma awp_pruneGenerations {order : MapOrder} m h :
  awp prune_allowed (pruneGenerations p backupID) (λ _ _ _, True) m h.
Proof.
  unfold pruneGenerations. cbv zeta. case_decide as Hu; [done|].
  destruct (ProjectPrefix _ _) as [prefix|e] eqn:Ep; [|done]. apply awp_call_bind; [by exists prefix|].
  intros [objects|e]; [|done]. set (h1 := h ++ _).
  assert (listed prefix objects h1) as Hl by (split; [done|apply seen_last]).
  destruct (ranged_generations (snapshots prefix) objects) as [Hg Hnd].
  apply awp_bind. apply (awp_sort_out prefix objects); [done|done|done|done|done|done|].
  intros os ab h2 Hp2 Ho Hb Hnd2. cbv beta iota. apply (awp_prune_listed prefix objects); [|done|done|done].
  by eapply listed_later.
Qed.
End retention.
