(* ===== verification/DockerOwnership.v ===== *)
(** Which Docker resources are an assignment's (internal/agent/docker/client.go and
    assignment_cleanup.go): the labels they carry, the checks against them, the
    filters they are listed by, and the helpers that act on one resource after a
    check. *)
From Stdlib Require Import ZArith.
From stdpp Require Import prelude gmap strings.
From S2P Require Import Prelude.
From S2P Require Import ProjectTypes.
From S2P Require Import Strconv.
From S2P Require Import Failures.
From S2P Require Import Paths.
From S2P Require Import Tracker.
From S2P Require Import Engine.
From S2P Require Import Actions.
Import GoTime GoInt GoString.
Open Scope nat_scope.

Set Default Proof Using "Type".

(** One request to the engine. *)
Definition dock (c : docker_call) : act (docker_answer c) := call_ (Docker c).

Definition stopTimeoutSeconds : Z := 10.
Definition VolumeName (projectName volumeName : string) : string :=
  ("cara-" ++ projectName ++ "-" ++ volumeName)%string.
Definition generationLabel (generation : Z) : string := FormatInt generation.

(** ** Owners *)

Record containerOwner := { co_Namespace : string; co_Project : string; co_UID : string; co_Generation : Z }.
Definition ownerOf (p : Project) : containerOwner :=
  {| co_Namespace := om_Namespace (p_Meta p); co_Project := om_Name (p_Meta p); co_UID := om_UID (p_Meta p);
     co_Generation := st_AssignmentGeneration (p_Status p) |}.

Definition checkOwnershipLabels (name : string) (ls : labels) (owner : containerOwner) (service : string)
    : option failure :=
  let mismatch label want := Some (ContainerNotOwnedError name service label want (lbl ls label)) in
  if decide (lbl ls labelProject ≠ co_Project owner) then mismatch labelProject (co_Project owner)
  else if decide (lbl ls labelService ≠ service) then mismatch labelService service
  else if decide (lbl ls labelNamespace ≠ co_Namespace owner) then mismatch labelNamespace (co_Namespace owner)
  else if decide (lbl ls labelUID ≠ co_UID owner) then mismatch labelUID (co_UID owner)
  else
    let want := generationLabel (co_Generation owner) in
    if decide (lbl ls labelGeneration ≠ want) then mismatch labelGeneration want else None.

Definition labelsOf (info : ContainerJSON) : labels := default ∅ (cj_Labels info).
Definition checkContainerOwnership (name : string) (info : ContainerJSON) (owner : containerOwner) (service : string)
    : option failure :=
  checkOwnershipLabels name (labelsOf info) owner service.

(** What a network or volume found under a derived name must carry to be adopted. *)
Definition validateOwnership (kind name : string) (ls : labels) (project : ProjectIdentity) : option failure :=
  let what := (kind ++ " " ++ Quote name)%string in
  let namespace := lbl ls labelNamespace in
  if decide (lbl ls labelProject ≠ pi_Name project) then
    Some (Text (what ++ ": Cara project ownership label does not match")%string)
  else if decide (namespace ≠ EmptyString ∧ namespace ≠ pi_Namespace project) then
    Some (Text (what ++ ": namespace ownership label does not match")%string)
  else if decide (pi_UID project ≠ EmptyString ∧ lbl ls labelUID ≠ pi_UID project) then
    Some (Text (what ++ ": UID ownership label " ++ Quote (lbl ls labelUID)
                ++ " does not match current Project UID " ++ Quote (pi_UID project))%string)
  else None.
Definition validateNetworkOwnership (netName : string) (ls : labels) (project : ProjectIdentity) : option failure :=
  validateOwnership "network" netName ls project.

(** ** Filters *)

Definition label_is (key value : string) : string := (key ++ "=" ++ value)%string.
Definition resourceOwnershipFilters (project : ProjectIdentity) : list string :=
  [label_is labelProject (pi_Name project); label_is labelNamespace (pi_Namespace project)] ++
  (if decide (pi_UID project = EmptyString) then [] else [label_is labelUID (pi_UID project)]).
Definition containerOwnershipFilters (project : ProjectIdentity) : list string :=
  [label_is labelProject (pi_Name project); label_is labelNamespace (pi_Namespace project); labelService] ++
  (if decide (pi_UID project = EmptyString) then [] else [label_is labelUID (pi_UID project)]).

Definition lifetime_identity (a : Assignment) : ProjectIdentity :=
  {| pi_Namespace := as_Namespace a; pi_Name := as_Project a; pi_UID := as_UID a |}.
Definition assignmentContainerFilters (a : Assignment) : list string :=
  containerOwnershipFilters (lifetime_identity a) ++
  (if as_AllGenerations a then [] else [label_is labelGeneration (generationLabel (as_Generation a))]).

Definition identity_of_project (p : Project) : ProjectIdentity :=
  {| pi_Namespace := om_Namespace (p_Meta p); pi_Name := om_Name (p_Meta p); pi_UID := om_UID (p_Meta p) |}.
(** The Project of any lifetime. *)
Definition any_lifetime (p : Project) : ProjectIdentity :=
  {| pi_Namespace := om_Namespace (p_Meta p); pi_Name := om_Name (p_Meta p); pi_UID := EmptyString |}.

Definition ProjectIdentity_String (id : ProjectIdentity) : string :=
  if decide (pi_UID id = EmptyString) then (pi_Namespace id ++ "/" ++ pi_Name id)%string
  else (pi_Namespace id ++ "/" ++ pi_Name id ++ "@" ++ pi_UID id)%string.
Definition Assignment_String (a : Assignment) : string :=
  (as_Namespace a ++ "/" ++ as_Project a ++ " (uid " ++ as_UID a ++
   (if as_AllGenerations a then ", every generation)" else ", generation " ++ FormatInt (as_Generation a) ++ ")"))%string.

(** ** One resource *)

(** [if err != nil && !isNotFound(err)]. *)
Definition real_error (r : option failure) : option failure :=
  match r with Some e => if isNotFound e then None else Some e | None => None end.

(** Stops and removes one container, after a check on a fresh inspect. *)
Definition removeOwnedContainer (name : string) (owner : containerOwner) (service : string) : act (option failure) :=
  dock (ContainerInspect name) ≫= λ r,
  match (r : reply ContainerJSON) with
  | Bad e => Return (if isNotFound e then None else Some (wrap ("inspect " ++ Quote name ++ ": ")%string e))
  | Got info =>
      match checkContainerOwnership name info owner service with
      | Some e => Return (Some e)
      | None =>
          (dock (ContainerStop (cj_ID info) None) ≫= λ r,
           Return (wrapped ("stop " ++ Quote name ++ ": ")%string (real_error r))) ;?
          (dock (ContainerRemove (cj_ID info) false) ≫= λ r,
           Return (wrapped ("remove " ++ Quote name ++ ": ")%string (real_error r)))
      end
  end.

Definition ensureNetwork (namespace projectName uid : string) : act (option failure) :=
  let netName := NetworkName projectName in
  let identity := {| pi_Namespace := namespace; pi_Name := projectName; pi_UID := uid |} in
  dock (NetworkInspect netName) ≫= λ r,
  match (r : reply NetworkJSON) with
  | Got existing =>
      Return (wrapped "existing network ownership: " (validateNetworkOwnership netName (nj_Labels existing) identity))
  | Bad e =>
      if negb (IsErrNotFound e) then Return (Some (wrap "inspect network: " e))
      else
        dock (NetworkCreate netName (<[labelProject := projectName]> (<[labelNamespace := namespace]>
                                       {[ labelUID := uid ]}))) ≫= λ r,
        Return (wrapped "create network: " r)
  end.

(** Only a network that labelled [uid]. *)
Definition removeNetworkOfLifetime (identity : ProjectIdentity) (uid : string) : act (option failure) :=
  let netName := NetworkName (pi_Name identity) in
  dock (NetworkInspect netName) ≫= λ r,
  match (r : reply NetworkJSON) with
  | Bad e => Return (if isNotFound e then None else Some (wrap ("inspect network " ++ Quote netName ++ ": ")%string e))
  | Got net =>
      if decide (lbl (nj_Labels net) labelProject ≠ pi_Name identity ∨ lbl (nj_Labels net) labelUID ≠ uid) then
        Return None
      else
        dock (NetworkRemove (nj_ID net)) ≫= λ r,
        Return (wrapped ("remove network " ++ Quote netName ++ ": ")%string (real_error r))
  end.

Definition volumeOfLifetime (name uid : string) : act (reply bool) :=
  dock (VolumeInspect name) ≫= λ r,
  Return (match (r : reply VolumeJSON) with
          | Bad e => if isNotFound e then Got false else Bad (wrap ("inspect volume " ++ Quote name ++ ": ")%string e)
          | Got vol => Got (bool_decide (lbl (vj_Labels vol) labelUID = uid))
          end).

Definition removeOwnedNetwork (project : ProjectIdentity) : act (option failure) :=
  let netName := NetworkName (pi_Name project) in
  dock (NetworkInspect netName) ≫= λ r,
  match (r : reply NetworkJSON) with
  | Bad e => Return (if isNotFound e then None else Some (wrap ("inspect network " ++ Quote netName ++ ": ")%string e))
  | Got owned =>
      match validateNetworkOwnership netName (nj_Labels owned) project with
      | Some e => Return (Some (wrap "refuse to remove network: " e))
      | None =>
          dock (NetworkRemove (nj_ID owned)) ≫= λ r,
          Return (wrapped ("remove network " ++ Quote netName ++ ": ")%string (real_error r))
      end
  end.

(** ** Images *)

Definition image_pull_error (ref text : string) : failure :=
  Around EmptyString (Fails ErrImagePull) (" " ++ Quote ref ++ ": " ++ text)%string.

(** The progress stream to its end, or to its first error; bytes that are not JSON
    end it too. *)
Fixpoint drainPull (stream : list PullMessage) : option string :=
  match stream with
  | [] | PullGarbage :: _ => None
  | PullRecord error detail :: rest =>
      if decide (error ≠ EmptyString) then Some error
      else if decide (detail ≠ EmptyString) then Some detail
      else drainPull rest
  end.

Definition pullImage (ref : string) : act (option failure) :=
  dock (ImagePull ref) ≫= λ r,
  Return (match (r : reply (list PullMessage)) with
          | Bad e => Some (image_pull_error ref (FError e))
          | Got stream => image_pull_error ref <$> drainPull stream
          end).

(** ** What is an assignment's *)

Definition labelled (owner : containerOwner) (ls : labels) : Prop :=
  lbl ls labelProject = co_Project owner ∧ lbl ls labelNamespace = co_Namespace owner ∧
  lbl ls labelUID = co_UID owner ∧ lbl ls labelGeneration = generationLabel (co_Generation owner).

Lemma checkOwnershipLabels_None name ls owner service :
  checkOwnershipLabels name ls owner service = None ↔ labelled owner ls ∧ lbl ls labelService = service.
Proof. unfold checkOwnershipLabels, labelled. cbv zeta. repeat case_decide; naive_solver. Qed.

(** A container of a name that may be touched, shown to be the assignment's:
    inspected or listed with its labels, or created with them. *)
Definition owns (owner : containerOwner) (touch : string → Prop) (h : story) (id : string) : Prop :=
  (∃ name info, Did (Docker (ContainerInspect name)) (Got info) ∈ h ∧ cj_ID info = id ∧ touch name ∧
     labelled owner (labelsOf info)) ∨
  (∃ filters es e, Did (Docker (ContainerList filters)) (Got es) ∈ h ∧ e ∈ es ∧ ce_ID e = id ∧
     touch (entry_name e) ∧ labelled owner (ce_Labels e)) ∨
  (∃ config, Did (Docker (ContainerCreate config)) (Got id) ∈ h ∧ touch (cc_Name config) ∧
     labelled owner (cc_Labels config)).

Lemma owns_prefix owner touch h h' id : h `prefix_of` h' → owns owner touch h id → owns owner touch h' id.
Proof. unfold owns. intros Hp. naive_solver eauto using seen_prefix. Qed.

(** What only tells. *)
Definition docker_read (d : docker_call) : bool :=
  match d with
  | ContainerInspect _ | ContainerList _ | NetworkInspect _ | VolumeInspect _ | VolumeList _ | StatDir _
  | Access _ _ => true
  | _ => false
  end.

(** What may be done to what an assignment has: its own containers are started,
    stopped and removed; its network is created, with its UID, where none was
    found. *)
Definition container_allowed (owner : containerOwner) (touch : string → Prop) (h : story) (d : docker_call) : Prop :=
  match d with
  | ContainerRemove id _ | ContainerStart id | ContainerStop id _ => owns owner touch h id
  | NetworkCreate name ls =>
      name = NetworkName (co_Project owner) ∧ lbl ls labelProject = co_Project owner ∧
      lbl ls labelUID = co_UID owner ∧
      ∃ e, IsErrNotFound e = true ∧ Did (Docker (NetworkInspect name)) (Bad e) ∈ h
  | _ => docker_read d = true
  end.

Section steps.
#[local] Set Default Proof Using "All".
Context (ok : story → call → Prop) (owner : containerOwner) (touch : string → Prop) (h0 : story).
Hypothesis Hok : ∀ h d, h0 `prefix_of` h → container_allowed owner touch h d → ok h (Docker d).

Lemma awp_dock {B} d (f : docker_answer d → act B) Q m h :
  h0 `prefix_of` h → container_allowed owner touch h d →
  (∀ x, awp ok (f x) Q m (h ++ [Did (Docker d) x])) → awp ok (dock d ≫= f) Q m h.
Proof. intros Hp Hd Hf. apply (awp_call_bind ok (Docker d)); auto. Qed.

Lemma awp_dock_return {B} d (f : docker_answer d → B) (Q : B → memory → story → Prop) m h :
  h0 `prefix_of` h → container_allowed owner touch h d →
  (∀ x, Q (f x) m (h ++ [Did (Docker d) x])) → awp ok (dock d ≫= λ r, Return (f r)) Q m h.
Proof. intros Hp Hd HQ. by apply awp_dock. Qed.

Lemma awp_removeOwnedContainer name service (Q : option failure → memory → story → Prop) m h :
  h0 `prefix_of` h → touch name → (∀ r m' h', h `prefix_of` h' → Q r m' h') →
  awp ok (removeOwnedContainer name owner service) Q m h.
Proof.
  intros Hp Ht HQ. apply awp_dock; [done|done|]. intros [info|e]; [|apply HQ; later].
  destruct (checkContainerOwnership _ _ _ _) as [e|] eqn:Eo; [apply HQ; later|].
  apply checkOwnershipLabels_None in Eo as [Hc _].
  assert (∀ h', h ++ [Did (Docker (ContainerInspect name)) (Got info)] `prefix_of` h' →
    owns owner touch h' (cj_ID info)) as Hown.
  { intros h' Hh'. left. exists name, info. split_and!; eauto with cara. }
  apply awp_or_return, awp_dock_return; [later|by apply Hown|]. intros x.
  destruct (wrapped _ _); [apply HQ; later|]. apply awp_dock_return; [later|apply Hown; later|].
  intros y. apply HQ. later.
Qed.

Lemma awp_ensureNetwork (Q : option failure → memory → story → Prop) m h :
  h0 `prefix_of` h → (∀ r m' h', h `prefix_of` h' → Q r m' h') →
  awp ok (ensureNetwork (co_Namespace owner) (co_Project owner) (co_UID owner)) Q m h.
Proof.
  intros Hp HQ. apply awp_dock; [done|done|]. intros [net|e]; [apply HQ; later|].
  destruct (IsErrNotFound e) eqn:He; simpl; [|apply HQ; later].
  apply awp_dock_return; [later| |intros x; apply HQ; later].
  split_and!; [done|..|by exists e; eauto with cara];
    unfold lbl; by rewrite ?lookup_insert_eq, ?lookup_insert_ne, ?lookup_singleton_eq by done.
Qed.
End steps.
