(* ===== verification/DockerRuntime.v ===== *)
(** Placing a Project in Docker (internal/agent/docker/client.go): ReconcileProject
    with its rollback, and what reads, stops and starts the containers of one
    assignment. *)
From Stdlib Require Import ZArith.
From stdpp Require Import prelude gmap strings sorting.
From S2P Require Import Prelude.
From S2P Require Import ProjectTypes.
From S2P Require Import Strconv.
From S2P Require Import Failures.
From S2P Require Import Paths.
From S2P Require Import Tracker.
From S2P Require Import Engine.
From S2P Require Import Actions.
From S2P Require Import SpecHash.
From S2P Require Import DockerOwnership.
Import GoTime GoInt GoString.
Open Scope nat_scope.
Open Scope go_scope.

Set Default Proof Using "Type".

(** ** Loops *)

(** [for _, x := range xs { if err := body(x); err != nil { return err } }]. *)
Fixpoint try_each {X} (xs : list X) (body : X → act (option failure)) : act (option failure) :=
  match xs with [] => Return None | x :: rest => body x ;? try_each rest body end.
(** A loop that collects errors and goes on. *)
Fixpoint collect_each {X} (xs : list X) (body : X → act (list failure)) : act (list failure) :=
  match xs with
  | [] => Return []
  | x :: rest => body x ≫= λ errs, collect_each rest body ≫= λ errs', Return (errs ++ errs')
  end.
Definition failed (r : option failure) : list failure := match r with Some e => [e] | None => [] end.

(** ** Volumes *)

Definition ensureManagedDir (dataRoot namespace projectName volumeName : string) : act (option failure) :=
  match HostPath dataRoot namespace projectName volumeName with
  | Bad e => Return (Some (wrap ("derive host path for volume " ++ Quote volumeName ++ ": ")%string e))
  | Got hostPath =>
      (dock (MkdirAll hostPath) ≫= λ r,
       Return (wrapped ("create managed volume dir " ++ Quote hostPath ++ ": ")%string r)) ;?
      dock (StatDir hostPath) ≫= λ info,
      match (info : reply DirInfo) with
      | Bad e => Return (Some (wrap ("stat managed volume dir " ++ Quote hostPath ++ ": ")%string e))
      | Got info =>
          if negb (di_IsDir info) then
            Return (Some (Text ("managed volume path " ++ Quote hostPath ++ " exists but is not a directory")%string))
          else
            dock (Access hostPath false) ≫= λ r,
            Return (if di_ForeignOwner info then None
                    else wrapped ("managed volume dir " ++ Quote hostPath ++ " is not writable: ")%string r)
      end
  end.

Definition ensureEphemeralVolume (identity : ProjectIdentity) (volumeName : string) : act (option failure) :=
  let vName := VolumeName (pi_Name identity) volumeName in
  dock (VolumeInspect vName) ≫= λ r,
  match (r : reply VolumeJSON) with
  | Got existing =>
      Return (wrapped "existing volume ownership: " (validateOwnership "volume" vName (vj_Labels existing) identity))
  | Bad e =>
      if negb (isNotFound e) then Return (Some (wrap ("inspect volume " ++ Quote vName ++ ": ")%string e))
      else
        dock (VolumeCreate vName
          (<[labelProject := pi_Name identity]> (<[labelNamespace := pi_Namespace identity]>
            (<[labelUID := pi_UID identity]> (<[labelVolume := volumeName]>
              {[ labelVolumeType := VolumeTypeEphemeral ]}))))) ≫= λ r,
        Return (wrapped ("create volume " ++ Quote vName ++ ": ")%string r)
  end.

Definition ensureVolumes (dataRoot : string) (identity : ProjectIdentity) (vols : list VolumeDef)
    : act (option failure) :=
  try_each vols (λ vol,
    if decide (vol_Type vol = VolumeTypeManaged) then
      ensureManagedDir dataRoot (pi_Namespace identity) (pi_Name identity) (vol_Name vol)
    else if decide (vol_Type vol = VolumeTypeEphemeral) then ensureEphemeralVolume identity (vol_Name vol)
    else Return (Some (Text ("volume " ++ Quote (vol_Name vol) ++ ": unsupported type " ++ Quote (vol_Type vol))%string))).

(** The declared volume of a name: a later one replaces an earlier one. *)
Definition volume_named (spec : ProjectSpec) (name : string) : option VolumeDef :=
  find_first (λ v, bool_decide (vol_Name v = name)) (rev (sp_Volumes spec)).

(** One mount: its bind, the Managed volume bound, and whether its backup strategy is
    PostgresDifferential. *)
Definition bind_of (dataRoot namespace projectName : string) (svc : ServiceDef) (spec : ProjectSpec) (vm : VolumeMount)
    : reply (string * option string * bool) :=
  match volume_named spec (vm_Name vm) with
  | None => Bad (Text ("service " ++ Quote (svc_Name svc) ++ " mounts undeclared volume " ++ Quote (vm_Name vm)))
  | Some vol =>
      if decide (vol_Type vol = VolumeTypeManaged) then
        match HostPath dataRoot namespace projectName (vm_Name vm) with
        | Bad e => Bad (wrap ("derive host path for volume " ++ Quote (vm_Name vm) ++ ": ") e)
        | Got hostPath =>
            Got (hostPath ++ ":" ++ vm_MountPath vm, Some (vm_Name vm),
                 bool_decide (BackupStrategyFor spec (vm_Name vm) = BackupStrategyPostgresDifferential))
        end
      else if decide (vol_Type vol = VolumeTypeEphemeral) then
        Got (VolumeName projectName (vm_Name vm) ++ ":" ++ vm_MountPath vm, None, false)
      else Bad (Text ("service " ++ Quote (svc_Name svc) ++ " mounts volume " ++ Quote (vm_Name vm)
                      ++ " of unsupported type " ++ Quote (vol_Type vol)))
  end%string.
Fixpoint binds_of (dataRoot namespace projectName : string) (svc : ServiceDef) (spec : ProjectSpec)
    (mounts : list VolumeMount) : reply (list (string * option string * bool)) :=
  match mounts with
  | [] => Got []
  | vm :: rest =>
      let! b := bind_of dataRoot namespace projectName svc spec vm in
      let! bs := binds_of dataRoot namespace projectName svc spec rest in Got (b :: bs)
  end.

Definition buildBinds (dataRoot namespace projectName uid : string) (svc : ServiceDef) (spec : ProjectSpec)
    : reply (list string * list string) :=
  let! bs := binds_of dataRoot namespace projectName svc spec (svc_VolumeMounts svc) in
  let binds := (λ b, b.1.1) <$> bs in
  let managedNames := omap (λ b, b.1.2) bs in
  if existsb (λ b, b.2) bs then
    match PgBackRestClientDirs dataRoot uid with
    | Bad e => Bad (wrap ("service " ++ Quote (svc_Name svc) ++ ": ")%string e)
    | Got (confDir, tlsDir) =>
        Got (binds ++ [confDir ++ ":/etc/pgbackrest:ro"; tlsDir ++ ":/etc/cara/pgbackrest/tls:ro"]%string, managedNames)
    end
  else Got (binds, managedNames).

(** ** One container *)

Definition service_labels (owner : containerOwner) (svc : ServiceDef) (specHash : string) (managedNames : list string)
    : labels :=
  let base : labels :=
    <[labelProject := co_Project owner]> (<[labelService := svc_Name svc]> (<[labelNamespace := co_Namespace owner]>
      (<[labelUID := co_UID owner]> (<[labelGeneration := generationLabel (co_Generation owner)]>
        {[ labelSpecHash := specHash ]})))) in
  match managedNames with
  | [] => base
  | _ => <[labelVolume := Join managedNames ","]> (<[labelVolumeType := VolumeTypeManaged]> base)
  end.

Definition env_text (e : EnvVar) : string := (ev_Name e ++ "=" ++ ev_Value e)%string.

(** Create and start; the image is there. *)
Definition create_container (dataRoot : string) (owner : containerOwner) (svc : ServiceDef) (spec : ProjectSpec)
    : act (bool * option failure) :=
  match buildBinds dataRoot (co_Namespace owner) (co_Project owner) (co_UID owner) svc spec with
  | Bad e => Return (false, Some e)
  | Got (binds, managedNames) =>
      dock (ContainerCreate
        {| cc_Name := ContainerName (co_Project owner) (svc_Name svc); cc_Image := svc_Image svc;
           cc_Cmd := svc_Command svc; cc_Env := env_text <$> svc_Env svc;
           cc_Labels := service_labels owner svc (ServiceSpecHash svc spec) managedNames; cc_Binds := binds;
           cc_Network := NetworkName (co_Project owner); cc_Aliases := [svc_Name svc] |}) ≫= λ r,
      match (r : reply string) with
      | Bad e => Return (false, Some (wrap "create container: " e))
      | Got id =>
          dock (ContainerStart id) ≫= λ r,
          match (r : option failure) with
          | Some e => Return (false, Some (wrap "start container: " e))
          | None => Return (true, None)
          end
      end
  end.

Definition ensureContainerPulled (dataRoot : string) (owner : containerOwner) (svc : ServiceDef) (spec : ProjectSpec)
    (pulled : bool) : act (bool * option failure) :=
  let cName := ContainerName (co_Project owner) (svc_Name svc) in
  let pull (k : act (bool * option failure)) :=
    if pulled then k
    else pullImage (svc_Image svc) ≫= λ r, match r with Some e => Return (false, Some e) | None => k end in
  dock (ContainerInspect cName) ≫= λ r,
  match (r : reply ContainerJSON) with
  | Bad e =>
      if negb (IsErrNotFound e) then Return (false, Some (wrap "inspect: " e))
      else pull (create_container dataRoot owner svc spec)
  | Got info =>
      match checkContainerOwnership cName info owner (svc_Name svc) with
      | Some e => Return (false, Some (wrap "refuse to adopt: " e))
      | None =>
          if decide (lbl (labelsOf info) labelSpecHash = ServiceSpecHash svc spec) then
            if cj_Running info then Return (false, None)
            else
              dock (ContainerStart (cj_ID info)) ≫= λ r,
              Return (false, wrapped "start existing container: " r)
          else
            pull (removeOwnedContainer cName owner (svc_Name svc) ≫= λ r,
                  match r with
                  | Some e => Return (false, Some (wrap "remove outdated container: " e))
                  | None => create_container dataRoot owner svc spec
                  end)
      end
  end.
Definition ensureContainer (dataRoot : string) (owner : containerOwner) (svc : ServiceDef) (spec : ProjectSpec)
    : act (bool * option failure) :=
  ensureContainerPulled dataRoot owner svc spec false.

(** ** Undoing *)

(** The named volumes a rollback deletes; the Managed host directories are kept. *)
Definition planVolumeRemoval (projectName : string) (vols : list VolumeDef) : list string :=
  (λ vol, VolumeName projectName (vol_Name vol)) <$>
    filter (λ vol, vol_Type vol = VolumeTypeEphemeral ∨ vol_Type vol = VolumeTypeManaged) vols.

(** Stops and removes a listed container; what is already gone is no error. *)
Definition stop_and_remove (c : ContainerEntry) : act (list failure) :=
  dock (ContainerStop (ce_ID c) (Some stopTimeoutSeconds)) ≫= λ stop,
  dock (ContainerRemove (ce_ID c) true) ≫= λ remove,
  Return (failed (wrapped ("stop container " ++ shortID (ce_ID c) ++ ": ")%string (real_error stop)) ++
          failed (wrapped ("remove container " ++ shortID (ce_ID c) ++ ": ")%string (real_error remove))).

Definition remove_named_volume (owner : option containerOwner) (vName : string) : act (list failure) :=
  let remove :=
    dock (VolumeRemove vName) ≫= λ r,
    Return (failed (wrapped ("remove named volume " ++ vName ++ ": ")%string (real_error r))) in
  match owner with
  | None => remove
  | Some owner =>
      volumeOfLifetime vName (co_UID owner) ≫= λ mine,
      match mine with
      | Bad e => Return [e]
      | Got mine => if negb mine then Return [] else remove
      end
  end.

Definition removeProjectResources (namespace projectName : string) (spec : ProjectSpec) (owner : option containerOwner)
    : act (option failure) :=
  let identity := {| pi_Namespace := namespace; pi_Name := projectName; pi_UID := EmptyString |} in
  dock (ContainerList (containerOwnershipFilters identity)) ≫= λ r,
  match (r : reply (list ContainerEntry)) with
  | Bad e => Return (Some (wrap "list containers: " e))
  | Got containers =>
      collect_each containers (λ c,
        let foreign :=
          match owner with
          | Some owner =>
              bool_decide (is_Some (checkOwnershipLabels (entry_name c) (ce_Labels c) owner
                                      (lbl (ce_Labels c) labelService)))
          | None => false
          end in
        if foreign then Return [] else stop_and_remove c) ≫= λ errs1,
      (match owner with
       | Some owner => removeNetworkOfLifetime identity (co_UID owner)
       | None => removeOwnedNetwork identity
       end) ≫= λ err2,
      collect_each (planVolumeRemoval projectName (sp_Volumes spec)) (remove_named_volume owner) ≫= λ errs3,
      Return (wrapped ("remove project " ++ ProjectIdentity_String identity ++ ": ")%string
                (errors_Join (errs1 ++ failed err2 ++ errs3)))
  end.

(** The errors of a rollback are logged. *)
Definition rollback (p : Project) : act () :=
  removeProjectResources (om_Namespace (p_Meta p)) (om_Name (p_Meta p)) (p_Spec p) (Some (ownerOf p)) ≫= λ _, skip.

(** Only the containers this reconcile created, and only while they are its own. *)
Definition removeCreated (names : list string) (p : Project) : act () :=
  for_each names (λ name,
    dock (ContainerInspect name) ≫= λ r,
    match (r : reply ContainerJSON) with
    | Bad _ => skip
    | Got info =>
        match checkContainerOwnership name info (ownerOf p) (lbl (labelsOf info) labelService) with
        | Some _ => skip
        | None => dock (ContainerRemove (cj_ID info) true) ≫= λ _, skip
        end
    end).

(** ** ReconcileProject *)

(** Every service container that exists is this assignment's. *)
Definition checkExistingOwnership (p : Project) : act (option failure) :=
  try_each (sp_Services (p_Spec p)) (λ svc,
    let name := ContainerName (om_Name (p_Meta p)) (svc_Name svc) in
    dock (ContainerInspect name) ≫= λ r,
    Return (match (r : reply ContainerJSON) with
            | Bad e => if isNotFound e then None else Some (wrap ("inspect " ++ Quote name ++ ": ")%string e)
            | Got info => wrapped "refuse to reconcile: " (checkContainerOwnership name info (ownerOf p) (svc_Name svc))
            end)).

Definition stale_order (x y : StaleContainer) : Prop := string_order (sc_Name x) (sc_Name y).
#[export] Instance stale_order_dec : RelDecision stale_order.
Proof. intros x y. unfold stale_order. apply _. Defined.

(** This assignment's containers of services that are not listed, by name. *)
Definition unlistedContainers (p : Project) (listed : string → bool) : act (reply (list StaleContainer)) :=
  dock (ContainerList (containerOwnershipFilters (identity_of_project p))) ≫= λ r,
  Return (match (r : reply (list ContainerEntry)) with
          | Bad e => Bad (wrap "list project containers: " e)
          | Got containers =>
              Got (merge_sort stale_order (omap (λ c,
                let service := lbl (ce_Labels c) labelService in
                if listed service then None
                else if checkOwnershipLabels (entry_name c) (ce_Labels c) (ownerOf p) service then None
                else Some {| sc_Name := entry_name c; sc_Service := service; sc_ID := ce_ID c; sc_Reason := None |})
                containers))
          end).
Definition in_spec (p : Project) (service : string) : bool :=
  existsb (λ svc, bool_decide (svc_Name svc = service)) (sp_Services (p_Spec p)).

(** The services in order; [created] are the containers made so far. *)
Fixpoint ensure_each (dataRoot : string) (p : Project) (created : list string) (svcs : list ServiceDef)
    : act (option failure) :=
  match svcs with
  | [] => Return None
  | svc :: rest =>
      ensureContainer dataRoot (ownerOf p) svc (p_Spec p) ≫= λ '(madeOne, err),
      let created :=
        if madeOne : bool then created ++ [ContainerName (om_Name (p_Meta p)) (svc_Name svc)] else created in
      match err with
      | Some e =>
          (if FIs e ErrContainerNotOwned then removeCreated created p else rollback p) ≫= λ _,
          Return (Some (wrap ("ensure container " ++ Quote (svc_Name svc) ++ ": ")%string e))
      | None => ensure_each dataRoot p created rest
      end
  end.

Definition remove_unlisted (p : Project) : act (option failure) :=
  or_return_value (unlistedContainers p (in_spec p)) (λ removed,
  try_each removed (λ c,
    removeOwnedContainer (sc_Name c) (ownerOf p) (sc_Service c) ≫= λ r,
    Return (wrapped ("remove container of removed service " ++ Quote (sc_Service c) ++ ": ")%string r))).

Definition DockerReconcileProject (dataRoot : string) (p : Project) : act (option failure) :=
  let m := p_Meta p in
  checkExistingOwnership p ;?
  (ensureNetwork (om_Namespace m) (om_Name m) (om_UID m) ≫= λ r, Return (wrapped "ensure network: " r)) ;?
  (ensureVolumes dataRoot (identity_of_project p) (sp_Volumes (p_Spec p)) ≫= λ r,
   match r with
   | Some e => rollback p ≫= λ _, Return (Some (wrap "ensure volumes: " e))
   | None => Return None
   end) ;?
  ensure_each dataRoot p [] (sp_Services (p_Spec p)) ;?
  remove_unlisted p.

(** ** Reading, stopping and starting *)

Definition DockerStaleContainers (p : Project) : act (reply (list StaleContainer)) :=
  dock (ContainerList (containerOwnershipFilters (any_lifetime p))) ≫= λ r,
  Return (match (r : reply (list ContainerEntry)) with
          | Bad e => Bad (wrap "list project containers: " e)
          | Got containers =>
              Got (merge_sort stale_order (omap (λ c,
                let service := lbl (ce_Labels c) labelService in
                match checkOwnershipLabels (entry_name c) (ce_Labels c) (ownerOf p) service with
                | Some e => Some {| sc_Name := entry_name c; sc_Service := service; sc_ID := ce_ID c;
                                    sc_Reason := Some e |}
                | None => None
                end) containers))
          end).

Fixpoint inspect_each (p : Project) (svcs : list ServiceDef) : act (reply (list ContainerState)) :=
  match svcs with
  | [] => Return (Got [])
  | svc :: rest =>
      let name := ContainerName (om_Name (p_Meta p)) (svc_Name svc) in
      dock (ContainerInspect name) ≫= λ r,
      match (r : reply ContainerJSON) with
      | Bad e =>
          if IsErrNotFound e then inspect_each p rest
          else Return (Bad (wrap ("inspect container " ++ Quote name ++ ": ")%string e))
      | Got info =>
          inspect_each p rest ≫= λ states,
          Return (let! states := states in
                  Got ({| cs_ServiceName := svc_Name svc; cs_ContainerID := cj_ID info; cs_Status := cj_Status info;
                          cs_ExitCode := cj_ExitCode info;
                          cs_NotOwned := checkContainerOwnership name info (ownerOf p) (svc_Name svc) |} :: states))
      end
  end.
Definition DockerInspectProject (p : Project) : act (reply (list ContainerState)) :=
  inspect_each p (sp_Services (p_Spec p)).

Fixpoint ips_each (p : Project) (ips : gmap string string) (svcs : list ServiceDef)
    : act (reply (gmap string string)) :=
  match svcs with
  | [] => Return (Got ips)
  | svc :: rest =>
      let name := ContainerName (om_Name (p_Meta p)) (svc_Name svc) in
      dock (ContainerInspect name) ≫= λ r,
      match (r : reply ContainerJSON) with
      | Bad e =>
          if IsErrNotFound e then ips_each p ips rest
          else Return (Bad (wrap ("inspect container " ++ Quote name ++ ": ")%string e))
      | Got info =>
          let ip := lbl (cj_Networks info) (NetworkName (om_Name (p_Meta p))) in
          ips_each p (if decide (ip = EmptyString) then ips else <[svc_Name svc := ip]> ips) rest
      end
  end.
Definition DockerGetContainerIPs (p : Project) : act (reply (gmap string string)) :=
  ips_each p ∅ (sp_Services (p_Spec p)).

(** The containers of the services that exist, as names and IDs. *)
Fixpoint owned_each (p : Project) (svcs : list ServiceDef) : act (reply (list (string * string))) :=
  match svcs with
  | [] => Return (Got [])
  | svc :: rest =>
      let name := ContainerName (om_Name (p_Meta p)) (svc_Name svc) in
      dock (ContainerInspect name) ≫= λ r,
      match (r : reply ContainerJSON) with
      | Bad e =>
          if isNotFound e then owned_each p rest
          else Return (Bad (wrap ("inspect " ++ Quote name ++ ": ")%string e))
      | Got info =>
          match checkContainerOwnership name info (ownerOf p) (svc_Name svc) with
          | Some e => Return (Bad e)
          | None =>
              owned_each p rest ≫= λ containers,
              Return (let! containers := containers in Got ((name, cj_ID info) :: containers))
          end
      end
  end.
Definition ownedContainers (p : Project) : act (reply (list (string * string))) := owned_each p (sp_Services (p_Spec p)).

Definition StopProject (p : Project) : act (option failure) :=
  or_return_value (ownedContainers p) (λ containers,
  try_each (rev containers) (λ c,
    dock (ContainerStop c.2 (Some stopTimeoutSeconds)) ≫= λ r,
    Return (wrapped ("stop container " ++ Quote c.1 ++ ": ")%string (real_error r)))).
Definition StartProject (p : Project) : act (option failure) :=
  or_return_value (ownedContainers p) (λ containers,
  try_each containers (λ c,
    dock (ContainerStart c.2) ≫= λ r,
    Return (wrapped ("start container " ++ Quote c.1 ++ ": ")%string (real_error r)))).

(** (nodecontainer.go) *)
Definition DockerEnsureProjectNetwork (p : Project) : act (option failure) :=
  ensureNetwork (om_Namespace (p_Meta p)) (om_Name (p_Meta p)) (om_UID (p_Meta p)).
Definition DockerRestartContainer (nameOrID : string) : act (option failure) :=
  (dock (ContainerStop nameOrID None) ≫= λ r, Return (wrapped ("docker: stop " ++ nameOrID ++ ": ")%string r)) ;?
  (dock (ContainerStart nameOrID) ≫= λ r, Return (wrapped ("docker: start " ++ nameOrID ++ ": ")%string r)).

(** ** What placing may do *)

Lemma awp_try_each {X} ok (xs : list X) body (done : X → story → Prop) (Q : option failure → memory → story → Prop) m h :
  (∀ x h h', h `prefix_of` h' → done x h → done x h') →
  (∀ x m' h', x ∈ xs → h `prefix_of` h' → awp ok (body x) (λ r _ h'', r = None → done x h'') m' h') →
  (∀ r m' h', h `prefix_of` h' → (r = None → ∀ x, x ∈ xs → done x h') → Q r m' h') →
  awp ok (try_each xs body) Q m h.
Proof.
  intros Hmono. revert m h. induction xs as [|x xs IH]; intros m h Hb HQ; simpl.
  - apply HQ; [done|]. intros _ x Hx. inversion Hx.
  - apply awp_or_return. eapply awp_mono; [|apply awp_prefix, Hb; [by left|done]].
    intros [e|] m' h' [Hd Hp]; [by apply HQ|]. apply IH.
    + intros y m'' h'' Hy Hp'. apply Hb; [by right|by etrans].
    + intros r m'' h'' Hp' Hr. apply HQ; [by etrans|]. intros Hn y [->|Hy]%elem_of_cons; [|by apply Hr].
      eapply Hmono; [exact Hp'|]. by apply Hd.
Qed.

Lemma awp_collect_each {X} ok (xs : list X) body (Q : list failure → memory → story → Prop) m h :
  (∀ x m' h', x ∈ xs → h `prefix_of` h' → awp ok (body x) (λ _ _ _, True) m' h') →
  (∀ errs m' h', h `prefix_of` h' → Q errs m' h') → awp ok (collect_each xs body) Q m h.
Proof.
  revert Q m h. induction xs as [|x xs IH]; intros Q m h Hb HQ; simpl; [by apply HQ|].
  apply awp_bind. eapply awp_mono; [|apply awp_prefix, Hb; [by left|done]].
  intros errs m' h' [_ Hp]. apply awp_bind, IH.
  - intros y m'' h'' Hy Hp'. apply Hb; [by right|by etrans].
  - intros errs' m'' h'' Hp'. apply HQ. by etrans.
Qed.

(** A bind of a declared volume of the Project: the directory of a Managed volume
    under the Project's own, an Ephemeral volume of its name; or, read-only, the
    credentials of its backups. *)
Definition bind_allowed (dataRoot : string) (p : Project) (svc : ServiceDef) (bind : string) : Prop :=
  (∃ vm vol, vm ∈ svc_VolumeMounts svc ∧ volume_named (p_Spec p) (vm_Name vm) = Some vol ∧
     ((vol_Type vol = VolumeTypeManaged ∧
       ∃ path, HostPath dataRoot (om_Namespace (p_Meta p)) (om_Name (p_Meta p)) (vm_Name vm) = Got path ∧
               bind = (path ++ ":" ++ vm_MountPath vm)%string) ∨
      (vol_Type vol = VolumeTypeEphemeral ∧
       bind = (VolumeName (om_Name (p_Meta p)) (vm_Name vm) ++ ":" ++ vm_MountPath vm)%string))) ∨
  (∃ conf tls, PgBackRestClientDirs dataRoot (om_UID (p_Meta p)) = Got (conf, tls) ∧
     (bind = (conf ++ ":/etc/pgbackrest:ro")%string ∨ bind = (tls ++ ":/etc/cara/pgbackrest/tls:ro")%string)).

(** A container of a service of the Project, of its current spec. *)
Definition container_of (dataRoot : string) (p : Project) (svc : ServiceDef) (config : ContainerConfig) : Prop :=
  cc_Name config = ContainerName (om_Name (p_Meta p)) (svc_Name svc) ∧ cc_Image config = svc_Image svc ∧
  labelled (ownerOf p) (cc_Labels config) ∧ lbl (cc_Labels config) labelService = svc_Name svc ∧
  lbl (cc_Labels config) labelSpecHash = ServiceSpecHash svc (p_Spec p) ∧
  cc_Network config = NetworkName (om_Name (p_Meta p)) ∧
  Forall (bind_allowed dataRoot p svc) (cc_Binds config).

Definition service_allowed (dataRoot : string) (p : Project) (touch : string → Prop) (h : story) (d : docker_call) : Prop :=
  match d with
  | ContainerCreate config =>
      ∃ svc, svc ∈ sp_Services (p_Spec p) ∧ touch (cc_Name config) ∧ container_of dataRoot p svc config
  | ImagePull ref => ∃ svc, svc ∈ sp_Services (p_Spec p) ∧ ref = svc_Image svc
  | _ => container_allowed (ownerOf p) touch h d
  end.

(** The service was made to run: found running, started, or created and started; of
    the current spec, when [current] says so. *)
Definition service_up (current : bool) (p : Project) (svc : ServiceDef) (h : story) : Prop :=
  (∃ name info, Did (Docker (ContainerInspect name)) (Got info) ∈ h ∧
     name = ContainerName (om_Name (p_Meta p)) (svc_Name svc) ∧
     checkContainerOwnership name info (ownerOf p) (svc_Name svc) = None ∧
     (current = true → lbl (labelsOf info) labelSpecHash = ServiceSpecHash svc (p_Spec p)) ∧
     (cj_Running info = true ∨ Did (Docker (ContainerStart (cj_ID info))) None ∈ h)) ∨
  (∃ dataRoot config id, Did (Docker (ContainerCreate config)) (Got id) ∈ h ∧ container_of dataRoot p svc config ∧
     Did (Docker (ContainerStart id)) None ∈ h).

Lemma service_up_prefix current p svc h h' : h `prefix_of` h' → service_up current p svc h → service_up current p svc h'.
Proof. unfold service_up. intros Hp. naive_solver eauto using seen_prefix. Qed.
Lemma service_up_weaken current p svc h : service_up true p svc h → service_up current p svc h.
Proof. unfold service_up. naive_solver. Qed.

Lemma service_labels_spec owner svc hash names :
  labelled owner (service_labels owner svc hash names) ∧
  lbl (service_labels owner svc hash names) labelService = svc_Name svc ∧
  lbl (service_labels owner svc hash names) labelSpecHash = hash.
Proof.
  unfold service_labels, labelled, lbl. cbv zeta.
  destruct names; split_and!; by rewrite ?lookup_insert_eq, ?lookup_insert_ne, ?lookup_insert_eq, ?lookup_singleton_eq by done.
Qed.

Lemma binds_of_allowed dataRoot p svc mounts bs :
  mounts ⊆ svc_VolumeMounts svc →
  binds_of dataRoot (om_Namespace (p_Meta p)) (om_Name (p_Meta p)) svc (p_Spec p) mounts = Got bs →
  Forall (λ b, bind_allowed dataRoot p svc b.1.1) bs.
Proof.
  revert bs. induction mounts as [|vm mounts IH]; intros bs Hsub; simpl; [by intros [= <-]|].
  unfold bind_of. destruct (volume_named _ _) as [vol|] eqn:Hv; [|done].
  assert (vm ∈ svc_VolumeMounts svc) as Hvm by (apply Hsub; by left).
  assert (mounts ⊆ svc_VolumeMounts svc) as Hrest by (intros x Hx; apply Hsub; by right).
  case_decide; [destruct (HostPath _ _ _ _) as [path|] eqn:Hh; [|done]|case_decide; [|done]];
    simpl; destruct (binds_of _ _ _ _ _ mounts) as [bs'|]; simpl; try done; intros [= <-];
    (constructor; [left; exists vm, vol; naive_solver|by apply IH]).
Qed.

Lemma buildBinds_allowed dataRoot p svc binds names :
  buildBinds dataRoot (om_Namespace (p_Meta p)) (om_Name (p_Meta p)) (om_UID (p_Meta p)) svc (p_Spec p)
    = Got (binds, names) → Forall (bind_allowed dataRoot p svc) binds.
Proof.
  unfold buildBinds. destruct (binds_of _ _ _ _ _ _) as [bs|] eqn:Hb; [|done].
  apply binds_of_allowed in Hb; [|done]. simpl. destruct (existsb _ _).
  - destruct (PgBackRestClientDirs _ _) as [[conf tls]|] eqn:Hd; [|done]. intros [= <- <-].
    rewrite Forall_app, Forall_fmap, !Forall_cons. split; [exact Hb|]. split_and!; [right|right|done]; eauto 8.
  - intros [= <- <-]. by rewrite Forall_fmap.
Qed.

Section services.
#[local] Set Default Proof Using "All".
Context (ok : story → call → Prop) (dataRoot : string) (p : Project) (touch : string → Prop) (h0 : story).
Hypothesis Hok : ∀ h d, h0 `prefix_of` h → service_allowed dataRoot p touch h d → ok h (Docker d).

Lemma container_service h d : container_allowed (ownerOf p) touch h d → service_allowed dataRoot p touch h d.
Proof. by destruct d. Qed.
Lemma ok_container h d : h0 `prefix_of` h → container_allowed (ownerOf p) touch h d → ok h (Docker d).
Proof. intros Hp Hd. by apply Hok, container_service. Qed.

Context (svc : ServiceDef).
Hypothesis (Hsvc : svc ∈ sp_Services (p_Spec p)) (Ht : touch (ContainerName (om_Name (p_Meta p)) (svc_Name svc))).

Lemma awp_pullImage (Q : option failure → memory → story → Prop) m h :
  h0 `prefix_of` h → (∀ r m' h', h `prefix_of` h' → Q r m' h') → awp ok (pullImage (svc_Image svc)) Q m h.
Proof.
  intros Hp HQ. apply (awp_call_bind ok (Docker _)); [apply Hok; [done|by exists svc]|].
  intros x. apply HQ. later.
Qed.

Lemma awp_create_container (Q : bool * option failure → memory → story → Prop) m h :
  h0 `prefix_of` h → (∀ r m' h', h `prefix_of` h' → (r.2 = None → service_up true p svc h') → Q r m' h') →
  awp ok (create_container dataRoot (ownerOf p) svc (p_Spec p)) Q m h.
Proof.
  intros Hp HQ. unfold create_container.
  destruct (buildBinds _ _ _ _ _ _) as [[binds names]|e] eqn:Hb; [|by apply HQ].
  apply buildBinds_allowed in Hb.
  destruct (service_labels_spec (ownerOf p) svc (ServiceSpecHash svc (p_Spec p)) names) as (Hc & Hs & Hh).
  match goal with |- awp _ (dock (ContainerCreate ?c) ≫= _) _ _ _ => set (config := c) end.
  assert (container_of dataRoot p svc config) as Hof by (split_and!; done).
  apply (awp_call_bind ok (Docker _)); [apply Hok; [done|by exists svc]|]. intros [id|e]; [|by apply HQ; [later|]].
  apply awp_dock with (owner := ownerOf p) (touch := touch) (h0 := h0); [exact ok_container|later| |].
  - right. right. exists config. split_and!; eauto with cara.
  - intros [e|]; [by apply HQ; [later|]|]. apply HQ; [later|]. intros _. right. exists dataRoot, config, id.
    split_and!; eauto with cara.
Qed.

Lemma awp_ensureContainerPulled pulled (Q : bool * option failure → memory → story → Prop) m h :
  h0 `prefix_of` h → (∀ r m' h', h `prefix_of` h' → (r.2 = None → service_up true p svc h') → Q r m' h') →
  awp ok (ensureContainerPulled dataRoot (ownerOf p) svc (p_Spec p) pulled) Q m h.
Proof.
  intros Hp HQ. unfold ensureContainerPulled. cbv zeta.
  assert (∀ (k : act (bool * option failure)) h1, h `prefix_of` h1 →
    (∀ m' h', h1 `prefix_of` h' → awp ok k Q m' h') →
    awp ok (if pulled then k else pullImage (svc_Image svc) ≫= λ r,
              match r with Some e => Return (false, Some e) | None => k end) Q m h1) as Hpull.
  { intros k h1 Hh1 Hk. destruct pulled; [by apply Hk|]. apply awp_bind, awp_pullImage; [later|].
    intros [e|] m' h' Hh'; [apply HQ; [by etrans|done]|by apply Hk]. }
  apply awp_dock with (owner := ownerOf p) (touch := touch) (h0 := h0); [exact ok_container|done|done|].
  intros [info|e].
  - destruct (checkContainerOwnership _ _ _ _) as [e|] eqn:Ho; [by apply HQ; [later|]|].
    pose proof Ho as Hc. apply checkOwnershipLabels_None in Hc as [Hc _].
    case_decide as Hh.
    + destruct (cj_Running info) eqn:Hr.
      * apply HQ; [later|]. intros _. left. do 2 eexists. split_and!; eauto with cara.
      * apply awp_dock_return with (owner := ownerOf p) (touch := touch) (h0 := h0); [exact ok_container|later| |].
        -- left. do 2 eexists. split_and!; eauto with cara.
        -- intros [x|]; [by apply HQ; [later|]|]. apply HQ; [later|]. intros _. left.
           do 2 eexists. split_and!; eauto with cara.
    + apply Hpull; [later|]. intros m' h' Hp'. apply awp_bind.
      apply awp_removeOwnedContainer with (touch := touch) (h0 := h0); [exact ok_container|later|done|].
      intros [e|] m'' h'' Hp''; [apply HQ; [later|done]|].
      apply awp_create_container; [later|]. intros r m3 h3 Hp3. apply HQ. later.
  - destruct (negb _); [by apply HQ; [later|]|]. apply Hpull; [later|]. intros m' h' Hp'.
    apply awp_create_container; [later|]. intros r m3 h3 Hp3. apply HQ. later.
Qed.
End services.
