(* ===== verification/DockerPlacing.v ===== *)
(** What placing a Project does to Docker and to the Node's disk
    (ReconcileProject, internal/agent/docker/client.go): its volumes, its rollback,
    and the theorem on all of it. *)
From Stdlib Require Import ZArith.
From stdpp Require Import prelude gmap strings sorting.
From S2P Require Import Prelude.
From S2P Require Import ProjectTypes.
From S2P Require Import Strconv.
From S2P Require Import Failures.
From S2P Require Import Paths.
From S2P Require Import Tracker.
From S2P Require Import Engine.
From S2P Require Import Actions.
From S2P Require Import SpecHash.
From S2P Require Import DockerOwnership.
From S2P Require Import DockerRuntime.
Import GoTime GoInt GoString.
Open Scope nat_scope.

Set Default Proof Using "Type".

(** Volumes appear where they are declared: an Ephemeral one, with the Project's UID,
    where Docker had none of its name; the directory of a Managed one. *)
Definition ensure_allowed (dataRoot : string) (p : Project) (touch : string → Prop) (h : story) (d : docker_call) : Prop :=
  let m := p_Meta p in
  match d with
  | VolumeCreate name ls =>
      (∃ vol, vol ∈ sp_Volumes (p_Spec p) ∧ vol_Type vol = VolumeTypeEphemeral ∧
         name = VolumeName (om_Name m) (vol_Name vol)) ∧
      lbl ls labelProject = om_Name m ∧ lbl ls labelUID = om_UID m ∧
      ∃ e, isNotFound e = true ∧ Did (Docker (VolumeInspect name)) (Bad e) ∈ h
  | MkdirAll path =>
      ∃ vol, vol ∈ sp_Volumes (p_Spec p) ∧ vol_Type vol = VolumeTypeManaged ∧
        HostPath dataRoot (om_Namespace m) (om_Name m) (vol_Name vol) = Got path
  | _ => service_allowed dataRoot p touch h d
  end.

(** A network and volumes go only when Docker showed them with the Project's UID. *)
Definition place_allowed (dataRoot : string) (p : Project) (h : story) (d : docker_call) : Prop :=
  let m := p_Meta p in
  match d with
  | NetworkRemove id =>
      ∃ name net, Did (Docker (NetworkInspect name)) (Got net) ∈ h ∧ nj_ID net = id ∧
        lbl (nj_Labels net) labelProject = om_Name m ∧ lbl (nj_Labels net) labelUID = om_UID m
  | VolumeRemove name =>
      (∃ vol, vol ∈ sp_Volumes (p_Spec p) ∧ name = VolumeName (om_Name m) (vol_Name vol)) ∧
      ∃ v, Did (Docker (VolumeInspect name)) (Got v) ∈ h ∧ lbl (vj_Labels v) labelUID = om_UID m
  | _ => ensure_allowed dataRoot p (λ _, True) h d
  end.

(** Docker had no container of the service's name, or one of this assignment. *)
Definition spared (p : Project) (svc : ServiceDef) (h : story) : Prop :=
  let name := ContainerName (om_Name (p_Meta p)) (svc_Name svc) in
  ∃ r, Did (Docker (ContainerInspect name)) r ∈ h ∧
    match (r : reply ContainerJSON) with
    | Bad e => isNotFound e = true
    | Got info => checkContainerOwnership name info (ownerOf p) (svc_Name svc) = None
    end.
Lemma spared_prefix p svc h h' : h `prefix_of` h' → spared p svc h → spared p svc h'.
Proof. unfold spared. intros Hp. naive_solver eauto using seen_prefix. Qed.

(** Of everything ReconcileProject asks: only Docker is asked, as above, and nothing
    is changed before every service's name was seen to be free or its own. *)
Definition placing_allowed (dataRoot : string) (p : Project) (h : story) (c : call) : Prop :=
  match c with
  | Docker d =>
      place_allowed dataRoot p h d ∧
      (docker_read d = false → ∀ svc, svc ∈ sp_Services (p_Spec p) → spared p svc h)
  | _ => False
  end.

(** ** Volumes *)

Section volumes.
#[local] Set Default Proof Using "All".
Context (ok : story → call → Prop) (dataRoot : string) (p : Project) (touch : string → Prop) (h0 : story).
Hypothesis Hok : ∀ h d, h0 `prefix_of` h → ensure_allowed dataRoot p touch h d → ok h (Docker d).

Lemma ok_service h d : h0 `prefix_of` h → service_allowed dataRoot p touch h d → ok h (Docker d).
Proof. intros Hp Hd. apply Hok; [done|]. by destruct d. Qed.
Lemma ok_read h d : h0 `prefix_of` h → docker_read d = true → ok h (Docker d).
Proof. intros Hp Hd. apply Hok; [done|]. by destruct d. Qed.

Lemma awp_ensureManagedDir vol (Q : option failure → memory → story → Prop) m h :
  h0 `prefix_of` h → vol ∈ sp_Volumes (p_Spec p) → vol_Type vol = VolumeTypeManaged →
  (∀ r m' h', h `prefix_of` h' → Q r m' h') →
  awp ok (ensureManagedDir dataRoot (om_Namespace (p_Meta p)) (om_Name (p_Meta p)) (vol_Name vol)) Q m h.
Proof.
  intros Hp Hvol Hty HQ. unfold ensureManagedDir. destruct (HostPath _ _ _ _) as [path|e] eqn:Hh; [|by apply HQ].
  apply awp_or_return, (awp_call_bind ok (Docker _)); [apply Hok; [done|by exists vol]|]. intros x.
  destruct (wrapped _ _); [apply HQ; later|].
  apply (awp_call_bind ok (Docker _)); [apply ok_read; [later|done]|]. intros [info|e]; [|apply HQ; later].
  destruct (negb _); [apply HQ; later|].
  apply (awp_call_bind ok (Docker _)); [apply ok_read; [later|done]|]. intros y. apply HQ. later.
Qed.

Lemma awp_ensureEphemeralVolume vol (Q : option failure → memory → story → Prop) m h :
  h0 `prefix_of` h → vol ∈ sp_Volumes (p_Spec p) → vol_Type vol = VolumeTypeEphemeral →
  (∀ r m' h', h `prefix_of` h' → Q r m' h') →
  awp ok (ensureEphemeralVolume (identity_of_project p) (vol_Name vol)) Q m h.
Proof.
  intros Hp Hvol Hty HQ. apply (awp_call_bind ok (Docker _)); [by apply ok_read|]. intros [v|e]; [apply HQ; later|].
  destruct (isNotFound e) eqn:He; cbn [negb]; [|apply HQ; later].
  apply (awp_call_bind ok (Docker _)).
  - apply Hok; [later|]. split_and!; [by exists vol|..|by exists e; eauto with cara];
      unfold lbl; by rewrite ?lookup_insert_eq, ?lookup_insert_ne, ?lookup_insert_eq by done.
  - intros y. apply HQ. later.
Qed.

Lemma awp_ensureVolumes (Q : option failure → memory → story → Prop) m h :
  h0 `prefix_of` h → (∀ r m' h', h `prefix_of` h' → Q r m' h') →
  awp ok (ensureVolumes dataRoot (identity_of_project p) (sp_Volumes (p_Spec p))) Q m h.
Proof.
  intros Hp HQ. apply (awp_try_each _ _ _ (λ _ _, True)); [done| |by intros; apply HQ].
  intros vol m' h' Hvol Hp'. case_decide; [by apply awp_ensureManagedDir; [later|..]|].
  case_decide; [by apply awp_ensureEphemeralVolume; [later|..]|done].
Qed.
End volumes.

(** ** Placing *)

Section placing.
#[local] Set Default Proof Using "All".
Context (ok : story → call → Prop) (dataRoot : string) (p : Project) (h0 : story).
Hypothesis Hok : ∀ h d, h0 `prefix_of` h → place_allowed dataRoot p h d → ok h (Docker d).

Lemma place_ensure h d : h0 `prefix_of` h → ensure_allowed dataRoot p (λ _, True) h d → ok h (Docker d).
Proof. intros Hp Hd. apply Hok; [done|]. by destruct d. Qed.
Lemma place_service h d : h0 `prefix_of` h → service_allowed dataRoot p (λ _, True) h d → ok h (Docker d).
Proof. intros Hp Hd. apply place_ensure; [done|]. by destruct d. Qed.
Lemma place_container h d : h0 `prefix_of` h → container_allowed (ownerOf p) (λ _, True) h d → ok h (Docker d).
Proof. intros Hp Hd. apply place_service; [done|]. by destruct d. Qed.

Lemma awp_stop_and_remove c (Q : list failure → memory → story → Prop) m h :
  h0 `prefix_of` h → owns (ownerOf p) (λ _, True) h (ce_ID c) →
  (∀ r m' h', h `prefix_of` h' → Q r m' h') → awp ok (stop_and_remove c) Q m h.
Proof.
  intros Hp Ho HQ. apply (awp_call_bind ok (Docker _)); [by apply place_container|]. intros x.
  apply (awp_call_bind ok (Docker _)); [apply place_container; [later|]|intros y; apply HQ; later].
  eapply owns_prefix; [|exact Ho]. later.
Qed.

Lemma awp_removeNetworkOfLifetime identity (Q : option failure → memory → story → Prop) m h :
  h0 `prefix_of` h → pi_Name identity = om_Name (p_Meta p) → (∀ r m' h', h `prefix_of` h' → Q r m' h') →
  awp ok (removeNetworkOfLifetime identity (om_UID (p_Meta p))) Q m h.
Proof.
  intros Hp Hi HQ. apply (awp_call_bind ok (Docker _)); [by apply place_container|].
  intros [net|e]; [|apply HQ; later]. case_decide as Hn; [apply HQ; later|].
  apply (awp_call_bind ok (Docker _)); [|intros y; apply HQ; later].
  apply Decidable.not_or in Hn as [H1%dec_stable H2%dec_stable].
  apply Hok; [later|]. do 2 eexists. split_and!; [apply seen_last|done|by rewrite <- Hi|done].
Qed.

Lemma awp_remove_named_volume name (Q : list failure → memory → story → Prop) m h :
  h0 `prefix_of` h → (∃ vol, vol ∈ sp_Volumes (p_Spec p) ∧ name = VolumeName (om_Name (p_Meta p)) (vol_Name vol)) →
  (∀ r m' h', h `prefix_of` h' → Q r m' h') → awp ok (remove_named_volume (Some (ownerOf p)) name) Q m h.
Proof.
  intros Hp Hn HQ. apply awp_bind, (awp_call_bind ok (Docker _)); [by apply place_container|]. intros [v|e].
  - cbn beta iota. case_bool_decide as Hu; cbn [negb]; [|apply HQ; later].
    apply (awp_call_bind ok (Docker _)); [|intros y; apply HQ; later].
    apply Hok; [later|]. split; [done|]. exists v. split; [apply seen_last|done].
  - simpl. destruct (isNotFound e); apply HQ; later.
Qed.

Lemma awp_rollback (Q : () → memory → story → Prop) m h :
  h0 `prefix_of` h → (∀ m' h', h `prefix_of` h' → Q () m' h') → awp ok (rollback p) Q m h.
Proof.
  intros Hp HQ. apply awp_bind, (awp_call_bind ok (Docker _)); [by apply place_container|].
  intros [es|e]; [|apply HQ; later]. apply awp_bind, awp_collect_each.
  { intros c m' h' Hc Hh'. case_bool_decide as Ho; [done|]. apply awp_stop_and_remove; [later| |done].
    right. left. do 3 eexists. split_and!; [|exact Hc|done|done|]; [eauto using seen_prefix, seen_last|].
    destruct (checkOwnershipLabels _ _ _ _) as [e|] eqn:Hck; [by destruct Ho|].
    by apply checkOwnershipLabels_None in Hck as [??]. }
  intros errs m' h' Hh'. apply awp_bind, awp_removeNetworkOfLifetime; [later|done|].
  intros r m2 h2 Hh2. apply awp_bind, awp_collect_each.
  { intros name m3 h3 Hn Hh3. apply awp_remove_named_volume; [later| |done].
    apply list_elem_of_fmap in Hn as (vol & -> & Hvol). exists vol. split; [|done].
    by apply list_elem_of_filter in Hvol as [_ ?]. }
  intros errs' m3 h3 Hh3. apply HQ. later.
Qed.

Lemma awp_removeCreated names (Q : () → memory → story → Prop) m h :
  h0 `prefix_of` h → (∀ m' h', h `prefix_of` h' → Q () m' h') → awp ok (removeCreated names p) Q m h.
Proof.
  intros Hp HQ. eapply awp_mono; [|apply awp_for_each]; [by intros [] m' h'; apply HQ|].
  intros name m' h' _ Hh'. apply (awp_call_bind ok (Docker _)); [apply place_container; [later|done]|].
  intros [info|e]; [|done]. destruct (checkContainerOwnership _ _ _ _) eqn:Ho; [done|].
  apply checkOwnershipLabels_None in Ho as [Ho _].
  apply (awp_call_bind ok (Docker _)); [|done]. apply place_container; [later|].
  left. do 2 eexists. split_and!; [apply seen_last|done..].
Qed.

Lemma awp_ensure_each created svcs (Q : option failure → memory → story → Prop) m h :
  h0 `prefix_of` h → svcs ⊆ sp_Services (p_Spec p) →
  (∀ r m' h', h `prefix_of` h' → (r = None → ∀ svc, svc ∈ svcs → service_up true p svc h') → Q r m' h') →
  awp ok (ensure_each dataRoot p created svcs) Q m h.
Proof.
  revert created Q m h. induction svcs as [|svc svcs IH]; intros created Q m h Hp Hsub HQ.
  { apply HQ; [done|]. intros _ svc Hs. inversion Hs. }
  cbn [ensure_each]. apply awp_bind.
  apply awp_ensureContainerPulled with (touch := λ _, True) (h0 := h0);
    [exact place_service|apply Hsub; by left|done|done|].
  intros [made [e|]] m' h' Hh' Hup.
  - apply awp_bind. destruct (FIs _ _); [apply awp_removeCreated|apply awp_rollback];
      (try later); intros m2 h2 Hh2; (apply HQ; [later|done]).
  - apply IH; [later|intros x Hx; apply Hsub; by right|]. intros r m2 h2 Hh2 Hr. apply HQ; [later|].
    intros Hn x [->|Hx]%elem_of_cons; [|by apply Hr]. eapply service_up_prefix; [exact Hh2|]. by apply Hup.
Qed.

Lemma awp_remove_unlisted (Q : option failure → memory → story → Prop) m h :
  h0 `prefix_of` h → (∀ r m' h', h `prefix_of` h' → Q r m' h') → awp ok (remove_unlisted p) Q m h.
Proof.
  intros Hp HQ. apply awp_or_return_value, (awp_call_bind ok (Docker _)); [by apply place_container|].
  intros [es|e]; [|apply HQ; later]. cbn beta iota.
  apply (awp_try_each _ _ _ (λ _ _, True)); [done| |intros; apply HQ; later].
  intros c m' h' _ Hh'. apply awp_bind.
  by apply awp_removeOwnedContainer with (touch := λ _, True) (h0 := h0); [exact place_container|later|..].
Qed.
End placing.

Lemma awp_checkExistingOwnership dataRoot p (Q : option failure → memory → story → Prop) m h :
  (∀ r m' h', h `prefix_of` h' → (r = None → ∀ svc, svc ∈ sp_Services (p_Spec p) → spared p svc h') → Q r m' h') →
  awp (placing_allowed dataRoot p) (checkExistingOwnership p) Q m h.
Proof.
  intros HQ. apply (awp_try_each _ _ _ (spared p)); [intros *; apply spared_prefix| |done].
  intros svc m' h' Hsvc Hh'. apply (awp_call_bind _ (Docker _)); [done|].
  intros r. simpl. destruct r as [info|e] eqn:Hr.
  - destruct (checkContainerOwnership _ _ _ _) eqn:Ho; [done|]. intros _. exists (Got info). split; [apply seen_last|done].
  - destruct (isNotFound e) eqn:He; [|done]. intros _. exists (Bad e). split; [apply seen_last|done].
Qed.

Lemma awp_DockerReconcileProject dataRoot p m :
  awp (placing_allowed dataRoot p) (DockerReconcileProject dataRoot p)
    (λ r _ h, r = None → ∀ svc, svc ∈ sp_Services (p_Spec p) → service_up true p svc h) m [].
Proof.
  apply awp_or_return, awp_checkExistingOwnership. intros [e|] m0 h0 _ Hs; [done|].
  assert (∀ h d, h0 `prefix_of` h → place_allowed dataRoot p h d → placing_allowed dataRoot p h (Docker d)) as Hok.
  { intros h d Hp Hd. split; [done|]. intros _ svc Hsvc. eapply spared_prefix; [exact Hp|]. by apply Hs. }
  pose proof (place_container _ dataRoot p h0 Hok) as Hc.
  apply awp_or_return, awp_bind, (awp_ensureNetwork _ (ownerOf p) (λ _, True) h0 Hc); [done|].
  intros [e|] m1 h1 H1; [done|]. apply awp_or_return, awp_bind.
  apply (awp_ensureVolumes _ dataRoot p (λ _, True) h0 (place_ensure _ dataRoot p h0 Hok)); [later|].
  intros [e|] m2 h2 H2; [by apply awp_bind, (awp_rollback _ dataRoot p h0 Hok); [later|]|].
  apply awp_or_return, (awp_ensure_each _ dataRoot p h0 Hok); [later|done|].
  intros [e|] m3 h3 H3 Hup; [done|]. apply (awp_remove_unlisted _ dataRoot p h0 Hok); [later|].
  intros r m4 h4 H4 _ svc Hsvc. eapply service_up_prefix; [exact H4|]. by apply Hup.
Qed.

