(* ===== verification/DockerRepair.v ===== *)
(** Repairing and updating a Running Project in Docker: RecoverServices with its
    read-only preflight (internal/agent/docker/client.go), SpecDrift and
    UpdateServices (internal/agent/docker/spec_update.go). *)
From Stdlib Require Import ZArith.
From stdpp Require Import prelude gmap strings.
From S2P Require Import Prelude.
From S2P Require Import ProjectTypes.
From S2P Require Import Strconv.
From S2P Require Import Failures.
From S2P Require Import Paths.
From S2P Require Import Tracker.
From S2P Require Import Engine.
From S2P Require Import Actions.
From S2P Require Import SpecHash.
From S2P Require Import DockerOwnership.
From S2P Require Import DockerRuntime.
From S2P Require Import DockerPlacing.
Import GoTime GoInt GoString.
Open Scope nat_scope.

Set Default Proof Using "Type".

(** ** Recovery *)

Definition recoveryTargets (p : Project) (services : list string) : list ServiceDef :=
  filter (λ svc, slices_Contains services (svc_Name svc) = true) (sp_Services (p_Spec p)).

Definition unavailable (svc : ServiceDef) (vm : VolumeMount) (vol : VolumeDef) (detail : string) : option failure :=
  Some (VolumeUnavailableError (svc_Name svc) (vm_Name vm) (vol_Type vol) detail).

Definition preflight_managed (dataRoot : string) (p : Project) (svc : ServiceDef) (vm : VolumeMount) (vol : VolumeDef)
    : act (option failure) :=
  match HostPath dataRoot (om_Namespace (p_Meta p)) (om_Name (p_Meta p)) (vm_Name vm) with
  | Bad e => Return (Some (wrap ("derive host path for volume " ++ Quote (vm_Name vm) ++ ": ")%string e))
  | Got hostPath =>
      dock (StatDir hostPath) ≫= λ info,
      match (info : reply DirInfo) with
      | Bad e =>
          Return (unavailable svc vm vol (hostPath ++ " is missing, recovery will not recreate it: " ++ FError e)%string)
      | Got info =>
          if negb (di_IsDir info) then
            Return (unavailable svc vm vol (hostPath ++ " exists but is not a directory")%string)
          else
            dock (Access hostPath true) ≫= λ r,
            Return (match (r : option failure) with
                    | Some e => unavailable svc vm vol (hostPath ++ " is not accessible: " ++ FError e)%string
                    | None => None
                    end)
      end
  end.

Definition preflight_ephemeral (p : Project) (svc : ServiceDef) (vm : VolumeMount) (vol : VolumeDef)
    : act (option failure) :=
  let vName := VolumeName (om_Name (p_Meta p)) (vm_Name vm) in
  dock (VolumeInspect vName) ≫= λ r,
  Return (match (r : reply VolumeJSON) with
          | Bad e =>
              if isNotFound e then
                unavailable svc vm vol
                  ("docker volume " ++ vName ++ " no longer exists, recovery will not create it empty")%string
              else Some (wrap ("inspect ephemeral volume " ++ vName ++ ": ")%string e)
          | Got existing =>
              match validateOwnership "volume" vName (vj_Labels existing) (identity_of_project p) with
              | Some e =>
                  unavailable svc vm vol ("docker volume " ++ vName
                    ++ " belongs to another Project lifetime, recovery will not mount it: " ++ FError e)%string
              | None => None
              end
          end).

Definition preflightVolumes (dataRoot : string) (p : Project) (svc : ServiceDef) : act (option failure) :=
  try_each (svc_VolumeMounts svc) (λ vm,
    match volume_named (p_Spec p) (vm_Name vm) with
    | None =>
        Return (Some (Text ("service " ++ Quote (svc_Name svc) ++ " mounts undeclared volume " ++ Quote (vm_Name vm))))
    | Some vol =>
        if decide (vol_Type vol = VolumeTypeManaged) then preflight_managed dataRoot p svc vm vol
        else if decide (vol_Type vol = VolumeTypeEphemeral) then preflight_ephemeral p svc vm vol
        else Return (Some (Text ("service " ++ Quote (svc_Name svc) ++ " mounts volume " ++ Quote (vm_Name vm)
                                 ++ " of unsupported type " ++ Quote (vol_Type vol))))
    end%string).

Definition preflight_one (dataRoot : string) (p : Project) (svc : ServiceDef) : act (option failure) :=
  let name := ContainerName (om_Name (p_Meta p)) (svc_Name svc) in
  (dock (ContainerInspect name) ≫= λ r,
   Return (match (r : reply ContainerJSON) with
           | Bad e =>
               if isNotFound e then None
               else Some (wrap ("preflight " ++ Quote (svc_Name svc) ++ ": inspect " ++ Quote name ++ ": ")%string e)
           | Got info =>
               wrapped ("preflight " ++ Quote (svc_Name svc) ++ ": ")%string
                 (checkContainerOwnership name info (ownerOf p) (svc_Name svc))
           end)) ;?
  (preflightVolumes dataRoot p svc ≫= λ r,
   Return (wrapped ("preflight " ++ Quote (svc_Name svc) ++ ": ")%string r)).
Definition preflightTargets (dataRoot : string) (p : Project) (targets : list ServiceDef) : act (option failure) :=
  try_each targets (preflight_one dataRoot p).
Definition DockerPreflightRecovery (dataRoot : string) (p : Project) (services : list string) : act (option failure) :=
  preflightTargets dataRoot p (recoveryTargets p services).

(** One service: create what is missing, start what is stopped, replace what is dead. *)
Definition recover_one (dataRoot : string) (p : Project) (svc : ServiceDef) : act (option failure) :=
  let name := ContainerName (om_Name (p_Meta p)) (svc_Name svc) in
  let ensure (what : string) :=
    ensureContainer dataRoot (ownerOf p) svc (p_Spec p) ≫= λ '(_, r),
    Return (wrapped (what ++ " " ++ Quote name ++ ": ")%string r) in
  dock (ContainerInspect name) ≫= λ r,
  match (r : reply ContainerJSON) with
  | Bad e =>
      if negb (isNotFound e) then Return (Some (wrap ("inspect " ++ Quote name ++ ": ")%string e))
      else ensure "recreate"%string
  | Got info =>
      match checkContainerOwnership name info (ownerOf p) (svc_Name svc) with
      | Some e => Return (Some e)
      | None =>
          if cj_Running info then Return None
          else if decide (cj_Status info = "dead"%string) then
            (dock (ContainerRemove (cj_ID info) true) ≫= λ r,
             Return (wrapped ("remove dead " ++ Quote name ++ ": ")%string r)) ;?
            ensure "recreate dead"%string
          else
            dock (ContainerStart (cj_ID info)) ≫= λ r,
            Return (wrapped ("start " ++ Quote name ++ ": ")%string r)
      end
  end.

Definition DockerRecoverServices (dataRoot : string) (p : Project) (services : list string) : act (option failure) :=
  let targets := recoveryTargets p services in
  let m := p_Meta p in
  preflightTargets dataRoot p targets ;?
  (ensureNetwork (om_Namespace m) (om_Name m) (om_UID m) ≫= λ r, Return (wrapped "ensure network: " r)) ;?
  try_each targets (recover_one dataRoot p).

(** ** Spec updates *)

(** The services in order: the outdated and the missing. *)
Fixpoint drift_each (p : Project) (svcs : list ServiceDef) : act (reply (list string * list string)) :=
  match svcs with
  | [] => Return (Got ([], []))
  | svc :: rest =>
      let name := ContainerName (om_Name (p_Meta p)) (svc_Name svc) in
      let next (outdated missing : list string) :=
        drift_each p rest ≫= λ r, Return (let! d := r in Got (outdated ++ d.1, missing ++ d.2)) in
      dock (ContainerInspect name) ≫= λ r,
      match (r : reply ContainerJSON) with
      | Bad e =>
          if isNotFound e then next [] [svc_Name svc]
          else Return (Bad (wrap ("inspect " ++ Quote name ++ ": ")%string e))
      | Got info =>
          match checkContainerOwnership name info (ownerOf p) (svc_Name svc) with
          | Some e => Return (Bad e)
          | None =>
              if decide (lbl (labelsOf info) labelSpecHash = ServiceSpecHash svc (p_Spec p)) then next [] []
              else next [svc_Name svc] []
          end
      end
  end.

Definition DockerSpecDrift (p : Project) : act (reply SpecDrift) :=
  drift_each p (sp_Services (p_Spec p)) ≫= λ r,
  match r with
  | Bad e => Return (Bad e)
  | Got (outdated, missing) =>
      unlistedContainers p (in_spec p) ≫= λ removed,
      Return (let! removed := removed in
              Got {| sd_Outdated := outdated; sd_Missing := missing; sd_Removed := removed |})
  end.

(** The declared service of a name: a later one replaces an earlier one. *)
Definition service_named (p : Project) (name : string) : option ServiceDef :=
  find_first (λ svc, bool_decide (svc_Name svc = name)) (rev (sp_Services (p_Spec p))).

Definition pull_images (p : Project) (build : list string) : act (option failure) :=
  try_each build (λ name,
    match service_named p name with
    | None => Return (Some (Text ("service " ++ Quote name ++ " is not in the spec")))
    | Some svc =>
        pullImage (svc_Image svc) ≫= λ r, Return (wrapped ("service " ++ Quote name ++ ": ") r)
    end%string).

(** In reverse spec order. *)
Definition remove_outdated (p : Project) (outdated : list string) : act (option failure) :=
  try_each (filter (λ svc, slices_Contains outdated (svc_Name svc) = true) (rev (sp_Services (p_Spec p)))) (λ svc,
    removeOwnedContainer (ContainerName (om_Name (p_Meta p)) (svc_Name svc)) (ownerOf p) (svc_Name svc)).

Definition create_new (dataRoot : string) (p : Project) (build : list string) : act (option failure) :=
  try_each (filter (λ svc, slices_Contains build (svc_Name svc) = true) (sp_Services (p_Spec p))) (λ svc,
    ensureContainerPulled dataRoot (ownerOf p) svc (p_Spec p) true ≫= λ '(_, r),
    Return (wrapped ("ensure container " ++ Quote (svc_Name svc) ++ ": ")%string r)).

Definition DockerUpdateServices (dataRoot : string) (p : Project) (drift : SpecDrift) : act (option failure) :=
  let build := sd_Outdated drift ++ sd_Missing drift in
  let m := p_Meta p in
  pull_images p build ;?
  remove_outdated p (sd_Outdated drift) ;?
  try_each (sd_Removed drift) (λ c, removeOwnedContainer (sc_Name c) (ownerOf p) (sc_Service c)) ;?
  (ensureNetwork (om_Namespace m) (om_Name m) (om_UID m) ≫= λ r, Return (wrapped "ensure network: " r)) ;?
  (ensureVolumes dataRoot (identity_of_project p) (sp_Volumes (p_Spec p)) ≫= λ r,
   Return (wrapped "ensure volumes: " r)) ;?
  create_new dataRoot p build.

(** ** What a recovery does *)

(** The mount's volume is declared and was seen to be there. *)
Definition volume_present (dataRoot : string) (p : Project) (vm : VolumeMount) (h : story) : Prop :=
  ∃ vol, volume_named (p_Spec p) (vm_Name vm) = Some vol ∧
    ((vol_Type vol = VolumeTypeManaged ∧
      ∃ path info, HostPath dataRoot (om_Namespace (p_Meta p)) (om_Name (p_Meta p)) (vm_Name vm) = Got path ∧
        Did (Docker (StatDir path)) (Got info) ∈ h ∧ di_IsDir info = true ∧ Did (Docker (Access path true)) None ∈ h) ∨
     (vol_Type vol = VolumeTypeEphemeral ∧
      let name := VolumeName (om_Name (p_Meta p)) (vm_Name vm) in
      ∃ v, Did (Docker (VolumeInspect name)) (Got v) ∈ h ∧
        validateOwnership "volume" name (vj_Labels v) (identity_of_project p) = None)).
Definition ready (dataRoot : string) (p : Project) (svc : ServiceDef) (h : story) : Prop :=
  spared p svc h ∧ ∀ vm, vm ∈ svc_VolumeMounts svc → volume_present dataRoot p vm h.

Definition target_names (p : Project) (targets : list ServiceDef) (name : string) : Prop :=
  ∃ svc, svc ∈ targets ∧ name = ContainerName (om_Name (p_Meta p)) (svc_Name svc).

(** Of everything a recovery asks: containers of the targets only, and nothing is
    changed before every target was ready. Volumes and directories are never made. *)
Definition recovering_allowed (dataRoot : string) (p : Project) (services : list string) (h : story) (c : call) : Prop :=
  let targets := recoveryTargets p services in
  match c with
  | Docker d =>
      service_allowed dataRoot p (target_names p targets) h d ∧
      (docker_read d = false → ∀ svc, svc ∈ targets → ready dataRoot p svc h)
  | _ => False
  end.

Lemma volume_present_prefix dataRoot p vm h h' :
  h `prefix_of` h' → volume_present dataRoot p vm h → volume_present dataRoot p vm h'.
Proof. unfold volume_present. intros Hp. naive_solver eauto using seen_prefix. Qed.
Lemma ready_prefix dataRoot p svc h h' : h `prefix_of` h' → ready dataRoot p svc h → ready dataRoot p svc h'.
Proof.
  intros Hp [Hs Hv]. split; [by eapply spared_prefix|]. intros vm Hvm.
  eapply volume_present_prefix; [exact Hp|]. by apply Hv.
Qed.

Section preflight.
#[local] Set Default Proof Using "All".
Context (ok : story → call → Prop) (dataRoot : string) (p : Project).
Hypothesis Hok : ∀ h d, docker_read d = true → ok h (Docker d).

Lemma awp_preflight_managed svc vm vol m h :
  volume_named (p_Spec p) (vm_Name vm) = Some vol → vol_Type vol = VolumeTypeManaged →
  awp ok (preflight_managed dataRoot p svc vm vol) (λ r _ h', r = None → volume_present dataRoot p vm h') m h.
Proof.
  intros Hv Ht. unfold preflight_managed. destruct (HostPath _ _ _ _) as [path|e] eqn:Hh; [|done].
  apply (awp_call_bind ok (Docker _)); [by apply Hok|]. intros [info|e]; [|done].
  destruct (di_IsDir info) eqn:Hd; cbn [negb]; [|done].
  apply (awp_call_bind ok (Docker _)); [by apply Hok|]. intros [e|]; [done|]. intros _.
  exists vol. split; [done|]. left. split; [done|]. exists path, info. split_and!; eauto with cara.
Qed.

Lemma awp_preflight_ephemeral svc vm vol m h :
  volume_named (p_Spec p) (vm_Name vm) = Some vol → vol_Type vol = VolumeTypeEphemeral →
  awp ok (preflight_ephemeral p svc vm vol) (λ r _ h', r = None → volume_present dataRoot p vm h') m h.
Proof.
  intros Hv Ht. apply (awp_call_bind ok (Docker _)); [by apply Hok|]. intros [v|e]; simpl; [|by destruct (isNotFound e)].
  destruct (validateOwnership _ _ _ _) eqn:Ho; [done|]. intros _.
  exists vol. split; [done|]. right. split; [done|]. exists v. split; [apply seen_last|done].
Qed.

Lemma awp_preflightVolumes svc m h :
  awp ok (preflightVolumes dataRoot p svc)
    (λ r _ h', r = None → ∀ vm, vm ∈ svc_VolumeMounts svc → volume_present dataRoot p vm h') m h.
Proof.
  apply (awp_try_each _ _ _ (volume_present dataRoot p)); [intros *; apply volume_present_prefix| |done].
  intros vm m' h' _ _. destruct (volume_named _ _) as [vol|] eqn:Hv; [|done].
  case_decide; [by apply awp_preflight_managed|]. case_decide; [by apply awp_preflight_ephemeral|done].
Qed.

Lemma awp_preflight_one svc m h :
  awp ok (preflight_one dataRoot p svc) (λ r _ h', r = None → ready dataRoot p svc h') m h.
Proof.
  apply awp_or_return, (awp_call_bind ok (Docker _)); [by apply Hok|]. intros r.
  assert (∀ h', spared p svc h' → awp ok (preflightVolumes dataRoot p svc ≫= λ r,
    Return (wrapped ("preflight " ++ Quote (svc_Name svc) ++ ": ")%string r))
    (λ r _ h', r = None → ready dataRoot p svc h') m h') as Hrest.
  { intros h' Hs. apply awp_bind. eapply awp_mono; [|apply awp_prefix, awp_preflightVolumes].
    intros [e|] m' h2 [Hv Hp]; [done|]. intros _. split; [by eapply spared_prefix|]. by apply Hv. }
  destruct r as [info|e]; cbn beta iota.
  - destruct (checkContainerOwnership _ _ _ _) eqn:Ho; [done|]. apply Hrest. exists (Got info). split; [apply seen_last|done].
  - destruct (isNotFound e) eqn:He; [|done]. apply Hrest. exists (Bad e). split; [apply seen_last|done].
Qed.

Lemma awp_preflightTargets targets m h :
  awp ok (preflightTargets dataRoot p targets)
    (λ r _ h', r = None → ∀ svc, svc ∈ targets → ready dataRoot p svc h') m h.
Proof.
  apply (awp_try_each _ _ _ (ready dataRoot p)); [intros *; apply ready_prefix| |done].
  intros svc m' h' _ _. apply awp_preflight_one.
Qed.
End preflight.

Section recovery.
#[local] Set Default Proof Using "All".
Context (ok : story → call → Prop) (dataRoot : string) (p : Project) (touch : string → Prop) (h0 : story).
Hypothesis Hok : ∀ h d, h0 `prefix_of` h → service_allowed dataRoot p touch h d → ok h (Docker d).

Lemma awp_recover_one svc m h :
  svc ∈ sp_Services (p_Spec p) → touch (ContainerName (om_Name (p_Meta p)) (svc_Name svc)) → h0 `prefix_of` h →
  awp ok (recover_one dataRoot p svc) (λ r _ h', r = None → service_up false p svc h') m h.
Proof.
  intros Hsvc Ht Hp. unfold recover_one. cbv zeta.
  assert (∀ what m' h', h `prefix_of` h' → awp ok (ensureContainer dataRoot (ownerOf p) svc (p_Spec p) ≫= λ '(_, r),
    Return (wrapped (what ++ " " ++ Quote (ContainerName (om_Name (p_Meta p)) (svc_Name svc)) ++ ": ")%string r))
    (λ r _ h', r = None → service_up false p svc h') m' h') as Hensure.
  { intros what m' h' Hh'. apply awp_bind. apply awp_ensureContainerPulled with (touch := touch) (h0 := h0);
      [done..|later|]. intros [made [e|]] m2 h2 H2 Hup; [done|]. intros _. by apply service_up_weaken, Hup. }
  pose proof (ok_container _ dataRoot p touch h0 Hok) as Hc.
  apply (awp_call_bind ok (Docker _)); [by apply Hc|]. intros [info|e].
  - destruct (checkContainerOwnership _ _ _ _) eqn:Ho; [done|].
    pose proof Ho as [Hcar _]%checkOwnershipLabels_None.
    match goal with |- awp _ _ _ _ ?h1 => assert (owns (ownerOf p) touch h1 (cj_ID info)) as Hown end.
    { left. do 2 eexists. split_and!; [apply seen_last|done..]. }
    destruct (cj_Running info) eqn:Hr; [intros _; left; do 2 eexists; split_and!; eauto with cara; done|].
    case_decide.
    + apply awp_or_return, (awp_call_bind ok (Docker _)); [apply Hc; [later|done]|]. intros [x|]; [done|].
      apply Hensure. later.
    + apply (awp_call_bind ok (Docker _)); [apply Hc; [later|done]|]. intros [x|]; [done|].
      intros _. left. do 2 eexists. split_and!; eauto with cara; done.
  - destruct (isNotFound e); cbn [negb]; [apply Hensure; later|done].
Qed.
End recovery.

Lemma awp_DockerRecoverServices dataRoot p services m :
  awp (recovering_allowed dataRoot p services) (DockerRecoverServices dataRoot p services)
    (λ r _ h, r = None → ∀ svc, svc ∈ recoveryTargets p services → service_up false p svc h) m [].
Proof.
  apply awp_or_return. eapply awp_mono; [|apply awp_preflightTargets; by intros ? []].
  intros [e|] m0 h0 Hr; [done|].
  assert (∀ h d, h0 `prefix_of` h → service_allowed dataRoot p (target_names p (recoveryTargets p services)) h d →
    recovering_allowed dataRoot p services h (Docker d)) as Hok.
  { intros h d Hp Hd. split; [done|]. intros _ svc Hsvc. eapply ready_prefix; [exact Hp|]. by apply Hr. }
  apply awp_or_return, awp_bind, (awp_ensureNetwork _ (ownerOf p) _ h0 (ok_container _ _ _ _ _ Hok)); [done|].
  intros [e|] m1 h1 H1; [done|]. apply (awp_try_each _ _ _ (service_up false p)); [intros *; apply service_up_prefix| |done].
  intros svc m2 h2 Hsvc H2. apply (awp_recover_one _ dataRoot p _ h0 Hok); [|by exists svc|later].
  by apply list_elem_of_filter in Hsvc as [_ ?].
Qed.

(** C14 (internal/agent/docker/client.go, RecoverServices): whatever Docker and the
    disk answer, a recovery changes nothing before every target service's container
    was seen absent or this assignment's, and every volume it mounts was seen to be
    there: a Managed directory that exists and is accessible, an Ephemeral volume of
    this lifetime. It then touches containers of the targets only, makes no volume and
    no directory and removes no network; and when it reports success every target was
    found running, started, or created and started. *)
Theorem recovery_confined (dataRoot : string) (p : Project) (services : list string) (w : world) (m : memory) :
  let '(r, _, h) := act_run w (DockerRecoverServices dataRoot p services) m [] in
  obeys (recovering_allowed dataRoot p services) h ∧
  (r = None → ∀ svc, svc ∈ recoveryTargets p services → service_up false p svc h).
Proof.
  pose proof (awp_adequate _ w _ _ m [] (awp_DockerRecoverServices dataRoot p services m) (obeys_nil _)) as [HQ Ho].
  by destruct (act_run _ _ _ _) as [[r m'] h].
Qed.

(** ** What an update does *)

(** The service's image was pulled, and the stream showed no error. *)
Definition pulled (p : Project) (name : string) (h : story) : Prop :=
  ∃ svc stream, service_named p name = Some svc ∧ Did (Docker (ImagePull (svc_Image svc))) (Got stream) ∈ h ∧
    drainPull stream = None.
Lemma pulled_prefix p name h h' : h `prefix_of` h' → pulled p name h → pulled p name h'.
Proof. unfold pulled. intros Hp. naive_solver eauto using seen_prefix. Qed.

Definition to_build (drift : SpecDrift) : list string := sd_Outdated drift ++ sd_Missing drift.

(** A container an update may touch: of a service it was told to build, or one it was
    told is of no service of the spec. *)
Definition update_touches (p : Project) (drift : SpecDrift) (name : string) : Prop :=
  (∃ svc, svc ∈ sp_Services (p_Spec p) ∧ svc_Name svc ∈ to_build drift ∧
     name = ContainerName (om_Name (p_Meta p)) (svc_Name svc)) ∨
  ∃ c, c ∈ sd_Removed drift ∧ name = sc_Name c.

Definition is_pull (d : docker_call) : bool := match d with ImagePull _ => true | _ => false end.

(** Of everything an update asks: nothing but pulls before every image is there. *)
Definition updating_allowed (dataRoot : string) (p : Project) (drift : SpecDrift) (h : story) (c : call) : Prop :=
  match c with
  | Docker d =>
      ensure_allowed dataRoot p (update_touches p drift) h d ∧
      (docker_read d || is_pull d = false → ∀ name, name ∈ to_build drift → pulled p name h)
  | _ => False
  end.

Lemma service_named_Some p name svc :
  service_named p name = Some svc → svc ∈ sp_Services (p_Spec p) ∧ svc_Name svc = name.
Proof.
  intros [Hin Hn]%find_first_Some. rewrite bool_decide_eq_true in Hn. by rewrite elem_of_rev in Hin.
Qed.

Lemma awp_pull_images dataRoot p drift build m h :
  awp (updating_allowed dataRoot p drift) (pull_images p build)
    (λ r _ h', r = None → ∀ name, name ∈ build → pulled p name h') m h.
Proof.
  apply (awp_try_each _ _ _ (pulled p)); [intros *; apply pulled_prefix| |done].
  intros name m' h' _ _. destruct (service_named p name) as [svc|] eqn:Hs; [|done].
  apply awp_bind, (awp_call_bind _ (Docker _)).
  - split; [|done]. exists svc. by apply service_named_Some in Hs as [??].
  - intros [stream|e]; [|done]. simpl. destruct (drainPull stream) eqn:Hd; [done|]. intros _.
    exists svc, stream. split_and!; eauto with cara.
Qed.

Section update.
#[local] Set Default Proof Using "All".
Context (ok : story → call → Prop) (dataRoot : string) (p : Project) (drift : SpecDrift) (h0 : story).
Let touch := update_touches p drift.
Hypothesis Hok : ∀ h d, h0 `prefix_of` h → service_allowed dataRoot p touch h d → ok h (Docker d).

Lemma awp_remove_outdated (Q : option failure → memory → story → Prop) m h :
  h0 `prefix_of` h → (∀ r m' h', h `prefix_of` h' → Q r m' h') → awp ok (remove_outdated p (sd_Outdated drift)) Q m h.
Proof.
  intros Hp HQ. apply (awp_try_each _ _ _ (λ _ _, True)); [done| |by intros; apply HQ].
  intros svc m' h' [Hn Hin]%list_elem_of_filter H'. rewrite slices_Contains_true in Hn. rewrite elem_of_rev in Hin.
  apply awp_removeOwnedContainer with (touch := touch) (h0 := h0);
    [apply (ok_container _ _ _ _ _ Hok)|later| |done].
  left. exists svc. split_and!; [done| |done]. apply elem_of_app. by left.
Qed.

Lemma awp_remove_removed (Q : option failure → memory → story → Prop) m h :
  h0 `prefix_of` h → (∀ r m' h', h `prefix_of` h' → Q r m' h') →
  awp ok (try_each (sd_Removed drift) (λ c, removeOwnedContainer (sc_Name c) (ownerOf p) (sc_Service c))) Q m h.
Proof.
  intros Hp HQ. apply (awp_try_each _ _ _ (λ _ _, True)); [done| |by intros; apply HQ].
  intros c m' h' Hc H'. apply awp_removeOwnedContainer with (touch := touch) (h0 := h0);
    [apply (ok_container _ _ _ _ _ Hok)|later| |done]. right. by exists c.
Qed.

Lemma awp_create_new m h :
  h0 `prefix_of` h →
  awp ok (create_new dataRoot p (to_build drift)) (λ r _ h', r = None →
    ∀ svc, svc ∈ sp_Services (p_Spec p) → svc_Name svc ∈ to_build drift → service_up true p svc h') m h.
Proof.
  intros Hp. apply (awp_try_each _ _ _ (service_up true p)); [intros *; apply service_up_prefix| |].
  - intros svc m' h' [Hn Hin]%list_elem_of_filter H'. rewrite slices_Contains_true in Hn. apply awp_bind.
    apply awp_ensureContainerPulled with (touch := touch) (h0 := h0); [done|done| |later|].
    { left. by exists svc. }
    intros [made [e|]] m2 h2 H2 Hup; [done|]. intros _. by apply Hup.
  - intros r m' h' _ Hr Hn svc Hsvc Hb. apply Hr; [done|]. apply list_elem_of_filter.
    by rewrite slices_Contains_true.
Qed.
End update.

Lemma awp_DockerUpdateServices dataRoot p drift m :
  awp (updating_allowed dataRoot p drift) (DockerUpdateServices dataRoot p drift) (λ r _ h, r = None →
    ∀ svc, svc ∈ sp_Services (p_Spec p) → svc_Name svc ∈ to_build drift → service_up true p svc h) m [].
Proof.
  apply awp_or_return. eapply awp_mono; [|apply awp_pull_images]. intros [e|] m0 h0 Hr; [done|].
  set (touch := update_touches p drift).
  assert (∀ h d, h0 `prefix_of` h → ensure_allowed dataRoot p touch h d → updating_allowed dataRoot p drift h (Docker d)) as Hok.
  { intros h d Hp Hd. split; [done|]. intros _ name Hn. eapply pulled_prefix; [exact Hp|]. by apply Hr. }
  pose proof (ok_service _ dataRoot p touch h0 Hok) as Hs. pose proof (ok_container _ dataRoot p touch h0 Hs) as Hc.
  apply awp_or_return, (awp_remove_outdated _ dataRoot p drift h0 Hs); [done|]. intros [e|] m1 h1 H1; [done|].
  apply awp_or_return, (awp_remove_removed _ dataRoot p drift h0 Hs); [done|]. intros [e|] m2 h2 H2; [done|].
  apply awp_or_return, awp_bind, (awp_ensureNetwork _ (ownerOf p) touch h0 Hc); [later|]. intros [e|] m3 h3 H3; [done|].
  apply awp_or_return, awp_bind, (awp_ensureVolumes _ dataRoot p touch h0 Hok); [later|]. intros [e|] m4 h4 H4; [done|].
  apply (awp_create_new _ dataRoot p drift h0 Hs). later.
Qed.

