(* ===== verification/DockerRemoval.v ===== *)
(** Removing what another assignment left in Docker: RemoveAssignment and
    AssignmentRemaining (internal/agent/docker/assignment_cleanup.go), and the
    three operations of the orphan sweep (internal/agent/docker/client.go). *)
From Stdlib Require Import ZArith.
From stdpp Require Import prelude gmap strings.
From S2P Require Import Prelude.
From S2P Require Import ProjectTypes.
From S2P Require Import Strconv.
From S2P Require Import Failures.
From S2P Require Import Tracker.
From S2P Require Import Engine.
From S2P Require Import Actions.
From S2P Require Import DockerOwnership.
From S2P Require Import DockerRuntime.
Import GoTime GoInt GoString.
Open Scope nat_scope.

Set Default Proof Using "Type".

(** ** One assignment *)

(** A container of the lifetime, of another generation. *)
Definition lifetimeHasContainers (a : Assignment) : act (reply bool) :=
  if as_AllGenerations a then Return (Got false)
  else
    dock (ContainerList (containerOwnershipFilters (lifetime_identity a))) ≫= λ r,
    Return (match (r : reply (list ContainerEntry)) with
            | Bad e => Bad (wrap ("list containers of lifetime " ++ as_UID a ++ ": ")%string e)
            | Got containers =>
                Got (existsb (λ c, negb (bool_decide
                       (lbl (ce_Labels c) labelGeneration = generationLabel (as_Generation a)))) containers)
            end).

Definition lifetime_network_matches (a : Assignment) (ls : labels) : bool :=
  bool_decide (lbl ls labelProject = as_Project a) && bool_decide (lbl ls labelUID = as_UID a) &&
  (bool_decide (lbl ls labelNamespace = EmptyString) || bool_decide (lbl ls labelNamespace = as_Namespace a)).
Definition lifetimeNetwork (a : Assignment) : act (reply (option NetworkJSON)) :=
  let name := NetworkName (as_Project a) in
  dock (NetworkInspect name) ≫= λ r,
  Return (match (r : reply NetworkJSON) with
          | Bad e => if isNotFound e then Got None else Bad (wrap ("inspect network " ++ Quote name ++ ": ")%string e)
          | Got net =>
              if negb (lifetime_network_matches a (nj_Labels net)) then Got None
              else if decide (nj_Name net = EmptyString) then
                Got (Some {| nj_ID := nj_ID net; nj_Name := name; nj_Labels := nj_Labels net |})
              else Got (Some net)
          end).

Definition lifetimeVolumes (a : Assignment) : act (reply (list VolumeJSON)) :=
  dock (VolumeList (resourceOwnershipFilters (lifetime_identity a))) ≫= λ r,
  Return (match (r : reply (list VolumeJSON)) with
          | Bad e => Bad (wrap ("list volumes of lifetime " ++ as_UID a ++ ": ")%string e)
          | Got vols => Got vols
          end).

Definition remove_listed_volume (v : VolumeJSON) : act (list failure) :=
  dock (VolumeRemove (vj_Name v)) ≫= λ r,
  Return (failed (wrapped ("remove volume " ++ vj_Name v ++ ": ")%string (real_error r))).

(** The network and the volumes, once no other generation has containers here. *)
Definition remove_shared (a : Assignment) : act (list failure) :=
  lifetimeNetwork a ≫= λ net,
  (match net with
   | Bad e => Return [e]
   | Got None => Return []
   | Got (Some net) =>
       dock (NetworkRemove (nj_ID net)) ≫= λ r,
       Return (failed (wrapped ("remove network " ++ Quote (nj_Name net) ++ ": ")%string (real_error r)))
   end) ≫= λ errs1,
  lifetimeVolumes a ≫= λ vols,
  match vols with
  | Bad e => Return (errs1 ++ [e])
  | Got vols => collect_each vols remove_listed_volume ≫= λ errs2, Return (errs1 ++ errs2)
  end.

Definition DockerRemoveAssignment (a : Assignment) : act (option failure) :=
  let what := ("remove assignment " ++ Assignment_String a ++ ": ")%string in
  if decide (as_UID a = EmptyString) then Return (Some (Text (what ++ "no UID to match resources by")%string))
  else
    dock (ContainerList (assignmentContainerFilters a)) ≫= λ r,
    match (r : reply (list ContainerEntry)) with
    | Bad e => Return (Some (wrap ("list containers of " ++ Assignment_String a ++ ": ")%string e))
    | Got containers =>
        collect_each containers stop_and_remove ≫= λ errs,
        match errors_Join errs with
        | Some e => Return (Some (wrap what e))
        | None =>
            lifetimeHasContainers a ≫= λ others,
            match others with
            | Bad e => Return (Some (wrap what e))
            | Got true => Return None
            | Got false => remove_shared a ≫= λ errs, Return (wrapped what (errors_Join errs))
            end
        end
    end.

Definition DockerAssignmentRemaining (a : Assignment) : act (reply (list string)) :=
  if decide (as_UID a = EmptyString) then
    Return (Bad (Text ("inspect assignment " ++ Assignment_String a ++ ": no UID to match resources by")%string))
  else
    dock (ContainerList (assignmentContainerFilters a)) ≫= λ r,
    match (r : reply (list ContainerEntry)) with
    | Bad e => Return (Bad (wrap ("list containers of " ++ Assignment_String a ++ ": ")%string e))
    | Got containers =>
        let remaining := (λ c, "container " ++ firstName (ce_Names c))%string <$> containers in
        lifetimeHasContainers a ≫= λ others,
        match others with
        | Bad e => Return (Bad e)
        | Got true => Return (Got remaining)
        | Got false =>
            lifetimeNetwork a ≫= λ net,
            match net with
            | Bad e => Return (Bad e)
            | Got net =>
                lifetimeVolumes a ≫= λ vols,
                Return (match vols with
                        | Bad e => Bad e
                        | Got vols =>
                            Got (remaining ++ option_list ((λ n, "network " ++ nj_Name n)%string <$> net) ++
                                 ((λ v, "volume " ++ vj_Name v)%string <$> vols))
                        end)
            end
        end
    end.

(** ** Orphans *)

Definition entry_identity (c : ContainerEntry) : ProjectIdentity :=
  {| pi_Namespace := lbl (ce_Labels c) labelNamespace; pi_Name := lbl (ce_Labels c) labelProject;
     pi_UID := lbl (ce_Labels c) labelUID |}.
(** All three ownership labels are there. *)
Definition complete_labels (c : ContainerEntry) : bool :=
  negb (bool_decide (pi_Namespace (entry_identity c) = EmptyString) ||
        bool_decide (pi_Name (entry_identity c) = EmptyString) ||
        bool_decide (lbl (ce_Labels c) labelService = EmptyString)).
(** Each identity once, in the order of the listing. *)
Fixpoint identities (seen : list ProjectIdentity) (containers : list ContainerEntry) : list ProjectIdentity :=
  match containers with
  | [] => []
  | c :: rest =>
      let id := entry_identity c in
      if negb (complete_labels c) || bool_decide (id ∈ seen) then identities seen rest
      else id :: identities (id :: seen) rest
  end.
Definition DockerListLocalProjects : act (reply (list ProjectIdentity)) :=
  dock (ContainerList [labelProject; labelNamespace; labelService]) ≫= λ r,
  Return (match (r : reply (list ContainerEntry)) with
          | Bad e => Bad (wrap "list containers: " e)
          | Got containers => Got (identities [] containers)
          end).

Definition DockerStopOrphanProject (id : ProjectIdentity) : act (option failure) :=
  dock (ContainerList (containerOwnershipFilters id)) ≫= λ r,
  match (r : reply (list ContainerEntry)) with
  | Bad e => Return (Some (wrap "list orphan containers: " e))
  | Got containers =>
      collect_each containers (λ c,
        if bool_decide (ce_State c = "running"%string) || bool_decide (ce_State c = "restarting"%string) then
          dock (ContainerStop (ce_ID c) (Some stopTimeoutSeconds)) ≫= λ r,
          Return (failed (wrapped ("stop container " ++ shortID (ce_ID c) ++ ": ")%string (real_error r)))
        else Return []) ≫= λ errs,
      Return (wrapped ("stop orphan project " ++ ProjectIdentity_String id ++ ": ")%string (errors_Join errs))
  end.

Definition DockerRemoveOrphanProject (id : ProjectIdentity) : act (option failure) :=
  dock (ContainerList (containerOwnershipFilters id)) ≫= λ r,
  match (r : reply (list ContainerEntry)) with
  | Bad e => Return (Some (wrap "list orphan containers: " e))
  | Got containers =>
      collect_each containers (λ c,
        dock (ContainerRemove (ce_ID c) true) ≫= λ r,
        Return (failed (wrapped ("remove container " ++ shortID (ce_ID c) ++ ": ")%string (real_error r)))) ≫= λ errs1,
      removeOwnedNetwork id ≫= λ err2,
      dock (VolumeList (resourceOwnershipFilters id)) ≫= λ r,
      (match (r : reply (list VolumeJSON)) with
       | Bad e => Return [wrap "list orphan volumes: " e]
       | Got vols => collect_each vols remove_listed_volume
       end) ≫= λ errs3,
      Return (wrapped ("remove orphan project " ++ ProjectIdentity_String id ++ ": ")%string
                (errors_Join (errs1 ++ failed err2 ++ errs3)))
  end.

(** ** What a removal does *)

(** What Docker documents of a label filter [k=v], for the containers a listing shows. *)
Definition shown_by (filters : list string) (ls : labels) : Prop :=
  ∀ k v, Contains k "=" = false → label_is k v ∈ filters → lbl ls k = v.

Definition of_identity (id : ProjectIdentity) (ls : labels) : Prop :=
  lbl ls labelProject = pi_Name id ∧ lbl ls labelNamespace = pi_Namespace id ∧
  (pi_UID id ≠ EmptyString → lbl ls labelUID = pi_UID id).
Definition of_assignment (a : Assignment) (ls : labels) : Prop :=
  of_identity (lifetime_identity a) ls ∧
  (as_AllGenerations a = false → lbl ls labelGeneration = generationLabel (as_Generation a)).

Lemma shown_by_identity id ls : shown_by (containerOwnershipFilters id) ls → of_identity id ls.
Proof.
  intros H. split_and!; [apply H; [done|]..|intros Hu; apply H; [done|]]; unfold containerOwnershipFilters;
    [set_solver..|rewrite decide_False by done; set_solver].
Qed.
Lemma shown_by_assignment a ls : shown_by (assignmentContainerFilters a) ls → of_assignment a ls.
Proof.
  unfold assignmentContainerFilters. intros H. split.
  - apply shown_by_identity. intros k v Hp Hk. apply H; [done|]. apply elem_of_app. by left.
  - intros Ha. apply H; [done|]. rewrite Ha. set_solver.
Qed.

(** A container of the listing of [filters]; if that listing shows what it was asked
    for, a container of the assignment. *)
Definition container_listed (filters : list string) (h : story) (id : string) (P : labels → Prop) : Prop :=
  ∃ es e, Did (Docker (ContainerList filters)) (Got es) ∈ h ∧ e ∈ es ∧ ce_ID e = id ∧
    (shown_by filters (ce_Labels e) → P (ce_Labels e)).
(** A volume of the listing of [filters]. *)
Definition volume_listed (filters : list string) (h : story) (name : string) : Prop :=
  ∃ vs v, Did (Docker (VolumeList filters)) (Got vs) ∈ h ∧ v ∈ vs ∧ vj_Name v = name.

(** No other generation of the lifetime has a container here. *)
Definition no_other_generation (a : Assignment) (h : story) : Prop :=
  as_AllGenerations a = true ∨
  ∃ es, Did (Docker (ContainerList (containerOwnershipFilters (lifetime_identity a)))) (Got es) ∈ h ∧
    ∀ e, e ∈ es → lbl (ce_Labels e) labelGeneration = generationLabel (as_Generation a).

(** Every container that was listed was stopped and removed, or was already gone. *)
Definition gone (c : ContainerEntry) (h : story) : Prop :=
  ∃ r r', Did (Docker (ContainerStop (ce_ID c) (Some stopTimeoutSeconds))) r ∈ h ∧
    Did (Docker (ContainerRemove (ce_ID c) true)) r' ∈ h ∧ real_error r = None ∧ real_error r' = None.
Definition assignment_gone (a : Assignment) (h : story) : Prop :=
  ∃ es, Did (Docker (ContainerList (assignmentContainerFilters a))) (Got es) ∈ h ∧ ∀ e, e ∈ es → gone e h.
Lemma gone_prefix c h h' : h `prefix_of` h' → gone c h → gone c h'.
Proof. unfold gone. intros Hp. naive_solver eauto using seen_prefix. Qed.
Lemma assignment_gone_prefix a h h' : h `prefix_of` h' → assignment_gone a h → assignment_gone a h'.
Proof. intros Hp (es & Hes & He). exists es. split; [by eapply seen_prefix|]. intros e Hin. eapply gone_prefix; eauto. Qed.

Definition removal_allowed (a : Assignment) (h : story) (c : call) : Prop :=
  match c with
  | Docker (ContainerStop id _) | Docker (ContainerRemove id _) =>
      container_listed (assignmentContainerFilters a) h id (of_assignment a)
  | Docker (NetworkRemove id) =>
      assignment_gone a h ∧ no_other_generation a h ∧
      ∃ net, Did (Docker (NetworkInspect (NetworkName (as_Project a)))) (Got net) ∈ h ∧ nj_ID net = id ∧
        lifetime_network_matches a (nj_Labels net) = true
  | Docker (VolumeRemove name) =>
      assignment_gone a h ∧ no_other_generation a h ∧
      volume_listed (resourceOwnershipFilters (lifetime_identity a)) h name
  | Docker d => docker_read d = true
  | _ => False
  end ∧ as_UID a ≠ EmptyString.

Lemma awp_collect_each_done {X} ok (xs : list X) body (done : X → story → Prop) (Q : list failure → memory → story → Prop) m h :
  (∀ x h h', h `prefix_of` h' → done x h → done x h') →
  (∀ x m' h', x ∈ xs → h `prefix_of` h' → awp ok (body x) (λ errs _ h'', errs = [] → done x h'') m' h') →
  (∀ errs m' h', h `prefix_of` h' → (errs = [] → ∀ x, x ∈ xs → done x h') → Q errs m' h') →
  awp ok (collect_each xs body) Q m h.
Proof.
  intros Hmono. revert Q m h. induction xs as [|x xs IH]; intros Q m h Hb HQ; simpl.
  { apply HQ; [done|]. intros _ x Hx. inversion Hx. }
  apply awp_bind. eapply awp_mono; [|apply awp_prefix, Hb; [by left|done]].
  intros errs m' h' [Hd Hp]. apply awp_bind, IH.
  - intros y m'' h'' Hy Hp'. apply Hb; [by right|by etrans].
  - intros errs' m'' h'' Hp' Hr. apply HQ; [by etrans|]. intros [He He']%app_eq_nil y [->|Hy]%elem_of_cons.
    + eapply Hmono; [exact Hp'|]. by apply Hd.
    + by apply Hr.
Qed.

Section removal.
Context (a : Assignment) (Hu : as_UID a ≠ EmptyString).

Lemma awp_remove_listed es m h0 :
  Did (Docker (ContainerList (assignmentContainerFilters a))) (Got es) ∈ h0 →
  awp (removal_allowed a) (collect_each es stop_and_remove)
    (λ errs _ h, h0 `prefix_of` h ∧ (errs = [] → ∀ e, e ∈ es → gone e h)) m h0.
Proof using Hu.
  intros Hes. apply (awp_collect_each_done _ _ _ gone); [intros *; apply gone_prefix| |by intros].
  intros c m' h' Hc Hp.
  assert (∀ h, h' `prefix_of` h → container_listed (assignmentContainerFilters a) h (ce_ID c) (of_assignment a)) as Hl.
  { intros h Hh. exists es, c. split_and!; [|done|done|apply shown_by_assignment]. eapply seen_prefix; [|exact Hes]. by etrans. }
  apply (awp_call_bind _ (Docker _)); [split; [by apply Hl|done]|]. intros r.
  apply (awp_call_bind _ (Docker _)); [split; [apply Hl; later|done]|]. intros r' [H1 H2]%app_eq_nil.
  exists r, r'. split_and!; [eauto with cara..| |].
  - by destruct (real_error r).
  - by destruct (real_error r').
Qed.

Lemma awp_lifetimeHasContainers (Q : reply bool → memory → story → Prop) m h :
  (∀ r m' h', h `prefix_of` h' → (r = Got false → no_other_generation a h') → Q r m' h') →
  awp (removal_allowed a) (lifetimeHasContainers a) Q m h.
Proof using Hu.
  intros HQ. unfold lifetimeHasContainers. destruct (as_AllGenerations a) eqn:Ha; [by apply HQ; [done|intros _; left]|].
  apply (awp_call_bind _ (Docker _)); [done|]. intros [es|e]; [|by apply HQ; [later|]].
  apply HQ; [later|]. intros [= He]. right. exists es. split; [apply seen_last|]. intros c Hc.
  apply dec_stable. intros Hg. apply not_true_iff_false in He. apply He. apply existsb_exists. exists c.
  split; [by apply list_elem_of_In|]. by rewrite bool_decide_eq_false_2.
Qed.

Lemma awp_remove_shared m h :
  assignment_gone a h → no_other_generation a h → awp (removal_allowed a) (remove_shared a) (λ _ _ h', h `prefix_of` h') m h.
Proof using Hu.
  intros Hg Hn.
  assert (∀ h', h `prefix_of` h' → assignment_gone a h' ∧ no_other_generation a h') as Hkeep.
  { intros h' Hp. split; [by eapply assignment_gone_prefix|]. destruct Hn as [?|(es & Hes & He)]; [by left|].
    right. exists es. split; [by eapply seen_prefix|done]. }
  apply awp_bind, (awp_call_bind _ (Docker _)); [done|]. intros net.
  assert (∀ m' h' errs, h `prefix_of` h' → awp (removal_allowed a) (lifetimeVolumes a ≫= λ vols,
    match vols with
    | Bad e => Return (errs ++ [e])
    | Got vols => collect_each vols remove_listed_volume ≫= λ errs2, Return (errs ++ errs2)
    end) (λ _ _ h', h `prefix_of` h') m' h') as Hvols.
  { intros m' h' errs Hp. apply awp_bind, (awp_call_bind _ (Docker _)); [done|]. intros [vs|e]; [|simpl; later].
    apply awp_bind, awp_collect_each; [|intros; simpl; later]. intros v m2 h2 Hv Hp2.
    apply (awp_call_bind _ (Docker _)); [|done]. split; [|done]. split_and!; [apply Hkeep; later..|].
    exists vs, v. split_and!; [|done|done]. eapply seen_prefix; [exact Hp2|]. apply seen_last. }
  destruct net as [net|e]; cbn beta iota; [|destruct (isNotFound e); apply awp_bind, Hvols; later].
  destruct (lifetime_network_matches _ _) eqn:Hm; cbn [negb]; [|apply awp_bind, Hvols; later].
  case_decide; apply awp_bind, (awp_call_bind _ (Docker _));
    try (intros r; apply Hvols; later);
    (split; [|done]; split_and!; [apply Hkeep; later..|]; exists net; split_and!; [apply seen_last|done..]).
Qed.
End removal.

Lemma awp_DockerRemoveAssignment a m :
  awp (removal_allowed a) (DockerRemoveAssignment a) (λ r _ h, r = None → assignment_gone a h) m [].
Proof.
  unfold DockerRemoveAssignment. cbv zeta. case_decide as Hu; [done|].
  apply (awp_call_bind _ (Docker _)); [done|]. intros [es|e]; [|done].
  apply awp_bind. eapply awp_mono; [|apply (awp_remove_listed a Hu es); apply seen_last].
  intros errs m1 h1 [H1 Hg]. destruct (errors_Join errs) eqn:He; [done|]. apply errors_Join_None in He.
  assert (assignment_gone a h1) as Hag.
  { exists es. split; [eapply seen_prefix; [exact H1|apply seen_last]|]. by apply Hg. }
  apply awp_bind, (awp_lifetimeHasContainers a Hu). intros [[|]|e] m2 h2 H2 Hn; [|  |done].
  - intros _. by eapply assignment_gone_prefix.
  - apply awp_bind. assert (assignment_gone a h2) as Hag2 by (by eapply assignment_gone_prefix).
    eapply awp_mono; [|apply (awp_remove_shared a Hu); [done|by apply Hn]].
    intros errs' m3 h3 H3 _. exact (assignment_gone_prefix a _ _ H3 Hag2).
Qed.

(** Nothing of the assignment is left: no container; and, unless another generation
    of the lifetime lives here, no network and no volume either. *)
Definition nothing_left (a : Assignment) (h : story) : Prop :=
  Did (Docker (ContainerList (assignmentContainerFilters a))) (Got []) ∈ h ∧
  ((as_AllGenerations a = false ∧
    ∃ es e, Did (Docker (ContainerList (containerOwnershipFilters (lifetime_identity a)))) (Got es) ∈ h ∧ e ∈ es ∧
      lbl (ce_Labels e) labelGeneration ≠ generationLabel (as_Generation a)) ∨
   (no_other_generation a h ∧
    (∃ r, Did (Docker (NetworkInspect (NetworkName (as_Project a)))) r ∈ h ∧
       match (r : reply NetworkJSON) with
       | Bad e => isNotFound e = true
       | Got net => lifetime_network_matches a (nj_Labels net) = false
       end) ∧
    Did (Docker (VolumeList (resourceOwnershipFilters (lifetime_identity a)))) (Got []) ∈ h)).

Lemma other_generation_lives (a : Assignment) es :
  existsb (λ c, negb (bool_decide (lbl (ce_Labels c) labelGeneration = generationLabel (as_Generation a)))) es = true →
  ∃ e, e ∈ es ∧ lbl (ce_Labels e) labelGeneration ≠ generationLabel (as_Generation a).
Proof.
  intros (e & He & Hg)%existsb_exists. exists e. split; [by apply list_elem_of_In|].
  intros Heq. by rewrite bool_decide_eq_true_2 in Hg.
Qed.

Lemma awp_remaining_shared a (containers : list string) m h :
  awp (λ _ c, ∃ d, c = Docker d ∧ docker_read d = true)
    (lifetimeNetwork a ≫= λ net,
     match net with
     | Bad e => Return (Bad e)
     | Got net =>
         lifetimeVolumes a ≫= λ vols,
         Return (match vols with
                 | Bad e => Bad e
                 | Got vols =>
                     Got (containers ++ option_list ((λ n, "network " ++ nj_Name n)%string <$> net) ++
                          ((λ v, "volume " ++ vj_Name v)%string <$> vols))
                 end)
     end)
    (λ r _ h', h `prefix_of` h' ∧ (r = Got [] → containers = [] ∧
      (∃ r, Did (Docker (NetworkInspect (NetworkName (as_Project a)))) r ∈ h' ∧
         match (r : reply NetworkJSON) with
         | Bad e => isNotFound e = true
         | Got net => lifetime_network_matches a (nj_Labels net) = false
         end) ∧
      Did (Docker (VolumeList (resourceOwnershipFilters (lifetime_identity a)))) (Got []) ∈ h')) m h.
Proof.
  apply awp_bind, (awp_call_bind _ (Docker _)); [by eexists|]. intros net.
  match goal with |- awp _ (Return ?x) _ _ _ => set (found := x) end.
  assert (found = Got None → match (net : reply NetworkJSON) with
    | Bad e => isNotFound e = true | Got net => lifetime_network_matches a (nj_Labels net) = false end) as Hnone.
  { subst found. destruct net as [net|e]; [|by destruct (isNotFound e)].
    destruct (lifetime_network_matches _ _); cbn [negb]; [by case_decide|done]. }
  destruct found as [net'|e]; [|split; [later|done]].
  apply awp_bind, (awp_call_bind _ (Docker _)); [by eexists|].
  intros [vs|e]; (split; [later|]); [|done]. intros [= [Hc [Hn Hv]%app_eq_nil]%app_eq_nil].
  destruct net' as [n|]; [done|]. apply fmap_nil_inv in Hv as ->.
  split; [done|]. split; [exists net; split; [eauto with cara|by apply Hnone]|eauto with cara].
Qed.

Lemma awp_DockerAssignmentRemaining a m :
  awp (λ _ c, ∃ d, c = Docker d ∧ docker_read d = true) (DockerAssignmentRemaining a)
    (λ r _ h, r = Got [] → nothing_left a h) m [].
Proof.
  unfold DockerAssignmentRemaining. case_decide as Hu; [done|].
  apply (awp_call_bind _ (Docker _)); [by eexists|]. intros [es|e]; [|done]. cbv zeta.
  set (remaining := _ <$> es). assert (remaining = [] → es = []) as Hrem by apply fmap_nil_inv.
  unfold lifetimeHasContainers. destruct (as_AllGenerations a) eqn:Ha.
  - eapply awp_mono; [|apply (awp_remaining_shared a remaining)].
    intros r m' h' [Hp Hr] Hn. destruct (Hr Hn) as (->%Hrem & Hnet & Hv). split; [eapply seen_prefix; eauto; apply seen_last|].
    right. split_and!; [by left|done|done].
  - apply awp_bind, (awp_call_bind _ (Docker _)); [by eexists|]. intros [es'|e]; [|done]. cbn beta iota.
    destruct (existsb _ es') eqn:Hex.
    + intros [= ->%Hrem]. split; [eauto with cara|]. left. split; [done|].
      apply other_generation_lives in Hex as (c & Hc & Hg). exists es', c. split_and!; eauto with cara.
    + cbn [awp]. eapply awp_mono; [|apply (awp_remaining_shared a remaining)].
      intros r m' h' [Hp Hr] Hn. destruct (Hr Hn) as (->%Hrem & Hnet & Hv).
      split; [eapply seen_prefix; [exact Hp|]; eauto with cara|]. right. split_and!; [|done|done].
      right. exists es'. split; [eapply seen_prefix; [exact Hp|]; apply seen_last|]. intros c Hc.
      apply dec_stable. intros Hg. apply not_true_iff_false in Hex. apply Hex, existsb_exists. exists c.
      split; [by apply list_elem_of_In|]. by rewrite bool_decide_eq_false_2.
Qed.

(** (internal/agent/docker/assignment_cleanup.go, RemoveAssignment and
    AssignmentRemaining): whatever Docker answers, removing an assignment, which must
    name its UID, stops and removes only containers Docker listed under the
    assignment's own filters (which, when listings show what they are asked for, are
    containers of its namespace, name, UID and, unless every generation is meant, its
    generation); the lifetime's network and volumes go only after every container
    listed was stopped and removed and no other generation of the lifetime had a
    container here, the network only when inspected with the lifetime's labels, a
    volume only when listed under the lifetime's filters; success means every listed
    container is gone. The inspection that follows only reads, and it finds nothing
    only when Docker listed no container, and no network and no volume unless another
    generation lives here. *)
Theorem assignment_removal_confined (a : Assignment) (w : world) (m : memory) :
  (let '(r, _, h') := act_run w (DockerRemoveAssignment a) m [] in
   obeys (removal_allowed a) h' ∧ (r = None → assignment_gone a h')) ∧
  (let '(r, _, h') := act_run w (DockerAssignmentRemaining a) m [] in
   obeys (λ _ c, ∃ d, c = Docker d ∧ docker_read d = true) h' ∧ (r = Got [] → nothing_left a h')).
Proof.
  split.
  - pose proof (awp_adequate _ w _ _ m [] (awp_DockerRemoveAssignment a m) (obeys_nil _)) as [HQ Ho].
    by destruct (act_run _ _ _ _) as [[r m'] h'].
  - pose proof (awp_adequate _ w _ _ m [] (awp_DockerAssignmentRemaining a m) (obeys_nil _)) as [HQ Ho].
    by destruct (act_run _ _ _ _) as [[r m'] h'].
Qed.

(** ** What the orphan sweep does *)

Definition orphan_allowed (remove : bool) (id : ProjectIdentity) (h : story) (c : call) : Prop :=
  match c with
  | Docker (ContainerStop cid _) =>
      remove = false ∧ container_listed (containerOwnershipFilters id) h cid (of_identity id)
  | Docker (ContainerRemove cid _) =>
      remove = true ∧ container_listed (containerOwnershipFilters id) h cid (of_identity id)
  | Docker (NetworkRemove nid) =>
      remove = true ∧
      ∃ net, Did (Docker (NetworkInspect (NetworkName (pi_Name id)))) (Got net) ∈ h ∧ nj_ID net = nid ∧
        validateNetworkOwnership (NetworkName (pi_Name id)) (nj_Labels net) id = None
  | Docker (VolumeRemove name) => remove = true ∧ volume_listed (resourceOwnershipFilters id) h name
  | Docker d => docker_read d = true
  | _ => False
  end.

Lemma container_listed_identity id es c (h h' : story) :
  Did (Docker (ContainerList (containerOwnershipFilters id))) (Got es) ∈ h → c ∈ es → h `prefix_of` h' →
  container_listed (containerOwnershipFilters id) h' (ce_ID c) (of_identity id).
Proof.
  intros Hes Hc Hp. exists es, c. split_and!; [by eapply seen_prefix|done|done|apply shown_by_identity].
Qed.

Lemma awp_DockerStopOrphanProject id m :
  awp (orphan_allowed false id) (DockerStopOrphanProject id) (λ _ _ _, True) m [].
Proof.
  apply (awp_call_bind _ (Docker _)); [done|]. intros [es|e]; [|done].
  apply awp_bind, awp_collect_each; [|done]. intros c m' h' Hc Hp. destruct (_ || _); [|done].
  apply (awp_call_bind _ (Docker _)); [|done]. split; [done|]. eapply container_listed_identity; [apply seen_last|done|done].
Qed.

Lemma awp_removeOwnedNetwork id (Q : option failure → memory → story → Prop) m h :
  (∀ r m' h', h `prefix_of` h' → Q r m' h') → awp (orphan_allowed true id) (removeOwnedNetwork id) Q m h.
Proof.
  intros HQ. apply (awp_call_bind _ (Docker _)); [done|]. intros [net|e]; [|apply HQ; later].
  destruct (validateNetworkOwnership _ _ _) eqn:Hv; [apply HQ; later|].
  apply (awp_call_bind _ (Docker _)); [|intros r; apply HQ; later].
  split; [done|]. exists net. split_and!; [apply seen_last|done|done].
Qed.

Lemma awp_DockerRemoveOrphanProject id m :
  awp (orphan_allowed true id) (DockerRemoveOrphanProject id) (λ _ _ _, True) m [].
Proof.
  apply (awp_call_bind _ (Docker _)); [done|]. intros [es|e]; [|done].
  apply awp_bind, awp_collect_each.
  { intros c m' h' Hc Hp. apply (awp_call_bind _ (Docker _)); [|done]. split; [done|].
    eapply container_listed_identity; [apply seen_last|done|done]. }
  intros errs m1 h1 H1. apply awp_bind, awp_removeOwnedNetwork. intros r m2 h2 H2.
  apply (awp_call_bind _ (Docker _)); [done|]. intros [vs|e]; [|done].
  apply awp_bind, awp_collect_each; [|done]. intros v m' h' Hv Hp.
  apply (awp_call_bind _ (Docker _)); [|done]. split; [done|]. exists vs, v. split_and!; [|done|done].
  eapply seen_prefix; [exact Hp|]. apply seen_last.
Qed.

Lemma identities_spec seen containers :
  NoDup (identities seen containers) ∧
  ∀ id, id ∈ identities seen containers → id ∉ seen ∧
    ∃ c, c ∈ containers ∧ complete_labels c = true ∧ id = entry_identity c.
Proof.
  revert seen. induction containers as [|c rest IH]; intros seen; cbn [identities].
  { split; [apply NoDup_nil_2|]. intros id Hid. inversion Hid. }
  cbv zeta. destruct (complete_labels c) eqn:Hc; cbn [negb orb].
  - case_bool_decide as Hs; [|destruct (IH (entry_identity c :: seen)) as [Hnd Hin]].
    + destruct (IH seen) as [Hnd Hin]. split; [done|]. intros id Hid. destruct (Hin id Hid) as (Hn & c' & Hc' & H).
      split; [done|]. exists c'. split; [by right|done].
    + split.
      * apply NoDup_cons. split; [|done]. intros Hid. destruct (Hin _ Hid) as [Hn _]. apply Hn. by left.
      * intros id [->|Hid]%elem_of_cons; [split; [done|]; exists c; split_and!; [by left|done|done]|].
        destruct (Hin id Hid) as (Hn & c' & Hc' & H). split; [intros Hsn; apply Hn; by right|].
        exists c'. split; [by right|done].
  - destruct (IH seen) as [Hnd Hin]. split; [done|]. intros id Hid. destruct (Hin id Hid) as (Hn & c' & Hc' & H).
    split; [done|]. exists c'. split; [by right|done].
Qed.

(** (internal/agent/docker/client.go, ListLocalProjects, StopOrphanProject and
    RemoveOrphanProject): whatever Docker answers, stopping an orphan only stops, and
    removing one only removes; both only containers that Docker listed under the
    identity's own filters, and removal a network only when inspected with the
    identity's labels and a volume only when listed under them. The identities the
    sweep starts from are each listed once and each carried, complete, by a container
    of the listing. *)
Theorem orphan_sweep_confined (id : ProjectIdentity) (w : world) (m : memory) :
  obeys (orphan_allowed false id) (act_run w (DockerStopOrphanProject id) m []).2 ∧
  obeys (orphan_allowed true id) (act_run w (DockerRemoveOrphanProject id) m []).2 ∧
  (let '(r, _, h) := act_run w DockerListLocalProjects m [] in
   ∀ ids, r = Got ids → NoDup ids ∧ ∃ filters es, h = [Did (Docker (ContainerList filters)) (Got es)] ∧
     ∀ i, i ∈ ids → ∃ c, c ∈ es ∧ complete_labels c = true ∧ i = entry_identity c).
Proof.
  split_and!.
  - exact (proj2 (awp_adequate _ w _ _ m [] (awp_DockerStopOrphanProject id m) (obeys_nil _))).
  - exact (proj2 (awp_adequate _ w _ _ m [] (awp_DockerRemoveOrphanProject id m) (obeys_nil _))).
  - simpl. set (x := w _ _). clearbody x. simpl in x. destruct x as [es|e]; [|done]. intros ids [= <-].
    destruct (identities_spec [] es) as [Hnd Hin]. split; [done|].
    eexists _, es. split; [done|]. intros i Hi. by destruct (Hin i Hi).
Qed.
