(* ===== verification/VolumeData.v ===== *)
(** Which data a placed Project may use: provenance markers (restore/marker.go), the
    rule (restore/decision.go) and its use before containers start
    (restoresupport.go). *)
From Stdlib Require Import ZArith Lia.
From stdpp Require Import prelude gmap strings.
From S2P Require Import Prelude.
From S2P Require Import Conditions.
From S2P Require Import ProjectTypes.
From S2P Require Import AccessTypes.
From S2P Require Import Failures.
From S2P Require Import Paths.
From S2P Require Import Tracker.
From S2P Require Import Stores.
From S2P Require Import Actions.
Import GoTime GoInt GoString.
Open Scope nat_scope.
Open Scope go_scope.

Set Default Proof Using "Type".

(** ** restore/marker.go *)

Definition markerFilename : string := ".cara-restore.json".
Definition MarkerVersion : Z := 2.

Definition ProvenanceFor (p : Project) (nodeName backupID : string) : Provenance :=
  {| pv_Namespace := om_Namespace (p_Meta p); pv_Project := om_Name (p_Meta p);
     pv_ProjectUID := om_UID (p_Meta p); pv_NodeName := nodeName;
     pv_AssignmentGeneration := st_AssignmentGeneration (p_Status p); pv_BackupID := backupID |}.

(** A nil marker is [None]. *)
Definition IsLegacy (m : option Marker) : bool :=
  match m with None => true | Some m => Z.ltb (mk_Version m) MarkerVersion end.

Definition Matches (m : option Marker) (want : Provenance) : bool :=
  match m with
  | None => false
  | Some mk =>
      if IsLegacy m then false
      else bool_decide (mk_ProjectUID mk = pv_ProjectUID want) &&
           bool_decide (mk_NodeName mk = pv_NodeName want) &&
           bool_decide (mk_AssignmentGeneration mk = pv_AssignmentGeneration want)
  end.

Definition Mismatches (m : option Marker) (want : Provenance) : list string :=
  match m with
  | None => ["marker: absent"%string]
  | Some mk =>
      if IsLegacy m then
        [("version: " ++ FormatInt (mk_Version mk) ++ ", want " ++ FormatInt MarkerVersion)%string]
      else
        (if decide (mk_ProjectUID mk = pv_ProjectUID want) then []
         else [("projectUID: " ++ Quote (mk_ProjectUID mk) ++ ", want " ++ Quote (pv_ProjectUID want))%string]) ++
        (if decide (mk_NodeName mk = pv_NodeName want) then []
         else [("nodeName: " ++ Quote (mk_NodeName mk) ++ ", want " ++ Quote (pv_NodeName want))%string]) ++
        (if decide (mk_AssignmentGeneration mk = pv_AssignmentGeneration want) then []
         else [("assignmentGeneration: " ++ FormatInt (mk_AssignmentGeneration mk) ++ ", want "
                ++ FormatInt (pv_AssignmentGeneration want))%string])
  end.

Definition MarkerPath (dataRoot namespace project : string) : reply string :=
  let! dir := ProjectDir dataRoot namespace project in Got (path_join [dir; markerFilename]).

(** ** restore/decision.go *)

Inductive Decision := DecisionRestore | DecisionSkip | DecisionInitializeEmpty | DecisionBlock.
#[export] Instance Decision_eq_dec : EqDecision Decision.
Proof. solve_decision. Defined.
Definition Decision_String (d : Decision) : string :=
  match d with
  | DecisionRestore => "Restore" | DecisionSkip => "Skip"
  | DecisionInitializeEmpty => "InitializeEmpty" | DecisionBlock => "Block"
  end.

Definition BlockReason := string.
Definition BlockNone : BlockReason := EmptyString.
Definition BlockLegacyProvenance : BlockReason := "LegacyProvenance".
Definition BlockForeignProvenance : BlockReason := "ForeignProvenance".
Definition BlockUnprovenData : BlockReason := "UnprovenData".
Definition BlockCorruptProvenance : BlockReason := "CorruptProvenance".
Definition BlockNoRestoreSource : BlockReason := "NoRestoreSource".
Definition BlockMissingData : BlockReason := "MissingData".
Definition BlockStrategyRestoreUnavailable : BlockReason := "StrategyRestoreUnavailable".
Definition BlockRestoreInProgress : BlockReason := "RestoreInProgress".
Definition BlockRestoreFailed : BlockReason := "RestoreFailed".

Record VolumeSurvey := { vs_WithData : list string; vs_Empty : list string }.
Definition AnyData (s : VolumeSurvey) : bool := negb (Nat.eqb (length (vs_WithData s)) 0).
Definition Complete (s : VolumeSurvey) : bool := Nat.eqb (length (vs_Empty s)) 0.

Record PlacementState := {
  pl_StagingPresent : bool; pl_Marker : option Marker; pl_MarkerErr : option failure; pl_Volumes : VolumeSurvey
}.
Record Outcome := { oc_Decision : Decision; oc_Reason : BlockReason; oc_Detail : string }.

Definition firstPlacement (want : Provenance) (history : AssignmentHistory) : bool :=
  if decide (history = AssignmentHistoryUnknown) then false
  else Z.eqb (pv_AssignmentGeneration want) 1.

Definition volumeList (names : list string) : string :=
  match names with
  | [] => "no volume"
  | [n] => "volume " ++ Quote n
  | _ => "volumes " ++ Join (Quote <$> names) ", "
  end%string.
Definition plural (n : nat) (one many : string) : string := if Nat.eqb n 1 then one else many.

Definition decided (d : Decision) : Outcome := {| oc_Decision := d; oc_Reason := BlockNone; oc_Detail := EmptyString |}.
Definition blocked (reason : BlockReason) (detail : string) : Outcome :=
  {| oc_Decision := DecisionBlock; oc_Reason := reason; oc_Detail := detail |}.

Definition Decide (state : PlacementState) (want : Provenance) (history : AssignmentHistory) : Outcome :=
  if pl_StagingPresent state then decided DecisionRestore
  else if pl_MarkerErr state then
    blocked BlockCorruptProvenance "the local provenance marker could not be read"
  else if Matches (pl_Marker state) want then
    match pl_Marker state with
    | Some mk =>
        if negb (bool_decide (mk_InitializedFromBackupID mk = EmptyString)) && negb (Complete (pl_Volumes state))
        then blocked BlockMissingData
               ("provenance records a restore from generation " ++ Quote (mk_InitializedFromBackupID mk) ++ ", but "
                ++ volumeList (vs_Empty (pl_Volumes state)) ++ " "
                ++ plural (length (vs_Empty (pl_Volumes state))) "holds" "hold" ++ " no data")
        else decided DecisionSkip
    | None => decided DecisionSkip
    end
  else
    match pl_Marker state with
    | Some mk =>
        if IsLegacy (Some mk) then
          blocked BlockLegacyProvenance
            "local data predates provenance recording, so the assignment that produced it is unknown"
        else
          blocked BlockForeignProvenance
            ("local data belongs to another assignment (" ++ Join (Mismatches (Some mk) want) "; " ++ ")")
    | None =>
        if AnyData (pl_Volumes state) then
          blocked BlockUnprovenData "the volumes hold data that no provenance marker accounts for"
        else if firstPlacement want history then decided DecisionInitializeEmpty
        else decided DecisionRestore
    end%string.

Definition stagingRoot : string := "restore-staging".
Definition StagingDir (dataRoot namespace project : string) : reply string :=
  let! dir := ProjectDir dataRoot namespace project in
  Got (path_join [Clean dataRoot; stagingRoot; namespace; project]).

Definition StagingPresent (dataRoot namespace project : string) : act (reply bool) :=
  match StagingDir dataRoot namespace project with
  | Bad e => Return (Bad e)
  | Got dir =>
      call_ (Stat dir) ≫= λ r,
      Return (match (r : stat_answer) with
              | StatFound => Got true
              | StatAbsent => Got false
              | StatError e => Bad (Around ("restore: inspect staging " ++ Quote dir ++ ": ")%string e EmptyString)
              end)
  end.

(** [ReadMarker]: the marker, nil and an error, or neither. *)
Definition ReadMarker_ (dataRoot namespace project : string) : act (option Marker * option failure) :=
  match MarkerPath dataRoot namespace project with
  | Bad e => Return (None, Some e)
  | Got path =>
      call_ (ReadMarker path) ≫= λ r,
      Return (match (r : marker_answer) with
              | MarkerFound m => (Some m, None)
              | MarkerAbsent => (None, None)
              | MarkerError e => (None, Some e)
              end)
  end.

Definition survey_add (has : bool) (name : string) (s : VolumeSurvey) : VolumeSurvey :=
  if has then {| vs_WithData := vs_WithData s ++ [name]; vs_Empty := vs_Empty s |}
  else {| vs_WithData := vs_WithData s; vs_Empty := vs_Empty s ++ [name] |}.

Fixpoint survey_volumes (dataRoot namespace project : string) (survey : VolumeSurvey) (volumes : list VolumeDef)
    : act (reply VolumeSurvey) :=
  match volumes with
  | [] => Return (Got survey)
  | vol :: rest =>
      if decide (vol_Type vol = VolumeTypeManaged) then
        match HostPath dataRoot namespace project (vol_Name vol) with
        | Bad e => Return (Bad e)
        | Got path =>
            call_ (ReadDir path) ≫= λ r,
            let found (has : bool) :=
              survey_volumes dataRoot namespace project (survey_add has (vol_Name vol) survey) rest in
            match (r : dir_answer) with
            | DirEntries n => found (negb (Nat.eqb n 0))
            | DirAbsent => found false
            | DirForbidden => found true
            | DirError e =>
                Return (Bad (Around ("restore: inspect volume dir " ++ Quote path ++ ": ")%string e EmptyString))
            end
        end
      else survey_volumes dataRoot namespace project survey rest
  end.
Definition SurveyVolumes (dataRoot namespace project : string) (volumes : list VolumeDef)
    : act (reply VolumeSurvey) :=
  survey_volumes dataRoot namespace project {| vs_WithData := []; vs_Empty := [] |} volumes.

(** ** restoresupport.go *)

Definition decideRestore (dataRoot : string) (want : Provenance) (p : Project) : act (reply Outcome) :=
  let ns := om_Namespace (p_Meta p) in
  let name := om_Name (p_Meta p) in
  StagingPresent dataRoot ns name ≫= λ staging,
  match staging with
  | Bad e => Return (Bad e)
  | Got staging =>
      ReadMarker_ dataRoot ns name ≫= λ '(marker, markerErr),
      SurveyVolumes dataRoot ns name (sp_Volumes (p_Spec p)) ≫= λ volumes,
      match volumes with
      | Bad e => Return (Bad e)
      | Got volumes =>
          Return (Got (Decide {| pl_StagingPresent := staging; pl_Marker := marker; pl_MarkerErr := markerErr;
                                 pl_Volumes := volumes |} want (st_AssignmentHistory (p_Status p))))
      end
  end.

Definition hasManagedVolume (volumes : list VolumeDef) : bool :=
  existsb (λ v, bool_decide (vol_Type v = VolumeTypeManaged)) volumes.

Definition runRestore (p : Project) : act (option failure) :=
  let backupID := CommittedBackupID (st_Recovery (p_Status p)) in
  if decide (backupID = EmptyString) then
    Return (Some (PlacementBlockedError BlockNoRestoreSource
      "this Project has been placed before, but the server has no committed backup to restore from"))
  else call_ (RestoreGeneration p backupID).

(** The three flags say that there is a Restorer, a Coordinator and an object
    store; [pgRestore], that there is one for PostgresDifferential. *)
Definition ensureVolumeData (restorer coordinator objectStore : bool) (dataRoot nodeName : string) (p : Project)
    (pgRestore : bool) : act (option failure) :=
  if negb restorer || negb coordinator then Return None
  else if negb (hasManagedVolume (sp_Volumes (p_Spec p))) then Return None
  else
    let postgresDifferential := HasPostgresDifferential (p_Spec p) in
    if negb objectStore && negb postgresDifferential then Return None
    else
      let key := key_of_project p in
      call_ (TryClaim key OpRestore) ≫= λ ok,
      if negb (ok : bool) then Return (Some (Fails errDeferred))
      else
        let released (e : option failure) := call_ (Release key) ≫= λ _, Return e in
        decideRestore dataRoot (ProvenanceFor p nodeName EmptyString) p ≫= λ outcome,
        match outcome with
        | Bad e => released (Some e)
        | Got outcome =>
            match oc_Decision outcome with
            | DecisionBlock => released (Some (PlacementBlockedError (oc_Reason outcome) (oc_Detail outcome)))
            | DecisionSkip => released None
            | DecisionInitializeEmpty => call_ (InitializeEmpty p) ≫= released
            | DecisionRestore =>
                if postgresDifferential then
                  if negb pgRestore then
                    released (Some (PlacementBlockedError BlockStrategyRestoreUnavailable
                      "this Project's PostgresDifferential data would have to be restored from the object store, which this Node has none configured to reach"))
                  else
                    call_ (BeginPgRestore p) ≫= λ r,
                    let '(blocked, took) := (r : failure * bool) in
                    if took then Return (Some blocked) else released (Some blocked)
                else runRestore p ≫= released
            end
        end.

(** ** The rule, exactly *)

(** A marker names the assignment in [want]. *)
Definition names_assignment (mk : Marker) (want : Provenance) : Prop :=
  (MarkerVersion ≤ mk_Version mk)%Z ∧ mk_ProjectUID mk = pv_ProjectUID want ∧
  mk_NodeName mk = pv_NodeName want ∧ mk_AssignmentGeneration mk = pv_AssignmentGeneration want.
Definition first_grant (want : Provenance) (history : AssignmentHistory) : Prop :=
  history ≠ AssignmentHistoryUnknown ∧ pv_AssignmentGeneration want = 1%Z.

Lemma Matches_spec m want : Matches m want = true ↔ ∃ mk, m = Some mk ∧ names_assignment mk want.
Proof.
  unfold Matches, IsLegacy, names_assignment. destruct m as [mk|]; [|naive_solver].
  destruct (Z.ltb_spec (mk_Version mk) MarkerVersion) as [Hv|Hv].
  - split; [done|]. intros (mk' & [= <-] & Hv' & _). lia.
  - rewrite !andb_true_iff, !bool_decide_eq_true. naive_solver.
Qed.

Lemma firstPlacement_spec want history : firstPlacement want history = true ↔ first_grant want history.
Proof.
  unfold firstPlacement, first_grant. case_decide; [naive_solver|]. rewrite Z.eqb_eq. naive_solver.
Qed.

Lemma length_zero {A} (xs : list A) : Nat.eqb (length xs) 0 = true ↔ xs = [].
Proof. by destruct xs. Qed.

(** The rule with its readings as propositions. *)
Lemma Decide_cases state want history :
  let o := Decide state want history in
  (oc_Decision o = DecisionSkip ∧ oc_Reason o = BlockNone ∧
   pl_StagingPresent state = false ∧ pl_MarkerErr state = None ∧
   ∃ mk, pl_Marker state = Some mk ∧ names_assignment mk want ∧
     (mk_InitializedFromBackupID mk = EmptyString ∨ vs_Empty (pl_Volumes state) = [])) ∨
  (oc_Decision o = DecisionInitializeEmpty ∧ oc_Reason o = BlockNone ∧
   pl_StagingPresent state = false ∧ pl_MarkerErr state = None ∧ pl_Marker state = None ∧
   vs_WithData (pl_Volumes state) = [] ∧ first_grant want history) ∨
  (oc_Decision o = DecisionRestore ∧ oc_Reason o = BlockNone ∧
   (pl_StagingPresent state = true ∨
    pl_StagingPresent state = false ∧ pl_MarkerErr state = None ∧ pl_Marker state = None ∧
    vs_WithData (pl_Volumes state) = [] ∧ ¬ first_grant want history)) ∨
  (oc_Decision o = DecisionBlock ∧ oc_Reason o ≠ BlockNone ∧ pl_StagingPresent state = false ∧
   (is_Some (pl_MarkerErr state) ∨
    (∃ mk, pl_Marker state = Some mk ∧
      ¬ (names_assignment mk want ∧
         (mk_InitializedFromBackupID mk = EmptyString ∨ vs_Empty (pl_Volumes state) = []))) ∨
    (pl_Marker state = None ∧ vs_WithData (pl_Volumes state) ≠ []))).
Proof.
  unfold Decide. cbv zeta. destruct (pl_StagingPresent state); [simpl; tauto|].
  destruct (pl_MarkerErr state) as [e|]; [simpl; right; right; right; by eauto 10|].
  pose proof (Matches_spec (pl_Marker state) want) as Hm.
  destruct (Matches (pl_Marker state) want).
  - destruct Hm as [(mk & -> & Hmk) _]; [done|]. unfold Complete.
    pose proof (length_zero (vs_Empty (pl_Volumes state))) as He.
    destruct (Nat.eqb _ 0); case_bool_decide as Hi; simpl; [left|left|left|right; right; right];
      split_and!; try done; try (exists mk; split_and!; naive_solver).
    right. left. exists mk. split; [done|]. intros (_ & [?|Hn]); [done|]. by apply He in Hn.
  - destruct (pl_Marker state) as [mk|].
    + right. right. right. destruct (IsLegacy (Some mk)); simpl; split_and!; try done; right; left;
        exists mk; (split; [done|]); intros [Hn _]; destruct Hm as [_ Hm]; discriminate Hm; eauto.
    + unfold AnyData. pose proof (length_zero (vs_WithData (pl_Volumes state))) as Hw.
      destruct (Nat.eqb _ 0); simpl.
      * pose proof (firstPlacement_spec want history) as Hf.
        destruct (firstPlacement want history); simpl; naive_solver.
      * right. right. right. split_and!; [done|done|done|]. right. right. split; [done|].
        intros H. by apply Hw in H.
Qed.

(** ** What was seen of the Project's directories *)

Section volumes.
Context (dataRoot nodeName : string) (p : Project).
Notation ns := (om_Namespace (p_Meta p)).
Notation name := (om_Name (p_Meta p)).
Notation key := (key_of_project p).

(** The volumes the Project's own spec has on this Node. *)
Definition managed (v : VolumeDef) : Prop := v ∈ sp_Volumes (p_Spec p) ∧ vol_Type v = VolumeTypeManaged.

Definition staging_seen (b : bool) (h : story) : Prop :=
  ∃ dir, StagingDir dataRoot ns name = Got dir ∧ Did (Stat dir) (if b then StatFound else StatAbsent) ∈ h.
Definition marker_seen (m : option Marker) (h : story) : Prop :=
  ∃ path, MarkerPath dataRoot ns name = Got path ∧
    Did (ReadMarker path) (match m with Some mk => MarkerFound mk | None => MarkerAbsent end) ∈ h.
Definition dir_seen (has : bool) (r : dir_answer) : Prop :=
  match r with
  | DirEntries n => has = negb (Nat.eqb n 0)
  | DirAbsent => has = false
  | DirForbidden => has = true
  | DirError _ => False
  end.
Definition volume_seen (has : bool) (v : VolumeDef) (h : story) : Prop :=
  ∃ path r, HostPath dataRoot ns name (vol_Name v) = Got path ∧ dir_seen has r ∧ Did (ReadDir path) r ∈ h.

(** The data on this Node is proven to be this assignment's. *)
Definition proven_data (h : story) : Prop :=
  staging_seen false h ∧
  ∃ mk, marker_seen (Some mk) h ∧ names_assignment mk (ProvenanceFor p nodeName EmptyString) ∧
    (mk_InitializedFromBackupID mk = EmptyString ∨ ∀ v, managed v → volume_seen true v h).
(** There is nothing on this Node and nothing of the Project can be elsewhere. *)
Definition never_placed (h : story) : Prop :=
  staging_seen false h ∧ marker_seen None h ∧ (∀ v, managed v → volume_seen false v h) ∧
  st_AssignmentHistory (p_Status p) ≠ AssignmentHistoryUnknown ∧ st_AssignmentGeneration (p_Status p) = 1%Z.
(** There is nothing on this Node that may be used. *)
Definition nothing_usable (h : story) : Prop :=
  staging_seen true h ∨ marker_seen None h ∧ ∀ v, managed v → volume_seen false v h.

(** What may be done to the volumes, and when. *)
Definition data_allowed (h : story) (c : call) : Prop :=
  match c with
  | Stat _ | ReadDir _ | ReadMarker _ => True
  | TryClaim k op => k = key ∧ op = OpRestore
  | Release k => k = key
  | InitializeEmpty p' => p' = p ∧ never_placed h ∧ holds key OpRestore h
  | RestoreGeneration p' id =>
      p' = p ∧ id = CommittedBackupID (st_Recovery (p_Status p)) ∧ id ≠ EmptyString ∧
      HasPostgresDifferential (p_Spec p) = false ∧ nothing_usable h ∧ holds key OpRestore h
  | BeginPgRestore p' =>
      p' = p ∧ HasPostgresDifferential (p_Spec p) = true ∧ nothing_usable h ∧ holds key OpRestore h
  | _ => False
  end.

(** Containers may use the data. *)
Definition data_ready (h : story) : Prop :=
  proven_data h ∨
  (never_placed h ∧ Did (InitializeEmpty p) None ∈ h) ∨
  (nothing_usable h ∧
   Did (RestoreGeneration p (CommittedBackupID (st_Recovery (p_Status p)))) None ∈ h).

Definition is_read (c : call) : Prop :=
  match c with Stat _ | ReadDir _ | ReadMarker _ => True | _ => False end.

Lemma staging_seen_mono b P h h' : grows P h h' → staging_seen b h → staging_seen b h'.
Proof. intros Hg (dir & ? & ?). exists dir. split; [done|]. by eapply seen_grows. Qed.
Lemma marker_seen_mono m P h h' : grows P h h' → marker_seen m h → marker_seen m h'.
Proof. intros Hg (path & ? & ?). exists path. split; [done|]. by eapply seen_grows. Qed.
Lemma volume_seen_mono b v P h h' : grows P h h' → volume_seen b v h → volume_seen b v h'.
Proof. intros Hg (path & r & ? & ? & ?). exists path, r. split_and!; [done|done|]. by eapply seen_grows. Qed.

Lemma nothing_usable_mono P h h' : grows P h h' → nothing_usable h → nothing_usable h'.
Proof.
  intros Hg [Hs|[Hm Hv]]; [left; by eapply staging_seen_mono|right].
  split; [by eapply marker_seen_mono|]. intros v Hin. eapply volume_seen_mono; [done|by apply Hv].
Qed.
Lemma never_placed_mono P h h' : grows P h h' → never_placed h → never_placed h'.
Proof.
  intros Hg (Hs & Hm & Hv & Hr). split_and!; [by eapply staging_seen_mono|by eapply marker_seen_mono| |by apply Hr|by apply Hr].
  intros v Hin. eapply volume_seen_mono; [done|by apply Hv].
Qed.
Lemma proven_data_mono P h h' : grows P h h' → proven_data h → proven_data h'.
Proof.
  intros Hg (Hs & mk & Hm & Hn & Hv). split; [by eapply staging_seen_mono|]. exists mk.
  split_and!; [by eapply marker_seen_mono|done|]. destruct Hv as [Hv|Hv]; [by left|right].
  intros v Hin. eapply volume_seen_mono; [done|by apply Hv].
Qed.
Lemma data_ready_mono P h h' : grows P h h' → data_ready h → data_ready h'.
Proof.
  intros Hg [Hp|[[Hn Hi]|[Hn Hi]]]; [left; by eapply proven_data_mono|right; left|right; right];
    (split; [|by eapply seen_grows]); first [by eapply never_placed_mono|by eapply nothing_usable_mono].
Qed.

(** *** What the reads establish *)

Section reads.
Context (ok : story → call → Prop) (Hreads : ∀ h c, is_read c → ok h c).

Lemma awp_StagingPresent (Q : reply bool → memory → story → Prop) m h :
  (∀ r h', grows is_read h h' → (∀ b, r = Got b → staging_seen b h') → Q r m h') →
  awp ok (StagingPresent dataRoot ns name) Q m h.
Proof using Hreads.
  intros HQ. unfold StagingPresent. destruct (StagingDir dataRoot ns name) as [dir|e] eqn:Hd;
    [|by apply HQ; [apply grows_refl|]].
  apply awp_call_bind; [by apply Hreads|]. intros x. apply HQ; [by apply grows_call|].
  intros b Hb. exists dir. split; [done|]. destruct x; inversion Hb; subst; apply seen_last.
Qed.

Lemma awp_ReadMarker (Q : option Marker * option failure → memory → story → Prop) m h :
  (∀ r h', grows is_read h h' → (r.2 = None → marker_seen r.1 h') → Q r m h') →
  awp ok (ReadMarker_ dataRoot ns name) Q m h.
Proof using Hreads.
  intros HQ. unfold ReadMarker_. destruct (MarkerPath dataRoot ns name) as [path|e] eqn:Hp;
    [|by apply HQ; [apply grows_refl|]].
  apply awp_call_bind; [by apply Hreads|]. intros x. apply HQ; [by apply grows_call|].
  intros Hx. exists path. split; [done|]. destruct x; simpl in *; try done; apply seen_last.
Qed.

Definition surveyed (vols : list VolumeDef) (s : VolumeSurvey) (h : story) : Prop :=
  ∀ v, v ∈ vols → vol_Type v = VolumeTypeManaged →
    (vol_Name v ∈ vs_WithData s ∧ volume_seen true v h) ∨ (vol_Name v ∈ vs_Empty s ∧ volume_seen false v h).

Lemma awp_survey vols s0 (Q : reply VolumeSurvey → memory → story → Prop) m h :
  (∀ r h', grows is_read h h' →
    (∀ s, r = Got s → surveyed vols s h' ∧ vs_WithData s0 ⊆ vs_WithData s ∧ vs_Empty s0 ⊆ vs_Empty s) → Q r m h') →
  awp ok (survey_volumes dataRoot ns name s0 vols) Q m h.
Proof using Hreads.
  revert s0 h. induction vols as [|v vols IH]; intros s0 h HQ; simpl.
  - apply HQ; [apply grows_refl|]. intros s [= ->]. split; [|done]. intros v Hv. by apply elem_of_nil in Hv.
  - case_decide as Ht; cycle 1.
    { apply IH. intros r h' Hg Hr. apply HQ; [done|]. intros s Hs. destruct (Hr s Hs) as (Hsur & Hsub).
      split; [|done]. intros v' [->|Hin]%elem_of_cons Ht'; [done|]. by apply Hsur. }
    destruct (HostPath dataRoot ns name (vol_Name v)) as [path|e] eqn:Hp; [|by apply HQ; [apply grows_refl|]].
    split; [by apply Hreads|]. intros x.
    assert (∀ has, dir_seen has x → awp ok (survey_volumes dataRoot ns name (survey_add has (vol_Name v) s0) vols) Q m
                     (h ++ [Did (ReadDir path) x])) as Hfound.
    { intros has Hx. apply IH. intros r h' Hg Hr. apply HQ.
      { eapply grows_trans; [|exact Hg]. by apply grows_call. }
      intros s Hs. destruct (Hr s Hs) as (Hsur & Hw & He).
      assert (volume_seen has v h') as Hv.
      { exists path, x. split_and!; [done|done|]. eapply seen_grows; [exact Hg|]. apply seen_last. }
      split; [|by destruct has; simpl in *; set_solver].
      intros v' [->|Hin]%elem_of_cons Ht'; [|by apply Hsur].
      destruct has; [left|right]; (split; [|done]); [apply Hw|apply He]; simpl; set_solver. }
    simpl in x. destruct x as [n| | |e];
      [by apply (Hfound (negb (Nat.eqb n 0)))|by apply (Hfound false)|by apply (Hfound true)|].
    apply HQ; [by apply grows_call|done].
Qed.

(** The decision, with what was seen to take it. *)
Definition decided_on (o : Outcome) (h : story) : Prop :=
  match oc_Decision o with
  | DecisionSkip => proven_data h
  | DecisionInitializeEmpty => never_placed h
  | DecisionRestore => nothing_usable h
  | DecisionBlock => True
  end.

Lemma awp_decideRestore (Q : reply Outcome → memory → story → Prop) m h :
  (∀ r h', grows is_read h h' → (∀ o, r = Got o → decided_on o h') → Q r m h') →
  awp ok (decideRestore dataRoot (ProvenanceFor p nodeName EmptyString) p) Q m h.
Proof using Hreads.
  intros HQ. unfold decideRestore. cbv zeta. apply awp_bind, awp_StagingPresent. intros [st|e] h1 Hg1 Hst;
    [|by apply HQ].
  apply awp_bind, awp_ReadMarker. intros [mk err] h2 Hg2 Hmk. apply awp_bind, awp_survey.
  intros r h3 Hg3 Hs. pose proof (grows_trans _ _ _ _ Hg2 Hg3) as Hg23.
  destruct r as [s|e]; (apply HQ; [by eapply grows_trans|]); intros o Ho; [|done].
  injection Ho as <-. destruct (Hs s eq_refl) as (Hsur & _). specialize (Hst st eq_refl). simpl in Hmk.
  unfold decided_on. set (state := Build_PlacementState _ _ _ _).
  destruct (Decide_cases state (ProvenanceFor p nodeName EmptyString) (st_AssignmentHistory (p_Status p)))
    as [(-> & _ & Hs1 & He & mk' & Hm & Hn & Hv)|[(-> & _ & Hs1 & He & Hm & Hw & Hf)|[(-> & _ & Hr)|(-> & _)]]];
    [| | |done]; simpl in *; subst.
  - split; [by eapply staging_seen_mono|]. exists mk'.
    split; [eapply marker_seen_mono; [exact Hg3|by apply Hmk]|]. split; [exact Hn|].
    destruct Hv as [Hv|Hv]; [by left|right]. intros v [Hin Ht].
    destruct (Hsur v Hin Ht) as [[_ Hv']|[Hv' _]]; [done|]. rewrite Hv in Hv'. by apply elem_of_nil in Hv'.
  - destruct Hf as [Hh Hg]. split_and!; [by eapply staging_seen_mono|eapply marker_seen_mono; [exact Hg3|by apply Hmk]| |done|done].
    intros v [Hin Ht]. destruct (Hsur v Hin Ht) as [[Hv' _]|[_ Hv']]; [|done].
    rewrite Hw in Hv'. by apply elem_of_nil in Hv'.
  - destruct Hr as [->|(-> & -> & -> & Hw & _)]; [left; by eapply staging_seen_mono|right].
    split; [eapply marker_seen_mono; [exact Hg3|by apply Hmk]|].
    intros v [Hin Ht]. destruct (Hsur v Hin Ht) as [[Hv' _]|[_ Hv']]; [|done].
    rewrite Hw in Hv'. by apply elem_of_nil in Hv'.
Qed.
End reads.

(** *** The whole operation *)

(** Placement decides on the Project's data. *)
Definition governed (restorer coordinator objectStore : bool) : bool :=
  restorer && coordinator && hasManagedVolume (sp_Volumes (p_Spec p)) &&
  (objectStore || HasPostgresDifferential (p_Spec p)).

(** The claim is given back, unless a background restore took it over. *)
Definition handed_back (h : story) : Prop :=
  ¬ holds key OpRestore h ∨ ∃ b, Did (BeginPgRestore p) (b, true) ∈ h.

Lemma awp_released (e : option failure) (Q : option failure → memory → story → Prop) m h :
  (∀ h', grows (eq (Release key)) h h' → ¬ holds key OpRestore h' → Q e m h') →
  awp data_allowed (call_ (Release key) ≫= λ _, Return e) Q m h.
Proof.
  intros HQ. split; [done|]. intros x. apply HQ; [by apply grows_call|]. apply not_holds_released.
Qed.

Lemma awp_ensureVolumeData restorer coordinator objectStore pgRestore m h :
  (¬ holds key OpRestore h) →
  awp data_allowed (ensureVolumeData restorer coordinator objectStore dataRoot nodeName p pgRestore)
    (λ e _ h', (governed restorer coordinator objectStore = true → e = None → data_ready h') ∧ handed_back h') m h.
Proof.
  intros Hfree. unfold ensureVolumeData, governed.
  destruct restorer; [|by split; [|left]]. destruct coordinator; [|by split; [|left]]. simpl.
  destruct (hasManagedVolume _); [|by split; [|left]]. simpl.
  destruct (objectStore || HasPostgresDifferential (p_Spec p)) eqn:Hg; cycle 1.
  { apply orb_false_iff in Hg as [-> ->]. by split; [|left]. }
  assert (negb objectStore && negb (HasPostgresDifferential (p_Spec p)) = false) as ->
    by (by rewrite <- negb_orb, Hg).
  apply awp_call_bind; [done|]. intros [|]; simpl negb; cbv iota; cycle 1.
  { split; [done|]. left. by apply not_holds_ungranted. }
  apply awp_bind, awp_decideRestore; [by intros ? []|]. intros r h1 Hg1 Hr.
  assert (holds key OpRestore h1) as Hheld by (eapply holds_grows; [|exact Hg1|apply holds_claimed]; by intros []).
  assert (∀ (e : option failure) h2, (e = None → data_ready h2) →
    awp data_allowed (call_ (Release key) ≫= λ _, Return e)
      (λ e _ h', (true = true → e = None → data_ready h') ∧ handed_back h') m h2) as Hrel.
  { intros e h2 He. apply awp_released. intros h3 Hg3 Hn. split; [|by left].
    intros _ He'. eapply data_ready_mono; [exact Hg3|by apply He]. }
  destruct r as [o|e]; [|by apply Hrel]. specialize (Hr o eq_refl). unfold decided_on in Hr.
  destruct (oc_Decision o).
  - destruct (HasPostgresDifferential (p_Spec p)) eqn:Hpd.
    + destruct pgRestore; [|by apply Hrel]. split; [done|]. intros [b took]. destruct took; [|by apply Hrel].
      split; [done|]. right. exists b. apply seen_last.
    + unfold runRestore. cbv zeta. case_decide as Hid; [by apply Hrel|].
      apply awp_call_bind; [done|]. intros x. apply Hrel. intros ->. right. right.
      split; [|apply seen_last]. eapply nothing_usable_mono; [|exact Hr]. by apply (grows_call (λ _, True)).
  - apply Hrel. intros _. by left.
  - apply awp_call_bind; [done|]. intros x. apply Hrel. intros ->. right. left.
    split; [|apply seen_last]. eapply never_placed_mono; [|exact Hr]. by apply (grows_call (λ _, True)).
  - by apply Hrel.
Qed.
End volumes.

(** (restore/decision.go, Decide): what the local data decides, exactly. It is
    used when nothing is staged and a readable marker of this schema names this
    lifetime, Node and generation, with every volume holding data when the marker
    says a backup was restored; volumes start empty for the first grant of a Project
    whose history is known, with no marker and no data; the committed generation is
    restored over leftover staging, and where there is nothing for a Project placed
    before; everything else is refused with a reason. *)
Theorem Decide_exact (state : PlacementState) (want : Provenance) (history : AssignmentHistory) :
  let o := Decide state want history in
  let readable := pl_StagingPresent state = false ∧ pl_MarkerErr state = None in
  let empty := readable ∧ pl_Marker state = None ∧ vs_WithData (pl_Volumes state) = [] in
  (oc_Decision o = DecisionSkip ↔ readable ∧ ∃ mk, pl_Marker state = Some mk ∧ names_assignment mk want ∧
     (mk_InitializedFromBackupID mk = EmptyString ∨ vs_Empty (pl_Volumes state) = [])) ∧
  (oc_Decision o = DecisionInitializeEmpty ↔ empty ∧ first_grant want history) ∧
  (oc_Decision o = DecisionRestore ↔ pl_StagingPresent state = true ∨ empty ∧ ¬ first_grant want history) ∧
  (oc_Decision o = DecisionBlock ↔ oc_Reason o ≠ BlockNone).
Proof.
  pose proof (Decide_cases state want history) as H. cbv zeta in *. set (o := Decide state want history) in *.
  destruct H as [(Ed & Er & Hs & He & mk & Hm & Hn & Hv)|[(Ed & Er & Hs & He & Hm & Hw & Hf)|
    [(Ed & Er & Hr)|(Ed & Er & Hs & Hb)]]]; rewrite Ed.
  - split_and!; split; try done.
    + intros _. eauto 10.
    + intros ((_ & Hm' & _) & _). congruence.
    + intros [Hs'|((_ & Hm' & _) & _)]; congruence.
  - split_and!; split; try done.
    + intros (_ & mk & Hm' & _). congruence.
    + intros [Hs'|(_ & Hf')]; [congruence|done].
  - split_and!; split; try done.
    + intros ((Hs & _) & mk & Hm & _). destruct Hr as [Hr|(_ & _ & Hr & _)]; congruence.
    + intros (((Hs & _) & _) & Hf). destruct Hr as [Hr|(_ & _ & _ & _ & Hr)]; [congruence|done].
    + intros _. tauto.
  - split_and!; split; try done.
    + intros ((_ & He) & mk & Hm & Hn). destruct Hb as [[e Hb]|[(mk' & Hm' & Hb)|(Hm' & _)]]; [congruence| |congruence].
      rewrite Hm in Hm'. injection Hm' as <-. done.
    + intros (((_ & He) & Hm & Hw) & _). destruct Hb as [[e Hb]|[(mk' & Hm' & _)|(_ & Hb)]]; congruence.
    + intros [Hs'|(((_ & He) & Hm & Hw) & _)]; [congruence|].
      destruct Hb as [[e Hb]|[(mk' & Hm' & _)|(_ & Hb)]]; congruence.
Qed.

