(* ===== verification/Health.v ===== *)
(** What the containers of a Running Project say about it: the classification of
    health.go, and the pure helpers of loop.go and spec_update.go that decide on it
    and word it. *)
From Stdlib Require Import ZArith Lia.
From stdpp Require Import prelude gmap strings.
From S2P Require Import Prelude.
From S2P Require Import Conditions.
From S2P Require Import ProjectTypes.
From S2P Require Import Failures.
From S2P Require Import Tracker.
From S2P Require Import Actions.
Import GoTime GoInt GoString.
Open Scope nat_scope.

Set Default Proof Using "Type".

(** ** health.go *)

Inductive serviceHealth :=
| healthRunning | healthStartable | healthNeedsRecreate | healthPaused | healthTransient | healthUnknown
| healthNotOwned.
#[export] Instance serviceHealth_eq_dec : EqDecision serviceHealth.
Proof. solve_decision. Defined.

Definition serviceHealth_String (h : serviceHealth) : string :=
  match h with
  | healthRunning => "running" | healthStartable => "startable" | healthNeedsRecreate => "needs-recreate"
  | healthPaused => "paused" | healthTransient => "transient" | healthNotOwned => "not-owned"
  | healthUnknown => "unknown"
  end.

Record serviceState := {
  ss_Service : string; ss_Health : serviceHealth; ss_Status : string; ss_ExitCode : Z;
  ss_NotOwned : option failure
}.

Definition Crashed (s : serviceState) : bool :=
  bool_decide (ss_Status s = "exited"%string) && negb (Z.eqb (ss_ExitCode s) 0).

Definition Detail (s : serviceState) : string :=
  if decide (ss_Health s = healthNotOwned) then ss_Service s ++ "(not owned)"
  else if decide (ss_Status s = EmptyString) then ss_Service s
  else if decide (ss_Status s = "exited"%string) then ss_Service s ++ "(exit=" ++ FormatInt (ss_ExitCode s) ++ ")"
  else (ss_Service s ++ "(" ++ ss_Status s ++ ")")%string.

Definition classifyService (s : ContainerState) : serviceHealth :=
  if cs_NotOwned s then healthNotOwned
  else if decide (cs_Status s = "running"%string) then healthRunning
  else if decide (cs_Status s = "exited"%string ∨ cs_Status s = "created"%string) then healthStartable
  else if decide (cs_Status s = "dead"%string) then healthNeedsRecreate
  else if decide (cs_Status s = "paused"%string) then healthPaused
  else if decide (cs_Status s = "restarting"%string) then healthTransient
  else healthUnknown.

(** The map of states by service; a later state of a service replaces an earlier
    one. *)
Definition by_service (states : list ContainerState) : gmap string ContainerState :=
  foldl (λ m s, <[cs_ServiceName s := s]> m) ∅ states.

Definition classify_service_of (m : gmap string ContainerState) (svc : ServiceDef) : serviceState :=
  match m !! svc_Name svc with
  | None => {| ss_Service := svc_Name svc; ss_Health := healthNeedsRecreate; ss_Status := EmptyString;
               ss_ExitCode := 0; ss_NotOwned := None |}
  | Some state => {| ss_Service := svc_Name svc; ss_Health := classifyService state;
                     ss_Status := cs_Status state; ss_ExitCode := cs_ExitCode state;
                     ss_NotOwned := cs_NotOwned state |}
  end.

Definition classifyProject (p : Project) (states : list ContainerState) : list serviceState :=
  classify_service_of (by_service states) <$> sp_Services (p_Spec p).

Definition unhealthy (states : list serviceState) : list serviceState :=
  filter (λ s, ss_Health s ≠ healthRunning) states.

(** ** loop.go: deciding *)

Definition serviceNames (bad : list serviceState) : list string := ss_Service <$> bad.

Definition recoverable (bad : list serviceState) : bool :=
  forallb (λ s, bool_decide (ss_Health s = healthStartable ∨ ss_Health s = healthNeedsRecreate)) bad &&
  negb (Nat.eqb (length bad) 0).

Definition needsHuman (bad : list serviceState) : bool :=
  existsb (λ s, bool_decide (ss_Health s = healthPaused ∨ ss_Health s = healthUnknown)) bad.

Definition firstNotOwned (bad : list serviceState) : option serviceState :=
  find_first (λ s, bool_decide (ss_Health s = healthNotOwned)) bad.

Definition anyTransient (bad : list serviceState) : bool :=
  existsb (λ s, bool_decide (ss_Health s = healthTransient)) bad.

Definition detailList (bad : list serviceState) : string := Join (Detail <$> bad) ", ".

Inductive fault := Crash | Missing | Dead | Exited | Paused | Restarting | Unrecognised.
#[export] Instance fault_eq_dec : EqDecision fault.
Proof. solve_decision. Defined.
(** The flag a service sets. *)
Definition fault_of (s : serviceState) : fault :=
  if Crashed s then Crash
  else match ss_Health s with
       | healthNeedsRecreate => if decide (ss_Status s = EmptyString) then Missing else Dead
       | healthStartable => Exited
       | healthPaused => Paused
       | healthTransient => Restarting
       | _ => Unrecognised
       end.

Definition failureReason (bad : list serviceState) : string * string :=
  let has f := bool_decide (f ∈ fault_of <$> bad) in
  if has Crash then ("ContainerCrashed", "Containers crashed")
  else if has Missing then ("ContainerMissing", "Missing containers for services")
  else if has Exited then ("ContainerExited", "Containers exited cleanly")
  else if has Dead then ("ContainerUnhealthy", "Containers are dead")
  else if has Paused then ("ContainerUnhealthy", "Containers are paused")
  else if has Unrecognised then ("ContainerUnhealthy", "Containers are in an unrecognised state")
  else if has Restarting then ("ContainerUnhealthy", "Containers are restarting")
  else ("ContainerUnhealthy", "Containers are not running")%string.

Definition specUpdateNeeded (p : Project) (drift : SpecDrift) : bool :=
  if drift_Changes drift then true
  else Z.ltb (st_ObservedSpecRevision (p_Status p)) (om_SpecRevision (p_Meta p)) &&
       negb (Nat.eqb (length (sd_Missing drift)) 0).

Definition checkRecoveryFence (observed current : Project) (nodeName : string) : option failure :=
  let o := p_Meta observed in let c := p_Meta current in
  if decide (om_Namespace c ≠ om_Namespace o ∨ om_Name c ≠ om_Name o) then
    Some (Text ("project identity changed from " ++ om_Namespace o ++ "/" ++ om_Name o ++ " to "
                ++ om_Namespace c ++ "/" ++ om_Name c))
  else if decide (om_UID c ≠ om_UID o) then
    Some (Text ("project UID changed from " ++ Quote (om_UID o) ++ " to " ++ Quote (om_UID c)))
  else if decide (st_AssignmentGeneration (p_Status current) ≠ st_AssignmentGeneration (p_Status observed)) then
    Some (Text ("assignment generation changed from " ++ FormatInt (st_AssignmentGeneration (p_Status observed))
                ++ " to " ++ FormatInt (st_AssignmentGeneration (p_Status current))))
  else if decide (st_NodeRef (p_Status current) ≠ nodeName) then
    Some (Text ("project is assigned to node " ++ Quote (st_NodeRef (p_Status current)) ++ ", not this node "
                ++ Quote nodeName))
  else if decide (st_Phase (p_Status current) ≠ ProjectPhaseRunning) then
    Some (Text ("project phase is " ++ st_Phase (p_Status current) ++ ", not Running"))
  else None%string.

(** ** loop.go: wording *)

Definition recoveryBlockedVolumeUnavailable : string := "VolumeUnavailable".
Definition recoveryBlockedSecretNotFound : string := "SecretNotFound".
Definition recoveryBlockedSecretKeyNotFound : string := "SecretKeyNotFound".
Definition recoveryBlockedStaleContainer : string := "StaleContainer".

Definition volumeBlockedMessage (err : failure) : string :=
  match AsVolumeUnavailable err with
  | Some (service, volume, type) =>
      "service " ++ Quote service ++ " needs " ++ type ++ " volume " ++ Quote volume
      ++ ", which is not available on this node"
  | None => "a volume the services need is not available on this node"
  end%string.

Definition staleContainerMessage (err : option failure) : string :=
  match err ≫= AsContainerNotOwned with
  | Some service =>
      "service " ++ Quote service
      ++ " has a container left by another assignment, which cara will neither start nor remove"
  | None => "a service has a container left by another assignment, which cara will neither start nor remove"
  end%string.

Definition secretBlocked (err : failure) : option (string * string) :=
  match AsSecretRef err with
  | None => None
  | Some (service, secret, key) =>
      if FIs err ErrSecretNotFound then
        Some (recoveryBlockedSecretNotFound,
          "service " ++ Quote service ++ " needs Secret " ++ Quote secret ++ ", which does not exist")
      else if FIs err errSecretKeyNotFound then
        Some (recoveryBlockedSecretKeyNotFound,
          "service " ++ Quote service ++ " needs key " ++ Quote key ++ " in Secret " ++ Quote secret
          ++ ", which does not exist")
      else None
  end%string.

(** ** Properties *)

(** A service is in order: the last container reported under its name is this
    assignment's and runs. *)
Definition in_order (states : list ContainerState) (svc : ServiceDef) : Prop :=
  match find_first (λ s, bool_decide (cs_ServiceName s = svc_Name svc)) (rev states) with
  | Some s => cs_NotOwned s = None ∧ cs_Status s = "running"%string
  | None => False
  end.
#[export] Instance in_order_dec states svc : Decision (in_order states svc).
Proof. unfold in_order. destruct (find_first _ _); apply _. Defined.

Lemma by_service_last states name :
  by_service states !! name = find_first (λ s, bool_decide (cs_ServiceName s = name)) (rev states).
Proof.
  unfold by_service. induction states as [|s states IH] using rev_ind; [done|].
  rewrite foldl_snoc, rev_app_distr. simpl. case_bool_decide as Hn.
  - by rewrite Hn, lookup_insert_eq.
  - by rewrite lookup_insert_ne.
Qed.

Lemma classifyService_running s :
  classifyService s = healthRunning ↔ cs_NotOwned s = None ∧ cs_Status s = "running"%string.
Proof.
  unfold classifyService. destruct (cs_NotOwned s); [naive_solver|]. repeat case_decide; naive_solver.
Qed.

Lemma classify_running states svc :
  ss_Health (classify_service_of (by_service states) svc) = healthRunning ↔ in_order states svc.
Proof.
  unfold classify_service_of, in_order. rewrite by_service_last.
  destruct (find_first _ (rev states)) as [s|]; simpl; [apply classifyService_running|done].
Qed.

Lemma existsb_false {A} (f : A → bool) xs : existsb f xs = false ↔ ∀ x, x ∈ xs → f x = false.
Proof.
  induction xs as [|x xs IH]; simpl; [split; [by intros _ x ?%elem_of_nil|done]|].
  rewrite orb_false_iff, IH. setoid_rewrite elem_of_cons. naive_solver.
Qed.

(** (health.go, classifyProject and unhealthy; loop.go, needsHuman, anyTransient,
    recoverable): exactly the declared services whose container is missing, not this
    assignment's or not running count as unhealthy, in spec order, and exactly one
    thing is done about them: nothing, report a container of another assignment, call
    for a human, wait, or recover. *)
Theorem unhealthy_exact (p : Project) (states : list ContainerState) :
  let bad := unhealthy (classifyProject p states) in
  serviceNames bad = svc_Name <$> filter (λ svc, ¬ in_order states svc) (sp_Services (p_Spec p)) ∧
  (bad = [] ∨ is_Some (firstNotOwned bad) ∨ needsHuman bad = true ∨ anyTransient bad = true ∨
   recoverable bad = true) ∧
  (recoverable bad = true →
   bad ≠ [] ∧ firstNotOwned bad = None ∧ needsHuman bad = false ∧ anyTransient bad = false).
Proof.
  cbv zeta. set (bad := unhealthy _).
  assert (Forall (λ s, ss_Health s ≠ healthRunning) bad) as Hbad.
  { apply Forall_forall. intros s. unfold bad, unhealthy. rewrite list_elem_of_filter. tauto. }
  split_and!.
  - unfold bad, unhealthy, classifyProject, serviceNames.
    induction (sp_Services (p_Spec p)) as [|svc svcs IH]; [done|]. rewrite fmap_cons, !filter_cons.
    pose proof (classify_running states svc) as Hc. repeat case_decide; try tauto.
    rewrite !fmap_cons, IH. f_equal. unfold classify_service_of. by destruct (_ !! _).
  - destruct (decide (bad = [])) as [|Hne]; [by left|right].
    destruct (firstNotOwned bad) as [s|] eqn:En; [by left|right].
    destruct (needsHuman bad) eqn:Eh; [by left|right]. destruct (anyTransient bad) eqn:Et; [by left|right].
    unfold recoverable. apply andb_true_iff. split; [|by destruct bad].
    apply forallb_forall. intros s Hs%list_elem_of_In.
    unfold firstNotOwned, needsHuman, anyTransient in *.
    rewrite find_first_None in En. specialize (En s Hs).
    rewrite existsb_false in Eh, Et. specialize (Eh s Hs). specialize (Et s Hs).
    rewrite Forall_forall in Hbad. specialize (Hbad s Hs). cbn beta in *. rewrite !bool_decide_eq_false in *.
    rewrite bool_decide_eq_true. destruct (ss_Health s); tauto.
  - unfold recoverable, firstNotOwned, needsHuman, anyTransient. rewrite andb_true_iff, forallb_forall.
    intros [Hr Hn]. assert (∀ s, s ∈ bad → ss_Health s = healthStartable ∨ ss_Health s = healthNeedsRecreate) as Hr'.
    { intros s Hs%list_elem_of_In. by apply Hr, bool_decide_eq_true in Hs. }
    split_and!; [by destruct bad| | |].
    + apply find_first_None. intros s [Hs|Hs]%Hr'; by rewrite Hs.
    + apply existsb_false. intros s [Hs|Hs]%Hr'; by rewrite Hs.
    + apply existsb_false. intros s [Hs|Hs]%Hr'; by rewrite Hs.
Qed.
