(* ===== verification/Reports.v ===== *)
(** What the Agent writes of a Project it looks after: the conditions it sets and
    takes back, the container ownership check, proxy routes and spec revisions
    (loop.go, spec_update.go). Failed writes are only logged by the code: their
    answers are dropped here too. *)
From Stdlib Require Import ZArith Lia.
From stdpp Require Import prelude gmap strings.
From S2P Require Import Prelude.
From S2P Require Import Conditions.
From S2P Require Import ProjectTypes.
From S2P Require Import AccessTypes.
From S2P Require Import Failures.
From S2P Require Import Tracker.
From S2P Require Import Actions.
From S2P Require Import Health.
Import GoTime GoInt GoString.
Open Scope nat_scope.

Set Default Proof Using "Type".

Definition projectCondition (p : Project) (condType : ConditionType) : option Condition :=
  condition_of condType (st_Conditions (p_Status p)).

(** The snapshot already carries this report. *)
Definition carries (p : Project) (type : ConditionType) (reason message : string) : bool :=
  match projectCondition p type with
  | Some c => bool_decide (cond_Status c = ConditionTrue) && bool_decide (cond_Reason c = reason) &&
              bool_decide (cond_Message c = message)
  | None => false
  end.

Definition report_condition (type : ConditionType) (p : Project) (reason message : string) : act () :=
  if carries p type reason message then skip
  else
    call_ (PatchProjectCondition (om_Name (p_Meta p)) (fenceForProject p) type ConditionTrue reason message) ≫= λ _,
    skip.
Definition clear_condition (type : ConditionType) (p : Project) : act () :=
  match projectCondition p type with
  | None => skip
  | Some _ =>
      call_ (ClearProjectCondition (om_Name (p_Meta p)) (fenceForProject p) type) ≫= λ _, skip
  end.

Definition reportRecoveryBlocked := report_condition ConditionTypeRecoveryBlocked.
Definition clearRecoveryBlocked := clear_condition ConditionTypeRecoveryBlocked.
Definition reportTeardownBlocked := report_condition ConditionTypeTeardownBlocked.
Definition clearTeardownBlocked := clear_condition ConditionTypeTeardownBlocked.

Definition teardownBlockedNoCleaner : string := "CleanerUnavailable".
Definition teardownBlockedRemoveFailed : string := "RemoveFailed".
Definition teardownBlockedInspectFailed : string := "InspectFailed".
Definition teardownBlockedResourcesRemain : string := "ResourcesRemain".

(** [_ = client.UpdateProjectStatus(ctx, p.Name, fence, phase, reason, message)]. *)
Definition report_status (p : Project) (phase : ProjectPhase) (reason message : string) : act (option failure) :=
  call_ (UpdateProjectStatus (om_Name (p_Meta p)) (fenceForProject p) phase reason message).
Definition report_failed (p : Project) (reason message : string) : act () :=
  report_status p ProjectPhaseFailed reason message ≫= λ _, skip.

Inductive staleCheck := staleNone | staleBlocked | staleUnknown.

Definition checkStaleContainers (p : Project) : act staleCheck :=
  call_ (StaleContainers p) ≫= λ r,
  match (r : reply (list StaleContainer)) with
  | Bad _ => Return staleUnknown
  | Got [] => Return staleNone
  | Got (c :: _) =>
      reportRecoveryBlocked p recoveryBlockedStaleContainer (staleContainerMessage (sc_Reason c)) ≫= λ _,
      Return staleBlocked
  end.

(** [routes] says that this Agent keeps proxy routes. *)
Definition updateProxyRoutes (routes : bool) (p : Project) : act () :=
  if negb routes then skip
  else
    match sp_Ingress (p_Spec p) with
    | [] => call_ (RoutesRemove (om_Name (p_Meta p))) ≫= λ _, skip
    | _ :: _ =>
        call_ (GetContainerIPs p) ≫= λ r,
        match (r : reply (gmap string string)) with
        | Bad _ => skip
        | Got ips => call_ (RoutesUpdate p ips) ≫= λ _, skip
        end
    end.

Definition reportSpecRunning (p : Project) : act () :=
  let revision := om_SpecRevision (p_Meta p) in
  if decide (revision = 0%Z ∨ (revision ≤ st_ObservedSpecRevision (p_Status p))%Z) then skip
  else call_ (ReportSpecApplied (om_Name (p_Meta p)) (fenceForProject p) revision true EmptyString EmptyString)
         ≫= λ _, skip.

(** ** What they request *)

Section only.
Context (P : call → Prop).

Lemma only_skip : only P skip.
Proof. exact I. Qed.

Lemma only_report_condition type p reason message :
  P (PatchProjectCondition (om_Name (p_Meta p)) (fenceForProject p) type ConditionTrue reason message) →
  only P (report_condition type p reason message).
Proof. intros H. unfold report_condition. destruct (carries _ _ _ _); [exact I|]. by split. Qed.

Lemma only_clear_condition type p :
  P (ClearProjectCondition (om_Name (p_Meta p)) (fenceForProject p) type) → only P (clear_condition type p).
Proof. intros H. unfold clear_condition. destruct (projectCondition _ _); [by split|exact I]. Qed.

Lemma only_report_failed p reason message :
  P (UpdateProjectStatus (om_Name (p_Meta p)) (fenceForProject p) ProjectPhaseFailed reason message) →
  only P (report_failed p reason message).
Proof. by split. Qed.

Lemma only_updateProxyRoutes routes p :
  P (RoutesRemove (om_Name (p_Meta p))) → P (GetContainerIPs p) → (∀ ips, P (RoutesUpdate p ips)) →
  only P (updateProxyRoutes routes p).
Proof.
  intros H1 H2 H3. unfold updateProxyRoutes. destruct routes; [|exact I]. destruct (sp_Ingress _); [by split|].
  split; [done|]. intros [ips|e]; [by split|exact I].
Qed.

Lemma only_reportSpecRunning p :
  (∀ r, P (ReportSpecApplied (om_Name (p_Meta p)) (fenceForProject p) r true EmptyString EmptyString)) →
  only P (reportSpecRunning p).
Proof. intros H. unfold reportSpecRunning. cbv zeta. case_decide; [exact I|by split]. Qed.
End only.
#[export] Hint Resolve only_skip only_report_condition only_clear_condition only_report_failed
  only_updateProxyRoutes only_reportSpecRunning : cara.
