(* ===== verification/BackupRunner.v ===== *)
(** One backup of a Project's Managed volumes (internal/agent/backup/runner.go), with
    the adapters it is built with (ownership.go and backupsupport.go of the Agent):
    the containers are stopped, every Offline volume is archived, uploaded and
    verified, the manifest is written, the generation is committed to the server, and
    the containers are started again while this Node still owns the Project. *)
From Stdlib Require Import ZArith Lia.
From stdpp Require Import prelude gmap strings.
From S2P Require Import Prelude.
From S2P Require Import Conditions.
From S2P Require Import ProjectTypes.
From S2P Require Import Digest.
From S2P Require Import Calendar.
From S2P Require Import Failures.
From S2P Require Import Paths.
From S2P Require Import Engine.
From S2P Require Import Stores.
From S2P Require Import Actions.
From S2P Require Import Coordinator.
From S2P Require Import Retention.
From S2P Require Import Health.
From S2P Require Import Reports.
Import GoTime GoInt GoString.
Open Scope nat_scope.

Set Default Proof Using "Type".

(** ** backup/manifest.go *)

Definition formatVersion : Z := 1.
Definition backupMethod : string := "tar-offline".

(** [suffix] is what rand.Read filled in. *)
Definition backup_id (now : Time) (suffix : string) : string :=
  (compact_time now ++ "-" ++ hex_EncodeToString (string_bytes suffix))%string.
Definition NewBackupID (now : Time) : act (reply string) :=
  call_ RandomSuffix ≫= λ r,
  Return (match (r : reply string) with
          | Bad e => Bad (wrap "backup: generate backup ID suffix: " e)
          | Got suffix => Got (backup_id now suffix)
          end).

Definition BuildManifest (backupID namespace project sourceNode caraVersion : string) (projectSpecRevision : Z)
    (now : Time) (volumes : list VolumeManifestEntry) : Manifest :=
  {| mf_FormatVersion := formatVersion; mf_BackupID := backupID; mf_Namespace := namespace; mf_Project := project;
     mf_ProjectUID := EmptyString; mf_CreatedAt := now; mf_SourceNode := sourceNode;
     mf_ProjectSpecRevision := projectSpecRevision; mf_CaraVersion := caraVersion; mf_BackupMethod := backupMethod;
     mf_Volumes := volumes |}.
Definition mf_with_ProjectUID (uid : string) (m : Manifest) : Manifest :=
  {| mf_FormatVersion := mf_FormatVersion m; mf_BackupID := mf_BackupID m; mf_Namespace := mf_Namespace m;
     mf_Project := mf_Project m; mf_ProjectUID := uid; mf_CreatedAt := mf_CreatedAt m;
     mf_SourceNode := mf_SourceNode m; mf_ProjectSpecRevision := mf_ProjectSpecRevision m;
     mf_CaraVersion := mf_CaraVersion m; mf_BackupMethod := mf_BackupMethod m; mf_Volumes := mf_Volumes m |}.

(** ** The Runner *)

(** [rr_Store]: there is an object store. [rr_Routes]: there is a route refresher, and
    whether it has a route table. The upload timeout shows only in what the store
    answers after it. *)
Record Runner := {
  rr_Store : bool; rr_Routes : option bool; rr_DataRoot : string; rr_StagingDir : string; rr_NodeName : string;
  rr_CaraVersion : string; rr_MinFreeBytes : Z
}.

Definition DefaultStagingDir (dataRoot : string) : string := path_join [dataRoot; "staging"%string].
Definition NewRunner (store : bool) (routes : option bool) (dataRoot stagingDir nodeName caraVersion : string)
    (minFreeBytes : Z) : Runner :=
  {| rr_Store := store; rr_Routes := routes; rr_DataRoot := dataRoot;
     rr_StagingDir := if decide (stagingDir = EmptyString) then DefaultStagingDir dataRoot else stagingDir;
     rr_NodeName := nodeName; rr_CaraVersion := caraVersion; rr_MinFreeBytes := minFreeBytes |}.

Definition managedVolumes (s : ProjectSpec) : list VolumeDef :=
  filter (λ v, vol_Type v = VolumeTypeManaged ∧ BackupStrategyFor s (vol_Name v) = BackupStrategyOffline)
    (sp_Volumes s).

(** *** The server (backupsupport.go, ownership.go) *)

Definition maintenanceMessage : string := "Containers are stopped for a Managed volume backup".
Definition SetMaintenance (p : Project) (reason : string) : act (option failure) :=
  call_ (PatchProjectCondition (om_Name (p_Meta p)) (fenceForProject p) ConditionTypeMaintenance ConditionTrue reason
           maintenanceMessage).
Definition ClearMaintenance (p : Project) : act (option failure) :=
  call_ (ClearProjectCondition (om_Name (p_Meta p)) (fenceForProject p) ConditionTypeMaintenance).
Definition CommitBackup_ (p : Project) (backupID : string) : act (option failure) :=
  call_ (CommitBackup (om_Name (p_Meta p)) (fenceForProject p) backupID).

(** What the server's answer says of the assignment the backup started under. *)
Definition ownership_of (nodeName uid : string) (generation : Z) (r : reply Project) : Ownership :=
  match r with
  | Bad e => if FIs e ErrProjectNotFound then OwnershipLost else OwnershipUnknown
  | Got q =>
      if decide (om_UID (p_Meta q) ≠ uid) then OwnershipLost
      else if decide (st_Phase (p_Status q) = ProjectPhaseTerminating ∨ st_Phase (p_Status q) = ProjectPhaseTerminated)
      then OwnershipTerminating
      else if decide (st_NodeRef (p_Status q) = nodeName) then
        if decide (st_AssignmentGeneration (p_Status q) ≠ generation) then OwnershipReassigned else OwnershipRetained
      else if decide (st_NodeRef (p_Status q) = EmptyString) then OwnershipLost
      else OwnershipReassigned
  end.
Definition Resolve (nodeName : string) (p : Project) : act Ownership :=
  call_ (GetProject (om_Name (p_Meta p))) ≫= λ r,
  Return (ownership_of nodeName (om_UID (p_Meta p)) (st_AssignmentGeneration (p_Status p)) r).

(** *** Preconditions *)

Definition backup_checkDiskSpace (r : Runner) : act (option failure) :=
  if Z.eqb (rr_MinFreeBytes r) 0 then Return None
  else
    call_ (Disk (MakeDirs (rr_StagingDir r))) ≫= λ err,
    match (err : option failure) with
    | Some e => Return (Some (wrap ("backup: create staging dir " ++ Quote (rr_StagingDir r) ++ ": ")%string e))
    | None =>
        or_return_value
          (call_ (Disk (FreeBytes (rr_StagingDir r))) ≫= λ free,
           Return (match (free : reply Z) with Bad e => Bad (wrap "backup: check free space: " e) | Got n => Got n end))
          (λ free,
          if Z.ltb free (rr_MinFreeBytes r) then
            Return (Some (Around EmptyString (Fails ErrBackupDiskSpace)
              (": " ++ FormatInt free ++ " bytes free, " ++ FormatInt (rr_MinFreeBytes r) ++ " required")%string))
          else Return None)
    end.

(** *** The volumes *)

Definition wrapped_call (pre : string) (x : act (option failure)) : act (option failure) :=
  x ≫= λ err, Return (wrap pre <$> (err : option failure)).

Definition uploadAndVerify (archivePath key : string) (size : Z) : act (option failure) :=
  wrapped_call "backup: open archive: " (call_ (Disk (OpenFile archivePath))) ;?
  wrapped_call "backup: upload: " (call_ (Store (StorePut key (UploadFile archivePath size)))) ;?
  call_ (Store (StoreHead key)) ≫= λ r,
  Return (match (r : reply Z) with
          | Bad e => Some (wrap "backup: verify upload: " e)
          | Got stored =>
              if Z.eqb stored size then None
              else Some (Text ("backup: verify upload: stored size " ++ FormatInt stored
                               ++ " does not match archive size " ++ FormatInt size)%string)
          end).

Definition captureVolume (r : Runner) (p : Project) (backupID stagingDir : string) (vol : VolumeDef)
    : act (reply VolumeManifestEntry) :=
  let ns := om_Namespace (p_Meta p) in
  let name := om_Name (p_Meta p) in
  let what := Quote (vol_Name vol) in
  match HostPath (rr_DataRoot r) ns name (vol_Name vol) with
  | Bad e => Return (Bad (wrap ("backup: resolve volume " ++ what ++ ": ")%string e))
  | Got hostPath =>
      let archivePath := path_join [stagingDir; (vol_Name vol ++ ".tar.gz")%string] in
      call_ (Disk (ArchiveDir hostPath archivePath)) ≫= λ result,
      match (result : reply (Z * string)) with
      | Bad e => Return (Bad (wrap ("backup: archive volume " ++ what ++ ": ")%string e))
      | Got (size, sha) =>
          match ArchiveKey ns name backupID (vol_Name vol) with
          | Bad e => Return (Bad e)
          | Got archiveKey =>
              uploadAndVerify archivePath archiveKey size ≫= λ err,
              Return (match err with
                      | Some e => Bad (wrap ("backup: volume " ++ what ++ ": ")%string e)
                      | None => Got {| ve_Name := vol_Name vol; ve_ArchiveKey := archiveKey; ve_SizeBytes := size;
                                       ve_SHA256 := sha |}
                      end)
          end
      end
  end.

Fixpoint captureVolumes (r : Runner) (p : Project) (backupID stagingDir : string) (volumes : list VolumeDef)
    (entries : list VolumeManifestEntry) : act (reply (list VolumeManifestEntry)) :=
  match volumes with
  | [] => Return (Got entries)
  | vol :: rest =>
      captureVolume r p backupID stagingDir vol ≫= λ x,
      match x with
      | Bad e => Return (Bad e)
      | Got entry => captureVolumes r p backupID stagingDir rest (entries ++ [entry])
      end
  end.

Definition writeManifest (r : Runner) (p : Project) (backupID : string) (entries : list VolumeManifestEntry)
    : act (option failure) :=
  match ManifestKey (om_Namespace (p_Meta p)) (om_Name (p_Meta p)) backupID with
  | Bad e => Return (Some e)
  | Got manifestKey =>
      call_ Clock ≫= λ now,
      let manifest := BuildManifest backupID (om_Namespace (p_Meta p)) (om_Name (p_Meta p)) (rr_NodeName r)
                        (rr_CaraVersion r) (om_SpecRevision (p_Meta p)) now entries in
      wrapped_call "backup: write manifest: "
        (call_ (Store (StorePut manifestKey (UploadManifest (mf_with_ProjectUID (om_UID (p_Meta p)) manifest)))))
  end.

(** *** Afterwards *)

(** [is_context e] reads [ctx.Err()]. *)
Definition context_is (s : agent_sentinel) : act bool :=
  call_ ContextErr ≫= λ err, Return (match (err : option failure) with Some e => FIs e s | None => false end).
Definition classifyExit (err : option failure) : act ExitReason :=
  match err with
  | None => Return ExitSuccess
  | Some e =>
      (if FIs e ContextDeadlineExceeded then Return true else context_is ContextDeadlineExceeded) ≫= λ timeout,
      if timeout : bool then Return ExitTimeout
      else
        (if FIs e ContextCanceled then Return true else context_is ContextCanceled) ≫= λ cancelled,
        Return (if cancelled : bool then ExitCancelled else ExitFailure)
  end.

Definition Refresh (routes : bool) (p : Project) : act () := updateProxyRoutes routes p.

Definition restoreService (r : Runner) (p : Project) (runErr : option failure) : act () :=
  classifyExit runErr ≫= λ reason,
  Resolve (rr_NodeName r) p ≫= λ ownership,
  if negb (ShouldRestartContainers reason ownership) then skip
  else
    call_ (StartContainers p) ≫= λ err,
    match (err : option failure) with
    | Some _ => skip
    | None => match rr_Routes r with Some routes => Refresh routes p | None => skip end
    end.

(** *** Run

    Each part runs its deferred steps when it returns, as the code registered them. *)

(** From the archives to the commit; the staging directory goes. *)
Definition take_generation (r : Runner) (p : Project) (backupID : string) (volumes : list VolumeDef)
    : act (option failure) :=
  let stagingDir := path_join [rr_StagingDir r; backupID] in
  wrapped_call ("backup: create staging dir " ++ Quote stagingDir ++ ": ")%string (call_ (Disk (MakeDirs stagingDir))) ;?
  or_return_value (captureVolumes r p backupID stagingDir volumes []) (λ entries,
    writeManifest r p backupID entries ;?
    wrapped_call "backup: commit generation: " (CommitBackup_ p backupID)) ≫= λ err,
  call_ (Disk (RemoveTree stagingDir)) ≫= λ _, Return err.

(** With the containers stopped, until they are started again. *)
Definition stopped_backup (r : Runner) (p : Project) (backupID : string) (volumes : list VolumeDef)
    : act (option failure) :=
  (wrapped_call "backup: stop containers: " (call_ (StopContainers p)) ;?
   take_generation r p backupID volumes) ≫= λ err,
  restoreService r p err ≫= λ _, Return err.

(** Under the claim. *)
Definition claimed_backup {order : MapOrder} (r : Runner) (p : Project) (volumes : list VolumeDef)
    : act (option failure) :=
  if negb (rr_Store r) then
    Return (Some (Text ("backup: project " ++ ResourceKey_String (key_of_project p)
      ++ " declares Managed volumes but this agent has no object store configured")%string))
  else
    backup_checkDiskSpace r ;?
    call_ Clock ≫= λ now,
    or_return_value (NewBackupID now) (λ backupID,
      wrapped_call "backup: set Maintenance condition: " (SetMaintenance p "BackingUp") ;?
      stopped_backup r p backupID volumes ≫= λ err,
      ClearMaintenance p ≫= λ _,
      (match err with None => pruneGenerations p backupID | Some _ => skip end) ≫= λ _,
      Return err).

Definition Run {order : MapOrder} (r : Runner) (p : Project) : act (option failure) :=
  match managedVolumes (p_Spec p) with
  | [] => Return (Some (Fails ErrNoManagedVolumes))
  | volumes => claimed true (key_of_project p) OpBackup (Return None) (claimed_backup r p volumes)
  end.

Example backup_id_form :
  backup_id (63920498400 * Second)%Z (bytes_string [110; 39; 199; 178]%Z) = "20260724T140000Z-6e27c7b2"%string.
Proof. vm_compute. reflexivity. Qed.

(** ** What a backup may ask for, and when *)

Section backup.
Context (r : Runner) (p : Project).
Notation ns := (om_Namespace (p_Meta p)).
Notation name := (om_Name (p_Meta p)).
Notation key := (key_of_project p).
Notation fence := (fenceForProject p).
Notation volumes := (managedVolumes (p_Spec p)).
Notation staging backupID := (path_join [rr_StagingDir r; backupID]).

(** The server accepted that the containers are about to stop. *)
Definition accepted (h : story) : Prop :=
  Did (PatchProjectCondition name fence ConditionTypeMaintenance ConditionTrue "BackingUp" maintenanceMessage) None ∈ h.
(** There is as much room as the configuration asks for. *)
Definition room (h : story) : Prop :=
  rr_MinFreeBytes r = 0%Z ∨
  ∃ free, Did (Disk (FreeBytes (rr_StagingDir r))) (Got free) ∈ h ∧ (rr_MinFreeBytes r ≤ free)%Z.
Definition stop_asked (h : story) : Prop := ∃ x, Did (StopContainers p) x ∈ h.
Definition start_asked (h : story) : Prop := ∃ x, Did (StartContainers p) x ∈ h.
(** The containers are down: they were stopped, and nothing started them since. *)
Definition quiet (h : story) : Prop := Did (StopContainers p) None ∈ h ∧ ¬ start_asked h.

(** The generation this run draws. *)
Definition drawn (backupID : string) (h : story) : Prop :=
  ∃ now suffix, Did Clock now ∈ h ∧ Did RandomSuffix (Got suffix) ∈ h ∧ backupID = backup_id now suffix.

Definition archive_file (backupID : string) (vol : VolumeDef) : string :=
  path_join [staging backupID; (vol_Name vol ++ ".tar.gz")%string].
Definition archived (backupID : string) (vol : VolumeDef) (file : string) (size : Z) (sha : string) (h : story) : Prop :=
  ∃ dir, HostPath (rr_DataRoot r) ns name (vol_Name vol) = Got dir ∧
    file = archive_file backupID vol ∧ Did (Disk (ArchiveDir dir file)) (Got (size, sha)) ∈ h.
(** The archive of the volume is in the store, with the size it has on disk. *)
Definition captured (backupID : string) (vol : VolumeDef) (e : VolumeManifestEntry) (h : story) : Prop :=
  ve_Name e = vol_Name vol ∧ ArchiveKey ns name backupID (vol_Name vol) = Got (ve_ArchiveKey e) ∧
  ∃ file, archived backupID vol file (ve_SizeBytes e) (ve_SHA256 e) h ∧
    Did (Store (StorePut (ve_ArchiveKey e) (UploadFile file (ve_SizeBytes e)))) None ∈ h ∧
    Did (Store (StoreHead (ve_ArchiveKey e))) (Got (ve_SizeBytes e)) ∈ h.

(** A manifest of this generation that describes every volume. *)
Definition describes (backupID : string) (mf : Manifest) (h : story) : Prop :=
  mf_BackupID mf = backupID ∧ mf_Namespace mf = ns ∧ mf_Project mf = name ∧ mf_ProjectUID mf = om_UID (p_Meta p) ∧
  mf_ProjectSpecRevision mf = om_SpecRevision (p_Meta p) ∧ Forall2 (λ v e, captured backupID v e h) volumes (mf_Volumes mf).
Definition complete (backupID : string) (h : story) : Prop :=
  ∃ k mf, ManifestKey ns name backupID = Got k ∧ describes backupID mf h ∧
    Did (Store (StorePut k (UploadManifest mf))) None ∈ h.
Definition committed (backupID : string) (h : story) : Prop := Did (CommitBackup name fence backupID) None ∈ h.

Definition still_owns (o : Ownership) : Prop := o = OwnershipRetained ∨ o = OwnershipUnknown.
(** The server was asked whose the Project is, after the containers were stopped. *)
Definition owner_seen (P : Ownership → Prop) (h : story) : Prop :=
  ∃ x, Did (GetProject name) x ∈ h ∧
    P (ownership_of (rr_NodeName r) (om_UID (p_Meta p)) (st_AssignmentGeneration (p_Status p)) x).
(** What was stopped was started again, unless the Project is no longer ours. *)
Definition at_rest (h : story) : Prop := start_asked h ∨ owner_seen (λ o, ¬ still_owns o) h.
Definition settled (h : story) : Prop := stop_asked h → at_rest h.

(** Under the claim. *)
Definition body_allowed (h : story) (c : call) : Prop :=
  match c with
  | PatchProjectCondition n f type status reason message =>
      n = name ∧ f = fence ∧ type = ConditionTypeMaintenance ∧ status = ConditionTrue ∧ reason = "BackingUp"%string ∧
      message = maintenanceMessage ∧ room h ∧ ¬ stop_asked h
  | ClearProjectCondition n f type => n = name ∧ f = fence ∧ type = ConditionTypeMaintenance ∧ accepted h ∧ settled h
  | StopContainers p' => p' = p ∧ accepted h ∧ room h ∧ ¬ start_asked h
  | Disk (ArchiveDir dir file) =>
      quiet h ∧ ∃ backupID v, drawn backupID h ∧ v ∈ volumes ∧ HostPath (rr_DataRoot r) ns name (vol_Name v) = Got dir ∧
        file = archive_file backupID v
  | Disk (OpenFile file) => ∃ backupID v size sha, drawn backupID h ∧ v ∈ volumes ∧ archived backupID v file size sha h
  | Store (StorePut k (UploadFile file size)) =>
      ∃ backupID v sha, drawn backupID h ∧ v ∈ volumes ∧ ArchiveKey ns name backupID (vol_Name v) = Got k ∧
        archived backupID v file size sha h ∧ Did (Disk (OpenFile file)) None ∈ h
  | Store (StoreHead k) => ∃ file size, Did (Store (StorePut k (UploadFile file size))) None ∈ h
  | Store (StorePut k (UploadManifest mf)) =>
      ∃ backupID, drawn backupID h ∧ ManifestKey ns name backupID = Got k ∧ describes backupID mf h
  | CommitBackup n f backupID => n = name ∧ f = fence ∧ drawn backupID h ∧ complete backupID h
  | GetProject n => n = name ∧ stop_asked h
  | StartContainers p' => p' = p ∧ stop_asked h ∧ owner_seen still_owns h
  | RoutesUpdate p' _ | GetContainerIPs p' => p' = p ∧ Did (StartContainers p) None ∈ h
  | RoutesRemove n => n = name ∧ Did (StartContainers p) None ∈ h
  | Disk (MakeDirs path) => path = rr_StagingDir r ∨ ∃ backupID, drawn backupID h ∧ path = staging backupID
  | Disk (RemoveTree path) => ∃ backupID, drawn backupID h ∧ path = staging backupID
  | Disk (FreeBytes path) => path = rr_StagingDir r
  | RandomSuffix | ContextErr | Clock => True
  | Store _ => settled h ∧ ∃ backupID, drawn backupID h ∧ committed backupID h ∧ prune_allowed p backupID h c
  | _ => False
  end.
Definition backup_allowed (h : story) (c : call) : Prop :=
  match c with
  | TryClaim k op => k = key ∧ op = OpBackup
  | Release k => k = key ∧ settled h
  | _ => holds key OpBackup h ∧ body_allowed h c
  end.

(** *** What stays true *)

Lemma drawn_later backupID h h' : h `prefix_of` h' → drawn backupID h → drawn backupID h'.
Proof. intros Hp (t & x & H1 & H2 & H3). exists t, x. split_and!; [by eapply seen_prefix..|done]. Qed.
Lemma archived_later backupID v file size sha h h' :
  h `prefix_of` h' → archived backupID v file size sha h → archived backupID v file size sha h'.
Proof. intros Hp (dir & H1 & H2 & H3). exists dir. split_and!; [done|done|by eapply seen_prefix]. Qed.
Lemma captured_later backupID v e h h' : h `prefix_of` h' → captured backupID v e h → captured backupID v e h'.
Proof.
  intros Hp (H1 & H2 & file & H3 & H4 & H5). split_and!; [done|done|]. exists file.
  split_and!; [by eapply archived_later|by eapply seen_prefix..].
Qed.
Lemma all_captured_later backupID vs es h h' :
  h `prefix_of` h' → Forall2 (λ v e, captured backupID v e h) vs es → Forall2 (λ v e, captured backupID v e h') vs es.
Proof. intros Hp H. eapply Forall2_impl; [exact H|]. intros v e. by apply captured_later. Qed.
Lemma complete_later backupID h h' : h `prefix_of` h' → complete backupID h → complete backupID h'.
Proof.
  intros Hp (k & mf & H1 & (H2 & H3 & H4 & H5 & H6 & H7) & H8). exists k, mf.
  split_and!; [done| |by eapply seen_prefix]. split_and!; try done. by eapply all_captured_later.
Qed.
Lemma room_later h h' : h `prefix_of` h' → room h → room h'.
Proof. intros Hp [H|(free & H1 & H2)]; [by left|right]. exists free. split; [by eapply seen_prefix|done]. Qed.
Lemma stop_asked_later h h' : h `prefix_of` h' → stop_asked h → stop_asked h'.
Proof. intros Hp [x H]. exists x. by eapply seen_prefix. Qed.

(** Nothing was stopped or started in between. *)
Definition idle (c : call) : Prop := match c with StopContainers _ | StartContainers _ => False | _ => True end.
Lemma idle_unseen c h h' (x : answer c) : grows idle h h' → ¬ idle c → Did c x ∈ h' → Did c x ∈ h.
Proof.
  intros (k & -> & Hk) Hc [?|Hin]%elem_of_app; [done|]. rewrite Forall_forall in Hk. by apply Hk in Hin.
Qed.
Lemma quiet_idle h h' : grows idle h h' → quiet h → quiet h'.
Proof.
  intros Hg [Hs Hn]. split; [by eapply seen_grows|]. intros [x Hx]. apply Hn. exists x. eapply idle_unseen; [exact Hg|by intros []|done].
Qed.
Lemma at_rest_later h h' : h `prefix_of` h' → at_rest h → at_rest h'.
Proof. intros Hp [[y Hy]|(y & Hy & Ho)]; [left|right]; exists y; (try split); by eauto using seen_prefix. Qed.

(** *** The parts *)

Lemma awp_disk_space m h : awp body_allowed (backup_checkDiskSpace r) (λ err _ h', err = None → room h') m h.
Proof.
  unfold backup_checkDiskSpace. destruct (Z.eqb _ _) eqn:E0; [intros _; left; by apply Z.eqb_eq|].
  apply awp_call_bind; [by left|]. intros [e|]; cbv beta iota; [done|]. apply awp_or_return_value, awp_call_bind; [done|].
  intros [free|e]; [|done]. simpl. destruct (Z.ltb _ _) eqn:El; [done|]. intros _. right. exists free.
  split; [apply seen_last|lia].
Qed.

Lemma idle_disk_space : only idle (backup_checkDiskSpace r).
Proof.
  unfold backup_checkDiskSpace. destruct (Z.eqb _ _); [done|]. apply only_bind; [by apply only_call|].
  intros [e|]; [done|]. apply only_or_return_value; [apply only_bind; [by apply only_call|by intros]|].
  intros free. by destruct (Z.ltb _ _).
Qed.

Lemma awp_uploadAndVerify backupID v size sha m h k :
  drawn backupID h → v ∈ volumes → ArchiveKey ns name backupID (vol_Name v) = Got k →
  archived backupID v (archive_file backupID v) size sha h →
  awp body_allowed (uploadAndVerify (archive_file backupID v) k size)
    (λ err _ h', err = None → captured backupID v
       {| ve_Name := vol_Name v; ve_ArchiveKey := k; ve_SizeBytes := size; ve_SHA256 := sha |} h') m h.
Proof.
  intros Hd Hv Hk Ha. unfold uploadAndVerify. apply awp_or_return, awp_bind.
  split; [by exists backupID, v, size, sha|]. answered; [done|]. apply awp_or_return, awp_bind. split.
  { exists backupID, v, sha. split_and!; [eapply drawn_later; [|exact Hd]; later|done|done| |apply seen_last].
    eapply archived_later; [|exact Ha]. later. }
  answered; [done|]. split; [by exists (archive_file backupID v), size; apply seen_last|].
  intros [stored|e]; simpl; [|done]. destruct (Z.eqb stored size) eqn:E; [|done]. apply Z.eqb_eq in E as ->. intros _.
  split_and!; [done|done|]. exists (archive_file backupID v). split_and!; simpl.
  - eapply archived_later; [|exact Ha]. later.
  - apply seen_app, seen_last.
  - apply seen_last.
Qed.

Lemma awp_captureVolume backupID v m h :
  quiet h → drawn backupID h → v ∈ volumes →
  awp body_allowed (captureVolume r p backupID (staging backupID) v)
    (λ x _ h', match x with Got e => captured backupID v e h' | Bad _ => True end) m h.
Proof.
  intros Hq Hd Hv. unfold captureVolume. cbv zeta. destruct (HostPath _ _ _ _) as [dir|e] eqn:Eh; [|done].
  apply awp_call_bind; [split; [done|by exists backupID, v]|]. intros [[size sha]|e]; [|done].
  destruct (ArchiveKey _ _ _ _) as [k|e] eqn:Ek; [|done]. apply awp_bind.
  eapply awp_mono; [|apply awp_uploadAndVerify; [eapply drawn_later; [|exact Hd]; later|done|exact Ek|]].
  - intros [e|] m' h' H; [done|]. by apply H.
  - exists dir. split_and!; [done|done|apply seen_last].
Qed.
Lemma idle_captureVolume backupID v : only idle (captureVolume r p backupID (staging backupID) v).
Proof.
  unfold captureVolume, uploadAndVerify. cbv zeta. destruct (HostPath _ _ _ _); [|done].
  apply only_bind; [by apply only_call|]. intros [[size sha]|e]; [|done]. destruct (ArchiveKey _ _ _ _); [|done].
  apply only_bind; [|by intros]. do 2 (apply only_or_return; [by apply only_bind; [by apply only_call|]|]).
  by apply only_bind; [by apply only_call|].
Qed.

Lemma awp_captureVolumes backupID vs vs' es m h :
  quiet h → drawn backupID h → volumes = vs ++ vs' → Forall2 (λ v e, captured backupID v e h) vs es →
  awp body_allowed (captureVolumes r p backupID (staging backupID) vs' es)
    (λ x _ h', drawn backupID h' ∧
       match x with Got es => Forall2 (λ v e, captured backupID v e h') volumes es | Bad _ => True end) m h.
Proof.
  revert vs es m h. induction vs' as [|v vs' IH]; intros vs es m h Hq Hd Heq He.
  - split; [done|]. by rewrite Heq, app_nil_r.
  - apply awp_bind. eapply awp_mono; [|apply awp_grows, awp_captureVolume; [apply idle_captureVolume|done|done|]].
    2: { rewrite Heq. apply elem_of_app. right. by left. }
    intros [e|e] m' h' [He' Hg].
    + apply (IH (vs ++ [v])); [by eapply quiet_idle|eapply drawn_later; [by eapply grows_prefix|done]| |].
      * by rewrite <- app_assoc.
      * apply Forall2_app; [|by constructor]. eapply all_captured_later; [by eapply grows_prefix|done].
    + split; [|done]. eapply drawn_later; [by eapply grows_prefix|done].
Qed.

Lemma awp_writeManifest backupID es m h :
  drawn backupID h → Forall2 (λ v e, captured backupID v e h) volumes es →
  awp body_allowed (writeManifest r p backupID es) (λ err _ h', drawn backupID h' ∧ (err = None → complete backupID h')) m h.
Proof.
  intros Hd He. unfold writeManifest. destruct (ManifestKey _ _ _) as [k|e] eqn:Ek; [|done].
  apply awp_call_bind; [done|]. intros now. cbv zeta. apply awp_bind. set (h1 := h ++ _).
  assert (h `prefix_of` h1) as Hp1 by later.
  assert (describes backupID (mf_with_ProjectUID (om_UID (p_Meta p)) (BuildManifest backupID ns name (rr_NodeName r)
    (rr_CaraVersion r) (om_SpecRevision (p_Meta p)) now es)) h1) as Hds.
  { split_and!; try done. by eapply all_captured_later. }
  split. { exists backupID. split_and!; [by eapply drawn_later|done|done]. }
  answered; (split; [eapply drawn_later; [|exact Hd]; later|]); [done|]. intros _.
  eexists k, _. split_and!; [done| |apply seen_last].
  destruct Hds as (?&?&?&?&?&Hc). split_and!; try done. eapply all_captured_later; [|exact Hc]. later.
Qed.

Lemma awp_take_generation backupID m h :
  quiet h → drawn backupID h →
  awp body_allowed (take_generation r p backupID volumes)
    (λ err _ h', err = None → complete backupID h' ∧ committed backupID h') m h.
Proof.
  intros Hq Hd. unfold take_generation. cbv zeta. apply awp_or_return, awp_bind.
  split; [right; by exists backupID|]. answered; [done|]. set (h1 := h ++ _).
  assert (drawn backupID h1) as Hd1 by (eapply drawn_later; [|exact Hd]; later).
  assert (quiet h1) as Hq1 by (eapply quiet_idle; [by apply grows_call|done]).
  apply awp_bind. eapply awp_mono.
  2: { apply awp_or_return_value. eapply awp_mono; [|by apply (awp_captureVolumes backupID []); [..|constructor]].
       intros [es|e] m2 h2 [Hd2 Hc2].
       2: { instantiate (1 := λ err _ h', drawn backupID h' ∧ (err = None → complete backupID h' ∧ committed backupID h')).
            by split. }
       apply awp_or_return. eapply awp_mono; [|by apply awp_writeManifest].
       intros [e|] m3 h3 [Hd3 Hc3]; [by split|]. specialize (Hc3 eq_refl). apply awp_bind.
       split; [done|]. intros [e|]; (split; [eapply drawn_later; [|exact Hd3]; later|]); [done|]. intros _.
       split; [eapply complete_later; [|exact Hc3]; later|apply seen_last]. }
  intros err m2 h2 [Hd2 Hc2]. split; [by exists backupID|]. intros x Herr. destruct (Hc2 Herr) as [Hcm Hct].
  split; [eapply complete_later; [|exact Hcm]; later|by apply seen_app].
Qed.
Lemma awp_classifyExit err (Q : ExitReason → memory → story → Prop) m h :
  (∀ x m' h', grows idle h h' → Q x m' h') → awp body_allowed (classifyExit err) Q m h.
Proof.
  intros HQ. eapply (awp_only _ (λ c, c = ContextErr)).
  - destruct err as [e|]; [|done]. unfold classifyExit, context_is.
    apply only_bind; [destruct (FIs e _); [done|]; by apply only_bind; [apply only_call|]|]. intros [|]; [done|].
    apply only_bind; [destruct (FIs e _); [done|]; by apply only_bind; [apply only_call|]|]. done.
  - by intros h' c ->.
  - intros x m' h' Hg. apply HQ. eapply grows_mono; [|exact Hg]. by intros c ->.
Qed.

Lemma awp_restoreService err m h :
  stop_asked h → awp body_allowed (restoreService r p err) (λ _ _ h', at_rest h' ∧ h `prefix_of` h') m h.
Proof.
  intros Hs. unfold restoreService. apply awp_bind, awp_classifyExit. intros reason m1 h1 Hg1%grows_prefix.
  assert (stop_asked h1) as Hs1 by by eapply stop_asked_later.
  apply awp_bind. split; [done|]. intros x. set (h2 := h1 ++ _). simpl.
  assert (∀ h3, h2 `prefix_of` h3 → ∀ P : Ownership → Prop, P (ownership_of (rr_NodeName r) (om_UID (p_Meta p))
    (st_AssignmentGeneration (p_Status p)) x) → owner_seen P h3) as Ho.
  { intros h3 Hp3 P HP. exists x. split; [|done]. eapply seen_prefix; [exact Hp3|apply seen_last]. }
  set (o := ownership_of _ _ _ _) in *.
  destruct (ShouldRestartContainers reason o) eqn:Er; simpl negb; cbv iota.
  - assert (still_owns o) as Hown by (destruct o, reason; simpl in Er; try done; unfold still_owns; auto).
    apply awp_call_bind. { split_and!; [done|eapply stop_asked_later; [|exact Hs1]; later|by apply Ho]. }
    intros y. set (h3 := h2 ++ _). assert (∀ h4, h3 `prefix_of` h4 → at_rest h4 ∧ h `prefix_of` h4) as Hend.
    { intros h4 Hp4. split; [|etrans; [|exact Hp4]; later]. left. exists y.
      eapply seen_prefix; [exact Hp4|apply seen_last]. }
    destruct y as [e|]; [by apply Hend|]. destruct (rr_Routes r) as [routes|]; [|by apply Hend].
    unfold Refresh, updateProxyRoutes. destruct routes; [|by apply Hend]. simpl negb. cbv iota.
    destruct (sp_Ingress _).
    + apply awp_call_bind; [split; [done|apply seen_last]|]. intros z. apply Hend. later.
    + apply awp_call_bind; [split; [done|apply seen_last]|]. intros [ips|e]; [|apply Hend; later].
      apply awp_call_bind; [split; [done|apply seen_app, seen_last]|]. intros z. apply Hend. later.
  - split; [|later]. right. apply Ho; [done|]. intros Hown.
    destruct Hown as [->| ->]; destruct reason; done.
Qed.

Lemma awp_stopped_backup backupID m h :
  accepted h → room h → ¬ start_asked h → drawn backupID h →
  awp body_allowed (stopped_backup r p backupID volumes)
    (λ err _ h', h `prefix_of` h' ∧ at_rest h' ∧ (err = None → complete backupID h' ∧ committed backupID h')) m h.
Proof.
  intros Ha Hr Hn Hd. unfold stopped_backup. apply awp_bind, awp_or_return, awp_bind.
  split; [done|]. intros x. set (h1 := h ++ _). assert (stop_asked h1) as Hs by (exists x; apply seen_last).
  assert (∀ err m2 h2, h1 `prefix_of` h2 → (err = None → complete backupID h2 ∧ committed backupID h2) →
    awp body_allowed (restoreService r p err ≫= λ _, Return err)
      (λ err _ h', h `prefix_of` h' ∧ at_rest h' ∧ (err = None → complete backupID h' ∧ committed backupID h')) m2 h2)
    as Hrest.
  { intros err m2 h2 Hp2 Hc. apply awp_bind.
    eapply awp_mono; [|apply awp_restoreService; by eapply stop_asked_later].
    intros _ m3 h3 [Hset Hp3]. split_and!; [etrans; [|exact Hp3]; later|done|]. intros Herr.
    destruct (Hc Herr). split; [by eapply complete_later|by eapply seen_prefix]. }
  destruct x as [e|]; cbn [fmap option_fmap option_map awp]; cbv beta iota; [by apply Hrest|].
  eapply awp_mono; [|apply awp_prefix, awp_take_generation].
  - intros err m2 h2 [Hc Hp2]. by apply Hrest.
  - split; [apply seen_last|]. intros [y Hy]. apply Hn. exists y.
    by apply elem_of_app in Hy as [?|Hy%list_elem_of_singleton].
  - eapply drawn_later; [|exact Hd]. later.
Qed.
Lemma awp_claimed_backup {order : MapOrder} m h :
  ¬ stop_asked h → ¬ start_asked h →
  awp body_allowed (claimed_backup r p volumes)
    (λ err _ h', settled h' ∧
       (err = None → ∃ backupID, drawn backupID h' ∧ complete backupID h' ∧ committed backupID h')) m h.
Proof.
  intros Hns Hnt. unfold claimed_backup. destruct (negb (rr_Store r)); [by split; [intros ?|]|].
  assert (∀ h', grows idle h h' → ¬ stop_asked h' ∧ ¬ start_asked h') as Hidle.
  { intros h' Hg. split; intros [x Hx]; [apply Hns|apply Hnt]; exists x; (eapply idle_unseen; [exact Hg|by intros []|done]). }
  assert (∀ (e : failure) h', grows idle h h' → settled h' ∧ (Some e = None → ∃ backupID,
    drawn backupID h' ∧ complete backupID h' ∧ committed backupID h')) as Hfail.
  { intros e h' Hg. split; [|done]. intros Hs. by destruct (Hidle h' Hg). }
  apply awp_or_return. eapply awp_mono; [|apply awp_grows, awp_disk_space].
  2: apply idle_disk_space.
  intros [e|] m1 h1 [Hroom Hg1]; [by apply Hfail|]. specialize (Hroom eq_refl).
  apply awp_call_bind; [done|]. intros now. set (h2 := h1 ++ _). assert (grows idle h h2) as Hg2 by by apply grows_snoc.
  apply awp_or_return_value, awp_call_bind; [done|]. intros rs. set (h3 := h2 ++ _).
  assert (grows idle h h3) as Hg3 by by apply grows_snoc.
  destruct rs as [suffix|e]; [|by apply Hfail]. cbn [awp].
  set (backupID := backup_id now suffix). assert (drawn backupID h3) as Hd3.
  { exists now, suffix. split_and!; [apply seen_app, seen_last|apply seen_last|done]. }
  assert (room h3) as Hr3 by (eapply room_later; [|exact Hroom]; later).
  apply awp_or_return, awp_bind. split; [split_and!; try done; by apply Hidle|]. intros x. set (h4 := h3 ++ _).
  assert (grows idle h h4) as Hg4 by by apply grows_snoc.
  destruct x as [e|]; cbn [fmap option_fmap option_map awp]; cbv beta iota; [by apply Hfail|].
  assert (accepted h4) as Ha4 by apply seen_last.
  apply awp_bind. eapply awp_mono; [|apply awp_stopped_backup].
  2: done. 2: eapply room_later; [|exact Hr3]; later. 2: by apply Hidle. 2: eapply drawn_later; [|exact Hd3]; later.
  intros err m5 h5 (Hp5 & Hrest5 & Hc5). apply awp_call_bind.
  { split_and!; [done|done|done|by eapply seen_prefix|by intros _]. }
  intros y. set (h6 := h5 ++ _). assert (at_rest h6) as Hrest6 by (eapply at_rest_later; [|exact Hrest5]; later).
  assert (drawn backupID h6) as Hd6 by (eapply drawn_later; [|exact Hd3]; later).
  apply awp_bind. destruct err as [e|]; [by split; [intros _|]|]. destruct (Hc5 eq_refl) as [Hcm Hct].
  assert (committed backupID h6) as Hct6 by by apply seen_app.
  eapply awp_mono; [|apply awp_prefix, (awp_ok_from _ _ _ _ h6); [done|]].
  2: { eapply awp_ok_mono; [|apply awp_pruneGenerations]. intros h' c Hc Hp'.
       assert (settled h') as Hs' by (intros _; by eapply at_rest_later).
       assert (∃ backupID, drawn backupID h' ∧ committed backupID h' ∧ prune_allowed p backupID h' c) as He.
       { exists backupID. split_and!; [by eapply drawn_later|by eapply seen_prefix|done]. }
       destruct c; try done. destruct c; done. }
  intros _ m7 h7 [_ Hp7]. split; [intros _; by eapply at_rest_later|]. intros _. exists backupID.
  split_and!; [by eapply drawn_later|eapply complete_later; [|exact Hcm]; later|by eapply seen_prefix].
Qed.
Lemma unstarted h : (∀ x, Did (StopContainers p) x ∉ h) → settled h.
Proof. intros Hn [x Hx]. by apply Hn in Hx. Qed.

Lemma awp_Run {order : MapOrder} m :
  awp backup_allowed (Run r p) (λ err _ h, settled h ∧ ¬ holds key OpBackup h ∧
    (err = None → Did (TryClaim key OpBackup) false ∈ h ∨
       ∃ backupID, drawn backupID h ∧ complete backupID h ∧ committed backupID h)) m [].
Proof.
  unfold Run. destruct volumes as [|v vs] eqn:Ev; rewrite <- ?Ev.
  { split_and!; [apply unstarted; by intros ? ?%elem_of_nil|by apply not_holds_nil|done]. }
  unfold claimed. apply awp_call_bind; [done|]. intros [|]; cbv iota; cycle 1.
  { split_and!; [apply unstarted; by intros ? ?%list_elem_of_singleton| |intros _; left; by apply list_elem_of_singleton].
    by apply not_holds_ungranted; [apply not_holds_nil|]. }
  apply awp_bind. eapply awp_mono; [|apply (awp_ok_mono (λ h c, holds key OpBackup h ∧ body_allowed h c))].
  3: { apply awp_held; [|apply (holds_claimed key OpBackup [])|apply awp_claimed_backup].
       - intros h c Hc ->. done.
       - by intros [x ?%list_elem_of_singleton].
       - by intros [x ?%list_elem_of_singleton]. }
  2: { intros h c [Hh Hc]. destruct c; done. }
  intros err m' h' (Hh & Hset & Hc). apply awp_call_bind; [done|]. intros x. split_and!.
  - intros [y Hy]. assert (at_rest h') as Hr.
    { apply Hset. exists y. by apply elem_of_app in Hy as [?|?%list_elem_of_singleton]. }
    eapply at_rest_later; [|exact Hr]. later.
  - apply not_holds_released.
  - intros Herr. right. destruct (Hc Herr) as (backupID & Hd & Hcm & Hct). exists backupID.
    split_and!; [eapply drawn_later; [|exact Hd]; later|eapply complete_later; [|exact Hcm]; later|by apply seen_app].
Qed.
End backup.

(** C16 (internal/agent/backup/runner.go, Run; retention.go; the Agent's ownership.go):
    whatever the server, Docker, the disk and the object store answer, a backup stops
    the containers only under the Project's claim, with the room it needs, and after
    the server accepted the Maintenance condition of this assignment; volumes are
    archived only while the containers are down, and exactly the Offline ones; the
    manifest is written only after every one of them was uploaded and found in the
    store with the size of its archive, and describes exactly those; the generation is
    committed only after its manifest is in the store; old generations are looked at
    only after the commit and once the containers are up again; the containers are
    started again only after the server, asked since the stop, did not say the Project
    is someone else's; and on every path the claim is given back only when they were
    started or the Project is no longer this Node's. A backup that reports success was
    committed, or left the Project to whoever had claimed it. *)
Theorem backup_protocol {order : MapOrder} (r : Runner) (p : Project) (w : world) (m : memory) :
  let run := act_run w (Run r p) m [] in
  obeys (backup_allowed r p) run.2 ∧ settled r p run.2 ∧ ¬ holds (key_of_project p) OpBackup run.2 ∧
  (run.1.1 = None →
     Did (TryClaim (key_of_project p) OpBackup) false ∈ run.2 ∨
     ∃ backupID, drawn backupID run.2 ∧ complete r p backupID run.2 ∧ committed p backupID run.2).
Proof.
  intros run. pose (Q := λ (err : option failure) (_ : memory) h, settled r p h ∧ ¬ holds (key_of_project p) OpBackup h ∧
    (err = None → Did (TryClaim (key_of_project p) OpBackup) false ∈ h ∨
       ∃ backupID, drawn backupID h ∧ complete r p backupID h ∧ committed p backupID h)).
  assert (awp (backup_allowed r p) (Run r p) Q m []) as Hrun by apply awp_Run.
  pose proof (awp_adequate _ w _ _ m [] Hrun (obeys_nil _)) as [HQ Ho]. split; [exact Ho|exact HQ].
Qed.

(** ** A backup that goes through *)

Definition backup_example : Project :=
  {| p_Meta := {| om_Name := "web"; om_UID := "u"; om_Namespace := "default"; om_ResourceVersion := 9;
                  om_SpecRevision := 4; om_Labels := ∅; om_Annotations := ∅; om_CreatedAt := 0; om_UpdatedAt := 0 |}%Z;
     p_Spec := {| sp_Size := EmptyString; sp_Services := [];
                  sp_Volumes := [{| vol_Name := "db"; vol_Type := VolumeTypeManaged |};
                                 {| vol_Name := "tmp"; vol_Type := "Ephemeral" |};
                                 {| vol_Name := "files"; vol_Type := VolumeTypeManaged |}];
                  sp_Backup := None; sp_Ingress := []; sp_ExpireAt := None; sp_RestartedAt := None |};
     p_Status := st_with_NodeRef "n1" InitialProjectStatus |}.
Definition backup_example_world (stored : Z) : world := λ h c,
  match c return answer c with
  | GetProject _ => Got backup_example
  | Clock => (63920498400 * Second)%Z
  | RandomSuffix => Got (bytes_string [110; 39; 199; 178]%Z)
  | TryClaim _ _ => true
  | IsBusy _ => false
  | Disk c =>
      match c return disk_answer c with
      | FreeBytes _ => Got 4096%Z
      | ArchiveDir _ _ => Got (512%Z, "sha"%string)
      | CopyFrom _ _ => Bad (Text "no")
      | _ => None
      end
  | Store c =>
      match c return store_answer c with
      | StoreHead _ => Got stored
      | StoreList _ => Got []
      | StoreManifest _ => Bad (Text "no")
      | _ => None
      end
  | GetSecret _ | ListProjectsAssignedToNode | ListCleanupTasks | InspectProject _ | StaleContainers _
  | GetContainerIPs _ | ListLocalProjects | DriftOf _ | AssignmentRemaining _ | RepoRemaining _ _ | RepoVersion
  | Exec _ _ _ => Bad (Text "no")
  | ExecUntilCancelled _ _ _ => inl (Bad (Text "no"))
  | CheckContinuity _ => (false, 0%Z, None)
  | Stat _ => StatAbsent
  | ReadDir _ => DirAbsent
  | ReadMarker _ => MarkerAbsent
  | Docker c => docker_down c
  | BeginPgRestore _ => (Text "no", false)
  | RoutesUpdate _ _ | RoutesRemove _ | Release _ | SyncSupervisor _ => ()
  | _ => None
  end.
Definition backup_example_run (stored : Z) : option failure * memory * story :=
  act_run (backup_example_world stored)
    (Run (order := map_order_ascending)
       (NewRunner true (Some false) "/var/lib/cara" EmptyString "n1" "1.0" 1024%Z) backup_example)
    {| mem_Recovery := None; mem_Orphans := None |} [].

(** The steps, the checks and the reads left out. *)
Definition step_of (c : call) : option string :=
  match c with
  | TryClaim _ _ => Some "claim" | PatchProjectCondition _ _ _ _ _ _ => Some "maintenance"
  | StopContainers _ => Some "stop" | Disk (ArchiveDir _ file) => Some file
  | Store (StorePut k _) => Some k | CommitBackup _ _ id => Some id | Disk (RemoveTree _) => Some "clean"
  | StartContainers _ => Some "start" | ClearProjectCondition _ _ _ => Some "clear" | Release _ => Some "release"
  | _ => None
  end%string.

Example a_backup :
  (backup_example_run 512).1.1 = None ∧
  omap step_of (call_of <$> (backup_example_run 512).2) =
    ["claim"; "maintenance"; "stop";
     "/var/lib/cara/staging/20260724T140000Z-6e27c7b2/db.tar.gz";
     "cara/v1/projects/default/web/snapshots/20260724T140000Z-6e27c7b2/db.tar.gz";
     "/var/lib/cara/staging/20260724T140000Z-6e27c7b2/files.tar.gz";
     "cara/v1/projects/default/web/snapshots/20260724T140000Z-6e27c7b2/files.tar.gz";
     "cara/v1/projects/default/web/snapshots/20260724T140000Z-6e27c7b2/manifest.json";
     "20260724T140000Z-6e27c7b2"; "clean"; "start"; "clear"; "release"]%string.
Proof. split; vm_compute; reflexivity. Qed.

(** A truncated upload: nothing is committed, and the containers come back. *)
Example a_failed_backup :
  omap step_of (call_of <$> (backup_example_run 511).2) =
    ["claim"; "maintenance"; "stop";
     "/var/lib/cara/staging/20260724T140000Z-6e27c7b2/db.tar.gz";
     "cara/v1/projects/default/web/snapshots/20260724T140000Z-6e27c7b2/db.tar.gz";
     "clean"; "start"; "clear"; "release"]%string.
Proof. vm_compute. reflexivity. Qed.
