(* ===== verification/VolumeRestore.v ===== *)
(** Putting a Project's Managed volumes back on disk (internal/agent/restore): a
    generation is downloaded and verified, extracted and swapped in as a whole
    (restore.go), the placement is recorded (marker.go), and the data of a released
    assignment is moved out of the way (quarantine.go). *)
From Stdlib Require Import ZArith Lia.
From stdpp Require Import prelude gmap strings.
From S2P Require Import Prelude.
From S2P Require Import ProjectTypes.
From S2P Require Import Calendar.
From S2P Require Import Failures.
From S2P Require Import Paths.
From S2P Require Import Engine.
From S2P Require Import Stores.
From S2P Require Import Actions.
From S2P Require Import VolumeData.
From S2P Require Import BackupRunner.
Import GoTime GoInt GoString.
Open Scope nat_scope.
Open Scope go_scope.

Set Default Proof Using "Type".

(** ** The Restorer

    The timeout of the downloads shows only in what the store answers after it. *)
Record Restorer := { rs_DataRoot : string; rs_MaxExtractedBytes : Z; rs_MinFreeBytes : Z; rs_NodeName : string }.

Definition defaultMaxExtractedBytes : Z := Z.shiftl 64 30.
Definition NewRestorer (dataRoot : string) (maxExtractedBytes minFreeBytes : Z) (nodeName : string) : Restorer :=
  {| rs_DataRoot := dataRoot;
     rs_MaxExtractedBytes := if Z.eqb maxExtractedBytes 0 then defaultMaxExtractedBytes else maxExtractedBytes;
     rs_MinFreeBytes := minFreeBytes; rs_NodeName := nodeName |}.

Definition restore_checkDiskSpace (r : Restorer) : act (option failure) :=
  if Z.eqb (rs_MinFreeBytes r) 0 then Return None
  else
    call_ (Disk (FreeBytes (rs_DataRoot r))) ≫= λ free,
    Return (match (free : reply Z) with
            | Bad e => Some (wrap "restore: check free space: " e)
            | Got free =>
                if Z.ltb free (rs_MinFreeBytes r) then
                  Some (Around EmptyString (Fails ErrRestoreDiskSpace)
                    (": " ++ FormatInt free ++ " bytes free, " ++ FormatInt (rs_MinFreeBytes r) ++ " required")%string)
                else None
            end).

(** ** The generation *)

(** Reading and decoding fail as one answer. *)
Definition FetchManifest (namespace project backupID : string) : act (reply Manifest) :=
  match ManifestKey namespace project backupID with
  | Bad e => Return (Bad e)
  | Got key =>
      call_ (Store (StoreOpen key)) ≫= λ err,
      match (err : option failure) with
      | Some e =>
          Return (Bad (if FIs e ErrObjectNotFound then
                         Around EmptyString (Fails ErrGenerationMissing)
                           (": generation " ++ Quote backupID ++ " has no manifest")%string
                       else wrap ("restore: read manifest for " ++ Quote backupID ++ ": ")%string e))
      | None => call_ (Store (StoreManifest key))
      end
  end.

(** The map of entries by name; a later entry replaces an earlier one. *)
Definition inGeneration (mf : Manifest) : gmap string VolumeManifestEntry :=
  foldl (λ m e, <[ve_Name e := e]> m) ∅ (mf_Volumes mf).
Fixpoint matchVolumes (specVolumes : list VolumeDef) (mf : Manifest) : reply (list VolumeManifestEntry) :=
  match specVolumes with
  | [] => Got []
  | vol :: rest =>
      if decide (vol_Type vol = VolumeTypeManaged) then
        match inGeneration mf !! vol_Name vol with
        | None =>
            Bad (Around EmptyString (Fails ErrManifestMismatch)
              (": generation " ++ Quote (mf_BackupID mf) ++ " has no volume " ++ Quote (vol_Name vol))%string)
        | Some entry => let! wanted := matchVolumes rest mf in Got (entry :: wanted)
        end
      else matchVolumes rest mf
  end.

Definition downloadAndVerify (entry : VolumeManifestEntry) (destPath : string) : act (option failure) :=
  let download := ("restore: download " ++ Quote (ve_ArchiveKey entry) ++ ": ")%string in
  wrapped_call download (call_ (Store (StoreOpen (ve_ArchiveKey entry)))) ;?
  wrapped_call ("restore: create " ++ Quote destPath ++ ": ")%string (call_ (Disk (CreateFile destPath))) ;?
  or_return_value
    (call_ (Disk (CopyFrom (ve_ArchiveKey entry) destPath)) ≫= λ r,
     Return (match (r : reply (Z * string)) with Bad e => Bad (wrap download e) | Got x => Got x end))
    (λ '(written, digest),
    wrapped_call ("restore: sync " ++ Quote destPath ++ ": ")%string (call_ (Disk (SyncFile destPath))) ;?
    Return (if negb (Z.eqb written (ve_SizeBytes entry)) then
              Some (Around EmptyString (Fails ErrChecksumMismatch)
                (": volume " ++ Quote (ve_Name entry) ++ " downloaded " ++ FormatInt written ++ " bytes, manifest says "
                 ++ FormatInt (ve_SizeBytes entry))%string)
            else if decide (digest = ve_SHA256 entry) then None
            else Some (Around EmptyString (Fails ErrChecksumMismatch)
                   (": volume " ++ Quote (ve_Name entry) ++ " digest " ++ digest ++ ", manifest says "
                    ++ ve_SHA256 entry)%string))).

(** [for _, x := range xs { if err := body(x); err != nil { return err } }]. *)
Fixpoint all_of {X} (xs : list X) (body : X → act (option failure)) : act (option failure) :=
  match xs with [] => Return None | x :: rest => body x ;? all_of rest body end.

Definition archivePath (staging volume : string) : string := path_join [staging; (volume ++ ".tar.gz")%string].
Definition extractedDir (staging volume : string) : string := path_join [staging; "extracted"%string; volume].

(** ** The swap *)

Definition displacedSuffix : string := ".displaced".
Record swap := { sw_live : string; sw_displaced : option string }.

(** [rollback()], over what is done, latest first. *)
Fixpoint rollback (done : list swap) : act () :=
  match done with
  | [] => skip
  | s :: rest =>
      call_ (Disk (RemoveTree (sw_live s))) ≫= λ err,
      (match (err : option failure), sw_displaced s with
       | None, Some displaced => call_ (Disk (RenamePath displaced (sw_live s))) ≫= λ _, skip
       | _, _ => skip
       end) ≫= λ _, rollback rest
  end.

(** Setting the live data of a volume aside: where it was moved, if there was any. *)
Definition set_aside (volume live : string) : act (reply (option string)) :=
  call_ (Stat live) ≫= λ r,
  match (r : stat_answer) with
  | StatFound =>
      let displaced := (live ++ displacedSuffix)%string in
      call_ (Disk (RemoveTree displaced)) ≫= λ _,
      call_ (Disk (RenamePath live displaced)) ≫= λ err,
      Return (match (err : option failure) with
              | Some e => Bad (wrap ("restore: set aside existing data for " ++ Quote volume ++ ": ")%string e)
              | None => Got (Some displaced)
              end)
  | StatAbsent => Return (Got None)
  | StatError e => Return (Bad (wrap ("restore: inspect " ++ Quote live ++ ": ")%string e))
  end.

(** One volume: what was swapped, or an error after which the ones before are rolled
    back. *)
Definition swap_one (dataRoot namespace project volume stagedDir : string) : act (reply swap) :=
  match HostPath dataRoot namespace project volume with
  | Bad e => Return (Bad e)
  | Got live =>
      call_ (Disk (MakeDirs (path_dir live))) ≫= λ err,
      match (err : option failure) with
      | Some e => Return (Bad (wrap ("restore: create volume dir for " ++ Quote volume ++ ": ")%string e))
      | None =>
          set_aside volume live ≫= λ aside,
          match aside with
          | Bad e => Return (Bad e)
          | Got displaced =>
              call_ (Disk (RenamePath stagedDir live)) ≫= λ err,
              match (err : option failure) with
              | Some e =>
                  (match displaced with
                   | Some d => call_ (Disk (RenamePath d live)) ≫= λ _, skip
                   | None => skip
                   end) ≫= λ _,
                  Return (Bad (wrap ("restore: swap in " ++ Quote volume ++ ": ")%string e))
              | None => Return (Got {| sw_live := live; sw_displaced := displaced |})
              end
          end
      end
  end.

Fixpoint swap_each (dataRoot namespace project : string) (staged : list (string * string)) (done : list swap)
    : act (option failure) :=
  match staged with
  | [] =>
      for_each done (λ s,
        match sw_displaced s with
        | Some d => call_ (Disk (RemoveTree d)) ≫= λ _, skip
        | None => skip
        end) ≫= λ _, Return None
  | (volume, stagedDir) :: rest =>
      swap_one dataRoot namespace project volume stagedDir ≫= λ r,
      match r with
      | Bad e => rollback (rev done) ≫= λ _, Return (Some e)
      | Got s => swap_each dataRoot namespace project rest (done ++ [s])
      end
  end.

(** The staged directories in the order of the range. *)
Definition ranged {order : MapOrder} (staged : gmap string string) : list (string * string) :=
  (λ v, (v, default EmptyString (staged !! v))) <$> map_order (map_to_list staged).*1.
Definition swapAll {order : MapOrder} (r : Restorer) (namespace project : string) (staged : gmap string string)
    : act (option failure) :=
  swap_each (rs_DataRoot r) namespace project (ranged staged) [].

(** What is swapped in after the extraction: each volume, from where it is staged. *)
Definition staged_pairs (staging : string) (names : list string) : list (string * string) :=
  (λ v, (v, extractedDir staging v)) <$> names.

Definition extracted (staging : string) (names : list string) : gmap string string :=
  list_to_map (staged_pairs staging names).

(** ** The marker *)

Definition marker_of (prov : Provenance) (now : Time) : Marker :=
  {| mk_Version := MarkerVersion; mk_Namespace := pv_Namespace prov; mk_Project := pv_Project prov;
     mk_ProjectUID := pv_ProjectUID prov; mk_NodeName := pv_NodeName prov;
     mk_AssignmentGeneration := pv_AssignmentGeneration prov; mk_InitializedFromBackupID := pv_BackupID prov;
     mk_EstablishedAt := now |}.
Definition WriteMarker (dataRoot : string) (prov : Provenance) (now : Time) : act (option failure) :=
  match MarkerPath dataRoot (pv_Namespace prov) (pv_Project prov) with
  | Bad e => Return (Some e)
  | Got path =>
      let tmp := (path ++ ".tmp")%string in
      wrapped_call ("restore: create marker dir for " ++ Quote path ++ ": ")%string
        (call_ (Disk (MakeDirs (path_dir path)))) ;?
      wrapped_call ("restore: write marker " ++ Quote tmp ++ ": ")%string
        (call_ (Disk (WriteMarkerFile tmp (marker_of prov now)))) ;?
      call_ (Disk (RenamePath tmp path)) ≫= λ err,
      match (err : option failure) with
      | Some e =>
          call_ (Disk (RemoveFile tmp)) ≫= λ _,
          Return (Some (wrap ("restore: commit marker " ++ Quote path ++ ": ")%string e))
      | None => Return None
      end
  end.

(** [r.now()] is read when the marker is written. *)
Definition write_marker_now (r : Restorer) (p : Project) (backupID : string) : act (option failure) :=
  call_ Clock ≫= λ now, WriteMarker (rs_DataRoot r) (ProvenanceFor p (rs_NodeName r) backupID) now.

(** ** restore.go *)

Definition clear_staging (staging : string) : act (option failure) :=
  wrapped_call ("restore: clear staging " ++ Quote staging ++ ": ")%string (call_ (Disk (RemoveTree staging))) ;?
  wrapped_call ("restore: create staging " ++ Quote staging ++ ": ")%string (call_ (Disk (MakeDirs staging))).

Definition install {order : MapOrder} (r : Restorer) (p : Project) (backupID staging : string)
    (staged : gmap string string) : act (option failure) :=
  swapAll r (om_Namespace (p_Meta p)) (om_Name (p_Meta p)) staged ;?
  write_marker_now r p backupID ;?
  call_ (Disk (RemoveTree staging)) ≫= λ _, Return None.

Definition RestoreGeneration_ {order : MapOrder} (r : Restorer) (p : Project) (backupID : string)
    : act (option failure) :=
  let ns := om_Namespace (p_Meta p) in
  let name := om_Name (p_Meta p) in
  restore_checkDiskSpace r ;?
  or_return_value (FetchManifest ns name backupID) (λ manifest,
  match matchVolumes (sp_Volumes (p_Spec p)) manifest with
  | Bad e => Return (Some e)
  | Got [] => Return None
  | Got wanted =>
      match StagingDir (rs_DataRoot r) ns name with
      | Bad e => Return (Some e)
      | Got staging =>
          clear_staging staging ;?
          all_of wanted (λ entry, downloadAndVerify entry (archivePath staging (ve_Name entry))) ;?
          all_of wanted (λ entry,
            call_ (Disk (ExtractArchive (archivePath staging (ve_Name entry)) (extractedDir staging (ve_Name entry))
                           (rs_MaxExtractedBytes r)))) ;?
          install r p backupID staging (extracted staging (ve_Name <$> wanted))
      end
  end).

Definition PrepareStaging (r : Restorer) (p : Project) : act (reply string) :=
  let refused (e : failure) := Return (Bad e) in
  restore_checkDiskSpace r ≫= λ err,
  match err with
  | Some e => refused e
  | None =>
      match StagingDir (rs_DataRoot r) (om_Namespace (p_Meta p)) (om_Name (p_Meta p)) with
      | Bad e => refused e
      | Got staging =>
          clear_staging staging ≫= λ err, match err with Some e => refused e | None => Return (Got staging) end
      end
  end.

Definition InstallStaged {order : MapOrder} (r : Restorer) (p : Project) (backupID : string)
    (staged : gmap string string) : act (option failure) :=
  let ns := om_Namespace (p_Meta p) in
  let name := om_Name (p_Meta p) in
  swapAll r ns name staged ;?
  write_marker_now r p backupID ;?
  match StagingDir (rs_DataRoot r) ns name with
  | Bad e => Return (Some e)
  | Got staging => call_ (Disk (RemoveTree staging)) ≫= λ _, Return None
  end.

Definition InitializeEmpty_ (r : Restorer) (p : Project) : act (option failure) :=
  let ns := om_Namespace (p_Meta p) in
  let name := om_Name (p_Meta p) in
  all_of (sp_Volumes (p_Spec p)) (λ vol,
    if decide (vol_Type vol = VolumeTypeManaged) then
      match HostPath (rs_DataRoot r) ns name (vol_Name vol) with
      | Bad e => Return (Some e)
      | Got path =>
          wrapped_call ("restore: create empty volume dir " ++ Quote path ++ ": ")%string (call_ (Disk (MakeDirs path)))
      end
    else Return None) ;?
  write_marker_now r p EmptyString ;?
  match StagingDir (rs_DataRoot r) ns name with
  | Bad e => Return (Some e)
  | Got staging =>
      wrapped_call ("restore: clear staging " ++ Quote staging ++ ": ")%string (call_ (Disk (RemoveTree staging)))
  end.

(** ** quarantine.go *)

Definition quarantineRoot : string := "quarantine".
Definition quarantine_parent (dataRoot : string) (owner : Provenance) : string :=
  path_join [Clean dataRoot; quarantineRoot; pv_Namespace owner; pv_Project owner].
Definition quarantine_dest (dataRoot : string) (owner : Provenance) (now : Time) : string :=
  path_join [quarantine_parent dataRoot owner;
             (pv_ProjectUID owner ++ "-gen" ++ FormatInt (pv_AssignmentGeneration owner) ++ "-" ++ compact_time now)%string].

Definition Quarantine_ (dataRoot : string) (owner : Provenance) (now : Time) : act (option failure) :=
  match ProjectDir dataRoot (pv_Namespace owner) (pv_Project owner) with
  | Bad e => Return (Some e)
  | Got dir =>
      call_ (Stat dir) ≫= λ found,
      match (found : stat_answer) with
      | StatAbsent => Return None
      | StatError e => Return (Some (wrap ("restore: inspect " ++ Quote dir ++ ": ")%string e))
      | StatFound =>
          ReadMarker_ dataRoot (pv_Namespace owner) (pv_Project owner) ≫= λ '(marker, err),
          if bool_decide (err = None) && bool_decide (is_Some marker) && negb (IsLegacy marker)
             && negb (Matches marker owner)
          then Return None
          else
            let parent := quarantine_parent dataRoot owner in
            wrapped_call ("restore: create quarantine dir " ++ Quote parent ++ ": ")%string
              (call_ (Disk (MakeDirs parent))) ;?
            wrapped_call ("restore: move " ++ Quote dir ++ " to quarantine: ")%string
              (call_ (Disk (RenamePath dir (quarantine_dest dataRoot owner now))))
      end
  end.

Lemma extracted_lookup staging names v :
  extracted staging names !! v = if decide (v ∈ names) then Some (extractedDir staging v) else None.
Proof.
  unfold extracted, staged_pairs. case_decide as Hin.
  - induction names as [|n names IH]; [by apply elem_of_nil in Hin|]. rewrite fmap_cons. simpl.
    destruct (decide (v = n)) as [->|Hne]; [by rewrite lookup_insert_eq|]. rewrite lookup_insert_ne by done.
    apply IH. by apply elem_of_cons in Hin as [?|?].
  - apply not_elem_of_list_to_map_1. rewrite <- list_fmap_compose. by rewrite list_fmap_id.
Qed.

Lemma ranged_extracted {order : MapOrder} staging names :
  ∃ vs, ranged (extracted staging names) = staged_pairs staging vs ∧ NoDup vs ∧
    ∀ v, v ∈ vs ↔ v ∈ names.
Proof.
  set (vs := map_order (map_to_list (extracted staging names)).*1).
  assert (∀ v, v ∈ vs ↔ v ∈ names) as Hin.
  { intros v. unfold vs. rewrite map_order_perm, list_elem_of_fmap. split.
    - intros ([v' dir] & -> & Hv%elem_of_map_to_list). rewrite extracted_lookup in Hv. by case_decide.
    - intros Hv. exists (v, extractedDir staging v). split; [done|]. apply elem_of_map_to_list.
      by rewrite extracted_lookup, decide_True. }
  exists vs. split_and!; [|unfold vs; rewrite map_order_perm; apply NoDup_fst_map_to_list|done].
  unfold ranged, staged_pairs. fold vs. apply list_fmap_ext. intros i v Hv%list_elem_of_lookup_2%Hin.
  by rewrite extracted_lookup, decide_True.
Qed.

(** ** What a restore may ask for, and when *)

Section restoring.
Context (r : Restorer) (p : Project) (backupID : string).
Notation ns := (om_Namespace (p_Meta p)).
Notation name := (om_Name (p_Meta p)).
Notation root := (rs_DataRoot r).

(** The volumes of the manifest that was read, as the spec declares them. *)
Definition wanted (es : list VolumeManifestEntry) (h : story) : Prop :=
  ∃ key mf, ManifestKey ns name backupID = Got key ∧ Did (Store (StoreManifest key)) (Got mf) ∈ h ∧
    matchVolumes (sp_Volumes (p_Spec p)) mf = Got es.

Definition room_to_restore (h : story) : Prop :=
  rs_MinFreeBytes r = 0%Z ∨ ∃ free, Did (Disk (FreeBytes root)) (Got free) ∈ h ∧ (rs_MinFreeBytes r ≤ free)%Z.

Section staged.
Context (staging : string) (es : list VolumeManifestEntry).
Notation archive e := (archivePath staging (ve_Name e)).
Notation expanded e := (extractedDir staging (ve_Name e)).
Notation live e := (HostPath root ns name (ve_Name e)).

(** The archive on the disk is the one the manifest describes. *)
Definition verified (h : story) (e : VolumeManifestEntry) : Prop :=
  Did (Disk (CopyFrom (ve_ArchiveKey e) (archive e))) (Got (ve_SizeBytes e, ve_SHA256 e)) ∈ h ∧
  Did (Disk (SyncFile (archive e))) None ∈ h.
Definition extracted_from (h : story) (e : VolumeManifestEntry) : Prop :=
  Did (Disk (ExtractArchive (archive e) (expanded e) (rs_MaxExtractedBytes r))) None ∈ h.
(** Every archive was verified, and then every one expanded. *)
Definition prepared (h : story) : Prop :=
  Forall (verified h) es ∧ Forall (extracted_from h) es.
(** Every volume was moved to where the containers will find it. *)
Definition moved (h : story) (e : VolumeManifestEntry) : Prop :=
  ∃ path, live e = Got path ∧ Did (Disk (RenamePath (expanded e) path)) None ∈ h.
Definition installed (h : story) : Prop := Forall (moved h) es.

Definition marked (h : story) : Prop :=
  ∃ path, MarkerPath root ns name = Got path ∧ Did (Disk (RenamePath (path ++ ".tmp") path)) None ∈ h.
(** Nothing was moved yet. *)
Definition unmoved (h : story) : Prop := Forall (λ e, match call_of e with Disk (RenamePath _ _) => False | _ => True end) h.

(** A path the swap of these volumes may look at or change. *)
Definition live_path (path : string) : Prop := ∃ e, e ∈ es ∧ live e = Got path.
Definition aside_path (path : string) : Prop := ∃ live, live_path live ∧ path = (live ++ displacedSuffix)%string.

Definition swap_call (c : call) : Prop :=
  match c with
  | Stat path => live_path path
  | Disk (MakeDirs path) => ∃ live, live_path live ∧ path = path_dir live
  | Disk (RemoveTree path) => live_path path ∨ aside_path path
  | Disk (RenamePath from to) =>
      (live_path from ∧ to = (from ++ displacedSuffix)%string) ∨ (live_path to ∧ from = (to ++ displacedSuffix)%string) ∨
      (live_path to ∧ ∃ e, e ∈ es ∧ live e = Got to ∧ from = expanded e)
  | _ => False
  end.
Definition marker_call (h : story) (c : call) : Prop :=
  ∃ path, MarkerPath root ns name = Got path ∧
  match c with
  | Disk (MakeDirs dir) => dir = path_dir path
  | Disk (WriteMarkerFile file mk) =>
      file = (path ++ ".tmp")%string ∧
      ∃ now, Did Clock now ∈ h ∧ mk = marker_of (ProvenanceFor p (rs_NodeName r) backupID) now
  | Disk (RenamePath from to) =>
      from = (path ++ ".tmp")%string ∧ to = path ∧ ∃ mk, Did (Disk (WriteMarkerFile from mk)) None ∈ h
  | Disk (RemoveFile file) => file = (path ++ ".tmp")%string
  | _ => False
  end.
Definition download_call (c : call) : Prop :=
  ∃ e, e ∈ es ∧
  match c with
  | Store (StoreOpen k) => k = ve_ArchiveKey e
  | Disk (CreateFile file) | Disk (SyncFile file) => file = archive e
  | Disk (CopyFrom k file) => k = ve_ArchiveKey e ∧ file = archive e
  | _ => False
  end.
Definition staging_call (h : story) (c : call) : Prop :=
  match c with
  | Disk (MakeDirs path) => path = staging ∧ unmoved h
  | Disk (RemoveTree path) => path = staging ∧ (unmoved h ∨ marked h)
  | _ => False
  end.
Definition extract_call (h : story) (c : call) : Prop :=
  ∃ e, e ∈ es ∧ c = Disk (ExtractArchive (archive e) (expanded e) (rs_MaxExtractedBytes r)) ∧ Forall (verified h) es.
End staged.

Definition restore_allowed (h : story) (c : call) : Prop :=
  c = Clock ∨ c = Disk (FreeBytes root) ∨
  (room_to_restore h ∧ ∃ key, ManifestKey ns name backupID = Got key ∧
     (c = Store (StoreOpen key) ∨ c = Store (StoreManifest key))) ∨
  (room_to_restore h ∧ ∃ staging es, StagingDir root ns name = Got staging ∧ wanted es h ∧ es ≠ [] ∧
     (staging_call staging h c ∨ download_call staging es c ∨ extract_call staging es h c ∨
      (prepared staging es h ∧ (swap_call staging es c ∨ installed staging es h ∧ marker_call h c)))).

(** *** What stays true *)

Lemma wanted_later es h h' : h `prefix_of` h' → wanted es h → wanted es h'.
Proof. intros Hp (k & mf & H1 & H2 & H3). exists k, mf. split_and!; [done|by eapply seen_prefix|done]. Qed.
Lemma room_to_restore_later h h' : h `prefix_of` h' → room_to_restore h → room_to_restore h'.
Proof. intros Hp [H|(f & H1 & H2)]; [by left|right]. exists f. split; [by eapply seen_prefix|done]. Qed.
Lemma verified_later staging h h' e : h `prefix_of` h' → verified staging h e → verified staging h' e.
Proof. intros Hp [H1 H2]. split; by eapply seen_prefix. Qed.
Lemma Forall_later {X} (P : story → X → Prop) xs h h' :
  (∀ x, P h x → P h' x) → Forall (P h) xs → Forall (P h') xs.
Proof. intros HP H. eapply Forall_impl; [exact H|exact HP]. Qed.
Lemma prepared_later staging es h h' : h `prefix_of` h' → prepared staging es h → prepared staging es h'.
Proof.
  intros Hp [H1 H2]. split; (eapply Forall_later; [|eassumption]); intros e; [by apply verified_later|].
  by apply seen_prefix.
Qed.
Lemma moved_later staging h h' e : h `prefix_of` h' → moved staging h e → moved staging h' e.
Proof. intros Hp (path & H1 & H2). exists path. split; [done|by eapply seen_prefix]. Qed.

(** A loop that stops at the first error did every one when there was none. *)
Lemma awp_all_of {X} ok (xs : list X) body (P : story → X → Prop) m h :
  (∀ h h' x, h `prefix_of` h' → P h x → P h' x) →
  (∀ x m' h', x ∈ xs → h `prefix_of` h' →
     awp ok (body x) (λ err _ h'', h' `prefix_of` h'' ∧ (err = None → P h'' x)) m' h') →
  awp ok (all_of xs body) (λ err _ h', h `prefix_of` h' ∧ (err = None → Forall (P h') xs)) m h.
Proof.
  intros HP. revert m h. induction xs as [|x xs IH]; intros m h Hb; [by split|]. cbn [all_of]. apply awp_or_return.
  eapply awp_mono; [|apply Hb; [by left|done]]. intros [e|] m1 h1 [Hp1 H1]; [by split|].
  eapply awp_mono; [|apply IH].
  - intros err m2 h2 [Hp2 H2]. split; [by etrans|]. intros Herr. constructor; [by eapply HP, H1|by apply H2].
  - intros x' m' h' Hx Hp'. apply Hb; [by right|by etrans].
Qed.

(** *** The parts *)

Lemma awp_restore_disk_space m h :
  awp (restore_allowed) (restore_checkDiskSpace r) (λ err _ h', err = None → room_to_restore h') m h.
Proof.
  unfold restore_checkDiskSpace. destruct (Z.eqb _ _) eqn:E0; [intros _; left; by apply Z.eqb_eq|].
  apply awp_call_bind; [by right; left|]. intros [free|e]; [|done]. simpl. destruct (Z.ltb _ _) eqn:El; [done|].
  intros _. right. exists free. split; [apply seen_last|lia].
Qed.

Lemma awp_FetchManifest m h :
  room_to_restore h →
  awp restore_allowed (FetchManifest ns name backupID) (λ x _ h', h `prefix_of` h' ∧
    match x with
    | Got mf => ∃ key, ManifestKey ns name backupID = Got key ∧ Did (Store (StoreManifest key)) (Got mf) ∈ h'
    | Bad _ => True
    end) m h.
Proof.
  intros Hr. unfold FetchManifest. destruct (ManifestKey _ _ _) as [key|e] eqn:Ek; [|done].
  assert (∀ h', h `prefix_of` h' → ∀ c, c = Store (StoreOpen key) ∨ c = Store (StoreManifest key) → restore_allowed h' c)
    as Hok.
  { intros h' Hp c Hc. right. right. left. split; [by eapply room_to_restore_later|by exists key]. }
  apply awp_call_bind; [apply Hok; auto|]. intros [e|]; [split; [later|done]|].
  split; [apply Hok; [later|by right]|]. intros [mf|e]; (split; [later|]); [|done]. exists key. split; [done|apply seen_last].
Qed.

Section pieces.
Context (staging : string) (es : list VolumeManifestEntry).
Context (Hstaging : StagingDir root ns name = Got staging).

Lemma restore_ok h c :
  room_to_restore h → wanted es h → es ≠ [] →
  (staging_call staging h c ∨ download_call staging es c ∨ extract_call staging es h c ∨
   (prepared staging es h ∧ (swap_call staging es c ∨ installed staging es h ∧ marker_call h c))) →
  restore_allowed h c.
Proof using All. intros. right. right. right. split; [done|]. by exists staging, es. Qed.

Definition at_hand (h : story) : Prop := room_to_restore h ∧ wanted es h ∧ es ≠ [].
Lemma at_hand_later h h' : h `prefix_of` h' → at_hand h → at_hand h'.
Proof.
  intros Hp (H1 & H2 & H3). split_and!; [by eapply room_to_restore_later|by eapply wanted_later|done].
Qed.
Lemma at_hand_ok h c : at_hand h →
  (staging_call staging h c ∨ download_call staging es c ∨ extract_call staging es h c ∨
   (prepared staging es h ∧ (swap_call staging es c ∨ installed staging es h ∧ marker_call h c))) →
  restore_allowed h c.
Proof using All. intros (H1 & H2 & H3). by apply restore_ok. Qed.

Lemma awp_downloadAndVerify e m h :
  at_hand h → e ∈ es →
  awp restore_allowed (downloadAndVerify e (archivePath staging (ve_Name e)))
    (λ err _ h', h `prefix_of` h' ∧ (err = None → verified staging h' e)) m h.
Proof using All.
  intros Ha He. unfold downloadAndVerify. cbv zeta.
  assert (∀ h' c, h `prefix_of` h' → download_call staging es c → restore_allowed h' c) as Hok.
  { intros h' c Hp Hc. apply at_hand_ok; [by eapply at_hand_later|auto]. }
  apply awp_or_return, awp_bind. split; [apply Hok; [done|by exists e]|]. answered; [by split; [later|]|].
  apply awp_or_return, awp_bind. split; [apply Hok; [later|by exists e]|]. answered; [by split; [later|]|].
  apply awp_or_return_value, awp_call_bind; [apply Hok; [later|by exists e]|].
  intros [[written digest]|x]; cbn [awp]; [|by split; [later|]].
  apply awp_or_return, awp_bind. split; [apply Hok; [later|by exists e]|]. answered; [by split; [later|]|].
  split; [later|]. destruct (negb (Z.eqb written (ve_SizeBytes e))) eqn:Ew; [done|].
  apply negb_false_iff, Z.eqb_eq in Ew as ->. case_decide as Hd; [|done]. subst digest. intros _.
  split; [apply seen_app, seen_last|apply seen_last].
Qed.

Lemma awp_clear_staging m h :
  at_hand h → unmoved h → awp restore_allowed (clear_staging staging) (λ err _ h', h `prefix_of` h') m h.
Proof using All.
  intros Ha Hu. unfold clear_staging. apply awp_or_return, awp_bind.
  split; [apply at_hand_ok; [done|left; by split; [|left]]|]. answered; [later|]. apply awp_bind. split; [|intros x; later].
  apply at_hand_ok; [eapply at_hand_later; [|exact Ha]; later|]. left. split; [done|].
  apply Forall_app. split; [done|]. by constructor.
Qed.

Lemma awp_extract_all m h :
  at_hand h → Forall (verified staging h) es →
  awp restore_allowed (all_of es (λ e,
      call_ (Disk (ExtractArchive (archivePath staging (ve_Name e)) (extractedDir staging (ve_Name e))
                     (rs_MaxExtractedBytes r)))))
    (λ err _ h', h `prefix_of` h' ∧ (err = None → prepared staging es h')) m h.
Proof using All.
  intros Ha Hv. eapply awp_mono; [|apply (awp_all_of _ _ _ (extracted_from staging))].
  - intros err m' h' [Hp H]. split; [done|]. intros Herr. split; [|by apply H].
    eapply Forall_later; [|exact Hv]. intros e. by apply verified_later.
  - intros h1 h2 e Hp. by apply seen_prefix.
  - intros e m' h' He Hp. split.
    + apply at_hand_ok; [by eapply at_hand_later|]. right. right. left. exists e. split_and!; [done|done|].
      eapply Forall_later; [|exact Hv]. intros e'. by apply verified_later.
    + intros x. split; [later|]. intros ->. apply seen_last.
Qed.

(** *** The swap *)

Definition of_volume (x : swap) : Prop :=
  live_path es (sw_live x) ∧ ∀ d, sw_displaced x = Some d → d = (sw_live x ++ displacedSuffix)%string.

Lemma only_rollback done : Forall of_volume done → only (swap_call staging es) (rollback done).
Proof using All.
  induction 1 as [|x done [Hl Hd] Hdone IH]; [done|]. cbn [rollback]. apply only_bind; [by apply only_call; left|].
  intros err. apply only_bind; [|by intros]. destruct err as [e|]; [done|]. destruct (sw_displaced x) as [d|]; [|done].
  apply only_bind; [|by intros]. apply only_call. right. left. split; [done|by apply Hd].
Qed.

Lemma swap_ok h c : at_hand h → prepared staging es h → swap_call staging es c → restore_allowed h c.
Proof using All. intros Ha Hp Hc. apply at_hand_ok; [done|]. right. right. right. by split; [|left]. Qed.

Lemma awp_swap_only {A} (q : act A) (Q : A → memory → story → Prop) m h :
  at_hand h → prepared staging es h → only (swap_call staging es) q →
  (∀ a m' h', h `prefix_of` h' → Q a m' h') → awp restore_allowed q Q m h.
Proof using All.
  intros Ha Hpr Hq HQ. apply (awp_ok_from _ _ _ _ h); [done|]. eapply awp_only; [exact Hq| |].
  - intros h' c Hc Hp. apply swap_ok; [by eapply at_hand_later|by eapply prepared_later|done].
  - intros a m' h' Hg. by eapply HQ, grows_prefix.
Qed.

Lemma awp_swap_one e m h :
  at_hand h → prepared staging es h → e ∈ es →
  awp restore_allowed (swap_one root ns name (ve_Name e) (extractedDir staging (ve_Name e)))
    (λ x _ h', h `prefix_of` h' ∧ match x with Got s => of_volume s ∧ moved staging h' e | Bad _ => True end) m h.
Proof using All.
  intros Ha Hpr He. assert (∀ h' c, h `prefix_of` h' → swap_call staging es c → restore_allowed h' c) as Hok.
  { intros h' c Hp. apply swap_ok; [by eapply at_hand_later|by eapply prepared_later]. }
  unfold swap_one. destruct (HostPath root ns name (ve_Name e)) as [live|x] eqn:Eh; [|done].
  assert (live_path es live) as Hl by by exists e.
  apply awp_call_bind; [apply Hok; [done|by exists live]|]. intros [x|]; [by split; [later|]|].
  apply awp_bind. unfold set_aside. set (h1 := h ++ _). assert (h `prefix_of` h1) as Hp1 by later.
  assert (∀ displaced m2 h2, h1 `prefix_of` h2 → (∀ d, displaced = Some d → d = (live ++ displacedSuffix)%string) →
    awp restore_allowed
      (call_ (Disk (RenamePath (extractedDir staging (ve_Name e)) live)) ≫= λ err : option failure,
         match err with
         | Some x =>
             (match displaced with Some d => call_ (Disk (RenamePath d live)) ≫= λ _, skip | None => skip end) ≫= λ _,
             Return (Bad (wrap ("restore: swap in " ++ Quote (ve_Name e) ++ ": ")%string x))
         | None => Return (Got {| sw_live := live; sw_displaced := displaced |})
         end)
      (λ x _ h', h `prefix_of` h' ∧ match x with Got s => of_volume s ∧ moved staging h' e | Bad _ => True end) m2 h2) as Hin.
  { intros displaced m2 h2 Hp2 Hd. apply awp_call_bind.
    - apply Hok; [later|]. right. right. split; [done|by exists e].
    - intros [x|]; cbv beta iota.
      + apply awp_bind. destruct displaced as [d|]; [|by split; [later|]]. apply awp_call_bind; [|by split; [later|]].
        apply Hok; [later|]. right. left. split; [done|by apply Hd].
      + split; [later|]. split; [done|]. exists live. split; [done|apply seen_last]. }
  apply awp_call_bind; [by apply Hok|]. intros [| |x]; [|by apply Hin; [later|]|by split; [later|]].
  apply awp_call_bind; [apply Hok; [later|]; right; by exists live|]. intros removed.
  apply awp_call_bind; [apply Hok; [later|]; by left|]. intros [x|]; [by split; [later|]|].
  apply (Hin (Some _)); [later|]. by intros d [= <-].
Qed.

Lemma moved_name h e e' : ve_Name e' = ve_Name e → moved staging h e → moved staging h e'.
Proof. unfold moved. by intros ->. Qed.

Lemma awp_swap_each vs done m h :
  at_hand h → prepared staging es h → Forall of_volume done → (∀ v, v ∈ vs → ∃ e, e ∈ es ∧ ve_Name e = v) →
  awp restore_allowed (swap_each root ns name (staged_pairs staging vs) done)
    (λ err _ h', h `prefix_of` h' ∧
       (err = None → ∀ e, e ∈ es → ve_Name e ∈ vs → moved staging h' e)) m h.
Proof using All.
  revert done m h. induction vs as [|v vs IH]; intros done m h Ha Hpr Hd Hvs.
  - unfold staged_pairs. cbn [fmap list_fmap swap_each]. apply awp_swap_only; [done|done| |].
    + apply only_bind; [|by intros]. clear Hvs. induction Hd as [|x done [Hl Hdis] Hd IHd]; [done|]. cbn [for_each].
      apply only_bind; [|done]. destruct (sw_displaced x) as [d|]; [|done]. apply only_bind; [|by intros].
      apply only_call. right. exists (sw_live x). split; [done|by apply Hdis].
    + intros err m' h' Hp. split; [done|]. intros _ e He Hin. by apply elem_of_nil in Hin.
  - destruct (Hvs v) as (e & He & <-); [by left|]. unfold staged_pairs. rewrite fmap_cons. cbn [swap_each].
    apply awp_bind. eapply awp_mono; [|by apply awp_swap_one]. intros [x|x] m1 h1 [Hp1 H1]; cbv beta iota.
    + destruct H1 as [Hx Hm]. eapply awp_mono; [|apply IH].
      * intros err m2 h2 [Hp2 H2]. split; [by etrans|]. intros Herr e' He' Hin.
        apply elem_of_cons in Hin as [Hn|Hin]; [|by apply H2]. eapply moved_name; [done|]. by eapply moved_later.
      * by eapply at_hand_later.
      * by eapply prepared_later.
      * apply Forall_app. split; [done|by constructor].
      * intros v' Hv'. apply Hvs. by right.
    + apply awp_bind, awp_swap_only; [by eapply at_hand_later|by eapply prepared_later| |].
      2: { intros [] m2 h2 Hp2. cbn [awp]. split; [by etrans|done]. }
      apply only_rollback. by rewrite <- (Permutation_rev done).
Qed.

(** *** The marker *)

Lemma awp_write_marker_now m h :
  at_hand h → prepared staging es h → installed staging es h →
  awp restore_allowed (write_marker_now r p backupID) (λ err _ h', h `prefix_of` h' ∧ (err = None → marked h')) m h.
Proof using All.
  intros Ha Hpr Hin.
  assert (∀ h' c, h `prefix_of` h' → marker_call h' c → restore_allowed h' c) as Hok.
  { intros h' c Hp Hc. apply at_hand_ok; [by eapply at_hand_later|]. right. right. right.
    split; [by eapply prepared_later|]. right. split; [|done].
    eapply Forall_later; [|exact Hin]. intros e. by apply moved_later. }
  unfold write_marker_now. apply awp_call_bind; [by left|]. intros now. set (h1 := h ++ _).
  unfold WriteMarker. cbn [ProvenanceFor pv_Namespace pv_Project].
  destruct (MarkerPath root ns name) as [path|x] eqn:Ep; [|by split; [later|]]. cbv zeta.
  apply awp_or_return, awp_bind. split; [apply Hok; [later|]; by exists path|]. answered; [by split; [later|]|].
  apply awp_or_return, awp_bind. split.
  { apply Hok; [later|]. exists path. split_and!; [done|done|]. exists now. split; [|done]. apply seen_app, seen_last. }
  answered; [by split; [later|]|]. apply awp_call_bind.
  { apply Hok; [later|]. exists path. split_and!; [done|done|done|]. eexists. apply seen_last. }
  intros [x|]; cbv beta iota.
  - apply awp_call_bind; [apply Hok; [later|]; by exists path|]. by split; [later|].
  - split; [later|]. intros _. exists path. split; [done|apply seen_last].
Qed.

Lemma awp_install {order : MapOrder} m h :
  at_hand h → prepared staging es h →
  awp restore_allowed (install r p backupID staging (extracted staging (ve_Name <$> es)))
    (λ err _ h', h `prefix_of` h' ∧ (err = None → installed staging es h' ∧ marked h')) m h.
Proof using All.
  intros Ha Hpr. unfold install, swapAll. destruct (ranged_extracted staging (ve_Name <$> es)) as (vs & -> & _ & Hvs).
  apply awp_or_return. eapply awp_mono; [|apply awp_swap_each; [done|done|constructor|]].
  2: { intros v (e & -> & He)%Hvs%list_elem_of_fmap. by exists e. }
  intros [x|] m1 h1 [Hp1 H1]; [by split|].
  assert (installed staging es h1) as Hin.
  { apply Forall_forall. intros e He. apply H1; [done|done|]. apply Hvs. by apply list_elem_of_fmap_2. }
  apply awp_or_return.
  eapply awp_mono; [|apply awp_write_marker_now; [by eapply at_hand_later|by eapply prepared_later|done]].
  intros [x|] m2 h2 [Hp2 H2]; [by split; [etrans|]|]. specialize (H2 eq_refl).
  assert (h `prefix_of` h2) as Hp by by etrans.
  apply awp_call_bind; [apply at_hand_ok; [by eapply at_hand_later|]; left; by split; [|right]|]. intros x.
  split; [later|]. intros _. split.
  - eapply Forall_later; [|exact Hin]. intros e. apply moved_later. later.
  - destruct H2 as (path & H3 & H4). exists path. split; [done|by apply seen_app].
Qed.
End pieces.

Lemma awp_RestoreGeneration {order : MapOrder} m :
  awp restore_allowed (RestoreGeneration_ r p backupID)
    (λ err _ h, err = None → ∃ es, wanted es h ∧
       (es = [] ∨ ∃ staging, StagingDir root ns name = Got staging ∧ prepared staging es h ∧
          installed staging es h ∧ marked h)) m [].
Proof.
  unfold RestoreGeneration_. cbv zeta. apply awp_or_return. eapply awp_mono.
  2: { apply (awp_grows _ (λ c, match c with Disk (RenamePath _ _) => False | _ => True end)), awp_restore_disk_space.
       unfold restore_checkDiskSpace. destruct (Z.eqb _ _); [done|]. by apply only_bind; [apply only_call|]. }
  intros [x|] m1 h1 [Hr (k1 & -> & Hk1)]; [done|]. specialize (Hr eq_refl). rewrite app_nil_l in *.
  apply awp_or_return_value. eapply awp_mono.
  2: { apply (awp_grows _ (λ c, match c with Disk (RenamePath _ _) => False | _ => True end)), awp_FetchManifest; [|done].
       unfold FetchManifest. destruct (ManifestKey _ _ _); [|done]. apply only_bind; [by apply only_call|].
       intros [x|]; [done|by apply only_call]. }
  intros [mf|x] m2 h2 [[Hp2 Hmf] (k2 & -> & Hk2)]; [|done].
  destruct (matchVolumes _ mf) as [es|x] eqn:Em; [|done].
  assert (wanted es (k1 ++ k2)) as Hw by (destruct Hmf as (key & H1 & H2); by exists key, mf).
  destruct es as [|e es']; [by intros _; exists []; auto|]. set (es := e :: es') in *.
  destruct (StagingDir _ _ _) as [staging|x] eqn:Est; [|done].
  assert (at_hand es (k1 ++ k2)) as Ha by (split_and!; [by eapply room_to_restore_later|done|done]).
  apply awp_or_return. eapply awp_mono; [|apply (awp_clear_staging staging es Est); [done|by apply Forall_app]].
  intros [x|] m3 h3 Hp3; [done|]. apply awp_or_return. eapply awp_mono.
  2: { apply (awp_all_of _ es _ (verified staging)); [by intros; eapply verified_later|]. intros e' m' h' He Hp'.
       apply (awp_downloadAndVerify staging es Est); [|done]. eapply at_hand_later; [|exact Ha]. by etrans. }
  intros [x|] m4 h4 [Hp4 Hv4]; [done|]. specialize (Hv4 eq_refl).
  assert (at_hand es h4) as Ha4 by (eapply at_hand_later; [|exact Ha]; by etrans).
  apply awp_or_return. eapply awp_mono; [|by apply (awp_extract_all staging es Est)].
  intros [x|] m5 h5 [Hp5 Hpr5]; [done|]. specialize (Hpr5 eq_refl).
  eapply awp_mono; [|apply (awp_install staging es Est); [by eapply at_hand_later|done]].
  intros err m6 h6 [Hp6 H6] Herr. destruct (H6 Herr) as [Hin Hmk]. exists es. split.
  - eapply wanted_later; [|exact Hw]. by do 3 (etrans; [eassumption|]).
  - right. exists staging. split_and!; [done|by eapply prepared_later|done|done].
Qed.
End restoring.


(** ** Empty volumes and quarantine *)

Section others.
Context (r : Restorer) (p : Project).
Notation ns := (om_Namespace (p_Meta p)).
Notation name := (om_Name (p_Meta p)).
Notation root := (rs_DataRoot r).

(** Every Managed volume has a directory. *)
Definition made (h : story) (v : VolumeDef) : Prop :=
  vol_Type v = VolumeTypeManaged →
  ∃ path, HostPath root ns name (vol_Name v) = Got path ∧ Did (Disk (MakeDirs path)) None ∈ h.
Definition empty_allowed (h : story) (c : call) : Prop :=
  c = Clock ∨
  (∃ v path, v ∈ sp_Volumes (p_Spec p) ∧ vol_Type v = VolumeTypeManaged ∧
     HostPath root ns name (vol_Name v) = Got path ∧ c = Disk (MakeDirs path)) ∨
  (Forall (made h) (sp_Volumes (p_Spec p)) ∧ marker_call r p EmptyString h c) ∨
  (marked r p h ∧ ∃ staging, StagingDir root ns name = Got staging ∧ c = Disk (RemoveTree staging)).

Lemma made_later h h' v : h `prefix_of` h' → made h v → made h' v.
Proof. intros Hp Hm Hv. destruct (Hm Hv) as (path & H1 & H2). exists path. split; [done|by eapply seen_prefix]. Qed.

Lemma awp_InitializeEmpty m :
  awp empty_allowed (InitializeEmpty_ r p)
    (λ err _ h, err = None → Forall (made h) (sp_Volumes (p_Spec p)) ∧ marked r p h) m [].
Proof.
  unfold InitializeEmpty_. cbv zeta. apply awp_or_return. eapply awp_mono; [|apply (awp_all_of _ _ _ made)].
  3: { intros v m' h' Hv _. case_decide as Hm; [|by split; [|intros _ ?]].
       destruct (HostPath _ _ _ _) as [path|x] eqn:Eh; [|done]. apply awp_bind.
       split; [right; left; by exists v, path|]. intros x. cbn [awp]. split; [later|]. intros Hx _. exists path.
       split; [done|]. destruct x; [done|]. apply seen_last. }
  2: { intros h h' v. apply made_later. }
  intros [x|] m1 h1 [_ H1]; [done|]. specialize (H1 eq_refl).
  assert (∀ h' c, h1 `prefix_of` h' → marker_call r p EmptyString h' c → empty_allowed h' c) as Hok.
  { intros h' c Hp Hc. right. right. left. split; [|done]. eapply Forall_later; [|exact H1].
    intros v. by apply made_later. }
  apply awp_or_return. unfold write_marker_now. apply awp_call_bind; [by left|]. intros now. set (h2 := h1 ++ _).
  unfold WriteMarker. cbn [ProvenanceFor pv_Namespace pv_Project].
  destruct (MarkerPath root ns name) as [path|x] eqn:Ep; [|done]. cbv zeta.
  apply awp_or_return, awp_bind. split; [apply Hok; [later|]; by exists path|]. answered; [done|].
  apply awp_or_return, awp_bind. split.
  { apply Hok; [later|]. exists path. split_and!; [done|done|]. exists now. split; [|done]. apply seen_app, seen_last. }
  answered; [done|]. apply awp_call_bind.
  { apply Hok; [later|]. exists path. split_and!; [done|done|done|]. eexists. apply seen_last. }
  intros [x|]; cbv beta iota.
  { apply awp_call_bind; [apply Hok; [later|]; by exists path|done]. }
  set (h5 := (_ ++ _)). assert (marked r p h5) as Hmk by (exists path; split; [done|apply seen_last]).
  destruct (StagingDir _ _ _) as [staging|x] eqn:Est; [|done]. apply awp_bind.
  split; [right; right; right; split; [done|by exists staging]|]. intros x Hx. destruct x; [done|]. split.
  - eapply Forall_later; [|exact H1]. intros v. apply made_later. later.
  - destruct Hmk as (q & H3 & H4). exists q. split; [done|by apply seen_app].
Qed.

(** (restore/restore.go, InitializeEmpty): empty volumes are recorded only once they
    exist, as of no generation; and a staging directory left by a restore goes only
    after that. *)
Theorem empty_volumes_recorded (w : world) (m : memory) :
  let run := act_run w (InitializeEmpty_ r p) m [] in
  obeys empty_allowed run.2 ∧
  (run.1.1 = None → Forall (made run.2) (sp_Volumes (p_Spec p)) ∧ marked r p run.2).
Proof.
  intros run. pose proof (awp_adequate _ w _ _ m [] (awp_InitializeEmpty m) (obeys_nil _)) as [HQ Ho]. by split.
Qed.
End others.

(** What a release of [owner] may move away, and where. *)
Definition quarantine_allowed (dataRoot : string) (owner : Provenance) (now : Time) (h : story) (c : call) : Prop :=
  ∃ dir marker, ProjectDir dataRoot (pv_Namespace owner) (pv_Project owner) = Got dir ∧
    MarkerPath dataRoot (pv_Namespace owner) (pv_Project owner) = Got marker ∧
  match c with
  | Stat path => path = dir
  | ReadMarker path => path = marker
  | Disk (MakeDirs path) => path = quarantine_parent dataRoot owner
  | Disk (RenamePath from to) =>
      from = dir ∧ to = quarantine_dest dataRoot owner now ∧ Did (Stat dir) StatFound ∈ h ∧
      ∃ x, Did (ReadMarker marker) x ∈ h ∧
        ∀ mk, x = MarkerFound mk → (mk_Version mk < MarkerVersion)%Z ∨ names_assignment mk owner
  | _ => False
  end.

Lemma MarkerPath_dir dataRoot ns project dir :
  ProjectDir dataRoot ns project = Got dir → MarkerPath dataRoot ns project = Got (path_join [dir; markerFilename]).
Proof. intros Hd. unfold MarkerPath. by rewrite Hd. Qed.

(** (restore/quarantine.go, Quarantine): the data of a released assignment is moved, and
    never deleted, in one rename; data whose marker names another assignment stays. *)
Theorem quarantine_confined (dataRoot : string) (owner : Provenance) (now : Time) (w : world) (m : memory) :
  obeys (quarantine_allowed dataRoot owner now) (act_run w (Quarantine_ dataRoot owner now) m []).2.
Proof.
  refine (proj2 (awp_adequate _ w _ (λ _ _ _, True) m [] _ (obeys_nil _))). unfold Quarantine_.
  destruct (ProjectDir _ _ _) as [dir|x] eqn:Ed; [|done]. pose proof (MarkerPath_dir _ _ _ _ Ed) as Em.
  set (marker := path_join _) in Em.
  assert (∀ h c, (match c with
    | Stat path => path = dir | ReadMarker path => path = marker
    | Disk (MakeDirs path) => path = quarantine_parent dataRoot owner | _ => False end) →
    quarantine_allowed dataRoot owner now h c) as Hok.
  { intros h c Hc. exists dir, marker. split_and!; [done|done|]. destruct c; try done. by destruct c. }
  apply awp_call_bind; [by apply Hok|]. intros [| |x]; [|done..]. unfold ReadMarker_. rewrite Em. apply awp_bind.
  apply awp_call_bind; [by apply Hok|]. intros x. cbn [awp].
  set (seen := match x with MarkerFound _ => _ | _ => _ end). destruct seen as [mk err] eqn:Es. subst seen. cbv beta iota zeta.
  destruct (_ && _ && _ && _) eqn:Ec; [done|]. apply awp_or_return, awp_bind. split; [by apply Hok|].
  intros [y|]; cbn [fmap option_fmap option_map awp]; [done|]. apply awp_bind. split; [|done].
  exists dir, marker. split_and!; [done|done|done|done|by do 2 apply seen_app; apply seen_last|].
  exists x. split; [apply seen_app, seen_last|]. intros mk' ->. injection Es as <- <-.
  apply andb_false_iff in Ec as [Ec|Ec%negb_false_iff].
  - left. apply andb_false_iff in Ec as [Ec|Ec%negb_false_iff]; [done|]. simpl in Ec. lia.
  - right. destruct (proj1 (Matches_spec (Some mk') owner) Ec) as (? & [= <-] & Hn). exact Hn.
Qed.
