(* ===== verification/Cleanup.v ===== *)
(** Removing what a Node holds of a Project and reporting the evidence: cleanup tasks
    for assignments given up (cleanup.go) and the teardown of a deleted Project
    (loop.go, terminateOne). *)
From Stdlib Require Import ZArith Lia.
From stdpp Require Import prelude gmap strings sorting.
From S2P Require Import Prelude.
From S2P Require Import Conditions.
From S2P Require Import ProjectTypes.
From S2P Require Import AccessTypes.
From S2P Require Import Strconv.
From S2P Require Import Failures.
From S2P Require Import Tracker.
From S2P Require Import Stores.
From S2P Require Import Actions.
From S2P Require Import Health.
From S2P Require Import Reports.
Import GoTime GoInt GoString.
Open Scope nat_scope.

Set Default Proof Using "Type".

(** ** Resource kinds *)

(** [CleanupResource] by its implementations; the flag is a non-nil route table. *)
Inductive CleanupResource := dockerResources | proxyRoutes (routes : bool) | repoHostResources.

Definition Kind (r : CleanupResource) : string :=
  match r with dockerResources => "docker" | proxyRoutes _ => "proxy-routes" | repoHostResources => "pgbackrest" end.

Definition Remove (r : CleanupResource) (a : Assignment) : act (option failure) :=
  match r with
  | dockerResources => call_ (RemoveAssignment a)
  | proxyRoutes routes =>
      if routes then call_ (RoutesRemove (as_Project a)) ≫= λ _, Return None else Return None
  | repoHostResources => call_ (Revoke (as_UID a) (NetworkName (as_Project a)))
  end.
Definition Remaining (r : CleanupResource) (a : Assignment) : act (reply (list string)) :=
  match r with
  | dockerResources => call_ (AssignmentRemaining a)
  | proxyRoutes _ => Return (Got [])
  | repoHostResources => call_ (RepoRemaining (as_UID a) (NetworkName (as_Project a)))
  end.

Record assignmentCleaner := { cl_resources : list CleanupResource; cl_dataRoot : string }.

(** [removable] says that the runtime can remove a single assignment; [repo], that
    the Node has a repo host. *)
Definition defaultCleaner (removable routes repo : bool) (dataRoot : string) : option assignmentCleaner :=
  if negb removable then None
  else
    let resources := [dockerResources; proxyRoutes routes] in
    Some {| cl_resources := if repo then repoHostResources :: resources else resources; cl_dataRoot := dataRoot |}.

Fixpoint remove_each (rs : list CleanupResource) (a : Assignment) (errs : list failure) : act (list failure) :=
  match rs with
  | [] => Return errs
  | r :: rest =>
      Remove r a ≫= λ err,
      remove_each rest a (match err with Some e => errs ++ [Around (Kind r ++ ": ") e EmptyString] | None => errs end)
  end%string%list.
Definition removeAll (c : assignmentCleaner) (a : Assignment) : act (option failure) :=
  remove_each (cl_resources c) a [] ≫= λ errs, Return (errors_Join errs).

Fixpoint remaining_each (rs : list CleanupResource) (a : Assignment) (left : list string)
    : act (reply (list string)) :=
  match rs with
  | [] => Return (Got left)
  | r :: rest =>
      Remaining r a ≫= λ items,
      match items with
      | Bad e => Return (Bad (Around (Kind r ++ ": ")%string e EmptyString))
      | Got items => remaining_each rest a (left ++ items)
      end
  end.
Definition remaining (c : assignmentCleaner) (a : Assignment) : act (reply (list string)) :=
  remaining_each (cl_resources c) a [].

Definition namespace_or_default (namespace : string) : string :=
  if decide (namespace = EmptyString) then DefaultNamespace else namespace.

Definition assignmentOf (namespace project : string) (id : AssignmentIdentity) : Assignment :=
  {| as_Namespace := namespace_or_default namespace; as_Project := project; as_UID := ProjectUID id;
     as_Generation := ai_Generation id; as_AllGenerations := false |}.

(** ** Cleanup tasks *)

Definition obligationStands (project : string) (assignment : AssignmentIdentity) : act bool :=
  call_ (GetProject project) ≫= λ r,
  Return (match (r : reply Project) with
          | Bad _ => true
          | Got p =>
              if decide (om_UID (p_Meta p) ≠ ProjectUID assignment) then false
              else match FindObligation (st_Recovery (p_Status p)) assignment with
                   | Some o => negb (Resolved o)
                   | None => false
                   end
          end).

(** The obligation as it is now, or why the task is skipped. *)
Definition revalidateCleanup (nodeName : string) (task : CleanupTask) : act (CleanupObligation + string) :=
  if decide (NodeName (ct_Assignment task) ≠ nodeName) then
    Return (inr ("obligation belongs to node " ++ NodeName (ct_Assignment task))%string)
  else
    call_ (GetProject (ct_ProjectName task)) ≫= λ r,
    Return (match (r : reply Project) with
            | Bad err =>
                if FIs err ErrProjectNotFound then inr "project no longer exists"
                else inr ("could not re-read the project: " ++ FError err)
            | Got p =>
                if decide (om_UID (p_Meta p) ≠ ProjectUID (ct_Assignment task)) then
                  inr "project was recreated under another UID"
                else if decide (st_NodeRef (p_Status p) = nodeName) then
                  inr "this node holds the project's current assignment"
                else match FindObligation (st_Recovery (p_Status p)) (ct_Assignment task) with
                     | None => inr "obligation no longer recorded"
                     | Some o => if Resolved o && negb (DataOutstanding o) then inr "obligation already resolved"
                                 else inl o
                     end
            end)%string.

Definition reportResourcesRemoved (task : CleanupTask) : act bool :=
  call_ (ReportResourcesRemoved (ct_ProjectName task) (ct_Assignment task)) ≫= λ err,
  match (err : option failure) with
  | None => Return true
  | Some e =>
      if FIs e ErrProjectNotFound then Return false
      else if FIs e ErrStaleReport then
        obligationStands (ct_ProjectName task) (ct_Assignment task) ≫= λ _, Return false
      else Return false
  end.

Definition quarantineManagedData (nodeName : string) (cleaner : assignmentCleaner) (a : Assignment)
    (task : CleanupTask) : act () :=
  if decide (cl_dataRoot cleaner = EmptyString) then skip
  else
    let owner := {| pv_Namespace := as_Namespace a; pv_Project := as_Project a; pv_ProjectUID := as_UID a;
                    pv_NodeName := nodeName; pv_AssignmentGeneration := as_Generation a;
                    pv_BackupID := EmptyString |} in
    call_ Clock ≫= λ now,
    call_ (Quarantine (cl_dataRoot cleaner) owner now) ≫= λ err,
    match (err : option failure) with
    | Some _ => skip
    | None =>
        call_ (ReportManagedDataQuarantined (ct_ProjectName task) (ct_Assignment task)) ≫= λ _, skip
    end.

(** Under the claim. *)
Definition cleanup_body (nodeName : string) (cleaner : assignmentCleaner) (task : CleanupTask) : act () :=
  let a := assignmentOf (ct_Namespace task) (ct_ProjectName task) (ct_Assignment task) in
  revalidateCleanup nodeName task ≫= λ r,
  match r with
  | inr _ => skip
  | inl obligation =>
      removeAll cleaner a ≫= λ err,
      match err with
      | Some _ => skip
      | None =>
          remaining cleaner a ≫= λ left,
          match left with
          | Bad _ => skip
          | Got (_ :: _) => skip
          | Got [] =>
              (if Resolved obligation then Return true else reportResourcesRemoved task) ≫= λ go,
              if negb go then skip
              else if DataOutstanding obligation then quarantineManagedData nodeName cleaner a task
              else skip
          end
      end
  end.

Definition task_key (task : CleanupTask) : ResourceKey :=
  let a := assignmentOf (ct_Namespace task) (ct_ProjectName task) (ct_Assignment task) in
  {| rs_Namespace := as_Namespace a; rs_Name := as_Project a |}.

(** [busy] says that there is a coordinator. *)
Definition runCleanupTask (nodeName : string) (cleaner : assignmentCleaner) (busy : bool) (task : CleanupTask)
    : act () :=
  claimed busy (task_key task) OpOrphanCleanup skip (cleanup_body nodeName cleaner task).

Definition runCleanupTasks (nodeName : string) (cleaner : option assignmentCleaner) (busy : bool) : act () :=
  match cleaner with
  | None => skip
  | Some cleaner =>
      call_ ListCleanupTasks ≫= λ tasks,
      match (tasks : reply (list CleanupTask)) with
      | Bad _ => skip
      | Got tasks => for_each tasks (runCleanupTask nodeName cleaner busy)
      end
  end.

(** ** Teardown of a deleted Project (loop.go) *)

Definition reportRemoved (project : string) (identity : AssignmentIdentity) : act bool :=
  call_ (ReportResourcesRemoved project identity) ≫= λ err,
  match (err : option failure) with
  | None => Return true
  | Some e =>
      if FIs e ErrStaleReport then obligationStands project identity ≫= λ stands, Return (negb stands)
      else Return false
  end.

(** The assignments a deletion resolves: the current one, and open obligations of
    this Node for this lifetime. *)
Definition owed_obligations (p : Project) : list AssignmentIdentity :=
  let fence := fenceForProject p in
  let own := {| ProjectUID := af_UID fence; NodeName := af_NodeRef fence; ai_Generation := af_Generation fence |} in
  own ::
  match st_Recovery (p_Status p) with
  | None => []
  | Some r =>
      ob_Assignment <$>
        filter (λ o, negb (Resolved o || bool_decide (ob_Assignment o = own)) &&
                     (bool_decide (NodeName (ob_Assignment o) = af_NodeRef fence) &&
                      bool_decide (ProjectUID (ob_Assignment o) = af_UID fence)) = true)
               (rec_CleanupObligations r)
  end.

Fixpoint report_each (project : string) (owed : list AssignmentIdentity) : act bool :=
  match owed with
  | [] => Return true
  | identity :: rest =>
      reportRemoved project identity ≫= λ go, if negb go then Return false else report_each project rest
  end.
Definition resolveOwnObligations (p : Project) : act bool :=
  report_each (om_Name (p_Meta p)) (owed_obligations p).

Definition lifetime_of (p : Project) : Assignment :=
  {| as_Namespace := namespace_or_default (om_Namespace (p_Meta p)); as_Project := om_Name (p_Meta p);
     as_UID := om_UID (p_Meta p); as_Generation := 0; as_AllGenerations := true |}.

Definition terminate_body (cleaner : option assignmentCleaner) (p : Project) : act () :=
  match cleaner with
  | None =>
      reportTeardownBlocked p teardownBlockedNoCleaner "this agent cannot remove resources by Project lifetime"
  | Some cleaner =>
      removeAll cleaner (lifetime_of p) ≫= λ err,
      match err with
      | Some e => reportTeardownBlocked p teardownBlockedRemoveFailed (FError e)
      | None =>
          remaining cleaner (lifetime_of p) ≫= λ left,
          match left with
          | Bad e => reportTeardownBlocked p teardownBlockedInspectFailed (FError e)
          | Got ((_ :: _) as left) =>
              reportTeardownBlocked p teardownBlockedResourcesRemain
                ("still present: " ++ Join (merge_sort string_order left) ", ")%string
          | Got [] =>
              clearTeardownBlocked p ≫= λ _,
              resolveOwnObligations p ≫= λ go,
              if negb go then skip
              else report_status p ProjectPhaseTerminated "ResourcesRemoved"
                     "All Docker resources have been removed" ≫= λ _, skip
          end
      end
  end.

Definition terminateOne (busy : bool) (cleaner : option assignmentCleaner) (p : Project) : act () :=
  claimed busy (key_of_project p) OpTerminate skip (terminate_body cleaner p).

(** ** Removing and confirming *)

(** Every kind answered its removal, or that nothing is left, somewhere in [h]. *)
Definition removed (a : Assignment) (h : story) (r : CleanupResource) : Prop :=
  match r with
  | dockerResources => Did (RemoveAssignment a) None ∈ h
  | proxyRoutes routes => routes = true → Did (RoutesRemove (as_Project a)) () ∈ h
  | repoHostResources => Did (Revoke (as_UID a) (NetworkName (as_Project a))) None ∈ h
  end.
Definition none_left (a : Assignment) (h : story) (r : CleanupResource) : Prop :=
  match r with
  | dockerResources => Did (AssignmentRemaining a) (Got []) ∈ h
  | proxyRoutes _ => True
  | repoHostResources => Did (RepoRemaining (as_UID a) (NetworkName (as_Project a))) (Got []) ∈ h
  end.
(** Everything was removed, and then nothing was left. *)
Definition confirmed (c : assignmentCleaner) (a : Assignment) (h : story) : Prop :=
  ∃ h1 h2, h = h1 ++ h2 ∧ Forall (removed a h1) (cl_resources c) ∧ Forall (none_left a h2) (cl_resources c).

Definition is_cleanup (a : Assignment) (c : call) : Prop :=
  match c with
  | RemoveAssignment a' | AssignmentRemaining a' => a' = a
  | RoutesRemove project => project = as_Project a
  | Revoke uid network | RepoRemaining uid network => uid = as_UID a ∧ network = NetworkName (as_Project a)
  | _ => False
  end.

Lemma removed_mono a P h h' r : grows P h h' → removed a h r → removed a h' r.
Proof. intros Hg. destruct r; simpl; [by apply (seen_grows _ _ _ _ Hg)| |by apply (seen_grows _ _ _ _ Hg)].
  intros H Hr. by eapply seen_grows, H.
Qed.
Lemma none_left_mono a P h h' r : grows P h h' → none_left a h r → none_left a h' r.
Proof. intros Hg. destruct r; simpl; try by apply (seen_grows _ _ _ _ Hg). done. Qed.
Lemma confirmed_mono c a P h h' : grows P h h' → confirmed c a h → confirmed c a h'.
Proof.
  intros (k & -> & Hk) (h1 & h2 & -> & H1 & H2). exists h1, (h2 ++ k). rewrite app_assoc. split_and!; [done|done|].
  eapply Forall_impl; [exact H2|]. intros r. apply (none_left_mono a (λ _, True)). exists k. split; [done|].
  by apply Forall_true.
Qed.

Section confirm.
Context (ok : story → call → Prop) (a : Assignment) (Hok : ∀ h c, is_cleanup a c → ok h c).

Lemma awp_Remove r (Q : option failure → memory → story → Prop) m h :
  (∀ e h', grows (is_cleanup a) h h' → (e = None → removed a h' r) → Q e m h') →
  awp ok (Remove r a) Q m h.
Proof using Hok.
  intros HQ. destruct r as [|routes|]; simpl.
  - split; [by apply Hok|]. intros x. apply HQ; [by apply grows_call|]. intros ->. apply seen_last.
  - destruct routes; simpl; [split; [by apply Hok|]; intros []|]; apply HQ; auto using grows_refl.
    + by apply grows_call.
    + intros _ _. apply seen_last.
    + intros _. done.
  - split; [by apply Hok|]. intros x. apply HQ; [by apply grows_call|]. intros ->. apply seen_last.
Qed.

Lemma awp_Remaining r (Q : reply (list string) → memory → story → Prop) m h :
  (∀ l h', grows (is_cleanup a) h h' → (l = Got [] → none_left a h' r) → Q l m h') →
  awp ok (Remaining r a) Q m h.
Proof using Hok.
  intros HQ. destruct r as [|routes|]; simpl.
  - split; [by apply Hok|]. intros x. apply HQ; [by apply grows_call|]. intros ->. apply seen_last.
  - by apply HQ; [apply grows_refl|].
  - split; [by apply Hok|]. intros x. apply HQ; [by apply grows_call|]. intros ->. apply seen_last.
Qed.

Lemma awp_remove_each rs errs (Q : list failure → memory → story → Prop) m h :
  (∀ es h', grows (is_cleanup a) h h' → (es = [] → errs = [] ∧ Forall (removed a h') rs) → Q es m h') →
  awp ok (remove_each rs a errs) Q m h.
Proof using Hok.
  revert errs h. induction rs as [|r rs IH]; intros errs h HQ; simpl.
  - apply HQ; [apply grows_refl|]. intros ->. by split.
  - apply awp_bind, awp_Remove. intros e h1 Hg1 He. apply IH. intros es h2 Hg2 Hes.
    apply HQ; [by eapply grows_trans|]. intros Hnil. destruct (Hes Hnil) as [Herrs Hrs].
    destruct e as [e|]; [by apply app_nil in Herrs as [_ [=]]|]. split; [done|]. constructor; [|done].
    eapply removed_mono; [exact Hg2|by apply He].
Qed.

Lemma awp_remaining_each rs left (Q : reply (list string) → memory → story → Prop) m h :
  (∀ l h', grows (is_cleanup a) h h' → (l = Got [] → left = [] ∧ Forall (none_left a h') rs) → Q l m h') →
  awp ok (remaining_each rs a left) Q m h.
Proof using Hok.
  revert left h. induction rs as [|r rs IH]; intros left h HQ; simpl.
  - apply HQ; [apply grows_refl|]. intros [= ->]. by split.
  - apply awp_bind, awp_Remaining. intros [items|e] h1 Hg1 He; [|by apply HQ].
    apply IH. intros l h2 Hg2 Hl. apply HQ; [by eapply grows_trans|]. intros Hnil.
    destruct (Hl Hnil) as [[-> ->]%app_nil Hrs]. split; [done|]. constructor; [|done].
    eapply none_left_mono; [exact Hg2|by apply He].
Qed.

End confirm.

(** What follows a removal, and what it knows when nothing was left. *)
Lemma awp_confirm {A} ok c a (ko : failure → act A) (f : reply (list string) → act A)
    (Q : A → memory → story → Prop) m h :
  (∀ h c, is_cleanup a c → ok h c) →
  (∀ e h', grows (is_cleanup a) h h' → awp ok (ko e) Q m h') →
  (∀ l h', grows (is_cleanup a) h h' → (l = Got [] → confirmed c a h') → awp ok (f l) Q m h') →
  awp ok (removeAll c a ≫= λ err, match err with Some e => ko e | None => remaining c a ≫= f end) Q m h.
Proof.
  intros Hok Hko Hf. apply awp_bind. unfold removeAll. apply awp_bind, awp_remove_each; [done|].
  intros es h1 Hg1 Hes. simpl. destruct (errors_Join es) as [e|] eqn:He; [by apply Hko|].
  apply errors_Join_None in He. destruct (Hes He) as [_ Hrm]. apply awp_bind.
  eapply (awp_since_start (λ _ c, is_cleanup a c) ok (is_cleanup a) _
    (λ l m' h2, m' = m ∧ (l = Got [] → Forall (none_left a h2) (cl_resources c)))); [done|by auto| |].
  - intros l m' h2 Hh2 [-> Hl]. apply Hf.
    + eapply grows_trans; [exact Hg1|]. by exists h2.
    + intros Hn. exists h1, h2. split_and!; [done|done|by apply Hl].
  - unfold remaining. apply awp_remaining_each; [done|]. intros l h' _ Hl. split; [done|]. intros Hn. by apply Hl.
Qed.

Lemma awp_confirm_from {A} ok c a (ko : failure → act A) (f : reply (list string) → act A)
    (Q : A → memory → story → Prop) m h :
  (∀ h' c, h `prefix_of` h' → is_cleanup a c → ok h' c) →
  (∀ e h', grows (is_cleanup a) h h' → awp ok (ko e) Q m h') →
  (∀ l h', grows (is_cleanup a) h h' → (l = Got [] → confirmed c a h') → awp ok (f l) Q m h') →
  awp ok (removeAll c a ≫= λ err, match err with Some e => ko e | None => remaining c a ≫= f end) Q m h.
Proof.
  intros Hok Hko Hf. apply (awp_ok_from _ _ _ _ h); [done|]. apply (awp_confirm _ c a); [by auto| |].
  - intros e h' Hg. eapply awp_ok_mono; [|by apply Hko]. by auto.
  - intros l h' Hg Hl. eapply awp_ok_mono; [|by apply Hf]. by auto.
Qed.

Lemma confirmed_prefix c a h h' : h `prefix_of` h' → confirmed c a h → confirmed c a h'.
Proof. intros H%prefix_grows. by eapply confirmed_mono. Qed.

(** ** Evidence of a cleanup task *)

Section task.
Context (nodeName : string) (cleaner : assignmentCleaner) (task : CleanupTask).
Notation id := (ct_Assignment task).
Notation a := (assignmentOf (ct_Namespace task) (ct_ProjectName task) (ct_Assignment task)).

(** The server was asked again and still records the obligation, of this Node, for a
    Project of this lifetime that this Node does not hold now. *)
Definition still_owed (test : CleanupObligation → bool) (h : story) : Prop :=
  NodeName id = nodeName ∧
  ∃ p o, Did (GetProject (ct_ProjectName task)) (Got p) ∈ h ∧ om_UID (p_Meta p) = ProjectUID id ∧
    st_NodeRef (p_Status p) ≠ nodeName ∧ FindObligation (st_Recovery (p_Status p)) id = Some o ∧ test o = true.

Definition owner_of_task : Provenance :=
  {| pv_Namespace := as_Namespace a; pv_Project := ct_ProjectName task; pv_ProjectUID := ProjectUID id;
     pv_NodeName := nodeName; pv_AssignmentGeneration := ai_Generation id; pv_BackupID := EmptyString |}.

(** What a cleanup task may ask for, by what it did since its claim. *)
Definition task_allowed (h : story) (c : call) : Prop :=
  match c with
  | GetProject name => name = ct_ProjectName task
  | RemoveAssignment a' | AssignmentRemaining a' =>
      a' = a ∧ still_owed (λ o, negb (Resolved o) || DataOutstanding o) h
  | RoutesRemove project => project = ct_ProjectName task ∧ still_owed (λ o, negb (Resolved o) || DataOutstanding o) h
  | Revoke uid network | RepoRemaining uid network =>
      (uid = ProjectUID id ∧ network = NetworkName (ct_ProjectName task)) ∧
      still_owed (λ o, negb (Resolved o) || DataOutstanding o) h
  | ReportResourcesRemoved name id' =>
      name = ct_ProjectName task ∧ id' = id ∧ confirmed cleaner a h ∧ still_owed (λ o, negb (Resolved o)) h
  | Clock => True
  | Quarantine root owner _ =>
      root = cl_dataRoot cleaner ∧ owner = owner_of_task ∧ confirmed cleaner a h ∧ still_owed DataOutstanding h
  | ReportManagedDataQuarantined name id' =>
      name = ct_ProjectName task ∧ id' = id ∧ confirmed cleaner a h ∧ still_owed DataOutstanding h ∧
      ∃ now, Did (Quarantine (cl_dataRoot cleaner) owner_of_task now) None ∈ h
  | _ => False
  end.

Lemma still_owed_mono test P h h' : grows P h h' → still_owed test h → still_owed test h'.
Proof.
  intros Hg (Hn & p & o & Hp & Hr). split; [done|]. exists p, o. split; [by eapply seen_grows|done].
Qed.

Lemma still_owed_prefix test h h' : h `prefix_of` h' → still_owed test h → still_owed test h'.
Proof. intros H%prefix_grows. by eapply still_owed_mono. Qed.

Lemma awp_revalidate (Q : CleanupObligation + string → memory → story → Prop) m h :
  (∀ r h', (∀ o, r = inl o →
     still_owed (λ o', negb (Resolved o') || DataOutstanding o') h' ∧
     (Resolved o = false → still_owed (λ o', negb (Resolved o')) h') ∧
     (DataOutstanding o = true → still_owed DataOutstanding h')) → Q r m h') →
  awp task_allowed (revalidateCleanup nodeName task) Q m h.
Proof.
  intros HQ. unfold revalidateCleanup. case_decide as Hn; [by apply HQ|].
  split; [done|]. intros x. apply HQ. intros o. destruct x as [p|e]; [|by destruct (FIs _ _)].
  case_decide as Hu; [done|]. case_decide as Hr; [done|].
  destruct (FindObligation _ _) as [o'|] eqn:Ho; [|done].
  destruct (Resolved o' && negb (DataOutstanding o')) eqn:Ht; [done|]. intros [= ->].
  assert (∀ test, test o = true → still_owed test (h ++ [Did (GetProject (ct_ProjectName task)) (Got p)])) as Hs.
  { intros test Hto. split; [done|]. exists p, o. split_and!; [apply seen_last|done..]. }
  split_and!; [apply Hs; by destruct (Resolved o), (DataOutstanding o)|intros Hx; apply Hs; by rewrite Hx|by apply Hs].
Qed.

Lemma awp_obligationStands (Q : bool → memory → story → Prop) m h :
  (∀ b h', grows (eq (GetProject (ct_ProjectName task))) h h' → Q b m h') →
  awp task_allowed (obligationStands (ct_ProjectName task) id) Q m h.
Proof. intros HQ. split; [done|]. intros x. apply HQ. by apply grows_call. Qed.

Lemma awp_cleanup_body m :
  awp task_allowed (cleanup_body nodeName cleaner task) (λ _ _ _, True) m [].
Proof.
  unfold cleanup_body. cbv zeta. apply awp_bind, awp_revalidate. intros [o|]; [|done]. intros h1 Ho.
  destruct (Ho o eq_refl) as (Hs & Hres & Hdata).
  apply (awp_confirm_from task_allowed cleaner a); [|done|].
  { intros h2 c Hpre Hc. pose proof (still_owed_prefix _ _ _ Hpre Hs). destruct c; simpl in *; naive_solver. }
  intros l h2 Hg2 Hl. destruct l as [[|]|]; [|done|done]. specialize (Hl eq_refl).
  assert (∀ h3 : story, h2 `prefix_of` h3 → confirmed cleaner a h3) as Hc by (intros; by eapply confirmed_prefix).
  assert (∀ test h3, h2 `prefix_of` h3 → still_owed test h1 → still_owed test h3) as Hs'.
  { intros test h3 Hpre. apply still_owed_prefix. etrans; [by eapply grows_prefix|done]. }
  assert (∀ h3, h2 `prefix_of` h3 → awp task_allowed
    (if DataOutstanding o then quarantineManagedData nodeName cleaner a task else skip) (λ _ _ _, True) m h3) as Hq.
  { intros h3 Hpre. destruct (DataOutstanding o) eqn:Hd; [|done]. specialize (Hdata eq_refl).
    unfold quarantineManagedData. case_decide; [done|]. split; [done|]. intros now.
    split; [split_and!; [done|done|apply Hc|apply Hs']; by repeat apply prefix_of_snoc|]. intros [e|]; [done|].
    split; [|done]. split_and!; [done|done|apply Hc|apply Hs'|exists now; apply seen_last];
      by repeat apply prefix_of_snoc. }
  apply awp_bind. destruct (Resolved o) eqn:Hr; [by apply Hq|].
  unfold reportResourcesRemoved. apply awp_call_bind; [split_and!; [done|done|by apply Hc|by apply Hs'; [|apply Hres]]|].
  intros [e|]; cbv beta iota; [|apply Hq; by apply prefix_of_snoc]. destruct (FIs e ErrProjectNotFound); [exact I|].
  destruct (FIs e ErrStaleReport); [|exact I]. apply awp_bind, awp_obligationStands. intros b h' _. exact I.
Qed.
End task.

(** ** Evidence of a teardown *)

Section teardown.
Context (cleaner : assignmentCleaner) (p : Project).
Notation name := (om_Name (p_Meta p)).
Notation lifetime := (lifetime_of p).

(** A 409 whose obligation, read again, does not stand. *)
Definition not_standing (id : AssignmentIdentity) (q : Project) : Prop :=
  om_UID (p_Meta q) ≠ ProjectUID id ∨ FindObligation (st_Recovery (p_Status q)) id = None ∨
  ∃ o, FindObligation (st_Recovery (p_Status q)) id = Some o ∧ Resolved o = true.
Definition resolved_here (id : AssignmentIdentity) (h : story) : Prop :=
  Did (ReportResourcesRemoved name id) None ∈ h ∨
  (∃ e, Did (ReportResourcesRemoved name id) (Some e) ∈ h ∧ FIs e ErrStaleReport = true) ∧
  (∃ q, Did (GetProject name) (Got q) ∈ h ∧ not_standing id q).

Definition teardown_allowed (h : story) (c : call) : Prop :=
  match c with
  | RemoveAssignment _ | AssignmentRemaining _ | RoutesRemove _ | Revoke _ _ | RepoRemaining _ _ =>
      is_cleanup lifetime c
  | PatchProjectCondition n fence type status _ _ =>
      n = name ∧ fence = fenceForProject p ∧ type = ConditionTypeTeardownBlocked ∧ status = ConditionTrue
  | ClearProjectCondition n fence type =>
      n = name ∧ fence = fenceForProject p ∧ type = ConditionTypeTeardownBlocked ∧ confirmed cleaner lifetime h
  | GetProject n => n = name
  | ReportResourcesRemoved n id => n = name ∧ id ∈ owed_obligations p ∧ confirmed cleaner lifetime h
  | UpdateProjectStatus n fence phase _ _ =>
      n = name ∧ fence = fenceForProject p ∧ phase = ProjectPhaseTerminated ∧ confirmed cleaner lifetime h ∧
      ∀ id, id ∈ owed_obligations p → resolved_here id h
  | _ => False
  end.

Lemma resolved_here_prefix id h h' : h `prefix_of` h' → resolved_here id h → resolved_here id h'.
Proof.
  intros Hp [H|[(e & He & Hs) (q & Hq & Hn)]]; [left; by eapply seen_prefix|right].
  split; [exists e|exists q]; (split; [by eapply seen_prefix|done]).
Qed.

Lemma awp_reportRemoved id (Q : bool → memory → story → Prop) m h :
  id ∈ owed_obligations p → confirmed cleaner lifetime h →
  (∀ b h', h `prefix_of` h' → (b = true → resolved_here id h') → Q b m h') →
  awp teardown_allowed (reportRemoved name id) Q m h.
Proof.
  intros Hin Hc HQ. unfold reportRemoved. apply awp_call_bind; [done|]. intros [e|]; cbv beta iota.
  - destruct (FIs e ErrStaleReport) eqn:He; [|apply HQ; [by apply prefix_of_snoc|done]].
    apply awp_bind. split; [done|]. intros r. apply HQ; [by do 2 apply prefix_of_snoc|]. intros Hr.
    right. split; [exists e; split; [apply seen_app, seen_last|done]|].
    destruct r as [q|e']; [|done]. exists q. split; [apply seen_last|]. unfold not_standing.
    case_decide as Hu; [by left|right]. destruct (FindObligation _ _) as [o|]; [|by left].
    right. exists o. split; [done|]. by destruct (Resolved o).
  - apply HQ; [by apply prefix_of_snoc|]. intros _. left. apply seen_last.
Qed.

Lemma awp_report_each owed (Q : bool → memory → story → Prop) m h :
  (∀ id, id ∈ owed → id ∈ owed_obligations p) → confirmed cleaner lifetime h →
  (∀ b h', h `prefix_of` h' → (b = true → ∀ id, id ∈ owed → resolved_here id h') → Q b m h') →
  awp teardown_allowed (report_each name owed) Q m h.
Proof.
  revert h. induction owed as [|id owed IH]; intros h Hsub Hc HQ; cbn [report_each].
  - apply HQ; [done|]. by intros _ id Hid%elem_of_nil.
  - apply awp_bind, awp_reportRemoved; [by apply Hsub; left|done|]. intros [|] h1 Hp1 Hr1; simpl; [|by apply HQ].
    apply IH; [by intros id' Hid'; apply Hsub; right|by eapply confirmed_prefix|].
    intros b h2 Hp2 Hr2. apply HQ; [by etrans|]. intros Hb id' [->|Hid']%elem_of_cons; [|by apply Hr2].
    eapply resolved_here_prefix; [exact Hp2|by apply Hr1].
Qed.

Lemma awp_terminate_body m :
  awp teardown_allowed (terminate_body (Some cleaner) p) (λ _ _ _, True) m [].
Proof.
  assert (∀ reason message Q h, (∀ h', Q () m h') →
    awp teardown_allowed (reportTeardownBlocked p reason message) Q m h) as Hrep.
  { intros reason message Q h HQ. unfold reportTeardownBlocked, report_condition.
    destruct (carries _ _ _ _); [by apply HQ|]. split; [done|]. intros x. apply HQ. }
  unfold terminate_body. apply (awp_confirm_from teardown_allowed cleaner lifetime).
  - intros h c _ Hc. by destruct c.
  - intros e h _. by apply Hrep.
  - intros [[|l ls]|e] h Hg Hl; [|by apply Hrep|by apply Hrep]. specialize (Hl eq_refl).
    apply awp_bind.
    assert (∀ h', h `prefix_of` h' → awp teardown_allowed
      (resolveOwnObligations p ≫= λ go, if negb go then skip
         else report_status p ProjectPhaseTerminated "ResourcesRemoved"
                "All Docker resources have been removed" ≫= λ _, skip) (λ _ _ _, True) m h') as Hrest.
    { intros h' Hp. apply awp_bind. unfold resolveOwnObligations.
      apply awp_report_each; [done|by eapply confirmed_prefix|]. intros [|] h2 Hp2 Hr; simpl; [|done].
      split; [|done]. split_and!; [done|done|done|eapply confirmed_prefix; [|exact Hl]; by etrans|by apply Hr]. }
    unfold clearTeardownBlocked, clear_condition. destruct (projectCondition _ _); [|by apply Hrest].
    split; [done|]. intros x. apply Hrest. by apply prefix_of_snoc.
Qed.
End teardown.

(** ** The programs *)

(** What the cleanup of a Node may ask for. *)
Definition cleanup_allowed (nodeName : string) (cleaner : assignmentCleaner) (busy : bool) (h : story) (c : call)
    : Prop :=
  match c with
  | ListCleanupTasks => True
  | TryClaim _ op => op = OpOrphanCleanup
  | Release _ => True
  | _ =>
      ∃ tasks task, Did ListCleanupTasks (Got tasks) ∈ h ∧ task ∈ tasks ∧
        under busy (task_key task) OpOrphanCleanup (λ h', task_allowed nodeName cleaner task h' c) h
  end.

Lemma awp_runCleanupTasks (nodeName : string) (cleaner : assignmentCleaner) (busy : bool) (m : memory) :
  awp (cleanup_allowed nodeName cleaner busy) (runCleanupTasks nodeName (Some cleaner) busy) (λ _ _ _, True) m [].
Proof.
  unfold runCleanupTasks.
  apply awp_call_bind; [done|]. intros [tasks|e]; [|done]. eapply awp_mono; [by intros|].
  apply awp_for_each. intros task m' h' Hin Hpre.
  assert (Did ListCleanupTasks (Got tasks) ∈ h') as Hseen by (eapply seen_prefix; [exact Hpre|apply seen_last]).
  apply (awp_claimed (task_allowed nodeName cleaner task) _ (λ _, True)); try done.
  - intros h c Hc. by destruct c.
  - intros h c Hpre' Hc.
    assert (∃ tasks task, Did ListCleanupTasks (Got tasks) ∈ h ∧ task ∈ tasks ∧
      under busy (task_key task) OpOrphanCleanup (λ h', task_allowed nodeName cleaner task h' c) h) as E.
    { exists tasks, task. split_and!; [by eapply seen_prefix|done|done]. }
    destruct c; try exact E; try exact I. by destruct Hc as (? & ? & _ & _ & _ & []).
  - apply awp_cleanup_body.
Qed.

(** (cleanup.go, runCleanupTasks): evidence is confirmed, never assumed. Whatever
    the server, Docker and the repo host answer, the Agent acts for a listed task only
    under the Project's claim and after the server, asked again under that claim, still
    records the obligation for this Node, lifetime and generation while another Node
    holds the Project; it reports ResourcesRemoved, and moves the local data away, only
    once every kind of resource answered its removal and then that nothing is left; and
    it reports the data quarantined only once it was. *)
Theorem cleanup_evidence_confirmed (nodeName : string) (cleaner : assignmentCleaner) (busy : bool)
    (w : world) (m : memory) :
  obeys (cleanup_allowed nodeName cleaner busy)
    (act_run w (runCleanupTasks nodeName (Some cleaner) busy) m []).2.
Proof.
  exact (proj2 (awp_adequate _ w _ _ m [] (awp_runCleanupTasks nodeName cleaner busy m) (obeys_nil _))).
Qed.

(** What the teardown of a deleted Project may ask for. *)
Definition terminating_allowed (busy : bool) (cleaner : option assignmentCleaner) (p : Project) (h : story)
    (c : call) : Prop :=
  match c with
  | TryClaim k op => k = key_of_project p ∧ op = OpTerminate
  | Release k => k = key_of_project p
  | _ =>
      under busy (key_of_project p) OpTerminate (λ h',
        match cleaner with
        | Some cleaner => teardown_allowed cleaner p h' c
        | None => c = PatchProjectCondition (om_Name (p_Meta p)) (fenceForProject p) ConditionTypeTeardownBlocked
                        ConditionTrue teardownBlockedNoCleaner
                        "this agent cannot remove resources by Project lifetime"
        end) h
  end.

Lemma awp_terminateOne (busy : bool) (cleaner : option assignmentCleaner) (p : Project) (m : memory) :
  awp (terminating_allowed busy cleaner p) (terminateOne busy cleaner p) (λ _ _ _, True) m [].
Proof.
  unfold terminateOne.
  set (okb := λ (h : story) (c : call),
    match cleaner with
    | Some cleaner => teardown_allowed cleaner p h c
    | None => c = PatchProjectCondition (om_Name (p_Meta p)) (fenceForProject p) ConditionTypeTeardownBlocked
                    ConditionTrue teardownBlockedNoCleaner "this agent cannot remove resources by Project lifetime"
    end).
  apply (awp_claimed okb _ (λ _, True)); try done.
  - intros h c Hc. unfold okb in Hc. destruct cleaner; [by destruct c|by subst].
  - intros h c _ Hc. destruct c; try exact Hc; exfalso; destruct Hc as (? & ? & _ & _ & _ & Hc); unfold okb in Hc;
      by destruct cleaner.
  - destruct cleaner as [cleaner|]; [apply awp_terminate_body|].
    simpl. unfold reportTeardownBlocked, report_condition. by destruct (carries _ _ _ _).
Qed.

(** (loop.go, terminateOne, resolveOwnObligations, reportRemoved): Terminated means
    gone. Whatever is answered, a deleted Project is reported Terminated only under
    its claim, after every kind of resource of its whole lifetime answered its removal
    and then that nothing is left, and after ResourcesRemoved was accepted, or shown
    not to be owed any more, for the current assignment and every open obligation of
    this Node; ResourcesRemoved is reported only on the same confirmation; and until
    then the Project only carries why its teardown is blocked. *)
Theorem terminated_means_gone (busy : bool) (cleaner : option assignmentCleaner) (p : Project) (w : world)
    (m : memory) :
  obeys (terminating_allowed busy cleaner p) (act_run w (terminateOne busy cleaner p) m []).2.
Proof.
  exact (proj2 (awp_adequate _ w _ _ m [] (awp_terminateOne busy cleaner p m) (obeys_nil _))).
Qed.
