(* ===== verification/AgentSecrets.v ===== *)
(** Secret references resolved for the container runtime (internal/agent/loop.go,
    resolveSecretsFor). The deep copy by a JSON round trip is the value itself: no
    aliasing is left to model. *)
From Stdlib Require Import ZArith Lia.
From stdpp Require Import prelude gmap strings.
From S2P Require Import Prelude.
From S2P Require Import ProjectTypes.
From S2P Require Import AccessTypes.
From S2P Require Import Failures.
From S2P Require Import Tracker.
From S2P Require Import Actions.
Import GoTime GoInt GoString.
Open Scope nat_scope.

Set Default Proof Using "Type".

Definition ref_of (env : EnvVar) : option SecretKeySelector := ev_ValueFrom env ≫= evs_SecretKeyRef.

Definition ev_with_Value (x : string) (env : EnvVar) : EnvVar :=
  {| ev_Name := ev_Name env; ev_Value := x; ev_ValueFrom := ev_ValueFrom env |}.
Definition svc_with_Env (x : list EnvVar) (svc : ServiceDef) : ServiceDef :=
  {| svc_Name := svc_Name svc; svc_Image := svc_Image svc; svc_Command := svc_Command svc; svc_Env := x;
     svc_VolumeMounts := svc_VolumeMounts svc |}.
Definition p_with_Services (x : list ServiceDef) (p : Project) : Project :=
  {| p_Meta := p_Meta p;
     p_Spec := {| sp_Size := sp_Size (p_Spec p); sp_Services := x; sp_Volumes := sp_Volumes (p_Spec p);
                  sp_Backup := sp_Backup (p_Spec p); sp_Ingress := sp_Ingress (p_Spec p);
                  sp_ExpireAt := sp_ExpireAt (p_Spec p); sp_RestartedAt := sp_RestartedAt (p_Spec p) |};
     p_Status := p_Status p |}.

Definition has_refs (include : string → bool) (p : Project) : bool :=
  existsb (λ svc, include (svc_Name svc) && existsb (λ env, bool_decide (is_Some (ref_of env))) (svc_Env svc))
          (sp_Services (p_Spec p)).

Definition value_of (secret : Secret) (key : string) : option string :=
  sdi_Value <$> find_first (λ item, bool_decide (sdi_Key item = key)) (sec_Spec secret).

(** The Secrets already fetched, by name. *)
Notation cache := (gmap string Secret).

(** One reference: from the cache, or fetched into it. *)
Definition fetch (secrets : cache) (name : string) : act (reply (Secret * cache)) :=
  match secrets !! name with
  | Some secret => Return (Got (secret, secrets))
  | None =>
      call_ (GetSecret name) ≫= λ r,
      Return (match (r : reply Secret) with
              | Bad e => Bad e
              | Got secret => Got (secret, <[name := secret]> secrets)
              end)
  end.

Fixpoint resolve_envs (service : string) (secrets : cache) (envs : list EnvVar)
    : act (reply (list EnvVar * cache)) :=
  match envs with
  | [] => Return (Got ([], secrets))
  | env :: rest =>
      let next (env' : EnvVar) (secrets' : cache) :=
        resolve_envs service secrets' rest ≫= λ r,
        Return (match r with Bad e => Bad e | Got (envs', secrets'') => Got (env' :: envs', secrets'') end) in
      match ref_of env with
      | None => next env secrets
      | Some ref =>
          fetch secrets (sks_Name ref) ≫= λ r,
          match r with
          | Bad e => Return (Bad (secretRefError service (ev_Name env) (sks_Name ref) (sks_Key ref) e))
          | Got (secret, secrets') =>
              match value_of secret (sks_Key ref) with
              | None => Return (Bad (secretRefError service (ev_Name env) (sks_Name ref) (sks_Key ref)
                                       (Fails errSecretKeyNotFound)))
              | Some value => next (ev_with_Value value env) secrets'
              end
          end
      end
  end.

Fixpoint resolve_services (include : string → bool) (secrets : cache) (svcs : list ServiceDef)
    : act (reply (list ServiceDef)) :=
  match svcs with
  | [] => Return (Got [])
  | svc :: rest =>
      if negb (include (svc_Name svc)) then
        resolve_services include secrets rest ≫= λ r,
        Return (match r with Bad e => Bad e | Got svcs' => Got (svc :: svcs') end)
      else
        resolve_envs (svc_Name svc) secrets (svc_Env svc) ≫= λ r,
        match r with
        | Bad e => Return (Bad e)
        | Got (envs, secrets') =>
            resolve_services include secrets' rest ≫= λ r,
            Return (match r with Bad e => Bad e | Got svcs' => Got (svc_with_Env envs svc :: svcs') end)
        end
  end.

Definition resolveSecretsFor (p : Project) (include : string → bool) : act (reply Project) :=
  if negb (has_refs include p) then Return (Got p)
  else
    resolve_services include ∅ (sp_Services (p_Spec p)) ≫= λ r,
    Return (match r with Bad e => Bad e | Got svcs => Got (p_with_Services svcs p) end).

Definition resolveSecrets (p : Project) : act (reply Project) := resolveSecretsFor p (λ _, true).

(** ** Properties *)

(** What a resolved variable is: a reference carries the value its Secret was
    answered to have, and nothing else changes. *)
Definition resolved_env (h : story) (env env' : EnvVar) : Prop :=
  match ref_of env with
  | None => env' = env
  | Some ref => ∃ secret value, Did (GetSecret (sks_Name ref)) (Got secret) ∈ h ∧
      value_of secret (sks_Key ref) = Some value ∧ env' = ev_with_Value value env
  end.
Definition resolved_svc (include : string → bool) (h : story) (svc svc' : ServiceDef) : Prop :=
  if include (svc_Name svc) then ∃ envs, svc' = svc_with_Env envs svc ∧ Forall2 (resolved_env h) (svc_Env svc) envs
  else svc' = svc.

(** The names referred to by the included services. *)
Definition refers (include : string → bool) (p : Project) (name : string) : Prop :=
  ∃ svc env ref, svc ∈ sp_Services (p_Spec p) ∧ include (svc_Name svc) = true ∧ env ∈ svc_Env svc ∧
    ref_of env = Some ref ∧ sks_Name ref = name.

(** A Secret is fetched only when it is referred to and was not fetched before. *)
Definition fetch_allowed (names : string → Prop) (h : story) (c : call) : Prop :=
  match c with
  | GetSecret name => names name ∧ ∀ s, Did (GetSecret name) (Got s) ∉ h
  | _ => False
  end.

(** The cache holds exactly what was answered. *)
Definition cached (secrets : cache) (h : story) : Prop :=
  ∀ name s, secrets !! name = Some s ↔ Did (GetSecret name) (Got s) ∈ h.

Lemma resolved_env_mono P h h' env env' : grows P h h' → resolved_env h env env' → resolved_env h' env env'.
Proof.
  intros Hg. unfold resolved_env. destruct (ref_of env) as [ref|]; [|done]. intros (s & v & Hs & Hr).
  exists s, v. split; [by eapply seen_grows|done].
Qed.

Definition secret_got (e : happening) : option (string * Secret) :=
  match e with Did (GetSecret name) r => match r with Got s => Some (name, s) | Bad _ => None end | _ => None end.
Lemma secret_got_inj name s name' s' :
  Did (GetSecret name) (Got s) = Did (GetSecret name') (Got s') → name = name' ∧ s = s'.
Proof. intros H. by injection (f_equal secret_got H). Qed.

Lemma cached_grows secrets h name s :
  secrets !! name = None → cached secrets h →
  cached (<[name := s]> secrets) (h ++ [Did (GetSecret name) (Got s)]).
Proof.
  intros Hn Hc name' s'. rewrite lookup_insert_Some, elem_of_app, list_elem_of_singleton. split.
  - intros [[-> ->]|[_ Hl]]; [by right|left; by apply Hc].
  - intros [Hin|[-> ->]%secret_got_inj]; [right|by left].
    split; [|by apply Hc]. intros ->. apply Hc in Hin. congruence.
Qed.

Section resolve.
Context (names : string → Prop).
Notation ok := (fetch_allowed names).
Notation any := (grows (λ _, True)).

Lemma awp_fetch secrets name (Q : reply (Secret * cache) → memory → story → Prop) m h :
  names name → cached secrets h →
  (∀ r h', any h h' → (∀ s c, r = Got (s, c) → Did (GetSecret name) (Got s) ∈ h' ∧ cached c h') → Q r m h') →
  awp ok (fetch secrets name) Q m h.
Proof.
  intros Hn Hc HQ. unfold fetch. destruct (secrets !! name) as [s|] eqn:Hs.
  - apply HQ; [apply grows_refl|]. intros s' c [= <- <-]. split; [by apply Hc|done].
  - split; [split; [done|]; intros s' Hin; apply Hc in Hin; congruence|].
    intros [s'|e]; (apply HQ; [by apply grows_call|]); [|done]. intros s'' c [= <- <-].
    split; [apply seen_last|by apply cached_grows].
Qed.

Lemma awp_resolve_envs service envs secrets (Q : reply (list EnvVar * cache) → memory → story → Prop) m h :
  (∀ env ref, env ∈ envs → ref_of env = Some ref → names (sks_Name ref)) → cached secrets h →
  (∀ r h', any h h' →
    (∀ envs' c, r = Got (envs', c) → Forall2 (resolved_env h') envs envs' ∧ cached c h') → Q r m h') →
  awp ok (resolve_envs service secrets envs) Q m h.
Proof.
  revert secrets h Q. induction envs as [|env envs IH]; intros secrets h Q Hn Hc HQ; cbn [resolve_envs].
  { apply HQ; [apply grows_refl|]. intros envs' c [= <- <-]. by split. }
  cbv zeta.
  assert (∀ env' c h1, any h h1 → cached c h1 → resolved_env h1 env env' →
    awp ok (resolve_envs service c envs ≫= λ r,
      Return (match r with Bad e => Bad e | Got (envs', c') => Got (env' :: envs', c') end)) Q m h1) as Hnext.
  { intros env' c h1 Hg1 Hc1 He. apply awp_bind, IH; [by intros env'' ref Hin; apply Hn; right|done|].
    intros r h2 Hg2 Hr. apply HQ; [by eapply grows_trans|]. intros envs' c' Heq.
    destruct r as [[envs'' c'']|]; [|done]. injection Heq as <- <-. destruct (Hr _ _ eq_refl) as [Hf Hc2].
    split; [|done]. constructor; [by eapply resolved_env_mono|done]. }
  destruct (ref_of env) as [ref|] eqn:Href; cycle 1.
  { apply Hnext; [apply grows_refl|done|]. unfold resolved_env. by rewrite Href. }
  apply awp_bind, awp_fetch; [eapply Hn; [by left|done]|done|]. intros [[s c]|e] h1 Hg1 Hr; [|by apply HQ].
  destruct (Hr _ _ eq_refl) as [Hs Hc1]. destruct (value_of s (sks_Key ref)) as [v|] eqn:Hv; [|by apply HQ].
  apply Hnext; [done|done|]. unfold resolved_env. rewrite Href. eauto.
Qed.

Lemma awp_resolve_services include svcs secrets (Q : reply (list ServiceDef) → memory → story → Prop) m h :
  (∀ svc env ref, svc ∈ svcs → include (svc_Name svc) = true → env ∈ svc_Env svc → ref_of env = Some ref →
    names (sks_Name ref)) → cached secrets h →
  (∀ r h', any h h' → (∀ svcs', r = Got svcs' → Forall2 (resolved_svc include h') svcs svcs') → Q r m h') →
  awp ok (resolve_services include secrets svcs) Q m h.
Proof.
  revert secrets h Q. induction svcs as [|svc svcs IH]; intros secrets h Q Hn Hc HQ; cbn [resolve_services].
  { apply HQ; [apply grows_refl|]. intros svcs' [= <-]. constructor. }
  assert (∀ svc' c h1, any h h1 → cached c h1 → (∀ h2, any h1 h2 → resolved_svc include h2 svc svc') →
    awp ok (resolve_services include c svcs ≫= λ r,
      Return (match r with Bad e => Bad e | Got svcs' => Got (svc' :: svcs') end)) Q m h1) as Hnext.
  { intros svc' c h1 Hg1 Hc1 Hs. apply awp_bind, IH; [by intros svc'' env ref Hin; apply Hn; right|done|].
    intros r h2 Hg2 Hr. apply HQ; [by eapply grows_trans|]. intros svcs' Heq.
    destruct r as [svcs''|]; [|done]. injection Heq as <-. constructor; [by apply Hs|by apply Hr]. }
  destruct (include (svc_Name svc)) eqn:Hi; simpl negb; cbv iota; cycle 1.
  { apply Hnext; [apply grows_refl|done|]. intros h2 _. unfold resolved_svc. by rewrite Hi. }
  apply awp_bind, awp_resolve_envs; [by intros env ref ? ?; eapply (Hn svc env); [left|..]|done|].
  intros [[envs c]|e] h1 Hg1 Hr; [|by apply HQ]. destruct (Hr _ _ eq_refl) as [Hf Hc1].
  apply Hnext; [done|done|]. intros h2 Hg2. unfold resolved_svc. rewrite Hi. exists envs. split; [done|].
  eapply Forall2_impl; [exact Hf|]. intros env env'. by apply resolved_env_mono with (P := λ _, True).
Qed.
End resolve.

(** How it ends: nothing to resolve, or every included reference has its value. *)
Definition resolution (include : string → bool) (p : Project) (h : story) (r : reply Project) : Prop :=
  match r with
  | Got resolved =>
      ∃ svcs, resolved = p_with_Services svcs p ∧
        Forall2 (resolved_svc include h) (sp_Services (p_Spec p)) svcs
  | Bad _ => True
  end.

Lemma no_refs_resolved include p h :
  has_refs include p = false → Forall2 (resolved_svc include h) (sp_Services (p_Spec p)) (sp_Services (p_Spec p)).
Proof.
  unfold has_refs. induction (sp_Services (p_Spec p)) as [|svc svcs IH]; simpl; [constructor|].
  rewrite orb_false_iff. intros [Hs Hr]. constructor; [|by apply IH]. unfold resolved_svc.
  destruct (include (svc_Name svc)); [|done]. exists (svc_Env svc). split; [by destruct svc|].
  simpl in Hs. induction (svc_Env svc) as [|env envs IHe]; simpl in Hs; [constructor|].
  apply orb_false_iff in Hs as [He Hes]. constructor; [|by apply IHe].
  apply bool_decide_eq_false in He. unfold resolved_env. destruct (ref_of env); [|done]. destruct He. by eexists.
Qed.

Lemma awp_resolveSecretsFor include p (Q : reply Project → memory → story → Prop) m :
  (∀ r h, resolution include p h r → Q r m h) →
  awp (fetch_allowed (refers include p)) (resolveSecretsFor p include) Q m [].
Proof.
  intros HQ. unfold resolveSecretsFor. destruct (has_refs include p) eqn:Hr; simpl negb; cbv iota.
  - apply awp_bind, awp_resolve_services.
    + intros svc env ref ? ? ? ?. by exists svc, env, ref.
    + intros name s. rewrite lookup_empty. split; [done|]. by intros ?%elem_of_nil.
    + intros [svcs|e] h _ Hs; apply HQ; [|done]. exists svcs. split; [done|by apply Hs].
  - apply HQ. exists (sp_Services (p_Spec p)). split; [by destruct p as [? [] ?]|by apply no_refs_resolved].
Qed.

Lemma resolution_since include current h1 h2 r :
  resolution include current h2 r → resolution include current (h1 ++ h2) r.
Proof.
  destruct r as [resolved|]; [|done]. intros (svcs & -> & Hf). exists svcs. split; [done|].
  eapply Forall2_impl; [exact Hf|]. intros svc svc'. unfold resolved_svc. destruct (include _); [|done].
  intros (envs & -> & He). exists envs. split; [done|]. eapply Forall2_impl; [exact He|].
  intros env env'. unfold resolved_env. destruct (ref_of env) as [ref|]; [|done]. intros (s & v & Hs & Hv).
  exists s, v. split; [|done]. apply elem_of_app. by right.
Qed.
Lemma resolution_later include current h h' r :
  h `prefix_of` h' → resolution include current h r → resolution include current h' r.
Proof.
  intros Hp. destruct r as [resolved|]; [|done]. intros (svcs & -> & Hf). exists svcs. split; [done|].
  eapply Forall2_impl; [exact Hf|]. intros svc svc'. unfold resolved_svc. destruct (include _); [|done].
  intros (envs & -> & He). exists envs. split; [done|]. eapply Forall2_impl; [exact He|].
  intros env env'. apply (resolved_env_mono (λ _, True)). by apply prefix_grows.
Qed.

Definition is_secret (c : call) : Prop := match c with GetSecret _ => True | _ => False end.
(** The Secrets of [current], in any protocol that allows to ask for them. *)
Lemma awp_secrets ok include current (Q : reply Project → memory → story → Prop) m h :
  (∀ h' secret, h `prefix_of` h' → refers include current secret → ok h' (GetSecret secret)) →
  (∀ r m' h', grows is_secret h h' → resolution include current h' r → Q r m' h') →
  awp ok (resolveSecretsFor current include) Q m h.
Proof.
  intros Hok HQ.
  apply (awp_since_start (fetch_allowed (refers include current)) _ is_secret _
    (λ r _ h', resolution include current h' r)); [by intros ? []| | |].
  - intros h' c _ Hc. destruct c; try done. apply Hok; [by apply prefix_app_r|apply Hc].
  - intros r m' h' Hs Hr. apply HQ; [by exists h'|by apply resolution_since].
  - by apply awp_resolveSecretsFor.
Qed.

(** (loop.go, resolveSecretsFor): secrets are resolved narrowly. Whatever the server
    answers, only Secrets that the included services refer to are asked for, none is
    asked for again once it was given, and the Project handed to the runtime is the
    one in hand in which exactly those references carry the value their Secret was
    answered to have. *)
Theorem resolveSecretsFor_exact (p : Project) (include : string → bool) (w : world) (m : memory) :
  let '(r, _, h) := act_run w (resolveSecretsFor p include) m [] in
  obeys (fetch_allowed (refers include p)) h ∧ resolution include p h r.
Proof.
  destruct (awp_adequate (fetch_allowed (refers include p)) w (resolveSecretsFor p include)
    (λ r _ h, resolution include p h r) m []) as [H1 H2]; [by apply awp_resolveSecretsFor|apply obeys_nil|].
  by destruct (act_run w _ m []) as [[r m'] h].
Qed.
