(* ===== verification/PgPlacement.v ===== *)
(** Placing a PostgresDifferential Project (internal/agent/pgdiff.go): its identity and
    authorization on the Node's repo host before the containers start, and the proof
    that every database archives before Running is reported. *)
From Stdlib Require Import ZArith Lia.
From stdpp Require Import prelude gmap strings.
From S2P Require Import Prelude.
From S2P Require Import Conditions.
From S2P Require Import ProjectTypes.
From S2P Require Import NodeTypes.
From S2P Require Import Strconv.
From S2P Require Import AccessTypes.
From S2P Require Import Failures.
From S2P Require Import Tracker.
From S2P Require Import Engine.
From S2P Require Import Stores.
From S2P Require Import Actions.
From S2P Require Import Health.
From S2P Require Import Reports.
Import GoTime GoInt GoString.
Open Scope nat_scope.

Set Default Proof Using "Type".

Definition pgBlockedNoRepository : string := "BackupRepositoryUnavailable".
Definition pgBlockedVersionMismatch : string := "PgBackRestVersionMismatch".
Definition pgBlockedArchiving : string := "ArchivingNotReady".
Definition pgBlockedPlacement : string := "PostgresPlacementPending".
Definition pgReadyTimeout : Duration := (90 * Second)%Z.

Record pgDatabase := {
  db_service : string; db_volume : string; db_image : string; db_stanza : string; db_retainFull : Z
}.

(** The retention by volume; a later item of a volume replaces an earlier one. *)
Definition retain_by_volume (p : Project) : gmap string Z :=
  foldl (λ m i, if decide (bi_Strategy i = BackupStrategyPostgresDifferential)
                then <[bi_Volume i := EffectiveRetainFull i]> m else m) ∅ (backup_items (p_Spec p)).

Definition postgresDatabases (p : Project) : list pgDatabase :=
  if negb (HasPostgresDifferential (p_Spec p)) then []
  else
    svc ← sp_Services (p_Spec p);
    vm ← svc_VolumeMounts svc;
    match retain_by_volume p !! vm_Name vm with
    | Some n => [{| db_service := svc_Name svc; db_volume := vm_Name vm; db_image := svc_Image svc;
                    db_stanza := StanzaName (om_UID (p_Meta p)) (vm_Name vm); db_retainFull := n |}]
    | None => []
    end.

(** [repo] is a non-nil repo host. *)
Definition noRepository : failure :=
  pgBlockedError pgBlockedNoRepository
    "this Node has no object store configured, so it cannot run the pgBackRest repo host".

Definition preparePostgresDifferential (repo : bool) (p : Project) : act (option failure) :=
  match postgresDatabases p with
  | [] => Return None
  | (db :: _) as dbs =>
      if negb repo then Return (Some noRepository)
      else
        let uid := om_UID (p_Meta p) in
        call_ (IssueClientIdentity uid (db_image db)) ;?
        call_ (WriteClientConfig uid ((λ d, (db_stanza d, db_retainFull d)) <$> dbs)) ;?
        call_ (EnsureProjectNetwork p) ;?
        (call_ (Authorize uid (db_stanza <$> dbs) (NetworkName (om_Name (p_Meta p))) (db_image db)) ≫= λ err,
         Return (match (err : option failure) with
                 | Some e => if FIs e ErrRepositoryNotHTTPS
                             then Some (pgBlockedError pgBlockedNoRepository (FError e)) else Some e
                 | None => None
                 end))
  end.

(** ** Commands in the database's container *)

(** Stdout, and an error that names the exit code and stderr. *)
Definition execOK (container user : string) (cmd : list string) : act (string * option failure) :=
  call_ (Exec container user cmd) ≫= λ r,
  Return (match (r : reply ExecResult) with
          | Bad e => (EmptyString, Some e)
          | Got res =>
              if Z.eqb (ex_ExitCode res) 0 then (ex_Stdout res, None)
              else (ex_Stdout res, Some (Text (nth 0 cmd EmptyString ++ " exited " ++ FormatInt (ex_ExitCode res)
                                               ++ ": " ++ TrimSpace (ex_Stderr res))%string))
          end).

Definition psql_script : string :=
  ("psql -X -qtA -U " ++ String dquote "${POSTGRES_USER:-postgres}" ++ String dquote " -d postgres -c "
   ++ String dquote "$1" ++ String dquote EmptyString)%string.

Definition psql (container sql : string) : act (reply string) :=
  execOK container "postgres" ["sh"; "-c"; psql_script; "psql"; sql]%string ≫= λ '(out, err),
  Return (match err with Some e => Bad e | None => Got (TrimSpace out) end).

(** The loop of waitPostgres, [rounds] times at most: [pg_isready] is asked once a
    second until it answers 0 or the deadline has passed. *)
Definition outwaited : failure := Text "rounds exhausted".
Fixpoint wait_rounds (rounds : nat) (container : string) (deadline : Time) : act (option failure) :=
  match rounds with
  | 0 => Return (Some outwaited)
  | S rounds =>
      call_ (Exec container "postgres" ["pg_isready"; "-q"]%string) ≫= λ r,
      match (r : reply ExecResult) with
      | Got (Build_ExecResult 0 _ _) => Return None
      | _ =>
          call_ Clock ≫= λ now,
          if After now deadline then
            Return (Some (Text ("agent: " ++ container ++ " did not accept connections within 1m30s")%string))
          else
            call_ (Sleep Second) ≫= λ err,
            match (err : option failure) with
            | Some e => Return (Some e)
            | None => wait_rounds rounds container deadline
            end
      end
  end.
Definition waitPostgres (rounds : nat) (container : string) : act (option failure) :=
  call_ Clock ≫= λ now, wait_rounds rounds container (now + pgReadyTimeout)%Z.

Definition pgArchiveTimeout : string := "1min".
Definition archiveCommand (stanza : string) : string := ("pgbackrest --stanza=" ++ stanza ++ " archive-push %p")%string.

Definition enableArchiving (rounds : nat) (container stanza : string) : act (option failure) :=
  let run (sql : string) (k : act (option failure)) := or_return_value (psql container sql) (λ _, k) in
  or_return_value (psql container "SHOW archive_mode") (λ mode,
  or_return_value (psql container "SHOW archive_command") (λ command,
  or_return_value (psql container "SHOW archive_timeout") (λ timeout,
  let rest :=
    if bool_decide (mode = "on"%string) && bool_decide (command = archiveCommand stanza) then Return None
    else
      run "ALTER SYSTEM SET archive_mode = 'on'"%string
      (run ("ALTER SYSTEM SET archive_command = '" ++ archiveCommand stanza ++ "'")%string
      (call_ (RestartContainer container) ;?
       waitPostgres rounds container ;?
       or_return_value (psql container "SHOW archive_mode") (λ mode,
       if negb (bool_decide (mode = "on"%string)) then
         Return (Some (pgBlockedError pgBlockedArchiving ("archive_mode is " ++ mode ++ " after the restart")%string))
       else Return None))) in
  if negb (bool_decide (timeout = pgArchiveTimeout)) then
    run ("ALTER SYSTEM SET archive_timeout = '" ++ pgArchiveTimeout ++ "'")%string
    (run "SELECT pg_reload_conf()" rest)
  else rest))).

Definition db_container (p : Project) (db : pgDatabase) : string :=
  ContainerName (om_Name (p_Meta p)) (db_service db).
Definition stanza_flag (db : pgDatabase) : string := ("--stanza=" ++ db_stanza db)%string.

(** One database: its version, its stanza recorded and created, archiving on, and
    the archive check. *)
Definition finish_database (rounds : nat) (p : Project) (serverVersion : string) (db : pgDatabase)
    : act (option failure) :=
  let name := db_container p db in
  waitPostgres rounds name ;?
  (execOK name "postgres" ["pgbackrest"; "version"]%string ≫= λ '(clientVersion, err),
   match err with
   | Some e => Return (Some e)
   | None =>
       if negb (bool_decide (TrimSpace clientVersion = serverVersion)) then
         Return (Some (pgBlockedError pgBlockedVersionMismatch
           (db_service db ++ " runs " ++ Quote (TrimSpace clientVersion) ++ " but the repo host runs "
            ++ Quote serverVersion)%string))
       else
         call_ (RecordStanza (om_Name (p_Meta p)) (fenceForProject p) (db_volume db)) ;?
         (execOK name "postgres" ["pgbackrest"; stanza_flag db; "stanza-create"]%string ≫= λ '(out, err),
          match err with
          | Some e => Return (Some (pgBlockedError pgBlockedArchiving
                        ("stanza-create for " ++ db_stanza db ++ ": " ++ FError e ++ " " ++ out)%string))
          | None =>
              enableArchiving rounds name (db_stanza db) ;?
              (execOK name "postgres" ["pgbackrest"; stanza_flag db; "check"]%string ≫= λ '(out, err),
               Return (match err with
                       | Some e => Some (pgBlockedError pgBlockedArchiving
                                     ("archive check for " ++ db_stanza db ++ ": " ++ FError e ++ " " ++ out)%string)
                       | None => None
                       end))
          end)
   end).

Fixpoint finish_each (rounds : nat) (p : Project) (serverVersion : string) (dbs : list pgDatabase)
    : act (option failure) :=
  match dbs with
  | [] => Return None
  | db :: rest => finish_database rounds p serverVersion db ;? finish_each rounds p serverVersion rest
  end.

Definition finishPostgresDifferential (rounds : nat) (repo : bool) (p : Project) : act (option failure) :=
  match postgresDatabases p with
  | [] => Return None
  | dbs =>
      if negb repo then Return (Some noRepository)
      else or_return_value (call_ RepoVersion) (λ serverVersion, finish_each rounds p serverVersion dbs)
  end.

Definition postgresPending (p : Project) : bool :=
  bool_decide (st_Phase (p_Status p) = ProjectPhaseScheduled) && HasPostgresDifferential (p_Spec p).

Definition reportPostgresBlocked (p : Project) (err : failure) : act () :=
  let '(reason, detail) := default (pgBlockedPlacement, FError err) (AsPgBlocked err) in
  reportRecoveryBlocked p reason detail.

(** [coordinator] and [repo] say what the Node has, [runs_commands] that its runtime
    runs commands in containers; [start] is nil or how the containers are created. *)
Definition place_body (rounds : nat) (repo runs_commands : bool) (p : Project) (start : option (act bool))
    : act bool :=
  if negb runs_commands then
    reportRecoveryBlocked p pgBlockedNoRepository "this Node's container runtime cannot run commands in containers"
      ≫= λ _, Return false
  else
    let finish :=
      finishPostgresDifferential rounds repo p ≫= λ err,
      match (err : option failure) with
      | Some e => reportPostgresBlocked p e ≫= λ _, Return false
      | None => clearRecoveryBlocked p ≫= λ _, Return true
      end in
    match start with
    | None => finish
    | Some start =>
        preparePostgresDifferential repo p ≫= λ err,
        match (err : option failure) with
        | Some e => reportPostgresBlocked p e ≫= λ _, Return false
        | None => start ≫= λ ok, if negb ok then Return false else finish
        end
    end.
Definition placePostgres (rounds : nat) (coordinator repo runs_commands : bool) (p : Project)
    (start : option (act bool)) : act bool :=
  claimed coordinator (key_of_project p) OpPlacement (Return false) (place_body rounds repo runs_commands p start).

(** ** Archiving is proven before a placement is complete *)

Section archiving.
Context (rounds : nat) (p : Project).
Notation name := (om_Name (p_Meta p)).
Notation dbs := (postgresDatabases p).

Definition create_stanza (db : pgDatabase) : list string := ["pgbackrest"; stanza_flag db; "stanza-create"]%string.
Definition check_stanza (db : pgDatabase) : list string := ["pgbackrest"; stanza_flag db; "check"]%string.

Definition db_runs (n : string) : Prop := ∃ db, db ∈ dbs ∧ n = db_container p db.
(** Commands and waits that record nothing. *)
Definition pg_quiet (c : call) : Prop :=
  match c with
  | Clock | Sleep _ => True
  | RestartContainer n => db_runs n
  | Exec n user cmd => user = "postgres"%string ∧ db_runs n ∧ ∀ db, cmd ≠ create_stanza db
  | _ => False
  end.

Definition stanza_recorded (db : pgDatabase) (h : story) : Prop :=
  Did (RecordStanza name (fenceForProject p) (db_volume db)) None ∈ h.
(** The database runs the repo host's version, its stanza is on record, and the
    archive check of its stanza answered 0. *)
Definition archives (db : pgDatabase) (h : story) : Prop :=
  stanza_recorded db h ∧
  (∃ v res, Did RepoVersion (Got v) ∈ h ∧
     Did (Exec (db_container p db) "postgres" ["pgbackrest"; "version"]%string) (Got res) ∈ h ∧
     ex_ExitCode res = 0%Z ∧ TrimSpace (ex_Stdout res) = v) ∧
  (∃ res, Did (Exec (db_container p db) "postgres" (check_stanza db)) (Got res) ∈ h ∧ ex_ExitCode res = 0%Z).
Definition all_archive (h : story) : Prop := ∀ db, db ∈ dbs → archives db h.

Definition authorized (h : story) : Prop :=
  ∃ image, Did (Authorize (om_UID (p_Meta p)) (db_stanza <$> dbs) (NetworkName name) image) None ∈ h.

(** What a placement may ask for, besides starting containers. *)
Definition placement_allowed (h : story) (c : call) : Prop :=
  match c with
  | Clock | Sleep _ | RestartContainer _ => pg_quiet c
  | Exec n user cmd =>
      user = "postgres"%string ∧ ∃ db, db ∈ dbs ∧ n = db_container p db ∧
        ((∀ db', cmd ≠ create_stanza db') ∨ cmd = create_stanza db ∧ stanza_recorded db h)
  | IssueClientIdentity uid _ | WriteClientConfig uid _ => uid = om_UID (p_Meta p)
  | Authorize uid stanzas network _ =>
      uid = om_UID (p_Meta p) ∧ stanzas = db_stanza <$> dbs ∧ network = NetworkName name
  | EnsureProjectNetwork p' => p' = p
  | RepoVersion => True
  | RecordStanza n fence volume =>
      n = name ∧ fence = fenceForProject p ∧ ∃ db, db ∈ dbs ∧ volume = db_volume db
  | PatchProjectCondition n fence type status _ _ =>
      n = name ∧ fence = fenceForProject p ∧ type = ConditionTypeRecoveryBlocked ∧ status = ConditionTrue
  | ClearProjectCondition n fence type =>
      n = name ∧ fence = fenceForProject p ∧ type = ConditionTypeRecoveryBlocked ∧ all_archive h
  | _ => False
  end.

Lemma archives_prefix db h h' : h `prefix_of` h' → archives db h → archives db h'.
Proof.
  intros Hp (H1 & (v & res & H2 & H3 & H4) & res' & H5 & H6). pose proof (λ e, seen_prefix e h h' Hp) as Hs.
  split; [by apply Hs|]. split; [exists v, res|exists res']; by auto.
Qed.

Section quiet.
Context (db : pgDatabase) (Hdb : db ∈ dbs).

Lemma quiet_exec cmd : (∀ db', cmd ≠ create_stanza db') → pg_quiet (Exec (db_container p db) "postgres" cmd).
Proof using Hdb. intros Hc. split_and!; [done|by exists db|done]. Qed.

Lemma only_execOK cmd :
  (∀ db', cmd ≠ create_stanza db') → only pg_quiet (execOK (db_container p db) "postgres" cmd).
Proof using Hdb. intros Hc. by split; [apply quiet_exec|]. Qed.

Lemma only_psql sql : only pg_quiet (psql (db_container p db) sql).
Proof using Hdb. apply only_bind; [by apply only_execOK|]. by intros [out [e|]]. Qed.

Lemma only_wait_rounds n deadline : only pg_quiet (wait_rounds n (db_container p db) deadline).
Proof using Hdb.
  induction n as [|n IH]; [done|]. cbn [wait_rounds]. split; [by apply quiet_exec|].
  intros [[[|?|?] ? ?]|e]; [exact I|..]; (split; [exact I|]; intros t; simpl;
    destruct (After t deadline); [exact I|]; split; [exact I|]; intros [e'|]; [exact I|apply IH]).
Qed.
Lemma only_waitPostgres : only pg_quiet (waitPostgres rounds (db_container p db)).
Proof using Hdb. split; [done|]. intros now. apply only_wait_rounds. Qed.

Lemma only_enableArchiving stanza : only pg_quiet (enableArchiving rounds (db_container p db) stanza).
Proof using Hdb.
  unfold enableArchiving. cbv zeta.
  apply only_or_return_value; [apply only_psql|]. intros mode.
  apply only_or_return_value; [apply only_psql|]. intros command.
  apply only_or_return_value; [apply only_psql|]. intros timeout.
  assert (∀ k, only pg_quiet k → ∀ sql, only pg_quiet
    (or_return_value (psql (db_container p db) sql) (λ _, k))) as Hrun.
  { intros k Hk sql. by apply only_or_return_value; [apply only_psql|]. }
  destruct (_ && _); [|assert (only pg_quiet (call_ (RestartContainer (db_container p db)) ;?
     waitPostgres rounds (db_container p db) ;?
     or_return_value (psql (db_container p db) "SHOW archive_mode") (λ mode,
       if negb (bool_decide (mode = "on"%string)) then
         Return (Some (pgBlockedError pgBlockedArchiving ("archive_mode is " ++ mode ++ " after the restart")%string))
       else Return None))) as Hr].
  - destruct (negb _); [|done]. by repeat apply Hrun.
  - apply only_or_return; [apply only_call; by exists db|]. apply only_or_return; [apply only_waitPostgres|].
    apply only_or_return_value; [apply only_psql|]. intros m. by destruct (negb _).
  - destruct (negb _); repeat apply Hrun; exact Hr.
Qed.
End quiet.

Lemma quiet_allowed h c : pg_quiet c → placement_allowed h c.
Proof.
  destruct c; simpl; try done. intros (? & (db & ? & ?) & Hc). split; [done|]. exists db. by auto.
Qed.

Lemma awp_execOK ok container cmd (Q : string * option failure → memory → story → Prop) m h :
  ok h (Exec container "postgres" cmd) →
  (∀ r h', h `prefix_of` h' → (r.2 = None → ∃ res, Did (Exec container "postgres" cmd) (Got res) ∈ h' ∧
     ex_ExitCode res = 0%Z ∧ r.1 = ex_Stdout res) → Q r m h') →
  awp ok (execOK container "postgres" cmd) Q m h.
Proof.
  intros Hok HQ. split; [done|]. intros r. apply HQ; [by apply prefix_of_snoc|].
  destruct r as [res|e]; [|done]. destruct (Z.eqb_spec (ex_ExitCode res) 0); [|done].
  intros _. exists res. split_and!; [apply seen_last|done|done].
Qed.

Lemma awp_quiet {A} (x : act A) (Q : A → memory → story → Prop) m h :
  only pg_quiet x → (∀ a m' h', h `prefix_of` h' → Q a m' h') → awp placement_allowed x Q m h.
Proof.
  intros Hx HQ. eapply awp_only; [exact Hx|apply quiet_allowed|]. intros a m' h' Hg. by eapply HQ, grows_prefix.
Qed.

Lemma awp_finish_database v db (Q : option failure → memory → story → Prop) m h :
  db ∈ dbs → Did RepoVersion (Got v) ∈ h →
  (∀ e m' h', h `prefix_of` h' → (e = None → archives db h') → Q e m' h') →
  awp placement_allowed (finish_database rounds p v db) Q m h.
Proof.
  intros Hdb Hv HQ. unfold finish_database. cbv zeta.
  apply awp_or_return, awp_quiet; [by apply only_waitPostgres|]. intros [e|] m1 h1 Hp1; [by apply HQ|].
  apply awp_bind, awp_execOK; [by apply quiet_allowed, quiet_exec|]. intros [out [e|]] h2 Hp2 Hr2; [apply HQ; [later|done]|].
  destruct (Hr2 eq_refl) as (res2 & Hres2 & Hx2 & Hout). simpl in Hout. subst out. case_bool_decide as Hver; simpl negb; cbv iota;
    [|apply HQ; [later|done]].
  apply awp_or_return. split; [split_and!; [done|done|by exists db]|].
  intros [e|]; [apply HQ; [later|done]|].
  set (h3 := h2 ++ _). assert (stanza_recorded db h3) as Hrec by apply seen_last.
  assert (h2 `prefix_of` h3) as Hp3 by (by apply prefix_of_snoc).
  apply awp_bind, awp_execOK.
  { split; [done|]. exists db. split_and!; [done|done|by right]. }
  intros [out [e|]] h4 Hp4 Hr4; [apply HQ; [later|done]|].
  apply awp_or_return, awp_quiet; [by apply only_enableArchiving|]. intros [e|] m5 h5 Hp5;
    [apply HQ; [later|done]|].
  apply awp_bind, awp_execOK; [by apply quiet_allowed, quiet_exec|]. intros [out' [e|]] h6 Hp6 Hr6;
    (apply HQ; [later|]); [done|]. intros _.
  destruct (Hr6 eq_refl) as (res6 & Hres6 & Hx6 & _).
  split; [eapply seen_prefix; [|exact Hrec]; later|].
  split; [|by exists res6]. exists v, res2.
  split_and!; [eapply seen_prefix; [|exact Hv]|eapply seen_prefix; [|exact Hres2]|done|done]; later.
Qed.

Lemma awp_finish_each v ds (Q : option failure → memory → story → Prop) m h :
  (∀ db, db ∈ ds → db ∈ dbs) → Did RepoVersion (Got v) ∈ h →
  (∀ e m' h', h `prefix_of` h' → (e = None → ∀ db, db ∈ ds → archives db h') → Q e m' h') →
  awp placement_allowed (finish_each rounds p v ds) Q m h.
Proof.
  revert m h. induction ds as [|db ds IH]; intros m h Hsub Hv HQ; cbn [finish_each].
  { apply HQ; [done|]. by intros _ db ?%elem_of_nil. }
  apply awp_or_return, awp_finish_database; [by apply Hsub; left|done|]. intros [e|] m1 h1 Hp1 Hr1; [by apply HQ|].
  apply IH; [by intros db' ?; apply Hsub; right|by eapply seen_prefix|]. intros e m2 h2 Hp2 Hr2.
  apply HQ; [later|]. intros He db' [->|Hin]%elem_of_cons; [|by apply Hr2].
  eapply archives_prefix; [exact Hp2|by apply Hr1].
Qed.

Lemma awp_finish repo (Q : option failure → memory → story → Prop) m h :
  (∀ e m' h', h `prefix_of` h' → (e = None → all_archive h') → Q e m' h') →
  awp placement_allowed (finishPostgresDifferential rounds repo p) Q m h.
Proof.
  intros HQ. unfold finishPostgresDifferential, all_archive in *. destruct dbs as [|db ds] eqn:E.
  { apply HQ; [done|]. by intros _ db ?%elem_of_nil. }
  destruct repo; [|by apply HQ]. simpl negb. cbv iota. apply awp_or_return_value.
  split; [done|]. intros [v|e]; [|by apply HQ; [apply prefix_of_snoc|]]. rewrite <- E.
  apply awp_finish_each; [done|apply seen_last|]. intros e m' h' Hp He.
  apply HQ; [later|]. by rewrite <- E.
Qed.

Lemma awp_prepare repo (Q : option failure → memory → story → Prop) m h :
  (∀ e m' h', h `prefix_of` h' → (e = None → dbs = [] ∨ authorized h') → Q e m' h') →
  awp placement_allowed (preparePostgresDifferential repo p) Q m h.
Proof.
  intros HQ. unfold preparePostgresDifferential. destruct dbs as [|db ds] eqn:E; [apply HQ; [done|by left]|].
  destruct repo; [|by apply HQ]. simpl negb. cbv iota. rewrite <- E.
  apply awp_or_return. split; [done|]. intros [e|]; [by apply HQ; [apply prefix_of_snoc|]|].
  apply awp_or_return. split; [done|]. intros [e|]; [by apply HQ; [later|]|].
  apply awp_or_return. split; [done|]. intros [e|]; [by apply HQ; [later|]|].
  split; [done|]. intros [e|]; apply HQ; try (later).
  - by destruct (FIs _ _).
  - intros _. right. exists (db_image db). apply seen_last.
Qed.
(** The whole placement, in a wider protocol: what [start] does is judged by it, after
    the authorization. *)
Lemma awp_place_body ok repo runs_commands (start : option (act bool)) (R : story → Prop)
    (Q : bool → memory → story → Prop) m h :
  (∀ h c, placement_allowed h c → ok h c) →
  (∀ h1 h2, h1 `prefix_of` h2 → R h1 → R h2) →
  (∀ s m' h', start = Some s → h `prefix_of` h' → (dbs = [] ∨ authorized h') →
    awp ok s (λ b _ h'', b = true → R h'') m' h') →
  (∀ b m' h', h `prefix_of` h' → (b = true → all_archive h' ∧ (start ≠ None → R h')) → Q b m' h') →
  awp ok (place_body rounds repo runs_commands p start) Q m h.
Proof.
  intros Hok HR Hstart HQ. unfold place_body.
  assert (∀ reason message m' h', h `prefix_of` h' →
    awp ok (reportRecoveryBlocked p reason message ≫= λ _, Return false) Q m' h') as Hrep.
  { intros reason message m' h' Hp. unfold reportRecoveryBlocked, report_condition.
    destruct (carries _ _ _ _); [by apply HQ|]. split; [by apply Hok|]. intros x. by apply HQ; [later|]. }
  destruct runs_commands; simpl negb; cbv iota zeta; [|by apply Hrep].
  assert (∀ e m' h', h `prefix_of` h' →
    awp ok (reportPostgresBlocked p e ≫= λ _, Return false) Q m' h') as Hpg.
  { intros e m' h' Hp. unfold reportPostgresBlocked. destruct (default _ _). by apply Hrep. }
  assert (∀ m' h', h `prefix_of` h' → (start ≠ None → R h') →
    awp ok (finishPostgresDifferential rounds repo p ≫= λ err,
      match (err : option failure) with
      | Some e => reportPostgresBlocked p e ≫= λ _, Return false
      | None => clearRecoveryBlocked p ≫= λ _, Return true
      end) Q m' h') as Hfin.
  { intros m1 h1 Hp1 HR1. apply awp_bind. eapply awp_ok_mono; [exact Hok|]. apply awp_finish.
    intros [e|] m2 h2 Hp2 Hall; [apply Hpg; later|]. specialize (Hall eq_refl).
    unfold clearRecoveryBlocked, clear_condition.
    destruct (projectCondition _ _); [split; [by apply Hok|]; intros x|]; (apply HQ; [later|]); intros _.
    - split; [|intros Hs; eapply HR; [|by apply HR1]; later]. intros db Hdb. eapply archives_prefix; [|by apply Hall]. later.
    - split; [done|]. intros Hs. eapply HR; [|by apply HR1]. later. }
  destruct start as [s|]; [|by apply Hfin]. apply awp_bind. eapply awp_ok_mono; [exact Hok|]. apply awp_prepare.
  intros [e|] m1 h1 Hp1 Hauth; [by apply Hpg|]. apply awp_bind.
  eapply awp_mono; [|apply awp_prefix, (Hstart s m1 h1 eq_refl Hp1); by apply Hauth].
  intros [|] m2 h2 [Hr Hp2]; simpl; [|apply HQ; [later|done]]. apply Hfin; [later|]. intros _. by apply Hr.
Qed.
End archiving.

(** ** The wait ends *)

(** The seconds slept in a history, and a clock that goes on while the Agent sleeps. *)
Definition is_sleep (e : happening) : bool :=
  match e with Did (Sleep d) None => Z.eqb d Second | _ => false end.
Definition slept (h : story) : Z := Z.of_nat (length (filter (λ e, is_sleep e = true) h)).
Definition steady (w : world) : Prop :=
  ∀ h1 h2, ((w h1 Clock : Time) + Second * slept h2 ≤ w (h1 ++ Did Clock (w h1 Clock) :: h2) Clock)%Z.
(** One round for each second of the timeout, one at its end and one past it. *)
Definition wait_bound : nat := 92.

Lemma slept_app h h' : slept (h ++ h') = (slept h + slept h')%Z.
Proof. unfold slept. rewrite filter_app, length_app. lia. Qed.
Lemma slept_nonneg h : (0 ≤ slept h)%Z.
Proof. unfold slept. lia. Qed.
Lemma slept_second : slept [Did (Sleep Second) None] = 1%Z.
Proof. reflexivity. Qed.

(** One round, as it is run. *)
Definition is_ready (r : reply ExecResult) : bool :=
  match r with Got res => Z.eqb (ex_ExitCode res) 0 | Bad _ => false end.
Definition ready_call (container : string) : call := Exec container "postgres" ["pg_isready"; "-q"]%string.

Lemma wait_round (w : world) (container : string) deadline n m h :
  let r := w h (ready_call container) in
  let h1 := h ++ [Did (ready_call container) r] in
  let now := w h1 Clock in
  let h2 := h1 ++ [Did Clock now] in
  let s := w h2 (Sleep Second) in
  let h3 := h2 ++ [Did (Sleep Second) s] in
  act_run w (wait_rounds (S n) container deadline) m h =
  if is_ready r then (None, m, h1)
  else if After now deadline then
    (Some (Text ("agent: " ++ container ++ " did not accept connections within 1m30s")%string), m, h2)
  else match (s : option failure) with
       | Some e => (Some e, m, h3)
       | None => act_run w (wait_rounds n container deadline) m h3
       end.
Proof.
  cbv zeta. cbn [wait_rounds]. simpl. unfold ready_call.
  destruct (w h _) as [[[|z|z] o e]|e]; simpl; [done|..]; (destruct (After _ _); [done|]; simpl;
    by destruct (w _ (Sleep Second))).
Qed.

Lemma wait_rounds_enough (w : world) (container : string) m h1 j :
  let t : Time := w h1 Clock in
  steady w → ∀ n k h2, (Z.of_nat j + k = 91)%Z → (k ≤ slept h2)%Z → S j ≤ n →
  act_run w (wait_rounds n container (t + pgReadyTimeout)%Z) m (h1 ++ Did Clock t :: h2) =
  act_run w (wait_rounds (S j) container (t + pgReadyTimeout)%Z) m (h1 ++ Did Clock t :: h2).
Proof.
  intros t Hw. induction j as [|j IH]; intros [|n] k h2 Hk Hs Hn; try lia;
    [rewrite (wait_round _ _ _ n), (wait_round _ _ _ 0)|rewrite (wait_round _ _ _ n), (wait_round _ _ _ (S j))];
    cbv zeta; (destruct (is_ready _); [done|]); set (d := Did (ready_call container) _);
    set (h3 := (h1 ++ Did Clock t :: h2) ++ [d]);
    (assert (h3 = h1 ++ Did Clock t :: (h2 ++ [d])) as Eh3 by (unfold h3; by rewrite <- app_assoc));
    pose proof (Hw h1 (h2 ++ [d])) as Hc; fold t in Hc; rewrite <- Eh3, slept_app in Hc; pose proof (slept_nonneg [d]);
    unfold After; case_bool_decide as Ha; try done.
  - exfalso. apply Ha. unfold pgReadyTimeout, Second in *. lia.
  - destruct (w _ (Sleep Second)) as [e|]; [done|]. rewrite Eh3, <- !app_assoc, <- !app_comm_cons.
    apply (IH n (k + 1)%Z); [lia| |lia]. set (c := Did Clock _). pose proof (slept_nonneg [c]).
    change ((h2 ++ [d]) ++ c :: [] ++ [Did (Sleep Second) None]) with
      ((h2 ++ [d]) ++ [c] ++ [Did (Sleep Second) None]).
    rewrite !slept_app, slept_second. lia.
Qed.

(** C37 (pgdiff.go, waitPostgres): the wait for PostgreSQL ends. With a clock that goes
    on by at least what the Agent sleeps, more than 92 rounds of the loop are never
    run: whatever the container answers, the wait is over by then, with the same
    answer and the same requests however many rounds are allowed. *)
Theorem waitPostgres_ends (w : world) (rounds : nat) (container : string) (m : memory) (h : story)
    (Hclock : steady w) (Hrounds : wait_bound ≤ rounds) :
  act_run w (waitPostgres rounds container) m h = act_run w (waitPostgres wait_bound container) m h.
Proof.
  assert (∀ n, act_run w (waitPostgres n container) m h =
    act_run w (wait_rounds n container (w h Clock + pgReadyTimeout)%Z) m (h ++ [Did Clock (w h Clock)])) as E by done.
  rewrite !E. clear E.
  pose proof (wait_rounds_enough w container m h 91 Hclock rounds 0%Z []) as H. cbv zeta in H.
  apply H; [done|done|exact Hrounds].
Qed.

(** A container that never answers, on a clock that shows the seconds slept. *)
Definition patient_world : world := λ h c,
  match c return answer c with
  | Clock => (Second * slept h)%Z
  | Exec _ _ _ => Bad (Text "not ready")
  | ExecUntilCancelled _ _ _ => inl (Bad (Text "not ready"))
  | CheckContinuity _ => (false, 0%Z, None)
  | GetProject _ | GetSecret _ | ListProjectsAssignedToNode | ListCleanupTasks | InspectProject _
  | StaleContainers _ | GetContainerIPs _ | ListLocalProjects | DriftOf _ | AssignmentRemaining _
  | RepoRemaining _ _ | RepoVersion => Bad (Text "down")
  | Stat _ => StatAbsent
  | ReadDir _ => DirAbsent
  | ReadMarker _ => MarkerAbsent
  | Docker c => docker_down c
  | Store c => store_down c
  | Disk c => disk_down c
  | RandomSuffix => Bad (Text "down")
  | BeginPgRestore _ => (Text "down", false)
  | TryClaim _ _ => true
  | IsBusy _ => false
  | RoutesUpdate _ _ | RoutesRemove _ | Release _ | SyncSupervisor _ => ()
  | _ => None
  end.

Lemma patient_steady : steady patient_world.
Proof.
  intros h1 h2. cbn. rewrite slept_app. change (?a :: h2) with ([a] ++ h2). rewrite slept_app.
  unfold Second. pose proof (slept_nonneg [Did Clock (1000000000 * slept h1)%Z]). lia.
Qed.

Lemma waitPostgres_ends_witness :
  act_run patient_world (waitPostgres 1000 "db") {| mem_Recovery := None; mem_Orphans := None |} [] =
  act_run patient_world (waitPostgres wait_bound "db") {| mem_Recovery := None; mem_Orphans := None |} [] ∧
  (act_run patient_world (waitPostgres wait_bound "db") {| mem_Recovery := None; mem_Orphans := None |} []).1.1 =
    Some (Text "agent: db did not accept connections within 1m30s").
Proof.
  split; [|vm_compute; reflexivity].
  apply (waitPostgres_ends patient_world 1000 "db" _ [] patient_steady). unfold wait_bound. lia.
Defined.
