(* ===== verification/DiskSwap.v ===== *)
(** What a swap of volumes does to the disk (internal/agent/restore/restore.go,
    swapAll): on a file system whose operations do what they say or fail, every volume
    holds what was staged, or every volume holds what it held before. *)
From Stdlib Require Import ZArith Lia.
From stdpp Require Import prelude gmap strings.
From S2P Require Import Prelude.
From S2P Require Import ProjectTypes.
From S2P Require Import NodeTypes.
From S2P Require Import Strconv.
From S2P Require Import Failures.
From S2P Require Import Paths.
From S2P Require Import Engine.
From S2P Require Import Stores.
From S2P Require Import Actions.
From S2P Require Import VolumeData.
From S2P Require Import VolumeRestore.
From S2P Require Import PgPlacement.
Import GoTime GoInt GoString.
Open Scope nat_scope.

Set Default Proof Using "Type".

Lemma Forall2_impl_elem {A B} (P Q : A → B → Prop) xs ys :
  Forall2 P xs ys → (∀ x y, x ∈ xs → P x y → Q x y) → Forall2 Q xs ys.
Proof.
  induction 1 as [|x y xs ys Hp _ IH]; intros HQ; constructor; [apply HQ; [by left|done]|].
  apply IH. intros x' y' Hx'. apply HQ. by right.
Qed.

Lemma elem_of_rev_inv {A} (x : A) xs : x ∈ rev xs → x ∈ xs.
Proof. apply elem_of_rev. Qed.

(** ** Directories on a disk

    What the whole directory at a path holds, for the paths that have one. A rename
    that succeeds moves it, a removal that succeeds takes it away; what fails does
    nothing. *)
Section disks.
Context {T : Type}.
Notation disk := (gmap string T).
Implicit Types d : disk.

Definition disk_step d (e : happening) : disk :=
  match e with
  | Did (Disk (RenamePath from to)) None => match d !! from with Some t => <[to := t]> (delete from d) | None => d end
  | Did (Disk (RemoveTree path)) None => delete path d
  | _ => d
  end.
Definition disk_after d (h : story) : disk := foldl disk_step d h.

(** A path that is inspected is found exactly when it is there, unless the inspection
    fails; only what is there can be renamed. *)
Definition fits d (e : happening) : Prop :=
  match e with
  | Did (Stat path) StatFound => is_Some (d !! path)
  | Did (Stat path) StatAbsent => d !! path = None
  | Did (Disk (RenamePath from _)) None => is_Some (d !! from)
  | _ => True
  end.
Definition truthful d (h : story) : Prop := ∀ h1 e h2, h = h1 ++ e :: h2 → fits (disk_after d h1) e.

(** The postconditions of a program on a truthful disk, among runs whose happenings are
    [good]. *)
Fixpoint dwp {A} (good : happening → Prop) (p : act A) (Q : A → disk → Prop) d : Prop :=
  match p with
  | Return a => Q a d
  | Call c k => ∀ x, fits d (Did c x) → good (Did c x) → dwp good (k x) Q (disk_step d (Did c x))
  | Memory T f k => ∀ x, dwp good (k x) Q d
  end.

Lemma disk_after_app d h1 h2 : disk_after d (h1 ++ h2) = disk_after (disk_after d h1) h2.
Proof. apply foldl_app. Qed.

Lemma dwp_adequate {A} good (w : world) (p : act A) Q m d0 h :
  dwp good p Q (disk_after d0 h) →
  let run := act_run w p m h in
  truthful d0 run.2 → Forall good run.2 → Q run.1.1 (disk_after d0 run.2).
Proof.
  intros Hp run. subst run. revert m h Hp. induction p as [a|c k IH|U f k IH]; intros m h Hp Ht Hg; simpl in *; [done| |].
  - assert (h ++ [Did c (w h c)] `prefix_of` (act_run w (k (w h c)) m (h ++ [Did c (w h c)])).2) as [l Hl].
    { clear. generalize (h ++ [Did c (w h c)]) as h1. generalize (k (w h c)) as q. intros q. revert m.
      induction q as [a|c' k' IH|U f k' IH]; intros m h1; simpl; [done| |].
      - etrans; [|apply IH]. by exists [Did c' (w h1 c')].
      - destruct (f m). apply IH. }
    apply IH; [|done|done]. rewrite disk_after_app. apply Hp.
    + apply (Ht h (Did c (w h c)) l). rewrite Hl. by rewrite <- app_assoc.
    + rewrite Hl, <- app_assoc in Hg. apply Forall_app in Hg as [_ Hg]. by inversion_clear Hg.
  - destruct (f m) as [x m']. by apply IH.
Qed.

Section rules.
Context {A B : Type} (good : happening → Prop).
Lemma dwp_bind (p : act A) (f : A → act B) Q d : dwp good p (λ a, dwp good (f a) Q) d → dwp good (p ≫= f) Q d.
Proof. revert d. induction p as [a|c k IH|U g k IH]; intros d; simpl; [done| |]; intros Hk x; auto. Qed.
Lemma dwp_mono (p : act A) (Q Q' : A → disk → Prop) d :
  (∀ a d', Q a d' → Q' a d') → dwp good p Q d → dwp good p Q' d.
Proof. intros HQ. revert d. induction p as [a|c k IH|U g k IH]; intros d; simpl; [by auto| |]; intros Hk x; auto. Qed.
Lemma dwp_call (c : call) (f : answer c → act B) Q d :
  (∀ x, fits d (Did c x) → good (Did c x) → dwp good (f x) Q (disk_step d (Did c x))) → dwp good (call_ c ≫= f) Q d.
Proof. done. Qed.
(** A hypothesis of the postcondition only. *)
Lemma dwp_imply (H : Prop) (p : act A) (Q : A → disk → Prop) d :
  (H → dwp good p Q d) → dwp good p (λ a d, H → Q a d) d.
Proof. revert d. induction p as [a|c k IH|U g k IH]; intros d; simpl; [done| |]; intros Hk; intros; auto. Qed.
End rules.

(** ** The paths of a swap *)

Section swapping.
Context (root ns project : string).
Notation host v := (HostPath root ns project v).
Definition displaced_path (live : string) : string := (live ++ displacedSuffix)%string.

(** The elements of the two paths of a volume. *)
Lemma host_elements v live :
  host v = Got live →
  split_slash live = EmptyString :: elements_of root ++ [volumesDir; ns; project; v; dataDir] ∧
  split_slash (displaced_path live) =
    EmptyString :: elements_of root ++ [volumesDir; ns; project; v; (dataDir ++ displacedSuffix)%string].
Proof.
  intros Hv. pose proof (HostPath_cases root ns project v) as H. rewrite Hv in H. destruct H as [(Hvv & Ha & Hr) ->].
  unfold valid_volume in Hvv. rewrite !Forall_cons in Hvv. destruct Hvv as (H1 & H2 & H3 & _).
  assert (split_slash (Clean root) = EmptyString :: elements_of root) as Hroot.
  { pose proof (elements_plain root Ha) as Hes. rewrite Clean_abs in Hr |- * by done.
    destruct (elements_of root) as [|e es]; [done|]. change ("/" ++ ?x)%string with (EmptyString ++ "/" ++ x)%string.
    rewrite split_app, split_Join; [done| |done]. eapply Forall_impl; [exact Hes|by intros ? []]. }
  assert (∀ x, no_slash x → split_slash (Clean root ++ "/" ++ Join [volumesDir; ns; project; v; x] "/")%string =
    EmptyString :: elements_of root ++ [volumesDir; ns; project; v; x]) as Hsplit.
  { intros x Hx. rewrite split_app, Hroot, split_Join; [done| |done].
    repeat constructor; first [by apply valid_plain|by vm_compute|exact Hx]. }
  split; [by apply Hsplit|]. rewrite <- Hsplit by (by vm_compute). f_equal. unfold displaced_path, volume_path. simpl.
  by rewrite !append_assoc.
Qed.
Lemma host_displaced v v' live live' : host v = Got live → host v' = Got live' → live ≠ displaced_path live'.
Proof.
  intros Hv Hv' He. apply host_elements in Hv as [Hv _]. apply host_elements in Hv' as [_ Hv'].
  rewrite He, Hv' in Hv. injection Hv as Hv. by apply app_inv_head in Hv.
Qed.
Lemma host_inj v v' live : host v = Got live → host v' = Got live → v = v'.
Proof.
  intros Hv Hv'. pose proof (HostPath_exact root ns project v') as H. rewrite Hv' in H. destruct H as (_ & _ & H).
  by destruct (H ns project v Hv) as (_ & _ & ->).
Qed.
Lemma displaced_inj live live' : displaced_path live = displaced_path live' → live = live'.
Proof. apply append_inj_l. Qed.

(** The undoing of a swap works: the restored data of a volume can be removed, and what
    was set aside be moved back. *)
Definition undo_works (vs : list string) (e : happening) : Prop :=
  match e with
  | Did (Disk (RemoveTree path)) x => (∃ v, v ∈ vs ∧ host v = Got path) → x = None
  | Did (Disk (RenamePath from to)) x => from = displaced_path to → x = None
  | _ => True
  end.

Context (staged : list (string * string)).

(** Each volume is staged once, in a directory of its own, apart from all live data. *)
Definition separate : Prop :=
  NoDup staged.*1 ∧ NoDup staged.*2 ∧
  ∀ v dir v' live, (v, dir) ∈ staged → v' ∈ staged.*1 → host v' = Got live → dir ≠ live ∧ dir ≠ displaced_path live.

(** The directories a swap is about. *)
Definition touched (path : string) : Prop :=
  path ∈ staged.*2 ∨ ∃ v live, v ∈ staged.*1 ∧ host v = Got live ∧ (path = live ∨ path = displaced_path live).

Section swap.
Context (good : happening → Prop) (d0 : disk).
Notation undoes := (∀ e, good e → undo_works staged.*1 e).

Definition swapped d (vd : string * string) (s : swap) : Prop :=
  host vd.1 = Got (sw_live s) ∧ d !! sw_live s = d0 !! vd.2 ∧
  match sw_displaced s with
  | Some dis => dis = displaced_path (sw_live s) ∧ d !! dis = d0 !! sw_live s ∧ is_Some (d0 !! sw_live s)
  | None => d0 !! sw_live s = None
  end.

Lemma dwp_rollback done d :
  (∀ s, s ∈ done → ∃ v, v ∈ staged.*1 ∧ host v = Got (sw_live s)) → NoDup (sw_live <$> done) →
  (∀ s, s ∈ done → match sw_displaced s with
     | Some dis => dis = displaced_path (sw_live s) ∧ d !! dis = d0 !! sw_live s ∧ is_Some (d0 !! sw_live s)
     | None => d0 !! sw_live s = None
     end) →
  undoes →
  dwp good (rollback done) (λ _ d',
    (∀ s, s ∈ done → d' !! sw_live s = d0 !! sw_live s) ∧
    ∀ path, (∀ s, s ∈ done → path ≠ sw_live s ∧ path ≠ displaced_path (sw_live s)) → d' !! path = d !! path) d.
Proof.
  intros Hv Hnd Hd Hu. revert d Hd. induction done as [|s done IH]; intros d Hd.
  { split; [intros s Hs; by apply elem_of_nil in Hs|done]. }
  rewrite fmap_cons, NoDup_cons in Hnd. destruct Hnd as [Hs Hnd].
  assert (∀ s', s' ∈ done → sw_live s' ≠ sw_live s) as Hlive.
  { intros s' Hs' He. apply Hs. rewrite <- He. by apply list_elem_of_fmap_2. }
  destruct (Hv s) as (v & Hvs & Hhs); [by left|].
  assert (∀ s', s' ∈ done → displaced_path (sw_live s') ≠ sw_live s ∧ displaced_path (sw_live s) ≠ sw_live s' ∧
    displaced_path (sw_live s') ≠ displaced_path (sw_live s)) as Hdis.
  { intros s' Hs'. destruct (Hv s') as (v' & _ & Hh'); [by right|]. split_and!.
    - intros He. by eapply (host_displaced v v').
    - intros He. by eapply (host_displaced v' v).
    - intros He%displaced_inj. by eapply Hlive. }
  assert (∀ d', d' !! sw_live s = d0 !! sw_live s →
    (∀ path, path ≠ sw_live s → path ≠ displaced_path (sw_live s) → d' !! path = d !! path) →
    dwp good (rollback done) (λ _ d',
      (∀ s', s' ∈ s :: done → d' !! sw_live s' = d0 !! sw_live s') ∧
      ∀ path, (∀ s', s' ∈ s :: done → path ≠ sw_live s' ∧ path ≠ displaced_path (sw_live s')) → d' !! path = d !! path) d')
    as Hrest.
  { intros d' Hl Hf. eapply dwp_mono; [|apply IH; [by intros s' Hs'; apply Hv; right|done|]].
    - intros _ d2 [H1 H2]. split.
      + intros s' [->|Hs']%elem_of_cons; [|by apply H1]. rewrite H2; [done|]. intros s' Hs'. split.
        * intros He. by eapply Hlive.
        * intros He. by destruct (Hdis s' Hs') as (? & _).
      + intros path Hp. rewrite H2 by (intros s' Hs'; apply Hp; by right). apply Hf; by apply Hp; left.
    - intros s' Hs'. specialize (Hd s'). destruct (sw_displaced s') as [dis|]; [|apply Hd; by right].
      destruct Hd as (-> & He & Hi); [by right|]. split_and!; [done| |done].
      destruct (Hdis s' Hs') as (? & _ & ?). by rewrite Hf. }
  apply dwp_call. intros x _ Hx%Hu. simpl in Hx. rewrite Hx by eauto. apply dwp_bind. simpl disk_step.
  pose proof (Hd s) as Hds. destruct (sw_displaced s) as [dis|].
  - destruct Hds as (-> & He & [t Ht]); [by left|]. apply dwp_call. intros y _ Hy%Hu. simpl in Hy. rewrite Hy by done.
    simpl. rewrite lookup_delete_ne by (intros Heq; by eapply (host_displaced v v)). rewrite He, Ht. apply Hrest.
    + by rewrite lookup_insert_eq.
    + intros path H1 H2. by rewrite lookup_insert_ne, !lookup_delete_ne.
  - apply Hrest; [rewrite lookup_delete_eq; symmetry; apply Hds; by left|].
    intros path H1 H2. by rewrite lookup_delete_ne.
Qed.

Lemma dwp_swap_one v dir d :
  v ∈ staged.*1 →
  (∀ live, host v = Got live → dir ≠ live ∧ dir ≠ displaced_path live ∧ d !! live = d0 !! live) →
  d !! dir = d0 !! dir →
  dwp good (swap_one root ns project v dir) (λ r d',
    match r with
    | Got s => swapped d' (v, dir) s ∧ is_Some (d0 !! dir) ∧
        ∀ path, path ≠ sw_live s → path ≠ displaced_path (sw_live s) → path ≠ dir → d' !! path = d !! path
    | Bad _ => undoes → ∀ path, (∀ live, host v = Got live → path ≠ displaced_path live) → d' !! path = d !! path
    end) d.
Proof.
  intros Hv Hlive Hdir. unfold swap_one, swapped. cbn [fst snd]. destruct (host v) as [live|e] eqn:Eh; [|by intros _].
  destruct (Hlive live eq_refl) as (Hd1 & Hd2 & Hl). apply dwp_call. intros [e|] _ _; simpl disk_step; [by intros _|].
  assert (live ≠ displaced_path live) as Hne by by eapply host_displaced.
  (* what follows setting the live data aside *)
  assert (∀ displaced d1, match displaced with
      | Some dis => dis = displaced_path live ∧ d1 !! dis = d0 !! live ∧ is_Some (d0 !! live) ∧ d1 !! live = None
      | None => d0 !! live = None ∧ d1 !! live = None
      end →
    (∀ path, path ≠ live → path ≠ displaced_path live → d1 !! path = d !! path) →
    dwp good (call_ (Disk (RenamePath dir live)) ≫= λ err : option failure,
      match err with
      | Some e =>
          (match displaced with Some d => call_ (Disk (RenamePath d live)) ≫= λ _, skip | None => skip end) ≫= λ _,
          Return (Bad (wrap ("restore: swap in " ++ Quote v ++ ": ")%string e))
      | None => Return (Got {| sw_live := live; sw_displaced := displaced |})
      end) (λ r d',
    match r with
    | Got s => (Got live = Got (sw_live s) ∧ d' !! sw_live s = d0 !! dir ∧
        match sw_displaced s with
        | Some dis => dis = displaced_path (sw_live s) ∧ d' !! dis = d0 !! sw_live s ∧ is_Some (d0 !! sw_live s)
        | None => d0 !! sw_live s = None
        end) ∧ is_Some (d0 !! dir) ∧
        ∀ path, path ≠ sw_live s → path ≠ displaced_path (sw_live s) → path ≠ dir → d' !! path = d !! path
    | Bad _ => undoes → ∀ path, (∀ live', Got live = Got live' → path ≠ displaced_path live') → d' !! path = d !! path
    end) d1) as Hin.
  { intros displaced d1 Ha Hf. apply dwp_call. intros [e|] Hfit _.
    - simpl disk_step. apply dwp_bind. destruct displaced as [dis|].
      + destruct Ha as (-> & He & [t Ht] & Hn). apply dwp_call. intros x _ Hx. simpl. intros Hu path Hp.
        specialize (Hp live eq_refl). apply Hu in Hx. simpl in Hx. rewrite Hx, He, Ht by done.
        destruct (decide (path = live)) as [->|Hpl]; [by rewrite lookup_insert_eq, Hl|].
        rewrite lookup_insert_ne, lookup_delete_ne by done. by apply Hf.
      + destruct Ha as [Ha1 Ha2]. simpl. intros _ path Hp. specialize (Hp live eq_refl).
        destruct (decide (path = live)) as [->|Hpl]; [by rewrite Ha2, Hl, Ha1|by apply Hf].
    - simpl. simpl in Hfit. assert (d1 !! dir = d0 !! dir) as Hdir1 by (by rewrite Hf).
      destruct Hfit as [t Ht]. rewrite Ht. rewrite <- Hdir1. split_and!; [done|by rewrite lookup_insert_eq| |by eexists|].
      + destruct displaced as [dis|]; [|tauto]. destruct Ha as (-> & He & Hi & Hn). split_and!; [done| |done].
        by rewrite lookup_insert_ne, lookup_delete_ne.
      + intros path H1 H2 H3. rewrite lookup_insert_ne, lookup_delete_ne by done. by apply Hf. }
  apply dwp_bind. unfold set_aside. apply dwp_call. intros [| |e] Hfit _; simpl disk_step; [| |by intros _].
  - apply dwp_call. intros x _ _. set (d1 := disk_step _ _).
    assert (∀ path, path ≠ displaced_path live → d1 !! path = d !! path) as Hf1.
    { intros path Hp. subst d1. simpl. destruct x; [done|by rewrite lookup_delete_ne]. }
    apply dwp_call. intros [e|] Hfit2 _; simpl disk_step.
    + simpl. intros _ path Hp. by apply Hf1, Hp.
    + simpl in Hfit2. destruct Hfit2 as [t Ht]. change (live ++ displacedSuffix)%string with (displaced_path live). apply (Hin (Some _)); simpl; rewrite Ht.
      * rewrite Hf1 in Ht by done. split_and!; [done| |rewrite <- Hl; by eexists|].
        -- by rewrite lookup_insert_eq, <- Hl, Ht.
        -- by rewrite lookup_insert_ne, lookup_delete_eq.
      * intros path H1 H2. rewrite lookup_insert_ne, lookup_delete_ne by done. by apply Hf1.
  - simpl in Hfit. apply (Hin None); [by rewrite <- Hl|done].
Qed.

(** Half way: what is done is swapped, the rest is as it was. *)
Definition half_way d (sd rest : list (string * string)) (done : list swap) : Prop :=
  Forall2 (swapped d) sd done ∧
  (∀ v dir, (v, dir) ∈ rest → d !! dir = d0 !! dir ∧ ∀ live, host v = Got live → d !! live = d0 !! live) ∧
  (∀ path, ¬ touched path → d !! path = d0 !! path) ∧ (∀ v dir, (v, dir) ∈ sd → is_Some (d0 !! dir)).

Definition all_new d : Prop :=
  (∀ v dir, (v, dir) ∈ staged → ∃ live, host v = Got live ∧ is_Some (d0 !! dir) ∧ d !! live = d0 !! dir) ∧
  (∀ path, ¬ touched path → d !! path = d0 !! path).
Definition all_old d : Prop :=
  (∀ v live, v ∈ staged.*1 → host v = Got live → d !! live = d0 !! live) ∧
  (∀ path, ¬ touched path → d !! path = d0 !! path).

Lemma touched_live v live : v ∈ staged.*1 → host v = Got live → touched live.
Proof. intros. right. by exists v, live; auto. Qed.
Lemma touched_displaced v live : v ∈ staged.*1 → host v = Got live → touched (displaced_path live).
Proof. intros. right. by exists v, live; auto. Qed.
Lemma touched_dir v dir : (v, dir) ∈ staged → touched dir.
Proof. intros H. left. apply list_elem_of_fmap. by exists (v, dir). Qed.

(** The next volume does not disturb the ones before and after it. *)
Lemma half_way_next d d' v dir sd rest done s :
  separate → staged = sd ++ (v, dir) :: rest → half_way d sd ((v, dir) :: rest) done →
  swapped d' (v, dir) s → is_Some (d0 !! dir) →
  (∀ path, path ≠ sw_live s → path ≠ displaced_path (sw_live s) → path ≠ dir → d' !! path = d !! path) →
  half_way d' (sd ++ [(v, dir)]) rest (done ++ [s]).
Proof.
  intros (Hnd1 & Hnd2 & Hsep) Hst (Hsw & Hrest & Hfr & Hthere) Hs Hi Hf. pose proof Hs as (Hh & _). cbn [fst] in Hh.
  assert (v ∈ staged.*1) as Hv by (rewrite Hst, fmap_app; set_solver).
  assert (∀ v1 dir1, (v1, dir1) ∈ sd ++ rest → v1 ≠ v ∧ dir1 ≠ dir ∧ (v1, dir1) ∈ staged ∧ v1 ∈ staged.*1) as Hoth.
  { intros v1 dir1 Hin. assert ((v1, dir1) ∈ staged) as Hin' by (rewrite Hst; set_solver).
    rewrite Hst, fmap_app, fmap_cons in Hnd1, Hnd2.
    rewrite <- Permutation_middle, NoDup_cons, <- fmap_app in Hnd1, Hnd2. destruct Hnd1 as [Hn1 _], Hnd2 as [Hn2 _].
    split_and!; [| |done|].
    - intros ->. apply Hn1. apply list_elem_of_fmap. by exists (v, dir1).
    - intros ->. apply Hn2. apply list_elem_of_fmap. by exists (v1, dir).
    - apply list_elem_of_fmap. by exists (v1, dir1). }
  assert ((v, dir) ∈ staged) as Hin0 by (rewrite Hst; set_solver).
  assert (∀ v1 dir1 live1, (v1, dir1) ∈ sd ++ rest → host v1 = Got live1 →
    d' !! live1 = d !! live1 ∧ d' !! displaced_path live1 = d !! displaced_path live1) as Hl1.
  { intros v1 dir1 live1 Hin Hh1. destruct (Hoth _ _ Hin) as (Hnv & _ & _ & Hv1).
    assert (live1 ≠ sw_live s) as Hne by (intros ->; by apply Hnv, (host_inj v1 v (sw_live s))).
    destruct (Hsep v dir v1 live1 Hin0 Hv1 Hh1). split; apply Hf; try done.
    - by eapply host_displaced.
    - intros He. by eapply (host_displaced v v1).
    - intros He%displaced_inj. done. }
  split_and!.
  - apply Forall2_app; [|by constructor]. eapply Forall2_impl_elem; [exact Hsw|].
    intros [v1 dir1] s1 Hin (H1 & H2 & H3). cbn [fst snd] in *.
    destruct (Hl1 v1 dir1 (sw_live s1)) as [He1 He2]; [set_solver|done|]. unfold swapped. cbn [fst snd].
    split_and!; [done|by rewrite He1|]. destruct (sw_displaced s1); [|done]. destruct H3 as (-> & H3 & H4).
    by rewrite He2.
  - intros v1 dir1 Hin. destruct (Hoth v1 dir1) as (Hnv & Hnd & Hst1 & _); [set_solver|].
    destruct (Hrest v1 dir1) as [He1 He2]; [by right|]. split.
    + rewrite <- He1. destruct (Hsep v1 dir1 v (sw_live s) Hst1 Hv Hh). by apply Hf.
    + intros live1 Hh1. rewrite <- (He2 live1 Hh1). destruct (Hl1 v1 dir1 live1) as [He _]; [set_solver|done..].
  - intros path Hp. rewrite <- Hfr by done. apply Hf; intros ->; apply Hp.
    + by eapply touched_live.
    + by eapply touched_displaced.
    + by eapply touched_dir.
  - intros v1 dir1 [Hin|[= -> ->]%list_elem_of_singleton]%elem_of_app; [by eapply Hthere|done].
Qed.

Lemma swapped_lives d sd done :
  Forall2 (swapped d) sd done → ∀ s, s ∈ done → ∃ vd, vd ∈ sd ∧ swapped d vd s.
Proof.
  intros H s Hs. apply list_elem_of_lookup in Hs as [i Hi]. destruct (Forall2_lookup_r _ _ _ _ _ H Hi) as (vd & Hvd & Hsw).
  exists vd. split; [|done]. by eapply list_elem_of_lookup_2.
Qed.
Lemma swapped_nodup d sd done : NoDup sd.*1 → Forall2 (swapped d) sd done → NoDup (sw_live <$> done).
Proof.
  intros Hnd H. induction H as [|vd s sd done Hs H IH]; [constructor|].
  apply NoDup_cons in Hnd as [Hn Hnd]. apply NoDup_cons. split; [|by apply IH].
  intros (s' & He & Hs')%list_elem_of_fmap. destruct (swapped_lives _ _ _ H s' Hs') as (vd' & Hvd & Hh' & _).
  destruct Hs as (Hh & _). rewrite He in Hh. apply Hn. rewrite (host_inj _ _ _ Hh Hh'). by apply list_elem_of_fmap_2.
Qed.

(** A volume failed: the ones before are undone, and all is as it was. *)
Lemma dwp_undo d d' v dir sd rest done :
  separate → staged = sd ++ (v, dir) :: rest → half_way d sd ((v, dir) :: rest) done → undoes →
  (∀ path, (∀ live, host v = Got live → path ≠ displaced_path live) → d' !! path = d !! path) →
  dwp good (rollback (rev done)) (λ _ d', all_old d') d'.
Proof.
  intros (Hnd & _ & _) Hst (Hsw & Hrest & Hfr & _) Hu Hf.
  assert (NoDup sd.*1) as Hnds by (rewrite Hst, fmap_app, NoDup_app in Hnd; tauto).
  assert (∀ s, s ∈ done → ∃ v1, v1 ≠ v ∧ v1 ∈ sd.*1 ∧ v1 ∈ staged.*1 ∧ host v1 = Got (sw_live s)) as Hdone.
  { intros s Hs. destruct (swapped_lives _ _ _ Hsw s Hs) as ([v1 dir1] & Hin & Hh & _). exists v1.
    assert (v1 ∈ sd.*1) as Hv1 by (apply list_elem_of_fmap; by exists (v1, dir1)).
    split_and!; [|done|rewrite Hst, fmap_app; set_solver|done].
    intros ->. rewrite Hst, fmap_app, NoDup_app in Hnd. destruct Hnd as (_ & Hd & _). apply (Hd v); [done|]. by left. }
  eapply dwp_mono; [|apply dwp_rollback; [| | |done]].
  - intros [] d2 [H1 H2]. split.
    + intros v2 live Hv2 Hh2. destruct (decide (live ∈ sw_live <$> done)) as [(s & -> & Hs)%list_elem_of_fmap|Hn].
      { apply H1. by apply elem_of_rev. }
      assert (∀ s, s ∈ rev done → live ≠ sw_live s ∧ live ≠ displaced_path (sw_live s)) as Hn'.
      { intros s Hs%elem_of_rev_inv. destruct (Hdone s Hs) as (v1 & _ & _ & _ & Hh1). split.
        - intros ->. apply Hn. by apply list_elem_of_fmap_2.
        - by eapply host_displaced. }
      rewrite H2 by done. rewrite Hf by (intros live' Hh'; by eapply host_displaced).
      assert (v2 ∉ sd.*1) as Hns.
      { intros ([v2' dir2] & -> & Hin)%list_elem_of_fmap. apply list_elem_of_lookup in Hin as [i Hi].
        destruct (Forall2_lookup_l _ _ _ _ _ Hsw Hi) as (s & Hs & Hh & _). simpl in Hh, Hh2. rewrite Hh2 in Hh.
        injection Hh as ->. apply Hn. apply list_elem_of_fmap_2. by eapply list_elem_of_lookup_2. }
      assert (v2 ∈ ((v, dir) :: rest).*1) as ([v2' dir2] & -> & Hin)%list_elem_of_fmap.
      { rewrite Hst, fmap_app in Hv2. by apply elem_of_app in Hv2 as [?|?]. }
      by apply (Hrest v2' dir2).
    + intros path Hp. assert (v ∈ staged.*1) as Hv by (rewrite Hst, fmap_app; set_solver). rewrite H2.
      * rewrite Hf; [by apply Hfr|]. intros live Hh ->. apply Hp. by eapply touched_displaced.
      * intros s Hs%elem_of_rev_inv. destruct (Hdone s Hs) as (v1 & _ & _ & Hv1 & Hh1).
        split; intros ->; apply Hp; [by eapply touched_live|by eapply touched_displaced].
  - intros s Hs%elem_of_rev_inv. destruct (Hdone s Hs) as (v1 & _ & _ & Hv1 & Hh1). by exists v1.
  - rewrite <- (Permutation_rev done). by eapply swapped_nodup.
  - intros s Hs%elem_of_rev_inv. destruct (Hdone s Hs) as (v1 & Hne & _ & _ & Hh1).
    destruct (swapped_lives _ _ _ Hsw s Hs) as (vd & _ & _ & _ & Hdis). destruct (sw_displaced s); [|done].
    destruct Hdis as (-> & Hdis & Hi). split_and!; [done| |done]. rewrite Hf; [done|].
    intros live Hh He%displaced_inj. apply Hne. rewrite He in Hh1. by eapply host_inj.
Qed.

Lemma dwp_swap_each sd rest done d :
  separate → staged = sd ++ rest → half_way d sd rest done →
  dwp good (swap_each root ns project rest done) (λ err d',
    match err with None => all_new d' | Some _ => undoes → all_old d' end) d.
Proof.
  intros Hsep. revert sd done d. induction rest as [|[v dir] rest IH]; intros sd done d Hst Hw.
  - rewrite app_nil_r in Hst. destruct Hw as (Hsw & _ & Hfr & Hthere). cbn [swap_each]. apply dwp_bind.
    assert (∀ ss d1, (∀ s, s ∈ ss → s ∈ done) → (∀ path, (∀ s, s ∈ done → path ≠ displaced_path (sw_live s)) → d1 !! path = d !! path) →
      dwp good (for_each ss (λ s, match sw_displaced s with
        | Some d => call_ (Disk (RemoveTree d)) ≫= λ _, skip | None => skip end))
        (λ _ d', ∀ path, (∀ s, s ∈ done → path ≠ displaced_path (sw_live s)) → d' !! path = d !! path) d1) as Hclean.
    { intros ss. induction ss as [|s ss IHs]; intros d1 Hin Hf; [done|]. cbn [for_each]. apply dwp_bind.
      destruct (swapped_lives _ _ _ Hsw s) as (vd & _ & _ & _ & Hdis); [apply Hin; by left|].
      destruct (sw_displaced s) as [dis|].
      - destruct Hdis as (-> & _). apply dwp_call. intros x _ _. cbn [dwp skip]. apply IHs; [by intros s' Hs'; apply Hin; right|].
        intros path Hp. simpl. destruct x; [by apply Hf|]. rewrite lookup_delete_ne; [by apply Hf|].
        intros <-. eapply Hp; [|done]. apply Hin. by left.
      - apply IHs; [by intros s' Hs'; apply Hin; right|done]. }
    eapply dwp_mono; [|apply (Hclean done d); done]. intros [] d' Hf. cbn [dwp]. split.
    + intros v dir Hin. rewrite Hst in Hin. pose proof (Hthere v dir Hin) as Hi. apply list_elem_of_lookup in Hin as [i Hvd].
      destruct (Forall2_lookup_l _ _ _ _ _ Hsw Hvd) as (s & Hs & Hh & He & _). cbn [fst snd] in *.
      exists (sw_live s). split_and!; [done|done|]. rewrite Hf; [done|]. intros s' Hs'.
      destruct (swapped_lives _ _ _ Hsw s' Hs') as (vd' & _ & Hh' & _). by eapply host_displaced.
    + intros path Hp. rewrite Hf; [by apply Hfr|]. intros s Hs ->. apply Hp.
      destruct (swapped_lives _ _ _ Hsw s Hs) as ([v1 dir1] & Hin & Hh & _). rewrite <- Hst in Hin.
      apply touched_displaced with v1; [|done]. apply list_elem_of_fmap. by exists (v1, dir1).
  - cbn [swap_each]. apply dwp_bind. assert ((v, dir) ∈ staged) as Hin by (rewrite Hst; set_solver).
    assert (v ∈ staged.*1) as Hv by (apply list_elem_of_fmap; by exists (v, dir)).
    pose proof Hw as (_ & Hrest & _). destruct (Hrest v dir) as [Hdir Hlive]; [by left|].
    pose proof Hsep as (_ & _ & Hs). eapply dwp_mono; [|apply dwp_swap_one; [done| |done]].
    + intros [s|e] d' Hr; cbv beta iota.
      * destruct Hr as (Hsw & Hi & Hf). apply (IH (sd ++ [(v, dir)])); [by rewrite <- app_assoc|].
        by eapply half_way_next.
      * apply dwp_bind. cbn [dwp]. apply dwp_imply. intros Hu. eapply dwp_undo; [done..|]. by apply Hr.
    + intros live Hh. destruct (Hs v dir v live Hin Hv Hh). split_and!; [done|done|by apply Hlive].
Qed.
End swap.
End swapping.
End disks.

(** ** Where a generation is staged *)

Lemma plain_joined root xs :
  IsAbs root = true → Forall plain xs → xs ≠ [] →
  path_join (Clean root :: xs) = ("/" ++ Join (elements_of root ++ xs) "/")%string.
Proof.
  intros Ha Hxs Hne. cbn [path_join]. rewrite decide_False by (by rewrite Clean_abs).
  destruct xs as [|x xs]; [done|]. rewrite Join_cons. by apply Clean_below.
Qed.

Definition staging_path (root ns project : string) : list string :=
  elements_of root ++ [stagingRoot; ns; project].

Lemma StagingDir_cases root ns project staging :
  StagingDir root ns project = Got staging →
  IsAbs root = true ∧ ValidateName ns = None ∧ ValidateName project = None ∧
  staging = ("/" ++ Join (staging_path root ns project) "/")%string.
Proof.
  unfold StagingDir, ProjectDir. pose proof (HostPath_cases root ns project "x") as H.
  destruct (HostPath root ns project "x") as [path|e]; [|done]. destruct H as [(Hv & Ha & _) _].
  unfold valid_volume in Hv. rewrite !Forall_cons in Hv. destruct Hv as (Hn & Hp & _).
  set (dir := path_join [Clean root; _; _; _]). intros [= <-]. subst dir.
  split_and!; [done..|]. apply plain_joined; [done| |done].
  repeat constructor; first [by apply valid_plain|by vm_compute].
Qed.

Lemma elements_joined xs : Forall plain xs → xs ≠ [] → elements_of ("/" ++ Join xs "/")%string = xs.
Proof.
  intros Hxs Hne. unfold elements_of. change (IsAbs ("/" ++ Join xs "/")%string) with true.
  change ("/" ++ Join xs "/")%string with (EmptyString ++ "/" ++ Join xs "/")%string. rewrite split_app.
  rewrite split_Join; [|eapply Forall_impl; [exact Hxs|by intros ? []]|done].
  rewrite foldl_app. simpl foldl at 2. rewrite clean_steps_keep by done. by rewrite app_nil_r, rev_involutive.
Qed.
Lemma Clean_joined xs : Forall plain xs → xs ≠ [] → Clean ("/" ++ Join xs "/")%string = ("/" ++ Join xs "/")%string.
Proof. intros Hxs Hne. by rewrite Clean_abs, elements_joined. Qed.

Lemma extractedDir_path root ns project staging v :
  StagingDir root ns project = Got staging → ValidateName v = None →
  extractedDir staging v = ("/" ++ Join (staging_path root ns project ++ ["extracted"%string; v]) "/")%string.
Proof.
  intros (Ha & Hn & Hp & ->)%StagingDir_cases Hv. unfold extractedDir.
  assert (Forall plain (staging_path root ns project)) as Hpl.
  { apply Forall_app. split; [by apply elements_plain|]. repeat constructor; first [by apply valid_plain|by vm_compute]. }
  assert (staging_path root ns project ≠ []) as Hne by (unfold staging_path; by destruct (elements_of root)).
  rewrite <- (Clean_joined _ Hpl Hne). rewrite plain_joined; [|done| |done].
  - by rewrite elements_joined.
  - repeat constructor; first [by apply valid_plain|by vm_compute].
Qed.

(** The extracted volumes are apart from each other and from all live data. *)
Lemma extracted_separate root ns project staging (vs : list string) :
  StagingDir root ns project = Got staging → NoDup vs → Forall (λ v, ValidateName v = None) vs →
  separate root ns project (staged_pairs staging vs).
Proof.
  intros Hst Hnd Hv. rewrite Forall_forall in Hv. pose proof (StagingDir_cases _ _ _ _ Hst) as (Ha & Hn & Hp & _).
  assert (∀ v, v ∈ vs → Forall no_slash (staging_path root ns project ++ ["extracted"%string; v])) as Hns.
  { intros v Hin. apply Forall_app. split.
    - apply Forall_app. split; [eapply Forall_impl; [by apply elements_plain|by intros ? []]|].
      repeat constructor; first [by apply valid_plain|by vm_compute].
    - repeat constructor; first [by apply valid_plain, Hv|by vm_compute]. }
  assert (∀ v, v ∈ vs → split_slash (extractedDir staging v) =
    EmptyString :: elements_of root ++ [stagingRoot; ns; project; "extracted"%string; v]) as Hsplit.
  { intros v Hin. rewrite (extractedDir_path root ns project) by auto.
    change ("/" ++ Join ?xs "/")%string with (EmptyString ++ "/" ++ Join xs "/")%string.
    rewrite split_app, split_Join; [|by apply Hns|by destruct (staging_path _ _ _)].
    unfold staging_path. by rewrite <- app_assoc. }
  unfold staged_pairs. split_and!.
  - rewrite <- list_fmap_compose. by rewrite list_fmap_id.
  - rewrite <- list_fmap_compose. apply NoDup_fmap_2_strong; [|done]. intros v v' Hin Hin' He. simpl in He.
    apply (f_equal split_slash) in He. rewrite !Hsplit in He by done. injection He as He.
    apply app_inj_2 in He as [_ He]; [|done]. by injection He.
  - intros v dir v' live (v0 & [= -> ->] & Hin)%list_elem_of_fmap _ Hh. apply host_elements in Hh as [H1 H2].
    split; intros He; [rewrite <- He, Hsplit in H1 by done; rename H1 into H|rewrite <- He, Hsplit in H2 by done; rename H2 into H];
      injection H as H; by apply app_inv_head in H.
Qed.

(** *** The theorem *)

Lemma pairs_same {T} root ns project staging vs names (d0 d : gmap string T) :
  (∀ v, v ∈ vs ↔ v ∈ names) →
  (all_new root ns project (staged_pairs staging vs) d0 d → all_new root ns project (staged_pairs staging names) d0 d) ∧
  (all_old root ns project (staged_pairs staging vs) d0 d → all_old root ns project (staged_pairs staging names) d0 d) ∧
  ∀ e, undo_works root ns project names e → undo_works root ns project (staged_pairs staging vs).*1 e.
Proof.
  intros Hin.
  assert (∀ v, v ∈ (staged_pairs staging vs).*1 ↔ v ∈ (staged_pairs staging names).*1) as H1.
  { intros v. unfold staged_pairs. rewrite <- !list_fmap_compose, !list_elem_of_fmap. naive_solver. }
  assert (∀ x, x ∈ staged_pairs staging vs ↔ x ∈ staged_pairs staging names) as H0.
  { intros x. unfold staged_pairs. rewrite !list_elem_of_fmap. naive_solver. }
  assert (∀ path, touched root ns project (staged_pairs staging vs) path →
    touched root ns project (staged_pairs staging names) path) as Ht.
  { intros path [Hp|(v & live & Hv & H)]; [left|right; exists v, live; split; [by apply H1|done]].
    apply list_elem_of_fmap in Hp as (x & -> & Hx). apply list_elem_of_fmap_2. by apply H0. }
  split_and!.
  - intros [Ha Hb]. split; [|by eauto]. intros v dir Hvd. by apply Ha, H0.
  - intros [Ha Hb]. split; [|by eauto]. intros v live Hv. by apply Ha, H1.
  - intros [c x] He. destruct c; try done. destruct c; try done. simpl in *. intros (v & Hv & Hh). apply He.
    exists v. split; [|done]. apply H1, list_elem_of_fmap in Hv as ([v' dir] & -> & Hv).
    by apply list_elem_of_fmap in Hv as (? & [= -> ->] & ?).
Qed.

(** *** A disk, as a world

    It does what is asked unless [fails] says that this request fails now. *)
Definition disk_world {T : Type} (d0 : gmap string T) (fails : story → call → bool) : world := λ h c,
  match c return answer c with
  | Stat path =>
      if fails h (Stat path) then StatError (Text "input/output error")
      else if decide (is_Some (disk_after d0 h !! path)) then StatFound else StatAbsent
  | Disk c =>
      match c return disk_answer c with
      | RenamePath from to =>
          if fails h (Disk (RenamePath from to)) || negb (bool_decide (is_Some (disk_after d0 h !! from)))
          then Some (Text "rename failed") else None
      | MakeDirs path => if fails h (Disk (MakeDirs path)) then Some (Text "mkdir failed") else None
      | RemoveTree path => if fails h (Disk (RemoveTree path)) then Some (Text "remove failed") else None
      | c => disk_down c
      end
  | c => patient_world h c
  end.

Lemma disk_world_fits {T : Type} (d0 : gmap string T) fails h c :
  fits (disk_after d0 h) (Did c (disk_world d0 fails h c)).
Proof.
  destruct c; try done; simpl.
  - destruct c; try done. simpl. destruct (fails _ _); [done|]. simpl. by case_bool_decide.
  - destruct (fails _ _); [done|]. case_decide as Hs; [done|]. by apply eq_None_not_Some.
Qed.
Lemma disk_world_truthful {T A : Type} (d0 : gmap string T) fails (p : act A) m h :
  truthful d0 h → truthful d0 (act_run (disk_world d0 fails) p m h).2.
Proof.
  revert m h. induction p as [a|c k IH|U f k IH]; intros m h Ht; simpl; [done| |].
  - apply IH. intros h1 e h2 Heq. destruct h2 as [|e' h2 _] using rev_ind.
    + apply app_inj_tail in Heq as [<- <-]. apply disk_world_fits.
    + rewrite app_comm_cons, app_assoc in Heq. apply app_inj_tail in Heq as [-> _]. by eapply Ht.
  - destruct (f m). by apply IH.
Qed.

(** C18 (internal/agent/restore/restore.go, swapAll): a generation is swapped in as a
    whole. On a disk whose operations do what they say or fail without effect, in
    whatever order the volumes are ranged over and whichever operation fails: when the
    swap reports success, every volume holds what was extracted for it; when it reports
    an error, and what undoes it works, every volume holds what it held before, or
    nothing where there was nothing; and no directory other than the staged ones, the
    volumes' and those set aside beside them is different. *)
Theorem swap_all_or_nothing {order : MapOrder} {T : Type} (r : Restorer) (ns project staging : string)
    (names : list string) (d0 : gmap string T) (w : world) (m : memory) :
  let run := act_run w (swapAll r ns project (extracted staging names)) m [] in
  let d := disk_after d0 run.2 in
  StagingDir (rs_DataRoot r) ns project = Got staging →
  Forall (λ v, ValidateName v = None) names →
  truthful d0 run.2 →
  match run.1.1 with
  | None => all_new (rs_DataRoot r) ns project (staged_pairs staging names) d0 d
  | Some _ => Forall (undo_works (rs_DataRoot r) ns project names) run.2 →
              all_old (rs_DataRoot r) ns project (staged_pairs staging names) d0 d
  end.
Proof.
  intros run d Hst Hv Ht. destruct (ranged_extracted staging names) as (vs & Hr & Hnd & Hin).
  assert (separate (rs_DataRoot r) ns project (staged_pairs staging vs)) as Hsep.
  { apply extracted_separate; [done|done|]. rewrite Forall_forall in Hv |- *. intros v Hvs. by apply Hv, Hin. }
  destruct (pairs_same (rs_DataRoot r) ns project staging vs names d0 d Hin) as (Hn & Ho & Hu).
  assert (∀ good, Forall good run.2 → match run.1.1 with
    | None => all_new (rs_DataRoot r) ns project (staged_pairs staging vs) d0 d
    | Some _ => (∀ e, good e → undo_works (rs_DataRoot r) ns project (staged_pairs staging vs).*1 e) →
                all_old (rs_DataRoot r) ns project (staged_pairs staging vs) d0 d
    end) as Hrun.
  { intros good Hg. pose (Q := λ (err : option failure) (d' : gmap string T), match err with
      | None => all_new (rs_DataRoot r) ns project (staged_pairs staging vs) d0 d'
      | Some _ => (∀ e, good e → undo_works (rs_DataRoot r) ns project (staged_pairs staging vs).*1 e) →
                  all_old (rs_DataRoot r) ns project (staged_pairs staging vs) d0 d'
      end).
    refine (dwp_adequate good w _ Q m d0 [] _ Ht Hg). subst Q.
    unfold swapAll. rewrite Hr. apply (dwp_swap_each _ _ _ _ _ _ []); [done|done|]. split_and!; [constructor|by auto|done|].
    by intros v dir ?%elem_of_nil. }
  destruct run.1.1 as [e|].
  - intros Hg. by apply Ho, (Hrun _ Hg), Hu.
  - apply Hn, (Hrun (λ _, True)). by apply Forall_true.
Qed.

(** [db] held data before, [new] did not; the second rename into place fails. *)
Definition swap_example_disk : gmap string string :=
  {[ "/d/volumes/default/web/db/data" := "old db";
     "/d/restore-staging/default/web/extracted/db" := "restored db";
     "/d/restore-staging/default/web/extracted/new" := "restored new";
     "/d/volumes/default/other/db/data" := "another project" ]}%string.
Definition fails_at (n : nat) (h : story) (c : call) : bool :=
  match c with
  | Disk (RenamePath _ _) => Nat.eqb (length h) n
  | _ => false
  end.
Definition swap_example (n : nat) : option failure * memory * story :=
  act_run (disk_world swap_example_disk (fails_at n))
    (swapAll (order := map_order_ascending) (NewRestorer "/d" 0 0 "n1") "default" "web"
       (extracted "/d/restore-staging/default/web" ["db"; "new"]%string))
    {| mem_Recovery := None; mem_Orphans := None |} [].

Lemma swap_all_or_nothing_witness :
  (swap_example 100).1.1 = None ∧
  all_new "/d" "default" "web" (staged_pairs "/d/restore-staging/default/web" ["db"; "new"]%string) swap_example_disk
    (disk_after swap_example_disk (swap_example 100).2) ∧
  disk_after swap_example_disk (swap_example 100).2 !! "/d/volumes/default/web/new/data"%string = Some "restored new"%string ∧
  is_Some (swap_example 7).1.1 ∧
  disk_after swap_example_disk (swap_example 7).2 !! "/d/volumes/default/web/db/data"%string = Some "old db"%string ∧
  disk_after swap_example_disk (swap_example 7).2 !! "/d/volumes/default/web/new/data"%string = None.
Proof.
  split; [vm_compute; reflexivity|]. split.
  - refine (swap_all_or_nothing (order := map_order_ascending) (NewRestorer "/d" 0 0 "n1") "default" "web"
      "/d/restore-staging/default/web" ["db"; "new"]%string swap_example_disk
      (disk_world swap_example_disk (fails_at 100)) {| mem_Recovery := None; mem_Orphans := None |} _ _ _).
    + vm_compute. reflexivity.
    + repeat constructor.
    + apply disk_world_truthful. by intros [] ? ? ?.
  - split; [vm_compute; reflexivity|]. split; [vm_compute; by eexists|]. split; vm_compute; reflexivity.
Defined.
