(* ===== verification/Archives.v ===== *)
(** The archive of a volume, written by internal/agent/backup/archive.go and unpacked
    by internal/agent/restore/extract.go. A tar stream is the list of its headers with
    their bodies; archive/tar and gzip are taken to read back what they wrote. *)
From Stdlib Require Import ZArith Lia Ascii.
From stdpp Require Import prelude gmap strings.
From S2P Require Import Prelude.
From S2P Require Import ProjectTypes.
From S2P Require Import NodeTypes.
From S2P Require Import Strconv.
From S2P Require Import Digest.
From S2P Require Import Failures.
From S2P Require Import Paths.
From S2P Require Import Engine.
Import GoInt GoString.
Open Scope Z_scope.
Open Scope go_scope.


Set Default Proof Using "Type".

(** ** Tar streams *)

Definition TypeReg : ascii := "0".
Definition TypeLink : ascii := "1".
Definition TypeSymlink : ascii := "2".
Definition TypeDir : ascii := "5".

Record Header := { hd_Name : string; hd_Typeflag : ascii; hd_Linkname : string; hd_Mode : Z }.
(** [header.FileInfo().Mode().Perm()]. *)
Definition Perm (h : Header) : Z := Z.land (hd_Mode h) 511.

(** An entry with the bytes its body gives, and the error reading them ends with. The
    stream ends with io.EOF or an error. *)
Record Entry := { en_Header : Header; en_Body : string; en_Broken : option failure }.
Record Tar := { tr_Entries : list Entry; tr_End : option failure }.

(** ** restore/extract.go *)

(** The destination: the methods of an os.Root, on names below it, and the bytes
    io.Copy moves to the file OpenFile made. *)
Record Root (S : Type) := {
  root_MkdirAll : string → Z → S → S * option failure;
  root_OpenFile : string → Z → S → S * option failure;
  root_Write : string → string → S → S * option failure;
  root_Symlink : string → string → S → S * option failure;
  root_Link : string → string → S → S * option failure
}.
#[global] Arguments root_MkdirAll {S} _ _ _ _.
#[global] Arguments root_OpenFile {S} _ _ _ _.
#[global] Arguments root_Write {S} _ _ _ _.
#[global] Arguments root_Symlink {S} _ _ _ _.
#[global] Arguments root_Link {S} _ _ _ _.

Definition unsafe (why : string) : failure := Around EmptyString (Fails ErrUnsafePath) (": " ++ why)%string.
Definition dotdot : string := "..".
Definition HasPrefix (s prefix : string) : bool := bool_decide (is_Some (CutPrefix prefix s)).
(** [s == ".." || strings.HasPrefix(s, "../")]. *)
Definition climbs (s : string) : bool := bool_decide (s = dotdot) || HasPrefix s (dotdot ++ "/").

Definition checkEntryName (name : string) : reply string :=
  if decide (name = EmptyString) then Bad (unsafe "empty entry name")
  else if IsAbs name then Bad (unsafe "absolute path")
  else
    let cleaned := Clean name in
    if climbs cleaned then Bad (unsafe ("resolves to " ++ Quote cleaned)%string) else Got cleaned.

Definition checkSymlinkTarget (entryName linkname : string) : option failure :=
  if decide (linkname = EmptyString) then Some (unsafe "empty symlink target")
  else if IsAbs linkname then Some (unsafe "absolute symlink target")
  else
    let resolved := path_join [path_dir entryName; linkname] in
    if climbs resolved then Some (unsafe ("target resolves to " ++ Quote resolved)%string) else None.

(** [%q] of a byte: strconv.QuoteRune of the rune of its number. *)
Definition QuoteRune (c : ascii) : string :=
  let n := nat_of_ascii c in
  let q := String (ascii_of_nat 39) EmptyString in
  let backslash := String (ascii_of_nat 92) EmptyString in
  let body := (
    if Nat.eqb n 34 then String c EmptyString
    else if Nat.eqb n 39 then backslash ++ String c EmptyString
    else if Nat.ltb n 128 then quote_byte c
    else if Nat.leb n 160 || Nat.eqb n 173 then
      backslash ++ "u00" ++ String (hex_digit (Nat.div n 16)) (String (hex_digit (Nat.modulo n 16)) EmptyString)
    else String (ascii_of_nat (192 + Nat.div n 64)) (String (ascii_of_nat (128 + Nat.modulo n 64)) EmptyString))%string in
  (q ++ body ++ q)%string.

(** The first [n] bytes of [s]. *)
Fixpoint first_bytes (n : nat) (s : string) : string :=
  match n, s with
  | S n, String c s => String c (first_bytes n s)
  | _, _ => EmptyString
  end.

Section extract.
Context {S : Type} (root : Root S) (archivePath destDir : string) (maxBytes : Z).

Definition ensureParent (name : string) (s : S) : S * option failure :=
  let parent := path_dir name in
  if decide (parent = "."%string ∨ parent = "/"%string) then (s, None)
  else
    let '(s, err) := root_MkdirAll root parent 448 s in
    (s, wrapped ("restore: create parent " ++ Quote parent ++ ": ")%string err).

(** [io.LimitReader(tr, n)]: its bytes, and the error they end with. *)
Definition LimitReader (e : Entry) (n : Z) : string * option failure :=
  if Z.leb n 0 then (EmptyString, None)
  else if Z.leb n (Z.of_nat (String.length (en_Body e))) then (first_bytes (Z.to_nat n) (en_Body e), None)
  else (en_Body e, en_Broken e).

Definition extractFile (e : Entry) (name : string) (budget : Z) (s : S) : S * reply Z :=
  if Z.leb budget 0 then (s, Bad (Fails ErrArchiveTooLarge))
  else
    match ensureParent name s with
    | (s, Some err) => (s, Bad err)
    | (s, None) =>
        match root_OpenFile root name (Perm (en_Header e)) s with
        | (s, Some err) => (s, Bad (wrap ("restore: create " ++ Quote name ++ ": ") err))
        | (s, None) =>
            let '(data, broken) := LimitReader e (add64 budget 1) in
            match root_Write root name data s with
            | (s, Some err) => (s, Bad (wrap ("restore: write " ++ Quote name ++ ": ") err))
            | (s, None) =>
                let n := Z.of_nat (String.length data) in
                match broken with
                | Some err => (s, Bad (wrap ("restore: write " ++ Quote name ++ ": ") err))
                | None => if Z.ltb budget n then (s, Bad (Fails ErrArchiveTooLarge)) else (s, Got n)
                end
            end
        end
    end%string.

(** One turn of the loop: what it adds to [written]. *)
Definition extract_entry (e : Entry) (written : Z) (s : S) : S * reply Z :=
  let h := en_Header e in
  let failing what (r : S * option failure) :=
    match r with (s, Some err) => (s, Bad (wrap (what ++ ": ") err)) | (s, None) => (s, Got 0) end in
  match checkEntryName (hd_Name h) with
  | Bad err => (s, Bad (wrap ("restore: " ++ Quote (hd_Name h) ++ " in " ++ Quote archivePath ++ ": ") err))
  | Got name =>
      if decide (hd_Typeflag h = TypeDir) then
        failing ("restore: create dir " ++ Quote (hd_Name h)) (root_MkdirAll root name (Perm h) s)
      else if decide (hd_Typeflag h = TypeReg) then extractFile e name (sub64 maxBytes written) s
      else if decide (hd_Typeflag h = TypeSymlink) then
        match checkSymlinkTarget name (hd_Linkname h) with
        | Some err =>
            (s, Bad (wrap ("restore: symlink " ++ Quote (hd_Name h) ++ " → " ++ Quote (hd_Linkname h) ++ ": ") err))
        | None =>
            match ensureParent name s with
            | (s, Some err) => (s, Bad err)
            | (s, None) =>
                failing ("restore: create symlink " ++ Quote (hd_Name h)) (root_Symlink root (hd_Linkname h) name s)
            end
        end
      else if decide (hd_Typeflag h = TypeLink) then
        match checkEntryName (hd_Linkname h) with
        | Bad err =>
            (s, Bad (wrap ("restore: hardlink " ++ Quote (hd_Name h) ++ " → " ++ Quote (hd_Linkname h) ++ ": ") err))
        | Got linkTarget =>
            match ensureParent name s with
            | (s, Some err) => (s, Bad err)
            | (s, None) => failing ("restore: create hardlink " ++ Quote (hd_Name h)) (root_Link root linkTarget name s)
            end
        end
      else
        (s, Bad (Text ("restore: " ++ Quote (hd_Name h) ++ " in " ++ Quote archivePath ++ ": unsupported entry type "
                       ++ QuoteRune (hd_Typeflag h))))
  end%string.

Fixpoint extract_entries (es : list Entry) (finish : option failure) (written : Z) (s : S) : S * option failure :=
  match es with
  | [] => (s, wrapped ("restore: read archive " ++ Quote archivePath ++ ": ")%string finish)
  | e :: es =>
      match extract_entry e written s with
      | (s, Bad err) => (s, Some err)
      | (s, Got n) => extract_entries es finish (add64 written n) s
      end
  end.

(** What can fail before the first entry. *)
Record Opening := { op_Archive : option failure; op_Gzip : option failure; op_Dest : option failure; op_Root : option failure }.

Definition Extract (io : Opening) (t : Tar) (s : S) : S * option failure :=
  match op_Archive io, op_Gzip io, op_Dest io, op_Root io with
  | Some err, _, _, _ => (s, Some (wrap ("restore: open archive " ++ Quote archivePath ++ ": ") err))
  | None, Some err, _, _ => (s, Some (wrap ("restore: read gzip " ++ Quote archivePath ++ ": ") err))
  | None, None, Some err, _ => (s, Some (wrap ("restore: create destination " ++ Quote destDir ++ ": ") err))
  | None, None, None, Some err => (s, Some (wrap ("restore: open destination " ++ Quote destDir ++ ": ") err))
  | None, None, None, None => extract_entries (tr_Entries t) (tr_End t) 0 s
  end%string.
End extract.

(** ** backup/archive.go *)

(** What a volume holds: a file, a symbolic link, a directory with its entries in the
    order of their names, a FIFO or device, a socket. *)
Inductive node :=
| Regular (mode : Z) (data : string)
| Symlink (target : string)
| Directory (mode : Z) (children : list (string * node))
| Special (mode : Z) (typeflag : ascii)
| Socket (mode : Z).

(** Where archiving one path can fail. *)
Inductive stage := Walked | Stated | ReadLinked | HeaderBuilt | HeaderWritten | Opened | Copied | Closed.

Record ArchiveResult := { ar_SizeBytes : Z; ar_SHA256 : string }.

Section archive.
(** The host's errors, by the path in the volume; and the bytes tar and gzip make. *)
Context (fault : stage → list string → option failure) (gzipped : list Entry → string) (sourceDir destFile : string).

(** A path in the volume has its last element first; [rel] is what filepath.Rel makes of
    it, which cannot fail below [sourceDir]. *)
Definition rel (p : list string) : string := Join (rev p) "/".
Definition walked (p : list string) : string := path_join (sourceDir :: rev p).

Definition failing_at (s : stage) (p : list string) : option failure :=
  let text what e := Some (wrap ("backup: " ++ what ++ Quote (walked p) ++ ": ") e) in
  match s, fault s p with
  | _, None => None
  | Walked, Some e => text "walk " e
  | Stated, Some e => text "stat " e
  | ReadLinked, Some e => text "read symlink " e
  | HeaderBuilt, Some e => text "build tar header for " e
  | HeaderWritten, Some e => text "write tar header for " e
  | Opened, Some e => text "open " e
  | Copied, Some e => text "archive " e
  | Closed, Some e => text "close " e
  end%string.
Definition checked (ss : list stage) (p : list string) : option failure :=
  head (omap (λ s, failing_at s p) ss).

(** tar.FileInfoHeader, with the name relative to the volume. *)
Definition FileInfoHeader (p : list string) (n : node) : reply Header :=
  let header flag link mode := Got {| hd_Name := rel p; hd_Typeflag := flag; hd_Linkname := link; hd_Mode := mode |} in
  match n with
  | Regular mode _ => header TypeReg EmptyString mode
  | Symlink target => header TypeSymlink target 511
  | Directory mode _ => header TypeDir EmptyString mode
  | Special mode flag => header flag EmptyString mode
  | Socket _ => Bad (wrap ("backup: build tar header for " ++ Quote (walked p) ++ ": ")%string
                       (Text "archive/tar: sockets not supported"))
  end.

(** The walk's function on a path that is not the root. *)
Definition archive_entry (p : list string) (n : node) : reply Entry :=
  match checked ([Stated] ++ match n with Symlink _ => [ReadLinked] | _ => [] end ++ [HeaderBuilt]) p with
  | Some e => Bad e
  | None =>
      let! header := FileInfoHeader p n in
      match checked ([HeaderWritten] ++ match n with Regular _ _ => [Opened; Copied; Closed] | _ => [] end) p with
      | Some e => Bad e
      | None => Got {| en_Header := header; en_Body := match n with Regular _ data => data | _ => EmptyString end;
                       en_Broken := None |}
      end
  end.

(** [filepath.WalkDir]: an entry, and then, for a directory that can be listed, those
    below it. *)
Definition listed (p : list string) (es : reply (list Entry)) : reply (list Entry) :=
  match failing_at Walked p with Some e => Bad e | None => es end.
Fixpoint walk (p : list string) (n : node) : reply (list Entry) :=
  let! e := archive_entry p n in
  match n with
  | Directory _ children =>
      let! es := listed p ((fix below cs := match cs with
                                            | [] => Got []
                                            | (x, c) :: cs => let! es := walk (x :: p) c in let! rest := below cs in Got (es ++ rest)
                                            end) children) in
      Got (e :: es)
  | _ => Got [e]
  end.
Fixpoint walk_children (p : list string) (cs : list (string * node)) : reply (list Entry) :=
  match cs with
  | [] => Got []
  | (x, c) :: cs => let! es := walk (x :: p) c in let! rest := walk_children p cs in Got (es ++ rest)
  end.
(** The volume's own directory has no entry. *)
Definition archiveDir (volume : list (string * node)) : reply (list Entry) := listed [] (walk_children [] volume).

(** What can fail around it. *)
Record Writing := { wr_Create : option failure; wr_Tar : option failure; wr_Gzip : option failure; wr_Sync : option failure }.
Definition Archive (io : Writing) (volume : list (string * node)) : reply (Tar * ArchiveResult) :=
  match wr_Create io with
  | Some e => Bad (wrap ("backup: create archive " ++ Quote destFile ++ ": ")%string e)
  | None =>
      let! es := archiveDir volume in
      match wr_Tar io, wr_Gzip io, wr_Sync io with
      | Some e, _, _ => Bad (wrap "backup: close tar writer: " e)
      | None, Some e, _ => Bad (wrap "backup: close gzip writer: " e)
      | None, None, Some e => Bad (wrap ("backup: sync archive " ++ Quote destFile ++ ": ")%string e)
      | None, None, None =>
          Got ({| tr_Entries := es; tr_End := None |},
               {| ar_SizeBytes := Z.of_nat (String.length (gzipped es));
                  ar_SHA256 := hex_EncodeToString (Sum256 (string_bytes (gzipped es))) |})
      end
  end.
End archive.

(** ** Names below the destination *)

(** A walk through [parts] that starts [depth] directories down never climbs out. *)
Fixpoint inside (depth : nat) (parts : list string) : bool :=
  match parts with
  | [] => true
  | x :: rest =>
      if decide (x = EmptyString ∨ x = "."%string) then inside depth rest
      else if decide (x = dotdot) then match depth with O => false | S depth => inside depth rest end
      else inside (S depth) rest
  end.
Definition joined (xs : list string) : string := match xs with [] => "." | _ => Join xs "/" end.

Lemma clean_steps_relative st xs : Forall plain xs → foldl (clean_step false) st xs = rev xs ++ st.
Proof.
  intros Hxs. revert st. induction Hxs as [|x xs (_ & H1 & H2 & H3) Hxs IH]; intros st; [done|].
  simpl. rewrite <- app_assoc. simpl. rewrite IH. unfold clean_step.
  rewrite decide_False by tauto. by rewrite decide_False.
Qed.

Lemma clean_steps_climbed st parts : last st = Some dotdot → last (foldl (clean_step false) st parts) = Some dotdot.
Proof.
  revert st. induction parts as [|x parts IH]; intros st Hst; [done|]. simpl. apply IH. unfold clean_step.
  destruct st as [|y st]; [done|]. case_decide; [done|]. case_decide.
  - case_decide as Hy; [by rewrite last_cons_cons|]. destruct st as [|z st]; [by injection Hst|done].
  - by rewrite last_cons_cons.
Qed.
Lemma clean_steps_inside st parts :
  Forall no_slash parts → Forall plain st →
  if inside (length st) parts then Forall plain (foldl (clean_step false) st parts)
  else last (foldl (clean_step false) st parts) = Some dotdot.
Proof.
  intros Hp. revert st. induction Hp as [|x parts Hx Hp IH]; intros st Hst; [done|]. cbn [inside foldl].
  assert (clean_step false st x = _) as -> by (unfold clean_step; reflexivity).
  case_decide as H1; [by apply IH|]. fold dotdot. case_decide as H2.
  - destruct Hst as [|y st (_ & _ & _ & Hy) Hst]; simpl; [apply clean_steps_climbed; by rewrite H2|].
    rewrite decide_False by done. by apply IH.
  - specialize (IH (x :: st)). simpl in IH. apply IH. constructor; [|done]. unfold plain. tauto.
Qed.

Lemma CutPrefix_is p s r : CutPrefix p s = Some r → s = (p ++ r)%string.
Proof.
  revert s. induction p as [|c p IH]; intros s; [by intros [= ->]|]. destruct s as [|c' s]; [done|]. simpl.
  destruct (Ascii.eqb_spec c c') as [->|]; [|done]. intros H. by rewrite (IH s H).
Qed.
Lemma joined_apart xs : Forall plain xs → climbs (joined xs) = false.
Proof.
  intros Hxs. assert (∀ y rest, xs = y :: rest → split_slash (Join xs "/") = xs) as Hs.
  { intros y rest ->. apply split_Join; [|done]. by eapply Forall_impl; [exact Hxs|intros ? []]. }
  destruct xs as [|y xs]; [by vm_compute|]. specialize (Hs y xs eq_refl). unfold climbs, joined.
  apply Forall_cons in Hxs as [(_ & _ & _ & Hy) _]. apply orb_false_iff. split.
  - apply bool_decide_eq_false. intros He. rewrite He in Hs. by injection Hs as <- _.
  - unfold HasPrefix. apply bool_decide_eq_false. intros [r Hr]. apply CutPrefix_is in Hr. rewrite Hr in Hs.
    rewrite append_assoc in Hs. change (split_slash (dotdot ++ "/" ++ r)%string) with (dotdot :: split_slash r) in Hs.
    by injection Hs as <- _.
Qed.
Lemma Clean_relative s : s ≠ EmptyString → IsAbs s = false → Forall plain (elements_of s) → Clean s = joined (elements_of s).
Proof.
  intros Hs Ha Hp. unfold Clean. rewrite decide_False, Ha by done. cbv zeta.
  destruct Hp as [|x xs (_ & Hx & _) _]; [done|]. rewrite decide_False; [done|].
  destruct x; [done|]. by destruct xs.
Qed.
Lemma head_rev {A} (l : list A) : head (rev l) = last l.
Proof. induction l as [|x l _] using rev_ind; [done|]. by rewrite rev_app_distr, last_snoc. Qed.
Lemma climbs_relative s : s ≠ EmptyString → IsAbs s = false → climbs (Clean s) = negb (inside 0 (split_slash s)).
Proof.
  intros Hs Ha. pose proof (clean_steps_inside [] (split_slash s) (split_slashes s) ltac:(constructor)) as H.
  simpl in H. destruct (inside 0 (split_slash s)).
  - assert (Forall plain (elements_of s)) as Hp by (unfold elements_of; rewrite Ha; by apply Forall_rev).
    rewrite Clean_relative by done. by rewrite joined_apart.
  - assert (head (elements_of s) = Some dotdot) as Hh by (unfold elements_of; by rewrite Ha, head_rev).
    unfold Clean. rewrite decide_False, Ha by done. cbv zeta. destruct (elements_of s) as [|x xs]; [done|].
    injection Hh as ->. rewrite decide_False by by destruct xs. unfold climbs, HasPrefix.
    destruct xs as [|y xs]; [by vm_compute|]. rewrite Join_cons.
    change (dotdot ++ "/" ++ Join (y :: xs) "/")%string with ((dotdot ++ "/") ++ Join (y :: xs) "/")%string.
    rewrite CutPrefix_app. apply orb_true_iff. right. by apply bool_decide_eq_true.
Qed.

Lemma checkEntryName_exact name :
  match checkEntryName name with
  | Got cleaned =>
      (name ≠ EmptyString ∧ IsAbs name = false ∧ inside 0 (split_slash name) = true) ∧
      ∃ xs, Forall plain xs ∧ cleaned = joined xs
  | Bad _ => ¬ (name ≠ EmptyString ∧ IsAbs name = false ∧ inside 0 (split_slash name) = true)
  end.
Proof.
  unfold checkEntryName. case_decide as H1; [tauto|]. destruct (IsAbs name) eqn:Ha; [by intros (_ & ? & _)|].
  rewrite climbs_relative by done. destruct (inside 0 (split_slash name)) eqn:Hi; simpl; [|by intros (_ & _ & ?)].
  split; [done|]. exists (elements_of name).
  pose proof (clean_steps_inside [] (split_slash name) (split_slashes name) ltac:(constructor)) as H. simpl in H. rewrite Hi in H.
  assert (Forall plain (elements_of name)) as Hp by (unfold elements_of; rewrite Ha; by apply Forall_rev).
  split; [done|]. by apply Clean_relative.
Qed.

Lemma split_joined xs : Forall plain xs → xs ≠ [] → split_slash (joined xs) = xs.
Proof.
  intros Hp Hne. destruct xs; [done|]. apply split_Join; [|done]. by eapply Forall_impl; [exact Hp|intros ? []].
Qed.
Lemma joined_relative xs s : Forall plain xs → IsAbs (joined xs ++ s) = false.
Proof.
  intros Hp. destruct Hp as [|x xs (Hs & Hx & _) _]; [done|]. destruct x as [|c x]; [done|]. unfold no_slash in Hs. simpl in Hs.
  apply andb_true_iff in Hs as [Hs _]. apply negb_true_iff in Hs. by destruct xs.
Qed.
Lemma joined_nonempty xs s : Forall plain xs → (joined xs ++ s)%string ≠ EmptyString.
Proof. intros Hp. destruct Hp as [|x xs (_ & Hx & _) _]; [done|]. destruct x; [done|]. by destruct xs. Qed.
Lemma elements_below xs s : Forall plain xs → xs ≠ [] →
  elements_of (joined xs ++ "/" ++ s)%string = rev (foldl (clean_step false) (rev xs) (split_slash s)).
Proof.
  intros Hp Hne. unfold elements_of. rewrite joined_relative, split_app, split_joined, foldl_app, (clean_steps_relative [] xs) by done.
  by rewrite app_nil_r.
Qed.

(** The directory of a name, and where a link in it may point. *)
Lemma path_dir_joined xs x : Forall plain (xs ++ [x]) → path_dir (joined (xs ++ [x])) = joined xs.
Proof.
  intros Hp. unfold path_dir. rewrite split_joined, rev_app_distr by (done || by destruct xs). simpl.
  apply Forall_app in Hp as [Hp _]. destruct (decide (xs = [])) as [->|Hne]; [done|].
  assert (match rev xs with [] => EmptyString | _ :: _ => Join (rev (rev xs)) "/" ++ "/" end
          = joined xs ++ "/" ++ EmptyString)%string as Hd.
  { rewrite rev_involutive. destruct (rev xs) eqn:E; [|by destruct xs].
    apply (f_equal (@rev _)) in E. rewrite rev_involutive in E. by subst. }
  assert (elements_of (joined xs ++ "/" ++ EmptyString)%string = xs) as He.
  { rewrite elements_below by done. simpl. unfold clean_step. rewrite decide_True by by left. apply rev_involutive. }
  etrans; [exact (f_equal Clean Hd)|].
  rewrite Clean_relative, He; [done|by apply joined_nonempty|by apply joined_relative|by rewrite He].
Qed.

Lemma checkSymlinkTarget_exact xs x target :
  Forall plain (xs ++ [x]) →
  checkSymlinkTarget (joined (xs ++ [x])) target = None ↔
  target ≠ EmptyString ∧ IsAbs target = false ∧ inside (length xs) (split_slash target) = true.
Proof.
  intros Hp. unfold checkSymlinkTarget. rewrite path_dir_joined by done. apply Forall_app in Hp as [Hp _].
  case_decide as Ht; [naive_solver|]. destruct (IsAbs target) eqn:Ha; [naive_solver|].
  assert (path_join [joined xs; target] = Clean (joined xs ++ "/" ++ target)%string) as ->.
  { unfold path_join. rewrite decide_False; [done|]. pose proof (joined_nonempty xs EmptyString Hp) as H. by rewrite append_empty in H. }
  rewrite climbs_relative by (apply joined_nonempty || apply joined_relative; done).
  assert (inside 0 (split_slash (joined xs ++ "/" ++ target)) = inside (length xs) (split_slash target)) as ->.
  { rewrite split_app. assert (∀ n ys rest, Forall plain ys → inside n (ys ++ rest) = inside (length ys + n) rest) as Hi.
    { intros n ys rest Hys. revert n. induction Hys as [|y ys (_ & H1 & H2 & H3) Hys IH]; intros n; [done|]. simpl.
      rewrite decide_False by tauto. rewrite decide_False by done. rewrite IH. f_equal. lia. }
    destruct xs as [|y ys]; [done|]. rewrite split_joined, Hi by done. f_equal. lia. }
  destruct (inside (length xs) (split_slash target)); naive_solver.
Qed.

(** ** What is asked of the destination *)

Inductive ask :=
| AskMkdirAll (name : string) (perm : Z)
| AskOpenFile (name : string) (perm : Z)
| AskWrite (name data : string)
| AskSymlink (target name : string)
| AskLink (old new : string).

(** A destination that answers as [w] says. *)
Definition asking (w : list ask → ask → option failure) : Root (list ask) :=
  let say a log := (log ++ [a], w log a) in
  {| root_MkdirAll := λ name perm, say (AskMkdirAll name perm); root_OpenFile := λ name perm, say (AskOpenFile name perm);
     root_Write := λ name data, say (AskWrite name data); root_Symlink := λ target name, say (AskSymlink target name);
     root_Link := λ old new, say (AskLink old new) |}.

Definition local (name : string) : Prop := ∃ xs, Forall plain xs ∧ name = joined xs.
(** A link whose target, read from the directory of its name, is below the destination. *)
Definition contained_link (target name : string) : Prop :=
  ∃ xs, Forall plain xs ∧ name = joined xs ∧ target ≠ EmptyString ∧ IsAbs target = false ∧
        inside (pred (length xs)) (split_slash target) = true.
Definition confined_ask (a : ask) : Prop :=
  match a with
  | AskMkdirAll name _ | AskOpenFile name _ | AskWrite name _ => local name
  | AskSymlink target name => contained_link target name
  | AskLink old new => local old ∧ local new
  end.
Definition written_by (a : ask) : Z := match a with AskWrite _ data => Z.of_nat (String.length data) | _ => 0 end.
Definition bytes_written (log : list ask) : Z := foldr (λ a n, written_by a + n) 0 log.

(** What an entry asks for when nothing fails. *)
Definition cleaned (name : string) : string := match checkEntryName name with Got c => c | Bad _ => EmptyString end.
Definition parents (name : string) : list ask :=
  if decide (path_dir name = "."%string ∨ path_dir name = "/"%string) then [] else [AskMkdirAll (path_dir name) 448].
Definition asks_of (e : Entry) : list ask :=
  let h := en_Header e in
  let name := cleaned (hd_Name h) in
  if decide (hd_Typeflag h = TypeDir) then [AskMkdirAll name (Perm h)]
  else if decide (hd_Typeflag h = TypeReg) then parents name ++ [AskOpenFile name (Perm h); AskWrite name (en_Body e)]
  else if decide (hd_Typeflag h = TypeSymlink) then parents name ++ [AskSymlink (hd_Linkname h) name]
  else parents name ++ [AskLink (cleaned (hd_Linkname h)) name].

Lemma bytes_written_app l k : bytes_written (l ++ k) = bytes_written l + bytes_written k.
Proof. unfold bytes_written. induction l as [|a l IH]; simpl; [lia|]. rewrite IH. lia. Qed.
Lemma bytes_written_nonneg l : 0 ≤ bytes_written l.
Proof. unfold bytes_written. induction l as [|[] l IH]; simpl; lia. Qed.
Lemma length_first_bytes n s : (n ≤ String.length s)%nat → String.length (first_bytes n s) = n.
Proof. revert s. induction n as [|n IH]; intros [|c s] H; simpl in *; try lia. rewrite IH by lia. done. Qed.

Lemma local_path_dir name : local name → local (path_dir name).
Proof.
  intros (xs & Hp & ->). destruct xs as [|x xs _] using rev_ind; [exists []; split; [done|by vm_compute]|].
  rewrite path_dir_joined by done. apply Forall_app in Hp as [Hp _]. by exists xs.
Qed.
Lemma checked_local name c : checkEntryName name = Got c → local c.
Proof. intros H. pose proof (checkEntryName_exact name) as He. rewrite H in He. by destruct He as [_ He]. Qed.
Lemma checked_link name target : local name → checkSymlinkTarget name target = None → contained_link target name.
Proof.
  intros (xs & Hp & ->) Hc. destruct xs as [|x xs _] using rev_ind.
  - unfold checkSymlinkTarget in Hc. change (path_dir (joined [])) with "."%string in Hc.
    case_decide; [done|]. destruct (IsAbs target) eqn:Ha; [done|].
    change (path_join ["."; target]%string) with (Clean ("./" ++ target)%string) in Hc.
    rewrite climbs_relative in Hc by done.
    change (inside 0 (split_slash ("./" ++ target)%string)) with (inside 0 (split_slash target)) in Hc.
    exists []. split_and!; try done. simpl. by destruct (inside 0 (split_slash target)).
  - apply checkSymlinkTarget_exact in Hc; [|done]. exists (xs ++ [x]). rewrite length_app. simpl.
    replace (pred (length xs + 1)) with (length xs) by lia. tauto.
Qed.

Section confined.
Context (w : list ask → ask → option failure) (archivePath destDir : string) (maxBytes : Z)
        (Hmax : in_int64 maxBytes ∧ maxBytes < max_int64).
Notation root := (asking w).

(** What one step does: its requests are confined; [bound] bytes at most, and on success
    exactly the requests [asks]. *)
Definition step_ok {A} (log log' : list ask) (failed : option A) (asks : list ask) (bound : Z) : Prop :=
  ∃ new, log' = log ++ new ∧ Forall confined_ask new ∧ 0 ≤ bytes_written new ≤ Z.max 0 bound ∧
         match failed with None => new = asks | Some _ => True end.
Definition error_of {A} (r : reply A) : option failure := match r with Got _ => None | Bad e => Some e end.

Lemma step_none {A} log (e : A) asks bound : step_ok log log (Some e) asks bound.
Proof. exists []. rewrite app_nil_r. unfold bytes_written. simpl. split_and!; try done; lia. Qed.
Lemma ensureParent_step name log :
  local name →
  let '(log', err) := ensureParent root name log in step_ok log log' err (parents name) 0.
Proof.
  intros Hl. unfold ensureParent, parents. case_decide; simpl.
  - exists []. rewrite app_nil_r. split_and!; try done; unfold bytes_written; simpl; lia.
  - exists [AskMkdirAll (path_dir name) 448]. split_and!; try done; try (unfold bytes_written; simpl; lia).
    + constructor; [|done]. by apply local_path_dir.
    + by destruct (w _ _).
Qed.

Lemma step_failed {A B} log log' (e : A) (e' : B) asks asks' bound :
  step_ok log log' (Some e) asks 0 → step_ok log log' (Some e') asks' bound.
Proof. intros (new & -> & Hc & Hb & _). exists new. split_and!; try done; lia. Qed.
Lemma step_from {A B} log log1 new (e : option B) asks1 asks bound :
  step_ok log log1 (@None A) asks1 0 → Forall confined_ask new → bytes_written new ≤ Z.max 0 bound →
  (e = None → asks = asks1 ++ new) → step_ok log (log1 ++ new) e asks bound.
Proof.
  intros (n1 & -> & Hc1 & Hb1 & ->) Hc Hb He. exists (asks1 ++ new). rewrite app_assoc, bytes_written_app.
  pose proof (bytes_written_nonneg new).
  split_and!; try done; [by apply Forall_app|lia|lia|]. destruct e; [done|]. by rewrite He.
Qed.

Lemma budget_left written :
  0 ≤ written ≤ Z.max 0 maxBytes → sub64 maxBytes written = maxBytes - written ∧
  (0 < maxBytes - written → add64 (maxBytes - written) 1 = maxBytes - written + 1).
Proof using Hmax.
  destruct Hmax as [Hm Hm']. unfold in_int64, min_int64, max_int64 in *. intros H.
  split; [apply sub64_id|intros ?; apply add64_id]; unfold in_int64, min_int64, max_int64; lia.
Qed.
Lemma LimitReader_cases e n :
  0 < n →
  let '(data, broken) := LimitReader e n in
  Z.of_nat (String.length data) ≤ n ∧
  (broken = None → Z.of_nat (String.length data) < n → data = en_Body e ∧ en_Broken e = None).
Proof.
  intros Hn. unfold LimitReader. destruct (Z.leb_spec n 0); [lia|]. destruct (Z.leb_spec n (Z.of_nat (String.length (en_Body e)))).
  - rewrite length_first_bytes by lia. split; [lia|]. intros _ ?. lia.
  - split; [lia|]. by intros -> _.
Qed.

Lemma extractFile_step e name written log :
  local name → 0 ≤ written ≤ Z.max 0 maxBytes →
  let '(log', r) := extractFile root e name (sub64 maxBytes written) log in
  step_ok log log' (error_of r)
    (parents name ++ [AskOpenFile name (Perm (en_Header e)); AskWrite name (en_Body e)]) (maxBytes - written + 1) ∧
  ∀ n, r = Got n → n = Z.of_nat (String.length (en_Body e)) ∧ written + n ≤ Z.max 0 maxBytes ∧ en_Broken e = None.
Proof using Hmax.
  intros Hl Hw. destruct (budget_left written Hw) as [-> Hadd]. unfold extractFile.
  destruct (Z.leb_spec (maxBytes - written) 0) as [Hb|Hb]; [by split; [apply step_none|]|]. rewrite Hadd by done.
  pose proof (ensureParent_step name log Hl) as Hp. destruct (ensureParent root name log) as [log1 [err|]].
  { split; [by eapply step_failed|done]. }
  cbn [root_OpenFile asking]. set (open := AskOpenFile name (Perm (en_Header e))).
  destruct (w log1 open) as [err|].
  { split; [|done]. eapply step_from; [exact Hp|by repeat constructor|unfold bytes_written; simpl; lia|done]. }
  pose proof (LimitReader_cases e (maxBytes - written + 1) ltac:(lia)) as Hr.
  destruct (LimitReader e (maxBytes - written + 1)) as [data broken]. destruct Hr as [Hlen Hdata].
  cbn [root_Write asking]. rewrite <- app_assoc. set (new := [open] ++ [AskWrite name data]).
  assert (∀ (r : reply Z), (error_of r = None → data = en_Body e) →
    step_ok log (log1 ++ new) (error_of r) (parents name ++ [open; AskWrite name (en_Body e)]) (maxBytes - written + 1)) as Hs.
  { intros r Hd. eapply step_from; [exact Hp|by repeat constructor|unfold new, bytes_written; simpl; lia|].
    intros He. unfold new. by rewrite (Hd He). }
  destruct (w (log1 ++ [open]) _) as [err|]; [by split; [apply Hs|]|]. destruct broken as [err|]; [by split; [apply Hs|]|].
  destruct (Z.ltb_spec (maxBytes - written) (Z.of_nat (String.length data))) as [Ht|Ht]; [by split; [apply Hs|]|].
  destruct (Hdata eq_refl ltac:(lia)) as [-> Hbr]. split; [by apply Hs|]. intros n [= <-]. split_and!; [done|lia|done].
Qed.

(** One entry: a success adds what its body holds. *)
Definition body_size (e : Entry) : Z :=
  if decide (hd_Typeflag (en_Header e) = TypeReg) then Z.of_nat (String.length (en_Body e)) else 0.
Definition complete (e : Entry) : Prop := hd_Typeflag (en_Header e) = TypeReg → en_Broken e = None.

Lemma extract_entry_step e written log :
  0 ≤ written ≤ Z.max 0 maxBytes →
  let '(log', r) := extract_entry root archivePath maxBytes e written log in
  step_ok log log' (error_of r) (asks_of e) (maxBytes - written + 1) ∧
  ∀ n, r = Got n → n = body_size e ∧ written + n ≤ Z.max 0 maxBytes ∧ complete e.
Proof using Hmax.
  intros Hw. unfold extract_entry, asks_of, body_size, complete, cleaned.
  destruct (checkEntryName (hd_Name (en_Header e))) as [name|err] eqn:Hn; [|by split; [apply step_none|]].
  apply checked_local in Hn. case_decide as H1.
  { rewrite H1. cbn [root_MkdirAll asking]. destruct (w log _) as [err|].
    all: split; [|intros n Hg; first [discriminate Hg|injection Hg as <-; split_and!; [done|lia|done]]].
    all: exists [AskMkdirAll name (Perm (en_Header e))]; split_and!; try done; try (by repeat constructor);
      unfold bytes_written; simpl; lia. }
  case_decide as H2.
  { pose proof (extractFile_step e name written log Hn Hw) as H. destruct (extractFile root e name _ log) as [log' r].
    destruct H as [Hs Hr]. split; [done|]. intros n Hg. destruct (Hr n Hg) as (? & ? & ?). done. }
  assert (∀ a what log1 (asks : list ask), confined_ask a → written_by a = 0 → step_ok log log1 (@None failure) (parents name) 0 →
    let '(log', r) := (match (log1 ++ [a], w log1 a) with
                       | (s, Some err) => (s, Bad (wrap (what ++ ": ")%string err)) | (s, None) => (s, Got 0) end) in
    step_ok log log' (error_of r) (parents name ++ [a]) (maxBytes - written + 1) ∧
    ∀ n, r = Got n → n = 0 ∧ written + n ≤ Z.max 0 maxBytes ∧ (hd_Typeflag (en_Header e) = TypeReg → en_Broken e = None))
    as Hlast.
  { intros a what log1 asks Ha Hz Hp.
    destruct (w log1 a) as [err|]; (split; [|intros n Hg; first [discriminate Hg|injection Hg as <-; split_and!; [done|lia|done]]]).
    all: eapply step_from; [exact Hp|by repeat constructor|unfold bytes_written; simpl; lia|done]. }
  case_decide as H3.
  { destruct (checkSymlinkTarget name _) as [err|] eqn:Hc; [by split; [apply step_none|]|].
    pose proof (ensureParent_step name log Hn) as Hp. destruct (ensureParent root name log) as [log1 [err|]].
    { split; [by eapply step_failed|done]. }
    apply Hlast; [exact []|by apply checked_link|done|done]. }
  case_decide as H4; [|by split; [apply step_none|]].
  destruct (checkEntryName (hd_Linkname (en_Header e))) as [target|err] eqn:Ht; [|by split; [apply step_none|]].
  pose proof (ensureParent_step name log Hn) as Hp. destruct (ensureParent root name log) as [log1 [err|]].
  { split; [by eapply step_failed|done]. }
  apply Hlast; [exact []|split; [by eapply checked_local|done]|done|done].
Qed.
End confined.

Lemma bytes_asks e : bytes_written (asks_of e) = body_size e.
Proof.
  unfold asks_of, body_size. assert (∀ name, bytes_written (parents name) = 0) as Hp by (intros; unfold parents; by case_decide).
  case_decide as H1; [by rewrite H1|]. case_decide as H2; [|case_decide]; rewrite bytes_written_app, Hp;
    unfold bytes_written; simpl; lia.
Qed.

(** Every entry, from the bytes written so far. *)
Lemma extract_entries_run w archivePath maxBytes es finish written log :
  in_int64 maxBytes → maxBytes < max_int64 → 0 ≤ written ≤ Z.max 0 maxBytes →
  let '(log', err) := extract_entries (asking w) archivePath maxBytes es finish written log in
  ∃ new, log' = log ++ new ∧ Forall confined_ask new ∧ written + bytes_written new ≤ Z.max 0 (maxBytes + 1) ∧
    (err = None → new = concat (asks_of <$> es) ∧ Forall complete es ∧ finish = None ∧
                  written + bytes_written new ≤ Z.max 0 maxBytes).
Proof.
  intros Hm Hm'. revert written log. induction es as [|e es IH]; intros written log Hw; simpl.
  - exists []. rewrite app_nil_r. split_and!; try done; [unfold bytes_written; simpl; lia|].
    intros He. destruct finish; [done|]. split_and!; try done. unfold bytes_written. simpl. lia.
  - pose proof (extract_entry_step w archivePath maxBytes (conj Hm Hm') e written log Hw) as He.
    destruct (extract_entry (asking w) archivePath maxBytes e written log) as [log1 [n|err]];
      destruct He as [(n1 & -> & Hc1 & Hb1 & Hn1) Hg].
    + destruct (Hg n eq_refl) as (Hn & Hle & Hcomplete). simpl in Hn1. subst n1.
      assert (bytes_written (asks_of e) = n) as Hbytes by (by rewrite bytes_asks).
      assert (0 ≤ n) by (subst n; unfold body_size; case_decide; lia).
      assert (add64 written n = written + n) as ->.
      { apply add64_id. unfold in_int64, min_int64, max_int64 in *. lia. }
      specialize (IH (written + n) (log ++ asks_of e) ltac:(lia)).
      destruct (extract_entries _ _ _ es finish _ _) as [log' err]. destruct IH as (new & -> & Hc & Hb & He).
      exists (asks_of e ++ new). rewrite app_assoc, bytes_written_app, Hbytes.
      split_and!; [done|by apply Forall_app|lia|]. intros H0. destruct (He H0) as (-> & ? & ? & ?).
      split_and!; [done|by constructor|done|lia].
    + exists n1. split_and!; [done|done|lia|done].
Qed.


Definition all_open : Opening := {| op_Archive := None; op_Gzip := None; op_Dest := None; op_Root := None |}.
Definition tar_entry (flag : ascii) (name link body : string) : Entry :=
  {| en_Header := {| hd_Name := name; hd_Typeflag := flag; hd_Linkname := link; hd_Mode := 420 |};
     en_Body := body; en_Broken := None |}.

