(* ===== verification/ArchiveRestore.v ===== *)
(** What a backup gives back: a volume archived by internal/agent/backup/archive.go and
    extracted by internal/agent/restore/extract.go into an empty directory. *)
From Stdlib Require Import ZArith Lia Ascii.
From stdpp Require Import prelude gmap strings.
From S2P Require Import Prelude.
From S2P Require Import ProjectTypes.
From S2P Require Import NodeTypes.
From S2P Require Import Strconv.
From S2P Require Import Failures.
From S2P Require Import Paths.
From S2P Require Import Engine.
From S2P Require Import Archives.
Import GoInt GoString.
Open Scope Z_scope.
Open Scope go_scope.

Set Default Proof Using "Type".

(** ** A destination in memory

    What an os.Root does, apart from input and output errors and permissions: every
    operation is on files below it. A path has its last element first; the root itself
    is no entry of the map. Content is never written twice to a file, so a hard link is
    a copy. *)
Inductive fentry := FRegular (perm : Z) (data : string) | FDirectory (perm : Z) | FSymlink (target : string).
#[export] Instance fentry_eq_dec : EqDecision fentry.
Proof. solve_decision. Defined.
Notation memfs := (gmap (list string) fentry).

Definition ENOENT : failure := Text "no such file or directory".
Definition EEXIST : failure := Text "file exists".
Definition ENOTDIR : failure := Text "not a directory".
Definition EISDIR : failure := Text "is a directory".
Definition EPERM : failure := Text "operation not permitted".
Definition ELOOP : failure := Text "too many levels of symbolic links".
Definition errPathEscapes : failure := Text "path escapes from parent".

Section memory.
Context (umask : Z).
Definition masked (perm : Z) : Z := Z.land perm (Z.lnot umask).

(** The directory that [parts] lead to from [stack], through at most [links] symbolic
    links, which may not leave the root; directories that are missing are made when
    [mk] has their permissions. *)
Fixpoint mem_walk (links : nat) (mk : option Z) : list string → list string → memfs → memfs * reply (list string) :=
  fix go stack parts fs {struct parts} :=
    match parts with
    | [] => (fs, Got stack)
    | x :: rest =>
        if decide (x = EmptyString ∨ x = "."%string) then go stack rest fs
        else if decide (x = dotdot) then match stack with [] => (fs, Bad errPathEscapes) | _ :: up => go up rest fs end
        else
          match fs !! (x :: stack) with
          | Some (FDirectory _) => go (x :: stack) rest fs
          | Some (FRegular _ _) => (fs, Bad ENOTDIR)
          | Some (FSymlink target) =>
              match links with
              | O => (fs, Bad ELOOP)
              | S links =>
                  if bool_decide (target = EmptyString) || IsAbs target then (fs, Bad errPathEscapes)
                  else mem_walk links mk stack (split_slash target ++ rest) fs
              end
          | None =>
              match mk with
              | Some perm => go (x :: stack) rest (<[x :: stack := FDirectory (masked perm)]> fs)
              | None => (fs, Bad ENOENT)
              end
          end
    end.
Definition rootMaxSymlinks : nat := 8.

(** The directory of a cleaned name and its last element. *)
Definition located (name : string) : list string * string :=
  match rev (split_slash name) with [] => ([], EmptyString) | x :: up => (rev up, x) end.

Definition mem_MkdirAll (name : string) (perm : Z) (fs : memfs) : memfs * option failure :=
  let '(dirs, x) := located name in
  match mem_walk rootMaxSymlinks (Some perm) [] dirs fs with
  | (fs, Bad e) => (fs, Some e)
  | (fs, Got dir) =>
      if decide (x = "."%string) then (fs, None)
      else
        match fs !! (x :: dir) with
        | None => (<[x :: dir := FDirectory (masked perm)]> fs, None)
        | Some (FDirectory _) => (fs, None)
        | Some (FSymlink _) =>
            (fs, match (mem_walk rootMaxSymlinks None [] (split_slash name) fs).2 with Got _ => None | Bad _ => Some EEXIST end)
        | Some (FRegular _ _) => (fs, Some EEXIST)
        end
  end.

(** Makes an entry at a name where nothing is. *)
Definition mem_create (name : string) (entry : fentry) (fs : memfs) : memfs * option failure :=
  let '(dirs, x) := located name in
  match mem_walk rootMaxSymlinks None [] dirs fs with
  | (fs, Bad e) => (fs, Some e)
  | (fs, Got dir) =>
      if decide (x = "."%string) then (fs, Some EEXIST)
      else match fs !! (x :: dir) with Some _ => (fs, Some EEXIST) | None => (<[x :: dir := entry]> fs, None) end
  end.
Definition mem_OpenFile (name : string) (perm : Z) : memfs → memfs * option failure :=
  mem_create name (FRegular (masked perm) EmptyString).
Definition mem_Symlink (target name : string) : memfs → memfs * option failure := mem_create name (FSymlink target).

Definition mem_Write (name data : string) (fs : memfs) : memfs * option failure :=
  let '(dirs, x) := located name in
  match mem_walk rootMaxSymlinks None [] dirs fs with
  | (fs, Bad e) => (fs, Some e)
  | (fs, Got dir) =>
      match fs !! (x :: dir) with
      | Some (FRegular perm old) => (<[x :: dir := FRegular perm (old ++ data)%string]> fs, None)
      | _ => (fs, Some EISDIR)
      end
  end.
Definition mem_Link (old new : string) (fs : memfs) : memfs * option failure :=
  let '(dirs, x) := located old in
  match mem_walk rootMaxSymlinks None [] dirs fs with
  | (fs, Bad e) => (fs, Some e)
  | (fs, Got dir) =>
      match fs !! (x :: dir) with
      | None => (fs, Some (if decide (x = "."%string) then EPERM else ENOENT))
      | Some (FDirectory _) => (fs, Some EPERM)
      | Some entry => mem_create new entry fs
      end
  end.

Definition memory : Root memfs :=
  {| root_MkdirAll := mem_MkdirAll; root_OpenFile := mem_OpenFile; root_Write := mem_Write;
     root_Symlink := mem_Symlink; root_Link := mem_Link |}.
End memory.

Definition extract_example (limit : Z) (es : list Entry) : list (list string * fentry) * option failure :=
  let '(fs, err) := Extract (memory 0) "a" "d" limit all_open {| tr_Entries := es; tr_End := None |} ∅ in
  (map_to_list fs, err).

(** A link that points at the parent of the destination is made, although its target
    was checked: its name leads through another link. Nothing can be written through it. *)
Example outside_link_kept :
  let link name target := tar_entry TypeSymlink name target EmptyString in
  extract_example 100 [link "a" "."; link "a/b" ".."] =
    ([(["b"], FSymlink ".."); (["a"], FSymlink ".")], None) ∧
  (extract_example 100 [link "a" "."; link "a/b" ".."; tar_entry TypeDir "b/c" EmptyString EmptyString]).2 ≠ None.
Proof. split; vm_compute; congruence. Qed.

(** The largest limit there is lets nothing be copied, and every file is left empty. *)
Example largest_limit_copies_nothing :
  extract_example max_int64 [tar_entry TypeReg "f" EmptyString "data"] = ([(["f"], FRegular 420 EmptyString)], None).
Proof. vm_compute. reflexivity. Qed.

(** ** Volumes *)

Fixpoint child (x : string) (cs : list (string * node)) : option node :=
  match cs with [] => None | (y, c) :: cs => if decide (x = y) then Some c else child x cs end.
Fixpoint at_path (cs : list (string * node)) (path : list string) : option node :=
  match path with
  | [] => None
  | [x] => child x cs
  | x :: rest => match child x cs with Some (Directory _ cs') => at_path cs' rest | _ => None end
  end.
Definition at_node (n : node) (path : list string) : option node :=
  match path, n with [], _ => Some n | _, Directory _ cs => at_path cs path | _, _ => None end.

(** What can be in a directory of the host: names are path elements, all different; a
    special file is none of the kinds that have their own. *)
Fixpoint on_host (n : node) : Prop :=
  match n with
  | Directory _ cs =>
      NoDup cs.*1 ∧ (fix each cs := match cs with [] => True | (x, c) :: cs => plain x ∧ on_host c ∧ each cs end) cs
  | Special _ flag => flag ≠ TypeReg ∧ flag ≠ TypeLink ∧ flag ≠ TypeSymlink ∧ flag ≠ TypeDir
  | _ => True
  end.
Definition volume_on_host (cs : list (string * node)) : Prop := on_host (Directory 0 cs).

(** What extraction accepts: no special file, and links that do not climb out of the
    volume, [depth] being how far down they are; and files that fit into the limit one
    after the other, none of them when it is used up. *)
Fixpoint extractable (depth : nat) (n : node) : bool :=
  match n with
  | Regular _ _ => true
  | Symlink target =>
      negb (bool_decide (target = EmptyString)) && negb (IsAbs target) && inside depth (split_slash target)
  | Directory _ cs => forallb (λ xc, extractable (S depth) xc.2) cs
  | Special _ _ | Socket _ => false
  end.
Fixpoint sizes (n : node) : list Z :=
  match n with
  | Regular _ data => [Z.of_nat (String.length data)]
  | Directory _ cs => concat (map (λ xc, sizes xc.2) cs)
  | _ => []
  end.
Fixpoint fits (budget : Z) (ss : list Z) : bool :=
  match ss with [] => true | s :: ss => Z.ltb 0 budget && Z.leb s budget && fits (budget - s) ss end.
Definition restorable (limit : Z) (cs : list (string * node)) : bool :=
  forallb (λ xc, extractable 0 xc.2) cs && fits limit (concat (map (λ xc, sizes xc.2) cs)).
Fixpoint has_socket (n : node) : bool :=
  match n with Directory _ cs => existsb (λ xc, has_socket xc.2) cs | Socket _ => true | _ => false end.

(** A node as it is restored: its permissions without what the umask takes. *)
Definition restored (umask : Z) (n : node) : option fentry :=
  match n with
  | Regular mode data => Some (FRegular (masked umask (Z.land mode 511)) data)
  | Directory mode _ => Some (FDirectory (masked umask (Z.land mode 511)))
  | Symlink target => Some (FSymlink target)
  | Special _ _ | Socket _ => None
  end.

Lemma node_induction (P : node → Prop) :
  (∀ m d, P (Regular m d)) → (∀ t, P (Symlink t)) → (∀ m f, P (Special m f)) → (∀ m, P (Socket m)) →
  (∀ m cs, Forall (λ xc, P xc.2) cs → P (Directory m cs)) → ∀ n, P n.
Proof.
  intros H1 H2 H3 H4 H5. fix IH 1. intros [m d|t|m cs|m f|m]; [apply H1|apply H2| |apply H3|apply H4].
  apply H5. induction cs as [|[x c] cs IHcs]; constructor; [apply IH|exact IHcs].
Qed.

(** ** What archiving writes *)

Section archived.
Context (fault : stage → list string → option failure) (sourceDir : string).
Notation walk := (walk fault sourceDir).
Notation walk_children := (walk_children fault sourceDir).
Notation archive_entry := (archive_entry fault sourceDir).

Lemma walk_directory p m cs :
  walk p (Directory m cs) =
  (let! e := archive_entry p (Directory m cs) in
   let! es := listed fault sourceDir p (walk_children p cs) in Got (e :: es)).
Proof.
  simpl. destruct (archive_entry p (Directory m cs)); [|done]. simpl. f_equal. f_equal.
  induction cs as [|[x c] cs IH]; [done|]. simpl. destruct (walk (x :: p) c); [|done]. simpl. by rewrite IH.
Qed.

(** The entry of a node. *)
Definition entry_of (p : list string) (n : node) : Entry :=
  let e flag link mode data :=
    {| en_Header := {| hd_Name := rel p; hd_Typeflag := flag; hd_Linkname := link; hd_Mode := mode |};
       en_Body := data; en_Broken := None |} in
  match n with
  | Regular mode data => e TypeReg EmptyString mode data
  | Symlink target => e TypeSymlink target 511 EmptyString
  | Directory mode _ => e TypeDir EmptyString mode EmptyString
  | Special mode flag => e flag EmptyString mode EmptyString
  | Socket mode => e TypeReg EmptyString mode EmptyString
  end.
Definition is_socket (n : node) : bool := match n with Socket _ => true | _ => false end.

Lemma archive_entry_Got p n e : archive_entry p n = Got e → e = entry_of p n ∧ is_socket n = false.
Proof.
  unfold archive_entry. destruct (checked _ _ _ _); [done|].
  destruct n; simpl; try (destruct (checked _ _ _ _); [done|]); by intros [= <-].
Qed.
Lemma failing_at_faultless s p : (∀ s q, fault s q = None) → failing_at fault sourceDir s p = None.
Proof. intros Hf. unfold failing_at. destruct s; by rewrite Hf. Qed.
Lemma archive_entry_faultless p n :
  (∀ s q, fault s q = None) → is_socket n = false → archive_entry p n = Got (entry_of p n).
Proof.
  intros Hf Hs. assert (∀ ss, checked fault sourceDir ss p = None) as Hc.
  { intros ss. unfold checked. induction ss as [|s ss IH]; [done|]. simpl. by rewrite failing_at_faultless. }
  unfold archive_entry. rewrite Hc. destruct n; try done; simpl; by rewrite Hc.
Qed.

Lemma walk_Got p n es :
  walk p n = Got es →
  is_socket n = false ∧
  match n with
  | Directory _ cs => ∃ es', walk_children p cs = Got es' ∧ es = entry_of p n :: es'
  | _ => es = [entry_of p n]
  end.
Proof.
  destruct n as [m d|t|m cs|m f|m].
  3: { rewrite walk_directory. destruct (archive_entry p _) as [e|] eqn:He; [|done]. simpl. apply archive_entry_Got in He as [-> _].
       unfold listed. destruct (failing_at _ _ _ _); [done|]. destruct (walk_children p cs) as [es'|]; [|done].
       intros [= <-]. split; [done|]. by exists es'. }
  all: simpl; destruct (archive_entry p _) as [e|] eqn:He; [|done]; apply archive_entry_Got in He as [-> Hs]; by intros [= <-].
Qed.
Lemma walk_children_Got p x c cs es :
  walk_children p ((x, c) :: cs) = Got es →
  ∃ es1 es2, walk (x :: p) c = Got es1 ∧ walk_children p cs = Got es2 ∧ es = es1 ++ es2.
Proof.
  simpl. destruct (walk (x :: p) c) as [es1|]; [|done]. simpl. destruct (walk_children p cs) as [es2|]; [|done].
  intros [= <-]. by exists es1, es2.
Qed.

Lemma walk_sockets n : ∀ p es, walk p n = Got es → has_socket n = false.
Proof.
  induction n as [| | | |m cs IH] using node_induction; intros p es H; try done;
    [by apply walk_Got in H as [H _]|]. apply walk_Got in H as (_ & es' & H & _). simpl.
  revert es' H. induction IH as [|[x c] cs Hc Hcs IHcs]; intros es' H; [done|].
  apply walk_children_Got in H as (es1 & es2 & H1 & H2 & _). simpl in *. by rewrite (Hc _ _ H1), (IHcs _ H2).
Qed.
Lemma walk_faultless n : (∀ s q, fault s q = None) → ∀ p, has_socket n = false → ∃ es, walk p n = Got es.
Proof.
  intros Hf. induction n as [| | | |m cs IH] using node_induction; intros p Hs; try done.
  1-3: simpl; rewrite archive_entry_faultless by done; by eexists.
  rewrite walk_directory, archive_entry_faultless by done. simpl in *. unfold listed. rewrite failing_at_faultless by done.
  assert (∃ es, walk_children p cs = Got es) as [es ->]; [|by eexists].
  induction IH as [|[x c] cs Hc Hcs IHcs]; [by eexists|]. simpl in *. apply orb_false_iff in Hs as [Hs1 Hs2].
  simpl in Hc. destruct (Hc (x :: p) Hs1) as [es1 ->]. destruct (IHcs Hs2) as [es2 ->]. by eexists.
Qed.
End archived.

(** ** Extracting one entry *)

Section steps.
Context (umask : Z).
Notation root := (memory umask).
Implicit Types (fs : memfs) (dir p : list string).

(** [dir] and every directory above it are there. *)
Fixpoint dirs_ok fs dir : Prop :=
  match dir with [] => True | x :: up => plain x ∧ (∃ perm, fs !! dir = Some (FDirectory perm)) ∧ dirs_ok fs up end.

Lemma dirs_ok_app fs p dir : dirs_ok fs (p ++ dir) → dirs_ok fs dir.
Proof. induction p as [|x p IH]; [done|]. simpl. tauto. Qed.
Lemma dirs_ok_plain fs dir : dirs_ok fs dir → Forall plain dir.
Proof. induction dir as [|x dir IH]; [constructor|]. intros (Hx & _ & H). constructor; auto. Qed.
Lemma dirs_ok_frame fs fs' dir :
  (∀ q, q `suffix_of` dir → fs' !! q = fs !! q) → dirs_ok fs dir → dirs_ok fs' dir.
Proof.
  induction dir as [|x dir IH]; [done|]. intros Hf (Hx & [perm Hp] & H). split; [done|]. split.
  - exists perm. by rewrite Hf.
  - apply IH; [|done]. intros q Hq. apply Hf. by apply suffix_cons_r.
Qed.

Lemma mem_walk_dirs mk links fs ys stack :
  dirs_ok fs (rev ys ++ stack) → mem_walk umask links mk stack ys fs = (fs, Got (rev ys ++ stack)).
Proof.
  revert stack. induction ys as [|y ys IH]; intros stack H; [by destruct links|]. simpl in H. rewrite <- app_assoc in H.
  simpl in H. pose proof (dirs_ok_app _ _ _ H) as ((_ & H1 & H2 & H3) & [perm Hp] & _).
  assert (mem_walk umask links mk stack (y :: ys) fs = mem_walk umask links mk (y :: stack) ys fs) as ->.
  { destruct links; simpl; rewrite decide_False by tauto; rewrite decide_False by done; by rewrite Hp. }
  rewrite IH by done. simpl. by rewrite <- app_assoc.
Qed.

Lemma rel_joined x dir : rel (x :: dir) = joined (rev dir ++ [x]).
Proof. unfold rel, joined. simpl. by destruct (rev dir). Qed.
Lemma plain_snoc x dir : plain x → Forall plain dir → Forall plain (rev dir ++ [x]).
Proof. intros Hx Hd. apply Forall_app. split; [by apply Forall_rev|by apply Forall_singleton]. Qed.
Lemma located_rel x dir : plain x → Forall plain dir → located (rel (x :: dir)) = (rev dir, x).
Proof.
  intros Hx Hd. unfold located. rewrite rel_joined, split_joined by (by apply plain_snoc || by destruct (rev dir)).
  by rewrite rev_app_distr, rev_involutive.
Qed.
Lemma inside_plain n xs : Forall plain xs → inside n xs = true.
Proof.
  intros H. revert n. induction H as [|x xs (_ & H1 & H2 & H3) H IH]; intros n; [done|]. simpl.
  rewrite decide_False by tauto. by rewrite decide_False.
Qed.
Lemma checkEntryName_rel x dir : plain x → Forall plain dir → checkEntryName (rel (x :: dir)) = Got (rel (x :: dir)).
Proof.
  intros Hx Hd. rewrite rel_joined. set (xs := rev dir ++ [x]). assert (Forall plain xs) as Hp by by apply plain_snoc.
  assert (xs ≠ []) as Hne by (unfold xs; by destruct (rev dir)).
  pose proof (joined_nonempty xs EmptyString Hp) as H1. pose proof (joined_relative xs EmptyString Hp) as H2.
  rewrite append_empty in H1, H2. assert (elements_of (joined xs) = xs) as He.
  { unfold elements_of. rewrite H2, split_joined, clean_steps_relative, app_nil_r by done. apply rev_involutive. }
  unfold checkEntryName. rewrite decide_False, H2, climbs_relative, split_joined, inside_plain by done. simpl.
  rewrite Clean_relative by (rewrite ?He; done). by rewrite He.
Qed.

Lemma joined_parent xs : Forall plain xs → (joined xs = "."%string ∨ joined xs = "/"%string) ↔ xs = [].
Proof.
  intros Hp. split; [|intros ->; by left]. intros [H|H]; destruct (decide (xs = [])) as [|Hne]; try done;
    pose proof (split_joined xs Hp Hne) as Hs; rewrite H in Hs; simpl in Hs; subst xs;
    apply Forall_cons in Hp as [(_ & H1 & H2 & _) _]; first [by destruct H1|by destruct H2].
Qed.
(** The parents of an archived path are there already. *)
Lemma ensureParent_there x dir fs :
  plain x → dirs_ok fs dir → ensureParent root (rel (x :: dir)) fs = (fs, None).
Proof.
  intros Hx Hd. pose proof (dirs_ok_plain _ _ Hd) as Hp. unfold ensureParent. rewrite rel_joined, path_dir_joined by by apply plain_snoc.
  case_decide as Hj; [done|]. rewrite joined_parent in Hj by by apply Forall_rev.
  destruct dir as [|y up]; [done|]. apply Forall_cons in Hp as [Hy Hup]. destruct Hd as (_ & [perm Hf] & Hd).
  change (joined (rev (y :: up))) with (joined (rev up ++ [y])). rewrite <- rel_joined.
  cbn [root_MkdirAll memory]. unfold mem_MkdirAll. rewrite located_rel, mem_walk_dirs by (done || by rewrite app_nil_r, rev_involutive).
  rewrite app_nil_r, rev_involutive. rewrite decide_False by apply Hy. by rewrite Hf.
Qed.

Lemma mem_create_absent x dir fs e :
  plain x → dirs_ok fs dir → fs !! (x :: dir) = None →
  mem_create umask (rel (x :: dir)) e fs = (<[x :: dir := e]> fs, None).
Proof.
  intros Hx Hd Hf. pose proof (dirs_ok_plain _ _ Hd) as Hp. unfold mem_create.
  rewrite located_rel, mem_walk_dirs by (done || by rewrite app_nil_r, rev_involutive).
  rewrite app_nil_r, rev_involutive. rewrite decide_False by apply Hx. by rewrite Hf.
Qed.
Lemma mem_MkdirAll_absent x dir fs perm :
  plain x → dirs_ok fs dir → fs !! (x :: dir) = None →
  mem_MkdirAll umask (rel (x :: dir)) perm fs = (<[x :: dir := FDirectory (masked umask perm)]> fs, None).
Proof.
  intros Hx Hd Hf. pose proof (dirs_ok_plain _ _ Hd) as Hp. unfold mem_MkdirAll.
  rewrite located_rel, mem_walk_dirs by (done || by rewrite app_nil_r, rev_involutive).
  rewrite app_nil_r, rev_involutive. rewrite decide_False by apply Hx. by rewrite Hf.
Qed.
Lemma mem_Write_new x dir fs perm data :
  plain x → dirs_ok fs dir → fs !! (x :: dir) = Some (FRegular perm EmptyString) →
  mem_Write umask (rel (x :: dir)) data fs = (<[x :: dir := FRegular perm data]> fs, None).
Proof.
  intros Hx Hd Hf. pose proof (dirs_ok_plain _ _ Hd) as Hp. unfold mem_Write.
  rewrite located_rel, mem_walk_dirs by (done || by rewrite app_nil_r, rev_involutive).
  rewrite app_nil_r, rev_involutive. by rewrite Hf.
Qed.
Lemma dirs_ok_insert x dir fs e : dirs_ok fs dir → dirs_ok (<[x :: dir := e]> fs) dir.
Proof.
  apply dirs_ok_frame. intros q Hq. apply lookup_insert_ne. intros <-. apply suffix_length in Hq. simpl in Hq. lia.
Qed.
End steps.

Definition own_size (n : node) : Z := match n with Regular _ data => Z.of_nat (String.length data) | _ => 0 end.
(** Whether extraction accepts the entry of a node. *)
Definition accepted (depth : nat) (budget : Z) (n : node) : bool :=
  match n with
  | Regular _ data => Z.ltb 0 budget && Z.leb (Z.of_nat (String.length data)) budget
  | Directory _ _ => true
  | _ => extractable depth n
  end.

Section restores.
Context (umask : Z) (archivePath : string) (limit : Z) (Hlimit : in_int64 limit) (Hlarge : limit < max_int64).
Notation root := (memory umask).
Notation extract_entry := (extract_entry root archivePath limit).
Notation extract_entries := (extract_entries root archivePath limit).
Implicit Types (fs : memfs) (dir p : list string).

Lemma LimitReader_all e n :
  0 < n → Z.of_nat (String.length (en_Body e)) < n → LimitReader e n = (en_Body e, en_Broken e).
Proof using Type.
  intros Hn Hl. unfold LimitReader. destruct (Z.leb_spec n 0); [lia|]. by destruct (Z.leb_spec n (Z.of_nat (String.length (en_Body e)))); [lia|].
Qed.

Lemma extract_file x dir fs w mode data :
  plain x → dirs_ok fs dir → fs !! (x :: dir) = None → 0 ≤ w ≤ Z.max 0 limit →
  let '(fs', r) := extractFile root (entry_of (x :: dir) (Regular mode data)) (rel (x :: dir)) (sub64 limit w) fs in
  if accepted (length dir) (limit - w) (Regular mode data)
  then fs' = <[x :: dir := FRegular (masked umask (Z.land mode 511)) data]> fs ∧ r = Got (Z.of_nat (String.length data))
  else ∃ err, r = Bad err.
Proof using Hlimit Hlarge.
  intros Hx Hd Hf Hw. destruct (budget_left limit (conj Hlimit Hlarge) w Hw) as [-> Hadd].
  unfold extractFile, accepted. destruct (Z.leb_spec (limit - w) 0) as [Hb|Hb].
  { destruct (Z.ltb_spec 0 (limit - w)); [lia|]. simpl. by eexists. }
  destruct (Z.ltb_spec 0 (limit - w)); [|lia]. rewrite Hadd by done. rewrite ensureParent_there by done.
  cbn [root_OpenFile memory]. unfold mem_OpenFile. rewrite mem_create_absent by done.
  set (e := entry_of (x :: dir) (Regular mode data)). simpl.
  destruct (Z.leb_spec (Z.of_nat (String.length data)) (limit - w)) as [Hl|Hl].
  - rewrite LimitReader_all by (simpl; lia). simpl.
    rewrite (mem_Write_new _ _ _ _ (masked umask (Z.land mode 511))) by (done || by apply dirs_ok_insert || by rewrite lookup_insert_eq).
    destruct (Z.ltb_spec (limit - w) (Z.of_nat (String.length data))); [lia|]. by rewrite insert_insert_eq.
  - assert (∃ d, LimitReader e (limit - w + 1) = (d, None) ∧ limit - w < Z.of_nat (String.length d)) as (d & -> & Hdl).
    { unfold LimitReader. destruct (Z.leb_spec (limit - w + 1) 0); [lia|]. simpl.
      destruct (Z.leb_spec (limit - w + 1) (Z.of_nat (String.length data))); [|lia].
      eexists. split; [done|]. rewrite length_first_bytes; lia. }
    destruct (mem_Write _ _ _ _) as [fs' [err|]]; [by eexists|].
    destruct (Z.ltb_spec (limit - w) (Z.of_nat (String.length d))); [by eexists|lia].
Qed.

Lemma extract_own x dir fs w n :
  plain x → dirs_ok fs dir → fs !! (x :: dir) = None → 0 ≤ w ≤ Z.max 0 limit → is_socket n = false → on_host n →
  let '(fs', r) := extract_entry (entry_of (x :: dir) n) w fs in
  if accepted (length dir) (limit - w) n
  then (∃ e, restored umask n = Some e ∧ fs' = <[x :: dir := e]> fs) ∧ r = Got (own_size n)
  else ∃ err, r = Bad err.
Proof using Hlimit Hlarge.
  intros Hx Hd Hf Hw Hs Hh. pose proof (dirs_ok_plain _ _ Hd) as Hp. unfold Archives.extract_entry.
  destruct n as [mode data|target|mode cs|mode flag|mode]; [| | | |done].
  all: cbn [hd_Name en_Header entry_of hd_Typeflag hd_Linkname]; rewrite checkEntryName_rel by done.
  - pose proof (extract_file x dir fs w mode data Hx Hd Hf Hw) as H. cbn [entry_of] in H.
    rewrite decide_False by done. rewrite decide_True by done. destruct (extractFile _ _ _ _ _) as [fs' r].
    destruct (accepted _ _ _); [|done]. destruct H as [-> ->]. split; [|done]. by eexists.
  - do 2 rewrite decide_False by done. rewrite decide_True by done. unfold accepted, extractable.
    pose proof (checkSymlinkTarget_exact (rev dir) x target ltac:(by apply plain_snoc)) as Hc. rewrite <- rel_joined, length_rev in Hc.
    destruct (checkSymlinkTarget _ _) as [err|].
    + destruct (negb _ && _ && _) eqn:E; [|by eexists]. exfalso. rewrite !andb_true_iff, !negb_true_iff, bool_decide_eq_false in E.
      destruct Hc as [_ Hc]. by assert (Some err = None) by (apply Hc; tauto).
    + destruct Hc as [Hc _]. destruct (Hc eq_refl) as (H1 & H2 & H3). rewrite bool_decide_eq_false_2, H2, H3 by done. simpl.
      rewrite ensureParent_there by done. cbn [root_Symlink memory]. unfold mem_Symlink. rewrite mem_create_absent by done.
      split; [|done]. by eexists.
  - rewrite decide_True by done. cbn [root_MkdirAll memory]. rewrite mem_MkdirAll_absent by done. simpl.
    split; [|done]. by eexists.
  - destruct Hh as (H1 & H2 & H3 & H4). simpl. do 4 rewrite decide_False by done. by eexists.
Qed.

(** *** A whole node *)

Definition total (ss : list Z) : Z := foldr Z.add 0 ss.
Lemma total_cons s ss : total (s :: ss) = s + total ss.
Proof using Type. done. Qed.
Lemma total_app a b : total (a ++ b) = total a + total b.
Proof using Type. induction a as [|x a IH]; [done|]. rewrite <- app_comm_cons, !total_cons, IH. lia. Qed.
Lemma sizes_nonneg n : 0 ≤ total (sizes n).
Proof using Type.
  induction n as [| | | |m cs IH] using node_induction; simpl; rewrite ?total_cons; change (total []) with 0; try lia.
  induction IH as [|[x c] cs Hc Hcs IHcs]; [done|]. cbn [map concat]. rewrite total_app. simpl in Hc |- *. lia.
Qed.
Lemma fits_app b ss ss' : fits b (ss ++ ss') = fits b ss && fits (b - total ss) ss'.
Proof using Type.
  revert b. induction ss as [|s ss IH]; intros b; [by rewrite Z.sub_0_r|]. rewrite total_cons. simpl. rewrite IH, andb_assoc.
  do 2 f_equal. lia.
Qed.
Lemma fits_total b ss : fits b ss = true → total ss ≤ Z.max 0 b.
Proof using Type.
  revert b. induction ss as [|s ss IH]; intros b; [change (total []) with 0; lia|]. rewrite total_cons. simpl.
  rewrite !andb_true_iff, Z.ltb_lt, Z.leb_le. intros [[H1 H2] H3]. apply IH in H3. lia.
Qed.

Definition acceptable (depth : nat) (budget : Z) (n : node) : bool := extractable depth n && fits budget (sizes n).
Definition all_acceptable (depth : nat) (budget : Z) (cs : list (string * node)) : bool :=
  forallb (λ xc, extractable depth xc.2) cs && fits budget (concat (map (λ xc, sizes xc.2) cs)).

(** Extraction of the entries [es], from [w] bytes and [fs], goes on with [rest] at
    [w + added] bytes and some [fs'], or fails. *)
Definition goes_on (es : list Entry) (w : Z) fs (good : bool) (added : Z) (after : memfs → Prop) : Prop :=
  ∀ rest finish,
  if good then ∃ fs', extract_entries (es ++ rest) finish w fs = extract_entries rest finish (w + added) fs' ∧ after fs'
  else ∃ fs' err, extract_entries (es ++ rest) finish w fs = (fs', Some err).

Definition nothing_below fs p : Prop := ∀ q, fs !! (q ++ p) = None.
Definition holds_node p (n : node) fs fs' : Prop :=
  (∀ path, fs' !! (rev path ++ p) = at_node n path ≫= restored umask) ∧ ∀ q, ¬ p `suffix_of` q → fs' !! q = fs !! q.
Definition holds_children p (cs : list (string * node)) fs fs' : Prop :=
  (∀ x path, x ∈ cs.*1 → fs' !! (rev path ++ x :: p) = at_path cs (x :: path) ≫= restored umask) ∧
  ∀ q, (∀ x, x ∈ cs.*1 → ¬ (x :: p) `suffix_of` q) → fs' !! q = fs !! q.

Section walked.
Context (fault : stage → list string → option failure) (sourceDir : string).

Definition node_restores (n : node) : Prop :=
  ∀ x dir fs w es,
  on_host n → plain x → dirs_ok fs dir → nothing_below fs (x :: dir) → 0 ≤ w ≤ Z.max 0 limit →
  walk fault sourceDir (x :: dir) n = Got es →
  goes_on es w fs (acceptable (length dir) (limit - w) n) (total (sizes n)) (holds_node (x :: dir) n fs).

Lemma at_path_cons cs x path : at_path cs (x :: path) = child x cs ≫= λ c, at_node c path.
Proof using Type. by destruct path; simpl; destruct (child x cs) as [[]|]. Qed.
Lemma child_absent x cs : x ∉ cs.*1 → child x cs = None.
Proof using Type.
  induction cs as [|[y c] cs IH]; [done|]. simpl. rewrite not_elem_of_cons. intros [H1 H2]. rewrite decide_False by done. auto.
Qed.

Lemma children_restore cs : Forall (λ xc, node_restores xc.2) cs →
  ∀ p fs w es,
  on_host (Directory 0 cs) → dirs_ok fs p → (∀ x, x ∈ cs.*1 → nothing_below fs (x :: p)) → 0 ≤ w ≤ Z.max 0 limit →
  walk_children fault sourceDir p cs = Got es →
  goes_on es w fs (all_acceptable (length p) (limit - w) cs) (total (concat (map (λ xc, sizes xc.2) cs))) (holds_children p cs fs).
Proof using Type.
  induction 1 as [|[x c] cs Hc Hcs IH]; intros p fs w es [Hnd Hh] Hd Hnb Hw Hwalk.
  { injection Hwalk as <-. intros rest finish. simpl. exists fs. unfold total. simpl. rewrite Z.add_0_r. split; [done|].
    split; [by intros x path ?%elem_of_nil|done]. }
  apply walk_children_Got in Hwalk as (es1 & es2 & H1 & H2 & ->). simpl in Hh, Hnd. destruct Hh as (Hx & Hhc & Hh).
  apply NoDup_cons in Hnd as [Hnx Hnd]. intros rest finish. rewrite <- app_assoc. simpl in Hc.
  specialize (Hc x p fs w es1 Hhc Hx Hd (Hnb x ltac:(by left)) Hw H1 (es2 ++ rest) finish).
  unfold all_acceptable, acceptable in *. simpl. rewrite fits_app, total_app.
  destruct (extractable (length p) c); [|exact Hc]. destruct (fits (limit - w) (sizes c)) eqn:Hfit;
    [|rewrite andb_false_r; exact Hc]. simpl in Hc |- *. destruct Hc as (fs1 & -> & Ha1 & Ha2).
  pose proof (sizes_nonneg c). apply fits_total in Hfit.
  assert (∀ q, q `suffix_of` p → fs1 !! q = fs !! q) as Hup.
  { intros q Hq. apply Ha2. intros Hs. apply suffix_length in Hq, Hs. simpl in Hs. lia. }
  assert (∀ y, y ≠ x → ∀ q, fs1 !! (q ++ y :: p) = fs !! (q ++ y :: p)) as Hside.
  { intros y Hy q. apply Ha2. intros [k Hk]. change (q ++ y :: p) with (q ++ [y] ++ p) in Hk. change (k ++ x :: p) with (k ++ [x] ++ p) in Hk.
    rewrite !app_assoc in Hk. apply app_inv_tail in Hk. apply app_inj_tail in Hk as [_ ->]. done. }
  specialize (IH p fs1 (w + total (sizes c)) es2 (conj Hnd Hh)).
  replace (limit - w - total (sizes c)) with (limit - (w + total (sizes c))) by lia.
  rewrite Z.add_assoc. assert (dirs_ok fs1 p) as Hd1 by (by eapply dirs_ok_frame; [exact Hup|]).
  specialize (IH Hd1). assert (∀ y, y ∈ cs.*1 → nothing_below fs1 (y :: p)) as Hnb1.
  { intros y Hy q. rewrite Hside by (by intros ->). apply Hnb. by right. }
  specialize (IH Hnb1 ltac:(lia) H2 rest finish). unfold all_acceptable in IH.
  destruct (forallb _ cs && fits _ _); [|exact IH]. destruct IH as (fs2 & -> & Hb1 & Hb2). exists fs2. split; [done|]. split.
  - intros y path Hy. rewrite at_path_cons. simpl. case_decide as Hxy.
    + subst y. rewrite Hb2; [by apply Ha1|]. intros z Hz [k Hk]. change (rev path ++ x :: p) with (rev path ++ [x] ++ p) in Hk.
      change (k ++ z :: p) with (k ++ [z] ++ p) in Hk. rewrite !app_assoc in Hk. apply app_inv_tail in Hk.
      apply app_inj_tail in Hk as [_ ->]. done.
    + apply elem_of_cons in Hy as [->|Hy]; [done|]. rewrite <- at_path_cons. by apply Hb1.
  - intros q Hq. rewrite Hb2 by (intros z Hz; apply Hq; by right). apply Ha2. apply Hq. by left.
Qed.

Lemma rev_path_eq (path : list string) p : rev path ++ p = p ↔ path = [].
Proof using Type.
  split; [|by intros ->]. intros H. apply (f_equal length) in H. rewrite length_app, length_rev in H.
  destruct path; simpl in H; [done|lia].
Qed.
Lemma entry_restores n : (∀ m cs, n ≠ Directory m cs) → node_restores n.
Proof using Hlimit Hlarge.
  intros Hdir x dir fs w es Hh Hx Hd Hnb Hw Hwalk rest finish. apply walk_Got in Hwalk as [Hs Hes].
  assert (es = [entry_of (x :: dir) n]) as -> by (destruct n; try done; by edestruct Hdir).
  pose proof (extract_own x dir fs w n Hx Hd (Hnb []) Hw Hs Hh) as H. simpl.
  assert (acceptable (length dir) (limit - w) n = accepted (length dir) (limit - w) n) as ->.
  { unfold acceptable, accepted. destruct n; simpl; rewrite ?andb_true_r; try done. by edestruct Hdir. }
  assert (total (sizes n) = own_size n) as -> by (destruct n; simpl; rewrite ?total_cons; change (total []) with 0; try lia; by edestruct Hdir).
  destruct (extract_entry _ w fs) as [fs' r]. destruct (accepted _ _ n) eqn:Hacc.
  - destruct H as [(e & He & ->) ->]. exists (<[x :: dir := e]> fs). split.
    + f_equal. apply add64_id. unfold in_int64, min_int64, max_int64 in *. destruct n; simpl in *; lia.
    + split.
      * intros path. destruct (decide (path = [])) as [->|Hp]; [by rewrite lookup_insert_eq|].
        rewrite lookup_insert_ne by (intros H; symmetry in H; by apply rev_path_eq in H). rewrite Hnb.
        destruct path; [done|]. destruct n; try done. by edestruct Hdir.
      * intros q Hq. apply lookup_insert_ne. intros <-. by apply Hq.
  - destruct H as [err ->]. by eexists _, _.
Qed.

Lemma directory_restores m cs : Forall (λ xc, node_restores xc.2) cs → node_restores (Directory m cs).
Proof using Hlimit Hlarge.
  intros Hcs x dir fs w es Hh Hx Hd Hnb Hw Hwalk rest finish. apply walk_Got in Hwalk as (_ & es' & Hwalk & ->).
  pose proof (extract_own x dir fs w (Directory m cs) Hx Hd (Hnb []) Hw eq_refl Hh) as H.
  cbn [app Archives.extract_entries]. cbn [accepted own_size] in H. destruct (extract_entry _ w fs) as [fs1 r].
  destruct H as [(e & [= <-] & ->) ->]. rewrite add64_id by (unfold in_int64, min_int64, max_int64 in *; lia). rewrite Z.add_0_r.
  set (fs1 := <[x :: dir := _]> fs).
  assert (dirs_ok fs1 (x :: dir)) as Hd1.
  { split; [done|]. split; [eexists; apply lookup_insert_eq|by apply dirs_ok_insert]. }
  assert (∀ y, y ∈ cs.*1 → nothing_below fs1 (y :: x :: dir)) as Hnb1.
  { intros y _ q. unfold fs1. rewrite lookup_insert_ne.
    - change (q ++ y :: x :: dir) with (q ++ [y] ++ x :: dir). rewrite app_assoc. apply Hnb.
    - intros H. apply (f_equal length) in H. rewrite length_app in H. simpl in H. lia. }
  pose proof (children_restore cs Hcs (x :: dir) fs1 w es' Hh Hd1 Hnb1 Hw Hwalk rest finish) as H.
  change (acceptable (length dir) (limit - w) (Directory m cs)) with (all_acceptable (length (x :: dir)) (limit - w) cs).
  change (sizes (Directory m cs)) with (concat (map (λ xc, sizes xc.2) cs)).
  destruct (all_acceptable _ _ cs); [|exact H]. destruct H as (fs' & -> & Ha & Hb). exists fs'. split; [done|]. split.
  - intros [|y path]; simpl.
    + rewrite Hb; [apply lookup_insert_eq|]. intros y _ Hs. apply suffix_length in Hs. simpl in Hs. lia.
    + rewrite <- app_assoc. simpl. destruct (decide (y ∈ cs.*1)) as [Hy|Hy]; [by apply Ha|].
      change (match path with [] => _ | _ => _ end) with (at_path cs (y :: path)).
      rewrite at_path_cons, (child_absent y cs Hy). simpl. rewrite Hb.
      * unfold fs1. rewrite lookup_insert_ne; [change (rev path ++ y :: x :: dir) with (rev path ++ [y] ++ x :: dir); rewrite app_assoc; apply Hnb|].
        intros H. apply (f_equal length) in H. rewrite length_app in H. simpl in H. lia.
      * intros z Hz [k Hk]. change (rev path ++ y :: x :: dir) with (rev path ++ [y] ++ x :: dir) in Hk.
        change (k ++ z :: x :: dir) with (k ++ [z] ++ x :: dir) in Hk. rewrite !app_assoc in Hk. apply app_inv_tail in Hk.
        apply app_inj_tail in Hk as [_ ->]. done.
  - intros q Hq. rewrite Hb.
    + apply lookup_insert_ne. intros <-. by apply Hq.
    + intros y _ [k ->]. apply Hq. exists (k ++ [y]). by rewrite <- app_assoc.
Qed.

Lemma every_node_restores n : node_restores n.
Proof using Hlimit Hlarge.
  induction n as [| | | |m cs IH] using node_induction; try by apply entry_restores. by apply directory_restores.
Qed.
End walked.
End restores.

Definition nothing_fails (fault : stage → list string → option failure) (io : Writing) : Prop :=
  (∀ s p, fault s p = None) ∧ wr_Create io = None ∧ wr_Tar io = None ∧ wr_Gzip io = None ∧ wr_Sync io = None.

(** C19 (backup/archive.go, Archive; restore/extract.go, Extract): what a backup of a
    volume gives back. Archiving fails only for an error of the host or a socket in the
    volume. An archive that was written, extracted into an empty directory, is accepted
    exactly when the volume has no FIFO and no device, every symbolic link stays below
    the volume, and the files fit into the limit one after the other; then every path
    holds what it held, a file its bytes, a link its target, with the permissions the
    umask leaves, and there is nothing else. *)
Theorem backup_restores (fault : stage → list string → option failure) (gzipped : list Entry → string)
    (sourceDir destFile archivePath destDir : string) (io : Writing) (volume : list (string * node)) (umask limit : Z)
    (Hvolume : volume_on_host volume) (Hlimit : in_int64 limit) (Hlarge : limit < max_int64) :
  match Archive fault gzipped sourceDir destFile io volume with
  | Bad _ => nothing_fails fault io → existsb (λ xc, has_socket xc.2) volume = true
  | Got (t, result) =>
      existsb (λ xc, has_socket xc.2) volume = false ∧
      let '(fs, err) := Extract (memory umask) archivePath destDir limit all_open t ∅ in
      (err = None ↔ restorable limit volume = true) ∧
      (err = None → ∀ path, fs !! rev path = at_path volume path ≫= restored umask)
  end.
Proof.
  assert (walk fault sourceDir [] (Directory 0 volume) = _) as Hwalk by apply walk_directory.
  destruct (Archive _ _ _ _ _ _) as [[t res]|e] eqn:E; unfold Archive in E.
  - destruct (wr_Create io); [done|]. destruct (archiveDir fault sourceDir volume) as [es|] eqn:Ea; [|done]. simpl in E.
    destruct (wr_Tar io), (wr_Gzip io), (wr_Sync io); try done. injection E as <- _.
    unfold archiveDir, listed in Ea. destruct (failing_at _ _ _ _); [done|]. split.
    + clear Hwalk Hvolume. revert es Ea. induction volume as [|[x c] cs IH]; intros es Ea; [done|].
      apply walk_children_Got in Ea as (es1 & es2 & H1 & H2 & _). simpl. by rewrite (walk_sockets _ _ _ _ _ H1), (IH _ H2).
    + pose proof (children_restore umask archivePath limit fault sourceDir volume) as H.
      specialize (H ltac:(apply Forall_forall; intros; by apply every_node_restores) [] ∅ 0 es Hvolume I).
      specialize (H ltac:(intros x _ q; apply lookup_empty) ltac:(lia) Ea [] None). rewrite app_nil_r, Z.sub_0_r in H.
      cbn [Extract all_open op_Archive op_Gzip op_Dest op_Root tr_Entries tr_End].
      change (all_acceptable (length []) limit volume) with (restorable limit volume) in H.
      destruct (restorable limit volume).
      * destruct H as (fs & -> & Ha & Hb). simpl. split; [done|]. intros _ [|x path]; [rewrite Hb; [done|]|].
        { intros x _ Hs. apply suffix_length in Hs. simpl in Hs. lia. }
        simpl rev. destruct (decide (x ∈ volume.*1)) as [Hx|Hx]; [by apply Ha|].
        rewrite at_path_cons, (child_absent x volume Hx), Hb; [done|]. intros y Hy [k Hk].
        by apply app_inj_tail in Hk as [_ ->].
      * destruct H as (fs & err & ->). split; [|done]. split; intros; done.
  - intros (Hf & H1 & H2 & H3 & H4). rewrite H1, H2, H3, H4 in E. apply not_false_is_true. intros Hs.
    unfold archiveDir, listed in E. rewrite failing_at_faultless in E by done.
    destruct (walk_faultless fault sourceDir (Directory 0 volume) Hf [] Hs) as [es Hes].
    apply walk_Got in Hes as (_ & es' & Hes & _). by rewrite Hes in E.
Qed.

(** A volume with a directory, files and links that stay inside comes back. *)
Definition example_volume : list (string * node) :=
  [("base", Directory 448 [("1", Regular 384 "row data"); ("up", Symlink "../PG_VERSION")]);
   ("PG_VERSION", Regular 384 "17")]%string.
Definition written_fine : Writing := {| wr_Create := None; wr_Tar := None; wr_Gzip := None; wr_Sync := None |}.
Definition restore_example (volume : list (string * node)) : option (memfs * option failure) :=
  match Archive (λ _ _, None) (λ _, EmptyString) "/v" "/a" written_fine volume with
  | Got (t, _) => Some (Extract (memory 18) "/a" "/d" 1000 all_open t ∅)
  | Bad _ => None
  end.

Lemma backup_restores_witness :
  match restore_example example_volume with
  | Some (fs, err) =>
      err = None ∧ fs !! ["1"; "base"]%string = Some (FRegular 384 "row data") ∧
      fs !! ["up"; "base"]%string = Some (FSymlink "../PG_VERSION")
  | None => False
  end.
Proof.
  assert (volume_on_host example_volume) as Hv.
  { assert (∀ xs : list string, bool_decide (NoDup xs) = true → NoDup xs) as Hn by (intros xs; apply bool_decide_eq_true).
    split; [by apply Hn; vm_compute|]. repeat split; try done; by apply Hn; vm_compute. }
  pose proof (backup_restores (λ _ _, None) (λ _, EmptyString) "/v" "/a" "/a" "/d" written_fine example_volume 18 1000
    Hv ltac:(by vm_compute) ltac:(by vm_compute)) as H.
  unfold restore_example. destruct (Archive _ _ _ _ _ _) as [[t res]|e]; [|specialize (H ltac:(done)); by vm_compute in H].
  destruct H as [_ H]. destruct (Extract _ _ _ _ _ _ _) as [fs err]. destruct H as [[_ Hok] Hp].
  assert (err = None) as He by (apply Hok; vm_compute; reflexivity). split; [done|].
  split; [exact (Hp He ["base"; "1"]%string)|exact (Hp He ["base"; "up"]%string)].
Defined.

(** A link to an absolute path, which is what it is in the container, is archived, and
    the archive cannot be restored; so is a FIFO. *)
Example unrestorable_backup :
  (∃ fs err, restore_example [("data", Symlink "/var/lib/data")]%string = Some (fs, Some err)) ∧
  (∃ fs err, restore_example [("pipe", Special 384 "6")]%string = Some (fs, Some err)).
Proof. split; eexists _, _; vm_compute; reflexivity. Qed.
