(* ===== verification/Placement.v ===== *)
(** Placing a Scheduled Project (internal/agent/loop.go, reconcileOne): its containers
    are created over data that is proven, and Running is reported when they run. *)
From Stdlib Require Import ZArith Lia.
From stdpp Require Import prelude gmap strings.
From S2P Require Import Prelude.
From S2P Require Import Conditions.
From S2P Require Import ProjectTypes.
From S2P Require Import AccessTypes.
From S2P Require Import Failures.
From S2P Require Import Tracker.
From S2P Require Import Actions.
From S2P Require Import VolumeData.
From S2P Require Import Health.
From S2P Require Import Reports.
From S2P Require Import AgentSecrets.
From S2P Require Import PgPlacement.
Import GoTime GoInt GoString.
Open Scope nat_scope.

Set Default Proof Using "Type".

(** What the Agent is built with. The flags say which parts are there; a nil
    BackupSupport is [None]. *)
Record BackupSupport := {
  bs_Coordinator : bool; bs_Restorer : bool; bs_RepoHost : bool; bs_ObjectStore : bool;
  bs_DataRoot : string; bs_NodeName : string
}.
Record Runtime := {
  rn_Routes : bool; rn_RunsCommands : bool; rn_RunsOneShot : bool; rn_Backups : option BackupSupport
}.

(** The restores of PostgresDifferential Projects exist (backupsupport.go). *)
Definition postgresRestores (rn : Runtime) (b : BackupSupport) : bool :=
  rn_RunsOneShot rn && bs_RepoHost b && bs_ObjectStore b.

Definition coordinatorOf (backups : option BackupSupport) : bool :=
  match backups with Some b => bs_Coordinator b | None => false end.
Definition has_repo (backups : option BackupSupport) : bool :=
  match backups with Some b => bs_RepoHost b | None => false end.

Definition outdatedWhilePlacing (p : Project) : act bool :=
  call_ (DriftOf p) ≫= λ r,
  Return (match (r : reply SpecDrift) with Bad _ => true | Got drift => drift_Changes drift end).

Definition reconcileContainers (p resolved : Project) : act bool :=
  call_ (ReconcileProject resolved) ≫= λ err,
  match (err : option failure) with
  | None => Return true
  | Some e =>
      if FIs e ErrContainerNotOwned then
        reportRecoveryBlocked p recoveryBlockedStaleContainer (staleContainerMessage (Some e)) ≫= λ _, Return false
      else report_failed p "ReconcileError" (FError e) ≫= λ _, Return false
  end.

(** Running, with the spec revision when it was accepted, and the routes. *)
Definition report_running (rn : Runtime) (p : Project) : act () :=
  report_status p ProjectPhaseRunning "ContainersRunning" "All containers running" ≫= λ err,
  (match (err : option failure) with None => reportSpecRunning p | Some _ => skip end) ≫= λ _,
  updateProxyRoutes (rn_Routes rn) p.

Definition not_owned (states : list ContainerState) : option ContainerState :=
  find_first (λ s, bool_decide (is_Some (cs_NotOwned s))) states.
Definition failedSvcs (states : list ContainerState) : list string :=
  (λ s, (cs_ServiceName s ++ "(exit=" ++ FormatInt (cs_ExitCode s) ++ ")")%string) <$>
    filter (λ s, bool_decide (cs_Status s = "exited"%string) && negb (Z.eqb (cs_ExitCode s) 0) = true) states.
Definition runningCount (states : list ContainerState) : nat :=
  length (filter (λ s, cs_Status s = "running"%string) states).

(** What placing volume data came to: go on, or why not. *)
Definition place_data (rn : Runtime) (p : Project) : act bool :=
  match rn_Backups rn with
  | None => Return true
  | Some b =>
      ensureVolumeData (bs_Restorer b) (bs_Coordinator b) (bs_ObjectStore b) (bs_DataRoot b) (bs_NodeName b) p
        (postgresRestores rn b) ≫= λ err,
      match (err : option failure) with
      | None => (if negb (postgresPending p) then clearRecoveryBlocked p else skip) ≫= λ _, Return true
      | Some e =>
          if FIs e errDeferred then Return false
          else match AsPlacementBlocked e with
               | Some (reason, detail) => reportRecoveryBlocked p reason detail ≫= λ _, Return false
               | None => report_failed p "RestoreError" (FError e) ≫= λ _, Return false
               end
      end
  end.

(** Containers are missing or stopped: create and start them. *)
Definition start_placement (rounds : nat) (rn : Runtime) (p : Project) : act () :=
  resolveSecrets p ≫= λ r,
  match r with
  | Bad e =>
      if FIs e ErrSecretNotFound then report_failed p "SecretNotFound" (FError e)
      else if FIs e errSecretKeyNotFound then report_failed p "SecretKeyNotFound" (FError e)
      else skip
  | Got resolved =>
      place_data rn p ≫= λ ok,
      if negb ok then skip
      else
        let start := reconcileContainers p resolved in
        (if postgresPending p then
           placePostgres rounds (coordinatorOf (rn_Backups rn)) (has_repo (rn_Backups rn)) (rn_RunsCommands rn) p
             (Some start)
         else start) ≫= λ ok,
        if negb ok then skip else report_running rn p
  end.

Definition reconcileOne (rounds : nat) (rn : Runtime) (p : Project) : act () :=
  checkStaleContainers p ≫= λ stale,
  match stale with
  | staleNone =>
      call_ (InspectProject p) ≫= λ r,
      match (r : reply (list ContainerState)) with
      | Bad e => report_failed p "InspectError" (FError e)
      | Got states =>
          match not_owned states with
          | Some s => reportRecoveryBlocked p recoveryBlockedStaleContainer (staleContainerMessage (cs_NotOwned s))
          | None =>
              match failedSvcs states with
              | (_ :: _) as failed =>
                  report_failed p "ContainerExited" ("Containers exited with errors: " ++ Join failed ", ")%string
              | [] =>
                  let services := length (sp_Services (p_Spec p)) in
                  (if Nat.eqb (runningCount states) services && Nat.ltb 0 services then
                     outdatedWhilePlacing p ≫= λ outdated, Return (negb outdated)
                   else Return false) ≫= λ running,
                  if running : bool then
                    (if postgresPending p then
                       placePostgres rounds (coordinatorOf (rn_Backups rn)) (has_repo (rn_Backups rn))
                         (rn_RunsCommands rn) p None
                     else Return true) ≫= λ ok,
                    if negb ok then skip else report_running rn p
                  else start_placement rounds rn p
              end
          end
      end
  | _ => skip
  end.

(** ** What a placement may ask for, and when *)

Section placement.
Context (rounds : nat) (rn : Runtime) (p : Project).
Notation name := (om_Name (p_Meta p)).
Notation key := (key_of_project p).

(** Docker was asked, in this run, and every container it has of the Project is this
    assignment's; none exited with an error. *)
Definition own_only (h : story) : Prop :=
  Did (StaleContainers p) (Got []) ∈ h ∧
  ∃ states, Did (InspectProject p) (Got states) ∈ h ∧ not_owned states = None ∧ failedSvcs states = [].

(** The declared services run, as they were found or as they were created. *)
Definition found_running (h : story) : Prop :=
  own_only h ∧
  (∃ states, Did (InspectProject p) (Got states) ∈ h ∧ not_owned states = None ∧
     runningCount states = length (sp_Services (p_Spec p))) ∧
  ∃ drift, Did (DriftOf p) (Got drift) ∈ h ∧ drift_Changes drift = false.
Definition created (h : story) : Prop := ∃ resolved, Did (ReconcileProject resolved) None ∈ h.
Definition started (h : story) : Prop := found_running h ∨ created h.

(** The data is in place, where the Agent decides on it. *)
Definition data_placed (h : story) : Prop :=
  match rn_Backups rn with
  | Some b => governed p (bs_Restorer b) (bs_Coordinator b) (bs_ObjectStore b) = true →
              data_ready (bs_DataRoot b) (bs_NodeName b) p h
  | None => True
  end.
Definition data_root : string := match rn_Backups rn with Some b => bs_DataRoot b | None => EmptyString end.

Definition reconcile_allowed (h : story) (c : call) : Prop :=
  match c with
  | StaleContainers p' | InspectProject p' | DriftOf p' | GetContainerIPs p' => p' = p
  | GetSecret secret => refers (λ _, true) p secret
  | ReconcileProject resolved =>
      own_only h ∧ resolution (λ _, true) p h (Got resolved) ∧ data_placed h ∧
      (postgresPending p = true → postgresDatabases p = [] ∨ authorized p h)
  | UpdateProjectStatus n fence phase _ _ =>
      n = name ∧ fence = fenceForProject p ∧
      (phase = ProjectPhaseFailed ∨
       phase = ProjectPhaseRunning ∧ started h ∧ (postgresPending p = true → all_archive p h))
  | ReportSpecApplied n fence revision applied _ _ =>
      n = name ∧ fence = fenceForProject p ∧ revision = om_SpecRevision (p_Meta p) ∧ applied = true ∧ started h
  | RoutesUpdate p' _ => p' = p ∧ started h
  | RoutesRemove n => n = name ∧ started h
  | PatchProjectCondition n fence type status _ _ =>
      n = name ∧ fence = fenceForProject p ∧ type = ConditionTypeRecoveryBlocked ∧ status = ConditionTrue
  | ClearProjectCondition n fence type =>
      n = name ∧ fence = fenceForProject p ∧ type = ConditionTypeRecoveryBlocked ∧
      (if postgresPending p then all_archive p h else data_placed h)
  | TryClaim k op => k = key ∧ (op = OpRestore ∨ op = OpPlacement)
  | Release k => k = key
  | _ => data_allowed data_root p h c ∨ postgresPending p = true ∧ placement_allowed p h c
  end.

Lemma own_only_prefix h h' : h `prefix_of` h' → own_only h → own_only h'.
Proof.
  intros Hp (H1 & states & H2 & Hr). split; [by eapply seen_prefix|].
  exists states. split; [by eapply seen_prefix|done].
Qed.
Lemma started_prefix h h' : h `prefix_of` h' → started h → started h'.
Proof.
  intros Hp [(H1 & (states & H2 & Hr) & drift & H3 & Hd)|[resolved Hs]]; [left|right].
  - split_and!; [by eapply own_only_prefix|exists states|exists drift]; (split; [by eapply seen_prefix|done]).
  - exists resolved. by eapply seen_prefix.
Qed.
Lemma all_archive_prefix h h' : h `prefix_of` h' → all_archive p h → all_archive p h'.
Proof. intros Hp Ha db Hdb. by eapply archives_prefix, Ha. Qed.
Lemma data_placed_prefix h h' : h `prefix_of` h' → data_placed h → data_placed h'.
Proof.
  intros Hp%prefix_grows Hd. unfold data_placed in *. destruct (rn_Backups rn); [|done].
  intros Hg. eapply data_ready_mono; [done|by apply Hd].
Qed.
Lemma awp_report_failed reason message (Q : () → memory → story → Prop) m h :
  (∀ h', Q () m h') → awp reconcile_allowed (report_failed p reason message) Q m h.
Proof. intros HQ. split; [split_and!; [done|done|by left]|]. intros x. apply HQ. Qed.

Lemma awp_report_blocked reason message (Q : () → memory → story → Prop) m h :
  (∀ h', Q () m h') → awp reconcile_allowed (reportRecoveryBlocked p reason message) Q m h.
Proof.
  intros HQ. unfold reportRecoveryBlocked, report_condition. destruct (carries _ _ _ _); [apply HQ|].
  split; [done|]. intros x. apply HQ.
Qed.

Lemma awp_report_running m h :
  started h → (postgresPending p = true → all_archive p h) →
  awp reconcile_allowed (report_running rn p) (λ _ _ _, True) m h.
Proof.
  intros Hs Ha. unfold report_running.
  apply awp_call_bind; [split_and!; [done|done|by right]|]. intros err.
  set (h1 := h ++ _). assert (started h1) as Hs1 by (eapply started_prefix; [by apply prefix_of_snoc|done]).
  assert (∀ m' h', started h' → awp reconcile_allowed (updateProxyRoutes (rn_Routes rn) p) (λ _ _ _, True) m' h') as Hr.
  { intros m' h' Hs'. unfold updateProxyRoutes. destruct (rn_Routes rn); [|done]. simpl negb. cbv iota.
    destruct (sp_Ingress _); [by split|]. split; [done|]. intros [ips|e]; [|done]. split; [|done].
    split; [done|]. eapply started_prefix; [by apply prefix_of_snoc|done]. }
  apply awp_bind. destruct err as [e|]; [by apply Hr|].
  unfold reportSpecRunning. cbv zeta. case_decide; [by apply Hr|].
  split; [done|]. intros x. apply Hr. eapply started_prefix; [by apply prefix_of_snoc|done].
Qed.

Lemma placement_to_reconcile h c : postgresPending p = true → placement_allowed p h c → reconcile_allowed h c.
Proof.
  intros Hpg Hc. destruct c; simpl in *; try (by right); try done.
  all: destruct Hc as (-> & -> & -> & Ha); rewrite Hpg; done.
Qed.

Lemma awp_place_data (Q : bool → memory → story → Prop) m h :
  ¬ holds key OpRestore h →
  (∀ b m' h', h `prefix_of` h' → (b = true → data_placed h') → Q b m' h') →
  awp reconcile_allowed (place_data rn p) Q m h.
Proof.
  intros Hfree HQ. unfold place_data. destruct (rn_Backups rn) as [b|] eqn:Eb.
  2: { apply HQ; [done|]. intros _. unfold data_placed. by rewrite Eb. }
  apply awp_bind. eapply awp_ok_mono.
  { intros h' c Hc. assert (data_allowed data_root p h' c) as Hc' by (unfold data_root; rewrite Eb; exact Hc).
    destruct c; try done; try (by left); simpl in Hc |- *; tauto. }
  eapply awp_mono; [|apply awp_prefix, awp_ensureVolumeData, Hfree]. intros err m1 h1 [[Hready _] Hp1].
  destruct err as [e|].
  - destruct (FIs e errDeferred); [by apply HQ|]. destruct (AsPlacementBlocked e) as [[reason detail]|].
    + apply awp_bind. eapply awp_mono; [|apply awp_prefix, (awp_report_blocked _ _ (λ _ _ _, True)); by intros].
      intros _ m2 h2 [_ Hp2]. apply HQ; [later|done].
    + apply awp_bind. eapply awp_mono; [|apply awp_prefix, (awp_report_failed _ _ (λ _ _ _, True)); by intros].
      intros _ m2 h2 [_ Hp2]. apply HQ; [later|done].
  - assert (data_placed h1) as Hd by (unfold data_placed; rewrite Eb; by intros Hg; apply Hready).
    apply awp_bind. destruct (postgresPending p) eqn:Hpg; [by apply HQ|]. simpl negb. cbv iota.
    unfold clearRecoveryBlocked, clear_condition. destruct (projectCondition _ _); [|by apply HQ].
    split; [simpl; by rewrite Hpg|]. intros x. apply HQ; [later|]. intros _.
    eapply data_placed_prefix; [|exact Hd]. later.
Qed.

Lemma awp_reconcileContainers resolved m h :
  reconcile_allowed h (ReconcileProject resolved) →
  awp reconcile_allowed (reconcileContainers p resolved) (λ b _ h', b = true → created h') m h.
Proof.
  intros Hok. unfold reconcileContainers. apply awp_call_bind; [exact Hok|]. intros [e|]; cbv beta iota.
  - destruct (FIs e ErrContainerNotOwned); apply awp_bind.
    + by apply awp_report_blocked.
    + by apply awp_report_failed.
  - intros _. exists resolved. apply seen_last.
Qed.

Lemma awp_placePostgres start (R : story → Prop) (Q : bool → memory → story → Prop) m h :
  postgresPending p = true →
  (∀ h1 h2, h1 `prefix_of` h2 → R h1 → R h2) →
  (∀ s m' h', start = Some s → h `prefix_of` h' → (postgresDatabases p = [] ∨ authorized p h') →
    awp reconcile_allowed s (λ b _ h'', b = true → R h'') m' h') →
  (∀ b m' h', h `prefix_of` h' → (b = true → all_archive p h' ∧ (start ≠ None → R h')) → Q b m' h') →
  awp reconcile_allowed
    (placePostgres rounds (coordinatorOf (rn_Backups rn)) (has_repo (rn_Backups rn)) (rn_RunsCommands rn) p start)
    Q m h.
Proof.
  intros Hpg HR Hstart HQ. unfold placePostgres, claimed.
  assert (∀ h1 Q', h `prefix_of` h1 →
    (∀ b m' h', h1 `prefix_of` h' → (b = true → all_archive p h' ∧ (start ≠ None → R h')) → Q' b m' h') →
    awp reconcile_allowed (place_body rounds (has_repo (rn_Backups rn)) (rn_RunsCommands rn) p start) Q' m h1)
    as Hbody.
  { intros h1 Q' Hp1 HQ'. apply (awp_place_body rounds p _ _ _ start R); [|done| |done].
    - intros h' c. by apply placement_to_reconcile.
    - intros s m' h' Hs Hp' Hauth. apply Hstart; [done|later|done]. }
  destruct (coordinatorOf _); [|by apply Hbody]. apply awp_call_bind; [split; [done|by right]|].
  intros [|]; cbv iota; [|apply HQ; [later|done]]. apply awp_bind, Hbody; [later|].
  intros b m' h' Hp' Hb. split; [done|]. intros x. apply HQ; [later|]. intros Hbt.
  destruct (Hb Hbt) as [Ha Hs]. split; [|intros Hne; eapply HR; [|by apply Hs]; later].
  eapply all_archive_prefix; [|exact Ha]. later.
Qed.

Lemma awp_start_placement m h :
  own_only h → ¬ holds key OpRestore h →
  awp reconcile_allowed (start_placement rounds rn p) (λ _ _ _, True) m h.
Proof.
  intros Hown Hfree. unfold start_placement. apply awp_bind.
  apply awp_secrets; [by intros|]. intros r m1 h2 Hgr Hr2. pose proof (grows_prefix _ _ _ Hgr) as Hp2.
  destruct r as [resolved|e].
  2: { destruct (FIs e ErrSecretNotFound); [by apply awp_report_failed|].
       destruct (FIs e errSecretKeyNotFound); [by apply awp_report_failed|done]. }
  apply awp_bind, awp_place_data; [eapply not_holds_grows; [|exact Hgr|done]; by intros ?? []|].
  intros [|] m3 h3 Hp3 Hd3; simpl negb; cbv iota zeta; [|done]. specialize (Hd3 eq_refl).
  assert (∀ h', h3 `prefix_of` h' → (postgresPending p = true → postgresDatabases p = [] ∨ authorized p h') →
    reconcile_allowed h' (ReconcileProject resolved)) as Hok.
  { intros h' Hp' Hauth. split_and!; [eapply own_only_prefix; [|exact Hown]; later
      |eapply resolution_later; [|exact Hr2]; later|by eapply data_placed_prefix|done]. }
  apply awp_bind. destruct (postgresPending p) eqn:Hpg.
  - apply (awp_placePostgres _ created); [done| | |].
    + intros ha hb Hab [rs Hs]. exists rs. by eapply seen_prefix.
    + intros s m' h' [= <-] Hp' Hauth. apply awp_reconcileContainers. by apply Hok.
    + intros [|] m' h' Hp' Hb; simpl negb; cbv iota; [|done]. destruct (Hb eq_refl) as [Ha Hc].
      apply awp_report_running; [right; by apply Hc|done].
  - eapply awp_mono; [|by apply awp_reconcileContainers, Hok].
    intros [|] m' h' Hc; simpl negb; cbv iota; [|done]. apply awp_report_running; [right; by apply Hc|by rewrite Hpg].
Qed.

Lemma awp_reconcileOne m : awp reconcile_allowed (reconcileOne rounds rn p) (λ _ _ _, True) m [].
Proof.
  unfold reconcileOne. apply awp_bind. unfold checkStaleContainers. apply awp_call_bind; [done|].
  intros [[|c cs]|e]; cbv beta iota; [| |done]; cycle 1.
  { apply awp_bind. apply awp_report_blocked. by intros h'. }
  apply awp_call_bind; [done|]. intros [states|e]; cbv beta iota; [|by apply awp_report_failed].
  set (h := _ ++ [_]). assert (∀ k o, ¬ holds k o h) as Hfree.
  { intros k o. apply not_holds_ungranted; [|done]. apply not_holds_ungranted; [|done]. apply not_holds_nil. }
  destruct (not_owned states) as [s|] eqn:En; [by apply awp_report_blocked|].
  destruct (failedSvcs states) as [|f fs] eqn:Ef; [|by apply awp_report_failed].
  assert (own_only h) as Hown.
  { split; [by apply seen_app, seen_last|]. exists states. split; [apply seen_last|done]. }
  cbv zeta. destruct (Nat.eqb _ _ && Nat.ltb 0 _) eqn:Er; cycle 1.
  { by apply awp_start_placement. }
  apply andb_true_iff in Er as [Er%Nat.eqb_eq _]. apply awp_bind. unfold outdatedWhilePlacing.
  apply awp_call_bind; [done|]. intros r. set (h1 := h ++ _).
  assert (own_only h1) as Hown1 by (eapply own_only_prefix; [|exact Hown]; by apply prefix_of_snoc).
  assert (∀ k o, ¬ holds k o h1) as Hfree1 by (intros; by apply not_holds_ungranted).
  destruct r as [drift|e]; simpl negb; cycle 1. { by apply awp_start_placement. }
  destruct (drift_Changes drift) eqn:Ed; cbv iota. { by apply awp_start_placement. }
  assert (started h1) as Hs1.
  { left. split_and!; [done| |].
    - exists states. split_and!; [apply seen_app, seen_last|done|done].
    - exists drift. split; [apply seen_last|done]. }
  simpl negb. cbv iota.
  apply awp_bind. destruct (postgresPending p) eqn:Hpg; [|by apply awp_report_running; [|by rewrite Hpg]].
  apply (awp_placePostgres _ (λ _, True)); [done|done|done|]. intros [|] m' h' Hp' Hb; simpl negb; cbv iota; [|done].
  destruct (Hb eq_refl) as [Ha _]. apply awp_report_running; [by eapply started_prefix|done].
Qed.
End placement.

