(* ===== verification/LocalRecovery.v ===== *)
(** Looking after a Running Project (internal/agent/loop.go, healthCheckOne and
    recoverLocally; spec_update.go, applySpecUpdate): containers of another assignment
    block it, a new spec is applied in place, what broke is restarted here within
    bounds, and what must not be touched is reported. *)
From Stdlib Require Import ZArith Lia.
From stdpp Require Import prelude gmap strings.
From S2P Require Import Prelude.
From S2P Require Import Conditions.
From S2P Require Import ProjectTypes.
From S2P Require Import AccessTypes.
From S2P Require Import Failures.
From S2P Require Import Tracker.
From S2P Require Import Actions.
From S2P Require Import Health.
From S2P Require Import Reports.
From S2P Require Import AgentSecrets.
Import GoTime GoInt GoString.
Open Scope nat_scope.

Set Default Proof Using "Type".

(** ** The tracker in the memory of the process *)

(** A method of a tracker that may be nil. *)
Definition with_recovery {T} (absent : T) (f : recoveryTracker → T * recoveryTracker) : act T :=
  remember (λ m, match mem_Recovery m with
                 | Some t => let '(x, t') := f t in (x, mem_with_Recovery (Some t') m)
                 | None => (absent, m)
                 end).
Definition update_recovery (f : recoveryTracker → recoveryTracker) : act () := with_recovery () (λ t, ((), f t)).
Definition has_recovery : act bool := with_recovery false (λ t, (true, t)).

(** [recovery.next(key)]: the clock is read for the time elapsed and again when an
    attempt is counted. *)
Definition next_round (key : recoveryKey) : act recoveryDecision :=
  call_ Clock ≫= λ since, call_ Clock ≫= λ now, with_recovery recoveryWait (next since now key).

(** ** recoverLocally *)

Record Agent := { ag_NodeName : string; ag_Routes : bool; ag_Busy : bool }.

(** The Project read again, when it is still the assignment that was looked at and
    no backup has stopped it. *)
Definition reread (nodeName : string) (p : Project) (k : Project → act ()) : act () :=
  call_ (GetProject (om_Name (p_Meta p))) ≫= λ r,
  match (r : reply Project) with
  | Bad _ => skip
  | Got current =>
      match checkRecoveryFence p current nodeName with
      | Some _ => skip
      | None =>
          call_ Clock ≫= λ now,
          if IsMaintenanceActive (st_Conditions (p_Status current)) now then skip else k current
      end
  end.

Definition exhaustedMessage (detail : string) : string :=
  ("Local recovery exhausted after " ++ FormatInt (Z.of_nat maxRecoveryAttempts) ++ " attempts: " ++ detail)%string.

(** Past every check that can refuse the round. *)
Definition attempt_recovery (key : recoveryKey) (current resolved : Project) (names : list string) (detail : string)
    : act () :=
  clearRecoveryBlocked current ≫= λ _,
  next_round key ≫= λ d,
  match d with
  | recoveryWait => skip
  | recoveryExhausted => report_failed current "LocalRestartExhausted" (exhaustedMessage detail)
  | recoveryAttempt => call_ (RecoverServices resolved names) ≫= λ _, skip
  end.

Definition recover_current (key : recoveryKey) (names : list string) (detail : string) (current : Project) : act () :=
  call_ (PreflightRecovery current names) ≫= λ err,
  match (err : option failure) with
  | Some e =>
      if FIs e ErrRecoveryVolumeUnavailable then
        reportRecoveryBlocked current recoveryBlockedVolumeUnavailable (volumeBlockedMessage e)
      else if FIs e ErrContainerNotOwned then
        reportRecoveryBlocked current recoveryBlockedStaleContainer (staleContainerMessage (Some e))
      else skip
  | None =>
      resolveSecretsFor current (λ service, slices_Contains names service) ≫= λ r,
      match r with
      | Bad e => match secretBlocked e with
                 | Some (reason, message) => reportRecoveryBlocked current reason message
                 | None => skip
                 end
      | Got resolved => attempt_recovery key current resolved names detail
      end
  end.

Definition recoverLocally (ag : Agent) (p : Project) (bad : list serviceState) : act () :=
  claimed (ag_Busy ag) (key_of_project p) OpRecovery skip
    (reread (ag_NodeName ag) p
       (recover_current (keyForProject p) (serviceNames bad) (detailList bad))).

(** ** applySpecUpdate *)

Definition ReasonImagePullFailed : string := "ImagePullFailed".
Definition reasonSpecUpdateFailed : string := "SpecUpdateFailed".

(** What an update attempt came to: [took], and [upToDate]. *)
Notation update_result := (bool * bool)%type.
Definition took : update_result := (true, false).
Definition left_to_health_check : update_result := (false, false).

Definition report_spec (current : Project) (applied : bool) (reason message : string) : act () :=
  call_ (ReportSpecApplied (om_Name (p_Meta current)) (fenceForProject current) (om_SpecRevision (p_Meta current))
           applied reason message) ≫= λ _, skip.

Definition record_failure (key : recoveryKey) (revision : Z) (stoppedSomething : bool) : act nat :=
  call_ Clock ≫= λ now, with_recovery 1 (specUpdateFailed now key revision stoppedSomething).

Definition attempts_of (failures : nat) (e : failure) : string :=
  ("attempt " ++ FormatInt (Z.of_nat failures) ++ " of " ++ FormatInt (Z.of_nat maxSpecUpdateAttempts) ++ ": "
   ++ FError e)%string.

Definition update_failed (key : recoveryKey) (current : Project) (e : failure) : act () :=
  let revision := om_SpecRevision (p_Meta current) in
  if FIs e ErrImagePull then
    record_failure key revision false ≫= λ _, report_spec current false ReasonImagePullFailed (FError e)
  else if FIs e ErrContainerNotOwned then
    reportRecoveryBlocked current recoveryBlockedStaleContainer (staleContainerMessage (Some e))
  else
    record_failure key revision true ≫= λ failures,
    report_spec current false reasonSpecUpdateFailed (attempts_of failures e) ≫= λ _,
    if Nat.leb maxSpecUpdateAttempts failures then
      report_failed current reasonSpecUpdateFailed
        ("Spec revision " ++ FormatInt revision ++ " could not be applied after " ++ FormatInt (Z.of_nat failures)
         ++ " attempts: " ++ FError e)%string
    else skip.

(** The update proper, from the drift of the copy read under the claim. *)
Definition update_services (ag : Agent) (key : recoveryKey) (current : Project) (drift : SpecDrift)
    : act update_result :=
  resolveSecrets current ≫= λ r,
  match r with
  | Bad e =>
      match secretBlocked e with
      | Some (reason, message) =>
          record_failure key (om_SpecRevision (p_Meta current)) false ≫= λ _,
          report_spec current false reason message ≫= λ _, Return took
      | None => Return took
      end
  | Got resolved =>
      call_ (UpdateServices resolved drift) ≫= λ err,
      match (err : option failure) with
      | Some e => update_failed key current e ≫= λ _, Return took
      | None =>
          update_recovery (specUpdateSucceeded key) ≫= λ _,
          report_spec current true EmptyString EmptyString ≫= λ _,
          updateProxyRoutes (ag_Routes ag) current ≫= λ _, Return (true, true)
      end
  end.

Definition identity_of (p : Project) : AssignmentIdentity :=
  {| ProjectUID := om_UID (p_Meta p); NodeName := st_NodeRef (p_Status p);
     ai_Generation := st_AssignmentGeneration (p_Status p) |}.

(** Under the claim. *)
Definition update_body (ag : Agent) (p : Project) : act update_result :=
  let key := keyForProject p in
  call_ (GetProject (om_Name (p_Meta p))) ≫= λ r,
  match (r : reply Project) with
  | Bad _ => Return took
  | Got current =>
      match checkRecoveryFence p current (ag_NodeName ag) with
      | Some _ => Return took
      | None =>
          call_ Clock ≫= λ now,
          if IsMaintenanceActive (st_Conditions (p_Status current)) now then Return took
          else if WorkloadStoppedFor (st_Recovery (p_Status current)) (identity_of current) then Return took
          else
            call_ (DriftOf current) ≫= λ d,
            match (d : reply SpecDrift) with
            | Bad _ => Return left_to_health_check
            | Got drift =>
                if negb (specUpdateNeeded current drift) then Return left_to_health_check
                else update_services ag key current drift
            end
      end
  end.

(** The retry interval has passed, or there is no tracker. *)
Definition update_due (key : recoveryKey) (revision : Z) : act bool :=
  has_recovery ≫= λ tracked,
  if negb tracked then Return true
  else call_ Clock ≫= λ now, with_recovery true (λ t, (specUpdateDue now key revision t, t)).

Definition applySpecUpdate (ag : Agent) (p : Project) : act update_result :=
  let revision := om_SpecRevision (p_Meta p) in
  if decide (revision = 0%Z) then Return left_to_health_check
  else
    call_ (DriftOf p) ≫= λ d,
    match (d : reply SpecDrift) with
    | Bad _ => Return left_to_health_check
    | Got drift =>
        if negb (specUpdateNeeded p drift) then
          Return (false, negb (drift_Changes drift) && Nat.eqb (length (sd_Missing drift)) 0)
        else
          update_due (keyForProject p) revision ≫= λ due,
          if negb due then Return took
          else claimed (ag_Busy ag) (key_of_project p) OpUpdate (Return took) (update_body ag p)
    end.

(** ** healthCheckOne *)

Definition clear_transient (key : recoveryKey) : act () := update_recovery (clearTransient key).
Definition fail_check (p : Project) (reason message : string) : act () :=
  clear_transient (keyForProject p) ≫= λ _, report_failed p reason message.

Definition healthy_check (ag : Agent) (p : Project) (upToDate : bool) : act () :=
  update_recovery (observeHealthy (keyForProject p)) ≫= λ _,
  clear_transient (keyForProject p) ≫= λ _,
  clearRecoveryBlocked p ≫= λ _,
  (if upToDate then reportSpecRunning p else skip) ≫= λ _,
  updateProxyRoutes (ag_Routes ag) p.

Definition stuckMessage (bad : list serviceState) : string :=
  ("Containers stuck restarting for over 30s: " ++ detailList bad)%string.

(** The judgement of what [bad] services are found. *)
Definition judge (ag : Agent) (p : Project) (upToDate : bool) (bad : list serviceState) : act () :=
  match firstNotOwned bad with
  | Some stale =>
      clear_transient (keyForProject p) ≫= λ _,
      reportRecoveryBlocked p recoveryBlockedStaleContainer (staleContainerMessage (ss_NotOwned stale))
  | None =>
      if Nat.eqb (length bad) 0 then healthy_check ag p upToDate
      else
        let '(reason, summary) := failureReason bad in
        let msg := (summary ++ ": " ++ detailList bad)%string in
        if needsHuman bad then fail_check p reason msg
        else if anyTransient bad then
          has_recovery ≫= λ tracked,
          (if tracked : bool then
             call_ Clock ≫= λ now, with_recovery false (observeTransient now (keyForProject p))
           else Return false) ≫= λ stuck,
          if stuck : bool then fail_check p "ContainerRestartStuck" (stuckMessage bad) else skip
        else
          clear_transient (keyForProject p) ≫= λ _,
          has_recovery ≫= λ tracked,
          if negb tracked || negb (recoverable bad) then fail_check p reason msg
          else recoverLocally ag p bad
  end.

Definition healthCheckOne (ag : Agent) (p : Project) : act () :=
  call_ Clock ≫= λ now,
  if IsMaintenanceActive (st_Conditions (p_Status p)) now then clear_transient (keyForProject p)
  else
    checkStaleContainers p ≫= λ stale,
    match stale with
    | staleNone =>
        applySpecUpdate ag p ≫= λ '(took, upToDate),
        if took : bool then clear_transient (keyForProject p)
        else
          call_ (InspectProject p) ≫= λ r,
          match (r : reply (list ContainerState)) with
          | Bad e => fail_check p "InspectError" (FError e)
          | Got states => judge ag p upToDate (unhealthy (classifyProject p states))
          end
    | _ => clear_transient (keyForProject p)
    end.

(** ** What looking after a Running Project may ask for, and when *)

Section health.
Context (ag : Agent) (p : Project).
Notation name := (om_Name (p_Meta p)).
Notation key := (key_of_project p).

(** [current] is the same Project, lifetime and grant, held by this Node, Running. *)
Definition same_assignment (current : Project) : Prop :=
  om_Namespace (p_Meta current) = om_Namespace (p_Meta p) ∧ om_Name (p_Meta current) = name ∧
  om_UID (p_Meta current) = om_UID (p_Meta p) ∧
  st_AssignmentGeneration (p_Status current) = st_AssignmentGeneration (p_Status p) ∧
  st_NodeRef (p_Status current) = ag_NodeName ag ∧ st_Phase (p_Status current) = ProjectPhaseRunning.

(** The server was asked again and answered [current], which no backup stops. *)
Definition fresh (current : Project) (h : story) : Prop :=
  Did (GetProject name) (Got current) ∈ h ∧ same_assignment current ∧
  ∃ now, Did Clock now ∈ h ∧ IsMaintenanceActive (st_Conditions (p_Status current)) now = false.

(** Docker had no container of another assignment in this check. *)
Definition no_stale (h : story) : Prop := Did (StaleContainers p) (Got []) ∈ h.

Definition recovery_ready (resolved : Project) (names : list string) (h : story) : Prop :=
  ∃ current, fresh current h ∧ Did (PreflightRecovery current names) None ∈ h ∧
    resolution (λ service, slices_Contains names service) current h (Got resolved).
Definition update_ready (resolved : Project) (drift : SpecDrift) (h : story) : Prop :=
  ∃ current, fresh current h ∧
    WorkloadStoppedFor (st_Recovery (p_Status current)) (identity_of current) = false ∧
    Did (DriftOf current) (Got drift) ∈ h ∧ specUpdateNeeded current drift = true ∧
    resolution (λ _, true) current h (Got resolved).

(** The Project a report is about: as polled, or as read again. *)
Definition reported (q : Project) (h : story) : Prop := q = p ∨ fresh q h.

(** Every declared service runs, and its container is this assignment's. *)
Definition healthy (h : story) : Prop :=
  ∃ states, Did (InspectProject p) (Got states) ∈ h ∧ unhealthy (classifyProject p states) = [].
Definition in_step (h : story) : Prop :=
  (∃ drift, Did (DriftOf p) (Got drift) ∈ h ∧ drift_Changes drift = false ∧ sd_Missing drift = []) ∧ healthy h.
Definition updated (h : story) : Prop :=
  ∃ resolved drift, Did (UpdateServices resolved drift) None ∈ h.

Definition health_allowed (h : story) (c : call) : Prop :=
  match c with
  | Clock => True
  | StaleContainers p' | InspectProject p' => p' = p
  | DriftOf p' | GetContainerIPs p' => reported p' h
  | GetProject n => n = name
  | GetSecret secret => ∃ current, fresh current h ∧ refers (λ _, true) current secret
  | TryClaim k op => k = key ∧ (op = OpRecovery ∨ op = OpUpdate)
  | Release k => k = key
  | PreflightRecovery current names => under (ag_Busy ag) key OpRecovery (fresh current) h
  | RecoverServices resolved names =>
      no_stale h ∧
      (∃ states, Did (InspectProject p) (Got states) ∈ h ∧
         let bad := unhealthy (classifyProject p states) in names = serviceNames bad ∧ recoverable bad = true) ∧
      under (ag_Busy ag) key OpRecovery (recovery_ready resolved names) h
  | UpdateServices resolved drift =>
      no_stale h ∧ under (ag_Busy ag) key OpUpdate (update_ready resolved drift) h
  | UpdateProjectStatus n fence phase _ _ =>
      phase = ProjectPhaseFailed ∧ ∃ q, reported q h ∧ n = om_Name (p_Meta q) ∧ fence = fenceForProject q
  | PatchProjectCondition n fence type status _ _ =>
      (type = ConditionTypeRecoveryBlocked ∧ status = ConditionTrue) ∧
      ∃ q, reported q h ∧ n = om_Name (p_Meta q) ∧ fence = fenceForProject q
  | ClearProjectCondition n fence type =>
      type = ConditionTypeRecoveryBlocked ∧
      ∃ q, reported q h ∧ n = om_Name (p_Meta q) ∧ fence = fenceForProject q
  | ReportSpecApplied n fence revision applied _ _ =>
      (∃ q, reported q h ∧ n = om_Name (p_Meta q) ∧ fence = fenceForProject q ∧
         revision = om_SpecRevision (p_Meta q)) ∧
      (applied = true → updated h ∨ in_step h)
  | RoutesUpdate q _ => reported q h ∧ (updated h ∨ healthy h)
  | RoutesRemove n => n = name ∧ (updated h ∨ healthy h)
  | _ => False
  end.

Lemma checkRecoveryFence_None current :
  checkRecoveryFence p current (ag_NodeName ag) = None → same_assignment current.
Proof.
  unfold checkRecoveryFence, same_assignment. cbv zeta. case_decide as H; [done|].
  repeat (case_decide; [done|]). intros _. apply Decidable.not_or in H as [Hns Hname].
  apply dec_stable in Hns, Hname. by split_and!.
Qed.

Lemma fresh_prefix current h h' : h `prefix_of` h' → fresh current h → fresh current h'.
Proof.
  intros Hp (H1 & H2 & now & H3 & H4). split; [by eapply seen_prefix|]. split; [done|].
  exists now. split; [by eapply seen_prefix|done].
Qed.
Lemma reported_prefix q h h' : h `prefix_of` h' → reported q h → reported q h'.
Proof. intros Hp [->|Hf]; [by left|right]. by eapply fresh_prefix. Qed.
Lemma updated_prefix h h' : h `prefix_of` h' → updated h → updated h'.
Proof. intros Hp (r & d & Hu). exists r, d. by eapply seen_prefix. Qed.
Lemma healthy_prefix h h' : h `prefix_of` h' → healthy h → healthy h'.
Proof. intros Hp (states & Hs & Hb). exists states. split; [by eapply seen_prefix|done]. Qed.
Lemma in_step_prefix h h' : h `prefix_of` h' → in_step h → in_step h'.
Proof.
  intros Hp [(d & Hd & Hr) Hh]. split; [|by eapply healthy_prefix]. exists d. split; [by eapply seen_prefix|done].
Qed.

(** *** Reports, in the part of the protocol a body sees *)

Section reports.
Context (ok : story → call → Prop) (rep : Project → story → Prop).
Hypothesis Hstatus : ∀ h q reason message, rep q h →
  ok h (UpdateProjectStatus (om_Name (p_Meta q)) (fenceForProject q) ProjectPhaseFailed reason message).
Hypothesis Hblock : ∀ h q reason message, rep q h →
  ok h (PatchProjectCondition (om_Name (p_Meta q)) (fenceForProject q) ConditionTypeRecoveryBlocked ConditionTrue
          reason message).
Hypothesis Hclear : ∀ h q, rep q h →
  ok h (ClearProjectCondition (om_Name (p_Meta q)) (fenceForProject q) ConditionTypeRecoveryBlocked).

Lemma awp_failed q reason message (Q : () → memory → story → Prop) m h :
  rep q h → (∀ h', h `prefix_of` h' → Q () m h') → awp ok (report_failed q reason message) Q m h.
Proof using Hstatus. intros Hq HQ. split; [by apply Hstatus|]. intros x. apply HQ. later. Qed.
Lemma awp_blocked q reason message (Q : () → memory → story → Prop) m h :
  rep q h → (∀ h', h `prefix_of` h' → Q () m h') → awp ok (reportRecoveryBlocked q reason message) Q m h.
Proof using Hblock.
  intros Hq HQ. unfold reportRecoveryBlocked, report_condition. destruct (carries _ _ _ _); [by apply HQ|].
  split; [by apply Hblock|]. intros x. apply HQ. later.
Qed.
Lemma awp_clear q (Q : () → memory → story → Prop) m h :
  rep q h → (∀ h', h `prefix_of` h' → Q () m h') → awp ok (clearRecoveryBlocked q) Q m h.
Proof using Hclear.
  intros Hq HQ. unfold clearRecoveryBlocked, clear_condition. destruct (projectCondition _ _); [|by apply HQ].
  split; [by apply Hclear|]. intros x. apply HQ. later.
Qed.
End reports.

(** A change of the tracker asks for nothing. *)
Lemma awp_with_recovery {T} ok (absent : T) f (Q : T → memory → story → Prop) m h :
  (∀ x m', Q x m' h) → awp ok (with_recovery absent f) Q m h.
Proof.
  intros HQ. unfold with_recovery, remember. simpl. destruct (mem_Recovery m) as [t|]; [destruct (f t)|]; apply HQ.
Qed.

Lemma sub_prefix (h h' : story) : h `prefix_of` h' → h ⊆ h'.
Proof. intros Hp e. by apply seen_prefix. Qed.
Lemma fresh_sub current h h' : h ⊆ h' → fresh current h → fresh current h'.
Proof. intros Hs (H1 & H2 & now & H3 & H4). split; [by apply Hs|]. split; [done|]. exists now. split; [by apply Hs|done]. Qed.
Lemma updated_sub h h' : h ⊆ h' → updated h → updated h'.
Proof. intros Hs (r & d & Hu). exists r, d. by apply Hs. Qed.

(** *** Under the claim of a recovery *)

Section recover.
Context (names : list string).

Definition recover_allowed (h : story) (c : call) : Prop :=
  match c with
  | Clock => True
  | GetProject n => n = name
  | PreflightRecovery current names' => fresh current h
  | RecoverServices resolved names' => names' = names ∧ recovery_ready resolved names' h
  | GetSecret secret => ∃ current, fresh current h ∧ refers (λ _, true) current secret
  | UpdateProjectStatus n fence phase _ _ =>
      phase = ProjectPhaseFailed ∧ ∃ q, fresh q h ∧ n = om_Name (p_Meta q) ∧ fence = fenceForProject q
  | PatchProjectCondition n fence type status _ _ =>
      (type = ConditionTypeRecoveryBlocked ∧ status = ConditionTrue) ∧
      ∃ q, fresh q h ∧ n = om_Name (p_Meta q) ∧ fence = fenceForProject q
  | ClearProjectCondition n fence type =>
      type = ConditionTypeRecoveryBlocked ∧
      ∃ q, fresh q h ∧ n = om_Name (p_Meta q) ∧ fence = fenceForProject q
  | _ => False
  end.

Lemma refers_all include current secret : refers include current secret → refers (λ _, true) current secret.
Proof. intros (svc & env & ref & ? & ? & ?). by exists svc, env, ref. Qed.

Lemma awp_recover_body detail m :
  awp recover_allowed (reread (ag_NodeName ag) p (recover_current (keyForProject p) names detail))
    (λ _ _ _, True) m [].
Proof.
  unfold reread. apply awp_call_bind; [done|]. intros [current|e]; cbv beta iota; [|done].
  destruct (checkRecoveryFence _ _ _) eqn:Hfence; [done|]. apply checkRecoveryFence_None in Hfence.
  apply awp_call_bind; [done|]. intros now. set (h := _ ++ [_]).
  destruct (IsMaintenanceActive _ _) eqn:Hmaint; [done|].
  assert (fresh current h) as Hf.
  { split; [by apply seen_app, seen_last|]. split; [done|]. exists now. split; [apply seen_last|done]. }
  assert (∀ h', h `prefix_of` h' → fresh current h') as Hf'.
  { intros h' Hp. by eapply fresh_prefix. }
  assert (∀ reason message h', h `prefix_of` h' →
    awp recover_allowed (reportRecoveryBlocked current reason message) (λ _ _ _, True) m h') as Hblocked.
  { intros reason message h' Hp. apply (awp_blocked _ fresh); [|by apply Hf'|done]. simpl. eauto 10. }
  unfold recover_current. apply awp_call_bind; [exact Hf|]. intros [e|]; cbv beta iota.
  { destruct (FIs e ErrRecoveryVolumeUnavailable); [apply Hblocked; later|].
    destruct (FIs e ErrContainerNotOwned); [apply Hblocked; later|done]. }
  set (h1 := h ++ _). assert (h `prefix_of` h1) as Hp1 by later.
  apply awp_bind, awp_secrets.
  { intros h' secret Hp' Hr. exists current. split; [apply Hf'; later|by eapply refers_all]. }
  intros [resolved|e] m2 h2 Hp2%grows_prefix Hr; cycle 1.
  { destruct (secretBlocked e) as [[reason message]|]; [|done].
    apply (awp_blocked _ fresh); [simpl; eauto 10|apply Hf'; later|done]. }
  unfold attempt_recovery. apply awp_bind, (awp_clear _ fresh); [simpl; eauto 10|apply Hf'; later|].
  intros h3 Hp3. apply awp_bind. unfold next_round. apply awp_call_bind; [done|]. intros since.
  apply awp_call_bind; [done|]. intros now'. apply awp_with_recovery. intros d m3.
  set (h4 := (h3 ++ _) ++ _). assert (h3 `prefix_of` h4) as Hp4 by later.
  destruct d; [done| |apply (awp_failed _ fresh); [simpl; eauto 10|apply Hf'; later|done]].
  split; [|done]. split; [done|]. exists current. split_and!; [apply Hf'; later| |].
  - apply (seen_prefix _ h1); [later|apply seen_last].
  - eapply resolution_later; [|exact Hr]. later.
Qed.
End recover.

(** *** Under the claim of an update *)

Definition update_allowed (h : story) (c : call) : Prop :=
  match c with
  | Clock => True
  | GetProject n => n = name
  | DriftOf q | GetContainerIPs q => fresh q h
  | GetSecret secret => ∃ current, fresh current h ∧ refers (λ _, true) current secret
  | UpdateServices resolved drift => update_ready resolved drift h
  | UpdateProjectStatus n fence phase _ _ =>
      phase = ProjectPhaseFailed ∧ ∃ q, fresh q h ∧ n = om_Name (p_Meta q) ∧ fence = fenceForProject q
  | PatchProjectCondition n fence type status _ _ =>
      (type = ConditionTypeRecoveryBlocked ∧ status = ConditionTrue) ∧
      ∃ q, fresh q h ∧ n = om_Name (p_Meta q) ∧ fence = fenceForProject q
  | ReportSpecApplied n fence revision applied _ _ =>
      (∃ q, fresh q h ∧ n = om_Name (p_Meta q) ∧ fence = fenceForProject q ∧
         revision = om_SpecRevision (p_Meta q)) ∧ (applied = true → updated h)
  | RoutesUpdate q _ => fresh q h ∧ updated h
  | RoutesRemove n => n = name ∧ updated h
  | _ => False
  end.

Lemma awp_update_body m : awp update_allowed (update_body ag p) (λ r _ _, r.1 = false → r.2 = false) m [].
Proof.
  unfold update_body. cbv zeta. apply awp_call_bind; [done|]. intros [current|e]; cbv beta iota; [|done].
  destruct (checkRecoveryFence _ _ _) eqn:Hfence; [done|]. apply checkRecoveryFence_None in Hfence.
  apply awp_call_bind; [done|]. intros now. set (h := _ ++ [_]).
  destruct (IsMaintenanceActive _ _) eqn:Hmaint; [done|].
  assert (fresh current h) as Hf.
  { split; [by apply seen_app, seen_last|]. split; [done|]. exists now. split; [apply seen_last|done]. }
  assert (∀ h', h `prefix_of` h' → fresh current h') as Hf'.
  { intros h' Hp. by eapply fresh_prefix. }
  destruct (WorkloadStoppedFor _ _) eqn:Hws; [done|]. apply awp_call_bind; [exact Hf|].
  intros [drift|e]; cbv beta iota; [|done]. set (h1 := h ++ _). assert (h `prefix_of` h1) as Hp1 by later.
  destruct (specUpdateNeeded current drift) eqn:Hneed; [|done]. simpl negb. cbv iota.
  assert (∀ applied reason message Q m' h', h1 `prefix_of` h' → (applied = true → updated h') →
    (∀ h'', h' `prefix_of` h'' → Q () m' h'') →
    awp update_allowed (report_spec current applied reason message) Q m' h') as Hreport.
  { intros applied reason message Q m' h' Hp Ha HQ.
    split; [split; [|exact Ha]; exists current; split; [apply Hf'; later|done]|]. intros x. apply HQ. later. }
  unfold update_services. apply awp_bind, awp_secrets.
  { intros h' secret Hp' Hr. exists current. split; [apply Hf'; later|done]. }
  intros [resolved|e] m2 h2 Hp2%grows_prefix Hr; cycle 1.
  { destruct (secretBlocked e) as [[reason message]|]; [|done]. apply awp_bind.
    unfold record_failure. apply awp_call_bind; [done|]. intros t. apply awp_with_recovery. intros x m3.
    apply awp_bind, Hreport; [later|done|done]. }
  apply awp_call_bind.
  { exists current. split_and!; [apply Hf'; later|done| |done|done]. eapply seen_prefix; [exact Hp2|apply seen_last]. }
  intros [e|]; cbv beta iota.
  - set (h3 := h2 ++ _). assert (h2 `prefix_of` h3) as Hp3 by later. apply awp_bind.
    unfold update_failed. cbv zeta. destruct (FIs e ErrImagePull); [|destruct (FIs e ErrContainerNotOwned)].
    + apply awp_bind. unfold record_failure. apply awp_call_bind; [done|]. intros t. apply awp_with_recovery.
      intros x m3. apply Hreport; [later|done|done].
    + apply (awp_blocked _ fresh); [simpl; eauto 10|apply Hf'; later|done].
    + apply awp_bind. unfold record_failure. apply awp_call_bind; [done|]. intros t. apply awp_with_recovery.
      intros failures m3. apply awp_bind, Hreport; [later|done|]. intros h4 Hp4.
      destruct (Nat.leb _ _); [|done]. apply (awp_failed _ fresh); [simpl; eauto 10| |done].
      apply Hf'. etrans; [|exact Hp4]. later.
  - apply awp_bind. apply awp_with_recovery. intros [] m3. set (h3 := h2 ++ _).
    assert (h2 `prefix_of` h3) as Hp3 by later. assert (updated h3) as Hu by (exists resolved, drift; apply seen_last).
    apply awp_bind, Hreport; [later|done|]. intros h4 Hp4. apply awp_bind.
    assert (updated h4) as Hu4 by by eapply updated_prefix.
    assert (om_Name (p_Meta current) = name) as Hname by apply Hfence.
    unfold updateProxyRoutes. destruct (ag_Routes ag); [|done]. simpl negb. cbv iota.
    destruct (sp_Ingress _); [by split|]. split; [apply Hf'; later|]. intros [ips|e]; [|done]. split; [|done].
    split; [apply Hf'; later|]. eapply updated_prefix; [|exact Hu4]. later.
Qed.

(** *** The whole check *)

Lemma recover_to_health h0 states names h c :
  h0 `prefix_of` h → no_stale h0 → Did (InspectProject p) (Got states) ∈ h0 →
  names = serviceNames (unhealthy (classifyProject p states)) →
  recoverable (unhealthy (classifyProject p states)) = true →
  under (ag_Busy ag) key OpRecovery (λ h2, recover_allowed names h2 c) h → health_allowed h c.
Proof.
  intros Hp Hns Hi Hn Hr Hu. pose proof Hu as (h1 & h2 & Heq & Hcl & Hrel & Hc).
  assert (h2 ⊆ h) as Hsub by (intros e He; rewrite Heq; apply elem_of_app; by right).
  assert (∀ q, fresh q h2 → fresh q h) as Hf by (intros q; by apply fresh_sub).
  destruct c; simpl in Hc |- *; try done.
  - destruct Hc as (q & Hq & Hs). exists q. auto.
  - destruct Hc as (? & q & Hq & Hs). split; [done|]. exists q. unfold reported. auto.
  - destruct Hc as (? & q & Hq & Hs). split; [done|]. exists q. unfold reported. auto.
  - destruct Hc as (? & q & Hq & Hs). split; [done|]. exists q. unfold reported. auto.
  - destruct Hc as (-> & Hc). split; [by eapply seen_prefix|]. split.
    + exists states. split; [by eapply seen_prefix|done].
    + by exists h1, h2.
Qed.

Lemma update_to_health h0 h c :
  h0 `prefix_of` h → no_stale h0 →
  under (ag_Busy ag) key OpUpdate (λ h2, update_allowed h2 c) h → health_allowed h c.
Proof.
  intros Hp Hns Hu. pose proof Hu as (h1 & h2 & Heq & Hcl & Hrel & Hc).
  assert (h2 ⊆ h) as Hsub by (intros e He; rewrite Heq; apply elem_of_app; by right).
  assert (∀ q, fresh q h2 → fresh q h) as Hf by (intros q; by apply fresh_sub).
  assert (updated h2 → updated h) as Hup by by apply updated_sub.
  destruct c; simpl in Hc |- *; unfold reported; try done; try (by auto); try tauto.
  - destruct Hc as (q & Hq & Hs). exists q. auto.
  - destruct Hc as (? & q & Hq & Hs). split; [done|]. exists q. auto.
  - destruct Hc as (? & q & Hq & Hs). split; [done|]. exists q. auto.
  - destruct Hc as ((q & Hq & Hs) & Ha). split; [exists q|]; auto.
  - split; [by eapply seen_prefix|]. by exists h1, h2.
  - destruct Hc. auto.
Qed.

Lemma awp_judge upToDate states m h :
  no_stale h → Did (InspectProject p) (Got states) ∈ h →
  (upToDate = true → ∃ drift, Did (DriftOf p) (Got drift) ∈ h ∧ drift_Changes drift = false ∧ sd_Missing drift = []) →
  awp health_allowed (judge ag p upToDate (unhealthy (classifyProject p states))) (λ _ _ _, True) m h.
Proof.
  intros Hns Hi Hup. set (bad := unhealthy _).
  assert (∀ reason message m' h', awp health_allowed (fail_check p reason message) (λ _ _ _, True) m' h') as Hfail.
  { intros. unfold fail_check, clear_transient, update_recovery. apply awp_bind, awp_with_recovery. intros [] m1.
    apply (awp_failed _ reported); [simpl; eauto 10|by left|done]. }
  unfold judge. destruct (firstNotOwned bad) as [s|].
  { unfold clear_transient, update_recovery. apply awp_bind, awp_with_recovery. intros [] m1.
    apply (awp_blocked _ reported); [simpl; eauto 10|by left|done]. }
  destruct (Nat.eqb (length bad) 0) eqn:Hlen.
  { assert (healthy h) as Hh by (exists states; split; [done|]; by destruct (unhealthy _)).
    unfold healthy_check, clear_transient, update_recovery.
    apply awp_bind, awp_with_recovery. intros [] m1. apply awp_bind, awp_with_recovery. intros [] m2.
    apply awp_bind, (awp_clear _ reported); [simpl; eauto 10|by left|]. intros h1 Hp1.
    assert (∀ m' h', h1 `prefix_of` h' →
      awp health_allowed (updateProxyRoutes (ag_Routes ag) p) (λ _ _ _, True) m' h') as Hr.
    { intros m' h' Hp'. assert (healthy h') as Hh' by (eapply healthy_prefix; [|exact Hh]; later).
      unfold updateProxyRoutes. destruct (ag_Routes ag); [|done]. simpl negb. cbv iota.
      destruct (sp_Ingress _); [split; [|done]; split; [done|by right]|]. split; [by left|]. intros [ips|e]; [|done].
      split; [|done]. split; [by left|]. right. eapply healthy_prefix; [|exact Hh']. later. }
    apply awp_bind. destruct upToDate; [|by apply Hr].
    unfold reportSpecRunning. cbv zeta. case_decide; [by apply Hr|]. split; [|intros x; apply Hr; later].
    split; [exists p; split; [by left|done]|]. intros _. right. split; [|by eapply healthy_prefix].
    destruct (Hup eq_refl) as (d & Hd & Hr'). exists d. split; [by eapply seen_prefix|done]. }
  destruct (failureReason bad) as [reason summary]. cbv zeta. destruct (needsHuman bad); [apply Hfail|].
  destruct (anyTransient bad).
  - unfold has_recovery. apply awp_bind, awp_with_recovery. intros [|] m1; apply awp_bind; [|done].
    apply awp_call_bind; [done|]. intros now. apply awp_with_recovery. intros [|] m2; [apply Hfail|done].
  - unfold clear_transient, update_recovery, has_recovery. apply awp_bind, awp_with_recovery. intros [] m1.
    apply awp_bind, awp_with_recovery. intros tracked m2.
    destruct (negb tracked || negb (recoverable bad)) eqn:Hrec; [apply Hfail|].
    apply orb_false_iff in Hrec as [_ Hrec%negb_false_iff].
    apply (awp_claimed (recover_allowed (serviceNames bad)) _ (λ _, True)); try done.
    + intros h' c Hc. by destruct c.
    + intros h' c Hp' Hu. by eapply (recover_to_health h states).
    + intros h'. split; [done|by left].
    + apply awp_recover_body.
Qed.

Lemma awp_healthCheckOne m : awp health_allowed (healthCheckOne ag p) (λ _ _ _, True) m [].
Proof.
  unfold healthCheckOne. apply awp_call_bind; [done|]. intros now.
  assert (∀ m' h', awp health_allowed (clear_transient (keyForProject p)) (λ _ _ _, True) m' h') as Hclear.
  { intros. by apply awp_with_recovery. }
  destruct (IsMaintenanceActive _ _); [apply Hclear|]. apply awp_bind. unfold checkStaleContainers.
  apply awp_call_bind; [done|]. intros [[|c cs]|e]; cbv beta iota; [| |apply Hclear]; cycle 1.
  { apply awp_bind, (awp_blocked _ reported); [simpl; eauto 10|by left|]. intros h' _. apply Hclear. }
  set (h := _ ++ [_]). assert (no_stale h) as Hns by apply seen_last. apply awp_bind.
  assert (∀ (r : bool * bool) m' h', h `prefix_of` h' →
    (r.2 = true → r.1 = false →
      ∃ drift, Did (DriftOf p) (Got drift) ∈ h' ∧ drift_Changes drift = false ∧ sd_Missing drift = []) →
    awp health_allowed ((λ '(took, upToDate),
      if took : bool then clear_transient (keyForProject p)
      else call_ (InspectProject p) ≫= λ r,
        match (r : reply (list ContainerState)) with
        | Bad e => fail_check p "InspectError" (FError e)
        | Got states => judge ag p upToDate (unhealthy (classifyProject p states))
        end) r) (λ _ _ _, True) m' h') as Hrest.
  { intros [[] up] m' h' Hp' Hup; [apply Hclear|]. apply awp_call_bind; [done|]. intros [states|e]; cbv beta iota.
    - apply awp_judge; [eapply seen_prefix; [|exact Hns]; later|apply seen_last|]. intros Hu.
      destruct (Hup Hu eq_refl) as (d & Hd & Hr). exists d. split; [by apply seen_app|done].
    - unfold fail_check. apply awp_bind. apply awp_with_recovery. intros [] m2.
      apply (awp_failed _ reported); [simpl; eauto 10|by left|done]. }
  unfold applySpecUpdate. cbv zeta. case_decide; [by apply Hrest|]. apply awp_call_bind; [by left|].
  intros [drift|e]; cbv beta iota; [|apply Hrest; [later|done]]. set (h1 := h ++ _). assert (h `prefix_of` h1) as Hp1 by later.
  destruct (specUpdateNeeded p drift); simpl negb; cbv iota; cycle 1.
  { apply Hrest; [later|]. intros [Hc%negb_true_iff Hm%Nat.eqb_eq]%andb_true_iff _. exists drift.
    split_and!; [apply seen_last|done|by destruct (sd_Missing drift)]. }
  apply awp_bind. unfold update_due, has_recovery. apply awp_bind, awp_with_recovery. intros tracked m1.
  assert (∀ due m' h', h1 `prefix_of` h' → awp health_allowed
    (if negb due then Return took
     else claimed (ag_Busy ag) key OpUpdate (Return took) (update_body ag p))
    (λ a m'' h'', awp health_allowed ((λ '(took, upToDate),
      if took : bool then clear_transient (keyForProject p)
      else call_ (InspectProject p) ≫= λ r,
        match (r : reply (list ContainerState)) with
        | Bad e => fail_check p "InspectError" (FError e)
        | Got states => judge ag p upToDate (unhealthy (classifyProject p states))
        end) a) (λ _ _ _, True) m'' h'') m' h') as Hupd.
  { intros due m' h' Hp'. destruct due; simpl negb; cbv iota; [|apply Hrest; [later|done]].
    apply (awp_claimed update_allowed _ (λ r, r.1 = false → r.2 = false)); [| |by intros ?; split; [done|right]|done| | |apply awp_update_body].
    - intros h2 c Hc. by destruct c.
    - intros h2 c Hp2. apply (update_to_health h); [later|done].
    - intros h2 Hp2. apply Hrest; [later|done].
    - intros r m2 h2 Hp2 Hr. apply Hrest; [later|]. intros Hu Ht. rewrite (Hr Ht) in Hu. discriminate Hu. }
  destruct tracked; simpl negb; cbv iota; [|apply Hupd; later]. apply awp_call_bind; [done|]. intros t.
  apply awp_with_recovery. intros due m2. apply Hupd. later.
Qed.
End health.

(** C24 (loop.go, healthCheckOne and recoverLocally; spec_update.go, applySpecUpdate): a
    Running Project is looked after within its assignment. Whatever the server and
    Docker answer, containers are restarted only for the services just found broken in
    a way that can be recovered, and replaced only for a spec that differs; both only
    after Docker had no container of another assignment, under the Project's claim,
    and after the server was asked again under that claim and answered the same
    lifetime and grant, held by this Node, Running and not under maintenance, with the
    preflight passed, or the workload not stopped and the drift still there; the only
    phase ever reported is Failed, a spec revision counts as running only when it was
    applied or every service runs it, and nothing is removed. *)
Theorem running_looked_after (ag : Agent) (p : Project) (w : world) (m : memory) :
  obeys (health_allowed ag p) (act_run w (healthCheckOne ag p) m []).2.
Proof.
  exact (proj2 (awp_adequate _ w _ _ m [] (awp_healthCheckOne ag p m) (obeys_nil _))).
Qed.
