(* ===== verification/PgRestore.v ===== *)
(** When a PostgresDifferential restore is tried (internal/agent/pgrestore.go): the
    attempts remembered by assignment, the wait between them, and what a placement is
    told. The restore itself runs in the background and is not modelled. *)
From Stdlib Require Import ZArith Lia.
From stdpp Require Import prelude gmap strings.
From S2P Require Import Prelude.
From S2P Require Import Calendar.
From S2P Require Import ProjectTypes.
From S2P Require Import Failures.
From S2P Require Import VolumeData.
Import GoTime GoInt GoString.
Open Scope nat_scope.

Set Default Proof Using "Type".

(** ** Attempts *)

Definition pgRestoreMinBackoff : Duration := Minute.
Definition pgRestoreMaxBackoff : Duration := (30 * Minute)%Z.

Record pgRestoreAttempt := { pa_failures : nat; pa_next : Time; pa_lastErr : string }.
Notation pgRestores := (gmap string pgRestoreAttempt).

Definition pgRestoreKey (p : Project) : string :=
  (om_UID (p_Meta p) ++ "/" ++ FormatInt (st_AssignmentGeneration (p_Status p)))%string.

(** The loop [for i := 1; i < failures && backoff < max; i++ { backoff *= 2 }], whose
    count of rounds is [failures - 1] at most. *)
Fixpoint double_until (rounds : nat) (backoff : Duration) : Duration :=
  match rounds with
  | 0 => backoff
  | S rounds => if Z.ltb backoff pgRestoreMaxBackoff then double_until rounds (backoff * 2)%Z else backoff
  end.
Definition pgRestoreBackoff (failures : nat) : Duration :=
  Z.min (double_until (failures - 1) pgRestoreMinBackoff) pgRestoreMaxBackoff.

(** What begin answers: the block, and whether a restore was started. *)
Definition begin (now : Time) (p : Project) (attempts : pgRestores) : failure * bool * pgRestores :=
  match LastCompletion (st_Backup (p_Status p)) with
  | None =>
      (PlacementBlockedError BlockNoRestoreSource
         "this Project has been placed before, but the server has accepted no backup of it to restore from",
       false, attempts)
  | Some completion =>
      let key := pgRestoreKey p in
      let start :=
        (PlacementBlockedError BlockRestoreInProgress
           ("restoring backup " ++ bcp_BackupID completion ++ " and replaying the WAL archived after it")%string,
         true, filter (λ kv, kv.1 = key) attempts) in
      match attempts !! key with
      | Some attempt =>
          if Before now (pa_next attempt) then
            (PlacementBlockedError BlockRestoreFailed
               ("restoring backup " ++ bcp_BackupID completion ++ " failed "
                ++ FormatInt (Z.of_nat (pa_failures attempt)) ++ " time(s), next attempt at "
                ++ RFC3339 (pa_next attempt) ++ ": " ++ pa_lastErr attempt)%string,
             false, attempts)
          else start
      | None => start
      end
  end.

(** How a run ends: forgotten, or counted as one more failure; one cut short by the
    Agent's own end changes nothing. *)
Definition run_succeeded (p : Project) (attempts : pgRestores) : pgRestores := delete (pgRestoreKey p) attempts.
Definition run_failed (now : Time) (p : Project) (err : failure) (attempts : pgRestores) : pgRestores :=
  let failures := S (match attempts !! pgRestoreKey p with Some a => pa_failures a | None => 0 end) in
  <[pgRestoreKey p := {| pa_failures := failures; pa_next := (now + pgRestoreBackoff failures)%Z;
                         pa_lastErr := FError err |}]> attempts.

(** ** The wait between attempts *)

Lemma double_until_min (rounds : nat) (backoff : Duration) :
  (0 < backoff)%Z →
  Z.min (double_until rounds backoff) pgRestoreMaxBackoff = Z.min (backoff * 2 ^ Z.of_nat rounds) pgRestoreMaxBackoff.
Proof.
  revert backoff. induction rounds as [|rounds IH]; intros backoff Hp; simpl.
  { by rewrite Z.mul_1_r. }
  destruct (Z.ltb_spec backoff pgRestoreMaxBackoff) as [Hlt|Hge].
  - rewrite IH by lia. f_equal.
    rewrite Nat2Z.inj_succ, Z.pow_succ_r by lia. lia.
  - assert (1 ≤ 2 ^ Z.of_nat (S rounds))%Z by (apply Z.lt_pred_le, Z.pow_pos_nonneg; lia). nia.
Qed.

(** (pgrestore.go, pgRestoreBackoff and begin): after its n-th failure in a row a
    restore waits one minute doubled n - 1 times, half an hour at most; before that
    time a placement is told the restore failed, from that time on it starts another,
    as long as an accepted backup names what to restore. *)
Theorem restore_retried_when_due (failed now : Time) (p : Project) (err : failure) (attempts : pgRestores) :
  let n := S (match attempts !! pgRestoreKey p with Some a => pa_failures a | None => 0 end) in
  let wait := Z.min (Minute * 2 ^ Z.of_nat (n - 1)) (30 * Minute) in
  (begin now p (run_failed failed p err attempts)).1.2 = true ↔
  LastCompletion (st_Backup (p_Status p)) ≠ None ∧ (failed + wait ≤ now)%Z.
Proof.
  intros n wait. unfold begin, run_failed. destruct (LastCompletion _) as [c|]; [|simpl; naive_solver].
  cbv zeta. rewrite lookup_insert_eq. fold n. simpl.
  assert (pgRestoreBackoff n = wait) as -> by (apply double_until_min; reflexivity).
  unfold Before. case_bool_decide as Hdue; simpl; (split; [intros Hstart|intros [Hsource Hpast]]);
    first [done|lia|by split; [|lia]].
Qed.

(** The attempts are those of every Project of the Agent, and a restore that starts
    forgets all but its own: whatever another Project's backoff was, its next
    placement starts a restore at once. *)
Lemma begin_forgets_others (now : Time) (p q : Project) (attempts : pgRestores) :
  (begin now p attempts).1.2 = true → pgRestoreKey q ≠ pgRestoreKey p →
  LastCompletion (st_Backup (p_Status q)) ≠ None → (begin now q (begin now p attempts).2).1.2 = true.
Proof.
  intros Hstart Hne Hq.
  assert ((begin now p attempts).2 = filter (λ kv, kv.1 = pgRestoreKey p) attempts) as ->.
  { revert Hstart. unfold begin. destruct (LastCompletion _); [|done]. repeat case_match; done. }
  unfold begin. destruct (LastCompletion _) as [c|]; [|done]. cbv zeta.
  by rewrite map_lookup_filter_None_2 by naive_solver.
Qed.
