(* ===== verification/Attempts.v ===== *)
(** Restarts are counted: what one health check (internal/agent/loop.go) does to the
    tracker of recovery attempts (recovery.go), and to the containers, fit together. *)
From Stdlib Require Import ZArith Lia.
From stdpp Require Import prelude gmap strings.
From S2P Require Import Prelude.
From S2P Require Import Conditions.
From S2P Require Import ProjectTypes.
From S2P Require Import AccessTypes.
From S2P Require Import Failures.
From S2P Require Import Tracker.
From S2P Require Import Actions.
From S2P Require Import Health.
From S2P Require Import Reports.
From S2P Require Import AgentSecrets.
From S2P Require Import PgPlacement.
From S2P Require Import LocalRecovery.
Import GoTime GoInt GoString.
Open Scope nat_scope.

Set Default Proof Using "Type".

Definition is_restart (e : happening) : bool :=
  match call_of e with RecoverServices _ _ => true | _ => false end.
Definition restarts (h : story) : nat := length (filter (λ e, is_restart e = true) h).

Lemma restarts_app h h' : restarts (h ++ h') = restarts h + restarts h'.
Proof. unfold restarts. by rewrite filter_app, length_app. Qed.

Lemma restarts_other e : is_restart e = false → restarts [e] = 0.
Proof. intros He. unfold restarts. by rewrite filter_cons_False by (by rewrite He). Qed.

(** The counted attempts, in a memory. *)
Definition entries_of (m : memory) : option (gmap recoveryKey recoveryEntry) := rt_entries <$> mem_Recovery m.

(** A program that restarts nothing and counts nothing. *)
Fixpoint tame {A} (p : act A) : Prop :=
  match p with
  | Return _ => True
  | Call c k => (∀ x, is_restart (Did c x) = false) ∧ ∀ x, tame (k x)
  | Memory T f k => (∀ m, entries_of (f m).2 = entries_of m) ∧ ∀ x, tame (k x)
  end.

Lemma tame_bind {A B} (p : act A) (f : A → act B) : tame p → (∀ a, tame (f a)) → tame (p ≫= f).
Proof.
  intros Hp Hf. induction p as [a|c k IH|T g k IH]; simpl in *; [done| |];
    (destruct Hp as [Hc Hk]; split; [done|]; intros x; by apply IH).
Qed.

Lemma tame_call c : (∀ x, is_restart (Did c x) = false) → tame (call_ c).
Proof. by split. Qed.

Lemma awp_tame {A} (p : act A) (Q : A → memory → story → Prop) m h :
  tame p → (∀ a m' h', entries_of m' = entries_of m → restarts h' = restarts h → Q a m' h') →
  awp (λ _ _, True) p Q m h.
Proof.
  revert m h. induction p as [a|c k IH|T f k IH]; intros m h Hp HQ; simpl in *.
  - by apply HQ.
  - destruct Hp as [Hc Hk]. split; [done|]. intros x. apply IH; [done|]. intros a m' h' He Hr.
    apply HQ; [done|]. rewrite Hr, restarts_app, restarts_other by done. lia.
  - destruct Hp as [Hc Hk]. specialize (Hc m). destruct (f m) as [x m1]. apply IH; [done|].
    intros a m' h' He Hr. apply HQ; [|done]. by rewrite He.
Qed.

Lemma tame_with_recovery {T} (absent : T) f :
  (∀ t, rt_entries (f t).2 = rt_entries t) → tame (with_recovery absent f).
Proof.
  intros Hf. split; [|done]. intros m. unfold entries_of. destruct (mem_Recovery m) as [t|] eqn:Em; simpl.
  - specialize (Hf t). destruct (f t) as [x t']. simpl in *. by rewrite Hf.
  - by rewrite Em.
Qed.

(** ** The parts of a health check that are tame *)

Ltac tame_step :=
  first
    [ exact I
    | match goal with |- tame (call_ _) => apply tame_call; done end
    | match goal with |- tame (with_recovery _ _) => apply tame_with_recovery; done end
    | match goal with |- tame (mbind _ _) => apply tame_bind; [|let x := fresh "x" in intros x; cbv beta] end
    | progress cbv beta iota zeta
    | match goal with |- tame (match ?x with _ => _ end) => destruct x end ].
Ltac tames := repeat tame_step.

Lemma tame_report_condition type p reason message : tame (report_condition type p reason message).
Proof. unfold report_condition, skip. tames. Qed.
Lemma tame_clear_condition type p : tame (clear_condition type p).
Proof. unfold clear_condition, skip. tames. Qed.
Lemma tame_report_failed p reason message : tame (report_failed p reason message).
Proof. unfold report_failed, report_status, skip. tames. Qed.
Lemma tame_updateProxyRoutes routes p : tame (updateProxyRoutes routes p).
Proof. unfold updateProxyRoutes, skip. tames. Qed.
Lemma tame_reportSpecRunning p : tame (reportSpecRunning p).
Proof. unfold reportSpecRunning, skip. tames. Qed.

Lemma tame_checkStaleContainers p : tame (checkStaleContainers p).
Proof. unfold checkStaleContainers. tames. apply tame_report_condition. Qed.

Lemma tame_resolve_envs service secrets envs : tame (resolve_envs service secrets envs).
Proof.
  revert secrets. induction envs as [|env envs IH]; intros secrets; cbn [resolve_envs]; [done|].
  unfold fetch. tames; apply IH.
Qed.
Lemma tame_resolve_services include secrets svcs : tame (resolve_services include secrets svcs).
Proof.
  revert secrets. induction svcs as [|svc svcs IH]; intros secrets; cbn [resolve_services]; [done|].
  tames; first [apply IH|apply tame_resolve_envs].
Qed.
Lemma tame_resolveSecretsFor p include : tame (resolveSecretsFor p include).
Proof. unfold resolveSecretsFor. tames. apply tame_resolve_services. Qed.

Lemma tame_clear_transient key : tame (clear_transient key).
Proof. by apply tame_with_recovery. Qed.
Lemma tame_fail_check p reason message : tame (fail_check p reason message).
Proof. unfold fail_check. tames; [apply tame_clear_transient|apply tame_report_failed]. Qed.

Lemma tame_report_spec p applied reason message : tame (report_spec p applied reason message).
Proof. unfold report_spec, skip. tames. Qed.
Lemma tame_record_failure key revision b : tame (record_failure key revision b).
Proof. unfold record_failure. tames. Qed.

Lemma tame_update_services ag key current drift : tame (update_services ag key current drift).
Proof.
  unfold update_services, update_failed, resolveSecrets, update_recovery.
  tames; first [apply tame_resolveSecretsFor|apply tame_record_failure|apply tame_report_spec
    |apply tame_report_condition|apply tame_report_failed|apply tame_updateProxyRoutes].
Qed.

Lemma tame_claimed {A} busy key op (lost body : act A) : tame lost → tame body → tame (claimed busy key op lost body).
Proof. intros Hl Hb. unfold claimed. tames; done. Qed.

Lemma tame_applySpecUpdate ag p : tame (applySpecUpdate ag p).
Proof.
  unfold applySpecUpdate, update_due, has_recovery. tames; first [by apply tame_with_recovery|apply tame_claimed; [done|]].
  unfold update_body. tames. apply tame_update_services.
Qed.

(** ** A health check is one step of the tracker *)

Lemma awp_with_tracker t {T} ok (absent : T) f (Q : T → memory → story → Prop) m h :
  mem_Recovery m = Some t → Q (f t).1 (mem_with_Recovery (Some (f t).2) m) h →
  awp ok (with_recovery absent f) Q m h.
Proof. intros Hm HQ. unfold with_recovery, remember. simpl. rewrite Hm. by destruct (f t). Qed.

(** Two readings in a row show an earlier time: the clock was set back. *)
Definition clock_back (h : story) : Prop :=
  ∃ h1 (t1 t2 : Time) h2, h = h1 ++ Did Clock t1 :: Did Clock t2 :: h2 ∧ (t2 < t1)%Z.

Section counted.
Context (ag : Agent) (p : Project) (log : incidents).
Notation key := (keyForProject p).
Notation free := (λ (_ : story) (_ : call), True).

Definition counting (m : memory) (h : story) : Prop :=
  (∃ t, mem_Recovery m = Some t ∧ recovering log t) ∧ restarts h = 0.
Definition counted (m : memory) (h : story) : Prop :=
  ∃ log' t, mem_Recovery m = Some t ∧ recovering log' t ∧
    (restarts h = 0 ∨ restarts h = 1 ∧ ∃ now, attempts_at log' key = now :: attempts_at log key).
Definition accounted (m : memory) (h : story) : Prop := clock_back h ∨ counted m h.

Lemma clock_back_prefix h h' : h `prefix_of` h' → clock_back h → clock_back h'.
Proof.
  intros [k ->] (h1 & t1 & t2 & h2 & -> & Ht). exists h1, t1, t2, (h2 ++ k). split; [by rewrite <- app_assoc|done].
Qed.

Lemma recovering_entries log' t m m' :
  mem_Recovery m = Some t → recovering log' t → entries_of m' = entries_of m →
  ∃ t', mem_Recovery m' = Some t' ∧ recovering log' t'.
Proof.
  unfold entries_of. intros -> Hr He. destruct (mem_Recovery m') as [t'|]; [|done]. exists t'. split; [done|].
  eapply recovering_other; [exact Hr|]. by injection He.
Qed.

Lemma counting_tame m h m' h' :
  entries_of m' = entries_of m → restarts h' = restarts h → counting m h → counting m' h'.
Proof. intros He Hr [(t & Ht & Hl) H0]. split; [by eapply recovering_entries|congruence]. Qed.
Lemma counting_counted m h : counting m h → counted m h.
Proof. intros [(t & Ht & Hl) H0]. exists log, t. auto. Qed.
Lemma counted_tame m h m' h' :
  entries_of m' = entries_of m → restarts h' = restarts h → counted m h → counted m' h'.
Proof.
  intros He Hr (log' & t & Ht & Hl & Hc). destruct (recovering_entries log' t m m' Ht Hl He) as (t' & Ht' & Hl').
  exists log', t'. rewrite Hr. auto.
Qed.

(** What is tame leaves the count as it is. *)
Lemma awp_counting {A} (x : act A) (Q : A → memory → story → Prop) m h :
  tame x → counting m h → (∀ a m' h', counting m' h' → Q a m' h') → awp free x Q m h.
Proof. intros Hx Hc HQ. apply awp_tame; [done|]. intros a m' h' He Hr. by eapply HQ, counting_tame. Qed.
Lemma awp_accounted {A} (x : act A) m h :
  tame x → accounted m h → awp free x (λ _ m' h', accounted m' h') m h.
Proof.
  intros Hx Hc. eapply awp_mono; [|apply awp_prefix, (awp_tame x (λ _ m' h',
    entries_of m' = entries_of m ∧ restarts h' = restarts h)); by auto].
  intros a m' h' [[He Hr] Hp]. destruct Hc as [Hb|Hc]; [left; by eapply clock_back_prefix|right; by eapply counted_tame].
Qed.
Lemma awp_counting_done {A} (x : act A) m h :
  tame x → counting m h → awp free x (λ _ m' h', accounted m' h') m h.
Proof. intros Hx Hc. apply awp_accounted; [done|]. right. by apply counting_counted. Qed.

Lemma awp_attempt_recovery current resolved names detail m h :
  counting m h →
  awp free (attempt_recovery key current resolved names detail) (λ _ m' h', accounted m' h') m h.
Proof.
  intros Hc. unfold attempt_recovery. apply awp_bind, awp_counting; [apply tame_clear_condition|done|].
  intros [] m1 h1 [(t & Ht & Hl) H0]. apply awp_bind. unfold next_round.
  apply awp_call_bind; [done|]. intros since. apply awp_call_bind; [done|]. intros now. simpl in since, now.
  apply (awp_with_tracker t); [done|]. destruct (next since now key t) as [d t'] eqn:En.
  set (h2 := (h1 ++ _) ++ _). assert (restarts h2 = 0) as H2 by (unfold h2; by rewrite !restarts_app, H0).
  assert ((now < since)%Z → clock_back h2) as Hback.
  { intros Hlt. exists h1, since, now, []. split; [unfold h2; by rewrite <- app_assoc|done]. }
  destruct (decide (now < since)%Z) as [Hlt|Hge].
  { destruct d; [left; by apply Hback| |].
    - split; [done|]. intros x. left. apply (clock_back_prefix h2); [later|by apply Hback].
    - apply awp_accounted; [apply tame_report_failed|left; by apply Hback]. }
  pose proof (recovering_next log t key since now d t' Hl ltac:(lia) En) as Hn.
  destruct d; simpl in Hn.
  - right. exists log, t'. auto.
  - split; [done|]. intros x. right. exists (<[key:=now :: attempts_at log key]> log), t'.
    split_and!; [done|exact Hn|right]. split; [by rewrite restarts_app, H2|].
    exists now. by rewrite attempts_at_insert, decide_True.
  - apply awp_counting_done; [apply tame_report_failed|]. split; [by exists t'|done].
Qed.

Lemma awp_counting_claimed busy k op (body : act ()) m h :
  counting m h →
  (∀ m' h', counting m' h' → awp free body (λ _ m'' h'', accounted m'' h'') m' h') →
  awp free (claimed busy k op skip body) (λ _ m' h', accounted m' h') m h.
Proof.
  intros Hc Hb. unfold claimed. destruct busy; [|by apply Hb].
  apply awp_bind, awp_counting; [by apply tame_call|done|]. intros [|] m1 h1 Hc1; cbv iota.
  - apply awp_bind. eapply awp_mono; [|by apply Hb]. intros a m2 h2 H2. apply awp_accounted; [|done].
    apply tame_bind; [by apply tame_call|done].
  - right. by apply counting_counted.
Qed.

Lemma awp_counting_recover bad m h :
  counting m h → awp free (recoverLocally ag p bad) (λ _ m' h', accounted m' h') m h.
Proof.
  intros Hc. apply awp_counting_claimed; [done|]. intros m1 h1 Hc1. unfold reread.
  assert (∀ m' h', counting m' h' → accounted m' h') as Hdone by (intros; right; by apply counting_counted).
  apply awp_bind, awp_counting; [by apply tame_call|done|]. intros [current|e] m2 h2 Hc2; [|by apply Hdone].
  destruct (checkRecoveryFence _ _ _); [by apply Hdone|].
  apply awp_bind, awp_counting; [by apply tame_call|done|]. intros now m3 h3 Hc3.
  destruct (IsMaintenanceActive _ _); [by apply Hdone|]. unfold recover_current.
  apply awp_bind, awp_counting; [by apply tame_call|done|]. intros [e|] m4 h4 Hc4.
  { destruct (FIs _ _); [by apply awp_counting_done; [apply tame_report_condition|]|].
    destruct (FIs _ _); [by apply awp_counting_done; [apply tame_report_condition|]|by apply Hdone]. }
  apply awp_bind, awp_counting; [apply tame_resolveSecretsFor|done|]. intros [resolved|e] m5 h5 Hc5.
  - by apply awp_attempt_recovery.
  - destruct (secretBlocked e) as [[reason message]|]; [|by apply Hdone].
    by apply awp_counting_done; [apply tame_report_condition|].
Qed.

Lemma awp_counting_judge upToDate bad m h :
  counting m h → awp free (judge ag p upToDate bad) (λ _ m' h', accounted m' h') m h.
Proof.
  intros Hc. unfold judge. destruct (firstNotOwned bad).
  { apply awp_counting_done; [|done]. tames; [apply tame_clear_transient|apply tame_report_condition]. }
  destruct (Nat.eqb _ _).
  { unfold healthy_check, update_recovery. apply awp_bind. destruct Hc as [(t & Ht & Hl) H0].
    apply (awp_with_tracker t); [done|]. apply awp_accounted.
    - tames; first [apply tame_clear_transient|apply tame_clear_condition|apply tame_reportSpecRunning
        |apply tame_updateProxyRoutes].
    - right. exists (delete key log), (observeHealthy key t). split_and!; [done|by apply recovering_healthy|by left]. }
  destruct (failureReason bad) as [reason summary]. cbv zeta.
  destruct (needsHuman bad); [by apply awp_counting_done; [apply tame_fail_check|]|].
  destruct (anyTransient bad).
  { apply awp_counting_done; [|done]. unfold has_recovery, skip. tames; try apply tame_fail_check.
    apply tame_with_recovery. intros t. unfold observeTransient. by destruct (_ !! _). }
  apply awp_bind, awp_counting; [apply tame_clear_transient|done|]. intros [] m1 h1 Hc1.
  apply awp_bind, awp_counting; [by apply tame_with_recovery|done|]. intros tracked m2 h2 Hc2.
  destruct (_ || _); [by apply awp_counting_done; [apply tame_fail_check|]|by apply awp_counting_recover].
Qed.

Lemma awp_counting_healthCheckOne m h :
  counting m h → awp free (healthCheckOne ag p) (λ _ m' h', accounted m' h') m h.
Proof.
  intros Hc. unfold healthCheckOne.
  assert (∀ m' h', counting m' h' → awp free (clear_transient key) (λ _ m'' h'', accounted m'' h'') m' h') as Hclear.
  { intros m' h' Hc'. apply awp_counting_done; [apply tame_clear_transient|done]. }
  apply awp_bind, awp_counting; [by apply tame_call|done|]. intros now m1 h1 Hc1.
  destruct (IsMaintenanceActive _ _); [by apply Hclear|].
  apply awp_bind, awp_counting; [apply tame_checkStaleContainers|done|]. intros [] m2 h2 Hc2; [|by apply Hclear..].
  apply awp_bind, awp_counting; [apply tame_applySpecUpdate|done|]. intros [[] upToDate] m3 h3 Hc3; [by apply Hclear|].
  apply awp_bind, awp_counting; [by apply tame_call|done|]. intros [states|e] m4 h4 Hc4.
  - by apply awp_counting_judge.
  - by apply awp_counting_done; [apply tame_fail_check|].
Qed.
End counted.

(** C27 (loop.go, healthCheckOne and recoverLocally; recovery.go, next): every restart is
    counted. A health check restarts containers at most once, and then the tracker has
    one more attempt at this assignment, the third at most and spaced by the backoff;
    what the tracker records stays a record of attempts, so that the bound holds over
    any number of checks; unless the clock was set back in between. *)
Theorem restarts_are_counted (ag : Agent) (p : Project) (w : world) (m : memory) (log : incidents)
    (t : recoveryTracker) (Hm : mem_Recovery m = Some t) (Hr : recovering log t) :
  let '(_, m', h) := act_run w (healthCheckOne ag p) m [] in
  clock_back h ∨
  ∃ log' t', mem_Recovery m' = Some t' ∧ recovering log' t' ∧
    (restarts h = 0 ∨
     restarts h = 1 ∧ ∃ now, let ts := attempts_at log' (keyForProject p) in
       ts = now :: attempts_at log (keyForProject p) ∧ length ts ≤ maxRecoveryAttempts ∧ spaced ts).
Proof.
  assert (counting log m []) as Hc by (split; [by exists t|done]).
  destruct (awp_adequate _ w _ _ m [] (awp_counting_healthCheckOne ag p log m [] Hc)) as [H _]; [by intros ???|].
  destruct (act_run w _ m []) as [[u m'] h]. destruct H as [Hb|(log' & t' & Ht' & Hl' & H)]; [by left|right].
  exists log', t'. split_and!; [done|done|]. destruct H as [H|[H1 [now Hn]]]; [by left|right].
  split; [done|]. exists now. destruct (recovering_ok _ _ Hl' (keyForProject p)) as (Hlen & Hsp & _). auto.
Qed.

(** A Running Project whose container exited, on a Node that answers everything. *)
Definition broken_project : Project :=
  {| p_Meta := {| om_Name := "web"; om_UID := "u"; om_Namespace := "default"; om_ResourceVersion := 1;
                  om_SpecRevision := 1; om_Labels := ∅; om_Annotations := ∅; om_CreatedAt := 0; om_UpdatedAt := 0 |}%Z;
     p_Spec := {| sp_Size := EmptyString;
                  sp_Services := [{| svc_Name := "main"; svc_Image := "nginx"; svc_Command := []; svc_Env := [];
                                     svc_VolumeMounts := [] |}];
                  sp_Volumes := []; sp_Backup := None; sp_Ingress := []; sp_ExpireAt := None; sp_RestartedAt := None |};
     p_Status := {| st_Phase := ProjectPhaseRunning; st_NodeRef := "n1"; st_AssignmentGeneration := 1;
                    st_AssignmentHistory := AssignmentHistoryKnown; st_FailedNodes := []; st_Conditions := [];
                    st_ObservedSpecRevision := 1; st_Recovery := None; st_Backup := None |} |}.
Definition exited_container : ContainerState :=
  {| cs_ServiceName := "main"; cs_ContainerID := "c1"; cs_Status := "exited"; cs_ExitCode := 0; cs_NotOwned := None |}.
Definition broken_world : world := λ h c,
  match c return answer c with
  | GetProject _ => Got broken_project
  | StaleContainers _ => Got []
  | DriftOf _ => Got {| sd_Outdated := []; sd_Missing := []; sd_Removed := [] |}
  | InspectProject _ => Got [exited_container]
  | c => patient_world h c
  end.
Definition fresh_memory : memory := {| mem_Recovery := Some newRecoveryTracker; mem_Orphans := None |}.
Definition lone_agent : Agent := {| ag_NodeName := "n1"; ag_Routes := true; ag_Busy := true |}.

Lemma restarts_are_counted_witness :
  restarts (act_run broken_world (healthCheckOne lone_agent broken_project) fresh_memory []).2 = 1 ∧
  let '(_, m', h) := act_run broken_world (healthCheckOne lone_agent broken_project) fresh_memory [] in
  clock_back h ∨
  ∃ log' t', mem_Recovery m' = Some t' ∧ recovering log' t' ∧
    (restarts h = 0 ∨
     restarts h = 1 ∧ ∃ now, let ts := attempts_at log' (keyForProject broken_project) in
       ts = now :: attempts_at ∅ (keyForProject broken_project) ∧ length ts ≤ maxRecoveryAttempts ∧ spaced ts).
Proof.
  split; [vm_compute; reflexivity|].
  exact (restarts_are_counted lone_agent broken_project broken_world fresh_memory ∅ newRecoveryTracker eq_refl
           recovering_new).
Defined.
