(* ===== verification/AgentLoop.v ===== *)
(** One poll of the Agent (internal/agent/loop.go, reconcileProjects and
    bootstrapRunningProjects; orphan.go, sweepOrphans): the orphan sweep, cleanup tasks
    and the handler of each assigned Project's phase. *)
From Stdlib Require Import ZArith Lia.
From stdpp Require Import prelude gmap strings.
From S2P Require Import Prelude.
From S2P Require Import Conditions.
From S2P Require Import ProjectTypes.
From S2P Require Import AccessTypes.
From S2P Require Import Failures.
From S2P Require Import Tracker.
From S2P Require Import Stores.
From S2P Require Import Actions.
From S2P Require Import Health.
From S2P Require Import Reports.
From S2P Require Import Cleanup.
From S2P Require Import PgPlacement.
From S2P Require Import Placement.
From S2P Require Import LocalRecovery.
Import GoTime GoInt GoString.
Open Scope nat_scope.

Set Default Proof Using "Type".

(** ** The orphan sweep *)

(** A method of a tracker that may be nil. *)
Definition with_orphans {T} (absent : T) (f : orphanTracker → T * orphanTracker) : act T :=
  remember (λ m, match mem_Orphans m with
                 | Some t => let '(x, t') := f t in (x, mem_with_Orphans (Some t') m)
                 | None => (absent, m)
                 end).
Definition update_orphans (f : orphanTracker → orphanTracker) : act () := with_orphans () (λ t, ((), f t)).

(** The clock as it is read for each Project. *)
Fixpoint read_clocks (ids : list ProjectIdentity) (clocks : gmap ProjectIdentity Time)
    : act (gmap ProjectIdentity Time) :=
  match ids with
  | [] => Return clocks
  | id :: rest => call_ Clock ≫= λ now, read_clocks rest (<[id := (now : Time)]> clocks)
  end.

Definition no_observation : orphanObservation := {| oo_toStop := []; oo_toRemove := []; oo_reappeared := [] |}.

(** [tracker.observe(local, assigned)]. *)
Definition observe_now (local : gset ProjectIdentity) (assigned : gset ProjectIdentity) : act orphanObservation :=
  call_ Clock ≫= λ now,
  with_orphans [] (λ t, (elements (local ∪ dom t), t)) ≫= λ ids,
  read_clocks ids ∅ ≫= λ clocks,
  with_orphans no_observation (observe now (λ id, default zero (clocks !! id)) local assigned).

(** The assigned Projects by identity; a later one replaces an earlier one. *)
Definition assigned_by_identity (projects : list Project) : gmap ProjectIdentity Project :=
  foldl (λ m p, <[projectIdentity p := p]> m) ∅ projects.

Definition orphan_key (id : ProjectIdentity) : ResourceKey :=
  {| rs_Namespace := pi_Namespace id; rs_Name := pi_Name id |}.

(** One Project whose ownership came back. *)
Definition recover_orphan (busy routes : bool) (p : Project) (id : ProjectIdentity) : act () :=
  if decide (st_Phase (p_Status p) = ProjectPhaseScheduled ∨ st_Phase (p_Status p) = ProjectPhaseRunning) then
    claimed busy (orphan_key id) OpOrphanCleanup (Return false)
      (call_ (ReconcileProject p) ≫= λ err,
       match (err : option failure) with
       | Some _ => Return false
       | None => updateProxyRoutes routes p ≫= λ _, Return true
       end) ≫= λ ok,
    if ok : bool then update_orphans (forget id) else skip
  else update_orphans (forget id).

Definition stop_orphan (busy routes : bool) (id : ProjectIdentity) : act () :=
  claimed busy (orphan_key id) OpOrphanCleanup skip
    (call_ (StopOrphanProject id) ≫= λ err,
     match (err : option failure) with
     | Some _ => skip
     | None =>
         (if routes then call_ (RoutesRemove (pi_Name id)) ≫= λ _, skip else skip) ≫= λ _,
         call_ Clock ≫= λ now, update_orphans (markStopped now id)
     end).

Definition remove_orphan (busy : bool) (id : ProjectIdentity) : act () :=
  claimed busy (orphan_key id) OpOrphanCleanup (Return false)
    (call_ (RemoveOrphanProject id) ≫= λ err,
     Return (match (err : option failure) with Some _ => false | None => true end)) ≫= λ ok,
  if ok : bool then update_orphans (forget id) else skip.

Definition sweepOrphans (busy routes : bool) (projects : list Project) : act () :=
  call_ ListLocalProjects ≫= λ r,
  match (r : reply (list ProjectIdentity)) with
  | Bad _ => update_orphans resetGrace
  | Got local =>
      let assigned := assigned_by_identity projects in
      observe_now (list_to_set local) (dom assigned) ≫= λ o,
      for_each (oo_reappeared o)
        (λ id, match assigned !! id with Some p => recover_orphan busy routes p id | None => skip end) ≫= λ _,
      for_each (oo_toStop o) (stop_orphan busy routes) ≫= λ _,
      for_each (oo_toRemove o) (remove_orphan busy)
  end.

(** ** The poll *)

Definition projectsForReconcile (projects : list Project) : list Project :=
  filter (λ p, st_Phase (p_Status p) = ProjectPhaseScheduled ∨ st_Phase (p_Status p) = ProjectPhaseRunning ∨
               st_Phase (p_Status p) = ProjectPhaseTerminating) projects.

(** What the loop is built with: the supervisor of backups is there or not. *)
Record Loop := {
  lp_NodeName : string; lp_Runtime : Runtime; lp_Cleaner : option assignmentCleaner; lp_Supervisor : bool;
  lp_Rounds : nat
}.
Definition lp_busy (lp : Loop) : bool := coordinatorOf (rn_Backups (lp_Runtime lp)).
Definition lp_agent (lp : Loop) : Agent :=
  {| ag_NodeName := lp_NodeName lp; ag_Routes := rn_Routes (lp_Runtime lp); ag_Busy := lp_busy lp |}.

Definition handle (lp : Loop) (p : Project) : act () :=
  if decide (st_Phase (p_Status p) = ProjectPhaseTerminating) then terminateOne (lp_busy lp) (lp_Cleaner lp) p
  else if decide (st_Phase (p_Status p) = ProjectPhaseRunning) then healthCheckOne (lp_agent lp) p
  else reconcileOne (lp_Rounds lp) (lp_Runtime lp) p.

Definition handle_unless_busy (lp : Loop) (p : Project) : act () :=
  if lp_busy lp then
    call_ (IsBusy (key_of_project p)) ≫= λ busy, if busy : bool then skip else handle lp p
  else handle lp p.

Definition reconcileProjects (lp : Loop) : act () :=
  call_ ListProjectsAssignedToNode ≫= λ r,
  match (r : reply (list Project)) with
  | Bad _ => update_orphans resetGrace
  | Got assignedProjects =>
      with_orphans false (λ t, (true, t)) ≫= λ sweeps,
      (if sweeps : bool then sweepOrphans (lp_busy lp) (rn_Routes (lp_Runtime lp)) assignedProjects else skip)
        ≫= λ _,
      runCleanupTasks (lp_NodeName lp) (lp_Cleaner lp) (lp_busy lp) ≫= λ _,
      let projects := projectsForReconcile assignedProjects in
      (if lp_Supervisor lp then call_ (SyncSupervisor projects) ≫= λ _, skip else skip) ≫= λ _,
      update_recovery (retain (list_to_set (keyForProject <$> assignedProjects))) ≫= λ _,
      for_each projects (handle_unless_busy lp)
  end.

Definition bootstrapRunningProjects (lp : Loop) : act () :=
  call_ ListProjectsAssignedToNode ≫= λ r,
  match (r : reply (list Project)) with
  | Bad _ => skip
  | Got projects =>
      for_each projects
        (λ p, if decide (st_Phase (p_Status p) = ProjectPhaseRunning) then healthCheckOne (lp_agent lp) p else skip)
  end.

(** ** What a poll may ask for *)

Section sweep.
Context (busy routes : bool) (projects : list Project) (t : orphanTracker).
Notation assigned := (assigned_by_identity projects).

Definition sweep_allowed (h : story) (c : call) : Prop :=
  match c with
  | ListLocalProjects | Clock => True
  | TryClaim _ op => op = OpOrphanCleanup
  | Release _ => True
  | StopOrphanProject id => assigned !! id = None
  | RemoveOrphanProject id =>
      ∃ now local clocks, Did Clock (clocks id) ∈ h ∧
        id ∈ oo_toRemove (observe now clocks local (dom assigned) t).1
  | ReconcileProject p | GetContainerIPs p | RoutesUpdate p _ =>
      p ∈ projects ∧ (st_Phase (p_Status p) = ProjectPhaseScheduled ∨ st_Phase (p_Status p) = ProjectPhaseRunning) ∧
      ∃ s, t !! projectIdentity p = Some s ∧ os_stopped s = true
  | RoutesRemove n => True
  | _ => False
  end.

Lemma assigned_In id p : assigned !! id = Some p → p ∈ projects ∧ projectIdentity p = id.
Proof.
  unfold assigned_by_identity. induction projects as [|q qs IH] using rev_ind; [simpl; by rewrite lookup_empty|].
  rewrite foldl_snoc, lookup_insert_Some. intros [[<- <-]|[_ Hq]].
  - split; [|done]. apply elem_of_app. right. by left.
  - destruct (IH Hq). split; [|done]. apply elem_of_app. by left.
Qed.

Lemma awp_read_clocks ok ids clocks (Q : gmap ProjectIdentity Time → memory → story → Prop) m h :
  (∀ h, ok h Clock) →
  (∀ clocks' h', h `prefix_of` h' →
    (∀ id, clocks' !! id = clocks !! id ∧ id ∉ ids ∨ ∃ now : Time, clocks' !! id = Some now ∧ Did Clock now ∈ h') → Q clocks' m h') →
  awp ok (read_clocks ids clocks) Q m h.
Proof.
  intros Hok. revert clocks h. induction ids as [|id ids IH]; intros clocks h HQ; cbn [read_clocks].
  - apply HQ; [done|]. intros id. left. split; [done|]. apply not_elem_of_nil.
  - apply awp_call_bind; [apply Hok|]. intros now. simpl in now. apply IH. intros clocks' h' Hp Hc. apply HQ; [later|].
    intros id'. destruct (Hc id') as [[Heq Hn]|Hr]; [|by right]. destruct (decide (id' = id)) as [He|Hne].
    + right. exists now. split; [rewrite Heq, He; apply lookup_insert_eq|].
      eapply seen_prefix; [exact Hp|apply seen_last].
    + left. split; [rewrite Heq; by apply lookup_insert_ne|]. by apply not_elem_of_cons.
Qed.

Lemma observe_reappeared now clocks local a id :
  id ∈ oo_reappeared (observe now clocks local a t).1 → ∃ s, t !! id = Some s ∧ os_stopped s = true.
Proof.
  unfold observe. simpl. intros [Hv _]%list_elem_of_filter. revert Hv.
  unfold observe_one, observe_local, observe_absent, grace.
  repeat (case_bool_decide || case_decide || case_match); simpl; intros Hv; try discriminate Hv; eauto.
Qed.
Lemma observe_stops now clocks local id :
  id ∈ oo_toStop (observe now clocks local (dom assigned) t).1 → assigned !! id = None.
Proof.
  unfold observe. simpl. intros [Hv _]%list_elem_of_filter. apply not_elem_of_dom. revert Hv.
  unfold observe_one, observe_local, observe_absent, grace.
  repeat (case_bool_decide || case_decide || case_match); simpl; intros Hv; try discriminate Hv; done.
Qed.
Lemma observe_ids now clocks local id :
  id ∈ oo_toRemove (observe now clocks local (dom assigned) t).1 → id ∈ elements (local ∪ dom t).
Proof. unfold observe. simpl. by intros [_ ?]%list_elem_of_filter. Qed.

Lemma awp_with_orphans {T} ok (absent : T) f (Q : T → memory → story → Prop) m h :
  (∀ x m', Q x m' h) → awp ok (with_orphans absent f) Q m h.
Proof.
  intros HQ. unfold with_orphans, remember. simpl. destruct (mem_Orphans m) as [t'|]; [destruct (f t')|]; apply HQ.
Qed.

Lemma awp_claimed_simple {A} ok k op (lost body : act A) (Q : A → memory → story → Prop) m h :
  (∀ h, ok h (TryClaim k op)) → (∀ h, ok h (Release k)) →
  (∀ h', awp ok lost Q m h') →
  (∀ h', h `prefix_of` h' → awp ok body (λ a m' h'', ∀ h3, Q a m' h3) m h') →
  awp ok (claimed busy k op lost body) Q m h.
Proof.
  intros Hc Hr Hl Hb. unfold claimed. destruct busy.
  - apply awp_call_bind; [apply Hc|]. intros [|]; [|apply Hl]. apply awp_bind.
    eapply awp_mono; [|apply Hb; later]. intros a m' h' HQ. split; [apply Hr|]. intros x. apply HQ.
  - eapply awp_mono; [|by apply Hb]. intros a m' h' HQ. apply HQ.
Qed.

Lemma awp_sweepOrphans m h :
  mem_Orphans m = Some t →
  awp sweep_allowed (sweepOrphans busy routes projects) (λ _ _ _, True) m h.
Proof.
  intros Hm. unfold sweepOrphans. apply awp_call_bind; [done|]. intros [local|e]; cbv beta iota zeta;
    [|by apply awp_with_orphans].
  apply awp_bind. unfold observe_now. apply awp_call_bind; [done|]. intros now. apply awp_bind.
  assert (∀ T (absent : T) f (Q : T → memory → story → Prop) m' h', mem_Orphans m' = Some t →
    Q (f t).1 (mem_with_Orphans (Some (f t).2) m') h' → awp sweep_allowed (with_orphans absent f) Q m' h') as Hwith.
  { intros T absent f Q m' h' Hm' HQ. unfold with_orphans, remember. simpl. rewrite Hm'. by destruct (f t). }
  apply Hwith; [done|]. apply awp_bind, awp_read_clocks; [done|]. intros clocks h1 Hp1 Hclocks.
  apply Hwith; [done|]. set (read := λ id, default zero (clocks !! id)).
  set (o := (observe (now : Time) read (list_to_set local) (dom assigned) t).1).
  assert (∀ id, id ∈ oo_toRemove o → Did Clock (read id) ∈ h1) as Hread.
  { intros id Hid%observe_ids. destruct (Hclocks id) as [[_ Hn]|(t1 & Ht1 & Hin)]; [done|].
    unfold read. by rewrite Ht1. }
  assert (∀ id m' h', awp sweep_allowed (update_orphans (forget id)) (λ _ _ _, True) m' h') as Hforget.
  { intros. by apply awp_with_orphans. }
  apply awp_bind. eapply awp_mono; [|apply awp_for_each].
  { intros [] m2 h2 Hp2. apply awp_bind. eapply awp_mono; [|apply awp_for_each].
    - intros [] m3 h3 Hp3. eapply awp_mono; [|apply awp_for_each]; [done|].
      intros id m4 h4 Hid Hp4. unfold remove_orphan. apply awp_bind, awp_claimed_simple; [done|done|done|].
      intros h5 Hp5. apply awp_call_bind.
      + exists now, (list_to_set local), read. split; [|exact Hid]. eapply seen_prefix; [|by apply Hread]. later.
      + intros [e|] h6; [exact I|apply Hforget].
    - intros id m3 h3 Hid Hp3. unfold stop_orphan. apply awp_claimed_simple; [done|done|done|].
      intros h4 Hp4. apply awp_call_bind; [by eapply observe_stops|]. intros [e|]; cbv beta iota; [done|].
      apply awp_bind. destruct routes; [apply awp_bind; split; [done|]; intros []|];
        (apply awp_call_bind; [done|]; intros t1; by apply awp_with_orphans). }
  intros id m2 h2 Hid Hp2. destruct (assigned !! id) as [p|] eqn:Ep; [|done].
  destruct (assigned_In id p Ep) as [Hin <-]. apply observe_reappeared in Hid. unfold recover_orphan.
  case_decide as Hph; [|apply Hforget]. apply awp_bind, awp_claimed_simple; [done|done|done|].
  intros h3 Hp3. apply awp_call_bind; [done|]. intros [e|]; cbv beta iota; [done|].
  apply awp_bind. eapply awp_only; [by apply (only_updateProxyRoutes (λ c, match c with
    RoutesRemove _ => True | GetContainerIPs q | RoutesUpdate q _ => q = p | _ => False end))| |].
  - intros h4 c Hc. destruct c; try done; simpl in Hc; subst; done.
  - intros [] m4 h4 _ h5. apply Hforget.
Qed.
End sweep.

(** ** The poll *)

(** What handling one Project may ask for, by its phase, of what its handler did. *)
Definition handler_allowed (lp : Loop) (p : Project) (h : story) (c : call) : Prop :=
  (st_Phase (p_Status p) = ProjectPhaseTerminating ∧ terminating_allowed (lp_busy lp) (lp_Cleaner lp) p h c) ∨
  (st_Phase (p_Status p) = ProjectPhaseRunning ∧ health_allowed (lp_agent lp) p h c) ∨
  (st_Phase (p_Status p) = ProjectPhaseScheduled ∧ reconcile_allowed (lp_Runtime lp) p h c).

(** [E] holds of what was done since some moment at which [F] held. *)
Definition since (F E : story → Prop) (h : story) : Prop := ∃ h1 h2, h = h1 ++ h2 ∧ F h1 ∧ E h2.

Definition listed (projects : list Project) (h : story) : Prop :=
  Did ListProjectsAssignedToNode (Got projects) ∈ h.

Definition poll_allowed (lp : Loop) (orphans : option orphanTracker) (h : story) (c : call) : Prop :=
  match c with
  | ListProjectsAssignedToNode | IsBusy _ => True
  | SyncSupervisor projects => ∃ all, listed all h ∧ projects = projectsForReconcile all
  | _ =>
      ∃ projects,
        (∃ t, orphans = Some t ∧ since (listed projects) (λ h', sweep_allowed projects t h' c) h) ∨
        (∃ cleaner, lp_Cleaner lp = Some cleaner ∧
           since (listed projects) (λ h', cleanup_allowed (lp_NodeName lp) cleaner (lp_busy lp) h' c) h) ∨
        (∃ p, p ∈ projects ∧
           since (λ h', listed projects h' ∧ (lp_busy lp = true → Did (IsBusy (key_of_project p)) false ∈ h'))
             (λ h', handler_allowed lp p h' c) h)
  end.

Section poll.
Context (lp : Loop) (orphans : option orphanTracker).
Notation ok := (poll_allowed lp orphans).

Lemma awp_handle p m : p ∈ projectsForReconcile [p] → awp (handler_allowed lp p) (handle lp p) (λ _ _ _, True) m [].
Proof.
  intros [Hph _]%list_elem_of_filter. unfold handle. case_decide as H1; [|case_decide as H2].
  - eapply awp_ok_mono; [|apply awp_terminateOne]. intros h c Hc. by left.
  - eapply awp_ok_mono; [|apply awp_healthCheckOne]. intros h c Hc. right. by left.
  - eapply awp_ok_mono; [|apply awp_reconcileOne]. intros h c Hc. right. right. naive_solver.
Qed.

(** A part of the poll that obeys [okb] on its own. *)
Lemma awp_part {A} (okb : story → call → Prop) (prog : act A) (Q : A → memory → story → Prop) m h :
  (∀ h2 c, okb h2 c → ok (h ++ h2) c) → (∀ a m' h', h `prefix_of` h' → Q a m' h') →
  awp okb prog (λ _ _ _, True) m [] → awp ok prog Q m h.
Proof.
  intros Hok HQ Hp. apply (awp_since_start okb _ (λ _, True) _ (λ _ _ _, True)); [done|by auto| |done].
  intros a m' h' _ _. apply HQ. by apply prefix_app_r.
Qed.

Lemma awp_reconcileProjects m : mem_Orphans m = orphans → awp ok (reconcileProjects lp) (λ _ _ _, True) m [].
Proof.
  intros Hm. unfold reconcileProjects. apply awp_call_bind; [done|]. intros [projects|e]; cbv beta iota;
    [|by apply awp_with_orphans]. set (h := _ ++ [_]). assert (listed projects h) as Hl by apply seen_last.
  assert (∀ h', h `prefix_of` h' → listed projects h') as Hl' by (intros; by eapply seen_prefix).
  apply awp_bind.
  assert (∀ m' (h' : story), h `prefix_of` h' → awp ok
    (runCleanupTasks (lp_NodeName lp) (lp_Cleaner lp) (lp_busy lp) ≫= λ _,
      (if lp_Supervisor lp then call_ (SyncSupervisor (projectsForReconcile projects)) ≫= λ _, skip else skip) ≫= λ _,
      update_recovery (retain (list_to_set (keyForProject <$> projects))) ≫= λ _,
      for_each (projectsForReconcile projects) (handle_unless_busy lp)) (λ _ _ _, True) m' h') as Hrest.
  { intros m1 h1 Hp1. apply awp_bind.
    assert (∀ m' (h' : story), h `prefix_of` h' → awp ok
      ((if lp_Supervisor lp then call_ (SyncSupervisor (projectsForReconcile projects)) ≫= λ _, skip else skip) ≫= λ _,
      update_recovery (retain (list_to_set (keyForProject <$> projects))) ≫= λ _,
      for_each (projectsForReconcile projects) (handle_unless_busy lp)) (λ _ _ _, True) m' h') as Hhandle.
    { intros m2 h2 Hp2. apply awp_bind.
      assert (∀ m' (h' : story), h `prefix_of` h' → awp ok
        (update_recovery (retain (list_to_set (keyForProject <$> projects))) ≫= λ _,
         for_each (projectsForReconcile projects) (handle_unless_busy lp)) (λ _ _ _, True) m' h') as Heach.
      { intros m3 h3 Hp3. apply awp_bind, awp_with_recovery. intros [] m4.
        eapply awp_mono; [|apply awp_for_each]; [done|]. intros p m5 h5 Hin Hp5.
        apply list_elem_of_filter in Hin as [Hph Hin].
        assert (p ∈ projectsForReconcile [p]) as Hself by (apply list_elem_of_filter; split; [done|by left]).
        assert (∀ h6, h5 `prefix_of` h6 → (lp_busy lp = true → Did (IsBusy (key_of_project p)) false ∈ h6) →
          awp ok (handle lp p) (λ _ _ _, True) m5 h6) as Hone.
        { intros h6 Hp6 Hb. apply (awp_part (handler_allowed lp p)); [|done|by apply awp_handle].
          intros h7 c Hc.
          assert (since (λ h', listed projects h' ∧ (lp_busy lp = true → Did (IsBusy (key_of_project p)) false ∈ h'))
             (λ h', handler_allowed lp p h' c) (h6 ++ h7)) as Hs.
          { exists h6, h7. split_and!; [done|apply Hl'; later|done|done]. }
          unfold poll_allowed. destruct c; try exact I; try (exists projects; right; right; by exists p).
          exfalso. destruct Hc as [[_ Hc]|[[_ Hc]|[_ Hc]]].
          - destruct Hc as (? & ? & _ & _ & _ & Hc). by destruct (lp_Cleaner lp).
          - exact Hc.
          - destruct Hc as [Hc|[_ Hc]]; exact Hc. }
        unfold handle_unless_busy. destruct (lp_busy lp); [|by apply Hone].
        apply awp_call_bind; [done|]. intros [|]; cbv iota; [done|]. apply Hone; [later|]. intros _. apply seen_last. }
      destruct (lp_Supervisor lp); [|by apply Heach]. apply awp_call_bind; [exists projects; split; [by apply Hl'|done]|].
      intros x. apply Heach. later. }
    destruct (lp_Cleaner lp) as [cleaner|] eqn:Ecl; [|by apply Hhandle].
    apply (awp_part (cleanup_allowed (lp_NodeName lp) cleaner (lp_busy lp))); [| |apply awp_runCleanupTasks].
    - intros h2 c Hc.
      assert (since (listed projects) (λ h', cleanup_allowed (lp_NodeName lp) cleaner (lp_busy lp) h' c) (h1 ++ h2)) as Hs.
      { exists h1, h2. split_and!; [done|by apply Hl'|done]. }
      unfold poll_allowed. destruct c; try exact I; try (exists projects; right; left; by exists cleaner).
      exfalso. by destruct Hc as (? & ? & _ & _ & ? & ? & _ & _ & _ & Hc).
    - intros [] m2 h2 Hp2. apply Hhandle. later. }
  unfold with_orphans, remember. simpl. destruct (mem_Orphans m) as [t|] eqn:Et; [|by apply Hrest].
  apply awp_bind, (awp_part (sweep_allowed projects t)); [| |by apply awp_sweepOrphans].
  - intros h2 c Hc. assert (since (listed projects) (λ h', sweep_allowed projects t h' c) (h ++ h2)) as Hs.
    { exists h, h2. by split_and!. }
    unfold poll_allowed. destruct c; try exact I; try (exists projects; left; by exists t). done.
  - intros [] m2 h2 Hp2. by apply Hrest.
Qed.
End poll.



(** A Node that stopped a Project at 11 s and is polled at 191 s, with no Project
    assigned. *)
Definition lost_world : world := λ h c,
  match c return answer c with
  | ListProjectsAssignedToNode => Got []
  | ListLocalProjects => Got [example_orphan]
  | ListCleanupTasks => Got []
  | Clock => sec 191
  | c => patient_world h c
  end.
Definition plain_runtime : Runtime :=
  {| rn_Routes := true; rn_RunsCommands := true; rn_RunsOneShot := true;
     rn_Backups := Some {| bs_Coordinator := true; bs_Restorer := true; bs_RepoHost := true; bs_ObjectStore := true;
                           bs_DataRoot := "/var/lib/cara"; bs_NodeName := "n1" |} |}.
Definition plain_loop : Loop :=
  {| lp_NodeName := "n1"; lp_Runtime := plain_runtime; lp_Cleaner := defaultCleaner true true true "/var/lib/cara";
     lp_Supervisor := true; lp_Rounds := wait_bound |}.
Definition orphan_memory : memory := {| mem_Recovery := Some newRecoveryTracker; mem_Orphans := Some stopped_orphan |}.

Definition asked (f : call → bool) (h : story) : list call := filter (λ c, f c = true) (call_of <$> h).
Definition is_removal (c : call) : bool := match c with RemoveOrphanProject _ => true | _ => false end.


(** ** A Project that comes back before its tracking ends *)

(** [web] was stopped here, its containers and data were cleaned up, and it is placed
    on this Node again under a new grant, with a Managed volume and a Secret. *)
Definition returned_project : Project :=
  {| p_Meta := {| om_Name := "web"; om_UID := "u"; om_Namespace := "default"; om_ResourceVersion := 9;
                  om_SpecRevision := 1; om_Labels := ∅; om_Annotations := ∅; om_CreatedAt := 0; om_UpdatedAt := 0 |}%Z;
     p_Spec := {| sp_Size := EmptyString;
                  sp_Services := [{| svc_Name := "main"; svc_Image := "nginx"; svc_Command := [];
                    svc_Env := [{| ev_Name := "TOKEN"; ev_Value := EmptyString;
                                   ev_ValueFrom := Some {| evs_SecretKeyRef := Some {| sks_Name := "s"; sks_Key := "k" |} |} |}];
                    svc_VolumeMounts := [{| vm_Name := "db"; vm_MountPath := "/data" |}] |}];
                  sp_Volumes := [{| vol_Name := "db"; vol_Type := VolumeTypeManaged |}]; sp_Backup := None;
                  sp_Ingress := []; sp_ExpireAt := None; sp_RestartedAt := None |};
     p_Status := {| st_Phase := ProjectPhaseScheduled; st_NodeRef := "n1"; st_AssignmentGeneration := 3;
                    st_AssignmentHistory := AssignmentHistoryKnown; st_FailedNodes := []; st_Conditions := [];
                    st_ObservedSpecRevision := 1; st_Recovery := None; st_Backup := None |} |}.
Definition returned_world : world := λ h c,
  match c return answer c with
  | ListProjectsAssignedToNode => Got [returned_project]
  | ListLocalProjects => Got []
  | ListCleanupTasks => Got []
  | StaleContainers _ => Got []
  | DriftOf _ => Got {| sd_Outdated := []; sd_Missing := []; sd_Removed := [] |}
  | InspectProject _ =>
      Got [{| cs_ServiceName := "main"; cs_ContainerID := "c1"; cs_Status := "running"; cs_ExitCode := 0;
              cs_NotOwned := None |}]
  | Clock => sec 60
  | c => patient_world h c
  end.
(** Creating containers, looking at the data, asking for Secrets, and reports. *)
Definition matters (c : call) : bool :=
  match c with
  | ReconcileProject _ | Stat _ | ReadDir _ | ReadMarker _ | InitializeEmpty _ | RestoreGeneration _ _ | GetSecret _
  | UpdateProjectStatus _ _ _ _ _ => true
  | _ => false
  end.

(** The sweep takes the Project for one whose containers are only stopped: it creates
    them from the listed Project, whose Secret is not resolved, and nothing decides on
    the data; the same poll then finds every container running and reports Running. *)
Example returned_project_unproven :
  asked matters (act_run returned_world (reconcileProjects plain_loop) orphan_memory []).2 =
  [ReconcileProject returned_project;
   UpdateProjectStatus "web" (fenceForProject returned_project) ProjectPhaseRunning "ContainersRunning"
     "All containers running"].
Proof. vm_compute. reflexivity. Qed.
