(* ===== verification/DockerAgent.v ===== *)
(** The Agent on Docker: the loop of internal/agent/loop.go with the container
    runtime of internal/agent/docker in place of the runtime it was written against
    (internal/agent/docker/runtime.go), and what one poll may ask of Docker itself. *)
From Stdlib Require Import ZArith Lia.
From stdpp Require Import prelude gmap strings.
From S2P Require Import Prelude.
From S2P Require Import ProjectTypes.
From S2P Require Import Failures.
From S2P Require Import Tracker.
From S2P Require Import Engine.
From S2P Require Import Stores.
From S2P Require Import Actions.
From S2P Require Import DockerOwnership.
From S2P Require Import DockerRuntime.
From S2P Require Import DockerPlacing.
From S2P Require Import DockerRepair.
From S2P Require Import DockerRemoval.
From S2P Require Import Cleanup.
From S2P Require Import PgPlacement.
From S2P Require Import Attempts.
From S2P Require Import AgentLoop.
Open Scope nat_scope.

Set Default Proof Using "Type".

(** ** The runtime behind the interface *)

(** [DockerRuntime] as the [Runtime] of the loop. *)
Definition docker_method (dataRoot : string) (c : call) : option (act (answer c)) :=
  match c with
  | ReconcileProject p => Some (DockerReconcileProject dataRoot p)
  | InspectProject p => Some (DockerInspectProject p)
  | RecoverServices p services => Some (DockerRecoverServices dataRoot p services)
  | PreflightRecovery p services => Some (DockerPreflightRecovery dataRoot p services)
  | StaleContainers p => Some (DockerStaleContainers p)
  | GetContainerIPs p => Some (DockerGetContainerIPs p)
  | ListLocalProjects => Some DockerListLocalProjects
  | StopOrphanProject id => Some (DockerStopOrphanProject id)
  | RemoveOrphanProject id => Some (DockerRemoveOrphanProject id)
  | DriftOf p => Some (DockerSpecDrift p)
  | UpdateServices p drift => Some (DockerUpdateServices dataRoot p drift)
  | RemoveAssignment a => Some (DockerRemoveAssignment a)
  | AssignmentRemaining a => Some (DockerAssignmentRemaining a)
  | EnsureProjectNetwork p => Some (DockerEnsureProjectNetwork p)
  | RestartContainer container => Some (DockerRestartContainer container)
  | StopContainers p => Some (StopProject p)
  | StartContainers p => Some (StartProject p)
  | _ => None
  end.

(** A program with each of the runtime's methods in the place of the request for it. *)
Fixpoint on_docker {A} (dataRoot : string) (p : act A) : act A :=
  match p with
  | Return a => Return a
  | Call c k =>
      match docker_method dataRoot c with
      | Some method => method ≫= λ x, on_docker dataRoot (k x)
      | None => Call c (λ x, on_docker dataRoot (k x))
      end
  | Memory T f k => Memory T f (λ x, on_docker dataRoot (k x))
  end.

(** ** What each method may ask of Docker *)

Definition reads_docker (c : call) : Prop := ∃ d, c = Docker d ∧ docker_read d = true.

(** Stopping or starting a Project in place: after every container its services have was
    inspected and is the assignment's own, those, and nothing else. *)
Definition own_container (p : Project) (id : string) (h : story) : Prop :=
  ∃ svc info, svc ∈ sp_Services (p_Spec p) ∧ cj_ID info = id ∧
    Did (Docker (ContainerInspect (ContainerName (om_Name (p_Meta p)) (svc_Name svc)))) (Got info) ∈ h ∧
    checkContainerOwnership (ContainerName (om_Name (p_Meta p)) (svc_Name svc)) info (ownerOf p) (svc_Name svc) = None.
Definition no_foreign_container (p : Project) (h : story) : Prop :=
  ∀ svc, svc ∈ sp_Services (p_Spec p) →
  ∃ x, Did (Docker (ContainerInspect (ContainerName (om_Name (p_Meta p)) (svc_Name svc)))) x ∈ h ∧
    match x with
    | Got info => checkContainerOwnership (ContainerName (om_Name (p_Meta p)) (svc_Name svc)) info (ownerOf p) (svc_Name svc) = None
    | Bad e => isNotFound e = true
    end.
Definition in_place_allowed (start : bool) (p : Project) (h : story) (c : call) : Prop :=
  match c with
  | Docker (ContainerInspect name) => ∃ svc, svc ∈ sp_Services (p_Spec p) ∧ name = ContainerName (om_Name (p_Meta p)) (svc_Name svc)
  | Docker (ContainerStop id timeout) =>
      start = false ∧ timeout = Some stopTimeoutSeconds ∧ own_container p id h ∧ no_foreign_container p h
  | Docker (ContainerStart id) => start = true ∧ own_container p id h ∧ no_foreign_container p h
  | _ => False
  end.

Lemma own_container_later p id h h' : h `prefix_of` h' → own_container p id h → own_container p id h'.
Proof. intros Hp (svc & info & H1 & H2 & H3 & H4). exists svc, info. split_and!; [done|done|by eapply seen_prefix|done]. Qed.
Lemma no_foreign_later p h h' : h `prefix_of` h' → no_foreign_container p h → no_foreign_container p h'.
Proof. intros Hp Hn svc Hs. destruct (Hn svc Hs) as (x & H1 & H2). exists x. split; [by eapply seen_prefix|done]. Qed.

(** What the inspection of a service's container said of it. *)
Definition inspected (p : Project) (svc : ServiceDef) (containers : list (string * string)) (h : story) : Prop :=
  let name := ContainerName (om_Name (p_Meta p)) (svc_Name svc) in
  ∃ x, Did (Docker (ContainerInspect name)) x ∈ h ∧
    match x with
    | Got info => checkContainerOwnership name info (ownerOf p) (svc_Name svc) = None ∧ (name, cj_ID info) ∈ containers
    | Bad e => isNotFound e = true
    end.

Lemma awp_owned_each start p svcs m h :
  (∀ svc, svc ∈ svcs → svc ∈ sp_Services (p_Spec p)) →
  awp (in_place_allowed start p) (owned_each p svcs) (λ r _ h', h `prefix_of` h' ∧
    ∀ containers, r = Got containers →
      (∀ c, c ∈ containers → own_container p c.2 h') ∧ ∀ svc, svc ∈ svcs → inspected p svc containers h') m h.
Proof.
  revert m h. induction svcs as [|svc svcs IH]; intros m h Hin.
  { split; [done|]. intros containers [= <-]. split; intros ? []%elem_of_nil. }
  cbn [owned_each]. cbv zeta. set (name := ContainerName _ _).
  apply (awp_call_bind _ (Docker _)); [exists svc; split; [apply Hin; by left|done]|].
  assert (∀ svc', svc' ∈ svcs → svc' ∈ sp_Services (p_Spec p)) as Hin' by (intros; apply Hin; by right).
  assert (∀ x h', h ++ [Did (Docker (ContainerInspect name)) x] `prefix_of` h' → h `prefix_of` h' ∧
    Did (Docker (ContainerInspect name)) x ∈ h') as Hlast.
  { intros x h' Hp. split; [etrans; [|exact Hp]; by eexists|]. eapply seen_prefix; [exact Hp|apply seen_last]. }
  intros [info|e]; cbv beta iota.
  - destruct (checkContainerOwnership _ _ _ _) as [e|] eqn:Ec; [split; [later|done]|]. apply awp_bind.
    eapply awp_mono; [|by apply IH]. intros r m' h' [Hp H]. destruct (Hlast _ _ Hp) as [Hp0 Hl]. split; [done|].
    intros containers Hr. destruct r as [cs|e]; [|done]. injection Hr as <-. destruct (H cs eq_refl) as [H1 H2]. split.
    + intros c [->|Hc]%elem_of_cons; [|by apply H1]. exists svc, info. split_and!; [apply Hin; by left|done|done|done].
    + intros svc' [->|Hs]%elem_of_cons.
      * exists (Got info). split_and!; [done|done|by left].
      * destruct (H2 svc' Hs) as (x & H3 & H4). exists x. split; [done|]. destruct x; [|done].
        destruct H4. split; [done|by right].
  - destruct (isNotFound e) eqn:En; [|split; [later|done]]. eapply awp_mono; [|by apply IH].
    intros r m' h' [Hp H]. destruct (Hlast _ _ Hp) as [Hp0 Hl]. split; [done|]. intros containers Hr.
    destruct (H containers Hr) as [H1 H2]. split; [done|]. intros svc' [->|Hs]%elem_of_cons; [|by apply H2].
    by exists (Bad e).
Qed.

Lemma awp_in_place start p (change : list (string * string) → list (string * string)) body
    (ended : string * string → story → Prop) m :
  (∀ c cs, c ∈ change cs ↔ c ∈ cs) → (∀ c h h', h `prefix_of` h' → ended c h → ended c h') →
  (∀ c m h, own_container p c.2 h → no_foreign_container p h →
     awp (in_place_allowed start p) (body c) (λ err _ h', err = None → ended c h') m h) →
  awp (in_place_allowed start p) (or_return_value (ownedContainers p) (λ containers, try_each (change containers) body))
    (λ err _ h, err = None → ∃ containers,
       (∀ c, c ∈ containers → ended c h) ∧ ∀ svc, svc ∈ sp_Services (p_Spec p) → inspected p svc containers h) m [].
Proof.
  intros Hc He Hb. apply awp_or_return_value. eapply awp_mono; [|by apply awp_owned_each].
  intros [cs|e] m1 h1 [_ H]; [|done]. destruct (H cs eq_refl) as [H1 H2].
  assert (no_foreign_container p h1) as Hn.
  { intros svc Hs. destruct (H2 svc Hs) as (x & H3 & H4). exists x. split; [done|]. destruct x; [tauto|done]. }
  apply (awp_try_each _ _ _ ended); [done| |].
  - intros c m' h' Hin Hp. apply Hb; [eapply own_container_later; [exact Hp|by apply H1, Hc]|by eapply no_foreign_later].
  - intros r m' h' Hp Hr Herr. exists cs. split; [intros c Hin; by apply Hr, Hc|].
    intros svc Hs. destruct (H2 svc Hs) as (x & H3 & H4). exists x. split; [by eapply seen_prefix|done].
Qed.

(** Docker did it, or the container was gone. *)
Definition stopped (c : string * string) (h : story) : Prop :=
  ∃ x, Did (Docker (ContainerStop c.2 (Some stopTimeoutSeconds))) x ∈ h ∧ real_error x = None.
Definition containers_down (p : Project) (h : story) : Prop :=
  ∃ containers, (∀ c, c ∈ containers → stopped c h) ∧
    ∀ svc, svc ∈ sp_Services (p_Spec p) → inspected p svc containers h.

Lemma awp_StopProject p m :
  awp (in_place_allowed false p) (StopProject p) (λ err _ h, err = None → containers_down p h) m [].
Proof.
  apply (awp_in_place false p (λ cs, rev cs) _ stopped).
  - intros c cs. rewrite rev_alt. apply elem_of_reverse.
  - intros c h h' Hp (x & H1 & H2). exists x. split; [by eapply seen_prefix|done].
  - intros c m' h Ho Hn. apply (awp_call_bind _ (Docker _)); [done|]. intros x Hx. exists x. split; [apply seen_last|].
    unfold wrapped in Hx. by destruct (real_error x).
Qed.
Lemma awp_StartProject p m : awp (in_place_allowed true p) (StartProject p) (λ _ _ _, True) m [].
Proof.
  eapply awp_mono; [|apply (awp_in_place true p (λ cs, cs) _ (λ _ _, True))]; [done|done|done|].
  intros c m' h Ho Hn. by apply (awp_call_bind _ (Docker _)).
Qed.

(** Serving the request [c], after asking what is in the history for it. *)
Definition method_allowed (dataRoot : string) (c : call) : story → call → Prop :=
  match c with
  | ReconcileProject p => placing_allowed dataRoot p
  | RecoverServices p services => recovering_allowed dataRoot p services
  | UpdateServices p drift => updating_allowed dataRoot p drift
  | RemoveAssignment a => removal_allowed a
  | StopOrphanProject id => orphan_allowed false id
  | RemoveOrphanProject id => orphan_allowed true id
  | StopContainers p => in_place_allowed false p
  | StartContainers p => in_place_allowed true p
  | EnsureProjectNetwork p => λ h c, ∃ d, c = Docker d ∧ container_allowed (ownerOf p) (λ _, False) h d
  | RestartContainer name => λ _ c, c = Docker (ContainerStop name None) ∨ c = Docker (ContainerStart name)
  | _ => λ _, reads_docker
  end.

(** A concrete history serves an abstract one: each request for a method became a run
    of that method. *)
Inductive served (dataRoot : string) : story → story → Prop :=
| served_nil : served dataRoot [] []
| served_same ha hc c x :
    docker_method dataRoot c = None → served dataRoot ha hc → served dataRoot (ha ++ [Did c x]) (hc ++ [Did c x])
| served_by ha hc c x method seg w m :
    docker_method dataRoot c = Some method → act_run w method m [] = (x, m, seg) → served dataRoot ha hc →
    served dataRoot (ha ++ [Did c x]) (hc ++ seg).
#[global] Arguments served_same {dataRoot ha hc}.
#[global] Arguments served_by {dataRoot ha hc}.

(** ** Runs *)

Lemma act_run_bind {A B} w (p : act A) (f : A → act B) m h :
  act_run w (p ≫= f) m h = let '(a, m', h') := act_run w p m h in act_run w (f a) m' h'.
Proof.
  revert m h. induction p as [a|c k IH|T g k IH]; intros m h; simpl; [done| |].
  - apply IH.
  - destruct (g m) as [x m']. apply IH.
Qed.

(** A run after [h0] is a run from nothing against the world as it is after [h0]. *)
Lemma act_run_after {A} w (p : act A) m h0 h :
  act_run w p m (h0 ++ h) =
    let '(a, m', h') := act_run (λ h, w (h0 ++ h)) p m h in (a, m', h0 ++ h').
Proof.
  revert m h. induction p as [a|c k IH|T g k IH]; intros m h; simpl; [done| |].
  - by rewrite <- app_assoc, IH.
  - destruct (g m) as [x m']. apply IH.
Qed.

(** A program that leaves the memory alone. *)
Fixpoint forgetful {A} (p : act A) : Prop :=
  match p with
  | Return _ => True
  | Call _ k => ∀ x, forgetful (k x)
  | Memory _ _ _ => False
  end.
Lemma forgetful_bind {A B} (p : act A) (f : A → act B) : forgetful p → (∀ a, forgetful (f a)) → forgetful (p ≫= f).
Proof. intros Hp Hf. induction p as [a|c k IH|T g k IH]; simpl in *; [done| |done]. intros x. by apply IH. Qed.
Lemma forgetful_run {A} w (p : act A) m h : forgetful p → (act_run w p m h).1.2 = m.
Proof. revert m h. induction p as [a|c k IH|T g k IH]; intros m h; simpl; [done| |done]. intros Hk. by apply IH. Qed.

(** ** The methods *)

Lemma forgetful_or_return (x k : act (option failure)) : forgetful x → forgetful k → forgetful (x ;? k).
Proof. intros Hx Hk. apply forgetful_bind; [done|]. by intros [e|]. Qed.
Lemma forgetful_or_return_value {A} (x : act (reply A)) k :
  forgetful x → (∀ a, forgetful (k a)) → forgetful (or_return_value x k).
Proof. intros Hx Hk. apply forgetful_bind; [done|]. by intros [a|e]. Qed.
Lemma forgetful_try_each {X} (xs : list X) body : (∀ x, forgetful (body x)) → forgetful (try_each xs body).
Proof. intros Hb. induction xs as [|x xs IH]; [done|]. by apply forgetful_or_return. Qed.
Lemma forgetful_collect_each {X} (xs : list X) body : (∀ x, forgetful (body x)) → forgetful (collect_each xs body).
Proof.
  intros Hb. induction xs as [|x xs IH]; [done|]. apply forgetful_bind; [done|]. intros errs.
  by apply forgetful_bind.
Qed.
Lemma forgetful_for_each {X} (xs : list X) body : (∀ x, forgetful (body x)) → forgetful (for_each xs body).
Proof. intros Hb. induction xs as [|x xs IH]; [done|]. by apply forgetful_bind. Qed.

(** Every step of a method: requests, early returns, loops and case distinctions. *)
Ltac forget :=
  repeat first
    [ exact I
    | assumption
    | progress autounfold with docker
    | match goal with
      | |- forgetful (or_return _ _) => apply forgetful_or_return
      | |- forgetful (or_return_value _ _) => apply forgetful_or_return_value; [|intros ?]
      | |- forgetful (try_each _ _) => apply forgetful_try_each; intros ?
      | |- forgetful (collect_each _ _) => apply forgetful_collect_each; intros ?
      | |- forgetful (for_each _ _) => apply forgetful_for_each; intros ?
      | |- forgetful (_ ≫= _) => apply forgetful_bind; [|intros ?]
      | |- forgetful (match ?x with _ => _ end) => destruct x
      | |- forgetful (let '_ := ?x in _) => destruct x
      | |- forgetful (Call _ _) => intros ?
      end
    | progress cbv zeta ].

Create HintDb docker.
#[local] Hint Unfold dock call_ removeOwnedContainer ensureNetwork removeNetworkOfLifetime volumeOfLifetime
  removeOwnedNetwork pullImage ensureManagedDir ensureEphemeralVolume ensureVolumes create_container
  ensureContainerPulled ensureContainer stop_and_remove remove_named_volume removeProjectResources rollback
  removeCreated checkExistingOwnership unlistedContainers remove_unlisted DockerReconcileProject
  DockerStaleContainers DockerInspectProject DockerGetContainerIPs DockerEnsureProjectNetwork
  DockerRestartContainer ownedContainers StopProject StartProject preflight_managed preflight_ephemeral preflightVolumes preflight_one preflightTargets
  DockerPreflightRecovery recover_one DockerRecoverServices DockerSpecDrift pull_images remove_outdated create_new
  DockerUpdateServices lifetimeHasContainers lifetimeNetwork lifetimeVolumes remove_listed_volume remove_shared
  DockerRemoveAssignment DockerAssignmentRemaining DockerListLocalProjects DockerStopOrphanProject
  DockerRemoveOrphanProject skip : docker.

Lemma forgetful_ensure_each dataRoot p created svcs : forgetful (ensure_each dataRoot p created svcs).
Proof. revert created. induction svcs as [|svc svcs IH]; intros created; cbn [ensure_each]; forget; apply IH. Qed.
Lemma forgetful_inspect_each p svcs : forgetful (inspect_each p svcs).
Proof. induction svcs as [|svc svcs IH]; cbn [inspect_each]; forget. Qed.
Lemma forgetful_ips_each p ips svcs : forgetful (ips_each p ips svcs).
Proof. revert ips. induction svcs as [|svc svcs IH]; intros ips; cbn [ips_each]; forget; apply IH. Qed.
Lemma forgetful_drift_each p svcs : forgetful (drift_each p svcs).
Proof. induction svcs as [|svc svcs IH]; cbn [drift_each]; forget. Qed.
Lemma forgetful_owned_each p svcs : forgetful (owned_each p svcs).
Proof. induction svcs as [|svc svcs IH]; cbn [owned_each]; forget. Qed.
#[local] Hint Resolve forgetful_owned_each : core.
#[local] Hint Resolve forgetful_ensure_each forgetful_inspect_each forgetful_ips_each forgetful_drift_each : core.

Lemma methods_forgetful dataRoot c method : docker_method dataRoot c = Some method → forgetful method.
Proof. destruct c; try discriminate; intros [= <-]; forget; auto. Qed.

Lemma only_reads {A} ok (p : act A) m h :
  only reads_docker p → (∀ h c, reads_docker c → ok h c) → awp ok p (λ _ _ _, True) m h.
Proof. intros Hp Hr. by eapply awp_only. Qed.

Lemma only_dock {B} d (f : docker_answer d → act B) :
  docker_read d = true → (∀ x, only reads_docker (f x)) → only reads_docker (dock d ≫= f).
Proof. intros Hd Hf. split; [by exists d|]. intros x. apply Hf. Qed.

Lemma only_inspect_each p svcs : only reads_docker (inspect_each p svcs).
Proof.
  induction svcs as [|svc svcs IH]; [done|]. apply only_dock; [done|]. intros [info|e].
  - by apply only_bind.
  - by destruct (IsErrNotFound e).
Qed.
Lemma only_ips_each p ips svcs : only reads_docker (ips_each p ips svcs).
Proof.
  revert ips. induction svcs as [|svc svcs IH]; intros ips; [done|]. apply only_dock; [done|]. intros [info|e].
  - apply IH.
  - destruct (IsErrNotFound e); [apply IH|done].
Qed.
Lemma only_drift_each p svcs : only reads_docker (drift_each p svcs).
Proof.
  induction svcs as [|svc svcs IH]; [done|]. apply only_dock; [done|]. intros [info|e].
  - destruct (checkContainerOwnership _ _ _ _); [done|]. by case_decide; apply only_bind.
  - destruct (isNotFound e); [by apply only_bind|done].
Qed.
Lemma only_unlistedContainers p listed : only reads_docker (unlistedContainers p listed).
Proof. by apply only_dock. Qed.
Lemma only_DockerSpecDrift p : only reads_docker (DockerSpecDrift p).
Proof.
  apply only_bind; [apply only_drift_each|]. intros [[outdated missing]|e]; [|done].
  apply only_bind; [apply only_unlistedContainers|]. by intros [removed|e].
Qed.

Lemma methods_allowed dataRoot c method m :
  docker_method dataRoot c = Some method → awp (method_allowed dataRoot c) method (λ _ _ _, True) m [].
Proof.
  destruct c; try discriminate; intros [= <-]; cbn [method_allowed];
    try (eapply awp_mono; [|first
      [ apply awp_DockerReconcileProject | apply awp_DockerRecoverServices | apply awp_DockerUpdateServices
      | apply awp_DockerRemoveAssignment | apply awp_DockerAssignmentRemaining
      | apply awp_DockerStopOrphanProject | apply awp_DockerRemoveOrphanProject
      | apply awp_StopProject | apply awp_StartProject ]]; done);
    try (apply only_reads; [|done]; first
      [ apply only_inspect_each | apply only_ips_each | apply only_DockerSpecDrift | by apply only_dock ]).
  - eapply awp_mono; [|apply awp_preflightTargets]; [done|]. intros h d Hd. by exists d.
  - apply (awp_ensureNetwork _ (ownerOf p) (λ _, False) []); [|done|done]. intros h d _ Hd. by exists d.
  - apply awp_or_return, (awp_call_bind _ (Docker _)); [by left|]. intros [e|]; [done|].
    apply (awp_call_bind _ (Docker _)); [by right|done].
Qed.

(** ** The loop on Docker *)

Lemma obeys_run dataRoot c method w m x m' seg :
  docker_method dataRoot c = Some method → act_run w method m [] = (x, m', seg) → obeys (method_allowed dataRoot c) seg.
Proof.
  intros Hm Hrun. pose proof (awp_adequate _ w _ _ m [] (methods_allowed dataRoot c method m Hm) (obeys_nil _)) as [_ Ho].
  by rewrite Hrun in Ho.
Qed.

(** A program that keeps its protocol against every runtime does what it does against
    Docker: the run on Docker serves a run that keeps the protocol and ends alike. *)
Lemma on_docker_serves {A} dataRoot ok (p : act A) Q w m ha hc :
  awp ok p Q m ha → obeys ok ha → served dataRoot ha hc →
  let '(a, m', hc') := act_run w (on_docker dataRoot p) m hc in
  ∃ ha', served dataRoot ha' hc' ∧ obeys ok ha' ∧ Q a m' ha'.
Proof.
  revert m ha hc. induction p as [a|c k IH|T f k IH]; intros m ha hc Hp Ho Hs; cbn [on_docker].
  - by exists ha.
  - destruct Hp as [Hc Hk]. destruct (docker_method dataRoot c) as [method|] eqn:Hm.
    + rewrite act_run_bind. pose proof (act_run_after w method m hc []) as Hrun. rewrite app_nil_r in Hrun.
      rewrite Hrun. pose proof (forgetful_run (λ h, w (hc ++ h)) method m [] (methods_forgetful _ _ _ Hm)) as Hmem.
      destruct (act_run (λ h, w (hc ++ h)) method m []) as [[x m'] seg] eqn:Hr. simpl in Hmem. subst m'.
      apply (IH x m (ha ++ [Did c x]) (hc ++ seg)); [done|by apply obeys_snoc|]. by eapply served_by.
    + apply (IH (w hc c) m (ha ++ [Did c (w hc c)]) (hc ++ [Did c (w hc c)])); [done|by apply obeys_snoc|].
      by apply served_same.
  - simpl in Hp |- *. destruct (f m) as [x m']. by apply (IH x m' ha hc).
Qed.

(** Every request of the concrete history is one of the loop's own, or was made by a
    method in serving one, after what that method had done itself. *)
Lemma served_requests dataRoot ha hc :
  served dataRoot ha hc → ∀ h1 e h2, hc = h1 ++ e :: h2 →
  ∃ ha1 c x ha2 hs seg, ha = ha1 ++ Did c x :: ha2 ∧ h1 = hs ++ seg ∧ served dataRoot ha1 hs ∧
    ((docker_method dataRoot c = None ∧ seg = [] ∧ call_of e = c) ∨
     (is_Some (docker_method dataRoot c) ∧ method_allowed dataRoot c seg (call_of e))).
Proof.
  induction 1 as [|ha hc c x Hm Hs IH|ha hc c x method seg w m Hm Hrun Hs IH]; intros h1 e h2 Heq.
  - by destruct h1.
  - destruct h2 as [|e' h2 _] using rev_ind.
    + apply app_inj_tail in Heq as [-> <-]. exists ha, c, x, [], h1, [].
      split_and!; [done|by rewrite app_nil_r|done|]. by left.
    + rewrite app_comm_cons, app_assoc in Heq. apply app_inj_tail in Heq as [Heq _].
      destruct (IH _ _ _ Heq) as (ha1 & c' & x' & ha2 & hs & seg & -> & H).
      exists ha1, c', x', (ha2 ++ [Did c x]), hs, seg. by rewrite <- app_assoc.
  - apply app_eq_app in Heq as (l & [[-> Hl]|[-> Hl]]).
    + destruct l as [|e' l].
      * simpl in Hl. exists ha, c, x, [], h1, []. rewrite !app_nil_r in *. split_and!; [done|done|done|].
        right. split; [by eexists|]. eapply (obeys_run _ _ _ _ _ _ _ _ Hm Hrun []). by rewrite <- Hl.
      * injection Hl as <- ->. destruct (IH h1 e l eq_refl) as (ha1 & c' & x' & ha2 & hs & seg' & -> & H).
        exists ha1, c', x', (ha2 ++ [Did c x]), hs, seg'. by rewrite <- app_assoc.
    + exists ha, c, x, [], hc, l. split_and!; [done|done|done|]. right. split; [by eexists|].
      by eapply (obeys_run _ _ _ _ _ _ _ _ Hm Hrun).
Qed.

(** The loop itself never asks Docker. *)
Lemma poll_asks_the_runtime lp orphans h d : ¬ poll_allowed lp orphans h (Docker d).
Proof.
  intros (projects & [(t & _ & h1 & h2 & _ & _ & [])|[(cleaner & _ & h1 & h2 & _ & _ & Hc)|(q & _ & h1 & h2 & _ & _ & Hc)]]).
  - by destruct Hc as (tasks & task & _ & _ & h3 & h4 & _ & _ & _ & []).
  - destruct Hc as [[_ Hc]|[[_ Hc]|[_ Hc]]].
    + destruct Hc as (h3 & h4 & _ & _ & _ & Hc). by destruct (lp_Cleaner lp).
    + done.
    + by destruct Hc as [Hc|[_ Hc]].
Qed.

(** The run of the method that served [e] is part of the concrete history. *)
Definition run_within (dataRoot : string) (hc : story) (e : happening) : Prop :=
  match e with
  | Did c x =>
      ∀ method, docker_method dataRoot c = Some method →
      ∃ seg w m, act_run w method m [] = (x, m, seg) ∧ ∀ e', e' ∈ seg → e' ∈ hc
  end.
Lemma run_within_app dataRoot hc k e : run_within dataRoot hc e → run_within dataRoot (hc ++ k) e.
Proof.
  destruct e as [c x]. intros He method Hm. destruct (He method Hm) as (seg & w & m & Hrun & Hs).
  exists seg, w, m. split; [done|]. intros e' He'. apply elem_of_app. left. by apply Hs.
Qed.
Lemma served_seen dataRoot ha hc e : served dataRoot ha hc → e ∈ ha → run_within dataRoot hc e.
Proof.
  induction 1 as [|ha hc c x Hm Hs IH|ha hc c x method seg w m Hm Hrun Hs IH]; intros Hin.
  - inversion Hin.
  - apply elem_of_app in Hin as [Hin|Hin]; [by apply run_within_app, IH|]. apply list_elem_of_singleton in Hin as ->.
    intros method Hm'. by rewrite Hm in Hm'.
  - apply elem_of_app in Hin as [Hin|Hin]; [by apply run_within_app, IH|]. apply list_elem_of_singleton in Hin as ->.
    intros method' Hm'. rewrite Hm in Hm'. injection Hm' as <-. exists seg, w, m. split; [done|].
    intros e He. apply elem_of_app. by right.
Qed.

(** C10 (loop.go, reconcileProjects, on internal/agent/docker): the loop keeps on Docker
    what it keeps on any runtime. Whatever the server, Docker, the repo host and the
    disk answer a poll, what it does is a poll against the runtime's interface that
    obeys the poll's protocol, with a run of the Docker method in the place of each
    request to the runtime; and every request it makes of the Docker engine or of a
    volume's directory was made by one of these methods, in serving a request the poll
    was allowed to make just then, and is one that method may make after what it had
    asked itself. *)
Theorem poll_on_docker (lp : Loop) (dataRoot : string) (w : world) (m : memory) :
  let hc := (act_run w (on_docker dataRoot (reconcileProjects lp)) m []).2 in
  ∃ ha, served dataRoot ha hc ∧ obeys (poll_allowed lp (mem_Orphans m)) ha ∧
    ∀ h1 d x h2, hc = h1 ++ Did (Docker d) x :: h2 →
    ∃ ha1 c y ha2 hs seg, ha = ha1 ++ Did c y :: ha2 ∧ h1 = hs ++ seg ∧ served dataRoot ha1 hs ∧
      is_Some (docker_method dataRoot c) ∧ poll_allowed lp (mem_Orphans m) ha1 c ∧
      method_allowed dataRoot c seg (Docker d).
Proof.
  pose proof (on_docker_serves dataRoot _ _ _ w m [] []
    (awp_reconcileProjects lp (mem_Orphans m) m eq_refl) (obeys_nil _) (served_nil _)) as H.
  destruct (act_run _ _ _ _) as [[u m'] hc]. destruct H as (ha & Hs & Ho & _). exists ha. split_and!; [done..|].
  intros h1 d x h2 Heq.
  destruct (served_requests _ _ _ Hs _ _ _ Heq) as (ha1 & c & y & ha2 & hs & seg & Hha & Hh1 & Hs1 & Hc).
  pose proof (Ho _ _ _ Hha) as Hc'. exists ha1, c, y, ha2, hs, seg.
  destruct Hc as [(_ & _ & <-)|[Hm Hc]]; [by apply poll_asks_the_runtime in Hc'|]. by split_and!.
Qed.

(** ** Terminated, on Docker *)

Lemma methods_ask_docker dataRoot c h c' :
  is_Some (docker_method dataRoot c) → method_allowed dataRoot c h c' → ∃ d, c' = Docker d.
Proof.
  intros [method Hm] Hc. destruct c'; try (by eexists); exfalso; destruct c; try discriminate Hm; simpl in Hc;
    try done; try (by destruct Hc as [? [? _]]); try (by destruct Hc as [[] _]); by destruct Hc.
Qed.

(** What the loop asked itself, it asked after a history that was served. *)
Lemma served_before dataRoot ha hc h1 e h2 :
  served dataRoot ha hc → hc = h1 ++ e :: h2 → (∀ d, call_of e ≠ Docker d) →
  ∃ ha1 x ha2, ha = ha1 ++ Did (call_of e) x :: ha2 ∧ served dataRoot ha1 h1.
Proof.
  intros Hs Heq Hn.
  destruct (served_requests _ _ _ Hs _ _ _ Heq) as (ha1 & c & x & ha2 & hs & seg & -> & -> & Hs1 & [(_ & -> & <-)|[Hm Hc]]).
  - exists ha1, x, ha2. by rewrite app_nil_r.
  - apply methods_ask_docker in Hc as [d Hd]; [|done]. by apply Hn in Hd.
Qed.

Lemma assignment_gone_within a (h h' : story) : (∀ e, e ∈ h → e ∈ h') → assignment_gone a h → assignment_gone a h'.
Proof. unfold assignment_gone, gone. intros Hin. naive_solver. Qed.
Lemma nothing_left_within a (h h' : story) : (∀ e, e ∈ h → e ∈ h') → nothing_left a h → nothing_left a h'.
Proof. unfold nothing_left, no_other_generation. intros Hin. naive_solver. Qed.

(** The assignment was removed from Docker, and then Docker showed nothing of it. *)
Definition cleared (a : Assignment) (h : story) : Prop := assignment_gone a h ∧ nothing_left a h.

Lemma served_cleared dataRoot ha hc a :
  served dataRoot ha hc → Did (RemoveAssignment a) None ∈ ha → Did (AssignmentRemaining a) (Got []) ∈ ha → cleared a hc.
Proof.
  intros Hs H1 H2. pose proof (served_seen _ _ _ _ Hs H1 _ eq_refl) as (seg1 & w1 & m1 & R1 & I1).
  pose proof (served_seen _ _ _ _ Hs H2 _ eq_refl) as (seg2 & w2 & m2 & R2 & I2). split.
  - pose proof (awp_adequate _ w1 _ _ m1 [] (awp_DockerRemoveAssignment a m1) (obeys_nil _)) as [HQ _].
    assert (act_run w1 (DockerRemoveAssignment a) m1 [] = (None, m1, seg1)) as E1 by exact R1. rewrite E1 in HQ.
    eapply assignment_gone_within; [exact I1|]. by apply HQ.
  - pose proof (awp_adequate _ w2 _ _ m2 [] (awp_DockerAssignmentRemaining a m2) (obeys_nil _)) as [HQ _].
    assert (act_run w2 (DockerAssignmentRemaining a) m2 [] = (Got [], m2, seg2)) as E2 by exact R2. rewrite E2 in HQ.
    eapply nothing_left_within; [exact I2|]. by apply HQ.
Qed.

(** What a cleaner that can remove from Docker confirmed, Docker showed. *)
Lemma confirmed_cleared dataRoot cleaner a h0 ha hc :
  dockerResources ∈ cl_resources cleaner → confirmed cleaner a ha → served dataRoot (h0 ++ ha) hc → cleared a hc.
Proof.
  intros Hin (h1 & h2 & -> & Hr & Hl) Hs. rewrite Forall_forall in Hr, Hl. eapply served_cleared; [exact Hs|..].
  - apply elem_of_app. right. apply elem_of_app. left. exact (Hr _ Hin).
  - apply elem_of_app. right. apply elem_of_app. right. exact (Hl _ Hin).
Qed.

Definition docker_cleaner (routes repo : bool) (root : string) : assignmentCleaner :=
  {| cl_resources := (if repo then [repoHostResources] else []) ++ [dockerResources; proxyRoutes routes];
     cl_dataRoot := root |}.
Lemma docker_cleaner_default routes repo root : defaultCleaner true routes repo root = Some (docker_cleaner routes repo root).
Proof. by destruct repo. Qed.
Lemma docker_cleaner_docker routes repo root : dockerResources ∈ cl_resources (docker_cleaner routes repo root).
Proof. destruct repo; simpl; set_solver. Qed.

(** The reports of a removal, and what Docker showed before each. *)
Definition evidence_of_teardown (p : Project) (h : story) (c : call) : Prop :=
  match c with
  | UpdateProjectStatus _ _ phase _ _ => phase = ProjectPhaseTerminated → cleared (lifetime_of p) h
  | ReportResourcesRemoved _ _ => cleared (lifetime_of p) h
  | _ => True
  end.
Definition evidence_of_cleanup (h : story) (c : call) : Prop :=
  match c with
  | ReportResourcesRemoved name id => ∃ namespace, cleared (assignmentOf namespace name id) h
  | Quarantine _ owner _ =>
      ∃ a, cleared a h ∧ as_Project a = pv_Project owner ∧ as_UID a = pv_ProjectUID owner ∧
           as_Generation a = pv_AssignmentGeneration owner
  | _ => True
  end.


(** ** On concrete engines *)

(** An engine with nothing in it, that does all it is asked; anything else answers as
    in [patient_world]. *)
Definition empty_engine (c : docker_call) : docker_answer c :=
  match c return docker_answer c with
  | ContainerCreate _ => Got "c1"
  | ContainerInspect _ | NetworkInspect _ | VolumeInspect _ => Bad (Fails ErrDockerNotFound)
  | ContainerList _ | VolumeList _ | ImagePull _ => Got []
  | StatDir _ => Got {| di_IsDir := true; di_ForeignOwner := false |}
  | _ => None
  end.
Definition engine_world (engine : ∀ c, docker_answer c) : world := λ h c,
  match c return answer c with
  | Docker c => engine c
  | GetProject _ => Got broken_project
  | c => patient_world h c
  end.

Definition asked_engine (h : story) : list docker_call :=
  omap (λ e, match call_of e with Docker d => if docker_read d then None else Some d | _ => None end) h.
Definition docker_verb (d : docker_call) : string :=
  match d with
  | ContainerCreate c => "create " ++ cc_Name c | ContainerStart id => "start " ++ id
  | ContainerStop id _ => "stop " ++ id | ContainerRemove id _ => "remove " ++ id
  | ImagePull ref => "pull " ++ ref | NetworkCreate name _ => "network " ++ name
  | NetworkRemove id => "drop network " ++ id | VolumeCreate name _ => "volume " ++ name
  | VolumeRemove name => "drop volume " ++ name | MkdirAll path => "mkdir " ++ path
  | _ => "read"
  end%string.
Definition doings (h : story) : list string := docker_verb <$> asked_engine h.

(** Placing [web], whose one service is [main], on an empty engine. *)
Example placing_succeeds :
  let '(r, _, h) := act_run (engine_world empty_engine) (DockerReconcileProject "/var/lib/cara" broken_project)
                      fresh_memory [] in
  r = None ∧ doings h = ["network cara-web"; "pull nginx"; "create web-main"; "start c1"]%string.
Proof. vm_compute. split; reflexivity. Qed.

(** [web-main] is there under its own labels, stopped; nothing else is. *)
Definition main_container (hash : string) (running : bool) : ContainerJSON :=
  {| cj_ID := "c1";
     cj_Labels := Some (service_labels (ownerOf broken_project)
                          {| svc_Name := "main"; svc_Image := "nginx"; svc_Command := []; svc_Env := [];
                             svc_VolumeMounts := [] |} hash []);
     cj_Status := "exited"; cj_Running := running; cj_ExitCode := 127; cj_Networks := ∅ |}.
Definition stopped_engine (start : option failure) (stream : list PullMessage) (c : docker_call) : docker_answer c :=
  match c return docker_answer c with
  | ContainerInspect name =>
      if decide (name = "web-main"%string) then Got (main_container "old" false) else Bad (Fails ErrDockerNotFound)
  | ContainerStart _ => start
  | ImagePull _ => Got stream
  | c => empty_engine c
  end.

(** A deleted Project on an empty engine is reported Terminated. *)
Example terminated_reached :
  let h := (act_run (engine_world empty_engine)
              (on_docker "/var/lib/cara" (terminateOne true (defaultCleaner true true false "/var/lib/cara") broken_project))
              fresh_memory []).2 in
  existsb (λ e, match call_of e with
                | UpdateProjectStatus _ _ phase _ _ => bool_decide (phase = ProjectPhaseTerminated)
                | _ => false
                end) h = true.
Proof. vm_compute. reflexivity. Qed.

(** An error whose text has the words not found is taken for an absent container:
    a container that exists and cannot start, for its command is not in the image,
    leaves StartProject successful and nothing running. *)
Definition missing_executable : failure :=
  Text "OCI runtime create failed: exec: app: executable file not found in $PATH".
Example StartProject_hides_failed_start :
  let '(r, _, h) := act_run (engine_world (stopped_engine (Some missing_executable) [])) (StartProject broken_project)
                      fresh_memory [] in
  r = None ∧ Did (Docker (ContainerStart "c1")) (Some missing_executable) ∈ h.
Proof. vm_compute. split; [reflexivity|]. right. left. Qed.

(** A pull whose stream breaks is taken for finished: the outdated container is removed,
    though nothing says that the image is here. *)
Example broken_pull_removes :
  let h := (act_run (engine_world (stopped_engine None [PullGarbage]))
              (DockerUpdateServices "/var/lib/cara" broken_project
                 {| sd_Outdated := ["main"%string]; sd_Missing := []; sd_Removed := [] |}) fresh_memory []).2 in
  firstn 3 (doings h) = ["pull nginx"; "stop c1"; "remove c1"]%string.
Proof. vm_compute. reflexivity. Qed.

(** A container that runs is replaced when its spec hash is another. *)
Definition running_engine (c : docker_call) : docker_answer c :=
  match c return docker_answer c with
  | ContainerInspect name =>
      if decide (name = "web-main"%string) then Got (main_container "old" true) else Bad (Fails ErrDockerNotFound)
  | c => empty_engine c
  end.
Example placing_replaces_a_running_container :
  let '(r, _, h) := act_run (engine_world running_engine) (DockerReconcileProject "/var/lib/cara" broken_project)
                      fresh_memory [] in
  r = None ∧ doings h = ["network cara-web"; "pull nginx"; "stop c1"; "remove c1"; "create web-main"; "start c1"]%string.
Proof. vm_compute. split; reflexivity. Qed.

(** An identity without a UID filters by the name alone, so what it lists can be of a
    lifetime that has one. *)
Definition legacy_web : ProjectIdentity := {| pi_Namespace := "default"; pi_Name := "web"; pi_UID := EmptyString |}.
Example legacy_identity_is_every_lifetime (ls : labels) :
  of_identity legacy_web ls ↔ lbl ls labelProject = "web"%string ∧ lbl ls labelNamespace = "default"%string.
Proof. unfold of_identity. simpl. naive_solver. Qed.
