(* ===== verification/BackupAgent.v ===== *)
(** Backups in the Agent: one backup of internal/agent/backup/runner.go on Docker, the
    supervisor that runs them on an interval (internal/agent/backup/supervisor.go), and
    the choice of the strategy (internal/agent/backupsupport.go). *)
From Stdlib Require Import ZArith Lia.
From stdpp Require Import prelude gmap strings.
From S2P Require Import Prelude.
From S2P Require Import Conditions.
From S2P Require Import ProjectTypes.
From S2P Require Import Duration.
From S2P Require Import Failures.
From S2P Require Import Engine.
From S2P Require Import Stores.
From S2P Require Import Actions.
From S2P Require Import Coordinator.
From S2P Require Import Health.
From S2P Require Import Reports.
From S2P Require Import Retention.
From S2P Require Import BackupRunner.
From S2P Require Import DockerOwnership.
From S2P Require Import DockerRuntime.
From S2P Require Import DockerAgent.
Import GoTime GoInt GoString.
Open Scope nat_scope.

Set Default Proof Using "Type".

(** ** On Docker *)

Lemma containers_down_within p (h h' : story) : (∀ e, e ∈ h → e ∈ h') → containers_down p h → containers_down p h'.
Proof.
  intros Hin (cs & H1 & H2). exists cs. split.
  - intros c Hc. destruct (H1 c Hc) as (x & Hx & Hr). exists x. split; [by apply Hin|done].
  - intros svc Hs. destruct (H2 svc Hs) as (x & Hx & Hr). exists x. split; [by apply Hin|done].
Qed.
Lemma own_container_within p id (h h' : story) : (∀ e, e ∈ h → e ∈ h') → own_container p id h → own_container p id h'.
Proof.
  intros Hin (svc & info & H1 & H2 & H3 & H4). exists svc, info. split_and!; [done|done|by apply Hin|done].
Qed.

(** What a backup asked the runtime for, on Docker. *)
Definition backup_docker_allowed (p : Project) (h : story) (c : call) : Prop :=
  match c with
  | Disk (ArchiveDir _ _) => containers_down p h
  | Docker (ContainerStop id _) | Docker (ContainerStart id) => own_container p id h
  | Docker d => docker_read d = true
  | _ => True
  end.

(** A backup asks the runtime for three things. *)
Lemma backup_methods r p dataRoot h c :
  is_Some (docker_method dataRoot c) → backup_allowed r p h c →
  c = StopContainers p ∨ c = StartContainers p ∨ c = GetContainerIPs p.
Proof.
  intros [method Hm] Hc. destruct c; try discriminate Hm; try (by destruct Hc as [_ []]); simpl in Hc;
    destruct Hc as [_ [-> _]]; auto.
Qed.
Lemma backup_asks_the_runtime r p h d : ¬ backup_allowed r p h (Docker d).
Proof. by intros [_ []]. Qed.

Lemma stop_allowed_docker p h1 hs seg c d :
  (c = StopContainers p ∨ c = StartContainers p ∨ c = GetContainerIPs p) → h1 = hs ++ seg →
  ∀ dataRoot, method_allowed dataRoot c seg (Docker d) → backup_docker_allowed p h1 (Docker d).
Proof.
  intros Hc -> dataRoot Hd. assert (∀ e, e ∈ seg → e ∈ hs ++ seg) as Hin by set_solver.
  destruct Hc as [->|[->| ->]]; simpl in Hd.
  - destruct d; try done; simpl; try (by destruct Hd). destruct Hd as (_ & _ & Ho & _). by eapply own_container_within.
  - destruct d; try done; simpl; try (by destruct Hd). destruct Hd as (_ & Ho & _). by eapply own_container_within.
  - destruct Hd as (d' & [= <-] & Hr). by destruct d.
Qed.

(** C21 (internal/agent/backup/runner.go on internal/agent/docker, StopProject and
    StartProject): on Docker a backup keeps its protocol, and a volume is archived only
    after Docker showed, for every service of the Project, that it has no container or
    that its container is this assignment's and was stopped by this backup; of Docker a
    backup asks nothing but to inspect, and to stop and start containers it has shown
    to be this assignment's. *)
Theorem backup_on_docker {order : MapOrder} (r : Runner) (p : Project) (dataRoot : string) (w : world) (m : memory) :
  let hc := (act_run w (on_docker dataRoot (Run r p)) m []).2 in
  (∃ ha, served dataRoot ha hc ∧ obeys (backup_allowed r p) ha ∧ settled r p ha) ∧ obeys (backup_docker_allowed p) hc.
Proof.
  pose proof (on_docker_serves dataRoot _ _ _ w m [] [] (awp_Run r p m) (obeys_nil _) (served_nil _)) as H.
  destruct (act_run _ _ _ _) as [[err m'] hc]. destruct H as (ha & Hs & Ho & Hset & _). simpl. split; [by exists ha|].
  intros h1 e h2 Heq. destruct (served_requests _ _ _ Hs _ _ _ Heq) as (ha1 & c & x & ha2 & hs & seg & Hha & Hh1 & Hs1 & Hc).
  pose proof (Ho _ _ _ Hha) as Hc'. simpl in Hc'. destruct Hc as [(_ & -> & <-)|[Hm Hc]].
  - destruct (call_of e) as [] eqn:Ee; try exact I; [by apply backup_asks_the_runtime in Hc'|].
    destruct c; try exact I. destruct Hc' as (_ & [Hstop _] & _). rewrite app_nil_r in Hh1. subst hs.
    destruct (served_seen _ _ _ _ Hs1 Hstop _ eq_refl) as (seg1 & w1 & m1 & R1 & I1).
    pose proof (awp_adequate _ w1 _ _ m1 [] (awp_StopProject p m1) (obeys_nil _)) as [HQ _].
    assert (act_run w1 (StopProject p) m1 [] = (None, m1, seg1)) as E1 by exact R1. rewrite E1 in HQ.
    eapply containers_down_within; [exact I1|]. by apply HQ.
  - pose proof (backup_methods _ _ _ _ _ Hm Hc') as Hm'.
    destruct (methods_ask_docker _ _ _ _ Hm Hc) as [d Hd]. rewrite Hd in Hc |- *.
    by eapply stop_allowed_docker.
Qed.

(** ** The supervisor *)

(** A goroutine is known by the number of its context. *)
Record supervisorEntry := {
  se_goroutine : nat; se_interval : Duration; se_uid : string; se_generation : Z; se_project : Project
}.
(** [sv_started] goroutines were started; the contexts of [sv_cancelled] are done. *)
Record Supervisor := {
  sv_entries : gmap ResourceKey supervisorEntry; sv_started : nat; sv_cancelled : list nat
}.
Definition NewSupervisor : Supervisor := {| sv_entries := ∅; sv_started := 0; sv_cancelled := [] |}.

Definition shouldSupervise (p : Project) : bool :=
  if negb (bool_decide (st_Phase (p_Status p) = ProjectPhaseRunning)) then false
  else match sp_Backup (p_Spec p) with
       | None => false
       | Some _ => Nat.ltb 0 (length (managedVolumes (p_Spec p))) || HasPostgresDifferential (p_Spec p)
       end.

(** The interval of a backup policy; [None] is an error, which is only logged. *)
Definition backupInterval (p : Project) : option Duration :=
  c ← sp_Backup (p_Spec p);
  d ← ParseDuration (bc_Interval c);
  if Z.leb d 0 then None else Some d.

(** The map of the Projects to supervise; a later one of a key replaces an earlier
    one. *)
Definition desired (projects : list Project) : gmap ResourceKey Project :=
  foldl (λ m p, if shouldSupervise p then <[key_of_project p := p]> m else m) ∅ projects.

Definition cancel_entry (key : ResourceKey) (e : supervisorEntry) (s : Supervisor) : Supervisor :=
  {| sv_entries := delete key (sv_entries s); sv_started := sv_started s;
     sv_cancelled := se_goroutine e :: sv_cancelled s |}.
Definition start_entry (key : ResourceKey) (interval : Duration) (p : Project) (s : Supervisor) : Supervisor :=
  {| sv_entries := <[key := {| se_goroutine := sv_started s; se_interval := interval; se_uid := om_UID (p_Meta p);
                              se_generation := st_AssignmentGeneration (p_Status p); se_project := p |}]> (sv_entries s);
     sv_started := S (sv_started s); sv_cancelled := sv_cancelled s |}.
Definition same_work (e : supervisorEntry) (interval : Duration) (p : Project) : bool :=
  Z.eqb (se_interval e) interval && bool_decide (se_uid e = om_UID (p_Meta p)) &&
  Z.eqb (se_generation e) (st_AssignmentGeneration (p_Status p)).
Definition update_entry (key : ResourceKey) (e : supervisorEntry) (p : Project) (s : Supervisor) : Supervisor :=
  {| sv_entries := <[key := {| se_goroutine := se_goroutine e; se_interval := se_interval e; se_uid := se_uid e;
                              se_generation := se_generation e; se_project := p |}]> (sv_entries s);
     sv_started := sv_started s; sv_cancelled := sv_cancelled s |}.

Definition sync_stop (want : gmap ResourceKey Project) (s : Supervisor) (kv : ResourceKey * supervisorEntry) : Supervisor :=
  match want !! kv.1 with Some _ => s | None => cancel_entry kv.1 kv.2 s end.
Definition sync_start (s : Supervisor) (kv : ResourceKey * Project) : Supervisor :=
  let '(key, p) := kv in
  match backupInterval p with
  | None => s
  | Some interval =>
      match sv_entries s !! key with
      | Some e =>
          if same_work e interval p then update_entry key e p s
          else start_entry key interval p (cancel_entry key e s)
      | None => start_entry key interval p s
      end
  end.

(** [entries] and [projects'] are the two maps in the order they are ranged over. *)
Definition Sync (projects : list Project) (entries : list (ResourceKey * supervisorEntry))
    (projects' : list (ResourceKey * Project)) (s : Supervisor) : Supervisor :=
  foldl sync_start (foldl (sync_stop (desired projects)) s entries) projects'.

Definition Stop (entries : list (ResourceKey * supervisorEntry)) (s : Supervisor) : Supervisor :=
  foldl (λ s kv, cancel_entry kv.1 kv.2 s) s entries.
Definition Count (s : Supervisor) : nat := size (sv_entries s).

(** ** The health of backups *)

Definition backupFailingOn (p : Project) : bool :=
  existsb (λ c, bool_decide (cond_Type c = ConditionTypeBackupFailing) && bool_decide (cond_Status c = ConditionTrue))
          (st_Conditions (p_Status p)).
Definition SetBackupFailing (p : Project) : act (option failure) :=
  call_ (PatchProjectCondition (om_Name (p_Meta p)) (fenceForProject p) ConditionTypeBackupFailing ConditionTrue
           "BackupAttemptFailed" "The most recent scheduled backup failed; see this Node's Agent log").
Definition ClearBackupFailing (p : Project) : act (option failure) :=
  call_ (ClearProjectCondition (om_Name (p_Meta p)) (fenceForProject p) ConditionTypeBackupFailing).

(** Whether the server now shows that backups fail. *)
Definition reportHealth (health : bool) (p : Project) (failed reported : bool) : act bool :=
  if negb health then Return reported
  else if failed then
    if reported then Return true
    else SetBackupFailing p ≫= λ err, Return (match (err : option failure) with Some _ => false | None => true end)
  else if negb reported && negb (backupFailingOn p) then Return false
  else ClearBackupFailing p ≫= λ err, Return (match (err : option failure) with Some _ => true | None => false end).

(** [strategyRunner]: [postgres] backs up a PostgresDifferential Project, where the Node
    can. *)
Definition strategy_Run {order : MapOrder} (r : Runner) (postgres : option (Project → act (option failure)))
    (p : Project) : act (option failure) :=
  if HasPostgresDifferential (p_Spec p) then
    match postgres with
    | None =>
        Return (Some (Text ("agent: this Node's container runtime cannot run PostgreSQL backups for "
                            ++ om_Name (p_Meta p))%string))
    | Some run => run p
    end
  else Run r p.

(** What a goroutine does when its timer fires: one run, and its report. *)
Definition supervised_run {order : MapOrder} (r : Runner) (postgres : option (Project → act (option failure)))
    (health : bool) (p : Project) (reported : bool) : act bool :=
  strategy_Run r postgres p ≫= λ err,
  let failed := match err with Some e => negb (FIs e ErrNoManagedVolumes) | None => false end in
  call_ ContextErr ≫= λ done,
  match (done : option failure) with
  | None => reportHealth health p failed reported
  | Some _ => Return reported
  end.

Definition supervised_example : Project :=
  {| p_Meta := p_Meta backup_example;
     p_Spec := {| sp_Size := EmptyString; sp_Services := [];
                  sp_Volumes := [{| vol_Name := "db"; vol_Type := VolumeTypeManaged |}];
                  sp_Backup := Some {| bc_Interval := "6h"; bc_OnMissing := EmptyString; bc_Items := [] |};
                  sp_Ingress := []; sp_ExpireAt := None; sp_RestartedAt := None |};
     p_Status := st_with_Phase ProjectPhaseRunning (p_Status backup_example) |}.

(** ** One goroutine for each supervised Project *)

Definition sup_inv (s : Supervisor) : Prop :=
  (∀ key e, sv_entries s !! key = Some e → se_goroutine e < sv_started s ∧ se_goroutine e ∉ sv_cancelled s) ∧
  (∀ k1 k2 e1 e2, sv_entries s !! k1 = Some e1 → sv_entries s !! k2 = Some e2 → se_goroutine e1 = se_goroutine e2 → k1 = k2) ∧
  (∀ g, g < sv_started s → g ∈ sv_cancelled s ∨ ∃ key e, sv_entries s !! key = Some e ∧ se_goroutine e = g) ∧
  (∀ g, g ∈ sv_cancelled s → g < sv_started s).

Lemma NewSupervisor_inv : sup_inv NewSupervisor.
Proof.
  unfold sup_inv, NewSupervisor. simpl.
  split_and!; [intros key e|intros k1 k2 e1 e2|lia|by intros g ?%elem_of_nil]; by rewrite lookup_empty.
Qed.
Lemma cancel_inv key e s : sv_entries s !! key = Some e → sup_inv s → sup_inv (cancel_entry key e s).
Proof.
  intros He (H1 & H2 & H3 & H4). unfold sup_inv, cancel_entry. simpl. split_and!.
  - intros k e' [Hne He']%lookup_delete_Some. destruct (H1 _ _ He') as [Hl Hn]. split; [done|].
    intros [Heq|?]%elem_of_cons; [|done]. apply Hne. by eapply H2.
  - intros k1 k2 e1 e2 [_ Hk1]%lookup_delete_Some [_ Hk2]%lookup_delete_Some. by apply H2.
  - intros g Hg. destruct (H3 g Hg) as [?|(k & e' & He' & <-)]; [left; by right|].
    destruct (decide (k = key)) as [->|Hne]; [left; simplify_eq; by left|right]. exists k, e'.
    by rewrite lookup_delete_ne.
  - intros g [->|Hg]%elem_of_cons; [by apply (H1 _ _ He)|by apply H4].
Qed.
Lemma start_inv key interval p s : sv_entries s !! key = None → sup_inv s → sup_inv (start_entry key interval p s).
Proof.
  intros He (H1 & H2 & H3 & H4). unfold sup_inv, start_entry. simpl. split_and!.
  - intros k e' [[<- <-]|[Hne He']]%lookup_insert_Some; simpl.
    + split; [lia|]. intros Hg%H4. lia.
    + destruct (H1 _ _ He'). split; [lia|done].
  - intros k1 k2 e1 e2 [[<- <-]|[Hn1 Hk1]]%lookup_insert_Some [[<- <-]|[Hn2 Hk2]]%lookup_insert_Some; simpl; [done| | |by eapply H2].
    + intros Heq. apply H1 in Hk2 as [? _]. lia.
    + intros Heq. apply H1 in Hk1 as [? _]. lia.
  - intros g Hg. destruct (decide (g = sv_started s)) as [->|Hne].
    + right. eexists key, _. by rewrite lookup_insert_eq.
    + destruct (H3 g) as [?|(k & e' & He' & <-)]; [lia|by left|right]. exists k, e'. split; [|done].
      rewrite lookup_insert_ne; [done|]. congruence.
  - intros g Hg%H4. lia.
Qed.
Lemma update_inv key e p s : sv_entries s !! key = Some e → sup_inv s → sup_inv (update_entry key e p s).
Proof.
  intros He (H1 & H2 & H3 & H4). unfold sup_inv, update_entry. simpl.
  assert (∀ k e', <[key := {| se_goroutine := se_goroutine e; se_interval := se_interval e; se_uid := se_uid e;
      se_generation := se_generation e; se_project := p |}]> (sv_entries s) !! k = Some e' →
    ∃ e0, sv_entries s !! k = Some e0 ∧ se_goroutine e0 = se_goroutine e') as Hback.
  { intros k e' [[<- <-]|[_ He']]%lookup_insert_Some; [by exists e|by exists e']. }
  split_and!; [| | |done].
  - intros k e' (e0 & He0 & <-)%Hback. by eapply H1.
  - intros k1 k2 e1 e2 (e1' & Hk1 & <-)%Hback (e2' & Hk2 & <-)%Hback. by apply H2.
  - intros g Hg. destruct (H3 g Hg) as [?|(k & e' & He' & <-)]; [by left|right].
    destruct (decide (k = key)) as [->|Hne].
    + eexists key, _. rewrite lookup_insert_eq. split; [done|]. simpl. by simplify_eq.
    + exists k, e'. by rewrite lookup_insert_ne.
Qed.

(** What a Sync leaves of an entry. *)
Definition entry_for (interval : Duration) (p : Project) (g : nat) : supervisorEntry :=
  {| se_goroutine := g; se_interval := interval; se_uid := om_UID (p_Meta p);
     se_generation := st_AssignmentGeneration (p_Status p); se_project := p |}.
Definition synced_entry (old : option supervisorEntry) (want : option Project) (g : nat) : option supervisorEntry :=
  match want with
  | None => None
  | Some p =>
      match backupInterval p with
      | None => old
      | Some interval =>
          match old with
          | Some e => Some (entry_for interval p (if same_work e interval p then se_goroutine e else g))
          | None => Some (entry_for interval p g)
          end
      end
  end.

Lemma same_work_entry e interval p :
  same_work e interval p = true →
  {| se_goroutine := se_goroutine e; se_interval := se_interval e; se_uid := se_uid e;
     se_generation := se_generation e; se_project := p |} = entry_for interval p (se_goroutine e).
Proof.
  unfold same_work. rewrite !andb_true_iff, !Z.eqb_eq, bool_decide_eq_true. intros [[-> ->] ->]. done.
Qed.

Lemma stop_all want l s :
  NoDup l.*1 → (∀ k e, (k, e) ∈ l → sv_entries s !! k = Some e) → sup_inv s →
  let s' := foldl (sync_stop want) s l in
  sup_inv s' ∧ sv_started s' = sv_started s ∧
  ∀ key, sv_entries s' !! key = if decide (key ∈ l.*1 ∧ want !! key = None) then None else sv_entries s !! key.
Proof.
  cbv zeta. revert s. induction l as [|[k e] l IH]; intros s Hnd Hin Hi.
  { split_and!; [done|done|]. intros key. case_decide as Hd; [|done]. by destruct Hd as [?%elem_of_nil _]. }
  apply NoDup_cons in Hnd as [Hk Hnd]. cbn [foldl]. unfold sync_stop at 2 4 6. cbn [fst snd].
  destruct (want !! k) as [p|] eqn:Ew.
  - destruct (IH s Hnd) as (H1 & H2 & H3); [by intros k' e' H'; apply Hin; right|done|]. split_and!; [done|done|].
    intros key. rewrite H3. apply decide_ext. change ((k, e) :: l).*1 with (k :: l.*1).
    rewrite elem_of_cons. naive_solver congruence.
  - assert (sv_entries s !! k = Some e) as Hke by (apply Hin; by left).
    destruct (IH (cancel_entry k e s) Hnd) as (H1 & H2 & H3); [|by apply cancel_inv|].
    + intros k' e' H'. simpl. rewrite lookup_delete_ne; [apply Hin; by right|]. intros ->. apply Hk.
      apply list_elem_of_fmap. by exists (k', e').
    + split_and!; [done|by rewrite H2|]. intros key. rewrite H3. simpl sv_entries.
      change ((k, e) :: l).*1 with (k :: l.*1). destruct (decide (key = k)) as [->|Hne].
      * rewrite lookup_delete_eq. case_decide as Hd1; (case_decide as Hd2; [done|]);
          exfalso; apply Hd2; (split; [by left|done]).
      * rewrite lookup_delete_ne by done. apply decide_ext. rewrite elem_of_cons. naive_solver.
Qed.

Lemma start_all l s :
  NoDup l.*1 → sup_inv s →
  let s' := foldl sync_start s l in
  sup_inv s' ∧ sv_started s ≤ sv_started s' ∧
  (∀ key, key ∉ l.*1 → sv_entries s' !! key = sv_entries s !! key) ∧
  (∀ key p, (key, p) ∈ l → ∃ g, sv_started s ≤ g ∧
     sv_entries s' !! key = synced_entry (sv_entries s !! key) (Some p) g).
Proof.
  revert s. induction l as [|[k p] l IH]; intros s Hnd Hi; simpl.
  { split_and!; [done|done|done|]. by intros key p ?%elem_of_nil. }
  apply NoDup_cons in Hnd as [Hk Hnd].
  assert (∃ s1, sync_start s (k, p) = s1 ∧ sup_inv s1 ∧ sv_started s ≤ sv_started s1 ∧
    (∀ key, key ≠ k → sv_entries s1 !! key = sv_entries s !! key) ∧
    ∃ g, sv_started s ≤ g ∧ sv_entries s1 !! k = synced_entry (sv_entries s !! k) (Some p) g) as (s1 & Hs1 & Hi1 & Hst & Hoth & Hme).
  { eexists. split; [done|]. simpl. destruct (backupInterval p) as [interval|] eqn:Eb.
    2: { split_and!; [done|done|done|]. exists (sv_started s). unfold synced_entry. by rewrite ?Eb. }
    destruct (sv_entries s !! k) as [e|] eqn:Ee.
    - destruct (same_work e interval p) eqn:Es.
      + split_and!; [by apply update_inv|done|intros key Hne; simpl; by rewrite lookup_insert_ne|].
        exists (sv_started s). split; [done|]. unfold synced_entry. simpl. rewrite lookup_insert_eq, ?Eb, ?Es. f_equal. by apply same_work_entry.
      + split_and!.
        * apply start_inv; [simpl; by rewrite lookup_delete_eq|by apply cancel_inv].
        * simpl. lia.
        * intros key Hne. simpl. by rewrite lookup_insert_ne, lookup_delete_ne.
        * exists (sv_started s). split; [done|]. unfold synced_entry. simpl. by rewrite lookup_insert_eq, ?Eb, ?Es.
    - split_and!; [by apply start_inv|simpl; lia|intros key Hne; simpl; by rewrite lookup_insert_ne|].
      exists (sv_started s). split; [done|]. unfold synced_entry. simpl. by rewrite lookup_insert_eq, ?Eb. }
  simpl in Hs1. rewrite Hs1. destruct (IH s1 Hnd Hi1) as (H1 & H2 & H3 & H4). split_and!; [done|lia| |].
  - intros key [Hne Hn]%not_elem_of_cons. rewrite H3 by done. by apply Hoth.
  - intros key q [[= -> ->]|Hin]%elem_of_cons.
    + rewrite H3 by done. destruct Hme as (g & Hg & He). by exists g.
    + destruct (H4 key q Hin) as (g & Hg & He). exists g. split; [lia|]. rewrite He, Hoth; [done|].
      intros ->. apply Hk. apply list_elem_of_fmap. by exists (k, q).
Qed.

Lemma Sync_spec projects entries projects' s :
  entries ≡ₚ map_to_list (sv_entries s) → projects' ≡ₚ map_to_list (desired projects) → sup_inv s →
  let s' := Sync projects entries projects' s in
  sup_inv s' ∧ sv_started s ≤ sv_started s' ∧
  ∀ key, ∃ g, sv_started s ≤ g ∧ sv_entries s' !! key = synced_entry (sv_entries s !! key) (desired projects !! key) g.
Proof.
  intros He Hp Hi. unfold Sync.
  destruct (stop_all (desired projects) entries s) as (H1 & H2 & H3); [rewrite He; apply NoDup_fst_map_to_list| |done|].
  { intros k e Hin. rewrite He in Hin. by apply elem_of_map_to_list. }
  set (s1 := foldl (sync_stop (desired projects)) s entries) in *.
  destruct (start_all projects' s1) as (H4 & H5 & H6 & H7); [rewrite Hp; apply NoDup_fst_map_to_list|done|].
  split_and!; [done|lia|]. intros key. destruct (desired projects !! key) as [p|] eqn:Ed.
  - destruct (H7 key p) as (g & Hg & Hk).
    + rewrite Hp. by apply elem_of_map_to_list.
    + exists g. split; [lia|]. by rewrite Hk, H3, decide_False by (rewrite Ed; by intros [_ ?]).
  - exists (sv_started s). split; [done|]. rewrite H6, H3.
    + simpl. case_decide as Hd; [done|]. destruct (sv_entries s !! key) as [e|] eqn:Ek; [|done]. exfalso. apply Hd.
      split; [|done]. rewrite He. apply list_elem_of_fmap. exists (key, e). split; [done|]. by apply elem_of_map_to_list.
    + rewrite Hp. intros ([k q] & -> & Hin%elem_of_map_to_list)%list_elem_of_fmap. simpl in Ed. congruence.
Qed.

(** The supervisors of an Agent: each poll syncs. *)
Inductive supervised : Supervisor → Prop :=
| supervised_new : supervised NewSupervisor
| supervised_sync projects entries projects' s :
    supervised s → entries ≡ₚ map_to_list (sv_entries s) → projects' ≡ₚ map_to_list (desired projects) →
    supervised (Sync projects entries projects' s).

Lemma supervised_inv s : supervised s → sup_inv s.
Proof. induction 1 as [|projects entries projects' s _ IH He Hp]; [apply NewSupervisor_inv|by apply Sync_spec]. Qed.

