(* ===== verification/Wire.v ===== *)
(** What travels between an Agent and the server: JSON as encoding/json writes and
    reads it for the requests of internal/agent/client.go and the bodies of
    internal/server/handler/project/handler.go, query strings (net/url), and how the
    mux of net/http finds the route of a request.

    JSON is its tree: the text of a tree and back is not modelled, what encoding/json
    does to the values is. A string that is not UTF-8 is changed when it is written,
    and a missing, null or foreign member is read as the code's structs say. *)
From Stdlib Require Import ZArith Lia Ascii.
From stdpp Require Import prelude gmap strings.
From S2P Require Import Prelude.
From S2P Require Import Strconv.
From S2P Require Import Authz.
Import GoTime GoInt GoString GoError.
Open Scope nat_scope.

Set Default Proof Using "Type".

(** ** UTF-8

    [rune_size s]: how many bytes the rune takes that [s] begins with; [None] is a
    byte no rune begins with (utf8.DecodeRune answers RuneError, 1). *)
Definition byte_in (lo hi : nat) (c : ascii) : bool := Nat.leb lo (nat_of_ascii c) && Nat.leb (nat_of_ascii c) hi.
Definition is_cont : ascii → bool := byte_in 128 191.

(** The bytes that may follow the first of a rune of three or four. *)
Definition second_of_three (a : ascii) : ascii → bool :=
  if Nat.eqb (nat_of_ascii a) 224 then byte_in 160 191
  else if Nat.eqb (nat_of_ascii a) 237 then byte_in 128 159 else is_cont.
Definition second_of_four (a : ascii) : ascii → bool :=
  if Nat.eqb (nat_of_ascii a) 240 then byte_in 144 191
  else if Nat.eqb (nat_of_ascii a) 244 then byte_in 128 143 else is_cont.

Definition rune_size (s : string) : option nat :=
  match s with
  | EmptyString => None
  | String a s1 =>
      if byte_in 0 127 a then Some 1
      else if byte_in 194 223 a then
        match s1 with String b _ => if is_cont b then Some 2 else None | _ => None end
      else if byte_in 224 239 a then
        match s1 with
        | String b (String c _) => if second_of_three a b && is_cont c then Some 3 else None
        | _ => None
        end
      else if byte_in 240 244 a then
        match s1 with
        | String b (String c (String d _)) =>
            if second_of_four a b && is_cont c && is_cont d then Some 4 else None
        | _ => None
        end
      else None
  end.

(** U+FFFD. *)
Definition replacement (rest : string) : string :=
  String (ascii_of_nat 239) (String (ascii_of_nat 191) (String (ascii_of_nat 189) rest)).

(** Every byte that belongs to no rune is replaced; [keep] bytes are left of a rune
    that was begun. *)
Fixpoint valid_utf8 (keep : nat) (s : string) : string :=
  match s with
  | EmptyString => EmptyString
  | String c rest =>
      match keep with
      | S keep => String c (valid_utf8 keep rest)
      | O =>
          match rune_size s with
          | Some n => String c (valid_utf8 (Nat.pred n) rest)
          | None => replacement (valid_utf8 O rest)
          end
      end
  end.

Definition is_ascii : string → bool := all_bytes (byte_in 0 127).

Lemma valid_utf8_ascii s : is_ascii s = true → valid_utf8 0 s = s.
Proof.
  unfold is_ascii. induction s as [|c s IH]; [done|]. simpl. intros [Hc Hs]%andb_true_iff.
  unfold byte_in in *. simpl in *. rewrite Hc. simpl. by rewrite IH.
Qed.

Example invalid_byte_replaced :
  valid_utf8 0 (String "a" (String (ascii_of_nat 255) (String "b" EmptyString)))
  = String "a" (replacement (String "b" EmptyString)).
Proof. vm_compute. reflexivity. Qed.
Example euro_kept :
  let s := String (ascii_of_nat 226) (String (ascii_of_nat 130) (String (ascii_of_nat 172) EmptyString)) in
  valid_utf8 0 s = s.
Proof. vm_compute. reflexivity. Qed.

(** ** JSON *)

Inductive json :=
| JNull
| JBool (b : bool)
| JNumber (z : Z)
| JString (s : string)
| JArray (xs : list json)
| JObject (members : list (string * json)).

(** What json.Marshal writes for a string, and for a member tagged omitempty. *)
Definition text (s : string) : json := JString (valid_utf8 0 s).
Definition omitempty (name s : string) : list (string * json) :=
  if decide (s = EmptyString) then [] else [(name, text s)].

(** Names are compared without case; the later member counts. Of the letters beyond
    ASCII that Go folds (the long s, the Kelvin sign) none is looked at. *)
Fixpoint lowered (s : string) : string :=
  match s with EmptyString => EmptyString | String c rest => String (lower c) (lowered rest) end.
Definition names (field : string) (member : string * json) : bool := bool_decide (lowered member.1 = lowered field).
Definition member (field : string) (ms : list (string * json)) : json :=
  match find_first (names field) (rev ms) with Some m => m.2 | None => JNull end.

(** The members of the value of a struct; [None] is an error of Decode. *)
Definition object_of (j : json) : option (list (string * json)) :=
  match j with JObject ms => Some ms | JNull => Some [] | _ => None end.
Definition string_of (j : json) : option string :=
  match j with JString s => Some s | JNull => Some EmptyString | _ => None end.
Definition bool_of (j : json) : option bool :=
  match j with JBool b => Some b | JNull => Some false | _ => None end.
Definition int64_of_json (j : json) : option Z :=
  match j with JNumber z => if bool_decide (in_int64 z) then Some z else None | JNull => Some 0%Z | _ => None end.
Definition pointer_of (j : json) : option (option Z) :=
  match j with JNull => Some None | _ => z ← int64_of_json j; Some (Some z) end.
Definition array_of {A} (f : json → option A) (j : json) : option (list A) :=
  match j with JArray xs => mapM f xs | JNull => Some [] | _ => None end.

(** ** Query strings *)

Definition unreserved (c : ascii) : bool :=
  byte_in 65 90 c || byte_in 97 122 c || byte_in 48 57 c || Nat.eqb (nat_of_ascii c) 45 ||
  Nat.eqb (nat_of_ascii c) 95 || Nat.eqb (nat_of_ascii c) 46 || Nat.eqb (nat_of_ascii c) 126.
Definition upper_hex (n : nat) : ascii := if Nat.ltb n 10 then ascii_of_nat (48 + n) else ascii_of_nat (55 + n).

Fixpoint QueryEscape (s : string) : string :=
  match s with
  | EmptyString => EmptyString
  | String c rest =>
      if unreserved c then String c (QueryEscape rest)
      else if Nat.eqb (nat_of_ascii c) 32 then String "+" (QueryEscape rest)
      else String "%" (String (upper_hex (Nat.div (nat_of_ascii c) 16))
             (String (upper_hex (Nat.modulo (nat_of_ascii c) 16)) (QueryEscape rest)))
  end.

(** [None]: a percent sign without two hex digits after it. *)
Fixpoint QueryUnescape (s : string) : option string :=
  match s with
  | EmptyString => Some EmptyString
  | String c rest =>
      if Nat.eqb (nat_of_ascii c) 37 then
        match rest with
        | String x (String y rest) =>
            hi ← hex_digit_of x; lo ← hex_digit_of y; t ← QueryUnescape rest;
            Some (String (ascii_of_nat (Z.to_nat (hi * 16 + lo))) t)
        | _ => None
        end
      else t ← QueryUnescape rest;
           Some (String (if Nat.eqb (nat_of_ascii c) 43 then " "%char else c) t)
  end.

Fixpoint split_at (f : ascii → bool) (acc s : string) : list string :=
  match s with
  | EmptyString => [acc]
  | String c rest => if f c then acc :: split_at f EmptyString rest else split_at f (acc ++ String c EmptyString) rest
  end.
(** [strings.Cut] at the first byte of [f]. *)
Fixpoint cut_at (f : ascii → bool) (s : string) : string * string :=
  match s with
  | EmptyString => (EmptyString, EmptyString)
  | String c rest => if f c then (EmptyString, rest) else let '(a, b) := cut_at f rest in (String c a, b)
  end.
Definition byte_is (n : nat) (c : ascii) : bool := Nat.eqb (nat_of_ascii c) n.

(** [url.ParseQuery]: a pair with a semicolon or a bad escape is passed over. *)
Definition query_pair (s : string) : option (string * string) :=
  if decide (s = EmptyString) then None
  else if negb (all_bytes (λ c, negb (byte_is 59 c)) s) then None
  else
    let '(k, v) := cut_at (byte_is 61) s in
    k ← QueryUnescape k; v ← QueryUnescape v; Some (k, v).
Definition Query (raw : string) : list (string * string) := omap query_pair (split_at (byte_is 38) EmptyString raw).
(** [Values.Get] and [Values] of a name, in their order. *)
Definition Values (key : string) (q : list (string * string)) : list string :=
  (filter (λ kv, kv.1 = key) q).*2.
Definition Get (key : string) (q : list (string * string)) : string := default EmptyString (head (Values key q)).

(** [Values.Encode], of pairs sorted by key. *)
Definition pair_text (kv : string * string) : string := (QueryEscape kv.1 ++ "=" ++ QueryEscape kv.2)%string.
Definition Encode (q : list (string * string)) : string :=
  Join (pair_text <$> q) "&".

(** ** The mux *)

Definition pattern_method (pattern : string) : string := (cut_at (byte_is 32) pattern).1.
Definition pattern_path (pattern : string) : string := (cut_at (byte_is 32) pattern).2.
Definition segments (path : string) : list string := split_slash EmptyString path.

(** A placeholder takes one segment, which is not empty. *)
Fixpoint segments_match (ps xs : list string) : bool :=
  match ps, xs with
  | [], [] => true
  | p :: ps, x :: xs =>
      (if is_placeholder p then negb (bool_decide (x = EmptyString)) else bool_decide (p = x)) && segments_match ps xs
  | _, _ => false
  end.
(** A pattern of GET serves HEAD too. *)
Definition method_matches (pattern method : string) : bool :=
  bool_decide (pattern = method) || bool_decide (pattern = "GET"%string ∧ method = "HEAD"%string).
Definition matches_pattern (method path pattern : string) : bool :=
  method_matches (pattern_method pattern) method &&
  segments_match (segments (pattern_path pattern)) (segments path).

(** The routes of the server (RegisterRoutes of the five handlers, and server.go). *)
Definition routes : list string :=
  ["POST /api/v1/projects"; "PUT /api/v1/projects/{name}"; "POST /api/v1/projects/{name}/restart";
   "GET /api/v1/projects"; "GET /api/v1/projects/{name}"; "DELETE /api/v1/projects/{name}";
   "PATCH /api/v1/projects/{name}/status"; "PUT /api/v1/projects/{name}/status/spec-applied";
   "PATCH /api/v1/projects/{name}/conditions/{type}"; "DELETE /api/v1/projects/{name}/conditions/{type}";
   "PUT /api/v1/projects/{name}/recovery/workload-stopped"; "PUT /api/v1/projects/{name}/backup/stanzas";
   "PUT /api/v1/projects/{name}/backup/completions/{backupID}";
   "PUT /api/v1/projects/{name}/recovery/resources-removed";
   "PUT /api/v1/projects/{name}/recovery/committed-backup";
   "PUT /api/v1/projects/{name}/recovery/managed-data-quarantined";
   "POST /api/v1/projects/{name}/recovery/takeover"; "GET /api/v1/projects/{name}/recovery/takeover-audit";
   "POST /api/v1/nodes"; "PUT /api/v1/nodes/{name}"; "GET /api/v1/nodes"; "GET /api/v1/nodes/{name}";
   "DELETE /api/v1/nodes/{name}"; "POST /api/v1/nodes/{name}/heartbeat"; "POST /api/v1/nodes/{name}/probe";
   "GET /api/v1/nodes/{name}/cleanup-obligations";
   "POST /api/v1/overlay/preauth-keys"; "GET /api/v1/overlay/nodes"; "DELETE /api/v1/overlay/nodes/{name}";
   "POST /api/v1/secrets"; "PUT /api/v1/secrets/{name}"; "GET /api/v1/secrets"; "GET /api/v1/secrets/{name}";
   "DELETE /api/v1/secrets/{name}";
   "POST /api/v1/tokens"; "GET /api/v1/tokens"; "DELETE /api/v1/tokens/{id}";
   "POST /api/v1/nodes/{name}/join-tokens"; "POST /api/v1/nodes/{name}/join"; "DELETE /api/v1/nodes/{name}/tokens";
   "GET /api/healthz"]%string.

(** The route of a request; empty when there is none. No two routes take the same
    request ([routes_apart]), so their order does not matter. *)
Definition mux (method path : string) : string :=
  default EmptyString (find_first (matches_pattern method path) routes).
(** [r.PathValue]. *)
Definition PathValue (pattern path key : string) : string :=
  default EmptyString (zip_values (segments (pattern_path pattern)) (segments path) ∅ !! key).

(** *** No two routes take the same request *)

Fixpoint segments_apart (ps qs : list string) : bool :=
  match ps, qs with
  | [], [] => false
  | p :: ps, q :: qs =>
      (negb (is_placeholder p) && negb (is_placeholder q) && negb (bool_decide (p = q))) || segments_apart ps qs
  | _, _ => true
  end.
Definition patterns_apart (p q : string) : bool :=
  negb (bool_decide (pattern_method p = pattern_method q)) ||
  segments_apart (segments (pattern_path p)) (segments (pattern_path q)).

Lemma segments_apart_match ps qs xs :
  segments_apart ps qs = true → segments_match ps xs = true → segments_match qs xs = true → False.
Proof.
  revert qs xs. induction ps as [|p ps IH]; intros [|q qs] [|x xs]; simpl; try done.
  rewrite !orb_true_iff, !andb_true_iff, !negb_true_iff. intros [[[Hp Hq] Hne]|Ha] [H1 H2] [H3 H4].
  - rewrite Hp in H1. rewrite Hq in H3. apply bool_decide_eq_true in H1 as ->, H3 as ->.
    by apply bool_decide_eq_false in Hne.
  - by eapply IH.
Qed.

Lemma routes_pairwise :
  forallb (λ p, forallb (λ q, bool_decide (p = q) || patterns_apart p q) routes) routes = true.
Proof. vm_compute. reflexivity. Qed.
Lemma routes_methods :
  forallb (λ p, negb (bool_decide (pattern_method p = "HEAD"%string))) routes = true.
Proof. vm_compute. reflexivity. Qed.

(** At most one route takes a request. *)
Theorem routes_apart (method path p q : string) :
  p ∈ routes → q ∈ routes → matches_pattern method path p = true → matches_pattern method path q = true → p = q.
Proof.
  unfold matches_pattern. rewrite !andb_true_iff. intros Hp Hq [Hm1 Hs1] [Hm2 Hs2].
  pose proof routes_pairwise as H. rewrite forallb_forall in H. specialize (H p ltac:(by apply list_elem_of_In)).
  rewrite forallb_forall in H. specialize (H q ltac:(by apply list_elem_of_In)).
  pose proof routes_methods as Hh. rewrite forallb_forall in Hh.
  pose proof (Hh p ltac:(by apply list_elem_of_In)) as Hhp%negb_true_iff%bool_decide_eq_false.
  pose proof (Hh q ltac:(by apply list_elem_of_In)) as Hhq%negb_true_iff%bool_decide_eq_false.
  apply orb_true_iff in H as [H|H]; [by apply bool_decide_eq_true in H|].
  unfold patterns_apart in H. apply orb_true_iff in H as [H|H]; [|by destruct (segments_apart_match _ _ _ H Hs1 Hs2)].
  apply negb_true_iff, bool_decide_eq_false in H. unfold method_matches in Hm1, Hm2.
  rewrite !orb_true_iff, !bool_decide_eq_true in Hm1, Hm2. exfalso. naive_solver congruence.
Qed.

(** The route of a request is the one that takes it. *)
Lemma mux_of method path p : p ∈ routes → matches_pattern method path p = true → mux method path = p.
Proof.
  intros Hp Hm. unfold mux. destruct (find_first _ routes) as [q|] eqn:E.
  - apply find_first_Some in E as [Hq Hmq]. simpl. by eapply routes_apart.
  - rewrite find_first_None in E. by rewrite (E p Hp) in Hm.
Qed.

(** *** Paths of requests *)

Definition segment (x : string) : Prop := x ≠ EmptyString ∧ all_bytes unreserved x = true.

Lemma unreserved_plain c : unreserved c = true → byte_is 47 c = false ∧ byte_is 63 c = false ∧ byte_is 37 c = false ∧
  byte_is 43 c = false ∧ byte_is 38 c = false ∧ byte_is 61 c = false ∧ byte_is 59 c = false.
Proof. destruct c as [[] [] [] [] [] [] [] []]; vm_compute; intros H; try discriminate H; repeat split. Qed.

Lemma split_slash_seg acc x rest :
  all_bytes (λ c, negb (byte_is 47 c)) x = true →
  split_slash acc (x ++ "/" ++ rest)%string = (acc ++ x)%string :: split_slash EmptyString rest.
Proof.
  revert acc. induction x as [|c x IH]; intros acc; simpl.
  - intros _. by rewrite append_empty.
  - intros [Hc%negb_true_iff Hx]%andb_true_iff. destruct (ascii_dec c "/") as [->|_]; [done|].
    change (x ++ String "/" rest)%string with (x ++ "/" ++ rest)%string. rewrite (IH _ Hx). by rewrite append_assoc.
Qed.
Lemma split_slash_last acc x :
  all_bytes (λ c, negb (byte_is 47 c)) x = true → split_slash acc x = [(acc ++ x)%string].
Proof.
  revert acc. induction x as [|c x IH]; intros acc; simpl.
  - intros _. by rewrite append_empty.
  - intros [Hc%negb_true_iff Hx]%andb_true_iff. destruct (ascii_dec c "/") as [->|_]; [done|].
    rewrite (IH _ Hx). by rewrite append_assoc.
Qed.

Lemma cut_at_none f s : all_bytes (λ c, negb (f c)) s = true → cut_at f s = (s, EmptyString).
Proof.
  induction s as [|c s IH]; [done|]. simpl. intros [Hc%negb_true_iff Hs]%andb_true_iff. rewrite Hc.
  by rewrite (IH Hs).
Qed.
Lemma cut_at_first f s c t :
  all_bytes (λ c, negb (f c)) s = true → f c = true → cut_at f (s ++ String c t)%string = (s, t).
Proof.
  intros Hs Hf. induction s as [|d s IH]; simpl in *; [by rewrite Hf|].
  apply andb_true_iff in Hs as [Hd%negb_true_iff Hs]. rewrite Hd. by rewrite (IH Hs).
Qed.

(** *** Escaping *)

Lemma QueryUnescape_Escape s : QueryUnescape (QueryEscape s) = Some s.
Proof.
  induction s as [|c s IH]; [done|].
  destruct c as [[] [] [] [] [] [] [] []]; simpl; rewrite IH; reflexivity.
Qed.
Lemma QueryEscape_unreserved s : all_bytes unreserved s = true → QueryEscape s = s.
Proof. induction s as [|c s IH]; [done|]. simpl. intros [-> Hs]%andb_true_iff. by rewrite IH. Qed.

Definition escaped_byte (c : ascii) : bool := unreserved c || byte_is 43 c || byte_is 37 c.
Lemma QueryEscape_bytes s : all_bytes escaped_byte (QueryEscape s) = true.
Proof.
  induction s as [|c s IH]; [done|].
  destruct c as [[] [] [] [] [] [] [] []]; simpl; rewrite IH; reflexivity.
Qed.
Lemma escaped_not c : escaped_byte c = true → byte_is 38 c = false ∧ byte_is 61 c = false ∧ byte_is 59 c = false.
Proof. destruct c as [[] [] [] [] [] [] [] []]; vm_compute; intros H; try discriminate H; repeat split. Qed.

Lemma split_at_seg f acc x c rest :
  all_bytes (λ c, negb (f c)) x = true → f c = true →
  split_at f acc (x ++ String c rest)%string = (acc ++ x)%string :: split_at f EmptyString rest.
Proof.
  revert acc. induction x as [|d x IH]; intros acc; simpl.
  - intros _ ->. by rewrite append_empty.
  - intros [Hd%negb_true_iff Hx]%andb_true_iff Hc. rewrite Hd. rewrite (IH _ Hx Hc). by rewrite append_assoc.
Qed.
Lemma split_at_last f acc x : all_bytes (λ c, negb (f c)) x = true → split_at f acc x = [(acc ++ x)%string].
Proof.
  revert acc. induction x as [|d x IH]; intros acc; simpl.
  - intros _. by rewrite append_empty.
  - intros [Hd%negb_true_iff Hx]%andb_true_iff. rewrite Hd. rewrite (IH _ Hx). by rewrite append_assoc.
Qed.

Lemma query_pair_text kv : kv.1 ≠ EmptyString → query_pair (pair_text kv) = Some kv.
Proof.
  destruct kv as [k v]. unfold query_pair, pair_text. simpl. intros Hk.
  assert (QueryEscape k ≠ EmptyString) as Hne.
  { destruct k as [|c k]; [done|]. simpl. repeat case_match; done. }
  rewrite decide_False by (by destruct (QueryEscape k)).
  assert (∀ s, all_bytes (λ c, negb (byte_is 59 c)) (QueryEscape s) = true ∧
               all_bytes (λ c, negb (byte_is 61 c)) (QueryEscape s) = true) as Hb.
  { intros s. pose proof (QueryEscape_bytes s) as H.
    split; (eapply all_bytes_impl; [|exact H]); intros c (_ & H1 & H2)%escaped_not; by rewrite ?H1, ?H2. }
  rewrite !all_bytes_app, !(λ s, proj1 (Hb s)). change (negb _) with false. cbv iota.
  change ("=" ++ QueryEscape v)%string with (String "=" (QueryEscape v)).
  rewrite (cut_at_first (byte_is 61) (QueryEscape k) "=" (QueryEscape v) (proj2 (Hb k)) eq_refl).
  by rewrite !QueryUnescape_Escape.
Qed.

Lemma pair_text_bytes kv : all_bytes (λ c, negb (byte_is 38 c)) (pair_text kv) = true.
Proof.
  unfold pair_text. rewrite !all_bytes_app.
  assert (∀ s, all_bytes (λ c, negb (byte_is 38 c)) (QueryEscape s) = true) as Hb.
  { intros s. eapply all_bytes_impl; [|apply QueryEscape_bytes]. intros c (H & _)%escaped_not. by rewrite H. }
  by rewrite !Hb.
Qed.

(** What a client encodes is what the server reads. *)
Theorem Query_Encode (q : list (string * string)) :
  Forall (λ kv, kv.1 ≠ EmptyString) q → Query (Encode q) = q.
Proof.
  intros Hq. unfold Query, Encode. 
  destruct q as [|kv q]; [done|]. apply Forall_cons in Hq as [Hk Hq]. revert kv Hk.
  induction q as [|kv' q IH]; intros kv Hk.
  - simpl. rewrite (split_at_last _ _ _ (pair_text_bytes kv)). simpl. change (EmptyString ++ pair_text kv)%string with (pair_text kv). by rewrite query_pair_text.
  - change (Join (pair_text <$> kv :: kv' :: q) "&")
      with (pair_text kv ++ String "&" (Join (pair_text <$> kv' :: q) "&"))%string.
    rewrite (split_at_seg (byte_is 38) _ _ "&"%char _ (pair_text_bytes kv) eq_refl). cbn [omap list_omap].
    change (EmptyString ++ pair_text kv)%string with (pair_text kv). rewrite query_pair_text by done.
    f_equal. apply Forall_cons in Hq as [Hk' Hq]. by apply (IH Hq).
Qed.

(** A target made of plain segments is its own path, and is split into them. *)
Definition plain (x : string) : Prop := all_bytes (λ c, negb (byte_is 47 c || byte_is 63 c)) x = true.

Lemma segment_plain x : segment x → plain x.
Proof.
  intros [_ H]. unfold plain. eapply all_bytes_impl; [|exact H]. intros c (H1 & H2 & _)%unreserved_plain.
  by rewrite H1, H2.
Qed.
Lemma plain_bytes x : plain x →
  all_bytes (λ c, negb (byte_is 47 c)) x = true ∧ all_bytes (λ c, negb (byte_is 63 c)) x = true.
Proof.
  unfold plain. intros H. split; (eapply all_bytes_impl; [|exact H]); intros c [H1 H2]%negb_true_iff%orb_false_iff;
    by rewrite ?H1, ?H2.
Qed.

Lemma segments_Join xs : Forall plain xs → xs ≠ [] → segments (Join xs "/") = xs.
Proof.
  unfold segments. intros Hx Hne. induction Hx as [|x xs Hp%plain_bytes Hx IH]; [done|].
  destruct xs as [|y xs]; [apply (split_slash_last EmptyString); apply Hp|].
  change (Join (x :: y :: xs) "/") with (x ++ "/" ++ Join (y :: xs) "/")%string.
  rewrite split_slash_seg by apply Hp. by rewrite IH.
Qed.
Lemma Join_no_query xs : Forall plain xs → all_bytes (λ c, negb (byte_is 63 c)) (Join xs "/") = true.
Proof.
  induction 1 as [|x xs [_ Hp]%plain_bytes Hx IH]; [done|]. destruct xs as [|y xs]; [done|].
  change (Join (x :: y :: xs) "/") with (x ++ "/" ++ Join (y :: xs) "/")%string.
  rewrite !all_bytes_app, Hp, IH. done.
Qed.
Lemma target_of xs : Forall plain xs → cut_at (byte_is 63) (Join xs "/") = (Join xs "/", EmptyString).
Proof. intros Hx. by apply cut_at_none, Join_no_query. Qed.
Lemma target_with_query xs raw :
  Forall plain xs → cut_at (byte_is 63) (Join xs "/" ++ "?" ++ raw)%string = (Join xs "/", raw).
Proof. intros Hx. by apply (cut_at_first _ _ "?"%char); [apply Join_no_query|]. Qed.

(** A route that takes the segments of a path is the route of the path. *)
Lemma mux_segments method xs p :
  p ∈ routes → Forall plain xs → xs ≠ [] → method_matches (pattern_method p) method = true →
  segments_match (segments (pattern_path p)) xs = true → mux method (Join xs "/") = p.
Proof.
  intros Hp Hx Hne Hm Hs. apply mux_of; [done|]. unfold matches_pattern. rewrite Hm. by rewrite segments_Join.
Qed.
Lemma PathValue_segments xs p key :
  Forall plain xs → xs ≠ [] →
  PathValue p (Join xs "/") key = default EmptyString (zip_values (segments (pattern_path p)) xs ∅ !! key).
Proof. intros Hx Hne. unfold PathValue. by rewrite segments_Join. Qed.
