(* ===== verification/Client.v ===== *)
(** internal/agent/client.go: the requests an Agent sends to the server, and what it
    takes each answer for.

    A method is an [xchg]: the requests it sends, with the Go control flow over the
    answers. The address of the server is the transport's, so a request has a target, a
    path with a query. Names stand in a target as they are: what http.NewRequest makes
    of one that is no path segment is not modelled, and a body always marshals. *)
From Stdlib Require Import ZArith Lia.
From stdpp Require Import prelude gmap strings.
From S2P Require Import Prelude.
From S2P Require Import Conditions.
From S2P Require Import ProjectTypes.
From S2P Require Import NodeTypes.
From S2P Require Import Strconv.
From S2P Require Import AccessTypes.
From S2P Require Import NodeRoutes.
From S2P Require Import Failures.
From S2P Require Import Engine.
From S2P Require Import Actions.
From S2P Require Import Wire.
Import GoTime GoInt GoString.
Open Scope nat_scope.

Set Default Proof Using "Type".

(** ** Requests and answers *)

(** The bodies of a registration and of a heartbeat travel as values. *)
Inductive request_body :=
| NoBody
| JSONBody (j : json)
| NodeBody (node : Node)
| HeartbeatBody (req : heartbeatRequest).

Record http_request := {
  hq_Method : string;
  hq_Target : string;
  hq_Authorization : option string;
  hq_Body : request_body
}.
Definition hq_with_Authorization (a : string) (q : http_request) : http_request :=
  {| hq_Method := hq_Method q; hq_Target := hq_Target q; hq_Authorization := Some a; hq_Body := hq_Body q |}.
(** The path of a target of plain bytes is what it decodes to. *)
Definition hq_Path (q : http_request) : string := (cut_at (byte_is 63) (hq_Target q)).1.
Definition hq_Query (q : http_request) : list (string * string) := Query (cut_at (byte_is 63) (hq_Target q)).2.

(** What a method decodes the body of an answer as. *)
Inductive kind := KNone | KProject | KProjects | KCleanupTasks | KSecret | KJoined.
Definition body_type (k : kind) : Type :=
  match k with
  | KNone => ()
  | KProject => Project
  | KProjects => list Project
  | KCleanupTasks => list CleanupTask
  | KSecret => Secret
  | KJoined => string
  end.

(** [hp_Line] is resp.Status, the code with its text. *)
Record http_response (A : Type) := { hp_Status : Z; hp_Line : string; hp_Body : reply A }.
#[global] Arguments hp_Status {A} _.
#[global] Arguments hp_Line {A} _.
#[global] Arguments hp_Body {A} _.

Inductive xchg (A : Type) : Type :=
| Done (a : A)
| Send (q : http_request) (k : kind) (f : reply (http_response (body_type k)) → xchg A).
#[global] Arguments Done {A} a.
#[global] Arguments Send {A} q k f.

(** ** The client *)

(** [cl_Tokens] are those of the transports around the default one, outermost first:
    SetToken wraps the transport that is there. *)
Record Client := {
  cl_NodeName : string; cl_Tokens : list string; cl_OverlayIP : string; cl_KeyRef : string
}.
Definition NewClient (nodeName : string) : Client :=
  {| cl_NodeName := nodeName; cl_Tokens := []; cl_OverlayIP := EmptyString; cl_KeyRef := EmptyString |}.
Definition SetToken (token : string) (c : Client) : Client :=
  {| cl_NodeName := cl_NodeName c; cl_Tokens := token :: cl_Tokens c; cl_OverlayIP := cl_OverlayIP c; cl_KeyRef := cl_KeyRef c |}.
Definition SetOverlayIP (ip : string) (c : Client) : Client :=
  {| cl_NodeName := cl_NodeName c; cl_Tokens := cl_Tokens c; cl_OverlayIP := ip; cl_KeyRef := cl_KeyRef c |}.
Definition SetKeyRef (ref : string) (c : Client) : Client :=
  {| cl_NodeName := cl_NodeName c; cl_Tokens := cl_Tokens c; cl_OverlayIP := cl_OverlayIP c; cl_KeyRef := ref |}.

(** The bearerTransports: each sets the header over what those around it set, so a
    request carries the token of the first SetToken. *)
Definition RoundTrip (c : Client) (q : http_request) : http_request :=
  foldl (λ q token, hq_with_Authorization ("Bearer " ++ token)%string q) q (cl_Tokens c).

Definition request (method target : string) (body : request_body) : http_request :=
  {| hq_Method := method; hq_Target := target; hq_Authorization := None; hq_Body := body |}.

(** [c.httpClient.Do], whose error is wrapped, and then the method's switch. *)
Definition exchange {A} (c : Client) (what : string) (q : http_request) (k : kind) (failed : failure → A)
    (answered : http_response (body_type k) → A) : xchg A :=
  Send (RoundTrip c q) k (λ r,
    Done (match r with
          | Bad e => failed (wrap (what ++ " request: ")%string e)
          | Got resp => answered resp
          end)).

Definition StatusCreated : Z := 201.
Definition StatusNoContent : Z := 204.
Definition StatusNotFound : Z := 404.
Definition StatusConflict : Z := 409.
Definition StatusOK : Z := 200.

Definition unexpected {A} (what : string) (resp : http_response A) : failure :=
  Text (what ++ ": unexpected status " ++ hp_Line resp)%string.

(** ** Registration and heartbeats *)

(** [body] is trimmed by TrimSpace. *)
Definition Join_ (c : Client) (joinToken : string) (body : string) : xchg (reply string) :=
  let q := request "POST" ("/api/v1/nodes/" ++ cl_NodeName c ++ "/join")%string NoBody in
  exchange c "join" (hq_with_Authorization ("Bearer " ++ joinToken)%string q) KJoined Bad (λ resp,
    if Z.eqb (hp_Status resp) StatusCreated then
      match hp_Body resp with
      | Got token =>
          if decide (token = EmptyString) then Bad (Text "join: unreadable response: <nil>") else Got token
      | Bad e => Bad (Text ("join: unreadable response: " ++ FError e)%string)
      end
    else if Z.leb 400 (hp_Status resp) && Z.ltb (hp_Status resp) 500 then
      Bad (Around EmptyString (Fails ErrJoinRefused) (": " ++ hp_Line resp ++ ": " ++ TrimSpace body)%string)
    else Bad (Text ("join: unexpected status " ++ hp_Line resp)%string)).

Definition heartbeat_of (c : Client) (status : NodeStatus) : heartbeatRequest :=
  let network := nst_Network status in
  {| hb_State := nst_State status;
     hb_Network := if decide (nn_OverlayIP network = EmptyString)
                   then {| nn_OverlayIP := cl_OverlayIP c; nn_OverlayStatus := nn_OverlayStatus network;
                           nn_DNSName := nn_DNSName network; nn_Mode := nn_Mode network;
                           nn_AgentPort := nn_AgentPort network; nn_Throughput := nn_Throughput network |}
                   else network;
     hb_Capacity := nst_Capacity status; hb_Allocatable := nst_Allocatable status; hb_KeyRef := cl_KeyRef c |}.
Definition Heartbeat (c : Client) (status : NodeStatus) : xchg (option failure) :=
  exchange c "heartbeat"
    (request "POST" ("/api/v1/nodes/" ++ cl_NodeName c ++ "/heartbeat")%string (HeartbeatBody (heartbeat_of c status)))
    KNone Some (λ resp,
    if Z.eqb (hp_Status resp) StatusNoContent then None
    else if Z.eqb (hp_Status resp) StatusNotFound then Some (Fails ErrNodeNotFound)
    else Some (unexpected "heartbeat" resp)).

Definition overlay_only (c : Client) : NodeStatus :=
  nst_with_Network {| nn_OverlayIP := cl_OverlayIP c; nn_OverlayStatus := EmptyString; nn_DNSName := EmptyString;
                      nn_Mode := EmptyString; nn_AgentPort := 0;
                      nn_Throughput := nn_Throughput empty_network |} empty_node_status.
Definition registered_node (c : Client) (spec : NodeSpec) : Node :=
  {| n_Meta := {| om_Name := cl_NodeName c; om_UID := EmptyString; om_Namespace := EmptyString; om_ResourceVersion := 0;
                  om_SpecRevision := 0; om_Labels := ∅; om_Annotations := ∅; om_CreatedAt := 0; om_UpdatedAt := 0 |}%Z;
     n_Spec := spec; n_Status := overlay_only c |}.

Fixpoint xbind {A B} (x : xchg A) (f : A → xchg B) : xchg B :=
  match x with Done a => f a | Send q k g => Send q k (λ r, xbind (g r) f) end.

Definition Register (c : Client) (spec : NodeSpec) : xchg (option failure) :=
  Send (RoundTrip c (request "POST" "/api/v1/nodes" (NodeBody (registered_node c spec)))) KNone (λ r,
    match r with
    | Bad e => Done (Some (wrap "register request: " e))
    | Got resp =>
        if Z.eqb (hp_Status resp) StatusCreated then Done None
        else if Z.eqb (hp_Status resp) StatusConflict then
          if decide (cl_OverlayIP c = EmptyString) then Done None
          else xbind (Heartbeat c (overlay_only c)) (λ err,
                 Done (wrap "refresh overlay address after register conflict: " <$> err))
        else Done (Some (unexpected "register" resp))
    end).

(** ** Reading *)

(** A list or an object that is answered with 200. *)
Definition read_body {A} (what decode : string) (resp : http_response A) : reply A :=
  if negb (Z.eqb (hp_Status resp) StatusOK) then Bad (unexpected what resp)
  else match hp_Body resp with Got a => Got a | Bad e => Bad (wrap (decode ++ ": ")%string e) end.

Definition ListScheduledProjects (c : Client) : xchg (reply (list Project)) :=
  exchange c "list projects"
    (request "GET" ("/api/v1/projects?phase=Scheduled&nodeRef=" ++ cl_NodeName c)%string NoBody) KProjects Bad
    (read_body "list projects" "decode project list").
Definition ListProjectsAssignedToNode_ (c : Client) : xchg (reply (list Project)) :=
  exchange c "list projects" (request "GET" ("/api/v1/projects?nodeRef=" ++ cl_NodeName c)%string NoBody) KProjects Bad
    (read_body "list projects" "decode project list").
Definition GetProject_ (c : Client) (name : string) : xchg (reply Project) :=
  exchange c "get project" (request "GET" ("/api/v1/projects/" ++ name)%string NoBody) KProject Bad (λ resp,
    if Z.eqb (hp_Status resp) StatusNotFound then Bad (Fails ErrProjectNotFound)
    else read_body "get project" "decode project" resp).
Definition ListCleanupTasks_ (c : Client) : xchg (reply (list CleanupTask)) :=
  exchange c "list cleanup obligations"
    (request "GET" ("/api/v1/nodes/" ++ cl_NodeName c ++ "/cleanup-obligations")%string NoBody) KCleanupTasks Bad
    (read_body "list cleanup obligations" "decode cleanup obligations").
Definition GetSecret_ (c : Client) (name : string) : xchg (reply Secret) :=
  exchange c "get secret" (request "GET" ("/api/v1/secrets/" ++ name)%string NoBody) KSecret Bad (λ resp,
    if Z.eqb (hp_Status resp) StatusNotFound then
      Bad (Around EmptyString (Fails ErrSecretNotFound) (": " ++ name)%string)
    else read_body ("get secret " ++ Quote name)%string ("decode secret " ++ Quote name)%string resp).

(** ** Reports *)

Definition field (name : string) (v : json) : string * json := (name, v).
(** evidenceRequest: the fence, every member written. *)
Definition fence_members (fence : AssignmentFence) : list (string * json) :=
  [field "uid" (text (af_UID fence)); field "nodeRef" (text (af_NodeRef fence));
   field "assignmentGeneration" (JNumber (af_Generation fence))].
(** The fence of the two older bodies, whose texts are left out when empty. *)
Definition optional_fence (fence : AssignmentFence) : list (string * json) :=
  (omitempty "uid" (af_UID fence) ++ omitempty "nodeRef" (af_NodeRef fence)
   ++ [field "assignmentGeneration" (JNumber (af_Generation fence))]).
Definition fence_of_assignment (a : AssignmentIdentity) : AssignmentFence :=
  {| af_UID := ProjectUID a; af_NodeRef := NodeName a; af_Generation := ai_Generation a |}.

(** 204, 409 and 404, or an unexpected status. *)
Definition evidence_outcome (what : string) (resp : http_response ()) : option failure :=
  if Z.eqb (hp_Status resp) StatusNoContent then None
  else if Z.eqb (hp_Status resp) StatusConflict then Some (Fails ErrStaleReport)
  else if Z.eqb (hp_Status resp) StatusNotFound then Some (Fails ErrProjectNotFound)
  else Some (unexpected what resp).
(** 409 and 204, or an unexpected status. *)
Definition write_outcome (what : string) (resp : http_response ()) : option failure :=
  if Z.eqb (hp_Status resp) StatusConflict then Some (Fails ErrStaleReport)
  else if Z.eqb (hp_Status resp) StatusNoContent then None
  else Some (unexpected what resp).

Definition put (c : Client) (what report name path : string) (members : list (string * json)) : xchg (option failure) :=
  exchange c what (request "PUT" ("/api/v1/projects/" ++ name ++ path)%string (JSONBody (JObject members)))
    KNone Some (evidence_outcome report).

Definition ReportResourcesRemoved_ (c : Client) (name : string) (a : AssignmentIdentity) : xchg (option failure) :=
  put c "resources-removed" "report resources removed" name "/recovery/resources-removed"
    (fence_members (fence_of_assignment a)).
Definition ReportManagedDataQuarantined_ (c : Client) (name : string) (a : AssignmentIdentity) : xchg (option failure) :=
  put c "managed-data-quarantined" "report managed data quarantined" name "/recovery/managed-data-quarantined"
    (fence_members (fence_of_assignment a)).
Definition CommitBackup_request (c : Client) (name : string) (fence : AssignmentFence) (backupID : string)
    : xchg (option failure) :=
  put c "committed-backup" "commit backup" name "/recovery/committed-backup"
    (fence_members fence ++ [field "backupID" (text backupID)]).
Definition ReportSpecApplied_ (c : Client) (name : string) (fence : AssignmentFence) (revision : Z) (applied : bool)
    (reason message : string) : xchg (option failure) :=
  put c "spec-applied" "report spec applied" name "/status/spec-applied"
    (fence_members fence ++ [field "specRevision" (JNumber revision); field "applied" (JBool applied)]
     ++ omitempty "reason" reason ++ omitempty "message" message).
Definition RecordStanza_ (c : Client) (name : string) (fence : AssignmentFence) (volume : string) : xchg (option failure) :=
  put c "stanza" "record stanza" name "/backup/stanzas" (fence_members fence ++ [field "volume" (text volume)]).
Definition item_json (i : BackupCompletionItem) : json :=
  JObject [field "volume" (text (bci_Volume i)); field "stanza" (text (bci_Stanza i)); field "label" (text (bci_Label i));
           field "type" (text (bci_Type i))].
Definition RecordBackupCompletion_ (c : Client) (name : string) (fence : AssignmentFence) (backupID : string)
    (items : list BackupCompletionItem) : xchg (option failure) :=
  put c "completion" "record backup completion" name ("/backup/completions/" ++ backupID)%string
    (fence_members fence ++ [field "items" (JArray (item_json <$> items))]).

Definition PatchProjectCondition_ (c : Client) (name : string) (fence : AssignmentFence) (type : ConditionType)
    (status : ConditionStatus) (reason message : string) : xchg (option failure) :=
  exchange c "condition patch"
    (request "PATCH" ("/api/v1/projects/" ++ name ++ "/conditions/" ++ type)%string
       (JSONBody (JObject ([field "status" (text status)] ++ omitempty "reason" reason ++ omitempty "message" message
                           ++ optional_fence fence))))
    KNone Some (write_outcome "patch condition").
Definition ClearProjectCondition_ (c : Client) (name : string) (fence : AssignmentFence) (type : ConditionType)
    : xchg (option failure) :=
  exchange c "condition delete"
    (request "DELETE"
       ("/api/v1/projects/" ++ name ++ "/conditions/" ++ type ++ "?"
        ++ Encode [("assignmentGeneration", FormatInt (af_Generation fence)); ("nodeRef", af_NodeRef fence);
                   ("uid", af_UID fence)])%string NoBody)
    KNone Some (write_outcome "clear condition").
Definition UpdateProjectStatus_ (c : Client) (name : string) (fence : AssignmentFence) (phase : ProjectPhase)
    (reason message : string) : xchg (option failure) :=
  exchange c "project status"
    (request "PATCH" ("/api/v1/projects/" ++ name ++ "/status")%string
       (JSONBody (JObject ([field "phase" (text phase)] ++ omitempty "reason" reason ++ omitempty "message" message
                           ++ optional_fence fence))))
    KNone Some (write_outcome "update project status").

(** ** The requests of the Agent's programs that go to the server *)

Definition client_method (c : Client) (r : call) : option (xchg (answer r)) :=
  match r return option (xchg (answer r)) with
  | GetProject name => Some (GetProject_ c name)
  | GetSecret name => Some (GetSecret_ c name)
  | ListProjectsAssignedToNode => Some (ListProjectsAssignedToNode_ c)
  | ListCleanupTasks => Some (ListCleanupTasks_ c)
  | UpdateProjectStatus name fence phase reason message => Some (UpdateProjectStatus_ c name fence phase reason message)
  | PatchProjectCondition name fence type status reason message =>
      Some (PatchProjectCondition_ c name fence type status reason message)
  | ClearProjectCondition name fence type => Some (ClearProjectCondition_ c name fence type)
  | ReportSpecApplied name fence revision applied reason message =>
      Some (ReportSpecApplied_ c name fence revision applied reason message)
  | ReportResourcesRemoved name a => Some (ReportResourcesRemoved_ c name a)
  | ReportManagedDataQuarantined name a => Some (ReportManagedDataQuarantined_ c name a)
  | RecordStanza name fence volume => Some (RecordStanza_ c name fence volume)
  | CommitBackup name fence backupID => Some (CommitBackup_request c name fence backupID)
  | RecordBackupCompletion name fence backupID items => Some (RecordBackupCompletion_ c name fence backupID items)
  | _ => None
  end.
