(* ===== verification/ClientServer.v ===== *)
(** The Agent's client against the server: a request of internal/agent/client.go goes
    through the mux and the authorizer to a handler, which reads its body, and the
    client takes the answer for what it does. *)
From Stdlib Require Import ZArith Lia.
From stdpp Require Import prelude gmap strings.
From S2P Require Import Prelude.
From S2P Require Import Conditions.
From S2P Require Import ProjectTypes.
From S2P Require Import Lifecycle.
From S2P Require Import NodeTypes.
From S2P Require Import Strconv.
From S2P Require Import Quantity.
From S2P Require Import AccessTypes.
From S2P Require Import Failures.
From S2P Require Import Engine.
From S2P Require Import Actions.
From S2P Require Import Database.
From S2P Require Import Evolution.
From S2P Require Import StatusStore.
From S2P Require Import Legality.
From S2P Require Import EvidenceStore.
From S2P Require Import ProjectStore.
From S2P Require Import Authz.
From S2P Require Import ProjectHandler.
From S2P Require Import TokenRoutes.
From S2P Require Import NodeRoutes.
From S2P Require Import SecretRoutes.
From S2P Require Import AgentRoutes.
From S2P Require Import Wire.
From S2P Require Import Client.
Import GoTime GoInt GoString GoError.
Open Scope nat_scope.
Open Scope go_scope.

Set Default Proof Using "Type".

(** ** The bodies the server reads (handler/project/handler.go) *)

Definition decode_fence (ms : list (string * json)) : option evidenceRequest :=
  uid ← string_of (member "uid" ms); node ← string_of (member "nodeRef" ms);
  gen ← pointer_of (member "assignmentGeneration" ms);
  Some {| evr_UID := uid; evr_NodeRef := node; evr_AssignmentGeneration := gen |}.
Definition decode_evidence (j : json) : option evidenceRequest := ms ← object_of j; decode_fence ms.

Definition decode_status (j : json) : option statusPatchRequest :=
  ms ← object_of j; f ← decode_fence ms;
  phase ← string_of (member "phase" ms); reason ← string_of (member "reason" ms);
  message ← string_of (member "message" ms);
  Some {| spr_Phase := phase; spr_Reason := reason; spr_Message := message; spr_UID := evr_UID f;
          spr_NodeRef := evr_NodeRef f; spr_AssignmentGeneration := evr_AssignmentGeneration f |}.
Definition decode_condition (j : json) : option conditionPatchRequest :=
  ms ← object_of j; f ← decode_fence ms;
  status ← string_of (member "status" ms); reason ← string_of (member "reason" ms);
  message ← string_of (member "message" ms);
  Some {| cpr_Status := status; cpr_Reason := reason; cpr_Message := message; cpr_UID := evr_UID f;
          cpr_NodeRef := evr_NodeRef f; cpr_AssignmentGeneration := evr_AssignmentGeneration f |}.
Definition decode_spec_applied (j : json) : option specAppliedRequest :=
  ms ← object_of j; f ← decode_fence ms;
  revision ← int64_of_json (member "specRevision" ms); applied ← bool_of (member "applied" ms);
  reason ← string_of (member "reason" ms); message ← string_of (member "message" ms);
  Some {| srq_UID := evr_UID f; srq_NodeRef := evr_NodeRef f; srq_AssignmentGeneration := evr_AssignmentGeneration f;
          srq_SpecRevision := revision; srq_Applied := applied; srq_Reason := reason; srq_Message := message |}.
Definition decode_committed_backup (j : json) : option committedBackupRequest :=
  ms ← object_of j; f ← decode_fence ms; id ← string_of (member "backupID" ms);
  Some {| cbr_Fence := f; cbr_BackupID := id |}.
Definition decode_stanza (j : json) : option stanzaRequest :=
  ms ← object_of j; f ← decode_fence ms; volume ← string_of (member "volume" ms);
  Some {| szr_Fence := f; szr_Volume := volume |}.
Definition decode_item (j : json) : option BackupCompletionItem :=
  ms ← object_of j;
  volume ← string_of (member "volume" ms); stanza ← string_of (member "stanza" ms);
  label ← string_of (member "label" ms); type ← string_of (member "type" ms);
  Some {| bci_Volume := volume; bci_Stanza := stanza; bci_Label := label; bci_Type := type |}.
Definition decode_completion (j : json) : option completionRequest :=
  ms ← object_of j; f ← decode_fence ms; items ← array_of decode_item (member "items" ms);
  Some {| cor_Fence := f; cor_Items := items |}.

Definition json_body (q : http_request) : option json :=
  match hq_Body q with JSONBody j => Some j | _ => None end.

(** ** The server *)

Section server.
Context `{UUIDSource}.
(** What is not the program's: the status the library gives a problem the mapping
    leaves to it, the text of a status, that of a decoding error, the random bytes of a
    token, whether pre-auth keys are checked, and the routes no Agent uses. *)
Context (library : problem → Z) (status_text : Z → string) (decode_error : string) (rand : result (list Z))
        (keys : bool) (elsewhere : ∀ k, Caller → http_request → prog (http_response (body_type k))).

(** The problem writer: the mapping of errors.go, and what it leaves. *)
Definition status_of (p : problem) : Z :=
  match p with
  | ProblemOf e => default (library p) (problem_status e)
  | ValidationError _ _ => library p
  end.
Definition status_line (s : Z) : string := (FormatInt s ++ " " ++ status_text s)%string.
Definition plain_answer {A} (s : Z) : http_response A :=
  {| hp_Status := s; hp_Line := status_line s; hp_Body := Bad (Text "EOF") |}.
Definition answered {A} (r : response A) : http_response A :=
  match r with
  | WriteHeader s => plain_answer s
  | WriteJSON s a => {| hp_Status := s; hp_Line := status_line s; hp_Body := Got a |}
  | WriteError p => plain_answer (status_of p)
  end.
(** A body the client does not look at. *)
Definition discard {A} (r : response A) : http_response () :=
  match r with
  | WriteHeader s | WriteJSON s _ => plain_answer s
  | WriteError p => plain_answer (status_of p)
  end.

Definition body_error {A} : response A :=
  WriteError (ValidationError "body" ("invalid request body: " ++ decode_error)%string).

(** The writing routes of Agents: the pattern, and what the handler reads before it
    acts. *)
Definition reading {R} (decode : json → option R) (call : R → agent_call) (q : http_request)
    : agent_call + response () :=
  match j ← json_body q; decode j with Some r => inl (call r) | None => inr body_error end.
Definition agent_request (pattern : string) (value : string → string) (q : http_request)
    : option (agent_call + response ()) :=
  if decide (pattern = "PATCH /api/v1/projects/{name}/status"%string) then Some (reading decode_status PatchStatus q)
  else if decide (pattern = "PUT /api/v1/projects/{name}/status/spec-applied"%string) then
    Some (reading decode_spec_applied PutSpecApplied q)
  else if decide (pattern = "PATCH /api/v1/projects/{name}/conditions/{type}"%string) then
    Some (if negb (agentWritableConditions (value "type")) then inr (not_writable (value "type"))
          else reading decode_condition (PatchCondition (value "type")) q)
  else if decide (pattern = "DELETE /api/v1/projects/{name}/conditions/{type}"%string) then
    Some (inl (DeleteCondition (value "type") (Get "uid" (hq_Query q)) (Get "nodeRef" (hq_Query q))
                 (Get "assignmentGeneration" (hq_Query q))))
  else if decide (pattern = "PUT /api/v1/projects/{name}/recovery/workload-stopped"%string) then
    Some (reading decode_evidence PutWorkloadStopped q)
  else if decide (pattern = "PUT /api/v1/projects/{name}/recovery/resources-removed"%string) then
    Some (reading decode_evidence PutResourcesRemoved q)
  else if decide (pattern = "PUT /api/v1/projects/{name}/recovery/managed-data-quarantined"%string) then
    Some (reading decode_evidence PutManagedDataQuarantined q)
  else if decide (pattern = "PUT /api/v1/projects/{name}/recovery/committed-backup"%string) then
    Some (reading decode_committed_backup PutCommittedBackup q)
  else if decide (pattern = "PUT /api/v1/projects/{name}/backup/stanzas"%string) then
    Some (reading decode_stanza PutStanza q)
  else if decide (pattern = "PUT /api/v1/projects/{name}/backup/completions/{backupID}"%string) then
    Some (reading decode_completion (PutBackupCompletion (value "backupID")) q)
  else None.

(** The handler of a route, by what the client reads of its answer. [r] is the request
    the authorizer lets through. *)
Definition handle (k : kind) (caller : Caller) (pattern : string) (value : string → string) (r : Authz.Request)
    (q : http_request) : option (prog (http_response (body_type k))) :=
  match k return option (prog (http_response (body_type k))) with
  | KNone =>
      if decide (pattern = "POST /api/v1/nodes"%string) then
        match hq_Body q with
        | NodeBody node => Some (createNode caller node ≫= λ x, Ret (discard x))
        | _ => None
        end
      else if decide (pattern = "POST /api/v1/nodes/{name}/heartbeat"%string) then
        match hq_Body q with
        | HeartbeatBody req => Some (heartbeat keys (value "name") req ≫= λ x, Ret (answered x))
        | _ => None
        end
      else
        x ← agent_request pattern value q;
        Some (match x with
              | inl c => agent_route caller (value "name") c ≫= λ x, Ret (answered x)
              | inr problem => Ret (answered problem)
              end)
  | KProject =>
      if decide (pattern = project_read) then Some (getProject_handler (value "name") ≫= λ x, Ret (answered x)) else None
  | KProjects =>
      if decide (pattern = project_list) then
        Some (listProjects (Values "phase" (hq_Query q)) (rq_NodeRef r) ≫= λ x, Ret (answered x))
      else None
  | KCleanupTasks =>
      if decide (pattern = "GET /api/v1/nodes/{name}/cleanup-obligations"%string) then
        Some (listCleanupObligations (value "name") ≫= λ x, Ret (answered x))
      else None
  | KSecret =>
      if decide (pattern = secret_read) then Some (getSecret (value "name") ≫= λ x, Ret (answered x)) else None
  | KJoined =>
      if decide (pattern = "POST /api/v1/nodes/{name}/join"%string) then
        Some (joinNode rand (value "name") (default EmptyString (hq_Authorization q)) ≫= λ x,
              Ret (match x with
                   | WriteJSON s joined => answered (WriteJSON s (nj_Token joined))
                   | WriteHeader s => answered (WriteHeader s)
                   | WriteError p => answered (WriteError p)
                   end))
      else None
  end.

(** The authorizer around the mux. *)
Definition serve (k : kind) (caller : Caller) (q : http_request) : prog (http_response (body_type k)) :=
  let path := hq_Path q in
  let pattern := mux (hq_Method q) path in
  authorize {| rq_Caller := caller; rq_Pattern := pattern; rq_Path := path; rq_NodeRef := Get "nodeRef" (hq_Query q) |}
  ≫= λ v,
  match v with
  | Refused s => Ret (plain_answer s)
  | Failed => Ret (plain_answer 500)
  | Serve r => default (elsewhere k caller q) (handle k caller pattern (PathValue pattern path) r q)
  end.

(** ** Across the network

    A request may not arrive, or its answer may not; the client sees an error. *)
Inductive transport := Arrives | Unsent (e : failure) | Unanswered (e : failure).

Fixpoint over {A} (caller : Caller) (net : list transport) (x : xchg A) : prog A :=
  match x with
  | Done a => Ret a
  | Send q k f =>
      match net with
      | Unsent e :: net => over caller net (f (Bad e))
      | Unanswered e :: net => serve k caller q ≫= λ _, over caller net (f (Bad e))
      | _ => serve k caller q ≫= λ r, over caller (tail net) (f (Got r))
      end
  end.
End server.

(** ** What a body is read as

    A text arrives as UTF-8 ([sent]); numbers and the fence arrive as they are. *)
Notation sent := (valid_utf8 0).

Lemma int64_of_number z : in_int64 z → int64_of_json (JNumber z) = Some z.
Proof. intros Hz. simpl. by rewrite bool_decide_eq_true_2. Qed.
Lemma pointer_of_number z : in_int64 z → pointer_of (JNumber z) = Some (Some z).
Proof. intros Hz. unfold pointer_of. by rewrite (int64_of_number z Hz). Qed.

Definition sent_fence (fence : AssignmentFence) : evidenceRequest :=
  {| evr_UID := sent (af_UID fence); evr_NodeRef := sent (af_NodeRef fence);
     evr_AssignmentGeneration := Some (af_Generation fence) |}.

(** Reads a body whose members are known, with its texts left as they are. *)
Ltac read_json :=
  unfold optional_fence, fence_members, omitempty, text, sent_fence; cbn [af_UID af_NodeRef af_Generation];
  repeat case_decide; subst; lazy -[valid_utf8 pointer_of int64_of_json];
  rewrite pointer_of_number by done; try (rewrite int64_of_number by done); reflexivity.

Section bodies.
Context (fence : AssignmentFence) (Hg : in_int64 (af_Generation fence)).

Lemma status_read phase reason message :
  decode_status (JObject ([field "phase" (text phase)] ++ omitempty "reason" reason ++ omitempty "message" message
                          ++ optional_fence fence)) =
  Some {| spr_Phase := sent phase; spr_Reason := sent reason; spr_Message := sent message;
          spr_UID := sent (af_UID fence); spr_NodeRef := sent (af_NodeRef fence);
          spr_AssignmentGeneration := Some (af_Generation fence) |}.
Proof using Hg. destruct fence as [uid node gen]. unfold decode_status. simpl in Hg. read_json. Qed.
Lemma condition_read status reason message :
  decode_condition (JObject ([field "status" (text status)] ++ omitempty "reason" reason ++ omitempty "message" message
                             ++ optional_fence fence)) =
  Some {| cpr_Status := sent status; cpr_Reason := sent reason; cpr_Message := sent message;
          cpr_UID := sent (af_UID fence); cpr_NodeRef := sent (af_NodeRef fence);
          cpr_AssignmentGeneration := Some (af_Generation fence) |}.
Proof using Hg. destruct fence as [uid node gen]. unfold decode_condition. simpl in Hg. read_json. Qed.
Lemma spec_applied_read revision applied reason message :
  in_int64 revision →
  decode_spec_applied (JObject (fence_members fence ++ [field "specRevision" (JNumber revision);
      field "applied" (JBool applied)] ++ omitempty "reason" reason ++ omitempty "message" message)) =
  Some {| srq_UID := sent (af_UID fence); srq_NodeRef := sent (af_NodeRef fence);
          srq_AssignmentGeneration := Some (af_Generation fence); srq_SpecRevision := revision;
          srq_Applied := applied; srq_Reason := sent reason; srq_Message := sent message |}.
Proof using Hg. intros Hr. destruct fence as [uid node gen]. unfold decode_spec_applied. simpl in Hg. read_json. Qed.
Lemma evidence_read : decode_evidence (JObject (fence_members fence)) = Some (sent_fence fence).
Proof using Hg. destruct fence as [uid node gen]. unfold decode_evidence. simpl in Hg. read_json. Qed.
Lemma committed_read backupID :
  decode_committed_backup (JObject (fence_members fence ++ [field "backupID" (text backupID)])) =
  Some {| cbr_Fence := sent_fence fence; cbr_BackupID := sent backupID |}.
Proof using Hg. destruct fence as [uid node gen]. unfold decode_committed_backup. simpl in Hg. read_json. Qed.
Lemma stanza_read volume :
  decode_stanza (JObject (fence_members fence ++ [field "volume" (text volume)])) =
  Some {| szr_Fence := sent_fence fence; szr_Volume := sent volume |}.
Proof using Hg. destruct fence as [uid node gen]. unfold decode_stanza. simpl in Hg. read_json. Qed.

Definition sent_item (i : BackupCompletionItem) : BackupCompletionItem :=
  {| bci_Volume := sent (bci_Volume i); bci_Stanza := sent (bci_Stanza i); bci_Label := sent (bci_Label i);
     bci_Type := sent (bci_Type i) |}.
Lemma items_read items : array_of decode_item (JArray (item_json <$> items)) = Some (sent_item <$> items).
Proof using Type.
  simpl. induction items as [|i items IH]; [done|]. rewrite !fmap_cons. simpl. rewrite IH.
  destruct i. unfold item_json, decode_item, text. lazy -[valid_utf8 fmap list_fmap]. reflexivity.
Qed.
Lemma completion_read items :
  decode_completion (JObject (fence_members fence ++ [field "items" (JArray (item_json <$> items))])) =
  Some {| cor_Fence := sent_fence fence; cor_Items := sent_item <$> items |}.
Proof using Hg.
  pose proof (items_read items) as Hi. destruct fence as [uid node gen]. unfold decode_completion. simpl in Hg.
  unfold fence_members, text, sent_fence. cbn [af_UID af_NodeRef af_Generation].
  remember (JArray (item_json <$> items)) as j eqn:Hj.
  lazy -[valid_utf8 pointer_of array_of decode_item sent_item fmap list_fmap].
  rewrite pointer_of_number by done. rewrite Hi. reflexivity.
Qed.
End bodies.

(** ** Reports *)

(** What an Agent reports of an assignment. *)
Inductive report :=
| PhaseReport (phase : ProjectPhase) (reason message : string)
| ConditionReport (type : ConditionType) (status : ConditionStatus) (reason message : string)
| ConditionCleared (type : ConditionType)
| SpecReport (revision : Z) (applied : bool) (reason message : string)
| RemovedReport
| QuarantinedReport
| StanzaReport (volume : string)
| CommitReport (backupID : string)
| CompletionReport (backupID : string) (items : list BackupCompletionItem).

Definition assignment_of (fence : AssignmentFence) : AssignmentIdentity :=
  {| ProjectUID := af_UID fence; NodeName := af_NodeRef fence; ai_Generation := af_Generation fence |}.

Definition send_report (c : Client) (name : string) (fence : AssignmentFence) (r : report) : xchg (option failure) :=
  match r with
  | PhaseReport phase reason message => UpdateProjectStatus_ c name fence phase reason message
  | ConditionReport type status reason message => PatchProjectCondition_ c name fence type status reason message
  | ConditionCleared type => ClearProjectCondition_ c name fence type
  | SpecReport revision applied reason message => ReportSpecApplied_ c name fence revision applied reason message
  | RemovedReport => ReportResourcesRemoved_ c name (assignment_of fence)
  | QuarantinedReport => ReportManagedDataQuarantined_ c name (assignment_of fence)
  | StanzaReport volume => RecordStanza_ c name fence volume
  | CommitReport backupID => CommitBackup_request c name fence backupID
  | CompletionReport backupID items => RecordBackupCompletion_ c name fence backupID items
  end.

(** What its handler is called with. *)
Definition received (fence : AssignmentFence) (r : report) : agent_call :=
  match r with
  | PhaseReport phase reason message =>
      PatchStatus {| spr_Phase := sent phase; spr_Reason := sent reason; spr_Message := sent message;
                     spr_UID := sent (af_UID fence); spr_NodeRef := sent (af_NodeRef fence);
                     spr_AssignmentGeneration := Some (af_Generation fence) |}
  | ConditionReport type status reason message =>
      PatchCondition type
        {| cpr_Status := sent status; cpr_Reason := sent reason; cpr_Message := sent message;
           cpr_UID := sent (af_UID fence); cpr_NodeRef := sent (af_NodeRef fence);
           cpr_AssignmentGeneration := Some (af_Generation fence) |}
  | ConditionCleared type =>
      DeleteCondition type (af_UID fence) (af_NodeRef fence) (FormatInt (af_Generation fence))
  | SpecReport revision applied reason message =>
      PutSpecApplied
        {| srq_UID := sent (af_UID fence); srq_NodeRef := sent (af_NodeRef fence);
           srq_AssignmentGeneration := Some (af_Generation fence); srq_SpecRevision := revision;
           srq_Applied := applied; srq_Reason := sent reason; srq_Message := sent message |}
  | RemovedReport => PutResourcesRemoved (sent_fence fence)
  | QuarantinedReport => PutManagedDataQuarantined (sent_fence fence)
  | StanzaReport volume => PutStanza {| szr_Fence := sent_fence fence; szr_Volume := sent volume |}
  | CommitReport backupID => PutCommittedBackup {| cbr_Fence := sent_fence fence; cbr_BackupID := sent backupID |}
  | CompletionReport backupID items =>
      PutBackupCompletion backupID {| cor_Fence := sent_fence fence; cor_Items := sent_item <$> items |}
  end.

(** A Project that has this name, and numbers the server can read. *)
Definition well_formed (name : string) (fence : AssignmentFence) (r : report) : Prop :=
  ValidateName name = None ∧ in_int64 (af_Generation fence) ∧
  match r with
  | ConditionReport type _ _ _ | ConditionCleared type => agentWritableConditions type = true
  | SpecReport revision _ _ _ => in_int64 revision
  | CompletionReport backupID _ => segment backupID
  | _ => True
  end.

(** The route of a report. *)
Definition report_segments (name : string) (r : report) : list string :=
  match r with
  | PhaseReport _ _ _ => [EmptyString; "api"; "v1"; "projects"; name; "status"]
  | ConditionReport type _ _ _ | ConditionCleared type =>
      [EmptyString; "api"; "v1"; "projects"; name; "conditions"; type]
  | SpecReport _ _ _ _ => [EmptyString; "api"; "v1"; "projects"; name; "status"; "spec-applied"]
  | RemovedReport => [EmptyString; "api"; "v1"; "projects"; name; "recovery"; "resources-removed"]
  | QuarantinedReport => [EmptyString; "api"; "v1"; "projects"; name; "recovery"; "managed-data-quarantined"]
  | StanzaReport _ => [EmptyString; "api"; "v1"; "projects"; name; "backup"; "stanzas"]
  | CommitReport _ => [EmptyString; "api"; "v1"; "projects"; name; "recovery"; "committed-backup"]
  | CompletionReport backupID _ => [EmptyString; "api"; "v1"; "projects"; name; "backup"; "completions"; backupID]
  end%string.
Definition report_pattern (r : report) : string :=
  match r with
  | PhaseReport _ _ _ => "PATCH /api/v1/projects/{name}/status"
  | ConditionReport _ _ _ _ => "PATCH /api/v1/projects/{name}/conditions/{type}"
  | ConditionCleared _ => "DELETE /api/v1/projects/{name}/conditions/{type}"
  | SpecReport _ _ _ _ => "PUT /api/v1/projects/{name}/status/spec-applied"
  | RemovedReport => "PUT /api/v1/projects/{name}/recovery/resources-removed"
  | QuarantinedReport => "PUT /api/v1/projects/{name}/recovery/managed-data-quarantined"
  | StanzaReport _ => "PUT /api/v1/projects/{name}/backup/stanzas"
  | CommitReport _ => "PUT /api/v1/projects/{name}/recovery/committed-backup"
  | CompletionReport _ _ => "PUT /api/v1/projects/{name}/backup/completions/{backupID}"
  end%string.

Lemma name_byte_unreserved c : is_name_byte c = true → unreserved c = true.
Proof. destruct c as [[] [] [] [] [] [] [] []]; vm_compute; congruence. Qed.
Lemma valid_segment name : ValidateName name = None → segment name.
Proof.
  intros Hv. destruct (valid_name_segment _ Hv) as (_ & Hne & _). split; [done|].
  apply ValidateName_None in Hv. destruct name as [|c name]; [done|]. simpl in Hv.
  apply andb_true_iff in Hv as [[[Hc Hall]%andb_true_iff _]%andb_true_iff _].
  simpl. rewrite (name_byte_unreserved c) by (unfold is_name_byte; by rewrite Hc). simpl.
  clear Hc Hne. induction name as [|d name IH]; [done|]. simpl in *. apply andb_true_iff in Hall as [Hd Hall].
  rewrite (name_byte_unreserved d Hd). simpl. auto.
Qed.
Lemma writable_segment type : agentWritableConditions type = true → segment type.
Proof.
  unfold agentWritableConditions. rewrite bool_decide_eq_true. intros Hin.
  repeat (apply elem_of_cons in Hin as [->|Hin]; [by split; vm_compute|]). by apply elem_of_nil in Hin.
Qed.

Lemma RoundTrip_keeps {A} (f : http_request → A) c q :
  (∀ a q, f (hq_with_Authorization a q) = f q) → f (RoundTrip c q) = f q.
Proof.
  intros Hf. unfold RoundTrip. revert q. induction (cl_Tokens c) as [|t ts IH]; intros q; [done|]. simpl. by rewrite IH, Hf.
Qed.
Lemma hq_Target_RoundTrip c q : hq_Target (RoundTrip c q) = hq_Target q.
Proof. by apply RoundTrip_keeps. Qed.
Lemma hq_Path_RoundTrip c q : hq_Path (RoundTrip c q) = hq_Path q.
Proof. by apply RoundTrip_keeps. Qed.
Lemma hq_Query_RoundTrip c q : hq_Query (RoundTrip c q) = hq_Query q.
Proof. by apply RoundTrip_keeps. Qed.
Lemma hq_Method_RoundTrip c q : hq_Method (RoundTrip c q) = hq_Method q.
Proof. by apply RoundTrip_keeps. Qed.
Lemma json_body_RoundTrip c q : json_body (RoundTrip c q) = json_body q.
Proof. by apply RoundTrip_keeps. Qed.

(** Every segment is plain; the route is one of the mux, open to Nodes, and takes them. *)
Lemma report_plain name fence r : well_formed name fence r → Forall plain (report_segments name r).
Proof.
  intros (Hn%valid_segment%segment_plain & _ & Hr).
  destruct r; simpl in *; try apply writable_segment in Hr; try apply segment_plain in Hr;
    repeat (apply Forall_cons; split; [first [exact Hn|exact Hr|by vm_compute]|]); by apply Forall_nil.
Qed.
Lemma report_matches name fence r :
  well_formed name fence r → segments_match (segments (pattern_path (report_pattern r))) (report_segments name r) = true.
Proof.
  intros (Hn%valid_segment & _ & Hr). destruct Hn as [Hn _]. destruct name as [|x name]; [done|].
  destruct r; simpl in Hr; try (apply writable_segment in Hr as [Hr _]); try (destruct Hr as [Hr _]);
    try (destruct type as [|y type]; [done|]); try (destruct backupID as [|y backupID]; [done|]); vm_compute; reflexivity.
Qed.
Lemma report_listed r : report_pattern r ∈ routes ∧ rule_of (report_pattern r) = Some allowRoute.
Proof. split; [|by destruct r]. apply (bool_decide_unpack _). destruct r; vm_compute; exact I. Qed.
Lemma report_values name r :
  let value := λ key, default EmptyString (zip_values (segments (pattern_path (report_pattern r))) (report_segments name r) ∅ !! key) in
  value "name"%string = name ∧
  match r with
  | ConditionReport type _ _ _ | ConditionCleared type => value "type"%string = type
  | CompletionReport backupID _ => value "backupID"%string = backupID
  | _ => True
  end.
Proof. destruct r; (split; [vm_compute; reflexivity|first [exact I|vm_compute; reflexivity]]). Qed.

(** ** From the client to the handler *)

Section arrival.
Context `{UUIDSource} (library : problem → Z) (status_text : Z → string) (decode_error : string)
        (rand : result (list Z)) (keys : bool) (elsewhere : ∀ k, Caller → http_request → prog (http_response (body_type k))).
Notation serve := (serve library status_text decode_error rand keys elsewhere).
Notation handle := (handle library status_text decode_error rand keys).
Notation over := (over library status_text decode_error rand keys elsewhere).

(** A route that is open to Nodes goes to its handler. *)
Lemma serve_open k caller q xs p :
  hq_Path q = Join xs "/" → mux (hq_Method q) (Join xs "/") = p → rule_of p = Some allowRoute →
  ∃ r, serve k caller q = default (elsewhere k caller q) (handle k caller p (PathValue p (Join xs "/")) r q).
Proof.
  intros Hp Hm Hr. unfold serve, authorize. rewrite Hp, Hm. simpl.
  destruct (node_caller caller) as [node|]; [|by eexists].
  case_decide as He; [by eexists|]. rewrite Hr. simpl. by eexists.
Qed.

(** What the client does with an answer to a report. *)
Definition outcome_of (r : report) (resp : http_response ()) : option failure :=
  match r with
  | PhaseReport _ _ _ => write_outcome "update project status" resp
  | ConditionReport _ _ _ _ => write_outcome "patch condition" resp
  | ConditionCleared _ => write_outcome "clear condition" resp
  | SpecReport _ _ _ _ => evidence_outcome "report spec applied" resp
  | RemovedReport => evidence_outcome "report resources removed" resp
  | QuarantinedReport => evidence_outcome "report managed data quarantined" resp
  | StanzaReport _ => evidence_outcome "record stanza" resp
  | CommitReport _ => evidence_outcome "commit backup" resp
  | CompletionReport _ _ => evidence_outcome "record backup completion" resp
  end.

Lemma fence_there_and_back fence : fence_of_assignment (assignment_of fence) = fence.
Proof using Type. by destruct fence. Qed.

(** A report is one request; without an answer it is an error. *)
Definition one_request (x : xchg (option failure)) (q : http_request) (outcome : http_response () → option failure) : Prop :=
  ∃ what, x = Send q KNone (λ r, Done (match r with Bad e => Some (wrap what e) | Got resp => outcome resp end)).

Lemma path_of_target q xs : hq_Target q = Join xs "/" → Forall plain xs → hq_Path q = Join xs "/".
Proof using Type. intros Ht Hx. unfold hq_Path. by rewrite Ht, target_of. Qed.

Lemma condition_target name type raw :
  ("/api/v1/projects/" ++ name ++ "/conditions/" ++ type ++ "?" ++ raw)%string =
  (Join (report_segments name (ConditionCleared type)) "/" ++ "?" ++ raw)%string.
Proof using Type.
  change (Join (report_segments name (ConditionCleared type)) "/")
    with ("/api/v1/projects/" ++ name ++ "/conditions/" ++ type)%string.
  by rewrite !append_assoc.
Qed.

Lemma agent_request_of r value q :
  agent_request decode_error (report_pattern r) value q =
  Some match r with
       | PhaseReport _ _ _ => reading decode_error decode_status PatchStatus q
       | ConditionReport _ _ _ _ =>
           if negb (agentWritableConditions (value "type"%string)) then inr (not_writable (value "type"%string))
           else reading decode_error decode_condition (PatchCondition (value "type"%string)) q
       | ConditionCleared _ =>
           inl (DeleteCondition (value "type"%string) (Get "uid" (hq_Query q)) (Get "nodeRef" (hq_Query q))
                  (Get "assignmentGeneration" (hq_Query q)))
       | SpecReport _ _ _ _ => reading decode_error decode_spec_applied PutSpecApplied q
       | RemovedReport => reading decode_error decode_evidence PutResourcesRemoved q
       | QuarantinedReport => reading decode_error decode_evidence PutManagedDataQuarantined q
       | StanzaReport _ => reading decode_error decode_stanza PutStanza q
       | CommitReport _ => reading decode_error decode_committed_backup PutCommittedBackup q
       | CompletionReport _ _ => reading decode_error decode_completion (PutBackupCompletion (value "backupID"%string)) q
       end.
Proof using Type. by destruct r. Qed.

Lemma read_as {R} (decode : json → option R) (call : R → agent_call) c method target j r :
  decode j = Some r → reading decode_error decode call (RoundTrip c (request method target (JSONBody j))) = inl (call r).
Proof using Type. intros Hd. unfold reading. rewrite json_body_RoundTrip. simpl. by rewrite Hd. Qed.

Lemma report_arrives caller c name fence r :
  well_formed name fence r →
  ∃ q, one_request (send_report c name fence r) q (outcome_of r) ∧
    serve KNone caller q = agent_route caller name (received fence r) ≫= λ x, Ret (answered library status_text x).
Proof.
  intros Hw. pose proof (report_plain _ _ _ Hw) as Hpl. pose proof (report_matches _ _ _ Hw) as Hma.
  destruct (report_listed r) as [Hin Hrule]. pose proof (report_values name r) as [Hname Hval].
  destruct Hw as (Hn & Hg & Hr).
  assert (report_segments name r ≠ []) as Hne by (by destruct r).
  assert (∀ q, hq_Path q = Join (report_segments name r) "/" →
               method_matches (pattern_method (report_pattern r)) (hq_Method q) = true →
               agent_request decode_error (report_pattern r) (PathValue (report_pattern r) (Join (report_segments name r) "/")) q
                 = Some (inl (received fence r)) →
               serve KNone caller q = agent_route caller name (received fence r) ≫= λ x, Ret (answered library status_text x)) as Hserve.
  { intros q Hp Hm Hd. destruct (serve_open KNone caller q _ _ Hp
      (mux_segments _ _ _ Hin Hpl Hne Hm Hma) Hrule) as [r' ->].
    unfold handle. rewrite Hd. rewrite (PathValue_segments _ _ _ Hpl Hne), Hname.
    destruct r; reflexivity. }
  destruct r; cbv beta iota zeta in Hval, Hr; (eexists; split; [by eexists|]); apply Hserve;
    rewrite ?hq_Path_RoundTrip, ?hq_Method_RoundTrip; try reflexivity;
    try (apply path_of_target; [reflexivity|exact Hpl]);
    rewrite ?agent_request_of, ?(PathValue_segments _ _ _ Hpl Hne); try rewrite Hval; try rewrite Hr.
  all: try (cbn [received]; apply (f_equal Some), read_as;
    first [by apply status_read|by apply condition_read|by apply spec_applied_read|by rewrite fence_there_and_back; apply evidence_read
          |by apply committed_read|by apply stanza_read|by apply completion_read]).
  - unfold hq_Path. cbn [hq_Target request]. rewrite condition_target, (target_with_query _ _ Hpl). reflexivity.
  - rewrite hq_Query_RoundTrip. unfold hq_Query. cbn [hq_Target request].
    rewrite condition_target, (target_with_query _ _ Hpl). cbn [snd].
    rewrite Query_Encode by (repeat constructor; done). reflexivity.
Qed.
End arrival.

(** ** What an answer says

    [told]: nothing was written, and the answer is 204 for a Project of this lifetime or
    a problem; or one write, which this Node may make, answered with 204, or with a fault when its
    result was not seen. *)
Lemma lookup_failed_refuses {A} name e : ∃ p, lookup_failed (A := A) name e = WriteError p.
Proof. unfold lookup_failed, not_found. destruct (Is e ErrNotFound); by eexists. Qed.

Section told.
Context `{UUIDSource} (node name uid : string).

Definition seen_lifetime (d0 : DB) : Prop :=
  ∃ d r, others d0 d ∧ project_at d name = Some r ∧ row_UID r = uid.
Definition wrote (d0 : DB) (h : list Event) (ok : Prop) (bad : error → Prop) (h' : list Event) : Prop :=
  ∃ d1 d2, others d0 d1 ∧ node_write node name d1 d2 ∧
    ((ok ∧ h' = h ++ [Wrote d1 d2; Published TopicProjectUpdated name]) ∨
     (∃ e, bad e ∧ is_fault e = true ∧ h' = h ++ [Wrote d1 d2])).
Definition stored (d0 : DB) (h : list Event) (res : result ()) (h' : list Event) : Prop :=
  (h' = h ∧ (res = Ok () → seen_lifetime d0)) ∨ wrote d0 h (res = Ok ()) (λ e, res = Err e) h'.
Definition told (d0 : DB) (h : list Event) (x : response ()) (h' : list Event) : Prop :=
  (h' = h ∧ ((x = WriteHeader ProjectHandler.StatusNoContent ∧ seen_lifetime d0) ∨ ∃ p, x = WriteError p)) ∨
  wrote d0 h (x = WriteHeader ProjectHandler.StatusNoContent) (λ e, x = WriteError (ProblemOf e)) h'.

Notation wps p d0 d h := (wp others (λ _ _, True) p (λ res _ h', stored d0 h res h') d h).
Notation wpt p d0 d h := (wp others (λ _ _, True) p (λ x _ h', told d0 h x h') d h).

Lemma stored_fenced ref mutate d0 d h :
  db_inv d → others d0 d → ref_NodeRef ref = node → ref_UID ref = uid →
  (∀ m s s', mutate m s = Ok s' → own_change s s') →
  wps (reportProjectStatusFenced name ref mutate) d0 d h.
Proof using Type.
  intros Hinv Hd Hnode Huid Hm. eapply wp_mono; [|by apply wp_fenced_report].
  intros res d' h' [[-> Hn]|(d1 & d2 & (Hd1 & r & s' & now & Hr & Hf & Hs & _ & ->) & Hres)].
  - left. split; [done|]. intros Hok. destruct (Hn Hok) as (d1 & r & Hd1 & Hr & Hf & _).
    exists d1, r. split_and!; [by trans d|done|by rewrite <- Huid, <- Hf].
  - right. eexists d1, _. split_and!; [by trans d| |].
    + exists r, (commit_status s' now r). split_and!; try done. left. split; [by rewrite <- Hnode, <- Hf|eauto].
    + destruct Hres as [[-> ->]|(e & -> & He & ->)]; [by left|right]. by exists e.
Qed.

Lemma stored_uid mutate d0 d h :
  db_inv d → others d0 d →
  (∀ s s', mutate s = Ok s' → s' ≠ s → (st_NodeRef s = node ∧ own_change s s') ∨ owed_change node s s') →
  wps (UpdateProjectStatusForUID name uid mutate) d0 d h.
Proof using Type.
  intros Hinv Hd Hm. eapply wp_mono; [|by apply wp_UpdateProjectStatusForUID].
  intros res d' h' [[-> Hn]|(d1 & d2 & (Hd1 & r & s' & now & Hr & Hu & Hs & Hne & ->) & Hres)].
  - left. split; [done|]. intros Hok. destruct (Hn Hok) as (d1 & r & Hd1 & Hr & Hu & _).
    exists d1, r. split_and!; [by trans d|done|done].
  - right. eexists d1, _. split_and!; [by trans d| |].
    + exists r, (commit_status s' now r). split_and!; try done. by apply Hm.
    + destruct Hres as [[-> ->]|(e & -> & He & ->)]; [by left|right]. by exists e.
Qed.

Lemma stored_condition what ref cs d0 d h :
  others d0 d → ref_NodeRef ref = node → ref_UID ref = uid →
  (∀ s t, foreign_condition t → condition_of t (cs s) = condition_of t (st_Conditions s)) →
  wps (update_conditions what name (assignmentFenceWHERE ref) cs (classifyFencedConditionMiss name ref)) d0 d h.
Proof using Type.
  intros Hd Hnode Huid Hcs. eapply wp_mono; [|apply wp_fenced_condition].
  intros res d' h' [[-> Hn]|(d1 & r & now & Hd1 & Hr & Hp%fence_WHERE & _ & Hres)].
  - left. split; [done|]. intros Hok. destruct (Hn Hok) as (d1 & r & Hd1 & Hr & Hf).
    exists d1, r. split_and!; [by trans d|done|by rewrite <- Huid, <- Hf].
  - set (r' := row_with_status (set_conditions (cs (row_status r)) (row_Status r)) now r) in *.
    right. exists d1, (put_row (project_key name) r' d1). split_and!; [by trans d| |].
    + exists r, r'. split_and!; try done. left. split; [by rewrite <- Hnode, <- Hp|]. apply conditions_own. auto.
    + destruct Hres as [[-> ->]|(e & -> & He & ->)]; [by left|right]. by exists e.
Qed.

(** The response to the result of a store call. *)
Lemma told_result p d0 d h :
  wps p d0 d h → wpt (p ≫= λ res, Ret (writeEvidenceResult name res)) d0 d h.
Proof using Type.
  intros Hp. apply wp_bind. eapply wp_mono; [|exact Hp]. intros res d' h' Hs. apply wp_ret.
  destruct Hs as [[-> Hok]|(d1 & d2 & Hd1 & Hw & Hres)].
  - left. split; [done|]. destruct res as [[]|e]; [left; by auto|right; apply lookup_failed_refuses].
  - right. exists d1, d2. split_and!; [done|done|]. destruct Hres as [[-> ->]|(e & -> & He & ->)]; [by left|right].
    exists e. split; [|done]. simpl. unfold lookup_failed. by rewrite fault_is_not.
Qed.
Lemma told_refused x d0 d h :
  (∃ p, x = WriteError p) → wpt (Ret x) d0 d h.
Proof using Type. intros Hx. apply wp_ret. left. split; [done|]. by right. Qed.
Lemma told_now (k : Time → prog (response ())) d0 d h :
  db_inv d → others d0 d → (∀ t d1, db_inv d1 → others d0 d1 → wpt (k t) d0 d1 h) → wpt (now_ ≫= k) d0 d h.
Proof using Type.
  intros Hinv Hd Hk. apply wp_bind, wp_now. intros t d1 Hd1. apply Hk; [by apply Hd1|by trans d].
Qed.
Lemma told_read (k : result Project → prog (response ())) d0 d h :
  db_inv d → others d0 d → (∀ res d1, db_inv d1 → others d0 d1 → wpt (k res) d0 d1 h) →
  wpt (getProject name ≫= k) d0 d h.
Proof using Type.
  intros Hinv Hd Hk. apply wp_bind, wp_getProject; intros; (apply Hk; [by apply H0|by trans d]).
Qed.
Lemma told_fence caller (missing : response ()) uid' nodeRef gen (k : AssignmentRef → prog (response ())) d0 d h :
  node_caller caller = Some node → (∃ p, missing = WriteError p) → uid' = uid →
  (∀ ref, ref_NodeRef ref = node → ref_UID ref = uid → wpt (k ref) d0 d h) →
  wpt (match fence_in caller missing uid' nodeRef gen with inr p => Ret p | inl ref => k ref end) d0 d h.
Proof using Type.
  intros Hc Hm -> Hk. destruct (fence_in _ _ _ _ _) as [ref|p] eqn:Ef.
  - apply fence_in_owner in Ef as (-> & _ & _ & _ & Hn). apply Hk; [symmetry; auto|done].
  - apply told_refused. destruct Hm as [p' ->]. unfold fence_in in Ef.
    repeat case_match; try case_decide; simplify_eq; by eexists.
Qed.
End told.

(** The lifetime a request names. *)
Definition call_uid (c : agent_call) : string :=
  match c with
  | PatchStatus req => spr_UID req
  | PatchCondition _ req => cpr_UID req
  | DeleteCondition _ uid _ _ => uid
  | PutSpecApplied req => srq_UID req
  | PutWorkloadStopped req | PutManagedDataQuarantined req | PutResourcesRemoved req => evr_UID req
  | PutCommittedBackup req => evr_UID (cbr_Fence req)
  | PutStanza req => evr_UID (szr_Fence req)
  | PutBackupCompletion _ req => evr_UID (cor_Fence req)
  end.

Ltac tell :=
  repeat first
    [ apply told_fence; [done|by eexists|done|]; intros ? ? ?
    | match goal with
      | |- wp _ _ (now_ ≫= _) _ _ _ => apply told_now; [done|done|]; intros ? ? ? ?
      | |- wp _ _ (getProject _ ≫= _) _ _ _ => apply told_read; [done|done|]; intros [?|?] ? ? ?
      | |- wp _ _ (Ret _) _ _ _ => apply told_refused; try (by eexists)
      | |- wp _ _ (if negb ?b then _ else _) _ _ _ =>
          destruct b eqn:?; [change (negb true) with false|change (negb false) with true]; cbv iota
      | |- wp _ _ (if decide ?P then _ else _) _ _ _ => destruct (decide P)
      | |- wp _ _ (match ?x with None => _ | Some _ => _ end) _ _ _ => destruct x eqn:?
      end ].

Lemma check_items_refuse spec name uid i items x : check_items spec name uid i items = Some x → ∃ p, x = WriteError p.
Proof.
  revert i. induction items as [|it items IH]; intros i; simpl; [done|].
  repeat case_decide; try (intros [= <-]; by eexists); destruct (negb _); try (intros [= <-]; by eexists); try apply IH.
Qed.

(** What a Node is told of any request to a writing route. *)
Lemma routes_tell `{UUIDSource} caller node name c d0 d h :
  db_inv d → others d0 d → node_caller caller = Some node →
  wp others (λ _ _, True) (agent_route caller name c) (λ x _ h', told node name (call_uid c) d0 h x h') d h.
Proof.
  intros Hinv Hd Hcaller.
  destruct c as [req|t req|t uid nodeRef raw|req|req|req|req|req|req|id req]; simpl agent_route; simpl call_uid.
  - unfold patchStatus. tell; try done. apply told_result. apply stored_fenced; try done. intros _. apply report_phase_own.
  - unfold patchCondition. tell; try done. apply told_result. apply stored_condition; try done. intros s t' Ht'.
    rewrite patched_type, decide_False; [done|]. by apply foreign_not_writable.
  - unfold deleteCondition. tell; try done. all: apply told_result; apply stored_condition; try done; intros s t' Ht';
    rewrite excluding_type, decide_False; [done|]; by apply foreign_not_writable.
  - unfold putSpecApplied. tell; try done. apply told_result. apply stored_fenced; try done. apply spec_applied_own.
  - tell; try done. apply told_result. apply stored_fenced; try done. intros _. apply workload_stopped_own.
  - tell; try done. apply told_result. 
    match goal with H1 : ref_NodeRef _ = node, H2 : ref_UID _ = _ |- _ => rewrite <- H1, <- H2 end.
    apply stored_uid; try done. intros s s' Hm Hne. right. by refine (owner_evidence_owed _ _ _ _ _ _ _ Hm Hne).
  - tell; try done. apply told_result.
    match goal with H1 : ref_NodeRef _ = node, H2 : ref_UID _ = _ |- _ => rewrite <- H1, <- H2 end.
    apply stored_uid; try done. intros s s' Hm Hne. right. by refine (owner_evidence_owed _ _ _ _ _ _ _ Hm Hne).
  - unfold putCommittedBackup. tell; try done. apply told_result. apply stored_fenced; try done. intros _. apply committed_backup_own.
  - unfold putStanza. tell; try done; try apply lookup_failed_refuses.
    apply told_result. apply stored_fenced; try done. intros _. apply stanza_record_own.
  - unfold putBackupCompletion. tell; try done; try apply lookup_failed_refuses.
    + by eapply check_items_refuse.
    + apply told_result.
      match goal with H1 : ref_NodeRef _ = node, H2 : ref_UID _ = _ |- _ => rewrite <- H1, <- H2 end.
      apply stored_uid; try done. intros s s' Hm Hne. left. destruct (backup_completion_own _ _ _ _ _ Hm Hne). by split.
Qed.

(** ** What the client makes of it *)

Section outcomes.
Context `{UUIDSource} (library : problem → Z) (status_text : Z → string) (decode_error : string)
        (rand : result (list Z)) (keys : bool) (elsewhere : ∀ k, Caller → http_request → prog (http_response (body_type k))).
Notation serve := (serve library status_text decode_error rand keys elsewhere).
Notation over := (over library status_text decode_error rand keys elsewhere).

(** The library's documented statuses: a validation error is 400, an error it does not
    know is 500. *)
Definition documented : Prop :=
  (∀ field message, library (ValidationError field message) = 400%Z) ∧ (∀ e, library (ProblemOf e) = 500%Z).

Lemma problem_status_fault e : is_fault e = true → problem_status e = None.
Proof using Type. intros He. unfold problem_status. by rewrite !fault_is_not. Qed.

(** Errors of the transport are none of the client's sentinels. *)
Definition refusal (e : failure) : bool := FIs e ErrStaleReport || FIs e ErrProjectNotFound.
Definition plain_transport (t : transport) : Prop :=
  match t with Arrives => True | Unsent e | Unanswered e => refusal e = false end.

(** [None] is a 204, and a refusal is a 409 or a 404. *)
Lemma outcome_of_status r (resp : http_response ()) :
  (outcome_of r resp = None → hp_Status resp = 204%Z) ∧
  (∀ e, outcome_of r resp = Some e → refusal e = true → hp_Status resp = 409%Z ∨ hp_Status resp = 404%Z).
Proof using Type.
  assert (∀ what, (write_outcome what resp = None → hp_Status resp = 204%Z) ∧
    (∀ e, write_outcome what resp = Some e → refusal e = true → hp_Status resp = 409%Z ∨ hp_Status resp = 404%Z)) as Hw.
  { intros what. unfold write_outcome. destruct (Z.eqb_spec (hp_Status resp) StatusConflict) as [->|_].
    { split; [done|]. intros e [= <-] _. by left. }
    destruct (Z.eqb_spec (hp_Status resp) StatusNoContent) as [->|_]; split; try done. by intros e [= <-]. }
  assert (∀ what, (evidence_outcome what resp = None → hp_Status resp = 204%Z) ∧
    (∀ e, evidence_outcome what resp = Some e → refusal e = true → hp_Status resp = 409%Z ∨ hp_Status resp = 404%Z)) as Hv.
  { intros what. unfold evidence_outcome. destruct (Z.eqb_spec (hp_Status resp) StatusNoContent) as [->|_]; [by split|].
    destruct (Z.eqb_spec (hp_Status resp) StatusConflict) as [->|_].
    { split; [done|]. intros e [= <-] _. by left. }
    destruct (Z.eqb_spec (hp_Status resp) StatusNotFound) as [->|_].
    { split; [done|]. intros e [= <-] _. by right. }
    split; [done|]. by intros e [= <-]. }
  destruct r; simpl; auto.
Qed.

(** A 204 is the handler's own; a 409 and a 404 are never the answer to a write. *)
Lemma answered_status node name uid d0 h (x : response ()) h' :
  documented → told node name uid d0 h x h' →
  let s := hp_Status (answered library status_text x) in
  (s = 204%Z → x = WriteHeader ProjectHandler.StatusNoContent) ∧ (s = 409%Z ∨ s = 404%Z → h' = h).
Proof using Type.
  intros [Hl1 Hl2] Ht s. subst s. destruct Ht as [[-> Hx]|(d1 & d2 & _ & _ & [[-> ->]|(e & -> & He & ->)])].
  - split; [|done]. destruct Hx as [[-> _]|[[f m|e] ->]]; simpl; [done|by rewrite Hl1|].
    unfold problem_status. repeat case_match; simpl; try done. by rewrite Hl2.
  - split; [done|]. by intros [].
  - simpl. rewrite problem_status_fault by done. simpl. rewrite Hl2. split; [done|by intros []].
Qed.

Lemma told_confined node name uid d0 h x h' : told node name uid d0 h x h' → confined node name h h'.
Proof using Type.
  intros [[-> _]|(d1 & d2 & _ & Hw & [[_ ->]|(e & _ & _ & ->)])]; [by left| |]; right; exists d1, d2; by auto.
Qed.

Definition client_outcome (node name uid : string) (d0 : DB) (h : list Event) (res : option failure) (h' : list Event) : Prop :=
  confined node name h h' ∧
  (res = None → (h' = h ∧ seen_lifetime name uid d0) ∨
     ∃ d1 d2, node_write node name d1 d2 ∧ h' = h ++ [Wrote d1 d2; Published TopicProjectUpdated name]) ∧
  (∀ e, res = Some e → refusal e = true → h' = h).

(** Whatever becomes of the one request of a report. *)
Lemma wp_over caller q node name uid outcome d0 h net x :
  documented →
  (∀ resp, (outcome resp = None → hp_Status resp = 204%Z) ∧
     (∀ e, outcome resp = Some e → refusal e = true → hp_Status resp = 409%Z ∨ hp_Status resp = 404%Z)) →
  wp others (λ _ _, True) (serve KNone caller q)
    (λ resp _ h', ∃ x, resp = answered library status_text x ∧ told node name uid d0 h x h') d0 h →
  Forall plain_transport net → one_request x q outcome →
  wp others (λ _ _, True) (over caller net x) (λ res _ h', client_outcome node name uid d0 h res h') d0 h.
Proof using Type.
  intros Hl Ho Hs Hnet [what ->]. unfold client_outcome. simpl.
  assert (wp others (λ _ _, True) (serve KNone caller q ≫= λ r, Ret (outcome r))
    (λ res _ h', client_outcome node name uid d0 h res h') d0 h) as Hgot.
  { apply wp_bind. eapply wp_mono; [|exact Hs]. intros resp d' h' (y & -> & Ht). apply wp_ret.
    destruct (Ho (answered library status_text y)) as [Hnone Hsome].
    destruct (answered_status _ _ _ _ _ _ _ Hl Ht) as [H204 Hrefused]. split_and!.
    - by eapply told_confined.
    - intros Hy%Hnone%H204. destruct Ht as [[-> [[_ Hseen]|[p ->]]]|(d1 & d2 & _ & Hw & [[_ ->]|(e & -> & _)])];
        [by left|done| |done]. right. by exists d1, d2.
    - intros e He Hr. by apply Hrefused, (Hsome e). }
  assert (∀ e, refusal e = false → refusal (wrap what e) = false) as Hwrap by done.
  destruct net as [|[|e|e] net]; [exact Hgot|exact Hgot| |].
  - apply Forall_cons in Hnet as [He _]. simpl in He. apply wp_ret. split_and!; [by left|done|].
    intros e' [= <-]. by rewrite (Hwrap e He).
  - apply Forall_cons in Hnet as [He _]. simpl in He. apply wp_bind. eapply wp_mono; [|exact Hs].
    intros resp d' h' (y & _ & Ht). apply wp_ret. split_and!; [by eapply told_confined|done|].
    intros e' [= <-]. by rewrite (Hwrap e He).
Qed.
End outcomes.


(** Node "a" reports its Project failed: the answer of the server arrives, is lost, or
    the request never arrives. Node "b" is refused. *)
Definition example_library (p : problem) : Z := match p with ValidationError _ _ => 400 | ProblemOf _ => 500 end.
Definition example_elsewhere (k : kind) (_ : Caller) (_ : http_request) : prog (http_response (body_type k)) :=
  Ret (plain_answer (λ _, EmptyString) 404).
Definition example_fence : AssignmentFence := {| af_UID := counter_uuid 0; af_NodeRef := "a"; af_Generation := 1 |}.
Definition example_exchange {A} (node : string) (net : list transport) (x : xchg A) : A * DB * list Event :=
  run (over (H := counter_uuids) example_library (λ _, EmptyString) EmptyString (Ok []) true example_elsewhere
         (example_node node) net x) [] (example_db (running_status "a") 3) [].
Definition example_failed : report := PhaseReport ProjectPhaseFailed "Crashed" "exited with 1".


Example answer_lost :
  let x := example_exchange "a" [Unanswered (Text "EOF")] (send_report (NewClient "a") "shop" example_fence example_failed) in
  result_of x = Some (wrap "project status request: " (Text "EOF")) ∧ length (history_of x) = 2.
Proof. vm_compute. done. Qed.
Example foreign_report :
  let x := example_exchange "b" [] (send_report (NewClient "b") "shop" example_fence example_failed) in
  result_of x = Some (Text "update project status: unexpected status 403 ") ∧ history_of x = [].
Proof. vm_compute. done. Qed.

(** A Node that may not read a Project is told it does not exist. *)
Example hidden_is_not_found :
  result_of (example_exchange "b" [] (GetProject_ (NewClient "b") "shop")) = Bad (Fails ErrProjectNotFound) ∧
  is_Some (project_at (example_db (running_status "a") 3) "shop").
Proof. vm_compute. split; [done|by eexists]. Qed.

(** ** The list of what is assigned here

    (client.go, ListProjectsAssignedToNode; authz.go, ownProjectList; handler.go,
    listProjects): the complete list, at one moment, of the Projects of this Node, and
    of no other: what the Agent takes for lost is really gone from it. *)
Theorem assigned_list_complete `{UUIDSource} (library : problem → Z) (status_text : Z → string) (decode_error : string)
    (rand : result (list Z)) (keys : bool) (elsewhere : ∀ k, Caller → http_request → prog (http_response (body_type k)))
    (caller : Caller) (c : Client) (net : list transport) (ms : list move) (d0 : DB) (ps : list Project)
    (Hcaller : node_caller caller = Some (cl_NodeName c))
    (Hname : ValidateName (cl_NodeName c) = None) (Hms : schedule_ok ms) :
  let x := run (over library status_text decode_error rand keys elsewhere caller net (ListProjectsAssignedToNode_ c)) ms d0 [] in
  result_of x = Got ps →
  ∃ d, others d0 d ∧ ps = filter (λ p, st_NodeRef (p_Status p) = cl_NodeName c) (select_projects (λ _, true) d).
Proof.
  intros x. subst x. apply valid_segment in Hname as Hseg.
  set (xs := [EmptyString; "api"; "v1"; "projects"]%string). assert (Forall plain xs) as Hpl by (by repeat constructor).
  set (q := RoundTrip c (request "GET" ("/api/v1/projects?nodeRef=" ++ cl_NodeName c)%string NoBody)).
  assert (hq_Target q = Join xs "/" ++ "?" ++ Encode [("nodeRef"%string, cl_NodeName c)])%string as Ht.
  { unfold q. rewrite hq_Target_RoundTrip. simpl. unfold Encode, pair_text. simpl.
    by rewrite (QueryEscape_unreserved (cl_NodeName c)) by apply Hseg. }
  assert (serve library status_text decode_error rand keys elsewhere KProjects caller q =
    listProjects [] (cl_NodeName c) ≫= λ x, Ret (answered library status_text x)) as Hs.
  { assert (hq_Path q = Join xs "/") as Hp by (unfold hq_Path; by rewrite Ht, (target_with_query _ _ Hpl)).
    assert (hq_Query q = [("nodeRef"%string, cl_NodeName c)]) as Hq.
    { unfold hq_Query. rewrite Ht, (target_with_query _ _ Hpl). by apply Query_Encode; repeat constructor. }
    assert (hq_Method q = "GET"%string) as Hm by (unfold q; by rewrite hq_Method_RoundTrip).
    unfold serve. rewrite Hp, Hm. change (mux "GET" (Join xs "/")) with project_list.
    unfold authorize. cbn [rq_Caller]. rewrite Hcaller. simpl. rewrite Hq. reflexivity. }
  run_wp (over library status_text decode_error rand keys elsewhere caller net (ListProjectsAssignedToNode_ c)) ms d0.
  unfold ListProjectsAssignedToNode_, exchange. fold q.
  assert (wp others (λ _ _, True) (serve library status_text decode_error rand keys elsewhere KProjects caller q)
    (λ resp _ _, ∀ l, hp_Status resp = 200%Z → hp_Body resp = Got l →
       ∃ d, others d0 d ∧ l = filter (λ p, st_NodeRef (p_Status p) = cl_NodeName c) (select_projects (λ _, true) d)) d0 []) as Hw.
  { rewrite Hs. unfold listProjects, ListProjects, list_projects. apply wp_bind, wp_bind, wp_bind, wp_query.
    - intros d1 Hd. repeat apply wp_ret. intros l _ [= <-]. exists d1. split; [done|].
      rewrite decide_True; [done|]. apply Hseg.
    - intros d1 e Hd He. repeat apply wp_ret. by intros l _ [=]. }
  simpl. destruct net as [|[|e|e] net]; [| |by apply wp_ret|].
  1,2: apply wp_bind; (eapply wp_mono; [|exact Hw]); intros resp d' h' Hr; apply wp_ret; unfold read_body;
    destruct (Z.eqb_spec (hp_Status resp) StatusOK) as [Hok|_]; [|done]; simpl;
    destruct (hp_Body resp) as [l|] eqn:El; [|done]; intros [= <-]; by apply Hr.
  apply wp_bind. eapply wp_mono; [|exact Hw]. intros resp d' h' _. by apply wp_ret.
Qed.
