(* ===== verification/Continuity.v ===== *)
(** Whether WAL archiving of a database has been continuous: the latch of
    internal/agent/pgbackup/continuity.go, kept in a file of the Node. The file is the
    state; what the host and the container's log answer is an argument of each
    operation. *)
From Stdlib Require Import ZArith Lia.
From stdpp Require Import prelude strings.
From S2P Require Import Prelude.
From S2P Require Import Strconv.
From S2P Require Import Digest.
From S2P Require Import Failures.
From S2P Require Import Engine.
From S2P Require Import Stores.
From S2P Require Import Actions.
Import GoInt GoString.
Open Scope nat_scope.

Set Default Proof Using "Type".

Definition droppedWAL : string := "dropped WAL file".

Record latch := {
  la_UID : string; la_Volume : string; la_SystemID : string; la_Timeline : string; la_ContainerID : string;
  la_Version : Z; la_Latched : bool; la_Lines : nat; la_LastHash : string
}.
#[export] Instance latch_eq_dec : EqDecision latch.
Proof. solve_decision. Defined.

Definition boundTo (l : latch) (db : PgDatabase) : bool :=
  bool_decide (la_UID l = pd_ProjectUID db) && bool_decide (la_Volume l = pd_Volume db) &&
  bool_decide (la_SystemID l = pd_SystemID db) && bool_decide (la_Timeline l = pd_Timeline db) &&
  bool_decide (la_ContainerID l = pd_ContainerID db).

Definition hashLine (line : string) : string := hex_EncodeToString (Sum256 (string_bytes line)).

(** [l.Version++; l.Latched = true], on a uint64. *)
Definition latched (l : latch) : latch :=
  {| la_UID := la_UID l; la_Volume := la_Volume l; la_SystemID := la_SystemID l; la_Timeline := la_Timeline l;
     la_ContainerID := la_ContainerID l; la_Version := (la_Version l + 1) mod 2 ^ 64; la_Latched := true;
     la_Lines := la_Lines l; la_LastHash := la_LastHash l |}.
Definition unlatched (l : latch) : latch :=
  {| la_UID := la_UID l; la_Volume := la_Volume l; la_SystemID := la_SystemID l; la_Timeline := la_Timeline l;
     la_ContainerID := la_ContainerID l; la_Version := la_Version l; la_Latched := false;
     la_Lines := la_Lines l; la_LastHash := la_LastHash l |}.
Definition at_cursor (lines : list string) (l : latch) : latch :=
  match last lines with
  | None => l
  | Some line =>
      {| la_UID := la_UID l; la_Volume := la_Volume l; la_SystemID := la_SystemID l; la_Timeline := la_Timeline l;
         la_ContainerID := la_ContainerID l; la_Version := la_Version l; la_Latched := la_Latched l;
         la_Lines := length lines; la_LastHash := hashLine line |}
  end.

Definition rebind (prev : option latch) (db : PgDatabase) : latch :=
  {| la_UID := pd_ProjectUID db; la_Volume := pd_Volume db; la_SystemID := pd_SystemID db; la_Timeline := pd_Timeline db;
     la_ContainerID := pd_ContainerID db; la_Version := match prev with Some l => la_Version l | None => 0 end;
     la_Latched := false; la_Lines := 0; la_LastHash := EmptyString |}.

Definition continues (l : latch) (lines : list string) : bool :=
  Nat.eqb (la_Lines l) 0 ||
  (Nat.leb (la_Lines l) (length lines) &&
   bool_decide (hashLine (nth (la_Lines l - 1) lines EmptyString) = la_LastHash l)).

(** *** The file

    What each step of a save answers; the steps up to the rename leave the file as it
    was. The encoding of a latch is read back as it was written. *)
Record saving := {
  sv_Mkdir : option failure; sv_Open : option failure; sv_Write : option failure; sv_Sync : option failure;
  sv_Close : option failure; sv_Rename : option failure; sv_OpenDir : option failure; sv_SyncDir : option failure
}.
Definition saved_fine : saving :=
  {| sv_Mkdir := None; sv_Open := None; sv_Write := None; sv_Sync := None; sv_Close := None; sv_Rename := None;
     sv_OpenDir := None; sv_SyncDir := None |}.
Definition option_list {A} (o : option A) : list A := match o with Some a => [a] | None => [] end.

Definition save (sv : saving) (l : latch) (file : option latch) : option latch * option failure :=
  match sv_Mkdir sv, sv_Open sv,
        errors_Join (option_list (sv_Write sv) ++ option_list (sv_Sync sv) ++ option_list (sv_Close sv)), sv_Rename sv with
  | Some e, _, _, _ => (file, Some (wrap "pgbackup: latch dir: " e))
  | None, Some e, _, _ | None, None, Some e, _ | None, None, None, Some e =>
      (file, Some (wrap "pgbackup: write latch: " e))
  | None, None, None, None =>
      (Some l, match sv_OpenDir sv with
               | Some e => Some (wrap "pgbackup: sync latch dir: " e)
               | None => sv_SyncDir sv
               end)
  end.

(** What one operation meets: an error of reading the file that is there, the log, and
    the save. *)
Record meeting := { mt_Load : option failure; mt_Log : reply (list string); mt_Save : saving }.
Definition load (mt : meeting) (file : option latch) : option latch :=
  match mt_Load mt with Some _ => None | None => file end.

(** The latch after looking at the log, before it is saved. *)
Definition looked (db : PgDatabase) (prev : option latch) (log : reply (list string)) : latch :=
  match log with
  | Bad _ => latched (rebind prev db)
  | Got lines =>
      let l :=
        match prev with
        | Some l => if boundTo l db && continues l lines then l else latched (rebind prev db)
        | None => latched (rebind None db)
        end in
      at_cursor lines (if existsb (λ line, Contains line droppedWAL) (drop (la_Lines l) lines) then latched l else l)
  end.
Definition observe (db : PgDatabase) (mt : meeting) (file : option latch)
    : option latch * (option latch * option failure) :=
  let l := looked db (load mt file) (mt_Log mt) in
  let '(file, err) := save (mt_Save mt) l file in
  (file, match err, mt_Log mt with
         | Some e, _ => (None, Some e)
         | None, Bad e => (Some l, Some (wrap ("pgbackup: read the log of " ++ pd_Service db ++ ": ")%string e))
         | None, Got _ => (Some l, None)
         end).

Definition Check_ (db : PgDatabase) (mt : meeting) (file : option latch) : option latch * (bool * Z * option failure) :=
  let '(file, (l, err)) := observe db mt file in
  (file, match l with None => (false, 0%Z, err) | Some l => (negb (la_Latched l), la_Version l, err) end).

(** [again] is the save of the cleared latch. *)
Definition FullAccepted_ (db : PgDatabase) (version : Z) (mt : meeting) (again : saving) (file : option latch)
    : option latch * option failure :=
  let '(file, (l, err)) := observe db mt file in
  match l, err with
  | Some l, None =>
      if negb (la_Latched l) || negb (Z.eqb (la_Version l) version) then (file, None)
      else save again (unlatched l) file
  | _, _ => (file, err)
  end.

(** ** The life of a latch *)

Inductive continuity_op :=
| Checks (db : PgDatabase) (mt : meeting)
| Accepts (db : PgDatabase) (version : Z) (mt : meeting) (again : saving).
Definition db_of (o : continuity_op) : PgDatabase := match o with Checks db _ | Accepts db _ _ _ => db end.
Definition meeting_of (o : continuity_op) : meeting := match o with Checks _ mt | Accepts _ _ mt _ => mt end.

Definition continuity_step (o : continuity_op) (file : option latch) : option latch :=
  match o with
  | Checks db mt => (Check_ db mt file).1
  | Accepts db version mt again => (FullAccepted_ db version mt again file).1
  end.
Definition after_ops (os : list continuity_op) (file : option latch) : option latch :=
  foldl (λ file o, continuity_step o file) file os.

(** Every latch that is in the file is read. *)
Definition readable (o : continuity_op) : Prop := mt_Load (meeting_of o) = None.
(** The save of an operation replaced the file. *)
Definition replaced (sv : saving) : bool :=
  bool_decide (sv_Mkdir sv = None ∧ sv_Open sv = None ∧ sv_Write sv = None ∧ sv_Sync sv = None ∧ sv_Close sv = None ∧
               sv_Rename sv = None).

(** [lines] is the log that ended with [prev], possibly grown, as far as the hash of
    one line tells; and what was added tells of no WAL that was dropped. *)
Definition grown (prev lines : list string) : Prop :=
  match last prev with
  | None => True
  | Some line => length prev ≤ length lines ∧ hashLine (nth (length prev - 1) lines EmptyString) = hashLine line
  end.
Definition no_drop (prev lines : list string) : Prop :=
  ∀ line, line ∈ drop (length prev) lines → Contains line droppedWAL = false.
Definition same_history (a b : PgDatabase) : Prop :=
  pd_ProjectUID a = pd_ProjectUID b ∧ pd_Volume a = pd_Volume b ∧ pd_SystemID a = pd_SystemID b ∧
  pd_Timeline a = pd_Timeline b ∧ pd_ContainerID a = pd_ContainerID b.
(** One look after the other found the log of [db] readable, continued and without a
    drop. *)
Fixpoint unbroken (db : PgDatabase) (prev : list string) (os : list continuity_op) : Prop :=
  match os with
  | [] => True
  | o :: os =>
      same_history (db_of o) db ∧
      ∃ lines, mt_Log (meeting_of o) = Got lines ∧ grown prev lines ∧ no_drop prev lines ∧ unbroken db lines os
  end.
Definition seen_lines (mt : meeting) : list string := match mt_Log mt with Got lines => lines | Bad _ => [] end.
(** The looks that reached the file. *)
Definition lasting (os : list continuity_op) : list continuity_op :=
  filter (λ o, replaced (mt_Save (meeting_of o)) = true) os.

(** *** One look *)

Definition version_of (file : option latch) : Z := match file with Some l => la_Version l | None => 0 end.
Definition cursor (l : latch) (lines : list string) : Prop :=
  la_Lines l = length lines ∧ match last lines with Some line => la_LastHash l = hashLine line | None => True end.
(** Nothing speaks against continuity since [l]. *)
Definition steady (l : latch) (db : PgDatabase) (log : reply (list string)) : Prop :=
  ∃ lines, log = Got lines ∧ boundTo l db = true ∧ continues l lines = true ∧
           existsb (λ line, Contains line droppedWAL) (drop (la_Lines l) lines) = false.

Lemma boundTo_spec l db :
  boundTo l db = true ↔
  la_UID l = pd_ProjectUID db ∧ la_Volume l = pd_Volume db ∧ la_SystemID l = pd_SystemID db ∧
  la_Timeline l = pd_Timeline db ∧ la_ContainerID l = pd_ContainerID db.
Proof. unfold boundTo. rewrite !andb_true_iff, !bool_decide_eq_true. tauto. Qed.

Lemma at_cursor_keeps lines l :
  la_Version (at_cursor lines l) = la_Version l ∧ la_Latched (at_cursor lines l) = la_Latched l ∧
  (∀ db, boundTo (at_cursor lines l) db = boundTo l db).
Proof. unfold at_cursor. by destruct (last lines). Qed.
Lemma at_cursor_cursor lines l : (lines = [] → la_Lines l = 0) → cursor (at_cursor lines l) lines.
Proof.
  intros Hl. unfold cursor, at_cursor. destruct (last lines) as [line|] eqn:E; [done|].
  apply last_None in E. subst. by rewrite (Hl eq_refl).
Qed.
Lemma latched_version l : (0 ≤ la_Version l < 2 ^ 64 - 1)%Z → la_Version (latched l) = (la_Version l + 1)%Z.
Proof. intros H. simpl. apply Z.mod_small. lia. Qed.

Lemma looked_steady db l lines :
  boundTo l db = true → continues l lines = true →
  existsb (λ line, Contains line droppedWAL) (drop (la_Lines l) lines) = false →
  looked db (Some l) (Got lines) = at_cursor lines l.
Proof. intros H1 H2 H3. unfold looked. rewrite H1, H2. simpl. by rewrite H3. Qed.

(** What a look makes of the file: it stands, or the version rises and it is latched. *)
Lemma looked_cases db file log :
  (0 ≤ version_of file < 2 ^ 64 - 2)%Z →
  let l' := looked db file log in
  boundTo l' db = true ∧ cursor l' (match log with Got lines => lines | Bad _ => [] end) ∧
  ((∃ l, file = Some l ∧ steady l db log ∧ la_Version l' = la_Version l ∧ la_Latched l' = la_Latched l) ∨
   (version_of file < la_Version l' ≤ version_of file + 2)%Z ∧ la_Latched l' = true).
Proof.
  intros Hv. cbv zeta. assert (∀ prev, version_of prev = version_of file →
    la_Version (latched (rebind prev db)) = (version_of file + 1)%Z ∧ boundTo (rebind prev db) db = true) as Hr.
  { intros prev Hp. split; [|by apply boundTo_spec]. rewrite latched_version; destruct prev; simpl in *; lia. }
  destruct log as [lines|e].
  2: { destruct (Hr file eq_refl) as [H1 H2]. unfold looked. split_and!; [done|done|]. right. rewrite H1. simpl. split; [lia|done]. }
  unfold looked. set (l := match file with Some _ => _ | None => _ end).
  assert (boundTo l db = true ∧ (lines = [] → la_Lines l = 0) ∧
    ((∃ l0, file = Some l0 ∧ l = l0 ∧ continues l lines = true) ∨
     la_Version l = (version_of file + 1)%Z ∧ la_Latched l = true)) as (Hb & Hl & Hc).
  { subst l. destruct file as [l0|].
    - destruct (boundTo l0 db && continues l0 lines) eqn:E.
      + apply andb_true_iff in E as [E1 E2]. split_and!; [done| |left; by exists l0]. intros ->. unfold continues in E2.
        simpl in E2. destruct (la_Lines l0); [done|done].
      + destruct (Hr (Some l0) eq_refl) as [H1 H2]. split_and!; [done|done|by right].
    - destruct (Hr None eq_refl) as [H1 H2]. split_and!; [done|done|by right]. }
  destruct (existsb _ _) eqn:Ed.
  - destruct (at_cursor_keeps lines (latched l)) as (H1 & H2 & H3). split_and!; [rewrite H3; exact Hb|by apply at_cursor_cursor|].
    right. rewrite H1, H2. split; [|done]. destruct Hc as [(l0 & -> & -> & _)|[Hc _]]; rewrite latched_version by (simpl in *; lia); simpl in *; lia.
  - destruct (at_cursor_keeps lines l) as (H1 & H2 & H3). split_and!; [rewrite H3; exact Hb|by apply at_cursor_cursor|].
    rewrite H1, H2. destruct Hc as [(l0 & -> & -> & Hc)|[Hc1 Hc2]]; [left|right; split; [lia|done]].
    exists l0. split_and!; try done. by exists lines.
Qed.

(** *** One operation *)

Lemma save_cases sv l file :
  if replaced sv then ∃ err, save sv l file = (Some l, err) else ∃ e, save sv l file = (file, Some e).
Proof.
  unfold replaced, save. case_bool_decide as H.
  - destruct H as (-> & -> & -> & -> & -> & ->). simpl. by eexists.
  - destruct (sv_Mkdir sv); [by eexists|]. destruct (sv_Open sv); [by eexists|].
    destruct (errors_Join _) eqn:E; [by eexists|]. apply errors_Join_None in E.
    destruct (sv_Rename sv) eqn:Er; [by eexists|]. exfalso. apply H.
    destruct (sv_Write sv), (sv_Sync sv), (sv_Close sv); done.
Qed.

Lemma continuity_step_cases o file :
  readable o →
  let l' := looked (db_of o) file (mt_Log (meeting_of o)) in
  if replaced (mt_Save (meeting_of o)) then
    continuity_step o file = Some l' ∨
    ∃ db version mt again, o = Accepts db version mt again ∧ la_Version l' = version ∧
      continuity_step o file = Some (unlatched l')
  else continuity_step o file = file.
Proof.
  unfold readable. intros Hr. cbv zeta. destruct o as [db mt|db version mt again]; simpl in *; unfold Check_, FullAccepted_, observe, load; rewrite Hr;
    set (l' := looked db file (mt_Log mt)); pose proof (save_cases (mt_Save mt) l' file) as Hs; destruct (replaced (mt_Save mt)).
  - destruct Hs as [err ->]. left. clearbody l'. by destruct err, (mt_Log mt).
  - by destruct Hs as [e ->].
  - destruct Hs as [[e|] ->]; [by left|]. clearbody l'.
    destruct (mt_Log mt) as [lines|e]; [|by left]. simpl.
    destruct (la_Latched l'); simpl; [|by left]. destruct (Z.eqb_spec (la_Version l') version) as [Hv|Hv]; simpl; [|by left].
    pose proof (save_cases again (unlatched l') (Some l')) as Ha. destruct (replaced again).
    + destruct Ha as [e ->]. right. by exists db, version, mt, again.
    + destruct Ha as [e ->]. by left.
  - by destruct Hs as [e ->].
Qed.

(** *** Sequences *)

Lemma continuity_step_version o file :
  readable o → (0 ≤ version_of file < 2 ^ 64 - 2)%Z →
  (version_of file ≤ version_of (continuity_step o file) ≤ version_of file + 2)%Z.
Proof.
  intros Hr Hv. pose proof (continuity_step_cases o file Hr) as Hs. cbv zeta in Hs.
  destruct (looked_cases (db_of o) file (mt_Log (meeting_of o)) Hv) as (_ & _ & H).
  assert (version_of file ≤ la_Version (looked (db_of o) file (mt_Log (meeting_of o))) ≤ version_of file + 2)%Z as Hl.
  { destruct H as [(l & -> & _ & -> & _)|[H _]]; simpl; lia. }
  destruct (replaced _); [|rewrite Hs; lia]. destruct Hs as [->|(db & v & mt & again & _ & _ & ->)]; simpl; lia.
Qed.
Lemma after_ops_version os file :
  Forall readable os → (0 ≤ version_of file)%Z → (version_of file + 2 * Z.of_nat (length os) < 2 ^ 64)%Z →
  (version_of file ≤ version_of (after_ops os file) ≤ version_of file + 2 * Z.of_nat (length os))%Z.
Proof.
  revert file. induction os as [|o os IH]; intros file Hr Hv Hlen; cbn [length] in *; [simpl; lia|].
  apply Forall_cons in Hr as [Ho Hos]. pose proof (continuity_step_version o file Ho ltac:(lia)) as Hs.
  specialize (IH (continuity_step o file) Hos ltac:(lia) ltac:(lia)). change (after_ops (o :: os) file) with (after_ops os (continuity_step o file)). lia.
Qed.
Lemma after_ops_positive os l :
  Forall readable os → (2 * Z.of_nat (length os) < 2 ^ 64)%Z → after_ops os None = Some l → (1 ≤ la_Version l)%Z.
Proof.
  revert l. induction os as [|o os IH] using rev_ind; intros l Hr Hlen Hl; [done|].
  apply Forall_app in Hr as [Hos Ho]. rewrite Forall_singleton in Ho. rewrite length_app in Hlen. cbn [length] in Hlen.
  pose proof (after_ops_version os None Hos ltac:(simpl; lia) ltac:(simpl; lia)) as Hv. cbn [version_of] in Hv.
  unfold after_ops in Hl, Hv. rewrite foldl_app in Hl. simpl in Hl. fold (after_ops os None) in Hl, Hv.
  pose proof (continuity_step_cases o (after_ops os None) Ho) as Hs. cbv zeta in Hs.
  destruct (looked_cases (db_of o) (after_ops os None) (mt_Log (meeting_of o)) ltac:(lia)) as (_ & _ & Hc).
  assert (1 ≤ la_Version (looked (db_of o) (after_ops os None) (mt_Log (meeting_of o))))%Z as H1.
  { destruct Hc as [(l0 & H0 & _ & -> & _)|[H _]]; [|lia]. apply IH; [done|lia|done]. }
  destruct (replaced _); [|apply IH; [done|lia|congruence]].
  destruct Hs as [Hs|(? & ? & ? & ? & _ & _ & Hs)]; rewrite Hs in Hl; injection Hl as <-; exact H1.
Qed.

(** While the version stands, the chain of looks is unbroken. *)
Lemma steady_unbroken os : ∀ file l db prev,
  file = Some l → boundTo l db = true → cursor l prev → Forall readable os →
  (0 ≤ la_Version l)%Z → (la_Version l + 2 * Z.of_nat (length os) < 2 ^ 64)%Z →
  version_of (after_ops os file) = la_Version l → unbroken db prev (lasting os).
Proof.
  induction os as [|o os IH]; intros file l db prev -> Hb [Hc1 Hc2] Hr Hv Hlen Hend; [done|].
  apply Forall_cons in Hr as [Ho Hos]. cbn [length] in Hlen.
  pose proof (continuity_step_cases o (Some l) Ho) as Hs. cbv zeta in Hs.
  pose proof (continuity_step_version o (Some l) Ho ltac:(simpl; lia)) as Hv1. simpl in Hv1.
  change (after_ops (o :: os) (Some l)) with (after_ops os (continuity_step o (Some l))) in Hend.
  unfold lasting. rewrite filter_cons. fold (lasting os). destruct (replaced (mt_Save (meeting_of o))) eqn:Er.
  2: { rewrite decide_False by done. rewrite Hs in Hend. by eapply IH; try exact Hend; try done; lia. }
  rewrite decide_True by done. pose proof (after_ops_version os (continuity_step o (Some l)) Hos ltac:(lia) ltac:(lia)) as Hm.
  destruct (looked_cases (db_of o) (Some l) (mt_Log (meeting_of o)) ltac:(simpl; lia)) as (Hb' & Hcur & Hcase).
  set (l' := looked _ _ _) in *.
  assert (∃ l2, continuity_step o (Some l) = Some l2 ∧ la_Version l2 = la_Version l' ∧ boundTo l2 (db_of o) = true ∧
    cursor l2 (match mt_Log (meeting_of o) with Got lines => lines | Bad _ => [] end)) as (l2 & Hl2 & Hver & Hb2 & Hcur2).
  { destruct Hs as [->|(? & ? & ? & ? & _ & _ & ->)]; [by exists l'|by exists (unlatched l')]. }
  rewrite Hl2 in Hend, Hm. simpl in Hm.
  destruct Hcase as [(l0 & [= <-] & (lines & Hlog & Hbo & Hcont & Hdrop) & Hver' & _)|[Hgap _]]; [|simpl in Hgap; lia].
  rewrite Hlog in Hcur2. simpl. assert (same_history (db_of o) db) as Hsame.
  { apply boundTo_spec in Hb as (?&?&?&?&?), Hbo as (?&?&?&?&?). unfold same_history. split_and!; congruence. }
  split; [exact Hsame|]. exists lines. split; [done|]. split; [|split].
  - unfold grown. destruct (last prev) as [line|] eqn:El; [|done]. unfold continues in Hcont. rewrite Hc1, Hc2 in Hcont.
    apply orb_true_iff in Hcont as [H0|H1].
    + apply Nat.eqb_eq in H0. destruct prev; [done|by simpl in H0].
    + apply andb_true_iff in H1 as [H1%Nat.leb_le H2%bool_decide_eq_true]. done.
  - intros line Hin. rewrite Hc1 in Hdrop. destruct (Contains line droppedWAL) eqn:Ec; [|done].
    rewrite <- not_true_iff_false in Hdrop. destruct Hdrop. apply existsb_exists. exists line. split; [by apply list_elem_of_In|done].
  - eapply (IH (Some l2) l2); try done; [|lia|lia|lia].
    apply boundTo_spec. apply boundTo_spec in Hb2. destruct Hsame as (<- & <- & <- & <- & <-). exact Hb2.
Qed.

(** An open latch was opened by an accepted full of its version. *)
Lemma open_was_accepted os : ∀ l,
  Forall readable os → (2 * Z.of_nat (length os) < 2 ^ 64)%Z → after_ops os None = Some l → la_Latched l = false →
  ∃ db mt again, Accepts db (la_Version l) mt again ∈ os.
Proof.
  induction os as [|o os IH] using rev_ind; intros l Hr Hlen Hl Hopen; [done|].
  apply Forall_app in Hr as [Hos Ho]. rewrite Forall_singleton in Ho. rewrite length_app in Hlen. cbn [length] in Hlen.
  pose proof (after_ops_version os None Hos ltac:(simpl; lia) ltac:(simpl; lia)) as Hv. simpl in Hv.
  unfold after_ops in Hl, Hv. rewrite foldl_app in Hl. simpl in Hl. fold (after_ops os None) in Hl, Hv.
  assert (∀ l', after_ops os None = Some l' → la_Latched l' = false → la_Version l' = la_Version l →
    ∃ db mt again, Accepts db (la_Version l) mt again ∈ os ++ [o]) as Hbefore.
  { intros l' H1 H2 H3. destruct (IH l' Hos ltac:(lia) H1 H2) as (db & mt & again & Hin). exists db, mt, again.
    rewrite <- H3. apply elem_of_app. by left. }
  pose proof (continuity_step_cases o (after_ops os None) Ho) as Hs. cbv zeta in Hs. destruct (replaced _).
  - destruct Hs as [Hs|(db & v & mt & again & -> & Hver & Hs)]; rewrite Hs in Hl; injection Hl as <-.
    + destruct (looked_cases (db_of o) (after_ops os None) (mt_Log (meeting_of o)) ltac:(lia)) as (_ & _ & [(l0 & H0 & _ & H1 & H2)|[_ H]]);
        [|congruence]. by apply (Hbefore l0); congruence.
    + exists db, mt, again. apply elem_of_app. right. apply list_elem_of_singleton. f_equal. exact Hver.
  - rewrite Hs in Hl. by apply (Hbefore l).
Qed.

(** What a Check that answers a version saved; and what it read when it answers that
    continuity is known. *)
Lemma check_answered db mt file known version err :
  mt_Load mt = None → (0 ≤ version_of file < 2 ^ 64 - 2)%Z → (1 ≤ version)%Z →
  (Check_ db mt file).2 = (known, version, err) →
  ∃ l, (Check_ db mt file).1 = Some l ∧ la_Version l = version ∧ boundTo l db = true ∧ cursor l (seen_lines mt).
Proof.
  intros Hr Hv Hpos. destruct (looked_cases db file (mt_Log mt) Hv) as (Hb & Hcur & _).
  unfold Check_, observe, load. rewrite Hr. set (l' := looked db file (mt_Log mt)) in *. fold (seen_lines mt) in Hcur. clearbody l'.
  pose proof (save_cases (mt_Save mt) l' file) as Hs. destruct (replaced (mt_Save mt)).
  2: { destruct Hs as [e ->]. intros [= _ H _]. lia. }
  destruct Hs as [e ->]. destruct e; [intros [= _ H _]; lia|]. destruct (mt_Log mt); simpl; intros [= _ H _]; by exists l'.
Qed.
Lemma check_known db mt file version err :
  mt_Load mt = None → (0 ≤ version_of file < 2 ^ 64 - 2)%Z →
  (Check_ db mt file).2 = (true, version, err) →
  ∃ l, file = Some l ∧ la_Latched l = false ∧ la_Version l = version ∧ version_of (Check_ db mt file).1 = version.
Proof.
  intros Hr Hv. destruct (looked_cases db file (mt_Log mt) Hv) as (_ & _ & Hc).
  unfold Check_, observe, load. rewrite Hr. set (l' := looked db file (mt_Log mt)) in *. clearbody l'.
  pose proof (save_cases (mt_Save mt) l' file) as Hs. destruct (replaced (mt_Save mt)); destruct Hs as [e ->]; [|by intros [=]].
  destruct e; [by intros [=]|]. destruct Hc as [(l & -> & (lines & -> & _) & H1 & H2)|[_ H]].
  - simpl. intros [= Hk Hver _]. apply negb_true_iff in Hk. exists l. split_and!; congruence.
  - destruct (mt_Log mt); simpl; rewrite H; by intros [=].
Qed.

(** C0 (pgbackup/continuity.go, FileContinuity): continuity is called known only where
    it was observed. Take any sequence of Checks and accepted fulls of one database,
    whatever its log answered and whatever saves failed, from no latch at all, as long
    as a latch that is there can be read. If a Check answers that continuity is known,
    at some version, then a full that started at that version was accepted before; and
    every look since any earlier Check that answered this version, the one of that full
    included, found the same container and data history, a log that continued from the
    look before, and no line about dropped WAL in what was added. *)
Theorem continuity_is_proven (before middle : list continuity_op) (db db' : PgDatabase) (mt mt' : meeting)
    (known : bool) (version : Z) (err err' : option failure)
    (Hread : Forall readable (before ++ Checks db mt :: middle ++ [Checks db' mt']))
    (Hlen : (2 * Z.of_nat (length (before ++ Checks db mt :: middle ++ [Checks db' mt'])) < 2 ^ 64)%Z)
    (Hfirst : (Check_ db mt (after_ops before None)).2 = (known, version, err))
    (Hlast : (Check_ db' mt' (after_ops (before ++ Checks db mt :: middle) None)).2 = (true, version, err')) :
  (∃ db0 mt0 again, Accepts db0 version mt0 again ∈ before ++ middle) ∧
  unbroken db (seen_lines mt) (lasting (middle ++ [Checks db' mt'])).
Proof.
  apply Forall_app in Hread as [Hrb Hr]. apply Forall_cons in Hr as [Hr1 Hr]. apply Forall_app in Hr as [Hrm Hr2].
  rewrite Forall_singleton in Hr2. rewrite length_app in Hlen. simpl in Hlen. rewrite length_app in Hlen. cbn [length] in Hlen.
  set (f1 := after_ops before None) in *. set (f2 := continuity_step (Checks db mt) f1).
  assert (after_ops (before ++ Checks db mt :: middle) None = after_ops middle f2) as Hf3.
  { unfold after_ops. by rewrite foldl_app. }
  rewrite Hf3 in Hlast. set (f3 := after_ops middle f2) in *.
  pose proof (after_ops_version before None Hrb ltac:(simpl; lia) ltac:(simpl; lia)) as Hv1. fold f1 in Hv1. simpl in Hv1.
  pose proof (continuity_step_version (Checks db mt) f1 Hr1 ltac:(lia)) as Hv2. fold f2 in Hv2.
  pose proof (after_ops_version middle f2 Hrm ltac:(lia) ltac:(lia)) as Hv3. fold f3 in Hv3.
  destruct (check_known db' mt' f3 version err' Hr2 ltac:(lia) Hlast) as (l3 & Hl3 & Hopen & Hver3 & Hend).
  assert (1 ≤ version)%Z as Hpos.
  { rewrite <- Hver3. apply (after_ops_positive (before ++ Checks db mt :: middle)).
    - apply Forall_app. split; [done|]. by constructor.
    - rewrite length_app. cbn [length]. lia.
    - by rewrite Hf3. }
  split.
  - destruct (open_was_accepted (before ++ Checks db mt :: middle) l3) as (db0 & mt0 & again & Hin).
    + apply Forall_app. split; [done|]. by constructor.
    + rewrite length_app. cbn [length]. lia.
    + by rewrite Hf3.
    + done.
    + exists db0, mt0, again. rewrite Hver3 in Hin. apply elem_of_app in Hin. apply elem_of_app.
      destruct Hin as [?|[?|?]%elem_of_cons]; [by left|done|by right].
  - destruct (check_answered db mt f1 known version err Hr1 ltac:(lia) Hpos Hfirst) as (l2 & Hl2 & Hver2 & Hb2 & Hcur2).
    change (f2 = Some l2) in Hl2.
    eapply (steady_unbroken _ f2 l2); try done; [by apply Forall_app; split; [done|apply Forall_singleton]|lia| |].
    + rewrite length_app. cbn [length]. rewrite Hl2 in Hv2. cbn [version_of] in Hv2. lia.
    + unfold after_ops. rewrite foldl_app. change (version_of (Check_ db' mt' f3).1 = la_Version l2).
      by rewrite Hend, Hver2.
Qed.

Definition example_db : PgDatabase :=
  {| pd_ProjectUID := "u"; pd_Volume := "db"; pd_Service := "postgres"; pd_Stanza := "u-db"; pd_ContainerID := "c1";
     pd_SystemID := "7"; pd_Timeline := "00000001" |}.
Definition meeting_at (lines : list string) : meeting :=
  {| mt_Load := None; mt_Log := Got lines; mt_Save := saved_fine |}.

(** A first Check latches; the full that started then is accepted; the log grew without
    a drop. *)
Lemma continuity_is_proven_witness :
  let started := ["1 ready"]%string in
  let done_ := ["1 ready"; "2 checkpoint"]%string in
  (Check_ example_db (meeting_at started) None).2 = (false, 1%Z, None) ∧
  unbroken example_db started [Accepts example_db 1 (meeting_at done_) saved_fine; Checks example_db (meeting_at done_)].
Proof.
  cbv zeta. split; [vm_compute; reflexivity|].
  refine (proj2 (continuity_is_proven []
    [Accepts example_db 1 (meeting_at ["1 ready"; "2 checkpoint"]%string) saved_fine] example_db example_db
    (meeting_at ["1 ready"]%string) (meeting_at ["1 ready"; "2 checkpoint"]%string) false 1 None None _ _ _ _)).
  - repeat constructor.
  - vm_compute. reflexivity.
  - vm_compute. reflexivity.
  - vm_compute. reflexivity.
Defined.

(** The version is said to only grow. When the latch cannot be read once, it starts
    again: the full that started at version 1 clears the latch although the log was
    rotated while it ran, which the same look with a readable latch remembers. *)
Example version_starts_again :
  let rotated fails := {| mt_Load := fails; mt_Log := Got ["9 checkpoint"]%string; mt_Save := saved_fine |} in
  let session fails :=
    after_ops [Checks example_db (meeting_at ["1 ready"; "2 ready"]%string); Accepts example_db 1 (rotated fails) saved_fine] None in
  (Check_ example_db (rotated None) (session (Some (Text "input/output error")))).2 = (true, 1%Z, None) ∧
  (Check_ example_db (rotated None) (session None)).2 = (false, 2%Z, None).
Proof. split; vm_compute; reflexivity. Qed.
