(* ===== verification/System.v ===== *)
(** The whole control plane: any number of operations in flight, of every kind
    the API and the controllers start, interleaved statement by statement over one
    database, with statements that fail, writes whose acknowledgement is lost, and
    servers that stop at any point.

    Every operation keeps its contract among any others that keep theirs
    ([safe], proved in the files of the operations); here the contracts are
    composed into theorems about every execution. *)
From Stdlib Require Import ZArith Lia.
From stdpp Require Import prelude gmap strings relations.
From S2P Require Import Prelude.
From S2P Require Import Conditions.
From S2P Require Import ProjectTypes.
From S2P Require Import Lifecycle.
From S2P Require Import NodeTypes.
From S2P Require Import Digest.
From S2P Require Import AccessTypes.
From S2P Require Import Database.
From S2P Require Import Evolution.
From S2P Require Import StatusStore.
From S2P Require Import Legality.
From S2P Require Import ProjectStore.
From S2P Require Import NodeStore.
From S2P Require Import AccessStore.
From S2P Require Import Authz.
From S2P Require Import Authentication.
From S2P Require Import Adapter.
From S2P Require Import Recovery.
From S2P Require Import Scheduler.
From S2P Require Import ProjectHandler.
From S2P Require Import TokenRoutes.
From S2P Require Import NodeRoutes.
From S2P Require Import SecretRoutes.
From S2P Require Import OverlayRoutes.
From S2P Require Import AgentRoutes.
Import GoTime GoInt GoError.
Open Scope nat_scope.
Open Scope go_scope.

Section system.
Context `{UUIDSource}.

(** ** Operations *)

(** An operation in flight; nobody waits for its answer here. *)
Definition thread : Type := prog ().
Definition detach {A} (p : prog A) : thread := p ≫= λ _, Ret ().

(** What the API server and the controllers may start, forced deletion aside. *)
Inductive operation : thread → Prop :=
| op_create img project : operation (detach (createProject img project))
| op_update img name project : operation (detach (updateProject img name project))
| op_restart name : operation (detach (restartProject name))
| op_delete name : operation (detach (deleteProject name false))
| op_takeover caller name req : operation (detach (postTakeover caller name req))
| op_agent caller name call : operation (detach (agent_route caller name call))
| op_request bg r : operation (detach (Handler bg r))
| op_get name : operation (detach (getProject_handler name))
| op_create_node caller node : operation (detach (createNode caller node))
| op_update_node name node : operation (detach (updateNode name node))
| op_heartbeat keys name req : operation (detach (heartbeat keys name req))
| op_node_state name state reason message :
    operation (detach (SetNodeState name state reason message))
| op_delete_node name : operation (detach (deleteNode name))
| op_list_nodes : operation (detach listNodes)
| op_get_node name : operation (detach (getNode_handler name))
| op_obligations name : operation (detach (listCleanupObligations name))
| op_probe dialer http name : operation (detach (probe dialer http name))
| op_create_token rand caller req : operation (detach (createToken rand caller req))
| op_list_tokens caller : operation (detach (listTokens caller))
| op_revoke_token caller id : operation (detach (revokeToken caller id))
| op_create_join_token rand caller name req : operation (detach (createJoinToken rand caller name req))
| op_join rand name authorization : operation (detach (joinNode rand name authorization))
| op_revoke_node_tokens caller name : operation (detach (revokeNodeTokens caller name))
| op_create_secret s : operation (detach (createSecret s))
| op_update_secret name s : operation (detach (updateSecret name s))
| op_list_secrets : operation (detach listSecrets)
| op_get_secret name : operation (detach (getSecret name))
| op_delete_secret name : operation (detach (deleteSecret name))
| op_preauth_key hs user keys req : operation (detach (createPreAuthKey hs user keys req))
| op_revoke_node hs cancelled name : operation (detach (revokeNode hs cancelled name))
| op_schedule name node : node ≠ EmptyString → operation (detach (SetProjectScheduled name node))
| op_scheduling_blocked name reason message : operation (detach (SetSchedulingBlocked name reason message))
| op_release grace p : snap_NodeRef p ≠ EmptyString → operation (detach (ReleaseAssignment grace p))
| op_move_failed p message : snap_NodeRef p ≠ EmptyString → operation (detach (MoveFailedProject p message))
| op_finalize name uid : operation (detach (adapter_FinalizeProject name uid))
| op_finalization_blocked name uid reason : operation (detach (SetFinalizationBlocked name uid reason))
| op_terminating_at name t : operation (detach (SetTerminatingAt name t))
| op_not_ready_at name t : operation (detach (SetNotReadyAt name t))
| op_termination_blocked name node t : operation (detach (SetTerminationBlocked name node t))
| op_exhausted name message : operation (detach (SetRescheduleExhausted name message))
| op_clear_failed name : operation (detach (ClearFailedNodes name))
| op_clear_clocks name node t : operation (detach (ClearRescheduleClocks name node t))
| op_scheduler name : operation (detach (scheduler_Reconcile name))
| op_node_health name : operation (detach (node_health_Reconcile name))
| op_rescheduler c name : operation (detach (rescheduler_Reconcile c name))
| op_failed_rescheduler name : operation (detach (failed_Reconcile name))
| op_termination name : operation (detach (termination_Reconcile name)).

Lemma safe_detach {A} Rel (p : prog A) :
  (∀ d1 d2 d3, Rel d1 d2 → Rel d2 d3 → Rel d1 d3) → (∀ d d', Rel d d' → others d d') →
  safe Rel p → safe Rel (detach p).
Proof. intros ?? Hp. apply safe_bind; [done|]. intros a. apply safe_ret. Qed.

Lemma safe_get name : safe others (getProject_handler name).
Proof. apply safe_bind; [by apply safe_getProject|intros; apply safe_ret]. Qed.

Lemma operation_safe life p : operation p → safe (steady life) p.
Proof.
  assert (∀ A (p : prog A), safe (steady life) p → safe (steady life) (detach p)) as Hd
    by (intros; apply safe_detach; eauto with cara).
  assert (∀ A (p : prog A), safe others p → safe (steady life) (detach p)) as Ho
    by (intros; apply Hd, safe_steady; done).
  destruct 1; first [by apply Ho; auto using safe_createProject, safe_updateProject, safe_restartProject,
      safe_deleteProject, safe_postTakeover, safe_agent_route, safe_Handler, safe_get, safe_createNode,
      safe_updateNode, safe_heartbeat, safe_SetNodeState, safe_deleteNode, safe_listNodes,
      safe_getNode_handler, safe_listCleanupObligations, safe_probe, safe_createToken, safe_listTokens,
      safe_revokeToken, safe_createJoinToken, safe_joinNode, safe_revokeNodeTokens, safe_createSecret,
      safe_updateSecret, safe_listSecrets, safe_getSecret, safe_deleteSecret, safe_createPreAuthKey,
      safe_revokeNode,
      safe_ReleaseAssignment, safe_MoveFailedProject, safe_FinalizeProject_blocker,
      safe_SetFinalizationBlocked
    |by apply Hd; auto using safe_SetProjectScheduled, safe_SetSchedulingBlocked, safe_SetTerminatingAt,
      safe_SetNotReadyAt, safe_SetTerminationBlocked, safe_SetRescheduleExhausted,
      safe_ClearFailedNodes, safe_ClearRescheduleClocks, safe_scheduler, safe_node_health,
      safe_rescheduler_Reconcile, safe_failed_Reconcile, safe_termination_Reconcile].
Qed.

(** ** Executions *)

(** One step of one operation. *)
Inductive tstep (d : DB) : thread → DB → thread → Prop :=
| ts_query (R : Set) q (k : result R → thread) : tstep d (Query R q k) d (k (q d))
| ts_query_fails (R : Set) q (k : result R → thread) e :
    is_fault e = true → tstep d (Query R q k) d (k (Err e))
| ts_exec (R : Set) q (k : result R → thread) r d' :
    q d = Ok (r, Some d') → tstep d (Exec R q k) d' (k (Ok r))
| ts_exec_unacked (R : Set) q (k : result R → thread) r d' e :
    q d = Ok (r, Some d') → is_fault e = true → tstep d (Exec R q k) d' (k (Err e))
| ts_exec_none (R : Set) q (k : result R → thread) r :
    q d = Ok (r, None) → tstep d (Exec R q k) d (k (Ok r))
| ts_exec_error (R : Set) q (k : result R → thread) e :
    q d = Err e → tstep d (Exec R q k) d (k (Err e))
| ts_exec_fails (R : Set) q (k : result R → thread) e :
    is_fault e = true → tstep d (Exec R q k) d (k (Err e))
| ts_now k t : tstep d (Now k) d (k t)
| ts_publish topic name k : tstep d (Publish topic name k) d k.

Record config := { cf_DB : DB; cf_Threads : list thread }.

Inductive step : config → config → Prop :=
| step_start d ts p : operation p →
    step {| cf_DB := d; cf_Threads := ts |} {| cf_DB := d; cf_Threads := p :: ts |}
| step_run d d' ts1 p p' ts2 : tstep d p d' p' →
    step {| cf_DB := d; cf_Threads := ts1 ++ p :: ts2 |}
         {| cf_DB := d'; cf_Threads := ts1 ++ p' :: ts2 |}
| step_stop d ts1 p ts2 :
    step {| cf_DB := d; cf_Threads := ts1 ++ p :: ts2 |} {| cf_DB := d; cf_Threads := ts1 ++ ts2 |}.

(** The executions in which no name is given to a second lifetime. *)
Inductive execution (life : string * string → string) (c0 : config) : config → Prop :=
| ex_start : named life (cf_DB c0) → execution life c0 c0
| ex_step c c' : execution life c0 c → step c c' → named life (cf_DB c') → execution life c0 c'.

(** ** The invariant of an execution *)

Definition thread_ok (life : string * string → string) (d : DB) (p : thread) : Prop :=
  ∃ h, wp (steady life) others_unforced p (λ _ _ _, True) d h.

Definition config_ok (life : string * string → string) (c : config) : Prop :=
  db_inv (cf_DB c) ∧ named life (cf_DB c) ∧ Forall (thread_ok life (cf_DB c)) (cf_Threads c).

(** What a thread may still do survives a step of the others. *)
Lemma wp_stable {A} (Rel G : DB → DB → Prop) (p : prog A) d d' h :
  (∀ d1 d2 d3, Rel d1 d2 → Rel d2 d3 → Rel d1 d3) → Rel d d' →
  wp Rel G p (λ _ _ _, True) d h → wp Rel G p (λ _ _ _, True) d' h.
Proof.
  intros Htrans Hd. revert h.
  induction p as [a|R q k IH|R q k IH|k IH|t n k IH]; intros h Hw; simpl in *; eauto.
  - intros d1 Hd1. apply Hw. eauto.
  - intros d1 Hd1. apply Hw. eauto.
  - intros t d1 Hd1. apply Hw. eauto.
Qed.

Lemma tstep_wp (Rel G : DB → DB → Prop) p d d' p' h :
  Rel d d → tstep d p d' p' → wp Rel G p (λ _ _ _, True) d h →
  (d' = d ∨ G d d') ∧ ∃ h', wp Rel G p' (λ _ _ _, True) d' h'.
Proof.
  intros Hrefl Hs Hw.
  destruct Hs as [R q k|R q k e He|R q k r d' Hq|R q k r d' e Hq He|R q k r Hq|R q k e Hq|R q k e He|k t|t n k].
  - destruct (Hw d Hrefl) as [H1 _]. split; [by left|by eexists].
  - destruct (Hw d Hrefl) as [_ H1]. split; [by left|eexists; by apply H1].
  - destruct (Hw d Hrefl) as [_ H1]. rewrite Hq in H1. destruct H1 as (? & ? & _).
    split; [by right|by eexists].
  - destruct (Hw d Hrefl) as [_ H1]. rewrite Hq in H1. destruct H1 as (? & _ & H1).
    split; [by right|eexists; by apply H1].
  - destruct (Hw d Hrefl) as [_ H1]. rewrite Hq in H1. split; [by left|by eexists].
  - destruct (Hw d Hrefl) as [_ H1]. rewrite Hq in H1. split; [by left|by eexists].
  - destruct (Hw d Hrefl) as [H1 _]. split; [by left|eexists; by apply H1].
  - split; [by left|eexists; by apply (Hw t d)].
  - split; [by left|by eexists].
Qed.

(** A step keeps the invariant, and writes at most what a writer may. *)
Lemma step_ok life c c' :
  config_ok life c → step c c' → named life (cf_DB c') →
  others_unforced (cf_DB c) (cf_DB c') ∧ config_ok life c'.
Proof.
  intros (Hinv & Hname & Hts) Hs Hname'. destruct Hs as [d ts p Hop|d d' ts1 p p' ts2 Hp|d ts1 p ts2];
    simpl in *.
  - split; [apply others_unforced_refl|]. split_and!; simpl; try done. constructor; [|done].
    exists []. eapply wp_mono; [|by apply operation_safe]. done.
  - apply Forall_app in Hts as [H1 [(h & Hw) H2]%Forall_cons].
    assert (steady life d d) as Hrefl by (by split).
    destruct (tstep_wp _ _ _ _ _ _ _ Hrefl Hp Hw) as [HG Hw'].
    assert (others_unforced d d') as Hunf by (destruct HG as [->|?]; [apply others_unforced_refl|done]).
    split; [done|]. destruct Hunf as [Hoth _].
    assert (Hst : steady life d d') by (by split).
    assert (∀ ts, Forall (thread_ok life d) ts → Forall (thread_ok life d') ts) as Hmono.
    { intros ts Hok. eapply Forall_impl; [exact Hok|]. intros t (h' & Ht). exists h'.
      eapply wp_stable; [|exact Hst|exact Ht]. eauto with cara. }
    split_and!; simpl; [by apply Hoth|done|]. apply Forall_app. split; [auto|]. constructor; auto.
  - split; [apply others_unforced_refl|]. split_and!; simpl; try done.
    apply Forall_app in Hts as [H1 [_ H2]%Forall_cons]. by apply Forall_app.
Qed.

Lemma execution_ok life c0 c :
  config_ok life c0 → execution life c0 c → others (cf_DB c0) (cf_DB c) ∧ config_ok life c.
Proof.
  intros H0. induction 1 as [|c c' He IH Hs Hn]; [by split|].
  destruct (step_ok life c c' (proj2 IH) Hs Hn) as [[Ho _] Hok].
  split; [|done]. trans (cf_DB c); [apply IH|done].
Qed.

Lemma idle_ok life d : db_inv d → named life d → config_ok life {| cf_DB := d; cf_Threads := [] |}.
Proof. intros. by split_and!. Qed.

(** Two moments of one execution. *)
Lemma execution_trans life c0 c1 c2 : execution life c0 c1 → execution life c1 c2 → execution life c0 c2.
Proof. intros H1. induction 1; [done|]. by eapply ex_step. Qed.

(** The record of a name, at two moments of one execution. *)
Lemma record_evolves life d0 c1 c2 key r1 r2 :
  db_inv d0 → execution life {| cf_DB := d0; cf_Threads := [] |} c1 → execution life c1 c2 →
  db_Projects (cf_DB c1) !! key = Some r1 → db_Projects (cf_DB c2) !! key = Some r2 →
  row_UID r2 = row_UID r1 ∧ row_evolves r1 r2.
Proof.
  intros Hinv H01 H12 Hr1 Hr2.
  assert (named life d0) as Hn0 by (clear -H01; by induction H01).
  destruct (execution_ok life _ _ (idle_ok life d0 Hinv Hn0) H01) as [_ Hok1].
  destruct (execution_ok life _ _ Hok1 H12) as [[Hev _] (_ & Hn2 & _)].
  destruct Hok1 as (Hinv1 & Hn1 & _).
  assert (row_UID r2 = row_UID r1) as Hu by (by rewrite (Hn1 _ _ Hr1), (Hn2 _ _ Hr2)).
  split; [done|]. destruct (same_lifetime _ _ key r2 Hev) as (r & Hr & He); [|done|].
  - rewrite Hu. by apply (Hinv1 _ _ Hr1).
  - rewrite Hr1 in Hr. by injection Hr as <-.
Qed.

(** ** Properties *)

(** C1 (the whole server): a Project's record outlives every assignment it was
    ever given. In any execution of any number of concurrent operations, with
    failures, lost acknowledgements and servers stopping anywhere, in which names
    are not reused and nobody forces a deletion, the step that makes a record
    disappear finds it with a cleanup obligation for every generation from 1 to
    the last, each carrying ResourcesRemoved evidence; every other step leaves
    the record of that lifetime in place. *)
Theorem records_outlive_assignments (life : string * string → string) (d0 : DB) (c c' : config)
    (key : string * string) (r : ProjectRow)
    (Hinv : db_inv d0)
    (Hexec : execution life {| cf_DB := d0; cf_Threads := [] |} c)
    (Hstep : step c c') (Hnames : named life (cf_DB c'))
    (Hr : db_Projects (cf_DB c) !! key = Some r) :
  (∃ r', db_Projects (cf_DB c') !! key = Some r' ∧ row_UID r' = row_UID r ∧ row_evolves r r') ∨
  (db_Projects (cf_DB c') !! key = None ∧
   ∀ g, (1 ≤ g ≤ st_AssignmentGeneration (row_status r))%Z →
     ∃ o, o ∈ obligations (row_status r) ∧ ai_Generation (ob_Assignment o) = g ∧
          ProjectUID (ob_Assignment o) = row_UID r ∧ ob_ResourcesRemoved o ≠ None).
Proof.
  assert (named life d0) as Hn0 by (clear -Hexec; by induction Hexec).
  destruct (execution_ok life _ _ (idle_ok life d0 Hinv Hn0) Hexec) as [_ Hok].
  destruct (step_ok life c c' Hok Hstep Hnames) as [[[Hev _] Hfin] _].
  destruct Hok as (Hinvc & Hnc & _). destruct (Hinvc _ _ Hr) as [Hri Hiss].
  destruct (db_Projects (cf_DB c') !! key) as [r'|] eqn:Er'.
  - left. exists r'. assert (row_UID r' = row_UID r) as Hu
      by (by rewrite (Hnames _ _ Er'), (Hnc _ _ Hr)).
    split; [done|]. split; [done|].
    destruct (same_lifetime _ _ key r' Hev) as (r0 & Hr0 & He); [by rewrite Hu|done|].
    rewrite Hr in Hr0. by injection Hr0 as <-.
  - right. split; [done|]. intros g Hg. destruct (Hfin key r Hr) as [(r' & Hr' & _)|Hrm]; [congruence|].
    destruct (removable_complete r g Hri Hrm Hg) as (o & Ho & Hog & Hrr).
    exists o. split_and!; try done. by apply (si_lifetime _ _ (ri_status _ Hri)).
Qed.

(** C2 (the whole server): an assignment generation names one Node, for ever. At
    any two moments of an execution, if the record of a lifetime is assigned both
    times and the generation is the same, so is the Node; and an assignment that is
    gone has left its cleanup obligation behind. *)
Theorem generation_names_one_node (life : string * string → string) (d0 : DB) (c1 c2 : config)
    (key : string * string) (r1 r2 : ProjectRow)
    (Hinv : db_inv d0)
    (Hexec1 : execution life {| cf_DB := d0; cf_Threads := [] |} c1) (Hexec2 : execution life c1 c2)
    (Hr1 : db_Projects (cf_DB c1) !! key = Some r1) (Hr2 : db_Projects (cf_DB c2) !! key = Some r2)
    (Hassigned : st_NodeRef (row_status r1) ≠ EmptyString) :
  let a := assignment_of (row_UID r1) (row_status r1) in
  (st_AssignmentGeneration (row_status r1) ≤ st_AssignmentGeneration (row_status r2))%Z ∧
  (st_AssignmentGeneration (row_status r2) = st_AssignmentGeneration (row_status r1) →
   st_NodeRef (row_status r2) ≠ EmptyString → st_NodeRef (row_status r2) = st_NodeRef (row_status r1)) ∧
  (assignment_of (row_UID r2) (row_status r2) = a ∨
   is_Some (FindObligation (st_Recovery (row_status r2)) a)).
Proof.
  intros a. destruct (record_evolves life d0 c1 c2 key r1 r2 Hinv Hexec1 Hexec2 Hr1 Hr2) as [Hu He].
  destruct (re_status _ _ He) as [Hg Hh _ Hrel _ _ _ _ _]. split; [done|]. split.
  - intros Heq Hn. by destruct (Hh Heq).
  - rewrite Hu. by apply Hrel.
Qed.

(** C3 (the whole server): a cleanup obligation is a promise that is kept. Once
    recorded it stays on the record of that lifetime for as long as the record
    exists, whatever runs meanwhile: it is about the same assignment, its release
    time is the same, and evidence it has been given is never taken back or
    overwritten. *)
Theorem obligations_are_kept (life : string * string → string) (d0 : DB) (c1 c2 : config)
    (key : string * string) (r1 r2 : ProjectRow) (a : AssignmentIdentity) (o : CleanupObligation)
    (Hinv : db_inv d0)
    (Hexec1 : execution life {| cf_DB := d0; cf_Threads := [] |} c1) (Hexec2 : execution life c1 c2)
    (Hr1 : db_Projects (cf_DB c1) !! key = Some r1) (Hr2 : db_Projects (cf_DB c2) !! key = Some r2)
    (Ho : FindObligation (st_Recovery (row_status r1)) a = Some o) :
  ∃ o', FindObligation (st_Recovery (row_status r2)) a = Some o' ∧
    ob_Assignment o' = ob_Assignment o ∧ ob_ReleasedAt o' = ob_ReleasedAt o ∧
    (∀ e, ob_ResourcesRemoved o = Some e → ob_ResourcesRemoved o' = Some e) ∧
    (∀ e, ob_ManagedDataQuarantined o = Some e → ob_ManagedDataQuarantined o' = Some e).
Proof.
  destruct (record_evolves life d0 c1 c2 key r1 r2 Hinv Hexec1 Hexec2 Hr1 Hr2) as [Hu He].
  destruct (se_obligations _ _ _ (re_status _ _ He) a o Ho) as (o' & Ho' & []). eauto 10.
Qed.

(** C4 (the whole server): deletion is final. Once a Project is Terminating or
    Terminated it stays so, no new assignment is granted to it, and Terminated is
    never left. *)
Theorem deletion_is_final (life : string * string → string) (d0 : DB) (c1 c2 : config)
    (key : string * string) (r1 r2 : ProjectRow)
    (Hinv : db_inv d0)
    (Hexec1 : execution life {| cf_DB := d0; cf_Threads := [] |} c1) (Hexec2 : execution life c1 c2)
    (Hr1 : db_Projects (cf_DB c1) !! key = Some r1) (Hr2 : db_Projects (cf_DB c2) !! key = Some r2)
    (Hdel : deleting (row_status r1)) :
  deleting (row_status r2) ∧
  st_AssignmentGeneration (row_status r2) = st_AssignmentGeneration (row_status r1) ∧
  (st_Phase (row_status r1) = ProjectPhaseTerminated → st_Phase (row_status r2) = ProjectPhaseTerminated).
Proof.
  destruct (record_evolves life d0 c1 c2 key r1 r2 Hinv Hexec1 Hexec2 Hr1 Hr2) as [Hu He].
  destruct (re_status _ _ He) as [_ _ _ _ Hd Ht _ _ _]. destruct (Hd Hdel). auto.
Qed.

(** C6 (the whole server): every record is well-formed at every moment. Its generation
    and revisions are in range and below its version; its phase column is the phase of
    its status; a Pending record is assigned nowhere and an assigned one was granted a
    generation; its obligations are of its own lifetime, each for another assignment;
    and every generation ever granted is accounted for, by an obligation or by the
    current assignment. *)
Theorem records_stay_well_formed (life : string * string → string) (d0 : DB) (c : config)
    (key : string * string) (r : ProjectRow)
    (Hinv : db_inv d0) (Hexec : execution life {| cf_DB := d0; cf_Threads := [] |} c)
    (Hr : db_Projects (cf_DB c) !! key = Some r) :
  let s := row_status r in
  (0 ≤ st_AssignmentGeneration s ≤ row_Version r)%Z ∧
  (0 ≤ st_ObservedSpecRevision s ≤ row_SpecRevision r)%Z ∧ (row_SpecRevision r ≤ row_Version r ≤ max_int64)%Z ∧
  row_Phase r = st_Phase s ∧ row_UID r = life key ∧
  (st_Phase s = ProjectPhasePending → st_NodeRef s = EmptyString) ∧
  (st_NodeRef s ≠ EmptyString → (1 ≤ st_AssignmentGeneration s)%Z) ∧
  (st_AssignmentHistory s = AssignmentHistoryNeverAssigned → st_AssignmentGeneration s = 0%Z) ∧
  NoDup (ob_Assignment <$> obligations s) ∧
  (∀ o, o ∈ obligations s → ProjectUID (ob_Assignment o) = life key ∧
     (1 ≤ ai_Generation (ob_Assignment o) ≤ st_AssignmentGeneration s)%Z) ∧
  (∀ g, (1 ≤ g ≤ st_AssignmentGeneration s)%Z →
     (∃ o, o ∈ obligations s ∧ ai_Generation (ob_Assignment o) = g) ∨
     (g = st_AssignmentGeneration s ∧ st_NodeRef s ≠ EmptyString)).
Proof.
  assert (named life d0) as Hn0 by (clear -Hexec; by induction Hexec).
  destruct (execution_ok life _ _ (idle_ok life d0 Hinv Hn0) Hexec) as [_ (Hinv' & Hn & _)].
  destruct (di_rows _ Hinv' key r Hr) as [[[Hg Ha Hp Hnv Hu Hl Hc Ho] Hph Hgv Hrv Hvv Hv] _].
  cbv zeta. rewrite <- (Hn _ _ Hr). split_and!; try done; try lia.
  intros g [(o & Hog & Hin)%list_elem_of_fmap|Hcur]%Hc; [left|by right]. eauto.
Qed.

(** Expiry is final: a join token that cannot be redeemed cannot be redeemed later. *)
Lemma timestamptz_mono t1 t2 : (t1 ≤ t2 → timestamptz t1 ≤ timestamptz t2)%Z.
Proof.
  unfold timestamptz. intros Ht. pose proof (Z.div_le_mono t1 t2 1000 ltac:(lia) Ht).
  pose proof (Z.div_mod t1 1000 ltac:(lia)). pose proof (Z.div_mod t2 1000 ltac:(lia)). lia.
Qed.

Lemma redeemable_later r r' t1 t2 :
  join_evolves r r' → (t1 ≤ t2)%Z → redeemable t2 r' = true → redeemable t1 r = true.
Proof.
  intros [_ _ Hx _ Hu Hr] Ht%timestamptz_mono. unfold redeemable. rewrite Hx.
  intros Hb. bools. destruct Hb as [[Hu' Hr'] He]. split_and!; [|..|lia].
  - destruct (jt_UsedAt (jr_Token r)); [|done]. by rewrite Hu in Hu'.
  - destruct (jt_RevokedAt (jr_Token r)); [|done]. by rewrite Hr in Hr'.
Qed.

(** C5 (the whole server): credentials are final. At any two moments of an execution
    of any number of concurrent operations, with failures and stops anywhere: the
    digest of a token never identifies two principals; once its token is revoked
    it identifies nobody; a join token that could not be redeemed at the first
    moment, being used, revoked or expired, cannot be redeemed at the second; and
    at most one token was ever issued for a join token, a Node token for the Node
    of that join token, which is used. *)
Theorem credentials_are_final (life : string * string → string) (d0 : DB) (c1 c2 : config)
    (Hinv : db_inv d0)
    (Hexec1 : execution life {| cf_DB := d0; cf_Threads := [] |} c1) (Hexec2 : execution life c1 c2) :
  let a1 := db_Access (cf_DB c1) in let a2 := db_Access (cf_DB c2) in
  (∀ hash p1 p2, identifies (cf_DB c1) hash p1 → identifies (cf_DB c2) hash p2 → p2 = p1) ∧
  (∀ i r, ac_Tokens a1 !! i = Some r → at_RevokedAt (tr_Token r) ≠ None →
     ∀ p, ¬ identifies (cf_DB c2) (tr_Hash r) p) ∧
  (∀ k r t1 t2, ac_Joins a1 !! k = Some r → redeemable t1 r = false → (t1 ≤ t2)%Z →
     ∀ k' r', ¬ join_offered (jr_Hash r) t2 a2 k' r') ∧
  (∀ i r k, ac_Tokens a2 !! i = Some r → at_CreatedBy (tr_Token r) = join_creator k →
     at_Kind (tr_Token r) = APITokenKindNode ∧
     (∃ j, ac_Joins a2 !! k = Some j ∧ jt_UsedAt (jr_Token j) ≠ None ∧
           at_Name (tr_Token r) = jt_NodeName (jr_Token j)) ∧
     ∀ i' r', ac_Tokens a2 !! i' = Some r' → at_CreatedBy (tr_Token r') = join_creator k → i' = i).
Proof.
  intros a1 a2. assert (named life d0) as Hn0 by (clear -Hexec1; by induction Hexec1).
  destruct (execution_ok life _ _ (idle_ok life d0 Hinv Hn0) Hexec1) as [_ Hok1].
  destruct (execution_ok life _ _ Hok1 Hexec2) as [Hev (Hinv2 & _ & _)].
  pose proof (di_access _ Hinv2) as Ha. subst a1 a2. split_and!.
  - intros hash p1 p2 (i & r & Hr & Hh & _ & Hk1 & Hn1) (i' & r' & Hr' & Hh' & _ & Hk2 & Hn2).
    destruct (token_later _ _ i r Hev Hr) as (s & Hs & [_ ? ? _ ? _]).
    assert (i' = i) as -> by (eapply (ai_token_hash _ Ha); [exact Hr'|exact Hs|congruence]).
    assert (r' = s) as -> by congruence. destruct p1, p2; simpl in *. congruence.
  - intros i r Hr Hrev p (i' & r' & Hr' & Hh' & Hlive & _).
    destruct (token_later _ _ i r Hev Hr) as (s & Hs & He). pose proof (te_hash _ _ He).
    assert (i' = i) as -> by (eapply (ai_token_hash _ Ha); [exact Hr'|exact Hs|congruence]).
    assert (r' = s) as -> by congruence. by apply (revoked_stays r s He).
  - intros k r t1 t2 Hr Hno Ht k' r' (Hr' & Hh' & Hoff). apply redeemable_iff in Hoff.
    destruct (join_later _ _ k r Hev Hr) as (s & Hs & He). pose proof (je_hash _ _ He).
    assert (k' = k) as -> by (eapply (ai_join_hash _ Ha); [exact Hr'|exact Hs|congruence]).
    assert (r' = s) as -> by congruence.
    by rewrite (redeemable_later r s t1 t2 He Ht Hoff) in Hno.
  - intros i r k Hr Hk. destruct (ai_redeemed _ Ha i r k Hr Hk) as [? Hj]. split_and!; [done|done|].
    intros i' r' Hr' Hk'. exact (ai_redeemed_once _ Ha i' i r' r k Hr' Hr Hk' Hk).
Qed.
End system.

(** ** Concrete executions *)

Section solo.
Context `{UUIDSource}.

(** One operation running alone, with every statement succeeding: its step. *)
Definition solo_step (d : DB) (p : thread) : DB * thread :=
  match p with
  | Ret a => (d, Ret a)
  | Query R q k => (d, k (q d))
  | Exec R q k =>
      match q d with
      | Ok (r, Some d') => (d', k (Ok r))
      | Ok (r, None) => (d, k (Ok r))
      | Err e => (d, k (Err e))
      end
  | Now k => (d, k zero)
  | Publish topic name k => (d, k)
  end.

Fixpoint solo (n : nat) (d : DB) (p : thread) : DB * thread :=
  match n with O => (d, p) | S n => let '(d', p') := solo_step d p in solo n d' p' end.

Definition named_by (life : string * string → string) (d : DB) : bool :=
  forallb (λ kr, bool_decide (row_UID kr.2 = life kr.1)) (map_to_list (db_Projects d)).

Fixpoint solo_named (life : string * string → string) (n : nat) (d : DB) (p : thread) : bool :=
  named_by life d &&
  match n with O => true | S n => let '(d', p') := solo_step d p in solo_named life n d' p' end.

Lemma named_by_spec life d : named_by life d = true → named life d.
Proof.
  unfold named_by, named. rewrite forallb_forall. intros Hall key r Hr.
  specialize (Hall (key, r)). rewrite <- list_elem_of_In, elem_of_map_to_list in Hall.
  specialize (Hall Hr). by bools.
Qed.

Definition finished (p : thread) : bool := match p with Ret _ => true | _ => false end.

Lemma solo_tstep d p : finished p = false → tstep d p (solo_step d p).1 (solo_step d p).2.
Proof.
  destruct p as [a|R q k|R q k|k|t n k]; simpl; intros Hp; [done|apply ts_query| |apply ts_now|apply ts_publish].
  destruct (q d) as [[r [d'|]]|e] eqn:Eq; simpl; by econstructor.
Qed.

Lemma solo_step_cases life c0 d p :
  execution life c0 {| cf_DB := d; cf_Threads := [p] |} → named life (solo_step d p).1 →
  execution life c0 {| cf_DB := (solo_step d p).1; cf_Threads := [(solo_step d p).2] |}.
Proof.
  intros He Hn. destruct (finished p) eqn:Ef; [by destruct p|].
  eapply ex_step; [exact He| |done]. apply (step_run d _ [] p _ []). by apply solo_tstep.
Qed.

Lemma solo_execution life c0 n d p :
  execution life c0 {| cf_DB := d; cf_Threads := [p] |} → solo_named life n d p = true →
  execution life c0 {| cf_DB := (solo n d p).1; cf_Threads := [(solo n d p).2] |}.
Proof.
  revert d p. induction n as [|n IH]; intros d p He Hn; simpl in *; [done|].
  apply andb_true_iff in Hn as [_ Hn].
  assert (named life (solo_step d p).1) as Hn1.
  { apply named_by_spec. destruct (solo_step d p) as [d' p']. simpl. destruct n; simpl in Hn;
      by apply andb_true_iff in Hn as [? _]. }
  pose proof (solo_step_cases life c0 d p He Hn1) as He'.
  destruct (solo_step d p) as [d' p']. by apply IH.
Qed.

Lemma solo_from_idle life n d p :
  operation p → solo_named life n d p = true →
  execution life {| cf_DB := d; cf_Threads := [] |}
    {| cf_DB := (solo n d p).1; cf_Threads := [(solo n d p).2] |}.
Proof.
  intros Hop Hn. assert (named life d) as Hd
    by (apply named_by_spec; destruct n; simpl in Hn; by apply andb_true_iff in Hn as [? _]).
  apply solo_execution; [|done].
  eapply ex_step; [by apply ex_start|by apply step_start|done].
Qed.
End solo.

(** The one Project of the examples has one lifetime. *)
Definition one_life (key : string * string) : string := counter_uuid 0.

(** The record of a Project torn down completely is removed by the finalizer. *)
Lemma records_outlive_assignments_witness :
  let d0 := example_db cleaned_status 4 in
  let p := detach (adapter_FinalizeProject "shop" (counter_uuid 0)) in
  db_Projects (solo 1 d0 p).1 !! project_key "shop" = None ∧
  ∃ o, o ∈ obligations cleaned_status ∧ ob_ResourcesRemoved o ≠ None.
Proof.
  intros d0 p. assert (db_Projects (solo 1 d0 p).1 !! project_key "shop" = None) as Hgone
    by (vm_compute; reflexivity).
  split; [exact Hgone|].
  destruct (@records_outlive_assignments counter_uuids one_life d0
    {| cf_DB := d0; cf_Threads := [p] |}
    {| cf_DB := (solo 1 d0 p).1; cf_Threads := [(solo 1 d0 p).2] |} (project_key "shop")
    (example_row (counter_uuid 0) cleaned_status 4) cleaned_db_inv)
    as [(r' & Hr' & _)|(_ & Hall)].
  - apply (@solo_from_idle counter_uuids one_life 0 d0 p); [apply op_finalize|vm_compute; reflexivity].
  - apply (@step_run counter_uuids d0 _ [] p _ []).
    by apply solo_tstep.
  - apply named_by_spec. vm_compute. reflexivity.
  - vm_compute. reflexivity.
  - exfalso. discriminate (eq_trans (eq_sym Hgone) Hr').
  - destruct (Hall 1%Z ltac:(vm_compute; split; discriminate)) as (o & Ho & _ & _ & Hrr). eauto.
Defined.

(** A running Project is deleted by the API: the assignment of Node "a" stays,
    and owes its cleanup from then on. *)
Definition deletion_run (n : nat) : DB :=
  (solo n (example_db (running_status "a") 3) (detach (deleteProject "shop" false))).1.
Definition deleting_row (n : nat) : ProjectRow :=
  default (example_row EmptyString InitialProjectStatus 0) (project_at (deletion_run n) "shop").

Lemma deletion_execution n :
  solo_named one_life n (example_db (running_status "a") 3) (detach (deleteProject "shop" false)) = true →
  ∃ p, @execution counter_uuids one_life
    {| cf_DB := example_db (running_status "a") 3; cf_Threads := [] |}
    {| cf_DB := deletion_run n; cf_Threads := [p] |}.
Proof. intros Hn. eexists. apply solo_from_idle; [apply op_delete|exact Hn]. Qed.

Lemma generation_names_one_node_witness :
  is_Some (FindObligation (st_Recovery (row_status (deleting_row 5))) (assignmentIdentity example_ref)) ∧
  (1 ≤ st_AssignmentGeneration (row_status (deleting_row 5)))%Z.
Proof.
  destruct (deletion_execution 5 ltac:(vm_compute; reflexivity)) as [p Hexec].
  split; [eexists; vm_compute; reflexivity|].
  refine (proj1 (@generation_names_one_node counter_uuids one_life (example_db (running_status "a") 3)
    {| cf_DB := example_db (running_status "a") 3; cf_Threads := [] |} _ (project_key "shop")
    (example_row (counter_uuid 0) (running_status "a") 3) (deleting_row 5) example_running_inv
    _ Hexec _ _ _)).
  - apply ex_start, named_by_spec. vm_compute. reflexivity.
  - vm_compute. reflexivity.
  - vm_compute. reflexivity.
  - vm_compute. discriminate.
Defined.

(** The rest of the same execution, from the write on. *)
Lemma deletion_continues :
  ∃ c1, cf_DB c1 = deletion_run 5 ∧
    @execution counter_uuids one_life {| cf_DB := example_db (running_status "a") 3; cf_Threads := [] |} c1 ∧
    @execution counter_uuids one_life c1 {| cf_DB := deletion_run 5; cf_Threads := [] |}.
Proof.
  destruct (deletion_execution 5 ltac:(vm_compute; reflexivity)) as [p Hexec].
  assert (named one_life (deletion_run 5)) as Hn by (apply named_by_spec; vm_compute; reflexivity).
  exists {| cf_DB := deletion_run 5; cf_Threads := [p] |}. split_and!; [done|done|].
  eapply ex_step; [by apply ex_start|apply (step_stop _ [] p [])|done].
Qed.

Lemma obligations_are_kept_witness :
  is_Some (FindObligation (st_Recovery (row_status (deleting_row 5))) (assignmentIdentity example_ref)).
Proof.
  destruct deletion_continues as (c1 & Hc1 & H1 & H2).
  destruct (@obligations_are_kept counter_uuids one_life (example_db (running_status "a") 3) c1 _
    (project_key "shop") (deleting_row 5) (deleting_row 5) (assignmentIdentity example_ref)
    (new_obligation (assignmentIdentity example_ref) 0%Z ReleaseByDeletion) example_running_inv H1 H2)
    as (o' & Ho' & _).
  - rewrite Hc1. vm_compute. reflexivity.
  - vm_compute. reflexivity.
  - vm_compute. reflexivity.
  - by eexists.
Defined.

Lemma deletion_is_final_witness : deleting (row_status (deleting_row 5)).
Proof.
  destruct deletion_continues as (c1 & Hc1 & H1 & H2).
  apply (@deletion_is_final counter_uuids one_life (example_db (running_status "a") 3) c1
    {| cf_DB := deletion_run 5; cf_Threads := [] |}
    (project_key "shop") (deleting_row 5) (deleting_row 5) example_running_inv H1 H2).
  - rewrite Hc1. vm_compute. reflexivity.
  - vm_compute. reflexivity.
  - left. vm_compute. reflexivity.
Defined.

Lemma records_stay_well_formed_witness :
  NoDup (ob_Assignment <$> obligations (row_status (deleting_row 5))) ∧
  row_Phase (deleting_row 5) = ProjectPhaseTerminating.
Proof.
  destruct deletion_continues as (c1 & Hc1 & H1 & _).
  destruct (@records_stay_well_formed counter_uuids one_life (example_db (running_status "a") 3) c1
    (project_key "shop") (deleting_row 5) example_running_inv H1)
    as (_ & _ & _ & Hphase & _ & _ & _ & _ & Hunique & _).
  - rewrite Hc1. vm_compute. reflexivity.
  - split; [exact Hunique|]. rewrite Hphase. vm_compute. reflexivity.
Defined.

(** Node "a" joins with its join token; from then on the token is spent. *)
Lemma credentials_are_final_witness :
  let d := db_with_Access (ac_with_Joins 2 {[ 1%Z := {| jr_Token := jr_Token example_join; jr_Hash := HashToken "j" |} ]}
             no_access) empty_db in
  let d' := (solo 2 d (detach (joinNode (Ok []) "a" "Bearer j"))).1 in
  ac_Tokens (db_Access d') ≠ ∅ ∧
  ∀ k r, ¬ join_offered (HashToken "j") 5000%Z (db_Access d') k r.
Proof.
  intros d d'. split; [vm_compute; discriminate|]. intros k r.
  assert (@db_inv counter_uuids d) as Hinv.
  { split; [intros key x; simpl; by rewrite lookup_empty|done|].
    split; simpl; try (intros *; rewrite lookup_empty; done).
    - intros i j x y [<- <-]%lookup_singleton_Some [<- <-]%lookup_singleton_Some. done.
    - by intros i x [<- <-]%lookup_singleton_Some. }
  set (p := detach (joinNode (Ok []) "a" "Bearer j")).
  assert (@execution counter_uuids one_life {| cf_DB := d; cf_Threads := [] |}
    {| cf_DB := d'; cf_Threads := [(solo 2 d p).2] |}) as Hexec.
  { apply solo_from_idle; [apply op_join|vm_compute; reflexivity]. }
  destruct (ac_Joins (db_Access d') !! 1%Z) as [j|] eqn:Ej; [|vm_compute in Ej; discriminate].
  assert (jr_Hash j = HashToken "j" ∧ redeemable 5000%Z j = false) as [<- Hj].
  { vm_compute in Ej. injection Ej as <-. split; vm_compute; reflexivity. }
  destruct (@credentials_are_final counter_uuids one_life d
    {| cf_DB := d'; cf_Threads := [(solo 2 d p).2] |} {| cf_DB := d'; cf_Threads := [(solo 2 d p).2] |} Hinv Hexec)
    as (_ & _ & Hfinal & _).
  - apply ex_start, named_by_spec. vm_compute. reflexivity.
  - exact (Hfinal 1%Z j 5000%Z 5000%Z Ej Hj ltac:(done) k r).
Defined.
